(* ===== verification/_CoqProject ===== *)
-Q . S2P
Prelude.v
Isa.v
Registers.v
Machine.v
Input.v
InputFacts.v
Taint.v
TaintSound.v
Boosting.v
BasicBlock.v
Generator.v
GeneratorFacts.v
Passes.v
PassesFacts.v
Division.v
SandboxFacts.v
FlagsFacts.v
LayoutFacts.v
Dataflow.v
DataflowFacts.v
Uc.v
Model.v
SpecFacts.v
HookFacts.v
SpeculationEnds.v
ModelFacts.v
ObserveFacts.v
Util.v
Text.v
Service.v
Analyser.v
Fuzzer.v
FuzzerFacts.v
Postprocessor.v
PostFacts.v
Coverage.v
Json.v
IsaLoader.v
GetSpec.v
GetSpecFacts.v
LegacyIsa.v
Config.v
ArgParse.v
Cli.v
ExecData.v
ModelLoad.v
Alike.v
Purity.v
Compose.v
DebugFiles.v
Reports.v
CacheTrace.v
Ipc.v
IpcFacts.v
Protolib.v
Packets.v
Parser.v
ParserFacts.v
ParserProgram.v
Gem5Cmd.v
Gem5Exec.v
Gem5ExecFacts.v
Gem5Proc.v
Patterns.v
GenExternal.v
CacheLog.v
Benchmark.v
Launch.v
Autorun.v
Understanding.v
EventLog.v
AnalyseRun.v
Cause.v
