(* ===== verification/Prelude.v ===== *)
(** * A verification library for AMuLeT with Protean support

    AMuLeT tests the speculation defences of a simulated processor.  It generates
    a random x86 test case, runs it on a model that says what a program may leak
    (a contract) and on gem5 with the defence, for many inputs, and reports two
    inputs that the contract cannot tell apart and the hardware trace can.  This
    library models the Python program under [src/src/] and proves what makes its
    verdicts meaningful.

    ** How the program fits together

    [cli.py] sets the configuration of [config.py] and starts the loop of
    [fuzzer.py].  A round asks [generator.py] for a test case (over the
    instructions [isa_loader.py] loaded) and [input_generator.py] for inputs,
    loads both into the contract model of [model.py] and the executor of
    [executor.py], lets the model's taint tracker say which words of an input the
    contract trace depends on, multiplies the inputs by redrawing the other words
    (boosting), collects contract and hardware traces, and hands them to
    [analyser.py].  A violation is checked again in the context of the other input
    (priming) and minimised by [postprocessor.py].  [ipc_orchestration.py] talks to
    gem5; [coverage.py] counts dependent pairs of instructions.
    [benchmark.py] spreads fuzzing jobs over worker processes, and
    [analyse_ipc_violation.py] turns the gem5 log of a violation into a report.

    ** Conventions

    A function that can raise returns [result]; stateful code is a state monad
    over [result] local to its component, whose state is a record of the fields of
    the object (and of the objects it shares).  Machine words are [Z] with their
    wrap-around written out, bytes are [Z], dictionaries whose order matters are
    association lists and the others stdpp maps, instructions and blocks, which
    the code aliases and mutates, live in heaps.  What is not in the repository is
    a parameter: the emulator, the disassembler, gem5 and its sockets, TOML, YAML,
    XML and protobuf, hashes, numpy's uninitialised memory, random draws, clocks.
    The documented behaviour a theorem needs of them is a class of laws or a
    hypothesis, and a small concrete instance shows it can hold.

    ** Files

    Foundations.
    - [Prelude]: exceptions, the error monad, [for_each], inversion tactics,
      lemmas on lists and bits.  [Util]: insertion-ordered dictionaries and
      [CachingDict] ([util.py]).  [Text]: Python's string methods and matching.
      [Patterns]: the pieces the regular expressions of the scripts share.
    - [Isa]: operands, instructions and their specifications ([interfaces.py]) and
      the register tables ([generator.py]).
    - [Registers], [Machine]: x86 itself, not the repository: which bits of which register
      a name stands for (EAX and AH are parts of RAX), and the few instructions the
      sandbox inserts, on registers of 64 bits and bytes of memory.

    Inputs, contract traces and boosting.
    - [Input], [InputFacts]: [Input], [InputTaint] and the random generator; the
      words as a function of the seed, preservation of tainted words, bytes.
    - [Taint], [TaintSound], [Boosting]: [TaintTracker] of [model.py]; a
      simulation between two runs of one program whose inputs agree on the words
      the taint names.  The tracker only sees a branch that has RIP among its operands,
      which generated branches have not, so the theorem says: the contract traces are
      equal, or the two runs part right after an instruction that redirected the
      execution without declaring RIP.

    Test cases.
    - [BasicBlock]: the doubly linked list of instructions, refined by lists.
    - [Generator], [GeneratorFacts]: [RandomGenerator]; shape of the graph,
      terminators, operands that follow their specification.
    - [Passes], [PassesFacts], [Division], [SandboxFacts], [FlagsFacts], [LayoutFacts]: the
      sandbox (five walks over a block that amount to rewriting each instruction on
      its own), what it leaves of a division run on [Machine], the patches for undefined flags and results, fences, protection prefixes, the
      printer and the address map.
    - [Parser], [ParserFacts], [ParserProgram]: the assembly parser, the round trip
      of an instruction and of a whole program.
    - [Json]: the text format of the instruction set, printed and read back.
      [GetSpec], [GetSpecFacts]: from the XML description of the instructions to
      that file ([x86/isa_spec/get_spec.py]); [IsaLoader]: from the file to the
      instructions; what one writes the other reads.
    - [Coverage]: [DependentPairCoverage].

    The contract model.
    - [Uc]: the interface of the emulator and its laws, over the views of [Registers]: a
      write to a part of a register is read back through all names of the register.  [Model]: tracers,
      execution clauses, checkpoints and rollbacks of [model.py].
    - [SpecFacts], [HookFacts], [ModelFacts], [ObserveFacts]: rollbacks restore
      everything, the hooks keep nesting bounded and speculate under a
      checkpoint, mispredictions take the wrong side, what the clauses observe.
    - [SpeculationEnds]: runs of the emulator as a relation over the hooks;
      checkpoints point forward, so the loop of rollbacks ends.
    - [Alike], [Purity]: models that agree on what the clauses read stay so under every
      hook and rollback; loading an input makes two used models agree, so an input's
      traces do not depend on the inputs run before it.  The condition is a set of machine
      states (program counter, registers) that the test case never leaves, within which
      the emulator writes only registers that loading an input sets again and memory of
      the sandbox, as the mask of the sandbox pass has it.
    - [Dataflow], [DataflowFacts]: the CTS analysis; its result solves its
      equations, and two passes suffice for forward code.

    The loop.
    - [Analyser]: grouping by contract trace, violations.
    - [Fuzzer], [FuzzerFacts]: rounds, boosting, priming, the outer loop, over
      the classes [ContractModel], [HardwareExecutor] and [Coverage].
    - [Compose]: the contract model of [Model] and [ModelLoad] discharges what a round
      asks of a contract model, for a test case that stays in its sandbox.
    - [Postprocessor], [PostFacts]: [minimize] from the first reproduction of the
      violation over inputs and instructions to the fences, over any parser and any
      fuzzer, with the exceptions that end it.
    - [Config], [ArgParse], [Cli]: the options and their setter; how [argparse] reads
      words; [main] of [cli.py], from the words of a command line to the configuration,
      the directories it empties and makes, and the job it starts.

    Hardware.
    - [ExecData]: addresses, the preamble and data of an input, the assembly text
      around a test case.  [Gem5Cmd]: gem5's command line.
    - [DebugFiles]: files kept in memory or on disk.  [CacheTrace]: from the state
      gem5 dumps to the hardware trace.
    - [Ipc], [IpcFacts]: framing, hash, process pool and exchanges with gem5.
    - [Gem5Exec], [Gem5ExecFacts]: the executor's runs over that connection,
      refined to a specification without files.  [Gem5Proc]: the mode that starts
      a gem5 process per input, and its checkpoints.  [CacheLog]: the parser of
      cache logs, whose states are one shared object.
    - [ModelLoad]: how a test case and an input reach the emulator's memory and
      registers, over the interface of Unicorn's memory.
    - [Protolib]: varints and message streams of [protolib.py].  [Packets]: the packet
      traces of [executor.py] over them, which can only be empty.

    Scripts.
    - [GenExternal]: [generator_llvm.py] and [generator_const.py], the generators
      that draw test cases from a compiler or take a fixed one.
    - [Reports]: the directory and the files of a report ([fuzzer.py]), for several
      fuzzers that share their results.  [EventLog]: what
      [analyse_ipc_violation.py] prints about one; [AnalyseRun]: its arguments, the runs
      it starts and the files it collects.  [Cause]: its classification by
      [cleanupspec_analysis.py].
    - [Benchmark]: jobs, workers and the report of [benchmark.py]; [Launch]: what [main]
      of [cli.py] does with the command lines of its workers.  [Autorun]: the
      experiments of [autorun.py], their command line and their results.
    - [Understanding]: the tables and the report of [understanding.py].
    - [LegacyIsa]: the XML reader of [instruction_set.py].  [Service]: the counters and
      the logger of [service.py], trace bitmaps, counting bits.

    ** What the theorems show

    - Verdicts.  Boosting keeps the contract trace up to the first undeclared
      redirection; the analyser reports exactly
      the classes whose usable hardware traces disagree; a round is sound (what it
      reports are two inputs with one contract trace that still differ when
      primed) and complete on hardware without context effects.  The model gives
      every input of a batch the trace it has alone, so that these statements hold of
      a round that drives the model itself, over a class of laws for the hardware.
    - Speculation.  A rollback restores memory, registers and stacks; every clause
      changes state only under a checkpoint; nesting stays within its bound; every
      input's execution ends with no simulation open.
    - Test cases.  Functions are connected acyclic graphs, their terminators
      implement the edges, memory accesses are masked into the sandbox, divisions
      cannot fault (except by AH, [ah_division_faults]), undefined flags are patched, the
      address map is complete, and printing and parsing agree for the programs the text
      can carry.
    - Hardware side.  Model and executor start from the same input, for sandboxes that fit
      the address space; equal
      data-cache traces mean the same cached lines; messages survive segmentation
      and corruption is noticed; restarts keep the pool; debug files do not
      influence traces.
    - Scripts.  Every report gets a directory of its own under any interleaving of the
      fuzzers, and holds the files of its two inputs; the report of a violation shows every event of both logs once, in
      the order of time; the report of a benchmark does not depend on the order in
      which its jobs finish; patching the output of a compiler keeps what is
      already in the sandbox's form.
    - Configuration.  Aligned regions, precedence of the command line, the
      instructions the configuration allows.
    - Command lines.  A command made of options of a parser is read as their values, and
      an unknown option is refused: the workers of a benchmark are all accepted and none of
      their directories lies inside another's, the analysis of a violation looks where the
      fuzzer puts its files and reads back what it saved (its [event_log.txt] left as it is), and no experiment of [autorun.py] gets past the parser.

    Some behaviours are proved although they look unintended; their statements say
    so ([patches_inserted_in_reverse], [boosting_rounds_repeat],
    [wide_store_survives_rollback], [debug_flags_accumulate],
    [empty_block_disconnected] and others).

    ** Fuel and bounds

    Recursion that is not structural has fuel, and running out of it is the
    exception [OutOfFuel], which no Python code raises.
    - Iterating over a block is given the size of the heap; the refinement of
      blocks by lists shows it is enough.  Varints are given the bit length of
      the value, buffers and splits the length of the text: each step consumes one.
    - The pool of gem5 processes is filled with as many steps as processes asked
      for; the invariant of the pool shows that the fuel does not run out.
    - Minimisation and fencing take any fuel above the number of lines, and the
      theorem about minimisation says they return.
    - Looking for the directory of a report takes at most one attempt more than the
      results have entries.  Merging two lists of events has the sum of their lengths, a search for a
      regular expression the length of the text: each step consumes one.
    - The external generators retry without a bound; their definitions take a list
      of attempts.
    - The data-flow analysis has the thousand iterations of the code.
    - Choosing an instruction by rejection has no bound (a tape of draws may never
      satisfy it): its theorems quantify over the fuel, and one of them exhibits
      instruction sets for which no fuel is enough.
    - Rolling back the simulations left at the end of a run resumes the emulator,
      a parameter.  On forward code, with a nesting bound n and k instructions,
      n (n + 1)^k rollbacks are enough ([rollback_bound] of [SpeculationEnds]).

    ** Not modelled

    - [executor.py]: [find_instructions], which needs packets, [print_test_case] and the
      copies of [copy_bugs].
    - [fuzzer.py]: [build_batch_primer] fails at its first call of
      [primer_is_effective].
    - [generator.py], [generator_llvm.py]: the assembler, the disassembler and the
      compiler are parameters.
    - [service.py]: the profile of times, which is floating point, and three tables no
      caller prints.
    - [analyse_ipc_violation.py], [benchmark.py], [autorun.py], [understanding.py]: the
      programs they start (objdump, a shell, the decoder of packet traces, worker
      processes) are parameters, with the words they are started with modelled; so are
      [eval], YAML and TOML.  The body of the first loop of [understanding.py] comes
      after a [continue].  Means, deviations and the layout of tables of a benchmark.
    - [cli.py]: the texts of [--help].
    - [packet_pb2.py]: generated. *)

From Stdlib Require Export ZArith Lia Ascii.
From Stdlib Require HexString String.
From stdpp Require Export base tactics numbers list gmap strings pretty sorting.

Open Scope Z_scope.

(** ** Python exceptions and the error monad *)

Inductive exn :=
  | ValueError | KeyError | IndexError | TypeError | AttributeError
  | AssertionError | RuntimeError | OverflowError | ZeroDivisionError
  | UnboundLocalError | NameError | TimeoutError | IOError
  | ConfigException | GeneratorException | AsmParserException
  | NotSupportedException | ParseFailed | Gem5Crash | UcError | CalledProcessError
  | PlainException | SystemExit | StopIteration
  (* not a Python exception: the model ran out of fuel *)
  | OutOfFuel.

#[export] Instance exn_eq_dec : EqDecision exn.
Proof. solve_decision. Defined.

Inductive result (A : Type) :=
  | Ok (a : A)
  | Raise (e : exn).
Arguments Ok {A} _.
Arguments Raise {A} _.

#[export] Instance result_ret : MRet result := λ A a, Ok a.
#[export] Instance result_bind : MBind result := λ A B f m,
  match m with Ok a => f a | Raise e => Raise e end.
#[export] Instance result_fmap : FMap result := λ A B f m,
  match m with Ok a => Ok (f a) | Raise e => Raise e end.
#[export] Instance result_eq_dec {A} `{!EqDecision A} : EqDecision (result A).
Proof.
  intros x y. refine (match x, y with
    | Ok a, Ok b => cast_if (decide (a = b))
    | Raise e, Raise e' => cast_if (decide (e = e'))
    | _, _ => right _
    end); abstract congruence.
Defined.

(** [assert c e]: raise [e] unless the condition holds. *)
Definition assert_ (c : bool) (e : exn) : result unit :=
  if c then Ok tt else Raise e.

Definition from_option (e : exn) {A} (o : option A) : result A :=
  match o with Some a => Ok a | None => Raise e end.

Lemma bind_Ok {A B} (f : A → result B) (m : result A) b :
  m ≫= f = Ok b ↔ ∃ a, m = Ok a ∧ f a = Ok b.
Proof.
  destruct m as [a|e]; cbn; split; try done; try (by intros (? & ? & ?)); [by exists a|].
  by intros (? & [= ->] & ?).
Qed.

Lemma fmap_Ok {A B} (f : A → B) (m : result A) b :
  f <$> m = Ok b ↔ ∃ a, m = Ok a ∧ f a = b.
Proof.
  destruct m as [a|e]; cbn; split; try done; try (by intros (? & ? & ?)).
  - intros [= <-]. by exists a.
  - by intros (? & [= ->] & ->).
Qed.

Lemma assert_Ok c e u : assert_ c e = Ok u ↔ c = true.
Proof. unfold assert_. destruct c, u; naive_solver. Qed.

Lemma from_option_Ok {A} e (o : option A) a : from_option e o = Ok a ↔ o = Some a.
Proof. destruct o; cbn; naive_solver. Qed.

(** Evaluating a computation to know that it succeeds, without its value. *)
Definition succeeds {A} (m : result A) : bool := match m with Ok _ => true | Raise _ => false end.

Lemma succeeds_Ok {A} (m : result A) : succeeds m = true → ∃ a, m = Ok a.
Proof. destruct m as [a|]; [by exists a|done]. Qed.

(** [inv_ok] inverts every successful bind of the context. *)
Ltac inv_ok :=
  repeat match goal with
  | H : (_ ≫= _) = Ok _ |- _ =>
      let a := fresh "a" in let H1 := fresh H in
      apply bind_Ok in H as (a & H1 & H)
  | H : (_ <$> _) = Ok _ |- _ =>
      let a := fresh "a" in let H1 := fresh H in
      apply fmap_Ok in H as (a & H1 & H)
  | H : assert_ _ _ = Ok _ |- _ => apply assert_Ok in H
  | H : from_option _ _ = Ok _ |- _ => apply from_option_Ok in H
  | H : Ok _ = Ok _ |- _ => injection H as H
  | H : mret _ = Ok _ |- _ => injection H as H
  | H : Raise _ = Ok _ |- _ => discriminate H
  | H : Ok _ = Raise _ |- _ => discriminate H
  end; subst.

(** Left-to-right iteration of a fallible body, the shape of a Python [for]. *)
Fixpoint for_each {A S} (f : A → S → result S) (l : list A) (s : S) : result S :=
  match l with
  | [] => Ok s
  | x :: l => s' ← f x s; for_each f l s'
  end.

Lemma for_each_inv {A S} (P : S → Prop) (f : A → S → result S) l s s' :
  (∀ x s s', x ∈ l → P s → f x s = Ok s' → P s') →
  P s → for_each f l s = Ok s' → P s'.
Proof.
  revert s. induction l as [|x l IH]; cbn; intros s Hf HP H; inv_ok; [done|].
  eapply IH; [|eapply Hf|]; eauto; [|by left].
  intros; eapply Hf; eauto. by right.
Qed.

Lemma for_each_app {A S} (f : A → S → result S) l k s :
  for_each f (l ++ k) s = for_each f l s ≫= for_each f k.
Proof. revert s. induction l as [|x l IH]; intros s; cbn; [done|]. destruct (f x s); cbn; auto. Qed.

(** Mapping a fallible function: lengths and elements. *)
Lemma mapM_length {A B} (f : A → result B) l k : mapM f l = Ok k → length k = length l.
Proof.
  revert k. induction l as [|x l IH]; intros k H; cbn in H; inv_ok; [done|]. cbn. f_equal. auto.
Qed.

Lemma mapM_elem {A B} (f : A → result B) l k :
  mapM f l = Ok k → ∀ y, y ∈ k → ∃ x, x ∈ l ∧ f x = Ok y.
Proof.
  revert k. induction l as [|x l IH]; intros k H; cbn in H; inv_ok; intros y Hy.
  { by apply elem_of_nil in Hy. }
  apply elem_of_cons in Hy as [->|Hy]; [exists x; split; [by left|done]|].
  destruct (IH _ H1 y Hy) as (z & Hz & Hf). exists z. split; [by right|done].
Qed.

Lemma mapM_image {A B} (f : A → result B) l k :
  mapM f l = Ok k → ∀ x y, x ∈ l → f x = Ok y → y ∈ k.
Proof.
  revert k. induction l as [|x l IH]; intros k H; cbn in H; inv_ok; intros z y Hz Hf.
  { by apply elem_of_nil in Hz. }
  apply elem_of_cons in Hz as [->|Hz]; [rewrite H0 in Hf; injection Hf as <-; by left|].
  right. by eapply IH.
Qed.

Lemma existsb_false {A} (p : A → bool) l : existsb p l = false ↔ ∀ x, x ∈ l → p x = false.
Proof.
  induction l as [|x l IH]; cbn; [split; [intros _ y Hy; by apply elem_of_nil in Hy|done]|].
  rewrite orb_false_iff, IH. setoid_rewrite elem_of_cons. naive_solver.
Qed.

Lemma List_filter_all {A} (p : A → bool) l : (∀ x, x ∈ l → p x = true) → List.filter p l = l.
Proof.
  induction l as [|x l IH]; intros H; [done|]. cbn. rewrite H by (by left). f_equal.
  apply IH. intros y Hy. apply H. by right.
Qed.

(** ** Python sequences: negative indices and slices *)

(** The position a Python index denotes in a sequence of length [n]. *)
Definition py_pos (n : nat) (i : Z) : option nat :=
  let j := if i <? 0 then i + Z.of_nat n else i in
  if (0 <=? j) && (j <? Z.of_nat n) then Some (Z.to_nat j) else None.

(** [l[i]]; [IndexError] out of range. *)
Definition py_index {A} (l : list A) (i : Z) : result A :=
  from_option IndexError (py_pos (length l) i ≫= λ k, l !! k).

(** A slice bound is clamped to the sequence. *)
Definition py_bound (n : nat) (i : Z) : nat :=
  Z.to_nat (Z.min (Z.of_nat n) (Z.max 0 (if i <? 0 then i + Z.of_nat n else i))).

(** [l[:i]] and [l[i:]]. *)
Definition py_upto {A} (l : list A) (i : Z) : list A := take (py_bound (length l) i) l.
Definition py_from {A} (l : list A) (i : Z) : list A := drop (py_bound (length l) i) l.

Lemma py_bound_nonneg n i : 0 ≤ i → py_bound n i = Nat.min n (Z.to_nat i).
Proof. intros. unfold py_bound. destruct (Z.ltb_spec i 0); lia. Qed.

Lemma py_upto_nonneg {A} (l : list A) i : 0 ≤ i → py_upto l i = take (Z.to_nat i) l.
Proof.
  intros. unfold py_upto. rewrite py_bound_nonneg by done.
  destruct (decide (Z.to_nat i ≤ length l)%nat).
  - by rewrite Nat.min_r.
  - rewrite Nat.min_l by lia. rewrite !take_ge by lia. done.
Qed.

Lemma py_from_nonneg {A} (l : list A) i : 0 ≤ i → py_from l i = drop (Z.to_nat i) l.
Proof.
  intros. unfold py_from. rewrite py_bound_nonneg by done.
  destruct (decide (Z.to_nat i ≤ length l)%nat).
  - by rewrite Nat.min_r.
  - rewrite Nat.min_l by lia. rewrite !drop_ge by lia. done.
Qed.

(** Python membership on lists, as a boolean. *)
Definition mem {A} `{EqDecision A} (x : A) (l : list A) : bool := bool_decide (x ∈ l).

Lemma mem_spec {A} `{EqDecision A} (x : A) l : mem x l = true ↔ x ∈ l.
Proof. apply bool_decide_eq_true. Qed.
Lemma mem_false {A} `{EqDecision A} (x : A) l : mem x l = false ↔ x ∉ l.
Proof. apply bool_decide_eq_false. Qed.

(** Membership in a concrete list, by evaluation. *)
Ltac in_list := apply mem_spec; vm_compute; reflexivity.
Ltac in_notin := apply mem_false; vm_compute; reflexivity.

(** Weakening a pointwise relation, with membership at hand. *)
Lemma Forall2_impl_in {A B} (P Q : A → B → Prop) l k :
  Forall2 P l k → (∀ x y, x ∈ l → P x y → Q x y) → Forall2 Q l k.
Proof.
  induction 1 as [|x y l k Hxy Hlk IH]; intros HPQ; constructor.
  - apply HPQ; [by left|done].
  - apply IH. intros x' y' Hx'. apply HPQ. by right.
Qed.

(** ** Strings *)

Definition startswith (p s : string) : bool := String.prefix p s.

(** [hex(n)], as Python prints it; [int(s, 16)] on its image. *)
Definition hex (n : Z) : string := HexString.of_Z n.
Definition int16 (s : string) : Z := HexString.to_Z s.

Lemma int16_hex n : int16 (hex n) = n.
Proof. apply HexString.to_Z_of_Z. Qed.

#[export] Instance hex_inj : Inj (=) (=) hex.
Proof. intros a b H. by rewrite <- (int16_hex a), H, int16_hex. Qed.

Lemma hex_prefix n : 0 ≤ n → startswith "0x" (hex n) = true.
Proof. intros. destruct n as [|p|p]; [done| |lia]. cbn. by destruct (HexString.Raw.of_pos p ""). Qed.

(** [str(n)] *)
Definition str (n : Z) : string := pretty n.

(** The decimal digits of a string as a number; [None] for anything else. *)
Definition digit_value (c : ascii) : option Z :=
  let n := Z.of_N (N_of_ascii c) in
  if (48 <=? n) && (n <=? 57) then Some (n - 48) else None.
Fixpoint decimal_from (acc : Z) (s : string) : option Z :=
  match s with
  | EmptyString => Some acc
  | String c s => d ← digit_value c; decimal_from (10 * acc + d) s
  end.
Definition decimal (s : string) : option Z :=
  match s with EmptyString => None | _ => decimal_from 0 s end.

Definition ascii_upper (c : ascii) : ascii :=
  let n := N_of_ascii c in
  if (97 <=? n)%N && (n <=? 122)%N then ascii_of_N (n - 32) else c.
Definition ascii_lower (c : ascii) : ascii :=
  let n := N_of_ascii c in
  if (65 <=? n)%N && (n <=? 90)%N then ascii_of_N (n + 32) else c.

Fixpoint string_map (f : ascii → ascii) (s : string) : string :=
  match s with
  | EmptyString => EmptyString
  | String c s => String (f c) (string_map f s)
  end.

(** [s.upper()], [s.lower()] on ASCII text. *)
Definition upper : string → string := string_map ascii_upper.
Definition lower : string → string := string_map ascii_lower.

(** [sub in s] *)
Fixpoint str_in (sub s : string) : bool :=
  String.prefix sub s ||
  match s with EmptyString => false | String _ s => str_in sub s end.

(** [s.replace(c, d)] for single characters. *)
Definition replace_char (c d : ascii) : string → string :=
  string_map (λ x, if Ascii.eqb x c then d else x).

(** [sep.join(l)] *)
Fixpoint str_join (sep : string) (l : list string) : string :=
  match l with
  | [] => ""
  | [s] => s
  | s :: l => s +:+ sep +:+ str_join sep l
  end.

(** [s[len(p):] if s.startswith(p) else s] *)
Definition remove_prefix (s p : string) : string :=
  if String.prefix p s then String.substring (String.length p) (String.length s) s else s.

(** ** Bits *)

(** A mask of [n] ones keeps the value below [2^n]. *)
Lemma land_ones_bound x n : 0 ≤ n → 0 ≤ Z.land x (Z.ones n) < 2 ^ n.
Proof. intros. rewrite Z.land_ones by done. apply Z.mod_pos_bound. lia. Qed.

(** Disjoint operands: [or] is addition. *)
Lemma lor_disjoint_add x y : Z.land x y = 0 → Z.lor x y = x + y.
Proof. intros H. 
  rewrite <- (Z.add_lor_land x y), H. by rewrite Z.add_0_r.
Qed.

Lemma land_nonneg_le x y : 0 ≤ y → 0 ≤ Z.land x y ≤ y.
Proof.
  intros Hy. assert (0 ≤ Z.land x y) as Hnn by (apply Z.land_nonneg; auto).
  assert (0 ≤ Z.ldiff y x) by (apply Z.ldiff_nonneg; auto).
  rewrite (Z.land_comm x y) in *.
  assert (Z.ldiff y x + Z.land y x = y); [|split; [done|]].
  2:{ rewrite <- H0 at 2. apply (Z.add_le_mono_r 0) with (p := Z.land y x) in H. done. }
  rewrite <- lor_disjoint_add; [apply Z.lor_ldiff_and|].
  apply Z.bits_inj'. intros k Hk. rewrite !Z.land_spec, Z.ldiff_spec, Z.bits_0.
  by destruct (Z.testbit y k), (Z.testbit x k).
Qed.

Lemma lor_shift_add a b n :
  0 ≤ n → 0 ≤ a < 2 ^ n → Z.lor a (Z.shiftl b n) = a + b * 2 ^ n.
Proof.
  intros Hn Ha. rewrite lor_disjoint_add; [by rewrite Z.shiftl_mul_pow2|].
  apply Z.bits_inj'. intros k Hk. rewrite Z.land_spec, Z.bits_0, Z.shiftl_spec by done.
  destruct (Z.ltb_spec k n).
  - rewrite (Z.testbit_neg_r b) by lia. apply andb_false_r.
  - assert (a < 2 ^ k).
    { apply Z.lt_le_trans with (2 ^ n); [tauto|]. apply Z.pow_le_mono_r; lia. }
    destruct (decide (a = 0)) as [->|]; [by rewrite Z.bits_0|].
    rewrite (Z.bits_above_log2 a); [done|lia|]. apply Z.log2_lt_pow2; lia.
Qed.

(** ** Little-endian byte strings; a byte is a [Z] in [0, 256). *)

Fixpoint le_bytes (n : nat) (v : Z) : list Z :=
  match n with
  | O => []
  | S n => v mod 256 :: le_bytes n (v / 256)
  end.

Fixpoint le_value (bs : list Z) : Z :=
  match bs with
  | [] => 0
  | b :: bs => b + 256 * le_value bs
  end.

Lemma length_le_bytes n v : length (le_bytes n v) = n.
Proof. revert v. induction n; intros; cbn; auto. Qed.

Lemma le_value_bytes n v : le_value (le_bytes n v) = v mod 256 ^ Z.of_nat n.
Proof.
  revert v. induction n as [|n IH]; intros v; cbn [le_bytes le_value].
  - by rewrite Z.mod_1_r.
  - rewrite IH, Nat2Z.inj_succ, Z.pow_succ_r by lia.
    rewrite Z.rem_mul_r by lia. done.
Qed.

Definition byte_list (bs : list Z) : Prop := Forall (λ b, 0 ≤ b < 256) bs.

Lemma le_bytes_byte_list n v : byte_list (le_bytes n v).
Proof.
  revert v. induction n as [|n IH]; intros; cbn; constructor; [|apply IH].
  by apply Z.mod_pos_bound.
Qed.

Lemma le_bytes_value bs : byte_list bs → le_bytes (length bs) (le_value bs) = bs.
Proof.
  induction 1 as [|b bs Hb _ IH]; cbn [length le_bytes le_value]; [done|].
  replace ((b + 256 * le_value bs) mod 256) with b.
  2:{ rewrite Z.mul_comm, Z.mod_add by lia. by rewrite Z.mod_small. }
  replace ((b + 256 * le_value bs) / 256) with (le_value bs); [by rewrite IH|].
  rewrite Z.mul_comm, Z.div_add by lia. by rewrite Z.div_small.
Qed.

Lemma le_value_bound bs : byte_list bs → 0 ≤ le_value bs < 256 ^ Z.of_nat (length bs).
Proof.
  intros H. rewrite <- (le_bytes_value bs H) at 1 2. rewrite le_value_bytes.
  apply Z.mod_pos_bound. lia.
Qed.

Create HintDb pyrz.
#[export] Hint Rewrite @mem_spec @mem_false length_le_bytes int16_hex : pyrz.
#[export] Hint Resolve le_bytes_byte_list hex_prefix : pyrz.
