(* ===== verification/Isa.v ===== *)
(** * Instructions, operands and the register file

    The value types of [src/src/interfaces.py] (operand and instruction
    specifications, the six operand classes, the queries of an instruction)
    and the register tables of [X86Registers] in [src/src/generator.py].
    Python's class hierarchy of operands is an inductive type with one
    constructor per class; a subclass fixes the [type] of its instances, so
    [isinstance] and [o.type ==] are the same test. *)

From S2P Require Import Prelude.

Open Scope Z_scope.

(** ** Operand types *)

Inductive OT := REG | MEM | IMM | LABEL | AGEN | FLAGS | COND.

#[export] Instance OT_eq_dec : EqDecision OT.
Proof. solve_decision. Defined.

(** ** Specifications *)

Record OperandSpec := mkOperandSpec {
  os_values : list string;
  os_type : OT;
  os_width : Z;
  os_src : bool;
  os_dest : bool;
  os_magic_value : bool
}.

#[export] Instance OperandSpec_eq_dec : EqDecision OperandSpec.
Proof. solve_decision. Defined.

(** [OperandSpec(values, type_, src, dest)]: width 0, no magic value. *)
Definition new_OperandSpec (values : list string) (type_ : OT) (src dest : bool) : OperandSpec :=
  mkOperandSpec values type_ 0 src dest false.

Record InstructionSpec := mkInstructionSpec {
  is_name : string;
  is_operands : list OperandSpec;
  is_implicit_operands : list OperandSpec;
  is_category : string;
  is_control_flow : bool;
  is_has_mem_operand : bool;
  is_has_write : bool;
  is_has_magic_value : bool
}.

#[export] Instance InstructionSpec_eq_dec : EqDecision InstructionSpec.
Proof. solve_decision. Defined.

(** ** Operands *)

Inductive Operand :=
  | RegisterOperand (value : string) (width : Z) (src dest : bool)
  | MemoryOperand (value : string) (width : Z) (src dest : bool)
  | ImmediateOperand (value : string) (width : Z)
  | LabelOperand (value : string)
  | AgenOperand (value : string) (width : Z)
  | FlagsOperand (_flag_values : list string).

#[export] Instance Operand_eq_dec : EqDecision Operand.
Proof. solve_decision. Defined.

(** The constructors of the classes, with the case folding of [__init__]. *)
Definition new_RegisterOperand (v : string) (w : Z) (s d : bool) : Operand :=
  RegisterOperand (upper v) w s d.
Definition new_MemoryOperand (v : string) (w : Z) (s d : bool) : Operand :=
  MemoryOperand (upper v) w s d.
Definition new_ImmediateOperand (v : string) (w : Z) : Operand := ImmediateOperand (lower v) w.
Definition new_LabelOperand (v : string) : Operand := LabelOperand v.
Definition new_AgenOperand (v : string) (w : Z) : Operand := AgenOperand (upper v) w.

Definition _flag_names : list string :=
  ["CF"; "PF"; "AF"; "ZF"; "SF"; "TF"; "IF"; "DF"; "OF"].

(** [FlagsOperand.__init__] asserts one mode per flag. *)
Definition new_FlagsOperand (v : list string) : result Operand :=
  assert_ (Nat.eqb (length v) (length _flag_names)) AssertionError;; Ok (FlagsOperand v).

Definition op_value (o : Operand) : string :=
  match o with
  | RegisterOperand v _ _ _ | MemoryOperand v _ _ _ | ImmediateOperand v _
  | LabelOperand v | AgenOperand v _ => v
  | FlagsOperand _ => "FLAGS"
  end.
Definition op_type (o : Operand) : OT :=
  match o with
  | RegisterOperand _ _ _ _ => REG
  | MemoryOperand _ _ _ _ => MEM
  | ImmediateOperand _ _ => IMM
  | LabelOperand _ => LABEL
  | AgenOperand _ _ => AGEN
  | FlagsOperand _ => FLAGS
  end.
(** [width] is 0 unless the class sets it. *)
Definition op_width (o : Operand) : Z :=
  match o with
  | RegisterOperand _ w _ _ | MemoryOperand _ w _ _ | ImmediateOperand _ w | AgenOperand _ w => w
  | LabelOperand _ | FlagsOperand _ => 0
  end.
Definition op_src (o : Operand) : bool :=
  match o with
  | RegisterOperand _ _ s _ | MemoryOperand _ _ s _ => s
  | ImmediateOperand _ _ | LabelOperand _ | AgenOperand _ _ => true
  | FlagsOperand _ => false
  end.
Definition op_dest (o : Operand) : bool :=
  match o with
  | RegisterOperand _ _ _ d | MemoryOperand _ _ _ d => d
  | _ => false
  end.

(** [o.value = v] *)
Definition set_op_value (o : Operand) (v : string) : Operand :=
  match o with
  | RegisterOperand _ w s d => RegisterOperand v w s d
  | MemoryOperand _ w s d => MemoryOperand v w s d
  | ImmediateOperand _ w => ImmediateOperand v w
  | LabelOperand _ => LabelOperand v
  | AgenOperand _ w => AgenOperand v w
  | FlagsOperand fv => FlagsOperand fv
  end.

(** ** Flags *)

(** [_get_flag_list(types)]: the names of the flags whose mode is listed. *)
Definition _get_flag_list (modes types : list string) : list string :=
  omap (λ p : string * string, if mem p.1 types then Some p.2 else None)
       (zip modes _flag_names).

Definition get_read_flags (modes : list string) : list string :=
  _get_flag_list modes ["r"; "r/w"; "r/cw"].
Definition get_write_flags (modes : list string) : list string :=
  _get_flag_list modes ["w"; "r/w"; "r/cw"].
Definition get_undef_flags (modes : list string) : list string :=
  _get_flag_list modes ["undef"].

(** [self.is_dependent(flags)]: a flag written by [flags] is read by [self];
    the test is substring membership on the two modes. *)
Definition is_dependent (self flags : list string) : bool :=
  existsb (λ p : string * string, str_in "w" p.1 && str_in "r" p.2) (zip flags self).

(** ** Instructions *)

Record Instruction := mkInstruction {
  i_name : string;
  i_operands : list Operand;
  i_implicit_operands : list Operand;
  i_category : string;
  i_control_flow : bool;
  i_is_instrumentation : bool;
  i_latest_reg_operand : option Operand
}.

#[export] Instance Instruction_eq_dec : EqDecision Instruction.
Proof. solve_decision. Defined.

Definition new_Instruction (name : string) (is_instrumentation : bool) (category : string)
    (control_flow : bool) : Instruction :=
  mkInstruction name [] [] category control_flow is_instrumentation None.

Definition from_spec (spec : InstructionSpec) (is_instrumentation : bool) : Instruction :=
  new_Instruction (is_name spec) is_instrumentation (is_category spec) (is_control_flow spec).

Definition set_operands (i : Instruction) (ops : list Operand) : Instruction :=
  mkInstruction (i_name i) ops (i_implicit_operands i) (i_category i) (i_control_flow i)
    (i_is_instrumentation i) (i_latest_reg_operand i).
Definition set_implicit_operands (i : Instruction) (ops : list Operand) : Instruction :=
  mkInstruction (i_name i) (i_operands i) ops (i_category i) (i_control_flow i)
    (i_is_instrumentation i) (i_latest_reg_operand i).
Definition set_is_instrumentation (i : Instruction) (b : bool) : Instruction :=
  mkInstruction (i_name i) (i_operands i) (i_implicit_operands i) (i_category i)
    (i_control_flow i) b (i_latest_reg_operand i).
Definition set_latest_reg_operand (i : Instruction) (o : option Operand) : Instruction :=
  mkInstruction (i_name i) (i_operands i) (i_implicit_operands i) (i_category i)
    (i_control_flow i) (i_is_instrumentation i) o.

Definition add_op (i : Instruction) (op : Operand) (implicit : bool) : Instruction :=
  if implicit then set_implicit_operands i (i_implicit_operands i ++ [op])
  else set_operands i (i_operands i ++ [op]).

(** [Instruction.__str__] *)
Definition instruction_str (i : Instruction) : string :=
  i_name i +:+ " " +:+ str_join ", "
    ((λ o, match o with
           | MemoryOperand v _ _ _ => "[" +:+ v +:+ "]"
           | _ => op_value o
           end) <$> i_operands i).

Definition is_reg (o : Operand) : bool := bool_decide (op_type o = REG).
Definition is_mem (o : Operand) : bool := bool_decide (op_type o = MEM).

Definition has_mem_operand (i : Instruction) (include_implicit : bool) : bool :=
  existsb is_mem (i_operands i) ||
  (include_implicit && existsb is_mem (i_implicit_operands i)).
Definition has_write (i : Instruction) : bool :=
  existsb (λ o, is_mem o && op_dest o) (i_operands i).
Definition has_read (i : Instruction) : bool :=
  existsb (λ o, is_mem o && op_src o) (i_operands i).

(** [filter] on lists by a boolean test, written as the loops write it. *)
Definition select {A} (p : A → bool) (l : list A) : list A := List.filter p l.

Definition get_src_operands (i : Instruction) (include_implicit : bool) : list Operand :=
  select op_src (i_operands i) ++
  (if include_implicit then select op_src (i_implicit_operands i) else []).
Definition get_dest_operands (i : Instruction) (include_implicit : bool) : list Operand :=
  select op_dest (i_operands i) ++
  (if include_implicit then select op_dest (i_implicit_operands i) else []).
Definition get_mem_operands (i : Instruction) : list Operand :=
  select is_mem (i_operands i) ++ select is_mem (i_implicit_operands i).
Definition get_implicit_mem_operands (i : Instruction) : list Operand :=
  select is_mem (i_implicit_operands i).
Definition get_reg_operands (i : Instruction) : list Operand :=
  select is_reg (i_implicit_operands i) ++ select is_reg (i_operands i).

(** The flag modes of the first [FlagsOperand], implicit operands first. *)
Definition get_flags_operand (i : Instruction) : option (list string) :=
  head (omap (λ o, match o with FlagsOperand fv => Some fv | _ => None end)
             (i_implicit_operands i ++ i_operands i)).

(** ** X86Registers *)

Definition register_sizes : gmap string Z := list_to_map
  (((λ r, (r, 64)) <$> ["RAX"; "RBX"; "RCX"; "RDX"; "RSI"; "RDI"; "RSP"; "RBP";
     "R8"; "R9"; "R10"; "R11"; "R12"; "R13"; "R14"; "R15"]) ++
   ((λ r, (r, 32)) <$> ["EAX"; "EBX"; "ECX"; "EDX"; "ESI"; "EDI"; "R8D"; "R9D";
     "R10D"; "R11D"; "R12D"; "R13D"; "R14D"; "R15D"]) ++
   ((λ r, (r, 16)) <$> ["AX"; "BX"; "CX"; "DX"; "SI"; "DI"; "R8W"; "R9W";
     "R10W"; "R11W"; "R12W"; "R13W"; "R14W"; "R15W"]) ++
   ((λ r, (r, 8)) <$> ["AL"; "BL"; "CL"; "DL"; "SIL"; "DIL"; "R8B"; "R9B";
     "R10B"; "R11B"; "R12B"; "R13B"; "R14B"; "R15B"; "AH"; "Bh"; "CH"; "DH"])).

Definition gpr_normalized : gmap string string := list_to_map
  (((λ r, (r, "A")) <$> ["RAX"; "EAX"; "AX"; "AL"; "AH"]) ++
   ((λ r, (r, "B")) <$> ["RBX"; "EBX"; "BX"; "BL"; "BH"]) ++
   ((λ r, (r, "C")) <$> ["RCX"; "ECX"; "CX"; "CL"; "CH"]) ++
   ((λ r, (r, "D")) <$> ["RDX"; "EDX"; "DX"; "DL"; "DH"]) ++
   ((λ r, (r, "SI")) <$> ["RSI"; "ESI"; "SI"; "SIL"]) ++
   ((λ r, (r, "DI")) <$> ["RDI"; "EDI"; "DI"; "DIL"]) ++
   ((λ r, (r, "8")) <$> ["R8"; "R8D"; "R8W"; "R8B"]) ++
   ((λ r, (r, "9")) <$> ["R9"; "R9D"; "R9W"; "R9B"]) ++
   ((λ r, (r, "10")) <$> ["R10"; "R10D"; "R10W"; "R10B"]) ++
   ((λ r, (r, "11")) <$> ["R11"; "R11D"; "R11W"; "R11B"]) ++
   ((λ r, (r, "12")) <$> ["R12"; "R12D"; "R12W"; "R12B"]) ++
   ((λ r, (r, "13")) <$> ["R13"; "R13D"; "R13W"; "R13B"]) ++
   ((λ r, (r, "14")) <$> ["R14"; "R14D"; "R14W"; "R14B"]) ++
   ((λ r, (r, "15")) <$> ["R15"; "R15D"; "R15W"; "R15B"]) ++
   [("FLAGS", "FLAGS"); ("RIP", "RIP"); ("RSP", "RSP")]).

Definition registers : gmap Z (list string) := list_to_map
  [(8, ["AL"; "BL"; "CL"; "DL"; "SIL"; "DIL"; "R8B"; "R9B"; "R10B"; "R11B"; "R12B"; "R13B";
        "R14B"; "R15B"]);
   (16, ["AX"; "BX"; "CX"; "DX"; "SI"; "DI"; "R8W"; "R9W"; "R10W"; "R11W"; "R12W"; "R13W";
         "R14W"; "R15W"]);
   (32, ["EAX"; "EBX"; "ECX"; "EDX"; "ESI"; "EDI"; "R8D"; "R9D"; "R10D"; "R11D"; "R12D";
         "R13D"; "R14D"; "R15D"]);
   (64, ["RAX"; "RBX"; "RCX"; "RDX"; "RSI"; "RDI"; "R8"; "R9"; "R10"; "R11"; "R12"; "R13";
         "R14"; "R15"; "RSP"; "RBP"; "RIP"])].

Definition simd_registers : gmap Z (list string) := list_to_map
  [(64, (λ i, "MM" +:+ pretty i) <$> seq 0 8);
   (128, (λ i, "XMM" +:+ pretty i) <$> seq 0 32);
   (256, (λ i, "YMM" +:+ pretty i) <$> seq 0 32);
   (512, (λ i, "ZMM" +:+ pretty i) <$> seq 0 32)].

(** [X86Registers.__init__]: the tables without the blocked registers. *)
Definition filtered_decoding (gpr_blocklist : list string) : gmap Z (list string) :=
  (λ regs, select (λ r, negb (mem r gpr_blocklist)) regs) <$> registers.

(** The tables are data: proofs go through their lemmas, evaluation through [vm_compute]. *)
#[global] Opaque register_sizes gpr_normalized registers simd_registers.

(** ** Facts *)

Lemma select_elem {A} (p : A → bool) l x : x ∈ select p l ↔ p x = true ∧ x ∈ l.
Proof. unfold select. rewrite !list_elem_of_In, filter_In. tauto. Qed.

Lemma select_app {A} (p : A → bool) l k : select p (l ++ k) = select p l ++ select p k.
Proof. unfold select. apply List.filter_app. Qed.

#[export] Hint Rewrite @select_elem @select_app : pyrz.

Lemma _get_flag_list_elem modes types f :
  f ∈ _get_flag_list modes types ↔
  ∃ k m, modes !! k = Some m ∧ _flag_names !! k = Some f ∧ m ∈ types.
Proof.
  unfold _get_flag_list. rewrite list_elem_of_omap. split.
  - intros ([m n] & Hin & Hf). cbn in Hf. destruct (mem m types) eqn:E; [|done].
    injection Hf as ->. apply mem_spec in E.
    apply list_elem_of_lookup in Hin as [k Hk].
    apply lookup_zip_Some in Hk as [H1 H2]. eauto.
  - intros (k & m & H1 & H2 & H3). exists (m, f). cbn. split.
    + apply list_elem_of_lookup. exists k. by apply lookup_zip_Some.
    + apply mem_spec in H3. by rewrite H3.
Qed.

Lemma _flag_names_NoDup : NoDup _flag_names.
Proof. by apply (bool_decide_unpack _). Qed.

(** The three flag lists are disjoint by mode. *)
Lemma undef_flags_not_written modes f :
  f ∈ get_undef_flags modes → f ∉ get_write_flags modes ∧ f ∉ get_read_flags modes.
Proof.
  unfold get_undef_flags, get_write_flags, get_read_flags.
  rewrite !_get_flag_list_elem. intros (k & m & Hm & Hf & Hu).
  apply list_elem_of_singleton in Hu as ->.
  split; intros (k' & m' & Hm' & Hf' & Hin);
    assert (k' = k) as -> by (eapply NoDup_lookup; eauto using _flag_names_NoDup);
    simplify_eq; by rewrite !list_elem_of_In in Hin; cbn in Hin; naive_solver.
Qed.
