(* ===== verification/Registers.v ===== *)
(** * The register file of the machine

    x86 names parts of a register: EAX, AX, AL and AH are bits of RAX.  The table says
    which register a name belongs to and which of its bits it names; what a full register
    holds is a number of its width, and the two high flags of EFLAGS are as the processor
    keeps them.  The names are those the decoder, the emulator and the printer use; a name
    outside the table, such as a vector register, stands for itself.  This is the machine's
    behaviour and not the repository's: the emulator's laws and the semantics of the
    instrumentation are stated with it. *)

From S2P Require Import Prelude Isa.

Open Scope Z_scope.

(** ** Views *)

(** A name, its register, the lowest bit and the number of bits. *)
Definition letter_views (c : string) : list (string * (string * Z * Z)) :=
  let full := "R" +:+ c +:+ "X" in
  [(full, (full, 0, 64)); ("E" +:+ c +:+ "X", (full, 0, 32)); (c +:+ "X", (full, 0, 16));
   (c +:+ "L", (full, 0, 8)); (c +:+ "H", (full, 8, 8))].
Definition pointer_views (c : string) : list (string * (string * Z * Z)) :=
  let full := "R" +:+ c in
  [(full, (full, 0, 64)); ("E" +:+ c, (full, 0, 32)); (c, (full, 0, 16)); (c +:+ "L", (full, 0, 8))].
Definition numbered_views (n : string) : list (string * (string * Z * Z)) :=
  let full := "R" +:+ n in
  [(full, (full, 0, 64)); (full +:+ "D", (full, 0, 32)); (full +:+ "W", (full, 0, 16)); (full +:+ "B", (full, 0, 8))].
Definition register_views : list (string * (string * Z * Z)) :=
  Eval vm_compute in
    (["A"; "B"; "C"; "D"] ≫= letter_views) ++ (["SI"; "DI"; "SP"; "BP"] ≫= pointer_views)
    ++ (["8"; "9"; "10"; "11"; "12"; "13"; "14"; "15"] ≫= numbered_views)
    ++ [("RIP", ("RIP", 0, 64)); ("EIP", ("RIP", 0, 32)); ("IP", ("RIP", 0, 16));
        ("EFLAGS", ("EFLAGS", 0, 32)); ("RFLAGS", ("EFLAGS", 0, 32)); ("FLAGS", ("EFLAGS", 0, 16))].

Definition view_of (r : string) : option (string * Z * Z) :=
  snd <$> List.find (λ p, (p.1 =? r)%string) register_views.

(** The register a name belongs to. *)
Definition base_of (r : string) : string := match view_of r with Some (b, _, _) => b | None => r end.
(** The bits of the register that a name stands for. *)
Definition part (r : string) (x : Z) : Z :=
  match view_of r with Some (_, low, width) => Z.land (Z.shiftr x low) (Z.ones width) | None => x end.
Definition width_of (r : string) : Z := match view_of r with Some (_, _, width) => width | None => 0 end.

(** The registers that hold numbers of 64 bits, or the flags. *)
Definition full_registers : list string :=
  ["RAX"; "RBX"; "RCX"; "RDX"; "RSI"; "RDI"; "RSP"; "RBP"; "R8"; "R9"; "R10"; "R11"; "R12"; "R13"; "R14"; "R15";
   "RIP"; "EFLAGS"].
Definition is_full (r : string) : bool := mem r full_registers.

(** What a full register holds after a number was written: the number truncated; bit 1 of
    the flags is always set. *)
Definition wrap64 (v : Z) : Z := v mod 2 ^ 64.
Definition norm (r : string) (v : Z) : Z :=
  if (r =? "EFLAGS")%string then Z.lor (v mod 2 ^ 32) 2 else wrap64 v.

(** A write to a name: 32 bits clear the upper half, fewer leave the other bits. *)
Definition set_part (r : string) (old v : Z) : Z :=
  match view_of r with
  | Some (_, low, width) =>
      if 32 <=? width then v mod 2 ^ width
      else Z.lor (Z.ldiff old (Z.shiftl (Z.ones width) low)) (Z.shiftl (v mod 2 ^ width) low)
  | None => v
  end.

(** ** Facts *)

(** Concrete names of different registers. *)
Ltac other_register := apply (bool_decide_eq_true_1 _); vm_compute; reflexivity.

(** A property of the finite table, checked row by row. *)
Lemma view_of_all (p : string → string * Z * Z → bool) r v :
  forallb (λ q, p q.1 q.2) register_views = true → view_of r = Some v → p r v = true.
Proof.
  intros Hall H. unfold view_of in H. destruct (List.find _ _) as [[n v']|] eqn:E; [|done].
  injection H as <-. apply find_some in E as [Hin Hn]. cbn in Hn. apply String.eqb_eq in Hn. subst n.
  rewrite forallb_forall in Hall. exact (Hall _ Hin).
Qed.

Lemma view_base r b low width :
  view_of r = Some (b, low, width) →
  is_full b = true ∧ (view_of b = Some (b, 0, 64) ∨ b = "EFLAGS" ∧ view_of b = Some (b, 0, 32))
  ∧ 0 ≤ low ∧ 0 < width ∧ low + width ≤ 64.
Proof.
  intros H. apply (view_of_all (λ _ v, let '(b, low, width) := v in
    is_full b && (bool_decide (view_of b = Some (b, 0, 64))
      || (b =? "EFLAGS")%string && bool_decide (view_of b = Some (b, 0, 32)))
    && (0 <=? low) && (0 <? width) && (low + width <=? 64))) in H; [|vm_compute; reflexivity].
  repeat apply andb_true_iff in H as [H ?]. split; [done|]. split; [|lia].
  match goal with Hor : _ || _ = true |- _ => apply orb_true_iff in Hor as [Hb|[Hf Hb]%andb_true_iff] end.
  - left. by apply bool_decide_eq_true in Hb.
  - right. apply String.eqb_eq in Hf. by apply bool_decide_eq_true in Hb.
Qed.

Lemma base_of_base r : base_of (base_of r) = base_of r.
Proof.
  unfold base_of at 2 3. destruct (view_of r) as [[[b low] width]|] eqn:E.
  - destruct (view_base _ _ _ _ E) as (_ & [Hb|[_ Hb]] & _); unfold base_of; by rewrite Hb.
  - unfold base_of. by rewrite E.
Qed.

Lemma full_base r : is_full r = true → base_of r = r.
Proof.
  intros Hr%mem_spec. revert r Hr. apply Forall_forall. repeat (constructor; [reflexivity|]). constructor.
Qed.

Lemma wrap64_range v : 0 ≤ wrap64 v < 2 ^ 64.
Proof. apply Z.mod_pos_bound. lia. Qed.
Lemma wrap64_small v : 0 ≤ v < 2 ^ 64 → wrap64 v = v.
Proof. apply Z.mod_small. Qed.
Lemma wrap64_idemp v : wrap64 (wrap64 v) = wrap64 v.
Proof. apply wrap64_small, wrap64_range. Qed.

Lemma flags_range v : 0 ≤ Z.lor (v mod 2 ^ 32) 2 < 2 ^ 32.
Proof.
  pose proof (Z.mod_pos_bound v (2 ^ 32) ltac:(lia)) as Hv.
  assert (0 ≤ Z.lor (v mod 2 ^ 32) 2) by (apply Z.lor_nonneg; lia). split; [done|].
  destruct (decide (Z.lor (v mod 2 ^ 32) 2 = 0)) as [->|Hz]; [lia|].
  apply Z.log2_lt_pow2; [lia|]. rewrite Z.log2_lor by lia. apply Z.max_lub_lt; [|by vm_compute].
  destruct (decide (v mod 2 ^ 32 = 0)) as [->|]; [by vm_compute|]. apply Z.log2_lt_pow2; lia.
Qed.

(** Values a register can hold are kept as they are. *)
Lemma norm_other r v : r ≠ "EFLAGS" → 0 ≤ v < 2 ^ 64 → norm r v = v.
Proof. intros Hr Hv. unfold norm. apply String.eqb_neq in Hr. rewrite Hr. by apply wrap64_small. Qed.
Lemma norm_flags v : 0 ≤ v < 2 ^ 32 → Z.testbit v 1 = true → norm "EFLAGS" v = v.
Proof.
  intros Hv H1. change (norm "EFLAGS" v) with (Z.lor (v mod 2 ^ 32) 2).
  rewrite Z.mod_small by done. apply Z.bits_inj'. intros n Hn. rewrite Z.lor_spec.
  destruct (Z.eq_dec n 1) as [->|Hne]; [by rewrite H1|]. replace (Z.testbit 2 n) with false; [apply orb_false_r|].
  change 2 with (2 ^ 1). symmetry. apply Z.pow2_bits_false. lia.
Qed.
Lemma norm_idemp r v : norm r (norm r v) = norm r v.
Proof.
  unfold norm. destruct (r =? "EFLAGS")%string; [|apply wrap64_idemp].
  rewrite (Z.mod_small (Z.lor _ _)) by apply flags_range. by rewrite <- Z.lor_assoc.
Qed.
Lemma norm_range r v : 0 ≤ norm r v < 2 ^ 64.
Proof.
  unfold norm. destruct (r =? "EFLAGS")%string; [|apply wrap64_range]. pose proof (flags_range v). lia.
Qed.

Lemma full_view r : is_full r = true →
  (r ≠ "EFLAGS" ∧ view_of r = Some (r, 0, 64)) ∨ (r = "EFLAGS" ∧ view_of r = Some (r, 0, 32)).
Proof.
  intros Hr%mem_spec. revert r Hr. apply Forall_forall.
  repeat (constructor; [(left; by split) || (right; by split)|]). constructor.
Qed.

(** The whole of a register is what it holds. *)
Lemma part_full r v : is_full r = true → part r (norm r v) = norm r v.
Proof.
  intros Hr. unfold part. destruct (full_view r Hr) as [[_ ->]|[-> ->]]; rewrite Z.shiftr_0_r, Z.land_ones by lia.
  - apply Z.mod_small, norm_range.
  - apply Z.mod_small. change (norm "EFLAGS" v) with (Z.lor (v mod 2 ^ 32) 2). apply flags_range.
Qed.
Lemma part_none r x : view_of r = None → part r x = x.
Proof. intros H. unfold part. by rewrite H. Qed.
Lemma part_range r b low width x : view_of r = Some (b, low, width) → 0 ≤ part r x < 2 ^ width.
Proof.
  intros H. destruct (view_base _ _ _ _ H) as (_ & _ & _ & Hw & _). unfold part. rewrite H, Z.land_ones by lia.
  apply Z.mod_pos_bound. lia.
Qed.
