(* ===== verification/Machine.v ===== *)
(** * The machine the instrumentation runs on

    The instructions that the sandbox pass puts in front of a division, and the division,
    as x86 executes them: register operands name parts of the register file
    ([Registers.v]), memory operands name bytes by the sum of their address registers, and
    an instruction that raises [#DE] has no next state.  Addresses wrap at 64 bits; that
    the pages are mapped is not part of this file.  What the instructions leave in EFLAGS
    is a parameter: the processor's, and nothing here depends on it. *)

From S2P Require Import Prelude.
From S2P Require Import Isa.
From S2P Require Import Registers.

Open Scope Z_scope.

Record machine := mkMachine { m_regs : string → Z; m_mem : Z → Z }.

(** ** Registers *)

Definition write_reg (r : string) (v : Z) (σ : machine) : machine :=
  mkMachine (λ b, if decide (b = base_of r) then set_part r (m_regs σ b) v else m_regs σ b) (m_mem σ).
Definition read_reg (r : string) (σ : machine) : Z := part r (m_regs σ (base_of r)).

(** ** Memory *)

(** The words of an address, [R14 + RBX]. *)
Fixpoint address_words (acc s : string) : list string :=
  match s with
  | EmptyString => [acc]
  | String c s => if ascii_dec c " " then acc :: address_words EmptyString s else address_words (acc +:+ String c EmptyString) s
  end.
Definition address_registers (s : string) : list string :=
  select (λ r, negb (mem r ["+"; EmptyString])) (address_words EmptyString s).

Definition address (s : string) (σ : machine) : Z :=
  wrap64 (foldr Z.add 0 ((λ r, read_reg r σ) <$> address_registers s)).

Definition load (m : Z → Z) (a : Z) (n : nat) : Z := le_value ((λ k, m (wrap64 (a + k)) mod 256) <$> seqZ 0 (Z.of_nat n)).
(** The place of address [b] in the [n] bytes from [a] on. *)
Definition offset (a b : Z) : Z := (b - a) mod 2 ^ 64.
Definition store (m : Z → Z) (a : Z) (n : nat) (v : Z) : Z → Z :=
  λ b, default (m b) (le_bytes n v !! Z.to_nat (offset a b)).

(** ** Operands *)

Definition bytes_of (w : Z) : nat := Z.to_nat (w / 8).

Definition get_operand (σ : machine) (o : Operand) : option Z :=
  match o with
  | RegisterOperand r _ _ _ => Some (read_reg r σ)
  | MemoryOperand s w _ _ => Some (load (m_mem σ) (address s σ) (bytes_of w))
  | ImmediateOperand v _ => decimal v
  | _ => None
  end.
Definition put_operand (o : Operand) (v : Z) (σ : machine) : option machine :=
  match o with
  | RegisterOperand r _ _ _ => Some (write_reg r v σ)
  | MemoryOperand s w _ _ => Some (mkMachine (m_regs σ) (store (m_mem σ) (address s σ) (bytes_of w) v))
  | _ => None
  end.

(** ** Instructions *)

Definition alu (name : string) (w a b : Z) : option Z :=
  if (name =? "OR")%string then Some (Z.lor a b)
  else if (name =? "AND")%string then Some (Z.land a b)
  else if (name =? "SHR")%string then Some (Z.shiftr a (Z.land b (if w =? 64 then 63 else 31)))
  else if (name =? "MOV")%string then Some b
  else None.

(** The two halves of the dividend; the quotient replaces the lower one and the remainder
    the upper one. *)
Definition dividend (w : Z) : option (string * string) :=
  if w =? 8 then Some ("AH", "AL") else if w =? 16 then Some ("DX", "AX")
  else if w =? 32 then Some ("EDX", "EAX") else if w =? 64 then Some ("RDX", "RAX") else None.

Definition divide (d w : Z) (σ : machine) : option machine :=
  '(high, low) ← dividend w;
  let n := read_reg high σ * 2 ^ w + read_reg low σ in
  if bool_decide (d = 0) || (2 ^ w <=? n / d) then None
  else Some (write_reg high (n mod d) (write_reg low (n / d) σ)).

Section machine.
Context (flags : Instruction → machine → Z).

Definition step (i : Instruction) (σ : machine) : option machine :=
  σ' ← match i_operands i with
       | [dst; src] => a ← get_operand σ dst; b ← get_operand σ src; v ← alu (i_name i) (op_width dst) a b; put_operand dst v σ
       | [d] =>
           if mem (i_name i) ["DIV"; "REX DIV"] then v ← get_operand σ d; divide v (op_width d) σ else None
       | _ => None
       end;
  Some (write_reg "EFLAGS" (flags i σ) σ').

Fixpoint steps (l : list Instruction) (σ : machine) : option machine :=
  match l with [] => Some σ | i :: l => σ' ← step i σ; steps l σ' end.
End machine.

(** ** Facts: registers *)

Lemma view_wide r b low width : view_of r = Some (b, low, width) → 32 ≤ width → low = 0.
Proof.
  intros H Hw. apply (view_of_all (λ _ v, let '(_, low, width) := v in (low =? 0) || (width <? 32))) in H;
    [lia|vm_compute; reflexivity].
Qed.

(** What is read through a name after a write to a name that contains it. *)
Lemma part_set_part r b low width r' b' low' width' old v :
  view_of r = Some (b, low, width) → view_of r' = Some (b', low', width') →
  low ≤ low' → low' + width' ≤ low + width →
  part r' (set_part r old v) = Z.land (Z.shiftr v (low' - low)) (Z.ones width').
Proof.
  intros H H' Hlow Hw. destruct (view_base _ _ _ _ H) as (_ & _ & ? & ? & _).
  destruct (view_base _ _ _ _ H') as (_ & _ & ? & ? & _).
  unfold part, set_part. rewrite H, H'. apply Z.bits_inj'. intros n Hn.
  rewrite !Z.land_spec. destruct (Z.ltb_spec n width') as [Hlt|Hge].
  2:{ rewrite (Z.ones_spec_high width' n) by lia. by rewrite !andb_false_r. }
  f_equal. destruct (Z.leb_spec 32 width).
  - pose proof (view_wide _ _ _ _ H ltac:(lia)) as ->. rewrite Z.sub_0_r, !Z.shiftr_spec by done.
    apply Z.mod_pow2_bits_low. lia.
  - rewrite !Z.shiftr_spec by done. rewrite Z.lor_spec, Z.ldiff_spec, !Z.shiftl_spec by lia.
    rewrite Z.ones_spec_low by lia. rewrite Z.mod_pow2_bits_low by lia. cbn [negb].
    rewrite andb_false_r. cbn [orb]. f_equal. lia.
Qed.

Lemma read_write_in r b low width r' low' width' v σ :
  view_of r = Some (b, low, width) → view_of r' = Some (b, low', width') →
  low ≤ low' → low' + width' ≤ low + width →
  read_reg r' (write_reg r v σ) = Z.land (Z.shiftr v (low' - low)) (Z.ones width').
Proof.
  intros H H' ??. unfold read_reg, write_reg. cbn [m_regs].
  rewrite decide_True by (unfold base_of; by rewrite H, H'). by eapply part_set_part.
Qed.
Lemma read_write_same r b low width v σ :
  view_of r = Some (b, low, width) → read_reg r (write_reg r v σ) = v mod 2 ^ width.
Proof.
  intros H. destruct (view_base _ _ _ _ H) as (_ & _ & _ & ? & _).
  rewrite (read_write_in _ _ _ _ _ _ _ _ _ H H) by lia. rewrite Z.sub_diag, Z.shiftr_0_r. apply Z.land_ones. lia.
Qed.
Lemma regs_write_ne r x v σ : x ≠ base_of r → m_regs (write_reg r v σ) x = m_regs σ x.
Proof. intros H. cbn. by rewrite decide_False. Qed.
Lemma read_write_ne r r' v σ :
  base_of r' ≠ base_of r → read_reg r' (write_reg r v σ) = read_reg r' σ.
Proof. intros H. unfold read_reg. by rewrite regs_write_ne. Qed.
Lemma read_range r b low width σ : view_of r = Some (b, low, width) → 0 ≤ read_reg r σ < 2 ^ width.
Proof. intros H. by eapply part_range. Qed.

(** ** Facts: memory *)

Lemma load_range m a n : 0 ≤ load m a n < 256 ^ Z.of_nat n.
Proof.
  unfold load. set (l := _ <$> _). assert (byte_list l) as Hl.
  { apply Forall_fmap, Forall_true. intros k. by apply Z.mod_pos_bound. }
  pose proof (le_value_bound l Hl) as H. unfold l in H at 3. rewrite length_fmap, length_seqZ in H.
  by rewrite Nat2Z.id in H.
Qed.

Lemma offset_add a k : 0 ≤ k < 2 ^ 64 → offset a (wrap64 (a + k)) = k.
Proof.
  intros Hk. unfold offset, wrap64. rewrite Zminus_mod_idemp_l. replace (a + k - a) with k by lia.
  by apply Z.mod_small.
Qed.

Lemma load_store m a n v : (Z.of_nat n ≤ 8) → load (store m a n v) a n = v mod 256 ^ Z.of_nat n.
Proof.
  intros Hn. rewrite <- le_value_bytes. unfold load. f_equal. apply list_eq. intros i.
  rewrite list_lookup_fmap. destruct (decide (i < n)%nat) as [Hi|Hi].
  2:{ rewrite lookup_seqZ_ge by lia. symmetry. apply lookup_ge_None. rewrite length_le_bytes. lia. }
  rewrite lookup_seqZ_lt by lia. cbn [fmap option_fmap option_map]. unfold store.
  rewrite Z.add_0_l, offset_add by lia. rewrite Nat2Z.id.
  destruct (lookup_lt_is_Some_2 (le_bytes n v) i) as [b Hb]; [by rewrite length_le_bytes|].
  rewrite Hb. cbn. f_equal. apply Z.mod_small.
  by apply (Forall_lookup_1 _ _ _ _ (le_bytes_byte_list n v) Hb).
Qed.

Lemma store_outside m a n v b : ¬ offset a b < Z.of_nat n → store m a n v b = m b.
Proof.
  intros H. unfold store. replace (le_bytes n v !! _) with (@None Z); [done|]. symmetry.
  apply lookup_ge_None. rewrite length_le_bytes.
  pose proof (Z.mod_pos_bound (b - a) (2 ^ 64) ltac:(lia)). unfold offset in *. lia.
Qed.
