(* ===== verification/Input.v ===== *)
(** * Inputs and the random input generator

    The classes [Input] and [InputTaint] of [src/src/interfaces.py] and
    [RandomInputGenerator] of [src/src/input_generator.py].

    An [Input] is a numpy array of 64-bit words.  It holds [data_size] words
    of data (main region, assist region, registers) followed by padding up to
    [aligned_size]; numpy allocates it without initialising it, so the words
    of the [k]-th allocation are a parameter [alloc k].  A store of a Python
    integer outside [0, 2^64) raises [OverflowError]. *)

From S2P Require Import Prelude.

Open Scope Z_scope.

(** The three region sizes of the configuration, in bytes. *)
Record regions := mkRegions {
  input_main_region_size : nat;
  input_assist_region_size : nat;
  input_register_region_size : nat
}.

(** The defaults of [src/src/config.py]. *)
Definition default_regions : regions := mkRegions 4096 4096 64.

(** ** Input *)

Record Input := mkInput { in_words : list Z; in_seed : Z }.

#[export] Instance Input_eq_dec : EqDecision Input.
Proof. solve_decision. Defined.

Section layout.
Context (r : regions).

Definition data_size : nat :=
  (input_main_region_size r + input_assist_region_size r + input_register_region_size r) `div` 8.

(** [(4096 - register_region) // 8] is floor division on integers. *)
Definition aligned_size : nat :=
  Z.to_nat (Z.of_nat data_size + (4096 - Z.of_nat (input_register_region_size r)) / 8).

(** [Input.register_start] *)
Definition register_start : nat :=
  (data_size - input_register_region_size r `div` 8)%nat.

(** [InputTaint]: its size and its [register_start]. *)
Definition taint_size : nat :=
  (input_main_region_size r + input_assist_region_size r + input_register_region_size r) `div` 8.
Definition taint_register_start : nat :=
  (input_main_region_size r + input_assist_region_size r) `div` 8.

(** [Input()]: the words numpy found in memory, seed 0. *)
Definition new_Input (mem : nat → Z) : Input :=
  mkInput ((λ i, mem i mod 2 ^ 64) <$> seq 0 aligned_size) 0.

(** [list(self[self.register_start:self.data_size - 1])] *)
Definition get_registers (i : Input) : list Z :=
  take (data_size - 1 - register_start) (drop register_start (in_words i)).

(** [self.tobytes()] *)
Definition tobytes (i : Input) : list Z :=
  mjoin ((λ w, le_bytes 8 w) <$> in_words i).

(** [np.frombuffer(b, dtype=np.uint64)] *)
Fixpoint frombuffer (fuel : nat) (b : list Z) : result (list Z) :=
  match fuel, b with
  | _, [] => Ok []
  | O, _ => Raise ValueError
  | S fuel, b =>
      if (length b <? 8)%nat then Raise ValueError
      else ws ← frombuffer fuel (drop 8 b); Ok (le_value (take 8 b) :: ws)
  end.

(** [Input.from_bytes(b, seed)]; [np.copyto] broadcasts a single word. *)
Definition from_bytes (b : list Z) (seed : Z) : result Input :=
  ws ← frombuffer (length b) b;
  if (length ws =? aligned_size)%nat then Ok (mkInput ws seed)
  else match ws with
       | [w] => Ok (mkInput (replicate aligned_size w) seed)
       | _ => Raise ValueError
       end.

(** [input_[i] = v] with a Python integer [v]. *)
Definition set_word (ws : list Z) (i : nat) (v : Z) : result (list Z) :=
  if negb ((0 <=? v) && (v <? 2 ^ 64)) then Raise OverflowError
  else if (i <? length ws)%nat then Ok (<[i := v]> ws) else Raise IndexError.

(** ** RandomInputGenerator *)

Definition POW32 : Z := 2 ^ 32.

Section generator.
Context (input_gen_entropy_bits : nat).

Definition input_mask : Z := 2 ^ (Z.of_nat input_gen_entropy_bits mod 33) - 1.

Definition lcg_step (randint : Z) : Z :=
  ((randint * 2891336453) mod POW32 + 54321) mod POW32.

Definition masked_rvalue (randint : Z) : Z :=
  Z.shiftl (Z.land (Z.lxor randint (Z.shiftr randint 16)) input_mask) 6.

(** One turn of the data loop of [_generate_one]. *)
Definition generate_word (i : nat) (st : list Z * Z) : result (list Z * Z) :=
  let r1 := lcg_step st.2 in
  ws ← set_word st.1 i (Z.shiftl (masked_rvalue r1) 32);
  let r2 := lcg_step r1 in
  w ← from_option IndexError (ws !! i);
  ws' ← set_word ws i ((w + masked_rvalue r2) mod 2 ^ 64);
  Ok (ws', r2).

(** [input_[-i - 1] = input_[-i - 1] % POW32] *)
Definition truncate_word (i : nat) (ws : list Z) : result (list Z) :=
  k ← from_option IndexError (py_pos (length ws) (- Z.of_nat i - 1));
  w ← from_option IndexError (ws !! k);
  set_word ws k (w mod POW32).

Definition _generate_one (mem : nat → Z) (seed : Z) : result (Input * Z) :=
  let input_ := new_Input mem in
  '(ws, randint) ← for_each generate_word (seq 0 data_size) (in_words input_, seed);
  ws' ← for_each truncate_word (seq 0 (input_register_region_size r `div` 8)) ws;
  Ok (mkInput ws' seed, randint).

(** [generate(seed, count)]; [rnd] is the draw of [random.randint] for seed 0,
    [k] the number of the first allocation. *)
Fixpoint generate_loop (alloc : nat → nat → Z) (k : nat) (count : nat) (seed : Z)
    : result (list Input) :=
  match count with
  | O => Ok []
  | S count =>
      '(input_, seed') ← _generate_one (alloc k) seed;
      rest ← generate_loop alloc (S k) count seed';
      Ok (input_ :: rest)
  end.

Definition generate (alloc : nat → nat → Z) (rnd : Z) (seed : Z) (count : nat)
    : result (list Input) :=
  generate_loop alloc 0 count (if seed =? 0 then rnd else seed).

(** [if taint[j]: new_input[j] = input_[j]] for [j] below [data_size]. *)
Definition copy_tainted (input_ : Input) (taint : list bool) (j : nat) (ws : list Z)
    : result (list Z) :=
  t ← from_option IndexError (taint !! j);
  if t : bool then
    w ← from_option IndexError (in_words input_ !! j); set_word ws j w
  else Ok ws.

Fixpoint extend_loop (alloc : nat → nat → Z) (k : nat) (inputs : list Input)
    (taints : list (list bool)) (seed : Z) : result (list Input) :=
  match inputs, taints with
  | [], _ => Ok []
  | _ :: _, [] => Raise IndexError
  | input_ :: inputs, taint :: taints =>
      '(new_input, seed') ← _generate_one (alloc k) seed;
      ws ← for_each (copy_tainted input_ taint) (seq 0 data_size) (in_words new_input);
      rest ← extend_loop alloc (S k) inputs taints seed';
      Ok (mkInput ws (in_seed new_input) :: rest)
  end.

Definition extend_equivalence_classes (alloc : nat → nat → Z) (inputs : list Input)
    (taints : list (list bool)) : result (list Input) :=
  if negb (length inputs =? length taints)%nat then Raise PlainException
  else
    last_input ← from_option IndexError (last inputs);
    '(_, seed) ← _generate_one (alloc O) (in_seed last_input);
    extend_loop alloc 1 inputs taints seed.

(** [parse_existing_input]: the list of byte strings a pickle holds. *)
Definition parse_existing_input (obj : list (list Z)) : result (list Input) :=
  mapM (λ p : nat * list Z, from_bytes p.2 (Z.of_nat p.1)) (imap pair obj).
End generator.
End layout.
