(* ===== verification/InputFacts.v ===== *)
(** * The input generator: facts

    The words an input holds as a function of its seed, their bounds, the
    scope of the register truncation, the preservation of tainted words and
    the byte round trip of an input. *)

From S2P Require Import Prelude.
From S2P Require Import Input.

Open Scope Z_scope.

(** ** The stream of the generator *)

Definition lcg_iter (n : nat) (s : Z) : Z := Nat.iter n lcg_step s.

(** The word at index [i] of the input generated from [seed]. *)
Definition expected_word (bits : nat) (seed : Z) (i : nat) : Z :=
  Z.shiftl (masked_rvalue bits (lcg_iter (2 * i + 1) seed)) 32 +
  masked_rvalue bits (lcg_iter (2 * i + 2) seed).

Lemma lcg_step_range s : 0 ≤ lcg_step s < POW32.
Proof. unfold lcg_step, POW32. apply Z.mod_pos_bound. lia. Qed.

(** 3694381517 inverts the multiplier modulo 2^32, so a step can be undone. *)
Definition lcg_unstep (y : Z) : Z := ((y - 54321) * 3694381517) mod POW32.

Lemma lcg_step_alt s : lcg_step s = (s * 2891336453 + 54321) mod POW32.
Proof. unfold lcg_step. by rewrite Zplus_mod_idemp_l. Qed.

Lemma lcg_unstep_step s : 0 ≤ s < POW32 → lcg_unstep (lcg_step s) = s.
Proof.
  intros Hs. rewrite lcg_step_alt. unfold lcg_unstep.
  rewrite <- Zmult_mod_idemp_l, Zminus_mod_idemp_l, Zmult_mod_idemp_l.
  replace ((s * 2891336453 + 54321 - 54321) * 3694381517)
    with (s + (s * 2487027075) * POW32) by (unfold POW32; lia).
  rewrite Z.mod_add by done. by apply Z.mod_small.
Qed.

Lemma lcg_step_unstep y : 0 ≤ y < POW32 → lcg_step (lcg_unstep y) = y.
Proof.
  intros Hy. rewrite lcg_step_alt. unfold lcg_unstep.
  rewrite <- Zplus_mod_idemp_l, Zmult_mod_idemp_l, Zplus_mod_idemp_l.
  replace ((y - 54321) * 3694381517 * 2891336453 + 54321)
    with (y + ((y - 54321) * 2487027075) * POW32) by (unfold POW32; lia).
  rewrite Z.mod_add by done. by apply Z.mod_small.
Qed.

Lemma lcg_iter_S n s : lcg_iter (S n) s = lcg_step (lcg_iter n s).
Proof. done. Qed.

Lemma lcg_iter_add n m s : lcg_iter (n + m) s = lcg_iter n (lcg_iter m s).
Proof. unfold lcg_iter. apply Nat.iter_add. Qed.

(** ** One word *)

Lemma input_mask_ones bits : input_mask bits = Z.ones (Z.of_nat bits mod 33).
Proof. unfold input_mask. rewrite Z.ones_equiv. lia. Qed.

Lemma masked_rvalue_eq bits x :
  masked_rvalue bits x =
  Z.land (Z.lxor x (Z.shiftr x 16)) (input_mask bits) * 64.
Proof. unfold masked_rvalue. by rewrite Z.shiftl_mul_pow2. Qed.

Lemma masked_rvalue_bound bits x :
  0 ≤ masked_rvalue bits x ≤ 64 * (2 ^ (Z.of_nat bits mod 33) - 1).
Proof.
  rewrite masked_rvalue_eq, input_mask_ones.
  pose proof (Z.mod_pos_bound (Z.of_nat bits) 33 ltac:(lia)).
  pose proof (land_ones_bound (Z.lxor x (Z.shiftr x 16)) (Z.of_nat bits mod 33)
    ltac:(lia)). lia.
Qed.

Lemma masked_rvalue_aligned bits x : masked_rvalue bits x mod 64 = 0.
Proof. rewrite masked_rvalue_eq. by rewrite Z.mod_mul. Qed.

(** Up to 26 bits of entropy the half words fit in 32 bits. *)
Lemma masked_rvalue_small bits x :
  Z.of_nat bits mod 33 ≤ 26 → 0 ≤ masked_rvalue bits x < POW32.
Proof.
  intros Hb. pose proof (masked_rvalue_bound bits x).
  pose proof (Z.pow_le_mono_r 2 (Z.of_nat bits mod 33) 26 ltac:(lia) Hb).
  unfold POW32. lia.
Qed.

Lemma expected_word_eq bits seed i :
  expected_word bits seed i =
  masked_rvalue bits (lcg_iter (2 * i + 1) seed) * POW32 +
  masked_rvalue bits (lcg_iter (2 * i + 2) seed).
Proof. unfold expected_word. by rewrite Z.shiftl_mul_pow2. Qed.

Lemma expected_word_range bits seed i :
  Z.of_nat bits mod 33 ≤ 26 → 0 ≤ expected_word bits seed i < 2 ^ 64.
Proof.
  intros Hb. rewrite expected_word_eq.
  pose proof (masked_rvalue_small bits (lcg_iter (2 * i + 1) seed) Hb).
  pose proof (masked_rvalue_small bits (lcg_iter (2 * i + 2) seed) Hb).
  unfold POW32 in *. lia.
Qed.

(** ** Stores *)

Lemma set_word_ok ws i v :
  0 ≤ v < 2 ^ 64 → (i < length ws)%nat → set_word ws i v = Ok (<[i := v]> ws).
Proof.
  intros Hv Hi. unfold set_word.
  rewrite (proj2 (Z.leb_le 0 v)), (proj2 (Z.ltb_lt v (2 ^ 64))) by lia. cbn [andb negb].
  by rewrite (proj2 (Nat.ltb_lt i (length ws))).
Qed.

Lemma set_word_Ok ws i v ws' :
  set_word ws i v = Ok ws' → (i < length ws)%nat ∧ 0 ≤ v < 2 ^ 64 ∧ ws' = <[i := v]> ws.
Proof.
  unfold set_word. destruct (negb _) eqn:E; [done|].
  destruct (Nat.ltb_spec i (length ws)); [|done]. intros [= <-].
  apply negb_false_iff, andb_true_iff in E as [H1%Z.leb_le H2%Z.ltb_lt]. auto.
Qed.

Lemma generate_word_ok bits ws i s :
  Z.of_nat bits mod 33 ≤ 26 → (i < length ws)%nat →
  generate_word bits i (ws, lcg_iter (2 * i) s) =
  Ok (<[i := expected_word bits s i]> ws, lcg_iter (2 * S i) s).
Proof.
  intros Hb Hi. unfold generate_word. cbn [fst snd].
  pose proof (masked_rvalue_small bits (lcg_step (lcg_iter (2 * i) s)) Hb) as Hm.
  pose proof (expected_word_range bits s i Hb) as Hw.
  rewrite (set_word_ok ws i (Z.shiftl _ 32)); [|rewrite Z.shiftl_mul_pow2 by done;
    unfold POW32 in Hm; lia|done].
  cbn [mbind result_bind]. rewrite list_lookup_insert_eq by done.
  cbn [from_option mbind result_bind].
  rewrite <- !lcg_iter_S.
  replace (Z.shiftl (masked_rvalue bits (lcg_iter (S (2 * i)) s)) 32 +
           masked_rvalue bits (lcg_iter (S (S (2 * i))) s))
    with (expected_word bits s i)
    by (unfold expected_word; repeat f_equal; lia).
  rewrite Z.mod_small by done.
  rewrite set_word_ok; [|done|by rewrite length_insert].
  cbn [mbind result_bind]. rewrite list_insert_insert_eq. by replace (2 * S i)%nat with (S (S (2 * i))) by lia.
Qed.

(** The data loop fills the first [n] words and keeps the others. *)
Lemma generate_words_spec bits n ws s :
  Z.of_nat bits mod 33 ≤ 26 → (n ≤ length ws)%nat →
  for_each (generate_word bits) (seq 0 n) (ws, s) =
  Ok ((expected_word bits s <$> seq 0 n) ++ drop n ws, lcg_iter (2 * n) s).
Proof.
  intros Hb. induction n as [|n IH]; intros Hn; [by destruct ws|].
  rewrite seq_S, for_each_app, IH by lia. cbn [mbind result_bind for_each Nat.add].
  set (pre := expected_word bits s <$> seq 0 n).
  assert (length pre = n) as Hpre by (unfold pre; by rewrite length_fmap, length_seq).
  rewrite generate_word_ok; [|done|rewrite length_app, length_drop; lia].
  cbn [mbind result_bind]. do 2 f_equal.
  rewrite fmap_app. cbn [fmap list_fmap].
  destruct (lookup_lt_is_Some_2 ws n) as [w Hw]; [lia|].
  rewrite (drop_S _ _ _ Hw), insert_app_r_alt by lia.
  rewrite Hpre, Nat.sub_diag. cbn. by rewrite <- app_assoc.
Qed.

Lemma py_pos_neg n i :
  (i < n)%nat → py_pos n (- Z.of_nat i - 1) = Some (n - 1 - i)%nat.
Proof.
  intros. unfold py_pos. destruct (Z.ltb_spec (- Z.of_nat i - 1) 0); [|lia].
  rewrite (proj2 (Z.leb_le _ _)), (proj2 (Z.ltb_lt _ _)) by lia. cbn. f_equal. lia.
Qed.

(** The truncation loop succeeds and touches the last [n] words only. *)
Lemma truncate_words_spec n ws :
  (n ≤ length ws)%nat → Forall (λ w, 0 ≤ w < 2 ^ 64) ws →
  ∃ ws', for_each truncate_word (seq 0 n) ws = Ok ws' ∧
    length ws' = length ws ∧ Forall (λ w, 0 ≤ w < 2 ^ 64) ws' ∧
    (∀ k, (k < length ws - n)%nat → ws' !! k = ws !! k) ∧
    (∀ k, (length ws - n ≤ k)%nat → ws' !! k = (λ w, w mod POW32) <$> ws !! k).
Proof.
  intros Hn Hws. induction n as [|n IH].
  { exists ws. repeat split; auto.
    intros k Hk. rewrite !lookup_ge_None_2 by lia. done. }
  destruct IH as (ws1 & Hrun & Hlen & Hran & Hlo & Hhi); [lia|].
  rewrite seq_S, for_each_app, Hrun. cbn [mbind result_bind for_each Nat.add].
  unfold truncate_word. rewrite py_pos_neg by lia. cbn [from_option mbind result_bind].
  set (k0 := (length ws1 - 1 - n)%nat).
  destruct (lookup_lt_is_Some_2 ws1 k0) as [w Hw]; [lia|].
  rewrite Hw. cbn [from_option mbind result_bind].
  assert (0 ≤ w mod POW32 < 2 ^ 64) as Hwr.
  { pose proof (Z.mod_pos_bound w POW32 ltac:(done)). unfold POW32 in *. lia. }
  rewrite set_word_ok by (done || lia). cbn [mbind result_bind].
  exists (<[k0 := w mod POW32]> ws1). split; [done|]. rewrite length_insert.
  split; [done|]. split; [by apply Forall_insert|]. split.
  - intros k Hk. rewrite list_lookup_insert_ne by lia. apply Hlo. lia.
  - intros k Hk. destruct (decide (k = k0)) as [->|].
    + rewrite list_lookup_insert_eq by lia. rewrite <- Hlo by lia. by rewrite Hw.
    + rewrite list_lookup_insert_ne by done. apply Hhi. lia.
Qed.

(** ** One input *)

(** The padding holds at least the words that the truncation loop rewrites. *)
Definition padded (r : regions) : Prop :=
  (data_size r + input_register_region_size r `div` 8 ≤ aligned_size r)%nat.

(** An array the emulator and gem5 can be given: the numpy length and words. *)
Definition input_ok (r : regions) (i : Input) : Prop :=
  length (in_words i) = aligned_size r ∧ Forall (λ w, 0 ≤ w < 2 ^ 64) (in_words i).

Lemma new_Input_ok r mem : input_ok r (new_Input r mem).
Proof.
  split; cbn; [by rewrite length_fmap, length_seq|].
  apply Forall_fmap, Forall_true. intros i. by apply Z.mod_pos_bound.
Qed.

Lemma generate_one_run r bits mem seed :
  Z.of_nat bits mod 33 ≤ 26 → padded r →
  ∃ ws, _generate_one r bits mem seed = Ok (mkInput ws seed, lcg_iter (2 * data_size r) seed) ∧
    input_ok r (mkInput ws seed) ∧
    ∀ i, (i < data_size r)%nat → ws !! i = Some (expected_word bits seed i).
Proof.
  intros Hb Hp. unfold padded in Hp.
  destruct (new_Input_ok r mem) as [Hlen Hran].
  unfold _generate_one.
  rewrite generate_words_spec by (done || lia). cbn [mbind result_bind].
  set (ws := (expected_word bits seed <$> seq 0 (data_size r)) ++
    drop (data_size r) (in_words (new_Input r mem))).
  assert (length ws = aligned_size r) as Hws.
  { unfold ws. rewrite length_app, length_fmap, length_seq, length_drop. lia. }
  destruct (truncate_words_spec (input_register_region_size r `div` 8) ws)
    as (ws' & Hrun & Hl & Hr & Hlo & _); [lia| |].
  { apply Forall_app. split; [|by apply Forall_drop].
    apply Forall_fmap, Forall_true. intros i. by apply expected_word_range. }
  rewrite Hrun. cbn [mbind result_bind]. exists ws'. split; [done|].
  split; [split; cbn; [lia|done]|]. intros i Hi. rewrite Hlo by lia.
  unfold ws. rewrite lookup_app_l by (rewrite length_fmap, length_seq; lia).
  rewrite list_lookup_fmap, lookup_seq_lt by done. done.
Qed.

(** functional specification of [_generate_one]: with at most 26 bits of
    entropy it never raises, returns the seed of the next input, and every data
    word is the pair of masked draws of the 32-bit generator; no data word, the
    registers included, is changed by the truncation loop that follows. *)
Theorem generate_one_words r bits mem seed :
  Z.of_nat bits mod 33 ≤ 26 → padded r →
  ∃ inp, _generate_one r bits mem seed = Ok (inp, lcg_iter (2 * data_size r) seed) ∧
    in_seed inp = seed ∧ length (in_words inp) = aligned_size r ∧
    ∀ i, (i < data_size r)%nat → in_words inp !! i = Some (expected_word bits seed i).
Proof.
  intros Hb Hp. destruct (generate_one_run r bits mem seed Hb Hp) as (ws & H & [Hl _] & Hw).
  by exists (mkInput ws seed).
Qed.

Lemma generate_one_words_witness :
  ∃ inp, _generate_one default_regions 3 (λ _, 0) 10 =
      Ok (inp, lcg_iter (2 * data_size default_regions) 10) ∧
    in_seed inp = 10 ∧ length (in_words inp) = aligned_size default_regions ∧
    ∀ i, (i < data_size default_regions)%nat → in_words inp !! i = Some (expected_word 3 10 i).
Proof.
  apply (generate_one_words default_regions 3 (λ _, 0) 10).
  - vm_compute. discriminate.
  - unfold padded. vm_compute. lia.
Defined.

(** bounds of a generated word: below 2^64, and each 32-bit half is a multiple
    of 64 (a cache line) holding at most [2^(6 + entropy)]. *)
Theorem generated_word_bounds r bits mem seed inp s' i w :
  Z.of_nat bits mod 33 ≤ 26 → padded r → (i < data_size r)%nat →
  _generate_one r bits mem seed = Ok (inp, s') → in_words inp !! i = Some w →
  0 ≤ w < 2 ^ 64 ∧
  (w mod POW32) mod 64 = 0 ∧ (w / POW32) mod 64 = 0 ∧
  w mod POW32 < 64 * 2 ^ (Z.of_nat bits mod 33) ∧ w / POW32 < 64 * 2 ^ (Z.of_nat bits mod 33).
Proof.
  intros Hb Hp Hi Hrun Hw.
  destruct (generate_one_run r bits mem seed Hb Hp) as (ws & Hrun' & _ & Hws).
  rewrite Hrun in Hrun'. injection Hrun' as -> ->. cbn in Hw.
  rewrite Hws in Hw by done. injection Hw as <-.
  split; [by apply expected_word_range|]. rewrite expected_word_eq.
  set (h := masked_rvalue bits (lcg_iter (2 * i + 1) seed)).
  set (l := masked_rvalue bits (lcg_iter (2 * i + 2) seed)).
  pose proof (masked_rvalue_small bits _ Hb : 0 ≤ h < POW32) as Hh.
  pose proof (masked_rvalue_small bits _ Hb : 0 ≤ l < POW32) as Hl.
  pose proof (masked_rvalue_bound bits _ : 0 ≤ h ≤ _).
  pose proof (masked_rvalue_bound bits _ : 0 ≤ l ≤ _).
  rewrite (Z.add_comm (h * POW32)), Z.mod_add, Z.div_add by done.
  rewrite (Z.mod_small l), (Z.div_small l), Z.add_0_l by done.
  repeat split; try apply masked_rvalue_aligned; lia.
Qed.

Lemma generated_word_bounds_witness :
  ∃ inp s' w, _generate_one (mkRegions 8 0 8) 3 (λ _, 0) 10 = Ok (inp, s') ∧
    in_words inp !! 0%nat = Some w ∧ 0 ≤ w < 2 ^ 64 ∧
    (w mod POW32) mod 64 = 0 ∧ (w / POW32) mod 64 = 0 ∧
    w mod POW32 < 64 * 2 ^ (Z.of_nat 3 mod 33) ∧ w / POW32 < 64 * 2 ^ (Z.of_nat 3 mod 33).
Proof.
  eexists _, _, _. split; [vm_compute; reflexivity|]. split; [vm_compute; reflexivity|].
  eapply (generated_word_bounds (mkRegions 8 0 8) 3 (λ _, 0) 10 _ _ 0%nat);
    [vm_compute; discriminate|unfold padded; vm_compute; lia|vm_compute; lia
    |vm_compute; reflexivity|vm_compute; reflexivity].
Defined.

(** the register values are not cut to 32 bits: the loop that means to cut
    them rewrites padding, so an input of the default configuration hands the
    CPU a register value of more than 32 bits. *)
Theorem registers_keep_high_bits :
  ∃ inp s' v, _generate_one default_regions 3 (λ _, 0) 10 = Ok (inp, s') ∧
    get_registers default_regions inp !! 0%nat = Some v ∧ POW32 ≤ v.
Proof.
  destruct (generate_one_run default_regions 3 (λ _, 0) 10) as (ws & Hrun & _ & Hw).
  { vm_compute. discriminate. } { unfold padded. vm_compute. lia. }
  eexists _, _, (expected_word 3 10 1024). split; [exact Hrun|]. split.
  - unfold get_registers. cbn [in_words].
    rewrite lookup_take_lt by (vm_compute; lia).
    rewrite lookup_drop. replace (register_start default_regions + 0)%nat with 1024%nat
      by (vm_compute; done).
    apply Hw. vm_compute. lia.
  - apply Z.leb_le. vm_compute. reflexivity.
Qed.

(** the seed sequence has no short cycle: a generator step is a bijection
    of [0, 2^32). *)
Theorem lcg_step_bijective x y :
  0 ≤ x < POW32 → 0 ≤ y < POW32 →
  (lcg_step x = lcg_step y → x = y) ∧ (∃ z, 0 ≤ z < POW32 ∧ lcg_step z = y).
Proof.
  intros Hx Hy. split.
  - intros H. rewrite <- (lcg_unstep_step x Hx), H. by apply lcg_unstep_step.
  - exists (lcg_unstep y). split; [by apply Z.mod_pos_bound|by apply lcg_step_unstep].
Qed.

Lemma lcg_step_bijective_witness :
  (lcg_step 1 = lcg_step 2 → 1 = 2) ∧ (∃ z, 0 ≤ z < POW32 ∧ lcg_step z = 2).
Proof. apply (lcg_step_bijective 1 2); unfold POW32; lia. Defined.

(** above 26 bits of entropy the generator is partial: a masked draw shifted
    into the upper half leaves the 64-bit range and the store raises. *)
Theorem generate_one_overflows r mem :
  (0 < data_size r)%nat → (0 < aligned_size r)%nat →
  _generate_one r 32 mem 1 = Raise OverflowError.
Proof.
  intros Hd Ha. unfold _generate_one.
  destruct (data_size r) as [|n] eqn:E; [lia|]. cbn [seq for_each].
  assert (∀ ws, generate_word 32 0 (ws, 1) = Raise OverflowError) as ->; [|done].
  intros ws. unfold generate_word, set_word. cbn [fst snd].
  by replace (negb _) with true by (vm_compute; done).
Qed.

Lemma generate_one_overflows_witness :
  _generate_one default_regions 32 (λ _, 0) 1 = Raise OverflowError.
Proof. apply (generate_one_overflows default_regions (λ _, 0)); vm_compute; lia. Defined.

(** ** Input boosting *)

Lemma copy_tainted_run r inp taint ws n :
  input_ok r inp → length ws = aligned_size r → (n ≤ aligned_size r)%nat →
  (n ≤ length taint)%nat →
  ∃ ws', for_each (copy_tainted inp taint) (seq 0 n) ws = Ok ws' ∧
    length ws' = length ws ∧
    (∀ j, (n ≤ j)%nat → ws' !! j = ws !! j) ∧
    (∀ j, (j < n)%nat → taint !! j = Some true → ws' !! j = in_words inp !! j) ∧
    (∀ j, (j < n)%nat → taint !! j = Some false → ws' !! j = ws !! j).
Proof.
  intros [Hil Hir] Hlen Hn Ht. induction n as [|n IH].
  { exists ws. repeat split; auto; lia. }
  destruct IH as (ws1 & Hrun & Hl & Hhi & Hcp & Hkeep); [lia..|].
  rewrite seq_S, for_each_app, Hrun. cbn [mbind result_bind for_each Nat.add].
  unfold copy_tainted.
  destruct (lookup_lt_is_Some_2 taint n) as [t Htn]; [lia|].
  rewrite Htn. cbn [from_option mbind result_bind]. destruct t.
  - destruct (lookup_lt_is_Some_2 (in_words inp) n) as [w Hw]; [lia|].
    rewrite Hw. cbn [from_option mbind result_bind].
    rewrite set_word_ok; [|exact (Forall_lookup_1 _ _ _ _ Hir Hw)|lia].
    cbn [mbind result_bind]. exists (<[n := w]> ws1). split; [done|].
    rewrite length_insert. split; [done|]. repeat split; intros j Hj.
    + rewrite list_lookup_insert_ne by lia. apply Hhi. lia.
    + intros Hjt. destruct (decide (j = n)) as [->|].
      * rewrite list_lookup_insert_eq by lia. by rewrite Hw.
      * rewrite list_lookup_insert_ne by done. apply Hcp; [lia|done].
    + intros Hjf. rewrite list_lookup_insert_ne by naive_solver.
      apply Hkeep; [|done]. destruct (decide (j = n)); [naive_solver|lia].
  - exists ws1. cbn. split; [done|]. split; [done|]. repeat split; intros j Hj.
    + apply Hhi. lia.
    + intros Hjt. apply Hcp; [|done]. destruct (decide (j = n)); [naive_solver|lia].
    + intros Hjf. destruct (decide (j = n)) as [->|]; [apply Hhi; lia|].
      apply Hkeep; [lia|done].
Qed.

(** [boosted r inp taint new]: [new] copies the tainted words of [inp]. *)
Definition boosted (r : regions) (inp : Input) (taint : list bool) (new : Input) : Prop :=
  ∀ j, (j < data_size r)%nat → taint !! j = Some true →
    in_words new !! j = in_words inp !! j.

(** ... and draws the other data words from the generator. *)
Definition redrawn (r : regions) (bits : nat) (taint : list bool) (new : Input) : Prop :=
  ∀ j, (j < data_size r)%nat → taint !! j = Some false →
    in_words new !! j = Some (expected_word bits (in_seed new) j).

Lemma extend_loop_run r bits alloc inputs taints : ∀ k seed,
  Z.of_nat bits mod 33 ≤ 26 → padded r →
  Forall (input_ok r) inputs → length inputs = length taints →
  Forall (λ t, (data_size r ≤ length t)%nat) taints →
  ∃ news, extend_loop r bits alloc k inputs taints seed = Ok news ∧
    Forall2 (λ p new, boosted r p.1 p.2 new ∧ redrawn r bits p.2 new)
      (zip inputs taints) news.
Proof.
  revert taints. induction inputs as [|inp inputs IH]; intros [|taint taints] k seed
    Hb Hp Hin Hlen Htl; try discriminate.
  { exists []. split; [done|constructor]. }
  inversion_clear Hin as [|? ? Hi Hin']. inversion_clear Htl as [|? ? Ht Htl'].
  injection Hlen as Hlen. cbn [extend_loop].
  destruct (generate_one_run r bits (alloc k) seed Hb Hp) as (ws & -> & [Hwl Hwr] & Hws).
  cbn [mbind result_bind in_words]. unfold padded in Hp. cbn in Hwl.
  destruct (copy_tainted_run r inp taint ws (data_size r)) as (ws' & -> & Hl & _ & Hcp & Hkeep);
    [done|done|lia|done|].
  cbn [mbind result_bind].
  destruct (IH taints (S k) (lcg_iter (2 * data_size r) seed)) as (news & -> & Hall);
    [done|done|done|done|done|].
  cbn [mbind result_bind]. eexists. split; [done|]. constructor; [|done].
  split; intros j Hj Hjt; cbn.
  - by apply Hcp.
  - rewrite Hkeep by done. by apply Hws.
Qed.

Lemma extend_preserved r bits alloc inputs taints :
  Z.of_nat bits mod 33 ≤ 26 → padded r → inputs ≠ [] →
  Forall (input_ok r) inputs → length inputs = length taints →
  Forall (λ t, length t = taint_size r) taints →
  ∃ news, extend_equivalence_classes r bits alloc inputs taints = Ok news ∧
    Forall2 (λ p new, boosted r p.1 p.2 new ∧ redrawn r bits p.2 new)
      (zip inputs taints) news.
Proof.
  intros Hb Hp Hne Hin Hlen Htl. unfold extend_equivalence_classes.
  rewrite <- Hlen, Nat.eqb_refl. cbn [negb].
  destruct (last inputs) as [l|] eqn:El; [|by apply last_None in El].
  cbn [from_option mbind result_bind].
  destruct (generate_one_run r bits (alloc 0%nat) (in_seed l) Hb Hp) as (ws & -> & _).
  cbn [mbind result_bind]. apply extend_loop_run; try done.
  eapply Forall_impl; [exact Htl|]. intros t ->. done.
Qed.

(** The new inputs are inputs of the right size again. *)
Lemma copy_tainted_ok r inp taint js ws ws' :
  input_ok r inp → for_each (copy_tainted inp taint) js ws = Ok ws' →
  length ws = aligned_size r → Forall (λ w, 0 ≤ w < 2 ^ 64) ws →
  length ws' = aligned_size r ∧ Forall (λ w, 0 ≤ w < 2 ^ 64) ws'.
Proof.
  intros [_ Hi] H Hl Hw. revert H.
  apply (for_each_inv (λ x, length x = aligned_size r ∧ Forall (λ w, 0 ≤ w < 2 ^ 64) x)); [|done].
  clear. intros j x x' _ [Hl Hx] H. unfold copy_tainted in H. apply bind_Ok in H as (t & _ & H).
  destruct t; [|by injection H as <-]. apply bind_Ok in H as (w & _ & H).
  apply set_word_Ok in H as (_ & Hr & ->). rewrite length_insert. split; [done|]. by apply Forall_insert.
Qed.

Lemma extend_loop_ok r bits alloc inputs taints : ∀ k seed news,
  Z.of_nat bits mod 33 ≤ 26 → padded r → Forall (input_ok r) inputs →
  extend_loop r bits alloc k inputs taints seed = Ok news → Forall (input_ok r) news.
Proof.
  revert taints. induction inputs as [|inp inputs IH]; intros [|taint taints] k seed news Hb Hp Hin H;
    cbn [extend_loop] in H; try (injection H as <-; constructor); [done|].
  inversion_clear Hin as [|? ? Hi Hin'].
  destruct (generate_one_run r bits (alloc k) seed Hb Hp) as (ws & Hrun & [Hl Hw] & _).
  rewrite Hrun in H. cbn [mbind result_bind] in H. apply bind_Ok in H as (ws' & H1 & H).
  apply bind_Ok in H as (rest & H2 & [= <-]). constructor; [|by eapply IH].
  by apply (copy_tainted_ok r inp taint (seq 0 (data_size r)) ws).
Qed.

Lemma extend_ok r bits alloc inputs taints news :
  Z.of_nat bits mod 33 ≤ 26 → padded r → Forall (input_ok r) inputs →
  extend_equivalence_classes r bits alloc inputs taints = Ok news → Forall (input_ok r) news.
Proof.
  intros Hb Hp Hin H. unfold extend_equivalence_classes in H. destruct (negb _); [done|].
  apply bind_Ok in H as (l & _ & H). apply bind_Ok in H as ([? s] & _ & H). by eapply extend_loop_ok.
Qed.

(** C20: input boosting.  Extending a list of inputs by their taints succeeds and
    yields one input per input, equal to it on every tainted word and redrawn
    from the generator on every other data word. *)
Theorem extend_preserves_taint r bits alloc inputs taints :
  Z.of_nat bits mod 33 ≤ 26 → padded r → inputs ≠ [] →
  Forall (input_ok r) inputs → length inputs = length taints →
  Forall (λ t, length t = taint_size r) taints →
  ∃ news, extend_equivalence_classes r bits alloc inputs taints = Ok news ∧
    Forall2 (λ p new, boosted r p.1 p.2 new ∧ redrawn r bits p.2 new)
      (zip inputs taints) news.
Proof. apply extend_preserved. Qed.

Lemma extend_preserves_taint_witness :
  let r := mkRegions 8 0 8 in
  let inp := mkInput (replicate (aligned_size r) 5) 7 in
  ∃ news, extend_equivalence_classes r 3 (λ _ _, 0) [inp] [[true; false]] = Ok news ∧
    Forall2 (λ p new, boosted r p.1 p.2 new ∧ redrawn r 3 p.2 new)
      (zip [inp] [[true; false]]) news.
Proof.
  intros r inp. apply (extend_preserves_taint r 3 (λ _ _, 0) [inp] [[true; false]]).
  - vm_compute. discriminate.
  - unfold padded. vm_compute. lia.
  - discriminate.
  - apply Forall_singleton. split; [vm_compute; reflexivity|].
    apply Forall_replicate. lia.
  - reflexivity.
  - apply Forall_singleton. reflexivity.
Defined.

(** ** Bytes *)

Lemma tobytes_cons w ws s :
  tobytes (mkInput (w :: ws) s) = le_bytes 8 w ++ tobytes (mkInput ws s).
Proof. done. Qed.

Lemma frombuffer_tobytes ws s : ∀ fuel,
  Forall (λ w, 0 ≤ w < 2 ^ 64) ws → (length ws ≤ fuel)%nat →
  frombuffer fuel (tobytes (mkInput ws s)) = Ok ws.
Proof.
  induction ws as [|w ws IH]; intros fuel Hran Hfuel; [by destruct fuel|].
  inversion_clear Hran as [|? ? Hw Hws]. destruct fuel as [|fuel]; [cbn in Hfuel; lia|].
  rewrite tobytes_cons. cbn [frombuffer].
  destruct (le_bytes 8 w ++ tobytes (mkInput ws s)) eqn:E; [done|]. rewrite <- E.
  rewrite (proj2 (Nat.ltb_ge _ _)) by (rewrite length_app, length_le_bytes; lia).
  rewrite drop_app_length', take_app_length' by (by rewrite length_le_bytes).
  rewrite IH by (done || (cbn in Hfuel; lia)). cbn [mbind result_bind].
  rewrite le_value_bytes. by rewrite Z.mod_small.
Qed.

Lemma length_tobytes ws s : length (tobytes (mkInput ws s)) = (8 * length ws)%nat.
Proof.
  induction ws as [|w ws IH]; [done|].
  rewrite tobytes_cons, length_app, length_le_bytes, IH. cbn. lia.
Qed.

(** the pickle round trip: an input of the right size is rebuilt, word for
    word, from its bytes, with the seed the reader gives. *)
Theorem from_bytes_tobytes r inp seed :
  input_ok r inp →
  from_bytes r (tobytes inp) seed = Ok (mkInput (in_words inp) seed).
Proof.
  destruct inp as [ws s]. intros [Hlen Hran]. cbn in Hlen, Hran.
  unfold from_bytes. rewrite frombuffer_tobytes; [|done|rewrite length_tobytes; lia].
  cbn [mbind result_bind]. by rewrite Hlen, Nat.eqb_refl.
Qed.

Lemma from_bytes_tobytes_witness :
  let r := mkRegions 8 0 2048 in
  let inp := mkInput (replicate (aligned_size r) 5) 7 in
  from_bytes r (tobytes inp) 3 = Ok (mkInput (in_words inp) 3).
Proof.
  intros r inp. apply (from_bytes_tobytes r inp 3). split; [vm_compute; reflexivity|].
  apply Forall_replicate. lia.
Defined.
