(* ===== verification/Taint.v ===== *)
(** * The taint tracker

    [TaintTracker] of [src/src/model.py]: which parts of an input the contract
    trace of a test case depends on.  Labels are the strings of the code: a
    normalised register or flag name, or the hexadecimal address of an 8-byte
    block relative to the sandbox.  The dependency dictionaries map a label to
    the set of labels of the initial state it may depend on. *)

From S2P Require Import Prelude.
From S2P Require Import Isa.
From S2P Require Import Input.

Open Scope Z_scope.

Abbreviation deps := (gmap string (gset string)).

Record tracker := mkTracker {
  t_instruction : option Instruction;
  t_sandbox_base : Z;
  t_src_regs : list string;
  t_dest_regs : list string;
  t_src_flags : list string;
  t_dest_flags : list string;
  t_src_mems : list string;
  t_dest_mems : list string;
  t_mem_address_regs : list string;
  t_pending_taint : list string;
  t_reg_dependencies : deps;
  t_flag_dependencies : deps;
  t_mem_dependencies : deps;
  t_tainted_labels : gset string;
  t_checkpoints : list (deps * deps * deps)
}.

(** [TaintTracker(initial_observations, sandbox_base)] *)
Definition new_tracker (initial_observations : list string) (sandbox_base : Z) : tracker :=
  mkTracker None sandbox_base [] [] [] [] [] [] [] [] ∅ ∅ ∅
    (list_to_set initial_observations) [].

(** ** [_finalize_instruction] *)

(** [d.get(k, {k})] *)
Definition dep_get (d : deps) (k : string) : gset string := default {[k]} (d !! k).

(** One destination: merge into an existing entry, or start one with the
    destination itself. *)
Definition dep_update (labels : gset string) (k : string) (d : deps) : deps :=
  match d !! k with
  | Some old => <[k := old ∪ labels]> d
  | None => <[k := labels ∪ {[k]}]> d
  end.

Definition dep_update_all (labels : gset string) (ks : list string) (d : deps) : deps :=
  fold_left (λ d k, dep_update labels k d) ks d.

(** The union of the labels of a list of sources. *)
Definition labels_of (d : deps) (ks : list string) : gset string :=
  ⋃ (dep_get d <$> ks).

Definition src_labels (t : tracker) : gset string :=
  labels_of (t_reg_dependencies t) (t_src_regs t) ∪
  labels_of (t_flag_dependencies t) (t_src_flags t) ∪
  labels_of (t_mem_dependencies t) (t_src_mems t).

(** The labels a pending taint stands for. *)
Definition pending_labels (reg_deps mem_deps : deps) (label : string) : gset string :=
  if startswith "0x" label then dep_get mem_deps label else dep_get reg_deps label.

Definition _finalize_instruction (t : tracker) : tracker :=
  let uniq_labels := src_labels t in
  let reg_deps := dep_update_all uniq_labels (t_dest_regs t) (t_reg_dependencies t) in
  let flag_deps := dep_update_all uniq_labels (t_dest_flags t) (t_flag_dependencies t) in
  let mem_deps := dep_update_all uniq_labels (t_dest_mems t) (t_mem_dependencies t) in
  let tainted := fold_left (λ s l, s ∪ pending_labels reg_deps mem_deps l)
                   (t_pending_taint t) (t_tainted_labels t) in
  mkTracker None (t_sandbox_base t) (t_src_regs t) (t_dest_regs t) (t_src_flags t)
    (t_dest_flags t) (t_src_mems t) (t_dest_mems t) (t_mem_address_regs t)
    (t_pending_taint t) reg_deps flag_deps mem_deps tainted (t_checkpoints t).

(** [if self._instruction: self._finalize_instruction()] *)
Definition finalize_pending (t : tracker) : tracker :=
  match t_instruction t with Some _ => _finalize_instruction t | None => t end.

(** ** [start_instruction] *)

(** [re.split(r'\+|-|\*| ', s)] *)
Fixpoint split_address (s : string) (acc : string) : list string :=
  match s with
  | EmptyString => [acc]
  | String c s =>
      if Ascii.eqb c "+" || Ascii.eqb c "-" || Ascii.eqb c "*" || Ascii.eqb c " "
      then acc :: split_address s ""
      else split_address s (acc +:+ String c "")
  end.

(** The normalised registers that occur in an address expression. *)
Definition address_registers (addr : string) : list string :=
  omap (λ sub_op : string, if bool_decide (sub_op = "") then None else gpr_normalized !! sub_op)
       (split_address addr "").

Definition set_sources (t : tracker) (srcr dstr srcf dstf memr : list string) : tracker :=
  mkTracker (t_instruction t) (t_sandbox_base t) srcr dstr srcf dstf (t_src_mems t)
    (t_dest_mems t) memr (t_pending_taint t) (t_reg_dependencies t) (t_flag_dependencies t)
    (t_mem_dependencies t) (t_tainted_labels t) (t_checkpoints t).

(** The body of the operand loop. *)
Definition collect_operand (op : Operand) (t : tracker) : result tracker :=
  match op with
  | RegisterOperand v _ src dest =>
      value ← from_option KeyError (gpr_normalized !! v);
      Ok (set_sources t
            (if src then t_src_regs t ++ [value] else t_src_regs t)
            (if dest then t_dest_regs t ++ [value] else t_dest_regs t)
            (t_src_flags t) (t_dest_flags t) (t_mem_address_regs t))
  | FlagsOperand modes =>
      Ok (set_sources t (t_src_regs t) (t_dest_regs t)
            (get_read_flags modes ++ get_undef_flags modes)
            (get_write_flags modes) (t_mem_address_regs t))
  | MemoryOperand v _ _ _ =>
      Ok (set_sources t (t_src_regs t) (t_dest_regs t) (t_src_flags t) (t_dest_flags t)
            (t_mem_address_regs t ++ address_registers v))
  | _ => Ok t
  end.

(** The per-instruction lists, cleared. *)
Definition clear_instruction (t : tracker) (instruction : Instruction) : tracker :=
  mkTracker (Some instruction) (t_sandbox_base t) [] [] [] [] [] [] [] []
    (t_reg_dependencies t) (t_flag_dependencies t) (t_mem_dependencies t)
    (t_tainted_labels t) (t_checkpoints t).

Definition start_instruction (instruction : Instruction) (t : tracker) : result tracker :=
  for_each collect_operand (i_operands instruction ++ i_implicit_operands instruction)
    (clear_instruction (finalize_pending t) instruction).

(** ** Accesses and taints *)

(** The labels of the 8-byte blocks an access touches. *)
Definition access_blocks (sandbox_base address size : Z) : list string :=
  let address := address - sandbox_base in
  let masked_start_addr := Z.land address 0xfffffffffffffff8 in
  let end_addr := address + (size - 1) in
  let masked_end_addr := Z.land end_addr 0xfffffffffffffff8 in
  (λ k : nat, hex (masked_start_addr + 8 * Z.of_nat k)) <$>
    seq 0 (Z.to_nat ((masked_end_addr + 1 - masked_start_addr + 7) / 8)).

Definition set_mems (t : tracker) (src dst : list string) : tracker :=
  mkTracker (t_instruction t) (t_sandbox_base t) (t_src_regs t) (t_dest_regs t)
    (t_src_flags t) (t_dest_flags t) src dst (t_mem_address_regs t) (t_pending_taint t)
    (t_reg_dependencies t) (t_flag_dependencies t) (t_mem_dependencies t)
    (t_tainted_labels t) (t_checkpoints t).

Definition track_memory_access (address size : Z) (is_write : bool) (t : tracker) : tracker :=
  let blocks := access_blocks (t_sandbox_base t) address size in
  if is_write then set_mems t (t_src_mems t) (t_dest_mems t ++ blocks)
  else set_mems t (t_src_mems t ++ blocks) (t_dest_mems t).

Definition add_pending (t : tracker) (labels : list string) : tracker :=
  mkTracker (t_instruction t) (t_sandbox_base t) (t_src_regs t) (t_dest_regs t)
    (t_src_flags t) (t_dest_flags t) (t_src_mems t) (t_dest_mems t) (t_mem_address_regs t)
    (t_pending_taint t ++ labels) (t_reg_dependencies t) (t_flag_dependencies t)
    (t_mem_dependencies t) (t_tainted_labels t) (t_checkpoints t).

Definition taint_pc (t : tracker) : tracker :=
  match t_instruction t with
  | Some i => if i_control_flow i then add_pending t ["RIP"] else t
  | None => t
  end.
Definition taint_memory_access_address (t : tracker) : tracker :=
  add_pending t (t_mem_address_regs t).
Definition taint_memory_load (t : tracker) : tracker := add_pending t (t_src_mems t).
Definition taint_memory_store (t : tracker) : tracker := add_pending t (t_dest_mems t).

(** ** [taint_reg]: the five patterns, tried in order with [re.search] *)

Definition is_digit (c : ascii) : bool :=
  let n := N_of_ascii c in (48 <=? n)%N && (n <=? 57)%N.

Fixpoint leading_digits (s : string) : string :=
  match s with
  | String c s => if is_digit c then String c (leading_digits s) else EmptyString
  | EmptyString => EmptyString
  end.

(** [([ABCD])[XHL]] *)
Fixpoint search_abcd (s : string) : option string :=
  match s with
  | String c (String d s' as rest) =>
      if (Ascii.eqb c "A" || Ascii.eqb c "B" || Ascii.eqb c "C" || Ascii.eqb c "D") &&
         (Ascii.eqb d "X" || Ascii.eqb d "H" || Ascii.eqb d "L")
      then Some (String c "") else search_abcd rest
  | _ => None
  end.
(** [R([0-9]+)] *)
Fixpoint search_numbered (s : string) : option string :=
  match s with
  | String c rest =>
      if Ascii.eqb c "R" && negb (bool_decide (leading_digits rest = ""))
      then Some (leading_digits rest) else search_numbered rest
  | EmptyString => None
  end.
(** [(p|q)]: the leftmost occurrence of either word. *)
Fixpoint search_either (p q s : string) : option string :=
  if startswith p s then Some p else if startswith q s then Some q
  else match s with String _ s => search_either p q s | EmptyString => None end.

Definition reg_label (reg : string) : option string :=
  match search_abcd reg with
  | Some l => Some l
  | None =>
  match search_numbered reg with
  | Some l => Some l
  | None =>
  match search_either "DI" "SI" reg with
  | Some l => Some l
  | None =>
  match search_either "SP" "BP" reg with
  | Some l => Some l
  | None => if str_in "FLAGS" reg then Some "FLAGS" else None
  end end end end.

Definition taint_reg (reg : string) (t : tracker) : result tracker :=
  if mem reg ["SS"; "DS"; "CS"; "FS"; "GS"] then Ok t
  else l ← from_option ValueError (reg_label reg); Ok (add_pending t [l]).

(** ** Speculation *)

Definition set_deps (t : tracker) (flagd regd memd : deps)
    (cps : list (deps * deps * deps)) : tracker :=
  mkTracker (t_instruction t) (t_sandbox_base t) (t_src_regs t) (t_dest_regs t)
    (t_src_flags t) (t_dest_flags t) (t_src_mems t) (t_dest_mems t) (t_mem_address_regs t)
    (t_pending_taint t) regd flagd memd (t_tainted_labels t) cps.

(** The checkpoint stack, last pushed first. *)
Definition taint_checkpoint (t : tracker) : tracker :=
  let t := finalize_pending t in
  set_deps t (t_flag_dependencies t) (t_reg_dependencies t) (t_mem_dependencies t)
    ((t_flag_dependencies t, t_reg_dependencies t, t_mem_dependencies t) :: t_checkpoints t).

Definition taint_rollback (t : tracker) : result tracker :=
  match t_checkpoints t with
  | [] => Raise AssertionError
  | (flagd, regd, memd) :: cps => Ok (set_deps (finalize_pending t) flagd regd memd cps)
  end.

(** ** [get_taint] *)

(** [_reg_decode]: the emulator register a label lives in, [None] for -1. *)
Definition _reg_decode : gmap string (option string) := list_to_map
  [("A", Some "RAX"); ("B", Some "RBX"); ("C", Some "RCX"); ("D", Some "RDX");
   ("DI", Some "RDI"); ("SI", Some "RSI"); ("SP", Some "RSP"); ("BP", Some "RBP");
   ("8", Some "R8"); ("9", Some "R9"); ("10", Some "R10"); ("11", Some "R11");
   ("12", Some "R12"); ("13", Some "R13"); ("14", Some "R14"); ("15", Some "R15");
   ("FLAGS", Some "EFLAGS"); ("CF", Some "EFLAGS"); ("PF", Some "EFLAGS");
   ("AF", Some "EFLAGS"); ("ZF", Some "EFLAGS"); ("SF", Some "EFLAGS");
   ("TF", Some "EFLAGS"); ("IF", Some "EFLAGS"); ("DF", Some "EFLAGS");
   ("OF", Some "EFLAGS"); ("AC", Some "EFLAGS"); ("RIP", None); ("RSP", None)].

#[global] Opaque _reg_decode.

(** The registers an input sets, in the order of its register region. *)
Definition input_registers : list string :=
  ["RAX"; "RBX"; "RCX"; "RDX"; "RSI"; "RDI"; "EFLAGS"].

Definition index_of {A} `{EqDecision A} (x : A) (l : list A) : option nat :=
  fst <$> list_find (x =.) l.

(** The input word of a label, -1 when it is not part of the input. *)
Definition input_offset (r : regions) (label : string) : result Z :=
  if startswith "0x" label then Ok (int16 label / 8)
  else
    reg ← from_option KeyError (_reg_decode !! label);
    Ok (match reg ≫= λ x, index_of x input_registers with
        | Some k => Z.of_nat (taint_register_start r + k)
        | None => -1
        end).

(** The taint vector of an input from the final label set. *)
Definition taint_vector (r : regions) (labels : gset string) : result (list bool) :=
  offsets ← mapM (input_offset r) (elements labels);
  let tainted_positions := select (λ o, 0 <=? o) offsets in
  Ok ((λ i : nat, mem (Z.of_nat i) tainted_positions) <$> seq 0 (taint_size r)).

Definition get_taint (r : regions) (t : tracker) : result (list bool) :=
  taint_vector r (t_tainted_labels (finalize_pending t)).
