(* ===== verification/TaintSound.v ===== *)
(** * Soundness of the taint tracker

    The taint of an input is what makes input boosting meaningful: an input
    that keeps the tainted words must have the same contract trace.  The CPU
    (Unicorn's, not part of the repository) is a parameter: which instruction
    is at a code address, which accesses an instruction performs, what it does
    to the state.  What the tracker relies on is stated as hypotheses of the
    section: an instruction's declared operands cover what it reads and writes,
    and no flag is read while it is undefined.  A branch that does not declare
    RIP is where two runs with one taint may part. *)

From S2P Require Import Prelude.
From S2P Require Import Isa.
From S2P Require Import Input.
From S2P Require Import Taint.

Open Scope Z_scope.

(** ** Label kinds *)

Definition is_flag (l : string) : bool := mem l _flag_names.
Definition is_block (l : string) : bool := startswith "0x" l.

(** The dictionary a label is looked up in. *)
Definition dep_of (t : tracker) (l : string) : gset string :=
  if is_block l then dep_get (t_mem_dependencies t) l
  else if is_flag l then dep_get (t_flag_dependencies t) l
  else dep_get (t_reg_dependencies t) l.

(** Normalised register names are neither blocks nor flags. *)
Definition reg_label_ok (l : string) : bool := negb (is_block l) && negb (is_flag l).

Lemma gpr_normalized_ok v l : gpr_normalized !! v = Some l → reg_label_ok l = true.
Proof.
  intros H. assert (forallb (λ p, reg_label_ok p.2) (map_to_list gpr_normalized) = true) as Hall
    by (vm_compute; reflexivity).
  rewrite forallb_forall in Hall. apply (Hall (v, l)).
  apply (proj1 (list_elem_of_In _ _)). by rewrite elem_of_map_to_list.
Qed.

Lemma flag_not_block l : l ∈ _flag_names → is_block l = false.
Proof.
  assert (Forall (λ l, is_block l = false) _flag_names) as H by (repeat constructor).
  rewrite Forall_forall in H. apply H.
Qed.

Lemma _get_flag_list_flags modes types : Forall (.∈ _flag_names) (_get_flag_list modes types).
Proof.
  apply Forall_forall. intros f Hf.
  apply _get_flag_list_elem in Hf as (k & m & _ & Hf & _).
  by eapply list_elem_of_lookup_2.
Qed.

(** ** Dependency dictionaries only grow *)

Lemma dep_update_get labels k d l :
  dep_get (dep_update labels k d) l =
  if decide (l = k) then dep_get d k ∪ labels else dep_get d l.
Proof.
  unfold dep_update, dep_get. destruct (d !! k) eqn:E; destruct (decide (l = k)) as [->|].
  - rewrite lookup_insert_eq. cbn. done.
  - by rewrite lookup_insert_ne.
  - rewrite lookup_insert_eq. cbn. set_solver.
  - by rewrite lookup_insert_ne.
Qed.

Lemma dep_update_all_get labels ks d l :
  dep_get (dep_update_all labels ks d) l =
  if decide (l ∈ ks) then dep_get d l ∪ labels else dep_get d l.
Proof.
  revert d. induction ks as [|k ks IH]; intros d; [done|].
  change (dep_update_all labels (k :: ks) d) with (dep_update_all labels ks (dep_update labels k d)).
  rewrite IH, dep_update_get.
  destruct (decide (l ∈ ks)), (decide (l ∈ k :: ks)), (decide (l = k)); set_solver.
Qed.

Lemma labels_of_elem d ks x : x ∈ labels_of d ks ↔ ∃ k, k ∈ ks ∧ x ∈ dep_get d k.
Proof.
  unfold labels_of. rewrite elem_of_union_list. setoid_rewrite list_elem_of_fmap. naive_solver.
Qed.

Lemma pending_fold_elem rd md ls s x :
  x ∈ fold_left (λ s l, s ∪ pending_labels rd md l) ls s ↔
  x ∈ s ∨ ∃ l, l ∈ ls ∧ x ∈ pending_labels rd md l.
Proof.
  revert s. induction ls as [|l ls IH]; intros s; cbn; [set_solver|].
  rewrite IH. set_solver.
Qed.

#[export] Hint Rewrite @dep_update_all_get labels_of_elem pending_fold_elem : pyrz.

(** Dependencies of the state after finalisation. *)
Definition written (t : tracker) (l : string) : bool :=
  if is_block l then mem l (t_dest_mems t)
  else if is_flag l then mem l (t_dest_flags t) else mem l (t_dest_regs t).

Lemma dep_of_finalize t l :
  dep_of (_finalize_instruction t) l =
  if written t l then dep_of t l ∪ src_labels t else dep_of t l.
Proof.
  unfold dep_of, written, _finalize_instruction. cbn.
  destruct (is_block l); [|destruct (is_flag l)]; rewrite dep_update_all_get; unfold mem;
    repeat case_bool_decide; repeat case_decide; done.
Qed.

(** Finalisation is idempotent on the dictionaries that matter. *)
Lemma finalize_pending_Some t i :
  t_instruction t = Some i → finalize_pending t = _finalize_instruction t.
Proof. unfold finalize_pending. by intros ->. Qed.

(** ** [start_instruction] collects the declared operands *)

Definition lists (t : tracker) :=
  (t_src_regs t, t_dest_regs t, t_src_flags t, t_dest_flags t, t_mem_address_regs t).

Definition with_lists (t u : tracker) : tracker :=
  set_sources t (t_src_regs u) (t_dest_regs u) (t_src_flags u) (t_dest_flags u)
    (t_mem_address_regs u).

Lemma collect_operand_lists op t u :
  collect_operand op (with_lists t u) = with_lists t <$> collect_operand op u.
Proof.
  destruct op as [v w s d| | | | |]; cbn; try done.
  destruct (gpr_normalized !! v); cbn; by destruct s, d.
Qed.

Lemma collect_all_lists ops t u :
  for_each collect_operand ops (with_lists t u) =
  with_lists t <$> for_each collect_operand ops u.
Proof.
  revert u. induction ops as [|op ops IH]; intros u; cbn; [done|].
  rewrite collect_operand_lists. destruct (collect_operand op u) as [u'|e]; cbn; [apply IH|done].
Qed.

(** What an instruction declares, as collected from a fresh tracker. *)
Definition declared (i : Instruction) : result tracker :=
  start_instruction i (new_tracker [] 0).

Lemma start_instruction_declared i t :
  start_instruction i t =
  with_lists (clear_instruction (finalize_pending t) i) <$> declared i.
Proof.
  unfold declared, start_instruction at 1 2.
  rewrite <- collect_all_lists. f_equal.
Qed.

(** The lists of [declared i] hold well-formed labels. *)
Definition lists_ok (t : tracker) : Prop :=
  Forall (λ l, reg_label_ok l = true) (t_src_regs t) ∧
  Forall (λ l, reg_label_ok l = true) (t_dest_regs t) ∧
  Forall (.∈ _flag_names) (t_src_flags t) ∧
  Forall (.∈ _flag_names) (t_dest_flags t) ∧
  Forall (λ l, reg_label_ok l = true) (t_mem_address_regs t).

Lemma address_registers_ok v : Forall (λ l, reg_label_ok l = true) (address_registers v).
Proof.
  apply Forall_forall. intros l (s & _ & Hs)%list_elem_of_omap.
  case_bool_decide; [done|]. by eapply gpr_normalized_ok.
Qed.

Lemma collect_operand_ok op t t' :
  lists_ok t → collect_operand op t = Ok t' → lists_ok t'.
Proof.
  unfold lists_ok. intros (H1 & H2 & H3 & H4 & H5) H.
  destruct op as [v w s d|v w s d| | | |modes]; cbn in H; inv_ok; cbn; auto.
  - apply gpr_normalized_ok in H0.
    repeat split; try done; [destruct s|destruct d]; try done; apply Forall_app; auto.
  - repeat split; try done. apply Forall_app. auto using address_registers_ok.
  - repeat split; try done; [apply Forall_app; split|]; apply _get_flag_list_flags.
Qed.

Lemma declared_ok i d : declared i = Ok d → lists_ok d.
Proof.
  unfold declared, start_instruction. apply (for_each_inv lists_ok).
  - intros op s s' _. apply collect_operand_ok.
  - repeat split; constructor.
Qed.

(** ** The hooks of one instruction under the CT clause *)

(** One memory access: address, size, is it a store. *)
Definition access := (Z * Z * bool)%type.

Definition access_hook (t : tracker) (a : access) : tracker :=
  taint_memory_access_address (track_memory_access a.1.1 a.1.2 a.2 t).

(** [X86UnicornSeq.trace_instruction] followed by [trace_mem_access] for each
    access, with the observations of [CTTracer]. *)
Definition ct_hooks (i : Instruction) (accs : list access) (t : tracker) : result tracker :=
  t ← start_instruction i t;
  Ok (fold_left access_hook accs (taint_pc t)).

(** What the tracker knows of an instruction once its accesses are seen. *)
Definition blocks_of (base : Z) (w : bool) (accs : list access) : list string :=
  accs ≫= λ a, if Bool.eqb a.2 w then access_blocks base a.1.1 a.1.2 else [].

Lemma access_hooks_spec accs t :
  fold_left access_hook accs t =
  add_pending
    (set_mems t (t_src_mems t ++ blocks_of (t_sandbox_base t) false accs)
                (t_dest_mems t ++ blocks_of (t_sandbox_base t) true accs))
    (accs ≫= λ _, t_mem_address_regs t).
Proof.
  revert t. induction accs as [|a accs IH]; intros t.
  { destruct t. cbn. unfold add_pending, set_mems. cbn. by rewrite !app_nil_r. }
  cbn [fold_left]. rewrite IH. unfold access_hook, track_memory_access, blocks_of.
  destruct a as [[ad sz] []]; cbn; unfold add_pending, set_mems; cbn; f_equal;
    by rewrite <- ?app_assoc, ?app_nil_r.
Qed.

Lemma ct_hooks_spec i accs t d t' :
  declared i = Ok d → ct_hooks i accs t = Ok t' →
  t_instruction t' = Some i ∧ t_sandbox_base t' = t_sandbox_base t ∧
  t_src_regs t' = t_src_regs d ∧ t_dest_regs t' = t_dest_regs d ∧
  t_src_flags t' = t_src_flags d ∧ t_dest_flags t' = t_dest_flags d ∧
  t_src_mems t' = blocks_of (t_sandbox_base t) false accs ∧
  t_dest_mems t' = blocks_of (t_sandbox_base t) true accs ∧
  (∀ l, dep_of t' l = dep_of (finalize_pending t) l) ∧
  t_tainted_labels t' = t_tainted_labels (finalize_pending t) ∧
  (i_control_flow i = true → "RIP" ∈ t_pending_taint t') ∧
  (accs ≠ [] → ∀ l, l ∈ t_mem_address_regs d → l ∈ t_pending_taint t').
Proof.
  intros Hd H. unfold ct_hooks in H. rewrite start_instruction_declared, Hd in H. cbn in H.
  injection H as <-. rewrite access_hooks_spec.
  assert (t_sandbox_base (finalize_pending t) = t_sandbox_base t) as Hb
    by (unfold finalize_pending; by destruct (t_instruction t)).
  unfold taint_pc. cbn. destruct (i_control_flow i); cbn; rewrite ?Hb;
    do 10 (split; [done|]); (split; [set_solver|]);
    (destruct accs; [done|]); intros _ l Hl; set_solver.
Qed.

(** ** The flags of an instruction *)

(** The modes the tracker goes by: those of the last flags operand. *)
Definition last_modes (ops : list Operand) (m : list string) : list string :=
  fold_left (λ m op, match op with FlagsOperand modes => modes | _ => m end) ops m.
Definition flag_modes (i : Instruction) : list string :=
  last_modes (i_operands i ++ i_implicit_operands i) [].

(** The flags that are read, those that are written whatever they held, and those that
    may change in a way no mode of a read or a write says: undefined ones and
    conditionally written ones. *)
Definition read_flags (i : Instruction) : list string := get_read_flags (flag_modes i).
Definition full_flags (i : Instruction) : list string := _get_flag_list (flag_modes i) ["w"].
Definition loose_flags (i : Instruction) : list string :=
  omap (λ p : string * string, if mem p.1 [""; "r"; "w"; "r/w"; "r/cw"] then None else Some p.2)
       (zip (flag_modes i) _flag_names).

Lemma loose_flags_elem i f : f ∈ loose_flags i → f ∈ _flag_names.
Proof.
  unfold loose_flags. rewrite list_elem_of_omap. intros ([m n] & Hin & Hf).
  cbn [fst snd] in Hf. destruct (mem m _); [done|]. injection Hf as ->.
  apply list_elem_of_lookup in Hin as [k Hk]. apply lookup_zip_Some in Hk as [_ Hk].
  by eapply list_elem_of_lookup_2.
Qed.

Lemma declared_flags i d : declared i = Ok d →
  t_src_flags d = read_flags i ++ get_undef_flags (flag_modes i) ∧ t_dest_flags d = get_write_flags (flag_modes i).
Proof.
  unfold declared, start_instruction, read_flags, flag_modes.
  assert (∀ ops m u d, t_src_flags u = get_read_flags m ++ get_undef_flags m → t_dest_flags u = get_write_flags m →
    for_each collect_operand ops u = Ok d →
    t_src_flags d = get_read_flags (last_modes ops m) ++ get_undef_flags (last_modes ops m)
    ∧ t_dest_flags d = get_write_flags (last_modes ops m)) as Hops.
  { clear. induction ops as [|op ops IH]; intros m u d Hs Hd H; [by injection H as <-|].
    apply bind_Ok in H as (u' & Hop & H). cbn [last_modes fold_left].
    destruct op; cbn [collect_operand] in Hop; inv_ok; by eapply IH in H. }
  intros H. apply (Hops _ [] _ _) in H; [exact H|reflexivity|reflexivity].
Qed.

Lemma full_flags_written i d f : declared i = Ok d → f ∈ full_flags i → f ∈ t_dest_flags d.
Proof.
  intros [_ ->]%declared_flags. unfold full_flags, get_write_flags. rewrite !_get_flag_list_elem.
  intros (k & m & Hm & Hf & ->%list_elem_of_singleton). exists k, "w". split_and!; [done|done|by left].
Qed.

(** ** Lock-step runs *)

Section cpu.
(** The CPU: the instruction at an address, the accesses it performs, the next
    address and the next state; a state maps labels to values. *)
Context (fetch : Z → option Instruction).
Context (accesses : Instruction → (string → Z) → list access).
Context (next_pc : Instruction → Z → (string → Z) → Z).
Context (exec : Instruction → (string → Z) → string → Z).
Context (base : Z).

(** The contract trace of [n] instructions, with the tracker alongside. *)
Fixpoint ct_run (n : nat) (pc : Z) (σ : string → Z) (t : tracker)
    : result (list Z * tracker) :=
  match n, fetch pc with
  | O, _ | _, None => Ok ([], t)
  | S n, Some i =>
      let accs := accesses i σ in
      t' ← ct_hooks i accs t;
      '(trace, t'') ← ct_run n (next_pc i pc σ) (exec i σ) t';
      Ok (pc :: ((λ a : access, a.1.1) <$> accs) ++ trace, t'')
  end.

(** Where a run is after [n] instructions. *)
Fixpoint ct_at (n : nat) (pc : Z) (σ : string → Z) : Z * (string → Z) :=
  match n, fetch pc with
  | O, _ | _, None => (pc, σ)
  | S n, Some i => ct_at n (next_pc i pc σ) (exec i σ)
  end.

Definition agree (ls : list string) (σ1 σ2 : string → Z) : Prop := ∀ l, l ∈ ls → σ1 l = σ2 l.

(** What an instruction reads and writes by its declared operands [d] and its accesses. *)
Definition reads (i : Instruction) (d : tracker) (accs : list access) : list string :=
  t_src_regs d ++ read_flags i ++ blocks_of base false accs.
Definition destinations (d : tracker) (accs : list access) : list string :=
  t_dest_regs d ++ t_dest_flags d ++ blocks_of base true accs.

(** The declared operands of instruction [i] cover its behaviour; nothing is said of the
    flags it leaves undefined. *)
Record honest (i : Instruction) (d : tracker) : Prop := {
  honest_count σ1 σ2 : accesses i σ1 = [] → accesses i σ2 = [];
  honest_address σ1 σ2 :
    agree (t_mem_address_regs d) σ1 σ2 → accesses i σ1 = accesses i σ2;
  honest_fallthrough pc σ1 σ2 :
    i_control_flow i = false → next_pc i pc σ1 = next_pc i pc σ2;
  honest_branch pc σ1 σ2 :
    i_control_flow i = true → accesses i σ1 = accesses i σ2 →
    agree (reads i d (accesses i σ1)) σ1 σ2 → next_pc i pc σ1 = next_pc i pc σ2;
  honest_frame σ l : l ∉ destinations d (accesses i σ) → l ∉ loose_flags i → exec i σ l = σ l;
  honest_exec σ1 σ2 l :
    accesses i σ1 = accesses i σ2 → agree (reads i d (accesses i σ1)) σ1 σ2 →
    l ∉ loose_flags i → σ1 l = σ2 l ∨ l ∈ full_flags i → exec i σ1 l = exec i σ2 l
}.

(** [undefined pc]: the flags that may hold anything when control reaches [pc]. They are
    never read, an instruction may add to them, and only a full write removes one. *)
Record program_honest (undefined : Z → list string) : Prop := {
  ph_honest pc i d : fetch pc = Some i → declared i = Ok d → honest i d;
  ph_flags pc f : f ∈ undefined pc → f ∈ _flag_names;
  ph_unread pc i f : fetch pc = Some i → f ∈ undefined pc → f ∉ read_flags i;
  ph_next pc i σ f : fetch pc = Some i →
    f ∈ loose_flags i ∨ f ∈ undefined pc ∧ f ∉ full_flags i → f ∈ undefined (next_pc i pc σ)
}.

(** After [k] instructions with one trace, both runs are at a control-flow instruction
    that does not declare RIP as a destination, and leave it for different addresses. *)
Definition diverge_at (k : nat) (pc : Z) (σ1 σ2 : string → Z) (t : tracker) : Prop :=
  ∃ trace t' pcb i d,
    ct_run (S k) pc σ1 t = Ok (trace, t') ∧ ct_run (S k) pc σ2 t = Ok (trace, t')
    ∧ (ct_at k pc σ1).1 = pcb ∧ (ct_at k pc σ2).1 = pcb
    ∧ fetch pcb = Some i ∧ declared i = Ok d ∧ i_control_flow i = true ∧ "RIP" ∉ t_dest_regs d
    ∧ next_pc i pcb (ct_at k pc σ1).2 ≠ next_pc i pcb (ct_at k pc σ2).2.

(** [s1] and [s2] are the two initial states; [known U t σ1 σ2]: a label outside [U]
    whose dependencies agree initially agrees now. *)
Context (s1 s2 : string → Z).
Definition known (U : list string) (t : tracker) (σ1 σ2 : string → Z) : Prop :=
  ∀ l, l ∉ U → (∀ k, k ∈ dep_of t l → s1 k = s2 k) → σ1 l = σ2 l.

(** The dependencies of a source are among the source labels. *)
Lemma src_dep t l :
  (reg_label_ok l = true ∧ l ∈ t_src_regs t) ∨ (l ∈ _flag_names ∧ l ∈ t_src_flags t) ∨
  (is_block l = true ∧ l ∈ t_src_mems t) → dep_of t l ⊆ src_labels t.
Proof.
  unfold src_labels, dep_of, reg_label_ok.
  intros [[Hk Hl]|[[Hk Hl]|[Hk Hl]]] x Hx; rewrite !elem_of_union, !labels_of_elem.
  - apply andb_true_iff in Hk as [H1%negb_true_iff H2%negb_true_iff].
    rewrite H1, H2 in Hx. eauto.
  - rewrite (flag_not_block _ Hk) in Hx. unfold is_flag in Hx.
    rewrite (proj2 (mem_spec _ _) Hk) in Hx. eauto.
  - rewrite Hk in Hx. eauto.
Qed.

Lemma blocks_of_block w accs l : l ∈ blocks_of base w accs → is_block l = true.
Proof.
  unfold blocks_of. intros ([[ad sz] st] & Hl & _)%list_elem_of_bind. cbn in Hl.
  destruct (Bool.eqb st w); [|by apply elem_of_nil in Hl].
  apply list_elem_of_fmap in Hl as (k & -> & _).
  apply hex_prefix. assert (0 ≤ Z.land (ad - base) 0xfffffffffffffff8); [|lia].
  apply Z.land_nonneg. right. lia.
Qed.

(** A pending label's dependencies are tainted at finalisation. *)
Lemma pending_tainted t l x :
  l ∈ t_pending_taint t → reg_label_ok l = true →
  x ∈ dep_of (_finalize_instruction t) l → x ∈ t_tainted_labels (_finalize_instruction t).
Proof.
  intros Hl Hok Hx. cbn. apply pending_fold_elem. right. exists l. split; [done|].
  unfold reg_label_ok in Hok. apply andb_true_iff in Hok as [H1%negb_true_iff H2%negb_true_iff].
  unfold pending_labels. unfold is_block in H1. rewrite H1.
  unfold dep_of, is_block in Hx. by rewrite H1, H2 in Hx.
Qed.

Lemma tainted_finalize t : t_tainted_labels t ⊆ t_tainted_labels (finalize_pending t).
Proof.
  unfold finalize_pending. destruct (t_instruction t); [|done].
  intros x Hx. cbn. apply pending_fold_elem. by left.
Qed.

Lemma declared_of_hooks i accs t t' :
  ct_hooks i accs t = Ok t' → ∃ d, declared i = Ok d.
Proof.
  unfold ct_hooks. rewrite start_instruction_declared. destruct (declared i); [eauto|done].
Qed.

(** Tainting never shrinks along a run. *)
Lemma ct_run_tainted n : ∀ pc σ t trace t',
  ct_run n pc σ t = Ok (trace, t') →
  t_tainted_labels (finalize_pending t) ⊆ t_tainted_labels (finalize_pending t').
Proof.
  induction n as [|n IH]; intros pc σ t trace t' H; cbn in H; [by inv_ok|].
  destruct (fetch pc) as [i|]; [|by inv_ok].
  destruct (ct_hooks _ _ t) as [t1|] eqn:Hh; [cbn in H|done].
  destruct (ct_run n _ _ _) as [[tr t2]|] eqn:Hr; cbn in H; [|done]. injection H as <- <-.
  destruct (declared_of_hooks _ _ _ _ Hh) as [d Hd].
  destruct (ct_hooks_spec _ _ _ _ _ Hd Hh) as (_ & _ & _ & _ & _ & _ & _ & _ & _ & Ht & _).
  etransitivity; [|by eapply IH]. rewrite <- Ht. apply tainted_finalize.
Qed.

Lemma finalize_keeps t l : dep_of t l ⊆ dep_of (_finalize_instruction t) l.
Proof. rewrite dep_of_finalize. destruct (written t l); set_solver. Qed.

Lemma agree_app ls1 ls2 σ1 σ2 :
  agree ls1 σ1 σ2 → agree ls2 σ1 σ2 → agree (ls1 ++ ls2) σ1 σ2.
Proof. intros H1 H2 l [Hl|Hl]%elem_of_app; auto. Qed.

(** If the source labels of an instruction agree initially, what it reads agrees now. *)
Lemma reads_agree U t' d i accs σ1 σ2 :
  declared i = Ok d → (∀ f, f ∈ U → f ∈ _flag_names ∧ f ∉ read_flags i) →
  t_src_regs t' = t_src_regs d → t_src_flags t' = t_src_flags d →
  t_src_mems t' = blocks_of base false accs →
  known U t' σ1 σ2 → (∀ k, k ∈ src_labels t' → s1 k = s2 k) →
  agree (reads i d accs) σ1 σ2.
Proof.
  intros Hd HU Er Ef Em Hk Hs. destruct (declared_flags _ _ Hd) as [Hf _].
  destruct (declared_ok _ _ Hd) as (Hr & _). rewrite <- Er in Hr. rewrite Forall_forall in Hr.
  assert (∀ l, l ∉ U → dep_of t' l ⊆ src_labels t' → σ1 l = σ2 l) as Hl by (intros l Hu Hl; apply Hk; auto).
  assert (Hread : ∀ f, f ∈ read_flags i → f ∈ _flag_names).
  { intros f Hin. apply (proj1 (Forall_forall _ _) (_get_flag_list_flags (flag_modes i) ["r"; "r/w"; "r/cw"]) f Hin). }
  unfold reads. rewrite <- Er, <- Em.
  repeat apply agree_app; intros l Hin; (apply Hl; [|apply src_dep]).
  - intros [Hflag _]%HU. specialize (Hr l Hin). unfold reg_label_ok, is_flag in Hr.
    apply mem_spec in Hflag. by rewrite Hflag, andb_false_r in Hr.
  - left. auto.
  - intros [_ Hno]%HU. done.
  - right; left. split; [auto|]. rewrite Ef, Hf. apply elem_of_app. by left.
  - rewrite Em in Hin. apply blocks_of_block in Hin. intros [Hflag%flag_not_block _]%HU. congruence.
  - right; right. split; [|done]. rewrite Em in Hin. by eapply blocks_of_block.
Qed.

Lemma written_destinations t' d i accs l :
  declared i = Ok d →
  t_dest_regs t' = t_dest_regs d → t_dest_flags t' = t_dest_flags d →
  t_dest_mems t' = blocks_of base true accs →
  written t' l = false → l ∉ destinations d accs.
Proof.
  intros (_ & Hr & _ & Hf & _)%declared_ok Er Ef Em Hw Hl.
  rewrite Forall_forall in Hr, Hf. unfold written in Hw.
  unfold destinations in Hl. rewrite !elem_of_app in Hl. destruct Hl as [Hl|[Hl|Hl]].
  - pose proof (Hr _ Hl) as Hok. unfold reg_label_ok in Hok.
    apply andb_true_iff in Hok as [H1%negb_true_iff H2%negb_true_iff].
    rewrite H1, H2, Er in Hw. by apply mem_false in Hw.
  - pose proof (Hf _ Hl) as Hok. rewrite (flag_not_block _ Hok) in Hw.
    unfold is_flag in Hw. rewrite (proj2 (mem_spec _ _) Hok), Ef in Hw. by apply mem_false in Hw.
  - rewrite (blocks_of_block _ _ _ Hl), Em in Hw. by apply mem_false in Hw.
Qed.

(** One instruction: equal accesses, and the new states are again related; the next
    addresses are equal, unless it is a branch that does not declare RIP. *)
Lemma ct_step_sound undefined i pc d t t' accs σ1 σ2 :
  program_honest undefined → fetch pc = Some i →
  declared i = Ok d → t_sandbox_base t = base →
  accs = accesses i σ1 → ct_hooks i accs t = Ok t' →
  known (undefined pc) (finalize_pending t) σ1 σ2 →
  (∀ k, k ∈ t_tainted_labels (finalize_pending t') → s1 k = s2 k) →
  accesses i σ2 = accs ∧
  (next_pc i pc σ1 = next_pc i pc σ2 ∨ i_control_flow i = true ∧ "RIP" ∉ t_dest_regs d) ∧
  known (undefined (next_pc i pc σ1)) (finalize_pending t') (exec i σ1) (exec i σ2).
Proof.
  intros Hprog Hf Hd Hbase -> Hct Hk Htaint. pose proof (ph_honest _ Hprog _ _ _ Hf Hd) as Hh.
  destruct (ct_hooks_spec _ _ _ _ _ Hd Hct)
    as (Hi & _ & Esr & Edr & Esf & Edf & Esm & Edm & Hdep & _ & Hrip & Haddr).
  rewrite Hbase in Esm, Edm.
  rewrite (finalize_pending_Some _ _ Hi) in Htaint |- *.
  assert (HU : ∀ f, f ∈ undefined pc → f ∈ _flag_names ∧ f ∉ read_flags i).
  { intros f Hu. split; [by eapply ph_flags|by eapply ph_unread]. }
  assert (known (undefined pc) t' σ1 σ2) as Hk'.
  { intros l Hu Hl. apply Hk; [done|]. intros k. rewrite <- Hdep. auto. }
  assert (∀ l, l ∈ t_pending_taint t' → reg_label_ok l = true →
            ∀ x, x ∈ dep_of (_finalize_instruction t') l → s1 x = s2 x) as Hpend
    by eauto using pending_tainted.
  assert (accesses i σ1 = accesses i σ2) as Hacc.
  { destruct (accesses i σ1) as [|a accs] eqn:Ha.
    { symmetry. by eapply honest_count. }
    rewrite <- Ha. apply (honest_address _ _ Hh). intros l Hl.
    assert (reg_label_ok l = true) as Hok.
    { pose proof (declared_ok _ _ Hd) as (_ & _ & _ & _ & Hok). rewrite Forall_forall in Hok. auto. }
    apply Hk'.
    - intros [Hflag _]%HU. apply mem_spec in Hflag. unfold reg_label_ok, is_flag in Hok.
      by rewrite Hflag, andb_false_r in Hok.
    - intros k Hk2. apply (Hpend l); [by apply Haddr|done|by apply finalize_keeps]. }
  pose proof (reads_agree (undefined pc) t' d i _ σ1 σ2 Hd HU Esr Esf Esm Hk') as Hsrc.
  split; [done|]. split.
  - destruct (i_control_flow i) eqn:Hcf; [|left; by eapply honest_fallthrough].
    destruct (decide ("RIP" ∈ t_dest_regs d)) as [HR|]; [left|by right].
    apply (honest_branch _ _ Hh); [done..|]. apply Hsrc. intros k Hkk.
    pose proof (declared_ok _ _ Hd) as (_ & Hdr & _). rewrite Forall_forall in Hdr.
    pose proof (Hdr _ HR) as Hok.
    apply (Hpend "RIP"); [auto..|]. rewrite dep_of_finalize. unfold written.
    unfold reg_label_ok in Hok. apply andb_true_iff in Hok as [H1%negb_true_iff H2%negb_true_iff].
    rewrite H1, H2, Edr, (proj2 (mem_spec _ _) HR). set_solver.
  - intros l Hu Hl. rewrite dep_of_finalize in Hl.
    assert (Hloose : l ∉ loose_flags i) by (intros Hx; by apply Hu, (ph_next _ Hprog _ i); [|left]).
    assert (Hfull : l ∉ undefined pc ∨ l ∈ full_flags i).
    { destruct (decide (l ∈ undefined pc)), (decide (l ∈ full_flags i)); [by right| |by left..].
      destruct Hu. apply (ph_next _ Hprog _ i); [done|by right]. }
    destruct (written t' l) eqn:Hw.
    + apply (honest_exec _ _ Hh); [done| |done|].
      * apply Hsrc. intros k Hkk. apply Hl. set_solver.
      * destruct Hfull as [Hno|Hfull]; [left|by right]. apply Hk'; [done|]. intros k Hkk. apply Hl. set_solver.
    + assert (Hno : ∀ accs, t_dest_mems t' = blocks_of base true accs → l ∉ destinations d accs)
        by (intros accs E; eapply written_destinations; eauto).
      rewrite !(honest_frame _ _ Hh) by (done || apply Hno; congruence).
      apply Hk'; [|done]. destruct Hfull as [|Hfull]; [done|]. exfalso.
      apply (Hno _ Edm). unfold destinations. rewrite !elem_of_app. right; left. by eapply full_flags_written.
Qed.

Lemma ct_run_related undefined (Hprog : program_honest undefined) n : ∀ pc σ1 σ2 t trace t',
  t_sandbox_base t = base → known (undefined pc) (finalize_pending t) σ1 σ2 →
  ct_run n pc σ1 t = Ok (trace, t') →
  (∀ k, k ∈ t_tainted_labels (finalize_pending t') → s1 k = s2 k) →
  ct_run n pc σ2 t = Ok (trace, t') ∨ ∃ k, (k < n)%nat ∧ diverge_at k pc σ1 σ2 t.
Proof.
  induction n as [|n IH]; intros pc σ1 σ2 t trace t' Hb Hk H Ht; [by left|].
  cbn in H. cbn [ct_run]. destruct (fetch pc) as [i|] eqn:Hf; [|by left].
  destruct (ct_hooks _ _ t) as [t1|] eqn:Hh; [cbn in H|done].
  destruct (ct_run n _ _ _) as [[tr t2]|] eqn:Hr; cbn in H; [|done]. injection H as <- <-.
  destruct (declared_of_hooks _ _ _ _ Hh) as [d Hd].
  destruct (ct_step_sound undefined i pc d t t1 _ σ1 σ2 Hprog Hf Hd Hb eq_refl Hh Hk)
    as (Hacc & Hpc & Hk2).
  { intros k Hkk. apply Ht. by eapply ct_run_tainted. }
  rewrite Hacc, Hh. cbn. destruct (decide (next_pc i pc σ1 = next_pc i pc σ2)) as [E|E].
  - destruct (ct_hooks_spec _ _ _ _ _ Hd Hh) as (_ & Hb2 & _). rewrite <- E.
    destruct (IH _ _ _ _ _ _ (eq_trans Hb2 Hb) Hk2 Hr Ht) as [->|(k & Hkn & trk & tk & pcb & j & dj & H1 & H2 & Hat & Hat2 & Hbr)];
      [by left|]. right. exists (S k). split; [lia|].
    exists (pc :: ((λ a : access, a.1.1) <$> accesses i σ1) ++ trk), tk, pcb, j, dj.
    assert (Hstep : ∀ σ, accesses i σ = accesses i σ1 → next_pc i pc σ = next_pc i pc σ1 →
      ct_run (S k) (next_pc i pc σ1) (exec i σ) t1 = Ok (trk, tk) →
      ct_run (S (S k)) pc σ t = Ok (pc :: ((λ a : access, a.1.1) <$> accesses i σ1) ++ trk, tk)).
    { intros σ Ea Ep Hrun. cbn [ct_run] in Hrun |- *. rewrite Hf, Ea, Hh, Ep. cbn [mbind result_bind].
      by rewrite Hrun. }
    split; [by apply Hstep|]. split; [by apply Hstep|].
    cbn [ct_at]. rewrite Hf, <- E. done.
  - destruct Hpc as [|[Hcf Hrip]]; [done|]. right. exists O. split; [lia|].
    exists (pc :: ((λ a : access, a.1.1) <$> accesses i σ1) ++ []), t1, pc, i, d.
    cbn [ct_run ct_at]. rewrite Hf, Hacc, Hh. cbn. done.
Qed.
End cpu.
