(* ===== verification/Boosting.v ===== *)
(** * Input boosting preserves the contract trace

    The two halves of boosting meet here: the tracker of [TaintSound] says which
    labels the CT trace of a run may depend on, [get_taint] turns labels into
    input words, [extend_equivalence_classes] keeps those words.  The state an
    input induces is the one [_load_input] of [src/src/model.py] writes.  The
    branches of generated programs are the exception, with an example. *)

From S2P Require Import Prelude.
From S2P Require Import Isa.
From S2P Require Import Input.
From S2P Require Import InputFacts.
From S2P Require Import Taint.
From S2P Require Import TaintSound.

Open Scope Z_scope.

(** The bit of a flag in EFLAGS. *)
Definition flag_bit (f : string) : Z :=
  match list_find (λ p : string * Z, p.1 = f)
    [("CF", 0); ("PF", 2); ("AF", 4); ("ZF", 6); ("SF", 7); ("TF", 8); ("IF", 9); ("DF", 10);
     ("OF", 11); ("AC", 18)] with
  | Some (_, (_, b)) => b
  | None => 0
  end.

(** [(value & 2263) | 2], what [_load_input] writes to EFLAGS. *)
Definition load_flags (value : Z) : Z := Z.lor (Z.land value 2263) 2.

Section initial.
Context (r : regions).

(** The value a label has after [_load_input]; [rest] is what the emulator
    holds elsewhere (memory the input does not cover, the fixed registers). *)
Definition initial_value (rest : string → Z) (inp : Input) (l : string) : Z :=
  if is_block l then
    default (rest l) (in_words inp !! Z.to_nat (int16 l / 8))
  else
    match mjoin (_reg_decode !! l) with
    | Some reg =>
        match index_of reg input_registers with
        | Some k =>
            let w := default 0 (get_registers r inp !! k) in
            if bool_decide (reg = "EFLAGS")
            then Z.b2z (Z.testbit (load_flags w) (flag_bit l)) else w
        | None => rest l
        end
    | None => rest l
    end.

(** Tainted blocks lie in the input (the taint vector has no place for others). *)
Definition covered (labels : gset string) : Prop :=
  ∀ l, l ∈ labels → is_block l = true → 0 ≤ int16 l / 8 < Z.of_nat (taint_size r).

Lemma mapM_Ok_elem {A B} (f : A → result B) l ys x :
  mapM f l = Ok ys → x ∈ l → ∃ y, f x = Ok y ∧ y ∈ ys.
Proof.
  revert ys. induction l as [|a l IH]; intros ys H Hx; cbn in H.
  { by apply elem_of_nil in Hx. }
  destruct (f a) as [y|] eqn:Ha; cbn in H; [|done].
  destruct (mapM f l) as [ys'|] eqn:Hl; cbn in H; [|done]. injection H as <-.
  apply elem_of_cons in Hx as [->|Hx]; [by exists y; split; [|left]|].
  destruct (IH _ eq_refl Hx) as (y' & Hy & Hin). exists y'. split; [done|by right].
Qed.

(** A tainted label's word is marked in the vector. *)
Lemma taint_vector_marks labels taint l o :
  taint_vector r labels = Ok taint → l ∈ labels →
  input_offset r l = Ok o → 0 ≤ o < Z.of_nat (taint_size r) →
  taint !! Z.to_nat o = Some true.
Proof.
  unfold taint_vector. intros H Hl Ho Hr. apply bind_Ok in H as (offsets & Hm & [= <-]).
  destruct (mapM_Ok_elem _ _ _ l Hm) as (o' & Ho' & Hin); [by apply elem_of_elements|].
  rewrite Ho in Ho'. injection Ho' as <-.
  rewrite list_lookup_fmap, lookup_seq_lt by lia. cbn. f_equal.
  rewrite Z2Nat.id by lia. apply mem_spec, select_elem. split; [|done].
  apply Z.leb_le. lia.
Qed.

(** Boosted inputs induce states that agree on every tainted label. *)
Lemma boosted_agree rest labels taint inp new :
  input_register_region_size r = 64%nat →
  taint_vector r labels = Ok taint → covered labels → boosted r inp taint new →
  agree (elements labels) (initial_value rest inp) (initial_value rest new).
Proof.
  intros Hreg Ht Hcov Hb l Hl. apply elem_of_elements in Hl. unfold initial_value.
  assert (data_size r = taint_size r) as Hsz by done.
  destruct (is_block l) eqn:Hbl.
  - pose proof (Hcov _ Hl Hbl) as Hr.
    rewrite (Hb (Z.to_nat (int16 l / 8))); [done|lia|].
    apply (taint_vector_marks labels taint l); [done..| |done].
    unfold input_offset. unfold is_block in Hbl. by rewrite Hbl.
  - destruct (_reg_decode !! l) as [[reg|]|] eqn:Hd; cbn [mjoin option_join]; [|done..].
    destruct (index_of reg input_registers) as [k|] eqn:Hk; [|done].
    assert (k < 7)%nat as Hk7.
    { unfold index_of in Hk. destruct (list_find _ _) as [[k' y]|] eqn:E; [|done].
      injection Hk as ->. apply list_find_Some in E as (E & _).
      by apply lookup_lt_Some in E. }
    assert (register_start r = taint_register_start r ∧ (taint_register_start r + 8 = taint_size r)%nat)
      as [Hrs Hend].
    { unfold register_start, taint_register_start, taint_size, data_size. rewrite Hreg.
      replace 64%nat with (8 * 8)%nat by done.
      rewrite !Nat.div_add by done. change ((8 * 8) `div` 8)%nat with 8%nat. lia. }
    assert (get_registers r new !! k = get_registers r inp !! k) as ->; [|done].
    unfold get_registers. rewrite !lookup_take_lt by lia. rewrite !lookup_drop.
    replace (register_start r + k)%nat with (Z.to_nat (Z.of_nat (taint_register_start r + k))) by lia.
    apply Hb; [lia|]. apply (taint_vector_marks labels taint l); [done..| |lia].
    unfold input_offset. unfold is_block in Hbl. rewrite Hbl, Hd.
    cbn [from_option mbind result_bind option_bind]. by rewrite Hk.
Qed.
End initial.

(** C1: input boosting preserves the contract trace of the sequential CT clause.  When an
    input and its taint come from a run of that clause and a second input keeps the
    tainted words, the second input has exactly the same trace and the same taint; or
    both runs have one trace up to a control-flow instruction that does not declare RIP
    as a destination, as those of generated terminators (those of parsed programs do),
    and leave it for different addresses.  The register region has its 64 bytes and the
    tainted blocks lie in the input.  Of the processor it is assumed that an instruction
    reads and writes what its operands declare, that whether it accesses memory at all
    depends on nothing and its accesses on the address registers only; of the flags an
    instruction leaves undefined nothing is assumed, but the program does not read one
    before an instruction has written it. *)
Theorem boosting_preserves_ct_trace r fetch accesses next_pc exec base undefined obs rest
    inp new taint n pc trace t :
  input_register_region_size r = 64%nat →
  program_honest fetch accesses next_pc exec base undefined →
  ct_run fetch accesses next_pc exec n pc (initial_value r rest inp) (new_tracker obs base)
    = Ok (trace, t) →
  get_taint r t = Ok taint →
  covered r (t_tainted_labels (finalize_pending t)) →
  boosted r inp taint new →
  ct_run fetch accesses next_pc exec n pc (initial_value r rest new) (new_tracker obs base)
    = Ok (trace, t)
  ∨ ∃ k, (k < n)%nat ∧ diverge_at fetch accesses next_pc exec k pc
           (initial_value r rest inp) (initial_value r rest new) (new_tracker obs base).
Proof.
  intros Hreg Hprog Hrun Ht Hcov Hb. unfold get_taint in Ht.
  apply (ct_run_related fetch accesses next_pc exec base
           (initial_value r rest inp) (initial_value r rest new) undefined Hprog n pc
           (initial_value r rest inp)) with (t' := t); [done| |done|].
  - intros l _ Hl. apply Hl. unfold dep_of. cbn.
    destruct (is_block l); [|destruct (is_flag l)]; by apply elem_of_singleton.
  - intros k Hk. apply (boosted_agree r rest _ taint inp new Hreg Ht Hcov Hb).
    by apply elem_of_elements.
Qed.

(** ** A concrete machine

    A load whose address depends on RBX, a multiplication that sets the carry flag and
    leaves the zero flag undefined (here: a bit of RDX, which it does not declare), then a
    conditional branch on the carry flag. *)
Module Demo.
Definition load : Instruction :=
  mkInstruction "MOV" [RegisterOperand "RAX" 64 false true; MemoryOperand "R14 + RBX" 64 true false]
    [] "" false false None.
Definition mul : Instruction :=
  mkInstruction "IMUL" [RegisterOperand "RAX" 64 true false]
    [FlagsOperand ["w"; ""; ""; "undef"; ""; ""; ""; ""; ""]] "" false false None.
Definition branch : Instruction :=
  mkInstruction "JB" [LabelOperand ".bb_0.1"]
    [FlagsOperand ["r"; ""; ""; ""; ""; ""; ""; ""; ""]; RegisterOperand "RIP" 64 false true]
    "BASE-COND_BR" true false None.
Definition fetch (pc : Z) : option Instruction :=
  if pc =? 0 then Some load else if pc =? 1 then Some mul else if pc =? 2 then Some branch else None.
Definition undefined (pc : Z) : list string := if 2 <=? pc then ["ZF"] else [].
Definition address (σ : string → Z) : Z := if σ "B" =? 0 then 0 else 8.
Definition accesses (i : Instruction) (σ : string → Z) : list access :=
  if bool_decide (i_name i = "MOV") then [(address σ, 8, false)] else [].
Definition target (σ : string → Z) : Z := if σ "CF" =? 0 then 3 else 4.
Definition next_pc (i : Instruction) (pc : Z) (σ : string → Z) : Z :=
  if bool_decide (i_name i = "JB") then target σ else pc + 1.
Definition exec (i : Instruction) (σ : string → Z) (l : string) : Z :=
  if bool_decide (i_name i = "MOV") then (if bool_decide (l = "A") then σ (hex (address σ)) else σ l)
  else if bool_decide (i_name i = "IMUL")
  then (if bool_decide (l = "CF") then Z.b2z (σ "A" =? 0)
        else if bool_decide (l = "ZF") then Z.b2z (Z.testbit (σ "D") 3) else σ l)
  else (if bool_decide (l = "RIP") then target σ else σ l).

Definition layout : regions := mkRegions 64 0 64.
Definition base_input : Input := mkInput ((λ k, Z.of_nat k) <$> seq 0 (aligned_size layout)) 1.
(** The words that are tainted: the second of memory, RAX, RBX and EFLAGS. *)
Definition taint : list bool := (λ i, mem i [1; 8; 9; 14]%nat) <$> seq 0 16.
Definition boosted_input : Input :=
  mkInput ((λ k, if mem k [1; 8; 9; 14]%nat then Z.of_nat k else Z.of_nat k + 100)
             <$> seq 0 (aligned_size layout)) 2.

Lemma load_declared : declared load = Ok (set_sources (clear_instruction (new_tracker [] 0) load)
    [] ["A"] [] [] ["14"; "B"]).
Proof. vm_compute. reflexivity. Qed.
Lemma mul_declared : declared mul = Ok (set_sources (clear_instruction (new_tracker [] 0) mul)
    ["A"] [] ["ZF"] ["CF"] []).
Proof. vm_compute. reflexivity. Qed.
Lemma branch_declared : declared branch = Ok (set_sources (clear_instruction (new_tracker [] 0) branch)
    [] ["RIP"] ["CF"] [] []).
Proof. vm_compute. reflexivity. Qed.

Lemma load_block σ : hex (address σ) ∈ blocks_of 0 false (accesses load σ).
Proof. unfold accesses, address. destruct (σ "B" =? 0); vm_compute; constructor. Qed.

Lemma exec_load σ l :
  exec load σ l = if bool_decide (l = "A") then σ (hex (address σ)) else σ l.
Proof. done. Qed.
Lemma exec_mul σ l :
  exec mul σ l = if bool_decide (l = "CF") then Z.b2z (σ "A" =? 0)
                 else if bool_decide (l = "ZF") then Z.b2z (Z.testbit (σ "D") 3) else σ l.
Proof. done. Qed.
Lemma exec_branch σ l :
  exec branch σ l = if bool_decide (l = "RIP") then target σ else σ l.
Proof. done. Qed.

Lemma load_honest d : declared load = Ok d → honest accesses next_pc exec 0 load d.
Proof.
  rewrite load_declared. intros [= <-]. split; cbn [t_mem_address_regs set_sources]; try done.
  - intros σ1 σ2 Ha. unfold accesses, address. cbn. rewrite (Ha "B"); [done|]. right. by left.
  - intros σ l Hl _. rewrite exec_load. case_bool_decide as E; [|done].
    destruct Hl. subst l. apply elem_of_app. left. by left.
  - intros σ1 σ2 l Hacc Hs12 _ Hl. rewrite !exec_load. case_bool_decide as E.
    + assert (address σ1 = address σ2) as <- by
        (assert ([(address σ1, 8, false)] = [(address σ2, 8, false)]) as E2 by exact Hacc; congruence).
      apply Hs12. unfold reads. rewrite !elem_of_app. right; right. apply load_block.
    + destruct Hl as [Hl|Hl]; [done|]. by apply elem_of_nil in Hl.
Qed.

Lemma mul_honest d : declared mul = Ok d → honest accesses next_pc exec 0 mul d.
Proof.
  rewrite mul_declared. intros [= <-]. split; try done.
  - intros σ l Hl Hu. rewrite exec_mul. case_bool_decide as E.
    { destruct Hl. subst l. apply elem_of_app. right. by left. }
    case_bool_decide as E2; [|done]. destruct Hu. subst l. by left.
  - intros σ1 σ2 l _ Hs12 Hu Hl. rewrite !exec_mul. case_bool_decide as E.
    { rewrite (Hs12 "A"); [done|]. apply elem_of_app. left. by left. }
    case_bool_decide as E2; [|destruct Hl as [Hl|Hl]; [done|]].
    + destruct Hu. subst l. by left.
    + destruct E. by apply list_elem_of_singleton in Hl.
Qed.

Lemma branch_honest d : declared branch = Ok d → honest accesses next_pc exec 0 branch d.
Proof.
  rewrite branch_declared. intros [= <-].
  set (d := set_sources _ _ _ _ _ _).
  assert (∀ σ1 σ2, agree (reads 0 branch d (accesses branch σ1)) σ1 σ2 → target σ1 = target σ2) as Ht.
  { intros σ1 σ2 Ha. unfold target. rewrite (Ha "CF"); [done|]. by left. }
  split; try done.
  - intros pc σ1 σ2 _ _ Ha. by apply Ht.
  - intros σ l Hl _. rewrite exec_branch. case_bool_decide as E; [|done].
    destruct Hl. subst l. apply elem_of_app. left. by left.
  - intros σ1 σ2 l _ Ha _ Hl. rewrite !exec_branch. case_bool_decide; [by apply Ht|].
    destruct Hl as [Hl|Hl]; [done|]. by apply elem_of_nil in Hl.
Qed.

Lemma demo_honest : program_honest fetch accesses next_pc exec 0 undefined.
Proof.
  assert (Hcases : ∀ pc i, fetch pc = Some i → pc = 0 ∧ i = load ∨ pc = 1 ∧ i = mul ∨ pc = 2 ∧ i = branch).
  { intros pc i. unfold fetch. destruct (Z.eqb_spec pc 0); [intros [= <-]; auto|].
    destruct (Z.eqb_spec pc 1); [intros [= <-]; auto|]. destruct (Z.eqb_spec pc 2); [intros [= <-]; auto|done]. }
  split.
  - intros pc i d Hf. apply Hcases in Hf as [[_ ->]|[[_ ->]|[_ ->]]];
      [apply load_honest|apply mul_honest|apply branch_honest].
  - intros pc f. unfold undefined. destruct (2 <=? pc); [|by intros Hf%elem_of_nil].
    intros ->%list_elem_of_singleton. by apply mem_spec.
  - intros pc i f Hf. unfold undefined. apply Hcases in Hf as [[-> ->]|[[-> ->]|[-> ->]]]; cbn; try by intros Hf%elem_of_nil.
    intros ->%list_elem_of_singleton. by apply mem_false.
  - intros pc i σ f Hf. apply Hcases in Hf as [[-> ->]|[[-> ->]|[-> ->]]]; cbn.
    + intros [Hx|[Hx _]]; by apply elem_of_nil in Hx.
    + intros [Hx|[Hx _]]; [exact Hx|by apply elem_of_nil in Hx].
    + intros [Hx|[Hx _]]; [by apply elem_of_nil in Hx|]. change (next_pc branch 2 σ) with (target σ).
      unfold target. by destruct (σ "CF" =? 0).
Qed.

Definition demo_run (inp : Input) : result (list Z * tracker) :=
  ct_run fetch accesses next_pc exec 5 0 (initial_value layout (λ _, 0) inp) (new_tracker [] 0).

Definition demo_result : list Z * tracker :=
  Eval vm_compute in match demo_run base_input with Ok p => p | Raise _ => ([], new_tracker [] 0) end.
End Demo.

(** Every branch of the program declares RIP: the runs cannot part. *)
Lemma demo_declares_rip pc i d :
  Demo.fetch pc = Some i → declared i = Ok d → i_control_flow i = true → "RIP" ∈ t_dest_regs d.
Proof.
  unfold Demo.fetch. destruct (pc =? 0); [by intros [= <-]|]. destruct (pc =? 1); [by intros [= <-]|].
  destruct (pc =? 2); [|done]. intros [= <-]. rewrite Demo.branch_declared. intros [= <-] _. by left.
Qed.

Lemma boosting_preserves_ct_trace_witness :
  Demo.demo_run Demo.boosted_input = Ok (fst Demo.demo_result, snd Demo.demo_result) ∧
  fst Demo.demo_result = [0; 8; 1; 2] ∧ Demo.boosted_input ≠ Demo.base_input.
Proof.
  split; [|split; [reflexivity|vm_compute; discriminate]].
  destruct (boosting_preserves_ct_trace Demo.layout Demo.fetch Demo.accesses Demo.next_pc Demo.exec 0
    Demo.undefined [] (λ _, 0) Demo.base_input Demo.boosted_input Demo.taint 5 0
    (fst Demo.demo_result) (snd Demo.demo_result)) as [H|(k & _ & tr & t' & pcb & i & d & _ & _ & _ & _ & Hf & Hd & Hcf & Hno & _)].
  - reflexivity.
  - exact Demo.demo_honest.
  - vm_compute. reflexivity.
  - vm_compute. reflexivity.
  - intros l Hl. apply elem_of_elements in Hl. revert l Hl.
    refine (proj1 (Forall_forall (λ l, is_block l = true → 0 ≤ int16 l / 8 < _) _) _). vm_compute.
    repeat constructor; discriminate.
  - intros j Hj. assert (j < 16)%nat as Hj' by exact Hj. clear Hj. revert j Hj'.
    do 16 (intros [|j]; [intros _; vm_compute; congruence|revert j]). intros j Hj. lia.
  - exact H.
  - destruct (Hno (demo_declares_rip _ _ _ Hf Hd Hcf)).
Defined.

(** ** A generated branch

    The zero flag decides where the terminator of a generated block goes; the tracker
    does not taint it, so boosting may change it, and the trace with it. *)
Module Generated.
Definition branch : Instruction :=
  mkInstruction "JZ" [LabelOperand ".bb_0.1"] [FlagsOperand [""; ""; ""; "r"; ""; ""; ""; ""; ""]]
    "BASE-COND_BR" true false None.
Definition nop : Instruction := mkInstruction "NOP" [] [] "" false false None.
Definition fetch (pc : Z) : option Instruction :=
  if pc =? 0 then Some branch else if (pc =? 1) || (pc =? 2) then Some nop else None.
Definition accesses (i : Instruction) (σ : string → Z) : list access := [].
Definition next_pc (i : Instruction) (pc : Z) (σ : string → Z) : Z :=
  if bool_decide (i_name i = "JZ") then (if σ "ZF" =? 0 then 1 else 2) else 3.
Definition exec (i : Instruction) (σ : string → Z) : string → Z := σ.
(** The word of EFLAGS is the only one that differs. *)
Definition input (eflags : Z) : Input :=
  mkInput ((λ k, if (k =? 14)%nat then eflags else Z.of_nat k) <$> seq 0 (aligned_size Demo.layout)) 1.
Definition trace_of (inp : Input) : result (list Z * tracker) :=
  ct_run fetch accesses next_pc exec 5 0 (initial_value Demo.layout (λ _, 0) inp) (new_tracker [] 0).
End Generated.

Theorem generated_branch_breaks_boosting :
  ∃ t t' taint,
    Generated.trace_of (Generated.input 2) = Ok ([0; 1], t) ∧ get_taint Demo.layout t = Ok taint
    ∧ boosted Demo.layout (Generated.input 2) taint (Generated.input 66)
    ∧ Generated.trace_of (Generated.input 66) = Ok ([0; 2], t').
Proof.
  destruct (Generated.trace_of (Generated.input 2)) as [[tr t]|] eqn:E; [|by vm_compute in E].
  destruct (Generated.trace_of (Generated.input 66)) as [[tr' t']|] eqn:E'; [|by vm_compute in E'].
  vm_compute in E, E'. injection E as <- <-. injection E' as <- <-.
  eexists _, _, (replicate 16 false). split; [reflexivity|]. split; [vm_compute; reflexivity|]. split; [|reflexivity].
  intros j Hj Htrue. rewrite lookup_replicate in Htrue. by destruct Htrue.
Qed.
