(* ===== verification/BasicBlock.v ===== *)
(** * Basic blocks and functions

    [BasicBlock] of [src/src/interfaces.py] is a doubly linked list threaded
    through the [previous]/[next] fields of its instructions.  Instructions live
    in a heap of nodes, blocks in a store of their own; both are mutated by the
    operations, so the model passes them explicitly.  The segment predicate [seg]
    says which list a block represents; the operations are proved against the
    list operations they implement. *)

From S2P Require Import Prelude.
From S2P Require Import Isa.

Open Scope Z_scope.

(** ** The heap of instruction nodes *)

Record node := mkNode { n_inst : Instruction; n_prev : option nat; n_next : option nat }.
Abbreviation heap := (gmap nat node).

#[export] Instance node_eq_dec : EqDecision node.
Proof. solve_decision. Defined.

(** The fields of a node: reads, and the assignments of the code. *)
Definition next_of (h : heap) (x : nat) : option nat := h !! x ≫= n_next.
Definition prev_of (h : heap) (x : nat) : option nat := h !! x ≫= n_prev.
Definition set_next (x : nat) (v : option nat) (h : heap) : heap :=
  alter (λ n, mkNode (n_inst n) (n_prev n) v) x h.
Definition set_prev (x : nat) (v : option nat) (h : heap) : heap :=
  alter (λ n, mkNode (n_inst n) v (n_next n)) x h.
Definition set_inst (x : nat) (i : Instruction) (h : heap) : heap :=
  alter (λ n, mkNode i (n_prev n) (n_next n)) x h.

(** ** Blocks; successors are references into the store of blocks. *)

Record BasicBlock := mkBB {
  bb_name : string;
  bb_successors : list nat;
  bb_terminators : list Instruction;
  bb_start : option nat;
  bb_end : option nat
}.

#[export] Instance BasicBlock_eq_dec : EqDecision BasicBlock.
Proof. solve_decision. Defined.

Module BB.

Definition new_BasicBlock (name : string) : BasicBlock := mkBB name [] [] None None.

Definition set_start (b : BasicBlock) (v : option nat) : BasicBlock :=
  mkBB (bb_name b) (bb_successors b) (bb_terminators b) v (bb_end b).
Definition set_end (b : BasicBlock) (v : option nat) : BasicBlock :=
  mkBB (bb_name b) (bb_successors b) (bb_terminators b) (bb_start b) v.
Definition set_successors (b : BasicBlock) (s : list nat) : BasicBlock :=
  mkBB (bb_name b) s (bb_terminators b) (bb_start b) (bb_end b).
Definition insert_terminator (b : BasicBlock) (terminator : Instruction) : BasicBlock :=
  mkBB (bb_name b) (bb_successors b) (bb_terminators b ++ [terminator]) (bb_start b) (bb_end b).

Definition get_first (b : BasicBlock) : option nat := bb_start b.
Definition get_last (b : BasicBlock) : option nat := bb_end b.

(** [__iter__]: follow [next]; the fuel bounds the nodes visited. *)
Fixpoint iter_from (fuel : nat) (h : heap) (cur : option nat) : list nat :=
  match fuel, cur with
  | S fuel, Some x => x :: iter_from fuel h (next_of h x)
  | _, _ => []
  end.
Definition iter (h : heap) (b : BasicBlock) : list nat := iter_from (size h) h (bb_start b).

(** [__len__]: counts the hops of [next]. *)
Fixpoint count_from (fuel : nat) (h : heap) (x : nat) (count : nat) : nat :=
  match fuel, next_of h x with
  | S fuel, Some y => count_from fuel h y (S count)
  | _, _ => count
  end.
Definition bb_len (h : heap) (b : BasicBlock) : nat :=
  match bb_start b with Some x => count_from (size h) h x 1 | None => 0%nat end.

Definition insert_after (position : option nat) (inst : nat) (st : heap * BasicBlock)
    : heap * BasicBlock :=
  let '(h, b) := st in
  let go position :=
    let next_ := next_of h position in
    let h := set_prev inst (Some position) (set_next position (Some inst) h) in
    match next_ with
    | Some n => (set_prev n (Some inst) (set_next inst (Some n) h), b)
    | None => (h, set_end b (Some inst))
    end in
  match position with
  | Some p => go p
  | None =>
      match bb_start b with
      | None => (h, set_end (set_start b (Some inst)) (Some inst))
      | Some s => go s
      end
  end.

Definition insert_before (position : option nat) (inst : nat) (st : heap * BasicBlock)
    : heap * BasicBlock :=
  let '(h, b) := st in
  let go position :=
    let previous := prev_of h position in
    let h := set_next inst (Some position) (set_prev position (Some inst) h) in
    match previous with
    | Some p => (set_next p (Some inst) (set_prev inst (Some p) h), b)
    | None => (h, set_start b (Some inst))
    end in
  match position with
  | Some p => go p
  | None =>
      match bb_start b with
      | None => (h, set_end (set_start b (Some inst)) (Some inst))
      | Some s => go s
      end
  end.

Definition delete (target : nat) (st : heap * BasicBlock) : result (heap * BasicBlock) :=
  let '(h, b) := st in
  if negb (mem target (iter h b)) then Raise PlainException
  else
    Ok match prev_of h target, next_of h target with
       | None, None => (h, set_start (set_end b None) None)
       | None, Some n => (set_prev n None h, set_start b (Some n))
       | Some p, None => (set_next p None h, set_end b (Some p))
       | Some p, Some n => (set_prev n (Some p) (set_next p (Some n) h), b)
       end.

End BB.

(** ** Functions *)

Record Function := mkFunction {
  f_name : string;
  f_all_bb : list nat;
  f_entry : nat;
  f_exit : nat
}.

(** [name.lstrip(".function_")]: strips characters, not a prefix. *)
Fixpoint lstrip (chars s : string) : string :=
  match s with
  | EmptyString => EmptyString
  | String c s' => if str_in (String c "") chars then lstrip chars s' else s
  end.

(** The names of the two blocks [Function.__init__] creates. *)
Definition entry_name (name : string) : string :=
  ".bb_" +:+ lstrip ".function_" name +:+ ".entry".
Definition exit_name (name : string) : string :=
  ".bb_" +:+ lstrip ".function_" name +:+ ".exit".

(** [Function(name)], with the references of its entry and exit blocks. *)
Definition new_Function (name : string) (entry exit : nat) : Function :=
  mkFunction name [entry; exit] entry exit.

Module Func.

Definition insert (f : Function) (bb : nat) : Function :=
  mkFunction (f_name f) (removelast (f_all_bb f) ++ [bb; f_exit f]) (f_entry f) (f_exit f).
Definition insert_multiple (f : Function) (bbs : list nat) : Function :=
  mkFunction (f_name f) (removelast (f_all_bb f) ++ bbs ++ [f_exit f]) (f_entry f) (f_exit f).

End Func.

(** ** The list a block represents *)

(** [seg h p l n]: the nodes [l] are linked in order, the first's [previous] is
    [p] and the last's [next] is [n]. *)
Fixpoint seg (h : heap) (p : option nat) (l : list nat) (n : option nat) : Prop :=
  match l with
  | [] => True
  | x :: l' =>
      (∃ i, h !! x = Some (mkNode i p (match l' with [] => n | y :: _ => Some y end))) ∧
      seg h (Some x) l' n
  end.

Definition hd_or (l : list nat) (n : option nat) : option nat :=
  match l with [] => n | y :: _ => Some y end.
Definition last_or (p : option nat) (l : list nat) : option nat :=
  match last l with Some x => Some x | None => p end.

(** Block [b] holds exactly the instructions [l]. *)
Record represents (h : heap) (b : BasicBlock) (l : list nat) : Prop := {
  rep_start : bb_start b = head l;
  rep_end : bb_end b = last l;
  rep_nodup : NoDup l;
  rep_seg : seg h None l None
}.

(** A newly created instruction: linked to nothing. *)
Definition fresh_node (h : heap) (x : nat) : Prop := ∃ i, h !! x = Some (mkNode i None None).

Lemma last_or_cons p x l : last_or p (x :: l) = last_or (Some x) l.
Proof. unfold last_or. rewrite last_cons. by destruct (last l). Qed.

Lemma seg_app h p l1 l2 n :
  seg h p (l1 ++ l2) n ↔ seg h p l1 (hd_or l2 n) ∧ seg h (last_or p l1) l2 n.
Proof.
  revert p. induction l1 as [|x l1 IH]; intros p; cbn; [tauto|].
  rewrite IH, last_or_cons. destruct l1; cbn; tauto.
Qed.

(** Nodes outside the segment may change. *)
Lemma seg_frame h h' p l n :
  (∀ x, x ∈ l → h' !! x = h !! x) → seg h p l n → seg h' p l n.
Proof.
  revert p. induction l as [|x l IH]; intros p Hf; cbn; [done|].
  intros [[i Hx] Hs]. split; [exists i; rewrite Hf by (by left); done|].
  apply IH; [|done]. intros y Hy. apply Hf. by right.
Qed.

(** The two boundary links can be reset. *)
Lemma seg_set_next h p l x n n' :
  NoDup (l ++ [x]) → seg h p (l ++ [x]) n → seg (set_next x n' h) p (l ++ [x]) n'.
Proof.
  intros (_ & Hnd & _)%NoDup_app. rewrite !seg_app. cbn. intros [Hl [[i Hx] _]].
  split; [|split; [|done]].
  - eapply seg_frame; [|exact Hl]. intros y Hy. unfold set_next.
    rewrite lookup_alter_ne; [done|]. intros <-. apply (Hnd x Hy). by left.
  - exists i. unfold set_next. by rewrite lookup_alter_eq, Hx.
Qed.

Lemma seg_set_prev h p p' x l n :
  NoDup (x :: l) → seg h p (x :: l) n → seg (set_prev x p' h) p' (x :: l) n.
Proof.
  intros [Hnd _]%NoDup_cons. cbn. intros [[i Hx] Hl]. split.
  - exists i. unfold set_prev. by rewrite lookup_alter_eq, Hx.
  - eapply seg_frame; [|exact Hl]. intros y Hy. unfold set_prev.
    rewrite lookup_alter_ne; [done|]. intros <-. done.
Qed.

Lemma set_next_ne h x y v : x ≠ y → set_next x v h !! y = h !! y.
Proof. apply lookup_alter_ne. Qed.
Lemma set_prev_ne h x y v : x ≠ y → set_prev x v h !! y = h !! y.
Proof. apply lookup_alter_ne. Qed.
Lemma set_next_eq h x i p n v :
  h !! x = Some (mkNode i p n) → set_next x v h !! x = Some (mkNode i p v).
Proof. intros H. unfold set_next. by rewrite lookup_alter_eq, H. Qed.
Lemma set_prev_eq h x i p n v :
  h !! x = Some (mkNode i p n) → set_prev x v h !! x = Some (mkNode i v n).
Proof. intros H. unfold set_prev. by rewrite lookup_alter_eq, H. Qed.

#[export] Hint Rewrite set_next_ne set_prev_ne using congruence : heap.

Lemma seg_next h p l1 x l2 n :
  seg h p (l1 ++ x :: l2) n → next_of h x = hd_or l2 n.
Proof. rewrite seg_app. cbn. intros [_ [[i Hx] _]]. unfold next_of. by rewrite Hx. Qed.
Lemma seg_prev h p l1 x l2 n :
  seg h p (l1 ++ x :: l2) n → prev_of h x = last_or p l1.
Proof. rewrite seg_app. cbn. intros [_ [[i Hx] _]]. unfold prev_of. by rewrite Hx. Qed.

(** ** Iteration and length *)

Lemma iter_from_seg h p l fuel : 
  (length l ≤ fuel)%nat → seg h p l None → BB.iter_from fuel h (head l) = l.
Proof.
  revert p fuel. induction l as [|x l IH]; intros p fuel Hf Hs; [by destruct fuel|].
  destruct fuel as [|fuel]; cbn in Hf; [lia|]. cbn [head BB.iter_from]. f_equal.
  pose proof (seg_next h p [] x l None Hs) as ->. destruct Hs as [_ Hs].
  rewrite <- (IH (Some x) fuel) at 2; [|lia|done]. by destruct l.
Qed.

Lemma seg_dom h p l n : NoDup l → seg h p l n → (length l ≤ size h)%nat.
Proof.
  intros Hnd Hs. rewrite <- (size_list_to_set (C := gset nat)) by done.
  rewrite <- size_dom. apply subseteq_size. intros x Hx%elem_of_list_to_set.
  apply elem_of_dom. clear Hnd. revert p Hs. induction l as [|y l IH]; intros p; cbn.
  - by apply elem_of_nil in Hx.
  - intros [[i Hy] Hs]. apply elem_of_cons in Hx as [->|Hx]; [by eexists|by eapply IH].
Qed.

Lemma iter_represents h b l : represents h b l → BB.iter h b = l.
Proof.
  intros [Hs _ Hnd Hseg]. unfold BB.iter. rewrite Hs.
  by eapply iter_from_seg; [eapply seg_dom|].
Qed.

Lemma count_from_seg h p x l fuel c :
  (length l ≤ fuel)%nat → seg h p (x :: l) None →
  BB.count_from fuel h x c = (c + length l)%nat.
Proof.
  revert p x fuel c. induction l as [|y l IH]; intros p x fuel c Hf Hs;
    pose proof (seg_next h p [] x _ None Hs) as Hn; cbn [hd_or] in Hn; cbn [length].
  - destruct fuel; cbn; [|rewrite Hn]; lia.
  - destruct fuel as [|fuel]; cbn in Hf; [lia|]. cbn. rewrite Hn.
    destruct Hs as [_ Hs]. rewrite (IH (Some x) y fuel (S c)); [lia|lia|done].
Qed.

Lemma len_represents h b l : represents h b l → BB.bb_len h b = length l.
Proof.
  intros [Hs _ Hnd Hseg]. unfold BB.bb_len. rewrite Hs. destruct l as [|x l]; [done|]. cbn [head].
  pose proof (seg_dom _ _ _ _ Hnd Hseg) as Hl. cbn [length] in *.
  rewrite (count_from_seg h None x l) by (lia || done). lia.
Qed.

(** ** Insertion *)

(** Linking a fresh node between the two halves of a segment. *)
Lemma seg_link h h' p l1 l2 n x :
  seg h p (l1 ++ l2) n → NoDup (l1 ++ x :: l2) →
  (∃ i, h' !! x = Some (mkNode i (last_or p l1) (hd_or l2 n))) →
  (∀ y l, l1 = l ++ [y] → ∃ i p' n', h !! y = Some (mkNode i p' n') ∧
                                     h' !! y = Some (mkNode i p' (Some x))) →
  (∀ y l, l2 = y :: l → ∃ i p' n', h !! y = Some (mkNode i p' n') ∧
                                   h' !! y = Some (mkNode i (Some x) n')) →
  (∀ y, y ∈ l1 → last l1 ≠ Some y → h' !! y = h !! y) →
  (∀ y, y ∈ l2 → head l2 ≠ Some y → h' !! y = h !! y) →
  seg h' p (l1 ++ x :: l2) n.
Proof.
  rewrite seg_app, NoDup_app. intros [H1 H2] (Hnd1 & Hd & Hnd2) Hx Hlast Hhead Hf1 Hf2.
  apply NoDup_cons in Hnd2 as [Hx2 Hnd2].
  rewrite seg_app. cbn [hd_or seg]. split; [|split; [exact Hx|]].
  - clear H2 Hhead Hf2 Hx. destruct l1 as [|y l1 _] using rev_ind; [done|].
    apply seg_app in H1 as [H1 [[i Hy] _]]. cbn [hd_or] in H1, Hy.
    destruct (Hlast y l1 eq_refl) as (i' & p' & n' & Hy1 & Hy2).
    apply seg_app. cbn [seg hd_or]. split; [|split; [|done]].
    + eapply seg_frame; [|exact H1]. intros z Hz. apply Hf1; [set_solver|].
      rewrite last_snoc. intros [= <-]. apply NoDup_app in Hnd1 as (_ & Hn & _).
      apply (Hn _ Hz). by left.
    + rewrite Hy in Hy1. injection Hy1 as <- <- <-. eauto.
  - clear H1 Hlast Hf1 Hx. destruct l2 as [|y l2]; [done|]. cbn [seg] in H2 |- *.
    destruct H2 as [[i Hy] H2]. destruct (Hhead y l2 eq_refl) as (i' & p' & n' & Hy1 & Hy2).
    rewrite Hy in Hy1. injection Hy1 as <- <- <-. split; [eauto|].
    apply NoDup_cons in Hnd2 as [Hny _].
    eapply seg_frame; [|exact H2]. intros z Hz. apply Hf2; [set_solver|].
    cbn. intros [= <-]. done.
Qed.

Lemma seg_node h p l1 x l2 n :
  seg h p (l1 ++ x :: l2) n → ∃ i, h !! x = Some (mkNode i (last_or p l1) (hd_or l2 n)).
Proof. rewrite seg_app. cbn. by intros [_ [H _]]. Qed.

(** The instructions of the heap are untouched by relinking. *)
Definition same_insts (h h' : heap) : Prop := ∀ x, n_inst <$> h !! x = n_inst <$> h' !! x.

#[export] Instance same_insts_refl : Reflexive same_insts.
Proof. by intros h x. Qed.
#[export] Instance same_insts_trans : Transitive same_insts.
Proof. intros h1 h2 h3 H1 H2 x. by rewrite H1. Qed.

Lemma set_next_insts x v h : same_insts h (set_next x v h).
Proof.
  intros y. unfold set_next. destruct (decide (y = x)) as [->|].
  - rewrite lookup_alter_eq. by destruct (h !! x).
  - by rewrite lookup_alter_ne.
Qed.
Lemma set_prev_insts x v h : same_insts h (set_prev x v h).
Proof.
  intros y. unfold set_prev. destruct (decide (y = x)) as [->|].
  - rewrite lookup_alter_eq. by destruct (h !! x).
  - by rewrite lookup_alter_ne.
Qed.
#[export] Hint Resolve set_next_insts set_prev_insts : heap.

Ltac node_step :=
  repeat first
    [ rewrite set_next_ne by set_solver | rewrite set_prev_ne by set_solver
    | erewrite set_next_eq by eassumption | erewrite set_prev_eq by eassumption ].

Lemma insert_after_at h b l1 p l2 x :
  represents h b (l1 ++ p :: l2) → fresh_node h x → x ∉ l1 ++ p :: l2 →
  let '(h', b') := BB.insert_after (Some p) x (h, b) in represents h' b' (l1 ++ p :: x :: l2).
Proof.
  intros [Hs He Hnd Hseg] [ix Hx] Hnin.
  pose proof (seg_node _ _ _ _ _ _ Hseg) as [ip Hp].
  assert (NoDup (l1 ++ p :: x :: l2)) as Hnd'.
  { replace (l1 ++ p :: x :: l2) with ((l1 ++ [p]) ++ x :: l2) by (by rewrite <- app_assoc).
    rewrite <- Permutation_middle. constructor; [|by rewrite <- app_assoc].
    by rewrite <- app_assoc. }
  assert (p ≠ x) by set_solver.
  cbn. rewrite (seg_next _ _ _ _ _ _ Hseg).
  destruct l2 as [|y l2]; cbn [hd_or].
  - split; cbn; [by destruct l1| | |].
    + by rewrite last_app.
    + done.
    + replace (l1 ++ [p; x]) with ((l1 ++ [p]) ++ [x]) by (by rewrite <- app_assoc).
      assert (h' := h). clear h'.
      eapply (seg_link h); [by rewrite app_nil_r|by rewrite <- app_assoc| | | | |].
      * exists ix. unfold last_or. rewrite last_snoc. cbn.
        apply (set_prev_eq _ _ ix None None). by rewrite set_next_ne.
      * intros y l [-> [= <-]]%app_inj_2; [|done]. exists ip. do 2 eexists.
        split; [exact Hp|]. rewrite set_prev_ne by done. by eapply set_next_eq.
      * done.
      * intros y Hy Hne. rewrite last_snoc in Hne.
        assert (y ≠ x) by (intros ->; done).
        by rewrite set_prev_ne, set_next_ne by congruence.
      * intros y Hy. by apply elem_of_nil in Hy.
  - assert (y ≠ x ∧ y ≠ p ∧ y ∉ l1 ∧ y ∉ l2) as (Hyx & Hyp & Hy1 & Hy2).
    { apply NoDup_app in Hnd as (_ & Hd & Hnd2). apply NoDup_cons in Hnd2 as [Hp2 Hnd2].
      apply NoDup_cons in Hnd2 as [Hy2 _]. repeat split; set_solver. }
    destruct (seg_node h None (l1 ++ [p]) y l2 None) as [iy Hy]; [by rewrite <- app_assoc|].
    split; cbn; [by destruct l1| |done|].
    + rewrite He, !last_app. cbn. by destruct (last l2).
    + replace (l1 ++ p :: x :: y :: l2) with ((l1 ++ [p]) ++ x :: y :: l2)
        by (by rewrite <- app_assoc).
      eapply (seg_link h); [by rewrite <- app_assoc|by rewrite <- app_assoc| | | | |].
      * exists ix. unfold last_or. rewrite last_snoc. cbn.
        rewrite set_prev_ne by done. eapply set_next_eq, set_prev_eq. by rewrite set_next_ne.
      * intros z l [-> [= <-]]%app_inj_2; [|done]. exists ip. do 2 eexists.
        split; [exact Hp|]. rewrite set_prev_ne, set_next_ne, set_prev_ne by done.
        by eapply set_next_eq.
      * intros z l [= <- <-]. exists iy. do 2 eexists. split; [exact Hy|].
        eapply set_prev_eq. rewrite set_next_ne, set_prev_ne, set_next_ne by done. exact Hy.
      * intros z Hz Hne. rewrite last_snoc in Hne.
        assert (z ∈ l1) as Hz1 by
          (apply elem_of_app in Hz as [?|Hz]; [done|apply list_elem_of_singleton in Hz; congruence]).
        assert (z ≠ x ∧ z ≠ y ∧ z ≠ p) as (? & ? & ?).
        { split_and!; [|by intros ->|congruence].
          intros ->. apply Hnin. apply elem_of_app. by left. }
        by rewrite set_prev_ne, set_next_ne, set_prev_ne, set_next_ne by congruence.
      * intros z Hz Hne. cbn in Hne.
        assert (z ≠ x ∧ z ≠ y ∧ z ≠ p) as (? & ? & ?).
        { apply NoDup_app in Hnd as (_ & _ & [Hp2 _]%NoDup_cons).
          split_and!; [|congruence|congruence].
          intros ->. apply Hnin. rewrite elem_of_app, elem_of_cons. auto. }
        by rewrite set_prev_ne, set_next_ne, set_prev_ne, set_next_ne by congruence.
Qed.

Lemma represents_empty_insert h b x :
  represents h b [] → fresh_node h x →
  represents h (BB.set_end (BB.set_start b (Some x)) (Some x)) [x].
Proof.
  intros _ [i Hx]. split; cbn; [done|done|repeat constructor; set_solver|eauto].
Qed.

Lemma represents_start h b l : represents h b l → bb_start b = head l.
Proof. by intros []. Qed.

(** [insert_before] at an inner node. *)
Lemma insert_before_middle h b l1 y p l2 x :
  represents h b (l1 ++ y :: p :: l2) → fresh_node h x → x ∉ l1 ++ y :: p :: l2 →
  represents (set_next y (Some x) (set_prev x (Some y)
    (set_next x (Some p) (set_prev p (Some x) h)))) b (l1 ++ y :: x :: p :: l2).
Proof.
  intros [Hs He Hnd Hseg] [ix Hx] Hnin.
  destruct (seg_node h None l1 y (p :: l2) None Hseg) as [iy Hy].
  destruct (seg_node h None (l1 ++ [y]) p l2 None) as [ip Hp]; [by rewrite <- app_assoc|].
  apply NoDup_app in Hnd as H. destruct H as (Hnd1 & Hd & [Hy2 [Hp2 Hnd2]%NoDup_cons]%NoDup_cons).
  rewrite elem_of_app, !elem_of_cons in Hnin. rewrite elem_of_cons in Hy2.
  assert (p ∉ l1) as Hp1 by (intros Hin; apply (Hd _ Hin); right; by left).
  assert (y ∉ l1) as Hy1 by (intros Hin; apply (Hd _ Hin); by left).
  assert (x ≠ y ∧ x ≠ p ∧ y ≠ p) as (? & ? & ?) by (split_and!; naive_solver).
  split; [by rewrite Hs; destruct l1| | |].
  - rewrite He, !last_app. by destruct l2.
  - rewrite NoDup_app. split_and!; [done| |].
    + intros z Hz. rewrite !elem_of_cons. intros [->|[->|Hin]]; [tauto|tauto|].
      apply (Hd z Hz). by right; apply elem_of_cons.
    + rewrite !NoDup_cons, !elem_of_cons. naive_solver.
  - replace (l1 ++ y :: x :: p :: l2) with ((l1 ++ [y]) ++ x :: p :: l2) by (by rewrite <- app_assoc).
    eapply (seg_link h); [by rewrite <- app_assoc| | | | | |].
    + rewrite <- app_assoc. cbn. apply NoDup_app. split_and!; [done| |].
      * intros z Hz. rewrite !elem_of_cons. intros [->|[->|Hin]]; [tauto|tauto|].
        apply (Hd z Hz). by right; apply elem_of_cons.
      * rewrite !NoDup_cons, !elem_of_cons. naive_solver.
    + exists ix. unfold last_or. rewrite last_snoc. cbn.
      rewrite set_next_ne by done. eapply set_prev_eq, set_next_eq. by rewrite set_prev_ne.
    + intros z l [-> [= <-]]%app_inj_2; [|done]. exists iy. do 2 eexists. split; [exact Hy|].
      eapply set_next_eq. by rewrite set_prev_ne, set_next_ne, set_prev_ne by done.
    + intros z l [= <- <-]. exists ip. do 2 eexists. split; [exact Hp|].
      rewrite set_next_ne, set_prev_ne, set_next_ne by done. by eapply set_prev_eq.
    + intros z Hz Hne. rewrite last_snoc in Hne.
      assert (z ∈ l1) as Hz1 by
        (apply elem_of_app in Hz as [?|Hz]; [done|apply list_elem_of_singleton in Hz; congruence]).
      assert (z ≠ x ∧ z ≠ p) as (? & ?) by (split; intros ->; tauto).
      by rewrite set_next_ne, set_prev_ne, set_next_ne, set_prev_ne by congruence.
    + intros z Hz Hne. cbn in Hne.
      assert (z ≠ x ∧ z ≠ y) as (? & ?).
      { apply elem_of_cons in Hz as [->|Hz]; [done|]. split; intros ->; tauto. }
      by rewrite set_next_ne, set_prev_ne, set_next_ne, set_prev_ne by congruence.
Qed.

Lemma insert_before_first h b p l2 x :
  represents h b (p :: l2) → fresh_node h x → x ∉ p :: l2 →
  represents (set_next x (Some p) (set_prev p (Some x) h)) (BB.set_start b (Some x)) (x :: p :: l2).
Proof.
  intros [Hs He Hnd Hseg] [ix Hx] Hnin. apply NoDup_cons in Hnd as H. destruct H as [Hp2 Hnd2].
  rewrite elem_of_cons in Hnin. destruct (seg_node h None [] p l2 None Hseg) as [ip Hp].
  split; cbn [bb_start bb_end BB.set_start]; [done|by rewrite He|by rewrite NoDup_cons, elem_of_cons|].
  apply (seg_link h _ None [] (p :: l2) None x); [done|by cbn; rewrite NoDup_cons, elem_of_cons| | | | |].
  - exists ix. cbn. eapply set_next_eq. rewrite set_prev_ne by naive_solver. exact Hx.
  - intros y [|]; discriminate.
  - intros y l [= <- <-]. exists ip. do 2 eexists. split; [exact Hp|].
    rewrite set_next_ne by naive_solver. by eapply set_prev_eq.
  - intros y Hy. by apply elem_of_nil in Hy.
  - intros z Hz Hne. cbn in Hne. apply elem_of_cons in Hz as [->|Hz]; [done|].
    rewrite set_next_ne by (intros ->; tauto). by rewrite set_prev_ne by congruence.
Qed.

(** ** Deletion *)

Lemma seg_unlink h h' p l1 l2 n x :
  seg h p (l1 ++ x :: l2) n → NoDup (l1 ++ x :: l2) →
  (∀ y l i p' n', l1 = l ++ [y] → h !! y = Some (mkNode i p' n') →
                  h' !! y = Some (mkNode i p' (hd_or l2 n))) →
  (∀ y l i p' n', l2 = y :: l → h !! y = Some (mkNode i p' n') →
                  h' !! y = Some (mkNode i (last_or p l1) n')) →
  (∀ y, y ∈ l1 → last l1 ≠ Some y → h' !! y = h !! y) →
  (∀ y, y ∈ l2 → head l2 ≠ Some y → h' !! y = h !! y) →
  seg h' p (l1 ++ l2) n.
Proof.
  rewrite seg_app, NoDup_app. cbn [hd_or seg]. intros [H1 [Hx H2]] (Hnd1 & _ & Hnd2) Hl Hh Hf1 Hf2.
  apply NoDup_cons in Hnd2 as [_ Hnd2]. rewrite seg_app. split.
  - clear Hh Hf2 H2 Hx. destruct l1 as [|y l1 _] using rev_ind; [done|].
    apply seg_app in H1 as [H1 [[i Hy] _]]. cbn [hd_or] in *. apply seg_app. cbn [seg hd_or].
    split; [|split; [|done]].
    + eapply seg_frame; [|exact H1]. intros z Hz. apply Hf1; [set_solver|].
      rewrite last_snoc. intros [= <-]. apply NoDup_app in Hnd1 as (_ & Hn & _).
      apply (Hn _ Hz). by left.
    + exists i. by eapply Hl.
  - clear Hl Hf1 H1 Hx. destruct l2 as [|y l2]; [done|]. cbn [seg] in *.
    destruct H2 as [[i Hy] H2]. split; [exists i; by eapply Hh|].
    apply NoDup_cons in Hnd2 as [Hny _]. eapply seg_frame; [|exact H2].
    intros z Hz. apply Hf2; [set_solver|]. cbn. congruence.
Qed.

Lemma delete_at h b l1 x l2 :
  represents h b (l1 ++ x :: l2) →
  ∃ h' b', BB.delete x (h, b) = Ok (h', b') ∧ represents h' b' (l1 ++ l2).
Proof.
  intros Hr. pose proof (iter_represents _ _ _ Hr) as Hit. destruct Hr as [Hs He Hnd Hseg].
  unfold BB.delete. rewrite Hit, (proj2 (mem_spec x _)) by (apply elem_of_app; right; by left).
  cbn [negb]. rewrite (seg_prev _ _ _ _ _ _ Hseg), (seg_next _ _ _ _ _ _ Hseg).
  assert (NoDup (l1 ++ l2)) as Hnd'.
  { rewrite <- Permutation_middle in Hnd. by apply NoDup_cons in Hnd as [_ ?]. }
  apply NoDup_app in Hnd' as H. destruct H as (_ & Hdis & _).
  destruct l1 as [|p l1 _] using rev_ind; cbn [last_or last]; unfold last_or; rewrite ?last_snoc;
    destruct l2 as [|n l2]; cbn [hd_or]; do 2 eexists; (split; [reflexivity|]);
    split; cbn [bb_start bb_end BB.set_start BB.set_end]; try done.
  - eapply seg_unlink; [exact Hseg|done|by intros ? [|]| |by intros ? ?%elem_of_nil|].
    + intros y l i p' n' [= <- <-] Hy. by eapply set_prev_eq.
    + intros y Hy Hne. cbn in Hne. by rewrite set_prev_ne by congruence.
  - rewrite Hs. by destruct l1.
  - by rewrite app_nil_r, last_snoc.
  - eapply seg_unlink; [exact Hseg|done| |by intros ? [|]| |by intros ? ?%elem_of_nil].
    + intros y l i p' n' [-> [= <-]]%app_inj_2 Hy; [|done]. by eapply set_next_eq.
    + intros y Hy Hne. rewrite last_snoc in Hne. by rewrite set_next_ne by congruence.
  - rewrite Hs. by destruct l1.
  - rewrite He, !last_app. cbn. by destruct (last l2).
  - assert (p ≠ n) as Hpn.
    { intros ->. apply (Hdis n); [apply elem_of_app; right; by left|by left]. }
    eapply seg_unlink; [exact Hseg|done| | | |].
    + intros y l i p' n' [-> [= <-]]%app_inj_2 Hy; [|done].
      rewrite set_prev_ne by done. by eapply set_next_eq.
    + intros y l i p' n' [= <- <-] Hy. unfold last_or. rewrite last_snoc.
      eapply set_prev_eq. by rewrite set_next_ne.
    + intros y Hy Hne. rewrite last_snoc in Hne.
      assert (y ≠ n) by (intros ->; apply (Hdis n Hy); by left).
      by rewrite set_prev_ne, set_next_ne by congruence.
    + intros y Hy Hne. cbn in Hne.
      assert (y ≠ p).
      { intros ->. apply (Hdis p); [apply elem_of_app; right; by left|done]. }
      by rewrite set_prev_ne, set_next_ne by congruence.
Qed.

(** ** The contract of a block: list operations *)

(** [insert_after(position, inst)] and [insert_before(position, inst)] on lists. *)
Fixpoint list_insert_after (p x : nat) (l : list nat) : list nat :=
  match l with
  | [] => []
  | y :: l => if decide (y = p) then y :: x :: l else y :: list_insert_after p x l
  end.
Fixpoint list_insert_before (p x : nat) (l : list nat) : list nat :=
  match l with
  | [] => []
  | y :: l => if decide (y = p) then x :: y :: l else y :: list_insert_before p x l
  end.

Lemma list_insert_after_app l1 p l2 x :
  p ∉ l1 → list_insert_after p x (l1 ++ p :: l2) = l1 ++ p :: x :: l2.
Proof.
  induction l1 as [|y l1 IH]; cbn; intros H.
  - by rewrite decide_True.
  - rewrite decide_False by (intros ->; apply H; by left). f_equal. apply IH. intros ?; apply H; by right.
Qed.
Lemma list_insert_before_app l1 p l2 x :
  p ∉ l1 → list_insert_before p x (l1 ++ p :: l2) = l1 ++ x :: p :: l2.
Proof.
  induction l1 as [|y l1 IH]; cbn; intros H.
  - by rewrite decide_True.
  - rewrite decide_False by (intros ->; apply H; by left). f_equal. apply IH. intros ?; apply H; by right.
Qed.

Lemma represents_split h b l p : represents h b l → p ∈ l →
  ∃ l1 l2, l = l1 ++ p :: l2 ∧ p ∉ l1.
Proof.
  intros [_ _ Hnd _] (l1 & l2 & ->)%list_elem_of_split. exists l1, l2. split; [done|].
  apply NoDup_app in Hnd as (_ & Hd & _). intros Hin. apply (Hd p Hin). by left.
Qed.

Lemma insert_after_list h b l p x :
  represents h b l → p ∈ l → fresh_node h x → x ∉ l →
  let '(h', b') := BB.insert_after (Some p) x (h, b) in
  represents h' b' (list_insert_after p x l).
Proof.
  intros Hr Hp Hx Hnin. destruct (represents_split _ _ _ _ Hr Hp) as (l1 & l2 & -> & Hp1).
  rewrite list_insert_after_app by done. by apply insert_after_at.
Qed.

Lemma insert_before_list h b l p x :
  represents h b l → p ∈ l → fresh_node h x → x ∉ l →
  let '(h', b') := BB.insert_before (Some p) x (h, b) in
  represents h' b' (list_insert_before p x l).
Proof.
  intros Hr Hp Hx Hnin. destruct (represents_split _ _ _ _ Hr Hp) as (l1 & l2 & -> & Hp1).
  rewrite list_insert_before_app by done. cbn.
  rewrite (seg_prev _ _ _ _ _ _ (rep_seg _ _ _ Hr)).
  destruct l1 as [|y l1 _] using rev_ind; cbn [last_or last].
  - by apply insert_before_first.
  - unfold last_or. rewrite last_snoc. rewrite <- app_assoc in *. cbn [app] in *.
    by apply insert_before_middle.
Qed.

(** C16: the doubly linked list of a block implements lists.  Inserting before or
    after a member, inserting into an empty block, deleting a member, iterating
    and counting are the list operations; deleting a stranger raises. *)
Theorem block_refines_list h b l :
  represents h b l →
  BB.iter h b = l ∧ BB.bb_len h b = length l ∧
  BB.get_first b = head l ∧ BB.get_last b = last l ∧
  (∀ x, fresh_node h x → x ∉ l →
     (∀ p, p ∈ l →
        (let '(h', b') := BB.insert_after (Some p) x (h, b) in
         represents h' b' (list_insert_after p x l)) ∧
        (let '(h', b') := BB.insert_before (Some p) x (h, b) in
         represents h' b' (list_insert_before p x l))) ∧
     (let '(h', b') := BB.insert_after None x (h, b) in
      represents h' b' (match l with [] => [x] | s :: l => s :: x :: l end)) ∧
     (let '(h', b') := BB.insert_before None x (h, b) in represents h' b' (x :: l))) ∧
  (∀ l1 p l2, l = l1 ++ p :: l2 →
     ∃ h' b', BB.delete p (h, b) = Ok (h', b') ∧ represents h' b' (l1 ++ l2)) ∧
  (∀ p, p ∉ l → BB.delete p (h, b) = Raise PlainException).
Proof.
  intros Hr. pose proof (iter_represents _ _ _ Hr) as Hit.
  split_and!; [done|by apply len_represents|by destruct Hr|by destruct Hr| | |].
  - intros x Hx Hnin. split_and!.
    + intros p Hp. split; [by apply insert_after_list|by apply insert_before_list].
    + unfold BB.insert_after. rewrite (represents_start _ _ _ Hr). destruct l as [|s l]; cbn [head].
      * by apply represents_empty_insert.
      * by apply (insert_after_at h b [] s l x).
    + unfold BB.insert_before. rewrite (represents_start _ _ _ Hr). destruct l as [|s l]; cbn [head].
      * by apply represents_empty_insert.
      * pose proof (insert_before_list h b (s :: l) s x Hr) as H. cbn [list_insert_before] in H.
        rewrite decide_True in H by done. apply H; [by left|done|done].
  - intros l1 p l2 ->. by apply delete_at.
  - intros p Hp. unfold BB.delete. by rewrite Hit, (proj2 (mem_false p l) Hp).
Qed.

Lemma block_refines_list_witness :
  let i := new_Instruction "NOP" false "" false in
  let h : heap := {[ 0%nat := mkNode i None None ]} in
  let b := mkBB ".bb" [] [] (Some 0%nat) (Some 0%nat) in
  BB.iter h b = [0%nat].
Proof. intros i h b. apply (block_refines_list h b [0%nat]). split; [done|done|repeat constructor; set_solver|]. cbn. eauto. Defined.

(** [name.lstrip('.function_')] strips letters: a function named
    [.function_iota] gets the entry block [.bb_a.entry], the same as one
    named [.function_a], and [.function_main] keeps its name. *)
Theorem function_name_stripping :
  entry_name ".function_main" = ".bb_main.entry" ∧
  entry_name ".function_iota" = entry_name ".function_a".
Proof. split; reflexivity. Qed.
