(* ===== verification/Generator.v ===== *)
(** * Random test-case generation

    [RandomGenerator] of [src/src/generator.py]: the random DAG of basic blocks,
    the operand generators, the terminators and the instructions of a function.
    Python's [random] is a tape of draws; blocks and instructions live in the
    stores of [BasicBlock], so a generator step is a function of the [world]. *)

From S2P Require Import Prelude.
From S2P Require Import Isa.
From S2P Require Import BasicBlock.

Open Scope Z_scope.

(** ** The world and its monad *)

Record world := mkWorld {
  w_heap : heap;
  w_bbs : gmap nat BasicBlock;
  w_next_inst : nat;
  w_next_bb : nat;
  w_draw : nat;
  w_recent : bool
}.

Definition M (A : Type) : Type := world → result (A * world).

#[export] Instance M_ret : MRet M := λ A a w, Ok (a, w).
#[export] Instance M_bind : MBind M := λ A B f m w,
  match m w with Ok (a, w') => f a w' | Raise e => Raise e end.

Definition raise {A} (e : exn) : M A := λ _, Raise e.
Definition lift {A} (r : result A) : M A := λ w, a ← r; Ok (a, w).
Definition get {A} (f : world → A) : M A := λ w, Ok (f w, w).
Definition modify (f : world → world) : M unit := λ w, Ok (tt, f w).

(** A [for] loop that threads a value besides the world. *)
Fixpoint for_m {A S} (f : A → S → M S) (l : list A) (s : S) : M S :=
  match l with
  | [] => mret s
  | x :: l => s' ← f x s; for_m f l s'
  end.

Definition set_heap (h : heap) (w : world) : world :=
  mkWorld h (w_bbs w) (w_next_inst w) (w_next_bb w) (w_draw w) (w_recent w).
Definition set_bbs (m : gmap nat BasicBlock) (w : world) : world :=
  mkWorld (w_heap w) m (w_next_inst w) (w_next_bb w) (w_draw w) (w_recent w).
Definition set_recent (b : bool) (w : world) : world :=
  mkWorld (w_heap w) (w_bbs w) (w_next_inst w) (w_next_bb w) (w_draw w) b.

(** Allocation of an instruction node and of a block. *)
Definition new_inst (i : Instruction) : M nat := λ w,
  let x := w_next_inst w in
  Ok (x, mkWorld (<[x := mkNode i None None]> (w_heap w)) (w_bbs w) (S x) (w_next_bb w)
           (w_draw w) (w_recent w)).
Definition new_bb (name : string) : M nat := λ w,
  let x := w_next_bb w in
  Ok (x, mkWorld (w_heap w) (<[x := BB.new_BasicBlock name]> (w_bbs w)) (w_next_inst w) (S x)
           (w_draw w) (w_recent w)).

(** A block and an instruction by reference. *)
Definition the_bb (x : nat) : M BasicBlock := λ w,
  b ← from_option AttributeError (w_bbs w !! x); Ok (b, w).
Definition the_inst (x : nat) : M Instruction := λ w,
  n ← from_option AttributeError (w_heap w !! x); Ok (n_inst n, w).
Definition put_bb (x : nat) (b : BasicBlock) : M unit :=
  modify (λ w, set_bbs (<[x := b]> (w_bbs w)) w).
Definition put_inst (x : nat) (i : Instruction) : M unit :=
  modify (λ w, set_heap (set_inst x i (w_heap w)) w).

(** The operations of a block, run on the stores. *)
Definition block_op (op : heap * BasicBlock → result (heap * BasicBlock)) (x : nat) : M unit := λ w,
  b ← from_option AttributeError (w_bbs w !! x);
  '(h', b') ← op (w_heap w, b);
  Ok (tt, set_bbs (<[x := b']> (w_bbs w)) (set_heap h' w)).
Definition insert_after_m (x : nat) (position : option nat) (inst : nat) : M unit :=
  block_op (λ st, Ok (BB.insert_after position inst st)) x.
Definition insert_before_m (x : nat) (position : option nat) (inst : nat) : M unit :=
  block_op (λ st, Ok (BB.insert_before position inst st)) x.
Definition delete_m (x : nat) (inst : nat) : M unit := block_op (BB.delete inst) x.
Definition instructions_of (x : nat) : M (list nat) := λ w,
  b ← from_option AttributeError (w_bbs w !! x); Ok (BB.iter (w_heap w) b, w).

(** ** Configuration and instruction set: the fields the generator reads *)

Record gen_conf := mkConf {
  min_bb_per_function : Z;
  max_bb_per_function : Z;
  test_case_size : Z;
  avg_mem_accesses : Z;
  generate_memory_accesses_in_pairs : bool;
  avoid_data_dependencies : bool;
  gpr_blocklist : list string;
  input_main_region_size : Z;
  memory_access_zeroed_bits : Z;
  randomized_mem_alignment : bool
}.

Record InstructionSet := mkISA {
  instructions : list InstructionSpec;
  has_unconditional_branch : bool;
  has_conditional_branch : bool;
  has_indirect_branch : bool;
  has_reads : bool;
  has_writes : bool
}.

Definition string_le (a b : string) : Prop := String.leb a b = true.
#[export] Instance string_le_dec : RelDecision string_le.
Proof. intros a b. unfold string_le. apply _. Defined.

(** [sorted(l)] on strings. *)
Definition sorted (l : list string) : list string := merge_sort string_le l.

Section random.
(** The draws of the [random] module. *)
Context (draws : nat → Z).

Definition draw : M Z := λ w,
  Ok (draws (w_draw w), mkWorld (w_heap w) (w_bbs w) (w_next_inst w) (w_next_bb w)
                          (S (w_draw w)) (w_recent w)).

(** [random.randint(a, b)] *)
Definition randint (a b : Z) : M Z :=
  if b <? a then raise ValueError else d ← draw; mret (a + d mod (b - a + 1)).

(** [random.choice(l)] *)
Definition choice {A} (l : list A) : M A :=
  if bool_decide (length l = 0%nat) then raise IndexError
  else d ← draw; lift (from_option IndexError (l !! Z.to_nat (d mod Z.of_nat (length l)))).

(** [random.random() < num / den]: a draw of 53 bits against the quotient. *)
Definition random_below (num den : Z) : M bool :=
  if den =? 0 then raise ZeroDivisionError
  else d ← draw;
    let k := d mod 2 ^ 53 in
    mret (if 0 <? den then k * den <? num * 2 ^ 53 else num * 2 ^ 53 <? k * den).

(** [random.getrandbits(k)] *)
Definition getrandbits (k : Z) : M Z := d ← draw; mret (d mod 2 ^ k).

Context (conf : gen_conf) (isa : InstructionSet).

(** ** [ConfigurableGenerator.__init__] *)

Definition control_flow_instructions : list InstructionSpec :=
  select is_control_flow (instructions isa).
Definition non_control_flow_instructions : list InstructionSpec :=
  select (λ i, negb (is_control_flow i)) (instructions isa).

(** ** Operands *)

(** [self.register_set.registers], after the blocklist. *)
Definition register_set : gmap Z (list string) := filtered_decoding (gpr_blocklist conf).

Definition generate_reg_operand (spec : OperandSpec) (parent : Instruction)
    : M (Operand * Instruction) :=
  reg_type ← lift (from_option IndexError (head (os_values spec)));
  choices ← (if bool_decide (reg_type = "GPR")
             then lift (from_option KeyError (register_set !! os_width spec))
             else if bool_decide (reg_type = "SIMD")
             then lift (from_option KeyError (simd_registers !! os_width spec))
             else mret (os_values spec));
  let choices := sorted choices in
  if negb (avoid_data_dependencies conf) then
    reg ← choice choices;
    mret (new_RegisterOperand reg (os_width spec) (os_src spec) (os_dest spec), parent)
  else
    let fresh :=
      reg ← choice choices;
      let op := new_RegisterOperand reg (os_width spec) (os_src spec) (os_dest spec) in
      mret (op, set_latest_reg_operand parent (Some op)) in
    match i_latest_reg_operand parent with
    | Some op => if mem (op_value op) choices then mret (op, parent) else fresh
    | None => fresh
    end.

Definition generate_mem_operand (spec : OperandSpec) : M Operand :=
  address_reg ← (if bool_decide (os_values spec = [])
                 then regs ← lift (from_option KeyError (register_set !! 64)); choice (sorted regs)
                 else choice (sorted (os_values spec)));
  mret (new_MemoryOperand address_reg (os_width spec) (os_src spec) (os_dest spec)).

(** A width below one makes [pow(2, width - 1)] a fraction, which [randint] refuses. *)
Definition generate_imm_operand (spec : OperandSpec) : M Operand :=
  value ← match os_values spec with
          | v :: _ => mret v
          | [] =>
              if os_width spec <? 1 then raise ValueError
              else v ← randint (- 2 ^ (os_width spec - 1)) (2 ^ (os_width spec - 1) - 1);
                   mret (str v)
          end;
  mret (new_ImmediateOperand value (os_width spec)).

Definition generate_agen_operand (spec : OperandSpec) : M Operand :=
  n_operands ← randint 1 3;
  regs ← lift (from_option KeyError (register_set !! 64));
  reg1 ← choice (sorted regs);
  if n_operands =? 1 then mret (new_AgenOperand reg1 (os_width spec))
  else
    reg2 ← choice (sorted regs);
    if n_operands =? 2
    then mret (new_AgenOperand (reg1 +:+ " + " +:+ reg2) (os_width spec))
    else
      imm ← randint 0 (2 ^ 16 - 1);
      mret (new_AgenOperand (reg1 +:+ " + " +:+ reg2 +:+ " + " +:+ str imm) (os_width spec)).

Definition generate_flags_operand (spec : OperandSpec) : M Operand :=
  lift (new_FlagsOperand (os_values spec)).

(** The dispatch table has no entry for [COND]. *)
Definition generate_operand (spec : OperandSpec) (parent : Instruction)
    : M (Operand * Instruction) :=
  match os_type spec with
  | REG => generate_reg_operand spec parent
  | MEM => op ← generate_mem_operand spec; mret (op, parent)
  | IMM => op ← generate_imm_operand spec; mret (op, parent)
  | LABEL => raise NotSupportedException
  | AGEN => op ← generate_agen_operand spec; mret (op, parent)
  | FLAGS => op ← generate_flags_operand spec; mret (op, parent)
  | COND => raise KeyError
  end.

Definition generate_instruction (spec : InstructionSpec) : M Instruction :=
  inst ← for_m (λ os inst, '(op, inst) ← generate_operand os inst; mret (add_op inst op false))
           (is_operands spec) (from_spec spec false);
  for_m (λ os inst, '(op, inst) ← generate_operand os inst; mret (add_op inst op true))
    (is_implicit_operands spec) inst.

(** ** Functions: a random DAG of blocks *)

Definition get_return_instruction : Instruction := new_Instruction "RET" false "" true.
Definition get_unconditional_jump_instruction : Instruction :=
  new_Instruction "JMP" false "UNCOND_BR" true.

(** [bb.successors.append(s)] *)
Definition append_successor (bb s : nat) : M unit :=
  b ← the_bb bb; put_bb bb (BB.set_successors b (bb_successors b ++ [s])).

(** [options.remove(target)]: the first occurrence. *)
Fixpoint remove_first (x : nat) (l : list nat) : list nat :=
  match l with
  | [] => []
  | y :: l => if decide (y = x) then l else y :: remove_first x l
  end.

(** [random.randint(min_successors, max_successors)] and its adjustment. *)
Definition max_successors : Z := if has_conditional_branch isa then 2 else 1.

Definition connect_bb (nodes : list nat) (exit : nat) (i : nat) : M unit :=
  let node_count := length nodes in
  current ← lift (from_option IndexError (nodes !! i));
  if (i =? node_count - 1)%nat then
    b ← the_bb current; put_bb current (BB.set_successors b [exit])
  else
    count ← randint 1 max_successors;
    let count := if Z.of_nat node_count <? count + Z.of_nat i
                 then Z.of_nat node_count - Z.of_nat i else count in
    next_ ← lift (from_option IndexError (nodes !! S i));
    append_successor current next_;;
    let options := drop (i + 2) nodes ++ [exit] in
    for_m (λ _ options,
             target ← choice options;
             append_successor current target;;
             mret (remove_first target options))
      (seq 1 (Z.to_nat (count - 1))) options;;
    mret tt.

Definition generate_function (label : string) : M Function :=
  entry ← new_bb (entry_name label);
  exit ← new_bb (exit_name label);
  let func := new_Function label entry exit in
  node_count ← randint (min_bb_per_function conf) (max_bb_per_function conf);
  let func_name := remove_prefix label ".function_" in
  nodes ← for_m (λ i nodes,
                   bb ← new_bb (".bb_" +:+ func_name +:+ "." +:+ str (Z.of_nat i));
                   mret (nodes ++ [bb]))
            (seq 0 (Z.to_nat node_count)) [];
  for_m (λ i _, connect_bb nodes exit i) (seq 0 (Z.to_nat node_count)) tt;;
  first ← lift (from_option IndexError (head nodes));
  e ← the_bb entry; put_bb entry (BB.set_successors e [first]);;
  (if bool_decide (label = ".function_main") then mret tt
   else x ← the_bb exit; put_bb exit (mkBB (bb_name x) (bb_successors x)
                                        [get_return_instruction] (bb_start x) (bb_end x)));;
  mret (Func.insert_multiple func nodes).

(** ** Terminators *)

Definition jump_to (inst : Instruction) (target : nat) : M Instruction :=
  b ← the_bb target; mret (set_operands inst [new_LabelOperand (bb_name b)]).

(** The conditional branch of a block with two successors: the first flags
    operand of the specification is the only implicit operand copied. *)
Definition generate_cond_terminator (spec : InstructionSpec) (target : nat) : M Instruction :=
  terminator ← jump_to (from_spec spec false) target;
  match List.find (λ op, bool_decide (os_type op = FLAGS)) (is_implicit_operands spec) with
  | Some op => f ← generate_flags_operand op; mret (set_implicit_operands terminator [f])
  | None => mret terminator
  end.

Definition add_terminators_bb (func : Function) (bb : nat) : M unit :=
  b ← the_bb bb;
  match bb_successors b with
  | [] => mret tt
  | [s] =>
      if decide (s = f_exit func) then mret tt
      else
        terminator ← jump_to get_unconditional_jump_instruction s;
        b ← the_bb bb; put_bb bb (BB.insert_terminator b terminator)
  | [s1; s2] =>
      spec ← choice control_flow_instructions;
      terminator ← generate_cond_terminator spec s1;
      b ← the_bb bb; put_bb bb (BB.insert_terminator b terminator);;
      terminator ← jump_to get_unconditional_jump_instruction s2;
      b ← the_bb bb; put_bb bb (BB.insert_terminator b terminator)
  | _ => raise NotSupportedException
  end.

Definition add_terminators_in_function (func : Function) : M unit :=
  for_m (λ bb _, add_terminators_bb func bb) (f_all_bb func) tt.

(** ** Instructions *)

(** Does the specification satisfy the request of [_pick_random_instruction_spec]? *)
Definition wanted (search_for_memory_access search_for_store : bool) (s : InstructionSpec) : bool :=
  if search_for_memory_access
  then is_has_mem_operand s && Bool.eqb (is_has_write s) search_for_store
  else negb (is_has_mem_operand s).

(** The [while True] loop; the fuel bounds the draws. *)
Fixpoint pick_loop (fuel : nat) (mem_access store : bool) : M InstructionSpec :=
  match fuel with
  | O => raise OutOfFuel
  | S fuel =>
      s ← choice non_control_flow_instructions;
      if wanted mem_access store s then mret s else pick_loop fuel mem_access store
  end.

(** [memory_access_probability], as numerator and denominator. *)
Definition memory_access_probability (recent : bool) : Z * Z :=
  if generate_memory_accesses_in_pairs conf then
    if recent then (1, 1)
    else (avg_mem_accesses conf, 2 * test_case_size conf - avg_mem_accesses conf)
  else (avg_mem_accesses conf, test_case_size conf).

Definition _pick_random_instruction_spec (fuel : nat) : M InstructionSpec :=
  recent ← get w_recent;
  let '(num, den) := memory_access_probability recent in
  search_for_memory_access ← random_below num den;
  (if search_for_memory_access then modify (λ w, set_recent (negb (w_recent w)) w) else mret tt);;
  search_for_store ← random_below 1 2;
  pick_loop fuel search_for_memory_access search_for_store.

Definition add_random_instruction (fuel : nat) (bbs : list nat) : M unit :=
  bb ← choice bbs;
  spec ← _pick_random_instruction_spec fuel;
  inst ← generate_instruction spec;
  b ← the_bb bb;
  x ← new_inst inst;
  insert_after_m bb (BB.get_last b) x.

Definition add_instructions_in_function (fuel : nat) (func : Function) : M unit :=
  let basic_blocks_to_fill := removelast (tail (f_all_bb func)) in
  for_m (λ _ _, add_random_instruction fuel basic_blocks_to_fill)
    (seq 0 (Z.to_nat (test_case_size conf))) tt.
End random.
