(* ===== verification/GeneratorFacts.v ===== *)
(** * What the generator produces

    Success lemmas for the random primitives, then the shape of a generated
    function (a chain with forward shortcuts, so acyclic with every block
    reachable), the terminators of its blocks, the operands of its
    instructions. *)

From S2P Require Import Prelude.
From S2P Require Import Isa.
From S2P Require Import Taint.
From S2P Require Import TaintSound.
From S2P Require Import BasicBlock.
From S2P Require Import Generator.

Open Scope Z_scope.

(** ** The monad *)

Lemma bindM_Ok {A B} (m : M A) (f : A → M B) w b w' :
  (m ≫= f) w = Ok (b, w') ↔ ∃ a w1, m w = Ok (a, w1) ∧ f a w1 = Ok (b, w').
Proof.
  unfold mbind, M_bind. destruct (m w) as [[a w1]|e]; split.
  - eauto.
  - by intros (a' & w1' & [= -> ->] & ?).
  - done.
  - by intros (a' & w1' & ? & ?).
Qed.

Lemma bindM_eq {A B} (m : M A) (f : A → M B) w a w1 :
  m w = Ok (a, w1) → (m ≫= f) w = f a w1.
Proof. intros H. unfold mbind, M_bind. by rewrite H. Qed.

Ltac stepM H := erewrite bindM_eq by (exact H || (eapply H; eauto)).

(** Only the tape moved. *)
Definition drawn (w w' : world) : Prop :=
  w_heap w' = w_heap w ∧ w_bbs w' = w_bbs w ∧ w_next_inst w' = w_next_inst w ∧
  w_next_bb w' = w_next_bb w ∧ w_recent w' = w_recent w.

#[export] Instance drawn_refl : Reflexive drawn.
Proof. by intros w. Qed.
#[export] Instance drawn_trans : Transitive drawn.
Proof. intros w1 w2 w3 (?&?&?&?&?) (?&?&?&?&?). unfold drawn. split_and!; congruence. Qed.

Section facts.
Context (draws : nat → Z).

Lemma draw_drawn w d w' : draw draws w = Ok (d, w') → drawn w w'.
Proof. by intros [= <- <-]. Qed.

Lemma randint_ok a b w : a ≤ b →
  ∃ v w', randint draws a b w = Ok (v, w') ∧ a ≤ v ≤ b ∧ drawn w w'.
Proof.
  intros Hab. unfold randint. rewrite (proj2 (Z.ltb_ge _ _)) by lia.
  eexists _, _. split; [reflexivity|]. split; [|done].
  pose proof (Z.mod_pos_bound (draws (w_draw w)) (b - a + 1)). lia.
Qed.

Lemma randint_inv a b w v w' :
  randint draws a b w = Ok (v, w') → a ≤ v ≤ b ∧ drawn w w'.
Proof.
  intros H. destruct (decide (a ≤ b)) as [Hab|Hab].
  - destruct (randint_ok a b w Hab) as (v2 & w2 & H2 & ? & ?). rewrite H2 in H. by injection H as <- <-.
  - unfold randint in H. rewrite (proj2 (Z.ltb_lt _ _)) in H by lia. done.
Qed.

Lemma choice_ok {A} (l : list A) w : l ≠ [] →
  ∃ x w', choice draws l w = Ok (x, w') ∧ x ∈ l ∧ drawn w w'.
Proof.
  intros Hl. unfold choice. rewrite bool_decide_false by (by destruct l).
  destruct (l !! Z.to_nat (draws (w_draw w) mod Z.of_nat (length l))) as [x|] eqn:E.
  - exists x. eexists. unfold mbind, M_bind. cbn -[lookup]. unfold lift. rewrite E. cbn.
    split; [reflexivity|]. split; [by eapply list_elem_of_lookup_2|done].
  - apply lookup_ge_None in E. destruct l as [|y l]; [done|].
    pose proof (Z.mod_pos_bound (draws (w_draw w)) (Z.of_nat (length (y :: l)))).
    cbn [length] in *. lia.
Qed.

Lemma choice_inv {A} (l : list A) w x w' :
  choice draws l w = Ok (x, w') → x ∈ l ∧ drawn w w'.
Proof.
  intros H. destruct (decide (length l = 0%nat)) as [E|E].
  - unfold choice in H. by rewrite bool_decide_true in H.
  - destruct (choice_ok l w) as (x2 & w2 & H2 & ? & ?); [by destruct l|].
    rewrite H2 in H. by injection H as <- <-.
Qed.
End facts.

(** ** The graph of a generated function *)

Definition successors_of (w : world) (x : nat) : option (list nat) :=
  bb_successors <$> w_bbs w !! x.

(** What [connect_bb] promises of the [i]-th of [n] blocks, whose references are
    [base ..]: the next block comes first, the rest lie strictly further on. *)
Record forward (maxs : Z) (base n exit i : nat) (succs : list nat) : Prop := {
  fwd_head : head succs = Some (if (S i =? n)%nat then exit else (base + S i)%nat);
  fwd_nodup : NoDup succs;
  fwd_length : Z.of_nat (length succs) ≤ maxs;
  fwd_later : ∀ s, s ∈ succs → s = exit ∨ ∃ j, (i < j < n)%nat ∧ s = (base + j)%nat
}.

(** Blocks other than [x] keep their entry, [x] its other fields. *)
Definition only_bb (x : nat) (w w' : world) : Prop :=
  ∀ y, y ≠ x → w_bbs w' !! y = w_bbs w !! y.

Lemma append_successor_ok x s w l :
  successors_of w x = Some l →
  ∃ w', append_successor x s w = Ok (tt, w') ∧ successors_of w' x = Some (l ++ [s]) ∧
        only_bb x w w' ∧ w_next_bb w' = w_next_bb w.
Proof.
  unfold successors_of. intros (b & Hb & ->)%fmap_Some.
  unfold append_successor, the_bb. unfold mbind at 1, M_bind. unfold mbind, result_bind.
  rewrite Hb. cbn. eexists. split; [reflexivity|]. cbn. rewrite lookup_insert_eq. split_and!; [done| |done].
  intros y Hy. cbn. by rewrite lookup_insert_ne.
Qed.

Section dag.
Context (draws : nat → Z) (conf : gen_conf) (isa : InstructionSet).
Context (base n exit : nat).
Context (Hexit : (exit < base)%nat).

Lemma lookup_nodes i : (i < n)%nat → seq base n !! i = Some (base + i)%nat.
Proof. apply lookup_seq_lt. Qed.

Lemma one_or_two : max_successors isa = 1 ∨ max_successors isa = 2.
Proof. unfold max_successors. destruct (has_conditional_branch isa); auto. Qed.

Lemma forward_last i : S i = n → forward (max_successors isa) base n exit i [exit].
Proof.
  intros Hi. split; cbn [head].
  - by rewrite (proj2 (Nat.eqb_eq _ _)).
  - repeat constructor; set_solver.
  - cbn. destruct one_or_two; lia.
  - intros s Hs. left. by apply list_elem_of_singleton.
Qed.

Lemma forward_one i : (S i < n)%nat → forward (max_successors isa) base n exit i [(base + S i)%nat].
Proof.
  intros Hi. split; cbn [head].
  - by rewrite (proj2 (Nat.eqb_neq (S i) n)) by lia.
  - repeat constructor; set_solver.
  - cbn. destruct one_or_two; lia.
  - intros s Hs%list_elem_of_singleton. right. exists (S i). lia.
Qed.

Lemma forward_two i t :
  (S i < n)%nat → max_successors isa = 2 → t ∈ drop (i + 2) (seq base n) ++ [exit] →
  forward (max_successors isa) base n exit i [(base + S i)%nat; t].
Proof.
  intros Hi Hm Ht. assert (t = exit ∨ ∃ j, (S i < j < n)%nat ∧ t = (base + j)%nat) as Htt.
  { apply elem_of_app in Ht as [Ht|Ht]; [|left; by apply list_elem_of_singleton].
    right. apply list_elem_of_lookup in Ht as [k Hk]. rewrite lookup_drop in Hk.
    apply lookup_seq in Hk as [-> Hk]. exists (i + 2 + k)%nat. lia. }
  split; cbn [head].
  - by rewrite (proj2 (Nat.eqb_neq (S i) n)) by lia.
  - apply NoDup_cons. split; [|repeat constructor; set_solver].
    intros E%list_elem_of_singleton. destruct Htt as [->|(j & Hj & ->)]; lia.
  - cbn. lia.
  - intros s [->|E]%elem_of_cons; [right; exists (S i); lia|].
    apply list_elem_of_singleton in E as ->.
    destruct Htt as [->|(j & Hj & ->)]; [by left|right; exists j; lia].
Qed.

(** The second successor. *)
Lemma second_successor_ok i w first options :
  options ≠ [] → successors_of w (base + i) = Some [first] →
  ∃ t w' rest,
    for_m (λ _ options, target ← choice draws options; append_successor (base + i) target;;
                        mret (remove_first target options)) [1%nat] options w = Ok (rest, w') ∧
    t ∈ options ∧ successors_of w' (base + i) = Some [first; t] ∧
    only_bb (base + i) w w' ∧ w_next_bb w' = w_next_bb w.
Proof.
  intros Ho Hs. destruct (choice_ok draws options w Ho) as (t & w1 & H1 & Ht & Hd).
  destruct (append_successor_ok (base + i) t w1 [first]) as (w2 & H2 & Hs2 & Ho2 & Hn2).
  { unfold successors_of in *. by destruct Hd as (_ & -> & _). }
  exists t, w2, (remove_first t options). split.
  - cbn [for_m]. rewrite (bindM_eq _ _ w (remove_first t options) w2); [done|].
    rewrite (bindM_eq _ _ w t w1 H1). by rewrite (bindM_eq _ _ w1 tt w2 H2).
  - split_and!; [done|done| |].
    + intros y Hy. rewrite Ho2 by done. by destruct Hd as (_ & -> & _).
    + rewrite Hn2. by destruct Hd as (_ & _ & _ & -> & _).
Qed.

Lemma connect_last_ok i w :
  S i = n → successors_of w (base + i) = Some [] →
  ∃ w', connect_bb draws isa (seq base n) exit i w = Ok (tt, w') ∧
    successors_of w' (base + i) = Some [exit] ∧
    only_bb (base + i) w w' ∧ w_next_bb w' = w_next_bb w.
Proof.
  intros Hi Hs. unfold connect_bb. rewrite length_seq.
  rewrite (lookup_nodes i) by lia. cbn [from_option].
  rewrite (bindM_eq _ _ w (base + i)%nat w) by done.
  rewrite (proj2 (Nat.eqb_eq i (n - 1))) by lia.
  apply fmap_Some in Hs as (b & Hb & _).
  rewrite (bindM_eq _ _ w b w) by (unfold the_bb; by rewrite Hb).
  eexists. split; [reflexivity|]. unfold successors_of. cbn. rewrite lookup_insert_eq.
  split; [done|]. split; [|done]. intros y Hy. cbn. by rewrite lookup_insert_ne.
Qed.

Lemma connect_more_ok i w :
  (S i < n)%nat → successors_of w (base + i) = Some [] →
  ∃ w' succs, connect_bb draws isa (seq base n) exit i w = Ok (tt, w') ∧
    successors_of w' (base + i) = Some succs ∧
    forward (max_successors isa) base n exit i succs ∧
    only_bb (base + i) w w' ∧ w_next_bb w' = w_next_bb w.
Proof.
  intros Hi Hs. unfold connect_bb. rewrite length_seq.
  rewrite (lookup_nodes i) by lia. cbn [from_option].
  rewrite (bindM_eq _ _ w (base + i)%nat w) by done.
  rewrite (proj2 (Nat.eqb_neq i (n - 1))) by lia.
  destruct (randint_ok draws 1 (max_successors isa) w) as (c & w1 & Hr & Hc & Hd);
    [destruct one_or_two; lia|].
  rewrite (bindM_eq _ _ w c w1 Hr). rewrite (proj2 (Z.ltb_ge _ _)) by (destruct one_or_two; lia).
  rewrite (lookup_nodes (S i)) by lia. cbn [from_option].
  rewrite (bindM_eq _ _ w1 (base + S i)%nat w1) by done.
  destruct (append_successor_ok (base + i) (base + S i) w1 []) as (w2 & H2 & Hs2 & Ho2 & Hn2).
  { unfold successors_of in *. by destruct Hd as (_ & -> & _). }
  rewrite (bindM_eq _ _ w1 tt w2 H2). cbn [app] in Hs2.
  assert (only_bb (base + i) w w2) as Ho.
  { intros y Hy. rewrite Ho2 by done. by destruct Hd as (_ & -> & _). }
  assert (w_next_bb w2 = w_next_bb w) as Hnb by (rewrite Hn2; apply Hd).
  destruct (decide (c = 1)) as [->|Hc2].
  - exists w2, [(base + S i)%nat]. split_and!; auto using forward_one.
  - assert (c = 2 ∧ max_successors isa = 2) as [-> Hm] by (destruct one_or_two; lia).
    change (seq 1 (Z.to_nat (2 - 1))) with [1%nat].
    destruct (second_successor_ok i w2 (base + S i)%nat (drop (i + 2) (seq base n) ++ [exit]))
      as (t & w3 & rest & H3 & Ht & Hs3 & Ho3 & Hn3); [by destruct (drop _ _)|done|].
    rewrite (bindM_eq _ _ w2 rest w3 H3). exists w3. eexists. split; [reflexivity|].
    split_and!; [done|by apply forward_two| |by rewrite Hn3].
    intros y Hy. by rewrite Ho3, Ho.
Qed.

Lemma connect_bb_ok i w :
  (i < n)%nat → successors_of w (base + i) = Some [] →
  ∃ w' succs, connect_bb draws isa (seq base n) exit i w = Ok (tt, w') ∧
    successors_of w' (base + i) = Some succs ∧
    forward (max_successors isa) base n exit i succs ∧
    only_bb (base + i) w w' ∧ w_next_bb w' = w_next_bb w.
Proof.
  intros Hi Hs. destruct (decide (S i = n)) as [Hn|Hn].
  - destruct (connect_last_ok i w Hn Hs) as (w' & ? & ? & ? & ?).
    exists w', [exit]. auto using forward_last.
  - apply connect_more_ok; [lia|done].
Qed.

(** The whole connection loop. *)
Lemma connect_loop_ok k : ∀ i w,
  (i + k = n)%nat → (∀ j, (i ≤ j < n)%nat → successors_of w (base + j) = Some []) →
  ∃ w', for_m (λ i _, connect_bb draws isa (seq base n) exit i) (seq i k) tt w = Ok (tt, w') ∧
    (∀ j, (i ≤ j < n)%nat → ∃ succs, successors_of w' (base + j) = Some succs ∧
       forward (max_successors isa) base n exit j succs) ∧
    (∀ y, (∀ j, (i ≤ j < n)%nat → y ≠ (base + j)%nat) → w_bbs w' !! y = w_bbs w !! y).
Proof.
  induction k as [|k IH]; intros i w Hik Hs; cbn [seq for_m].
  - exists w. split_and!; [done|intros; lia|done].
  - destruct (connect_bb_ok i w) as (w1 & succs & H1 & Hs1 & Hf & Ho & _); [lia|apply Hs; lia|].
    rewrite (bindM_eq _ _ w tt w1 H1).
    destruct (IH (S i) w1) as (w2 & H2 & Hall & Hother); [lia| |].
    { intros j Hj. unfold successors_of. rewrite Ho by lia. apply Hs. lia. }
    exists w2. split; [exact H2|]. split.
    + intros j Hj. destruct (decide (j = i)) as [->|]; [|apply Hall; lia].
      exists succs. split; [|done]. unfold successors_of. rewrite Hother by lia. exact Hs1.
    + intros y Hy. rewrite Hother; [apply Ho, Hy; lia|]. intros j Hj. apply Hy. lia.
Qed.
End dag.

(** The allocation of the nodes. *)
Lemma new_nodes_ok (name : nat → string) k : ∀ i acc w,
  ∃ w', for_m (λ i nodes, bb ← new_bb (name i); mret (nodes ++ [bb])) (seq i k) acc w
        = Ok (acc ++ seq (w_next_bb w) k, w') ∧
    w_next_bb w' = (w_next_bb w + k)%nat ∧
    (∀ j, (j < k)%nat →
       w_bbs w' !! (w_next_bb w + j)%nat = Some (BB.new_BasicBlock (name (i + j)%nat))) ∧
    (∀ y, (y < w_next_bb w)%nat → w_bbs w' !! y = w_bbs w !! y).
Proof.
  induction k as [|k IH]; intros i acc w; cbn [seq for_m].
  - exists w. rewrite app_nil_r. split_and!; [done|lia|lia|done].
  - set (w1 := mkWorld (w_heap w) (<[w_next_bb w := BB.new_BasicBlock (name i)]> (w_bbs w))
                 (w_next_inst w) (S (w_next_bb w)) (w_draw w) (w_recent w)).
    rewrite (bindM_eq _ _ w (acc ++ [w_next_bb w]) w1) by done.
    destruct (IH (S i) (acc ++ [w_next_bb w]) w1) as (w2 & H2 & Hn & Hj & Hy).
    exists w2. rewrite H2, <- app_assoc. split; [done|]. cbn in Hn, Hj, Hy. split; [lia|]. split.
    + intros [|j] Hlt.
      * rewrite Nat.add_0_r, Hy by lia. by rewrite lookup_insert_eq, Nat.add_0_r.
      * specialize (Hj j ltac:(lia)). rewrite <- !Nat.add_succ_comm. exact Hj.
    + intros y Hlt. rewrite Hy by lia. by rewrite lookup_insert_ne by lia.
Qed.

Definition edge (w : world) (x y : nat) : Prop :=
  ∃ l, successors_of w x = Some l ∧ y ∈ l.

(** The shape of a generated function: [n] nodes between entry and exit. *)
Record dag_shape (maxs : Z) (f : Function) (n : nat) (w : world) : Prop := {
  dag_exit : f_exit f = S (f_entry f);
  dag_all : f_all_bb f = f_entry f :: seq (f_entry f + 2) n ++ [f_exit f];
  dag_entry_succ : successors_of w (f_entry f) = Some [(f_entry f + 2)%nat];
  dag_exit_succ : successors_of w (f_exit f) = Some [];
  dag_nodes : ∀ i, (i < n)%nat → ∃ succs,
    successors_of w (f_entry f + 2 + i) = Some succs ∧
    forward maxs (f_entry f + 2) n (f_exit f) i succs
}.

Section shape.
Context (maxs : Z) (f : Function) (n : nat) (w : world).
Context (Hd : dag_shape maxs f n w) (Hn : (0 < n)%nat).
Let node (i : nat) : nat := (f_entry f + 2 + i)%nat.

Lemma node_step i : (i < n)%nat →
  edge w (node i) (if (S i =? n)%nat then f_exit f else node (S i)).
Proof.
  intros Hi. destruct (dag_nodes _ _ _ _ Hd i Hi) as (succs & Hs & Hf).
  exists succs. split; [done|]. pose proof (fwd_head _ _ _ _ _ _ Hf) as Hh.
  by apply head_Some_elem_of in Hh.
Qed.

Lemma entry_reaches i : (i < n)%nat → rtc (edge w) (f_entry f) (node i).
Proof.
  induction i as [|i IH]; intros Hi.
  - apply rtc_once. exists [(f_entry f + 2)%nat]. split; [apply Hd|].
    unfold node. rewrite Nat.add_0_r. by left.
  - eapply rtc_r; [apply IH; lia|]. pose proof (node_step i ltac:(lia)) as He.
    by rewrite (proj2 (Nat.eqb_neq (S i) n)) in He by lia.
Qed.

Lemma reaches_exit k : ∀ i, (i + S k = n)%nat → rtc (edge w) (node i) (f_exit f).
Proof.
  induction k as [|k IH]; intros i Hi; pose proof (node_step i ltac:(lia)) as He.
  - rewrite (proj2 (Nat.eqb_eq (S i) n)) in He by lia. by apply rtc_once.
  - rewrite (proj2 (Nat.eqb_neq (S i) n)) in He by lia.
    eapply rtc_l; [exact He|]. apply IH. lia.
Qed.

Lemma member_cases x : x ∈ f_all_bb f →
  x = f_entry f ∨ x = f_exit f ∨ ∃ i, (i < n)%nat ∧ x = node i.
Proof.
  rewrite (dag_all _ _ _ _ Hd). intros [->|[Hx|Hx]%elem_of_app]%elem_of_cons; [by left| |].
  - right; right. apply list_elem_of_lookup in Hx as [i Hi].
    apply lookup_seq in Hi as [-> Hi]. by exists i.
  - right; left. by apply list_elem_of_singleton.
Qed.

Lemma dag_reachable x : x ∈ f_all_bb f →
  rtc (edge w) (f_entry f) x ∧ rtc (edge w) x (f_exit f).
Proof.
  assert (∀ i, (i < n)%nat → rtc (edge w) (node i) (f_exit f)) as Hx
    by (intros i Hi; apply (reaches_exit (n - S i)); lia).
  pose proof (entry_reaches 0 Hn) as H0. pose proof (Hx 0%nat Hn) as H1.
  intros [->|[->|(i & Hi & ->)]]%member_cases.
  - split; [done|]. by etransitivity.
  - split; [|done]. by etransitivity.
  - split; [by apply entry_reaches|by apply Hx].
Qed.

(** Position in the layout; every edge goes down the layout. *)
Definition rank (x : nat) : nat :=
  if decide (x = f_entry f) then 0%nat
  else if decide (x = f_exit f) then S n else (x - (f_entry f + 2) + 1)%nat.

Lemma rank_node i : rank (node i) = S i.
Proof.
  pose proof (dag_exit _ _ _ _ Hd). unfold rank, node.
  rewrite !decide_False by lia. lia.
Qed.
Lemma rank_exit : rank (f_exit f) = S n.
Proof.
  pose proof (dag_exit _ _ _ _ Hd). unfold rank. rewrite decide_False by lia.
  by rewrite decide_True.
Qed.

Lemma edge_rank x y : x ∈ f_all_bb f → edge w x y →
  (rank x < rank y)%nat ∧ y ∈ f_all_bb f.
Proof.
  assert (∀ i, (i < n)%nat → node i ∈ f_all_bb f) as Hin.
  { intros i Hi. rewrite (dag_all _ _ _ _ Hd). right. apply elem_of_app. left.
    apply elem_of_seq. unfold node. lia. }
  assert (f_exit f ∈ f_all_bb f) as Hex.
  { rewrite (dag_all _ _ _ _ Hd). right. apply elem_of_app. right. by left. }
  intros Hx (l & Hl & Hy). apply member_cases in Hx as [->|[->|(i & Hi & ->)]].
  - rewrite (dag_entry_succ _ _ _ _ Hd) in Hl. injection Hl as <-.
    apply list_elem_of_singleton in Hy as ->. pose proof (rank_node 0) as Hr.
    pose proof (Hin 0%nat Hn) as H0.
    unfold node in *. rewrite Nat.add_0_r in *. rewrite Hr. split; [|done].
    unfold rank. rewrite decide_True by done. lia.
  - rewrite (dag_exit_succ _ _ _ _ Hd) in Hl. injection Hl as <-. by apply elem_of_nil in Hy.
  - destruct (dag_nodes _ _ _ _ Hd i Hi) as (succs & Hs & Hf).
    unfold node in Hl. rewrite Hs in Hl. injection Hl as <-. rewrite rank_node.
    destruct (fwd_later _ _ _ _ _ _ Hf y Hy) as [->|(j & Hj & ->)].
    + rewrite rank_exit. split; [lia|done].
    + rewrite rank_node. split; [lia|]. apply Hin. lia.
Qed.

Lemma dag_acyclic x : x ∈ f_all_bb f → ¬ tc (edge w) x x.
Proof.
  assert (∀ x y, tc (edge w) x y → x ∈ f_all_bb f → (rank x < rank y)%nat ∧ y ∈ f_all_bb f) as H.
  { intros a b Hab. induction Hab as [a b Hab|a b c Hab _ IH]; intros Ha.
    - by apply edge_rank.
    - destruct (edge_rank a b Ha Hab) as [H1 Hb]. destruct (IH Hb) as [H2 Hc]. split; [lia|done]. }
  intros Hx Htc. destruct (H x x Htc Hx). lia.
Qed.
End shape.

(** The exit of every function but the main one ends in a return. *)
Lemma add_return_ok label x name w :
  w_bbs w !! x = Some (BB.new_BasicBlock name) →
  ∃ w' t, (if bool_decide (label = ".function_main") then mret tt
     else b ← the_bb x; put_bb x (mkBB (bb_name b) (bb_successors b)
                                     [get_return_instruction] (bb_start b) (bb_end b))) w = Ok (tt, w') ∧
    (∀ y, y ≠ x → w_bbs w' !! y = w_bbs w !! y) ∧ w_bbs w' !! x = Some (mkBB name [] t None None).
Proof.
  intros Hx. case_bool_decide.
  - by exists w, [].
  - eexists _, _. split.
    + rewrite (bindM_eq _ _ w (BB.new_BasicBlock name) w); [reflexivity|]. unfold the_bb. by rewrite Hx.
    + cbn. split; [intros y Hy; by rewrite lookup_insert_ne|]. by rewrite lookup_insert_eq.
Qed.

(** With sane block counts a function is generated, and it has the shape. *)
Lemma generate_function_shape draws conf isa label w :
  1 ≤ min_bb_per_function conf ≤ max_bb_per_function conf →
  ∃ f w' n, generate_function draws conf isa label w = Ok (f, w') ∧
    min_bb_per_function conf ≤ Z.of_nat n ≤ max_bb_per_function conf ∧
    dag_shape (max_successors isa) f n w'.
Proof.
  intros Hc. unfold generate_function.
  set (w1 := mkWorld (w_heap w) (<[w_next_bb w := BB.new_BasicBlock (entry_name label)]> (w_bbs w))
               (w_next_inst w) (S (w_next_bb w)) (w_draw w) (w_recent w)).
  rewrite (bindM_eq _ _ w (w_next_bb w) w1) by done.
  set (e := w_next_bb w).
  set (w2 := mkWorld (w_heap w1) (<[S e := BB.new_BasicBlock (exit_name label)]> (w_bbs w1))
               (w_next_inst w1) (S (S e)) (w_draw w1) (w_recent w1)).
  rewrite (bindM_eq _ _ w1 (S e) w2) by done.
  destruct (randint_ok draws (min_bb_per_function conf) (max_bb_per_function conf) w2)
    as (c & w3 & H3 & Hcr & Hd3); [lia|].
  rewrite (bindM_eq _ _ w2 c w3 H3).
  destruct (new_nodes_ok (λ i, ".bb_" +:+ remove_prefix label ".function_" +:+ "." +:+ str (Z.of_nat i))
              (Z.to_nat c) 0 [] w3) as (w4 & H4 & Hn4 & Hnew & Hold4).
  rewrite (bindM_eq _ _ w3 _ w4 H4). cbn [app].
  destruct Hd3 as (_ & Hb3 & _ & Hnb3 & _). rewrite Hnb3 in *. cbn [w_next_bb w2] in *.
  destruct (connect_loop_ok draws isa (S (S e)) (Z.to_nat c) (S e) (Nat.lt_succ_diag_r _) (Z.to_nat c) 0 w4)
    as (w5 & H5 & Hfwd & Hold5); [lia| |].
  { intros j Hj. unfold successors_of. by rewrite Hnew by lia. }
  rewrite (bindM_eq _ _ w4 tt w5 H5).
  assert (head (seq (S (S e)) (Z.to_nat c)) = Some (S (S e))) as -> by (destruct (Z.to_nat c) eqn:E; [lia|done]).
  cbn [from_option]. rewrite (bindM_eq _ _ w5 (S (S e)) w5) by done.
  assert (w_bbs w5 !! e = Some (BB.new_BasicBlock (entry_name label)) ∧
          w_bbs w5 !! S e = Some (BB.new_BasicBlock (exit_name label))) as [He Hx].
  { rewrite !Hold5, !Hold4, Hb3 by lia. cbn [w_bbs w2 w1].
    rewrite lookup_insert_ne by lia. by rewrite !lookup_insert_eq. }
  rewrite (bindM_eq _ _ w5 (BB.new_BasicBlock (entry_name label)) w5) by (unfold the_bb; by rewrite He).
  set (w6 := set_bbs (<[e := BB.set_successors (BB.new_BasicBlock (entry_name label)) [S (S e)]]>
                        (w_bbs w5)) w5).
  rewrite (bindM_eq _ _ w5 tt w6) by done.
  destruct (add_return_ok label (S e) (exit_name label) w6) as (w7 & t & H7 & Hold7 & Hx7).
  { cbn. by rewrite lookup_insert_ne by lia. }
  rewrite (bindM_eq _ _ w6 tt w7 H7). eexists _, w7, (Z.to_nat c). split; [reflexivity|].
  split; [lia|].
  split; cbn.
  - done.
  - by replace (e + 2)%nat with (S (S e)) by lia.
  - unfold successors_of. rewrite Hold7 by lia. cbn. rewrite lookup_insert_eq.
    by replace (e + 2)%nat with (S (S e)) by lia.
  - unfold successors_of. by rewrite Hx7.
  - intros i Hi. destruct (Hfwd i ltac:(lia)) as (succs & Hs & Hf). exists succs.
    replace (e + 2)%nat with (S (S e)) by lia. split; [|done].
    unfold successors_of in *. rewrite Hold7 by lia. cbn. by rewrite lookup_insert_ne by lia.
Qed.

(** C13: a generated function is a connected DAG.  With sane block counts the
    generator always succeeds; the function has between [min_bb_per_function] and
    [max_bb_per_function] inner blocks, each with a fall-through edge to the next
    and only forward shortcuts without duplicates; every block is reachable from
    the entry, reaches the exit, and lies on no cycle. *)
Theorem generate_function_dag draws conf isa label w :
  1 ≤ min_bb_per_function conf ≤ max_bb_per_function conf →
  ∃ f w' n, generate_function draws conf isa label w = Ok (f, w') ∧
    min_bb_per_function conf ≤ Z.of_nat n ≤ max_bb_per_function conf ∧
    dag_shape (max_successors isa) f n w' ∧
    (∀ x, x ∈ f_all_bb f →
       rtc (edge w') (f_entry f) x ∧ rtc (edge w') x (f_exit f) ∧ ¬ tc (edge w') x x).
Proof.
  intros Hc. destruct (generate_function_shape draws conf isa label w Hc) as (f & w' & n & H & Hn & Hs).
  exists f, w', n. do 3 (split; [done|]). intros x Hx. split_and!.
  - eapply dag_reachable; [exact Hs|lia|done].
  - eapply dag_reachable; [exact Hs|lia|done].
  - eapply dag_acyclic; [exact Hs|lia|done].
Qed.

Definition demo_conf : gen_conf := mkConf 2 4 5 2 false false [] 4096 3 false.
Definition demo_isa : InstructionSet := mkISA [] false true false false false.
Definition empty_world : world := mkWorld ∅ ∅ 0 0 0 false.

Lemma generate_function_dag_witness :
  ∃ f w' n, generate_function (λ i, Z.of_nat i * 7) demo_conf demo_isa ".function_main" empty_world
      = Ok (f, w') ∧
    2 ≤ Z.of_nat n ≤ 4 ∧ dag_shape 2 f n w' ∧
    (∀ x, x ∈ f_all_bb f →
       rtc (edge w') (f_entry f) x ∧ rtc (edge w') x (f_exit f) ∧ ¬ tc (edge w') x x).
Proof.
  apply (generate_function_dag (λ i, Z.of_nat i * 7) demo_conf demo_isa ".function_main" empty_world).
  cbn. lia.
Defined.

(** ** Inverting monadic steps *)

Lemma lift_Ok {A} (r : result A) w a w' : lift r w = Ok (a, w') ↔ r = Ok a ∧ w' = w.
Proof.
  unfold lift. destruct r; cbn; split; try done.
  - by intros [= -> ->].
  - by intros [[= ->] ->].
  - by intros [? _].
Qed.
Lemma ret_Ok {A} (x : A) (w : world) a w' : (mret x : M A) w = Ok (a, w') ↔ a = x ∧ w' = w.
Proof. split; [by intros [= -> ->]|by intros [-> ->]]. Qed.

Ltac inv_m :=
  repeat match goal with
  | H : (_ ≫= _) _ = Ok (_, _) |- _ =>
      let a := fresh "a" in let w := fresh "w" in let H1 := fresh H in
      apply bindM_Ok in H as (a & w & H1 & H); cbv beta in H
  | H : lift _ _ = Ok _ |- _ => apply lift_Ok in H as [H ->]
  | H : mret _ _ = Ok (_, _) |- _ => apply ret_Ok in H as [H ->]
  | H : from_option _ _ = Ok _ |- _ => apply from_option_Ok in H
  | H : raise _ _ = Ok _ |- _ => discriminate H
  | H : (let '(_, _) := ?p in _) _ = Ok _ |- _ => destruct p; cbn beta iota in H
  end.

Lemma for_m_inv {A S} (P : list A → S → world → Prop) (f : A → S → M S) l : ∀ s w s' w',
  (∀ k x t v t' v', l !! k = Some x → P (take k l) t v → f x t v = Ok (t', v') →
     P (take k l ++ [x]) t' v') →
  P [] s w → for_m f l s w = Ok (s', w') → P l s' w'.
Proof.
  assert (∀ done rest s w s' w', l = done ++ rest →
    (∀ k x t v t' v', l !! k = Some x → P (take k l) t v → f x t v = Ok (t', v') →
       P (take k l ++ [x]) t' v') →
    P done s w → for_m f rest s w = Ok (s', w') → P l s' w') as Hgen.
  { intros done rest. revert done. induction rest as [|x rest IH]; intros done s w s' w' El Hf HP H.
    - cbn in H. inv_m. subst. by rewrite app_nil_r.
    - cbn [for_m] in H. apply bindM_Ok in H as (t & w1 & H1 & H).
      eapply (IH (done ++ [x])); [by rewrite <- app_assoc|exact Hf| |exact H].
      assert (take (length done) l = done) as Et by (rewrite El; apply take_app_length).
      specialize (Hf (length done) x s w t w1). rewrite Et in Hf.
      apply Hf; [|done|done]. rewrite El. apply list_lookup_middle. done. }
  intros s w s' w' Hf HP H. by eapply (Hgen [] l).
Qed.

(** ** Operands *)

(** The operand has the role its specification asks for. *)
Definition matches (os : OperandSpec) (o : Operand) : Prop :=
  op_type o = os_type os ∧
  match o with
  | RegisterOperand _ w s d | MemoryOperand _ w s d =>
      w = os_width os ∧ s = os_src os ∧ d = os_dest os
  | ImmediateOperand _ w | AgenOperand _ w => w = os_width os
  | FlagsOperand fv => fv = os_values os
  | LabelOperand _ => False
  end.

Lemma generate_operand_matches draws conf os parent w o parent' w' :
  avoid_data_dependencies conf = false →
  generate_operand draws conf os parent w = Ok ((o, parent'), w') →
  matches os o ∧ parent' = parent.
Proof.
  intros Ha H. unfold generate_operand in H. destruct (os_type os) eqn:Et; [..|done].
  - unfold generate_reg_operand in H. rewrite Ha in H. cbn [negb] in H. inv_m.
    simplify_eq. unfold matches. by cbn.
  - unfold generate_mem_operand in H. inv_m. simplify_eq. unfold matches. by cbn.
  - unfold generate_imm_operand in H. inv_m. simplify_eq. unfold matches. by cbn.
  - done.
  - unfold generate_agen_operand in H. inv_m.
    destruct (a0 =? 1); [inv_m; simplify_eq; unfold matches; by cbn|]. inv_m.
    destruct (a0 =? 2); inv_m; simplify_eq; unfold matches; by cbn.
  - unfold generate_flags_operand, new_FlagsOperand in H. inv_m.
    destruct (_ =? _)%nat; cbn in H0; [|done]. simplify_eq. unfold matches. by cbn.
Qed.

Lemma generate_operands_match draws conf implicit specs inst w inst' w' :
  avoid_data_dependencies conf = false →
  for_m (λ os inst, '(op, inst) ← generate_operand draws conf os inst;
                    mret (add_op inst op implicit)) specs inst w = Ok (inst', w') →
  ∃ ops, Forall2 matches specs ops ∧
    inst' = if implicit then set_implicit_operands inst (i_implicit_operands inst ++ ops)
            else set_operands inst (i_operands inst ++ ops).
Proof.
  intros Ha H.
  eapply (for_m_inv (λ l i _, ∃ ops, Forall2 matches l ops ∧
    i = if implicit then set_implicit_operands inst (i_implicit_operands inst ++ ops)
        else set_operands inst (i_operands inst ++ ops))); [| |exact H].
  - intros k os t v t' v' _ (ops & Hops & ->) Hstep.
    apply bindM_Ok in Hstep as ([o p] & v1 & Ho & Hstep). inv_m.
    apply generate_operand_matches in Ho as [Hm ->]; [|done].
    exists (ops ++ [o]). split; [apply Forall2_app; [done|]; constructor; [done|constructor]|].
    subst t'. destruct implicit; unfold add_op, set_implicit_operands, set_operands; cbn;
      by rewrite app_assoc.
  - exists []. split; [constructor|]. rewrite !app_nil_r. by destruct implicit, inst.
Qed.

(** C22: generated instructions follow their specification.  When operand reuse is
    off, the explicit and implicit operands of a generated instruction have, one
    by one, the type, width and source/destination roles of the specification. *)
Theorem generate_instruction_matches draws conf spec w inst w' :
  avoid_data_dependencies conf = false →
  generate_instruction draws conf spec w = Ok (inst, w') →
  Forall2 matches (is_operands spec) (i_operands inst) ∧
  Forall2 matches (is_implicit_operands spec) (i_implicit_operands inst) ∧
  i_name inst = is_name spec ∧ i_category inst = is_category spec ∧
  i_control_flow inst = is_control_flow spec ∧ i_is_instrumentation inst = false.
Proof.
  intros Ha H. unfold generate_instruction in H. apply bindM_Ok in H as (i1 & w1 & H1 & H).
  apply generate_operands_match in H1 as (ops & Hops & ->); [|done].
  apply generate_operands_match in H as (imps & Himps & ->); [|done].
  cbn. by split_and!.
Qed.

Definition mov_spec : InstructionSpec :=
  mkInstructionSpec "MOV" [mkOperandSpec ["GPR"] REG 64 false true false;
                           mkOperandSpec ["GPR"] REG 64 true false false]
    [] "DATAXFER" false false false false.

Lemma generate_instruction_matches_witness :
  let p := generate_instruction (λ _, 3) demo_conf mov_spec empty_world in
  match p with
  | Ok (inst, _) => Forall2 matches (is_operands mov_spec) (i_operands inst)
  | Raise _ => False
  end.
Proof.
  intros p. assert (match p with Ok (_, _) => true | Raise _ => false end = true) as Hp
    by (vm_compute; reflexivity).
  destruct p as [[inst w']|] eqn:E; [|discriminate Hp].
  apply (generate_instruction_matches (λ _, 3) demo_conf mov_spec empty_world inst w'); [reflexivity|].
  exact E.
Defined.

(** with [avoid_data_dependencies] a reused operand keeps the role of the
    operand it repeats: the source of a generated [MOV] is declared a destination
    that is not read. *)
Theorem reused_operand_keeps_role :
  let conf := mkConf 2 4 5 2 false true [] 4096 3 false in
  ∃ w', generate_instruction (λ _, 0) conf mov_spec empty_world =
    Ok (let r := RegisterOperand "R10" 64 false true in
        mkInstruction "MOV" [r; r] [] "DATAXFER" false false (Some r), w').
Proof. eexists. vm_compute. reflexivity. Qed.

(** ** Terminators *)

(** The blocks a block's terminators name, in order. *)
Definition branch_targets (exit : nat) (succs : list nat) : list nat :=
  match succs with
  | [s] => if decide (s = exit) then [] else [s]
  | _ => succs
  end.

Definition block_name (w : world) (x : nat) : option string := bb_name <$> w_bbs w !! x.

(** A terminator that jumps to the block named [name]. *)
Definition jumps_to (name : option string) (i : Instruction) : Prop :=
  ∃ n, name = Some n ∧ i_operands i = [LabelOperand n] ∧ i_control_flow i = true.

(** Names and edges survive. *)
Definition same_graph (w w' : world) : Prop :=
  ∀ x, block_name w' x = block_name w x ∧ successors_of w' x = successors_of w x.

#[export] Instance same_graph_refl : Reflexive same_graph.
Proof. by intros w x. Qed.
#[export] Instance same_graph_trans : Transitive same_graph.
Proof. intros w1 w2 w3 H1 H2 x. by rewrite !(proj1 (H2 x)), (proj2 (H2 x)), !(proj1 (H1 x)), (proj2 (H1 x)). Qed.

Lemma the_bb_Ok x w b w' : the_bb x w = Ok (b, w') ↔ w_bbs w !! x = Some b ∧ w' = w.
Proof. unfold the_bb. destruct (w_bbs w !! x); cbn; naive_solver. Qed.

Lemma jump_to_Ok i t w j w' : jump_to i t w = Ok (j, w') →
  w' = w ∧ ∃ b, w_bbs w !! t = Some b ∧ j = set_operands i [LabelOperand (bb_name b)].
Proof.
  unfold jump_to. intros H. inv_m. apply the_bb_Ok in H0 as [? ->]. naive_solver.
Qed.

(** Appending a terminator to block [x]. *)
Lemma put_terminator_Ok x t w u w' :
  (b ← the_bb x; put_bb x (BB.insert_terminator b t)) w = Ok (u, w') →
  ∃ b, w_bbs w !! x = Some b ∧ w_bbs w' = <[x := BB.insert_terminator b t]> (w_bbs w).
Proof.
  intros H. apply bindM_Ok in H as (b & w1 & H1 & H). apply the_bb_Ok in H1 as [Hb ->].
  exists b. split; [done|]. by injection H as <- <-.
Qed.

Lemma insert_terminator_graph x b t w w' :
  w_bbs w !! x = Some b → w_bbs w' = <[x := BB.insert_terminator b t]> (w_bbs w) →
  same_graph w w'.
Proof.
  intros Hb Hw y. unfold block_name, successors_of. rewrite Hw.
  destruct (decide (y = x)) as [->|]; [by rewrite lookup_insert_eq, Hb|by rewrite lookup_insert_ne].
Qed.

Lemma generate_cond_terminator_Ok spec t w i w' :
  is_control_flow spec = true → generate_cond_terminator spec t w = Ok (i, w') →
  w' = w ∧ jumps_to (block_name w t) i.
Proof.
  intros Hcf H. unfold generate_cond_terminator in H. apply bindM_Ok in H as (j & w1 & H1 & H).
  apply jump_to_Ok in H1 as [-> (b & Hb & ->)].
  assert (jumps_to (block_name w t) (set_operands (from_spec spec false) [LabelOperand (bb_name b)])) as Hj.
  { exists (bb_name b). unfold block_name. rewrite Hb. by cbn. }
  destruct (List.find _ _); [|inv_m; by subst].
  inv_m. unfold generate_flags_operand in H0. inv_m. split; [done|]. subst i.
  destruct Hj as (n & ? & ? & ?). by exists n.
Qed.

(** One block: its new terminators lead to its successors. *)
Lemma add_terminators_bb_Ok draws isa f x w u w' :
  add_terminators_bb draws isa f x w = Ok (u, w') →
  same_graph w w' ∧ (∀ y, y ≠ x → w_bbs w' !! y = w_bbs w !! y) ∧
  ∃ b b' new, w_bbs w !! x = Some b ∧ w_bbs w' !! x = Some b' ∧
    bb_terminators b' = bb_terminators b ++ new ∧
    Forall2 (λ s i, jumps_to (block_name w s) i) (branch_targets (f_exit f) (bb_successors b)) new.
Proof.
  intros H. unfold add_terminators_bb in H. apply bindM_Ok in H as (b & w1 & H1 & H).
  apply the_bb_Ok in H1 as [Hb ->].
  destruct (bb_successors b) as [|s1 [|s2 [|]]] eqn:Es; [| | |discriminate].
  - inv_m. split_and!; [done|done|]. exists b, b, []. rewrite app_nil_r, Es. split_and!; [done..|constructor].
  - destruct (decide (s1 = f_exit f)) eqn:Ed.
    + inv_m. split_and!; [done|done|]. exists b, b, []. rewrite app_nil_r, Es. cbn [branch_targets].
      rewrite Ed. split_and!; [done..|constructor].
    + apply bindM_Ok in H as (t & w1 & H1 & H). apply jump_to_Ok in H1 as [-> (bt & Hbt & ->)].
      apply put_terminator_Ok in H as (b' & Hb' & Hw'). rewrite Hb in Hb'. injection Hb' as <-.
      split_and!; [exact (insert_terminator_graph _ _ _ _ _ Hb Hw')|intros y Hy; by rewrite Hw', lookup_insert_ne|].
      eexists b, _, [_]. rewrite Hw', lookup_insert_eq, Es. cbn [branch_targets]. rewrite Ed.
      split_and!; [done|reflexivity|reflexivity|].
      constructor; [|constructor]. exists (bb_name bt). unfold block_name. by rewrite Hbt.
  - apply bindM_Ok in H as (spec & w1 & H1 & H).
    apply choice_inv in H1 as [[Hcf _]%select_elem (Hh & Hbb & _)].
    apply bindM_Ok in H as (t1 & w2 & H2 & H).
    apply generate_cond_terminator_Ok in H2 as [-> Ht1]; [|done].
    apply bindM_Ok in H as (b1 & w2 & Hb1 & H). apply the_bb_Ok in Hb1 as [Hb1 ->].
    rewrite Hbb, Hb in Hb1. injection Hb1 as <-.
    set (w2 := set_bbs (<[x := BB.insert_terminator b t1]> (w_bbs w1)) w1) in *.
    rewrite (bindM_eq _ _ w1 tt w2) in H by done.
    assert (same_graph w1 w2) as Hg12 by (eapply insert_terminator_graph; [by rewrite Hbb|done]).
    assert (same_graph w w1) as Hg01 by (intros y; unfold block_name, successors_of; by rewrite Hbb).
    apply bindM_Ok in H as (t2 & w3 & H3 & H). apply jump_to_Ok in H3 as [-> (bt & Hbt & ->)].
    apply put_terminator_Ok in H as (b2 & Hb2 & Hw').
    cbn in Hb2. rewrite lookup_insert_eq in Hb2. injection Hb2 as <-.
    split_and!.
    + transitivity w1; [done|]. transitivity w2; [done|].
      eapply insert_terminator_graph; [|exact Hw']. cbn. by rewrite lookup_insert_eq.
    + intros y Hy. rewrite Hw', lookup_insert_ne by done. cbn.
      rewrite lookup_insert_ne by done. by rewrite Hbb.
    + eexists b, _, [t1; _]. rewrite Hw', lookup_insert_eq, Es. cbn [branch_targets].
      split_and!; [done|reflexivity| |].
      * cbn. rewrite <- app_assoc. reflexivity.
      * constructor; [by rewrite <- (proj1 (Hg01 s1))|]. constructor; [|constructor].
        rewrite <- (proj1 (Hg01 s2)), <- (proj1 (Hg12 s2)).
        exists (bb_name bt). unfold block_name. by rewrite Hbt.
Qed.

(** C23: terminators implement the graph.  After [add_terminators_in_function] the
    terminators added to each block are one jump per successor, in order, to the
    successor's label; a block whose only successor is the exit falls through;
    names and edges of the graph are unchanged. *)
Theorem terminators_follow_successors draws isa f w u w' :
  NoDup (f_all_bb f) →
  add_terminators_in_function draws isa f w = Ok (u, w') →
  same_graph w w' ∧
  ∀ x, x ∈ f_all_bb f → ∃ b b' new, w_bbs w !! x = Some b ∧ w_bbs w' !! x = Some b' ∧
    bb_terminators b' = bb_terminators b ++ new ∧
    Forall2 (λ s i, jumps_to (block_name w s) i) (branch_targets (f_exit f) (bb_successors b)) new.
Proof.
  intros Hnd H.
  enough (same_graph w w' ∧ (∀ x, x ∉ f_all_bb f → w_bbs w' !! x = w_bbs w !! x) ∧
    ∀ x, x ∈ f_all_bb f → ∃ b b' new, w_bbs w !! x = Some b ∧ w_bbs w' !! x = Some b' ∧
      bb_terminators b' = bb_terminators b ++ new ∧
      Forall2 (λ s i, jumps_to (block_name w s) i) (branch_targets (f_exit f) (bb_successors b)) new)
    as (? & _ & ?) by done.
  revert H. unfold add_terminators_in_function.
  apply (for_m_inv (λ l _ v, same_graph w v ∧ (∀ x, x ∉ l → w_bbs v !! x = w_bbs w !! x) ∧
    ∀ x, x ∈ l → ∃ b b' new, w_bbs w !! x = Some b ∧ w_bbs v !! x = Some b' ∧
      bb_terminators b' = bb_terminators b ++ new ∧
      Forall2 (λ s i, jumps_to (block_name w s) i) (branch_targets (f_exit f) (bb_successors b)) new)).
  - intros k x t v t' v' Hk (Hg & Hout & Hin) Hstep.
    apply add_terminators_bb_Ok in Hstep as (Hg' & Hother & b & b' & new & Hb & Hb' & Hnew & Hall).
    assert (x ∉ take k (f_all_bb f)) as Hx.
    { intros Hx. apply list_elem_of_lookup in Hx as [j Hj]. apply lookup_take_Some in Hj as [Hj Hlt].
      pose proof (NoDup_lookup _ _ _ _ Hnd Hj Hk). lia. }
    split_and!; [by etransitivity| |].
    + intros y Hy. rewrite elem_of_app, list_elem_of_singleton in Hy. rewrite Hother by tauto. apply Hout. tauto.
    + intros y [Hy| ->%list_elem_of_singleton]%elem_of_app.
      * rewrite Hother by (intros ->; done). by apply Hin.
      * exists b, b', new. rewrite <- (Hout x Hx). split_and!; [done..|].
        eapply Forall2_impl; [exact Hall|]. intros s i Hj. cbn. by rewrite <- (proj1 (Hg s)).
  - split_and!; [done|done|]. intros x Hx. by apply elem_of_nil in Hx.
Qed.

(** A function with one inner block, and a set with a conditional branch. *)
Definition jz_spec : InstructionSpec :=
  mkInstructionSpec "JZ" [new_OperandSpec [] LABEL true false]
    [new_OperandSpec [""; ""; ""; "r"; ""; ""; ""; ""; ""] FLAGS false false;
     mkOperandSpec ["RIP"] REG 64 true true false] "BASE-COND_BR" true false false false.
Definition jz_isa : InstructionSet := mkISA [jz_spec; mov_spec] false true false false false.

(** The world after generating and terminating a function. *)
Definition demo_function : Function * world :=
  Eval vm_compute in
    match generate_function (λ i, Z.of_nat i) demo_conf jz_isa ".function_main" empty_world with
    | Ok p => p | Raise _ => (new_Function "" 0 1, empty_world) end.
Definition demo_terminated : world :=
  Eval vm_compute in
    match add_terminators_in_function (λ i, Z.of_nat i) jz_isa (fst demo_function) (snd demo_function) with
    | Ok (_, w) => w | Raise _ => empty_world end.

Lemma terminators_follow_successors_witness :
  same_graph (snd demo_function) demo_terminated.
Proof.
  apply (terminators_follow_successors (λ i, Z.of_nat i) jz_isa (fst demo_function)
           (snd demo_function) tt demo_terminated).
  - apply (bool_decide_unpack _). vm_compute. exact I.
  - vm_compute. reflexivity.
Defined.

(** the branches the generator emits are not tainted.  A generated conditional
    terminator carries no RIP operand, so when the CT clause observes its address
    the tracker taints the label RIP alone: none of the flags the branch reads. *)
Theorem generated_branch_taints_rip_only spec target w i w' base t :
  is_control_flow spec = true →
  generate_cond_terminator spec target w = Ok (i, w') →
  ct_hooks i [] (new_tracker [] base) = Ok t →
  t_tainted_labels (finalize_pending t) = {["RIP"]}.
Proof.
  intros Hcf H Ht.
  assert (i_control_flow i = true ∧ (∃ n, i_operands i = [LabelOperand n]) ∧
          (i_implicit_operands i = [] ∨ ∃ fv, i_implicit_operands i = [FlagsOperand fv]))
    as (Hc & [n Hops] & Himp).
  { destruct (generate_cond_terminator_Ok _ _ _ _ _ Hcf H) as [_ (n & _ & Hn & Hc)].
    split_and!; [done|by exists n|]. unfold generate_cond_terminator in H.
    apply bindM_Ok in H as (j & w1 & H1 & H). apply jump_to_Ok in H1 as [_ (b & _ & ->)].
    destruct (List.find _ _); inv_m; [|subst; by left].
    unfold generate_flags_operand, new_FlagsOperand in H0. inv_m.
    destruct (_ =? _)%nat; cbn in H0; [|done]. injection H0 as <-. subst. right. by eexists. }
  unfold ct_hooks, start_instruction in Ht. rewrite Hops in Ht.
  assert (∃ u, for_each collect_operand ([LabelOperand n] ++ i_implicit_operands i)
      (clear_instruction (finalize_pending (new_tracker [] base)) i) = Ok u ∧
      t_instruction u = Some i ∧ t_dest_regs u = [] ∧ t_pending_taint u = [] ∧
      t_reg_dependencies u = ∅ ∧ t_tainted_labels u = ∅) as (u & Hu & Hi & Hd & Hp & Hr & Htl).
  { destruct Himp as [->|[fv ->]]; eexists; (split; [reflexivity|]); by cbn. }
  rewrite Hu in Ht. cbn in Ht. unfold taint_pc in Ht. rewrite Hi, Hc in Ht. injection Ht as <-.
  unfold finalize_pending. cbn [t_instruction add_pending]. rewrite Hi. cbn.
  rewrite Hd, Hp, Hr, Htl. cbn. set_solver.
Qed.

Lemma generated_branch_taints_rip_only_witness :
  match generate_cond_terminator jz_spec 0 (snd demo_function) with
  | Ok (i, _) =>
      match ct_hooks i [] (new_tracker [] 0) with
      | Ok t => t_tainted_labels (finalize_pending t) = {["RIP"]} ∧
                i_implicit_operands i = [FlagsOperand [""; ""; ""; "r"; ""; ""; ""; ""; ""]]
      | Raise _ => False
      end
  | Raise _ => False
  end.
Proof.
  destruct (generate_cond_terminator jz_spec 0 (snd demo_function)) as [[i w']|] eqn:E;
    [|vm_compute in E; discriminate E].
  destruct (ct_hooks i [] (new_tracker [] 0)) as [t|] eqn:Et.
  - split.
    + apply (generated_branch_taints_rip_only jz_spec 0%nat (snd demo_function) i w' 0 t eq_refl E Et).
    + vm_compute in E. injection E as <- _. reflexivity.
  - vm_compute in E. injection E as <- _. vm_compute in Et. discriminate Et.
Defined.

(** ** Picking a specification *)

Lemma choice_at {A} draws (l : list A) w x :
  l !! Z.to_nat (draws (w_draw w) mod Z.of_nat (length l)) = Some x →
  choice draws l w = Ok (x, mkWorld (w_heap w) (w_bbs w) (w_next_inst w) (w_next_bb w)
                              (S (w_draw w)) (w_recent w)).
Proof.
  intros H. unfold choice. rewrite bool_decide_false.
  - rewrite (bindM_eq _ _ w (draws (w_draw w)) (mkWorld (w_heap w) (w_bbs w) (w_next_inst w)
      (w_next_bb w) (S (w_draw w)) (w_recent w))) by done. by rewrite H.
  - intros E. apply lookup_lt_Some in H. lia.
Qed.

Lemma pick_loop_inv draws isa m s fuel : ∀ w spec w',
  pick_loop draws isa fuel m s w = Ok (spec, w') →
  spec ∈ instructions isa ∧ is_control_flow spec = false ∧ wanted m s spec = true ∧ drawn w w'.
Proof.
  induction fuel as [|fuel IH]; intros w spec w' H; cbn [pick_loop] in H; [done|].
  apply bindM_Ok in H as (x & w1 & H1 & H). apply choice_inv in H1 as [Hx Hd].
  destruct (wanted m s x) eqn:Ew.
  - inv_m. subst. apply select_elem in Hx as [Hx ?]. split_and!; [done|by apply negb_true_iff|done|done].
  - apply IH in H as (? & ? & ? & ?). split_and!; [done..|by etransitivity].
Qed.

Lemma pick_loop_hits draws isa m s k : ∀ fuel w spec,
  non_control_flow_instructions isa !!
    Z.to_nat (draws (w_draw w + k)%nat mod Z.of_nat (length (non_control_flow_instructions isa)))
    = Some spec →
  wanted m s spec = true → (k < fuel)%nat →
  ∃ spec' w', pick_loop draws isa fuel m s w = Ok (spec', w').
Proof.
  induction k as [|k IH]; intros [|fuel] w spec Hspec Hw Hf; [lia| |lia|]; cbn [pick_loop].
  - rewrite Nat.add_0_r in Hspec. apply choice_at in Hspec. rewrite (bindM_eq _ _ w _ _ Hspec).
    rewrite Hw. by do 2 eexists.
  - destruct (choice_ok draws (non_control_flow_instructions isa) w) as (x & w1 & Hx & _ & Hd).
    { intros E. rewrite E in Hspec. done. }
    rewrite (bindM_eq _ _ w x w1 Hx). destruct (wanted m s x); [by do 2 eexists|].
    apply (IH fuel w1 spec); [|done|lia].
    assert (w_draw w1 = S (w_draw w)) as ->.
    { unfold choice in Hx. case_bool_decide; [done|]. apply bindM_Ok in Hx as (d & w2 & [= <- <-] & Hx).
      by inv_m. }
    by rewrite Nat.add_succ_comm.
Qed.

(** the choice of a random instruction.  A specification returned by the loop
    is a non-control-flow member of the instruction set that satisfies the
    request; the loop returns as soon as some later draw hits such a member; and
    when the instruction set has none, it never returns. *)
Theorem pick_loop_correct draws isa m s w :
  (∀ fuel spec w', pick_loop draws isa fuel m s w = Ok (spec, w') →
     spec ∈ instructions isa ∧ is_control_flow spec = false ∧ wanted m s spec = true) ∧
  (∀ k spec fuel,
     non_control_flow_instructions isa !!
       Z.to_nat (draws (w_draw w + k)%nat mod Z.of_nat (length (non_control_flow_instructions isa)))
       = Some spec →
     wanted m s spec = true → (k < fuel)%nat →
     ∃ spec' w', pick_loop draws isa fuel m s w = Ok (spec', w')) ∧
  (non_control_flow_instructions isa ≠ [] →
     (∀ spec, spec ∈ non_control_flow_instructions isa → wanted m s spec = false) →
     ∀ fuel, pick_loop draws isa fuel m s w = Raise OutOfFuel).
Proof.
  split_and!.
  - intros fuel spec w' H. apply pick_loop_inv in H. tauto.
  - intros k spec fuel. apply pick_loop_hits.
  - intros Hne Hall fuel. revert w. induction fuel as [|fuel IH]; intros w; [done|]. cbn [pick_loop].
    destruct (choice_ok draws _ w Hne) as (x & w1 & Hx & Hin & _).
    rewrite (bindM_eq _ _ w x w1 Hx). by rewrite Hall.
Qed.

Lemma pick_loop_correct_witness :
  ∃ spec' w', pick_loop (λ i, Z.of_nat i) (mkISA [jz_spec; mov_spec] false true false false false) 3
                false false empty_world = Ok (spec', w').
Proof.
  apply (proj1 (proj2 (pick_loop_correct (λ i, Z.of_nat i)
    (mkISA [jz_spec; mov_spec] false true false false false) false false empty_world)) 0%nat mov_spec 3%nat).
  - vm_compute. reflexivity.
  - reflexivity.
  - lia.
Defined.
