(* ===== verification/Passes.v ===== *)
(** * Instrumentation passes, printer and address map

    The passes of [src/src/generator.py] that make a random test case safe to
    run ([X86SandboxPass], [X86PatchUndefinedFlagsPass],
    [X86PatchUndefinedResultPass], [X86LFENCEPass], [X86RandomProtectPass]), the
    printer, and [map_addresses].  A test case is a list of functions over the
    stores of the [world]. *)

From S2P Require Import Prelude.
From S2P Require Import Isa.
From S2P Require Import BasicBlock.
From S2P Require Import Generator.

Open Scope Z_scope.

Record TestCase := mkTestCase {
  tc_functions : list Function;
  tc_num_prologue_instructions : nat;
  tc_address_map : gmap Z Instruction;
  tc_last_address : Z
}.
Definition new_TestCase : TestCase := mkTestCase [] 0 ∅ 0.

(** [for func in test_case.functions: for bb in func] *)
Definition for_bbs (f : Function → nat → M unit) (tc : TestCase) : M unit :=
  for_m (λ func _, for_m (λ bb _, f func bb) (f_all_bb func) tt) (tc_functions tc) tt.

(** The instructions of a block with their references, as a list made by [for inst in bb]. *)
Definition collect (bb : nat) : M (list (nat * Instruction)) :=
  ids ← instructions_of bb;
  for_m (λ x acc, i ← the_inst x; mret (acc ++ [(x, i)])) ids [].

(** [parent.insert_before(inst, Instruction(...))] *)
Definition instrument_before (bb inst : nat) (i : Instruction) : M unit :=
  x ← new_inst i; insert_before_m bb (Some inst) x.
Definition instrument_after (bb inst : nat) (i : Instruction) : M unit :=
  x ← new_inst i; insert_after_m bb (Some inst) x.

(** ** X86LFENCEPass *)

Definition lfence_bb (bb : nat) : M unit :=
  insertion_points ← instructions_of bb;
  for_m (λ instr _, instrument_after bb instr (new_Instruction "LFENCE" true "" false))
    insertion_points tt.
Definition lfence_pass : TestCase → M unit := for_bbs (λ _, lfence_bb).

(** ** X86SandboxPass *)

Definition mask_3bits : string := "0b111".
Definition bit_test_names : list string :=
  ["BT"; "BTC"; "BTR"; "BTS"; "LOCK BT"; "LOCK BTC"; "LOCK BTR"; "LOCK BTS"].

Fixpoint repeat_char (c : ascii) (n : nat) : string :=
  match n with O => EmptyString | S n => String c (repeat_char c n) end.

(** [self.sandbox_address_mask]; [int(math.log(n, 2))] is the floor of the logarithm. *)
Definition sandbox_address_mask (input_memory_size zeroed_bits : Z) : string :=
  "0b" +:+ repeat_char "1" (Z.to_nat (Z.log2 input_memory_size - zeroed_bits))
       +:+ repeat_char "0" (Z.to_nat zeroed_bits).

Definition instr (name : string) (ops : list Operand) : Instruction :=
  set_operands (new_Instruction name true "" false) ops.

(** [instr.get_mem_operands()[0].value = v], the memory operand being explicit. *)
Fixpoint set_first_mem (v : string) (ops : list Operand) : list Operand :=
  match ops with
  | [] => []
  | o :: ops => if is_mem o then set_op_value o v :: ops else o :: set_first_mem v ops
  end.

Section sandbox.
Context (draws : nat → Z) (conf : gen_conf).
Let mask : string :=
  sandbox_address_mask (input_main_region_size conf) (memory_access_zeroed_bits conf).

(** The two instrumentation instructions of a memory access. *)
Definition apply_mask (mem_operand : Operand) : Instruction :=
  let w := op_width mem_operand in
  instr "AND" [new_RegisterOperand (op_value mem_operand) w true true;
               new_ImmediateOperand mask (if w <=? 32 then w else 32)].
Definition add_base (mem_operand : Operand) : Instruction :=
  instr "ADD" [new_RegisterOperand (op_value mem_operand) (op_width mem_operand) true true;
               new_RegisterOperand "R14" 64 true false].

Definition sandbox_memory_access (x : nat) (parent : nat) : M unit :=
  i ← the_inst x;
  match get_implicit_mem_operands i with
  | [] =>
      match get_mem_operands i with
      | [] => raise GeneratorException
      | [m] =>
          instrument_before parent x (apply_mask m);;
          i ← the_inst x;
          put_inst x (set_operands i (set_first_mem ("R14 + " +:+ op_value m) (i_operands i)))
      | _ => raise AssertionError
      end
  | [m] =>
      instrument_before parent x (apply_mask m);;
      instrument_before parent x (add_base m)
  | _ => raise AssertionError
  end.

Definition sandbox_division (x : nat) (parent : nat) : M unit :=
  i ← the_inst x;
  divisor ← lift (from_option IndexError (head (i_operands i)));
  instrument_before parent x (instr "OR" [divisor; new_ImmediateOperand "1" 8]);;
  if op_width divisor =? 8 then
    if negb (str_in "RAX" (op_value divisor)) then
      instrument_before parent x
        (instr "MOV" [new_RegisterOperand "AX" 16 false true; new_ImmediateOperand "1" 16])
    else delete_m parent x
  else if op_width divisor =? 64 then delete_m parent x
  else if mem (op_value divisor) ["RDX"; "EDX"; "DX"; "DH"; "DL"] ||
          str_in "RDX" (op_value divisor) then delete_m parent x
  else
    d_register ← lift (from_option KeyError
      (if op_width divisor =? 64 then Some "RDX" else if op_width divisor =? 32 then Some "EDX"
       else if op_width divisor =? 16 then Some "DX" else None));
    instrument_before parent x
      (instr "AND" [new_RegisterOperand d_register (op_width divisor) false true; divisor]);;
    instrument_before parent x
      (instr "SHR" [new_RegisterOperand d_register (op_width divisor) false true;
                    new_ImmediateOperand "1" 8]).

Definition sandbox_bit_test (x : nat) (parent : nat) : M unit :=
  i ← the_inst x;
  address ← lift (from_option IndexError (head (i_operands i)));
  if is_reg address then mret tt
  else
    offset ← lift (from_option IndexError (i_operands i !! 1%nat));
    match offset with
    | ImmediateOperand _ w =>
        v ← randint draws 0 7;
        put_inst x (set_operands i (<[1%nat := ImmediateOperand (str v) w]> (i_operands i)))
    | _ =>
        if bool_decide (op_value address ≠ op_value offset)
        then instrument_before parent x (instr "AND" [offset; new_ImmediateOperand mask_3bits 8])
        else delete_m parent x
    end.

Definition sandbox_repeated_instruction (x : nat) (parent : nat) : M unit :=
  instrument_before parent x
    (instr "AND" [new_RegisterOperand "RCX" 64 true true; new_ImmediateOperand "0xff" 8]);;
  instrument_before parent x
    (instr "ADD" [new_RegisterOperand "RCX" 64 true true; new_ImmediateOperand "1" 1]).

Definition sandbox_corrupted_cf (x : nat) (parent : nat) : M unit :=
  instrument_after parent x (new_Instruction "STC" true "" false).

(** The classification of the collecting loop: a chain of [elif]s. *)
Definition is_division (i : Instruction) : bool := mem (i_name i) ["DIV"; "REX DIV"].
Definition is_bit_test (i : Instruction) : bool :=
  negb (is_division i) && mem (i_name i) bit_test_names.
Definition is_repeated (i : Instruction) : bool :=
  negb (is_division i) && negb (mem (i_name i) bit_test_names) && str_in "REP" (i_name i).
Definition is_corrupted_cf (i : Instruction) : bool :=
  negb (is_division i) && negb (mem (i_name i) bit_test_names) && negb (str_in "REP" (i_name i))
  && mem (i_category i) ["BASE-ROTATE"; "BASE-SHIFT"].

Definition sandbox_bb (func : Function) (bb : nat) : M unit :=
  if decide (bb = f_entry func) then mret tt
  else
    insts ← collect bb;
    let pick (p : Instruction → bool) := fst <$> select (λ xi, p xi.2) insts in
    for_m (λ x _, sandbox_memory_access x bb) (pick (λ i, has_mem_operand i true)) tt;;
    for_m (λ x _, sandbox_division x bb) (pick is_division) tt;;
    for_m (λ x _, sandbox_bit_test x bb) (pick is_bit_test) tt;;
    for_m (λ x _, sandbox_repeated_instruction x bb) (pick is_repeated) tt;;
    for_m (λ x _, sandbox_corrupted_cf x bb) (pick is_corrupted_cf) tt.

Definition sandbox_pass : TestCase → M unit := for_bbs sandbox_bb.
End sandbox.

Definition requires_sandbox (inst : InstructionSpec) : bool :=
  is_has_mem_operand inst || mem (is_name inst) ["DIV"; "REX DIV"] ||
  mem (is_name inst) bit_test_names || mem (is_category inst) ["BASE-SHIFT"; "BASE-ROTATE"].

(** ** X86PatchUndefinedFlagsPass *)

(** The modes of every flags operand of a specification. *)
Definition spec_flag_modes (s : InstructionSpec) : list string :=
  (is_operands s ++ is_implicit_operands s) ≫=
    λ op, if bool_decide (os_type op = FLAGS) then os_values op else [].

Definition is_patch_candidate (s : InstructionSpec) : bool :=
  negb (is_control_flow s) && negb (requires_sandbox s) &&
  negb (existsb (λ f, mem f ["r"; "r/w"; "r/cw"]) (spec_flag_modes s)) &&
  existsb (λ f, mem f ["w"]) (spec_flag_modes s).

(** [__init__] refuses an instruction set without candidates. *)
Definition patch_candidates (isa : InstructionSet) : result (list InstructionSpec) :=
  let c := select is_patch_candidate (instructions isa) in
  if bool_decide (c = []) then Raise GeneratorException else Ok c.

Definition set_add (x : string) (s : list string) : list string := if mem x s then s else s ++ [x].
Definition set_discard (x : string) (s : list string) : list string :=
  select (λ y, negb (bool_decide (y = x))) s.

Section flags.
Context (draws : nat → Z) (conf : gen_conf) (candidates : list InstructionSpec).

(** The loop over the candidates: the patches found and what is left to patch. *)
Fixpoint flags_patch_loop (specs : list InstructionSpec) (undef_flags flags_to_set : list string)
    (patches : list Instruction) : M (list Instruction * list string) :=
  match specs with
  | [] => mret (patches, undef_flags)
  | spec :: specs =>
      patch ← generate_instruction draws conf spec;
      patch_flags ← lift (from_option AssertionError (get_flags_operand patch));
      let new_undef_flags :=
        select (λ i, negb (mem i undef_flags) && mem i flags_to_set) (get_undef_flags patch_flags) in
      let not_patched_flags :=
        select (λ i, negb (mem i (get_write_flags patch_flags))) undef_flags in
      if bool_decide (new_undef_flags = []) && bool_decide (not_patched_flags ≠ undef_flags) then
        let patches := patches ++ [patch] in
        if bool_decide (not_patched_flags = []) then mret (patches, [])
        else flags_patch_loop specs not_patched_flags flags_to_set patches
      else flags_patch_loop specs undef_flags flags_to_set patches
  end.

Definition find_flags_patch (undef_flags flags_to_set : list string) : M (list Instruction) :=
  '(patches, undef_flags) ← flags_patch_loop candidates undef_flags flags_to_set [];
  if bool_decide (undef_flags = []) then mret patches else raise GeneratorException.

(** Insert a patch and drop the flags it overwrites. *)
Definition insert_patch (place : nat → M unit) (patch : Instruction) (flags_to_set : list string)
    : M (list string) :=
  x ← new_inst patch;
  place x;;
  put_inst x (set_is_instrumentation patch true);;
  patch_flags ← lift (from_option AttributeError (get_flags_operand patch));
  mret (fold_left (λ s f, set_discard f s) (get_write_flags patch_flags) flags_to_set).

(** One instruction of the backward walk.  [position] is [None] for the
    conditional terminator, which is walked first, when no flag is awaited:
    [undef_flags] is empty there. *)
Definition flags_step (bb : nat) (position : option nat) (inst : Instruction)
    (flags_to_set : list string) : M (list string) :=
  match get_flags_operand inst with
  | None => mret flags_to_set
  | Some flags =>
      let undef_flags := select (λ i, mem i flags_to_set) (get_undef_flags flags) in
      flags_to_set ← (if bool_decide (undef_flags = []) then mret flags_to_set
        else
          patches ← find_flags_patch undef_flags flags_to_set;
          for_m (insert_patch (λ x, insert_after_m bb position x)) patches flags_to_set);
      let flags_to_set := fold_left (λ s f, set_discard f s) (get_write_flags flags) flags_to_set in
      mret (fold_left (λ s f, set_add f s) (get_read_flags flags) flags_to_set)
  end.

Definition patch_flags_bb (bb : nat) : M unit :=
  insts ← collect bb;
  b ← the_bb bb;
  let all_instructions :=
    ((λ xi, (Some xi.1, xi.2)) <$> insts) ++
    match bb_terminators b with [t; _] => [(None, t)] | _ => [] end in
  flags_to_set ← for_m (λ xi s, flags_step bb xi.1 xi.2 s) (reverse all_instructions) [];
  if bool_decide (flags_to_set = []) then mret tt
  else
    patches ← find_flags_patch flags_to_set flags_to_set;
    for_m (λ patch _,
             x ← new_inst patch;
             b ← the_bb bb;
             insert_before_m bb (BB.get_first b) x;;
             put_inst x (set_is_instrumentation patch true)) patches tt.

Definition patch_flags_pass : TestCase → M unit := for_bbs (λ _, patch_flags_bb).
End flags.

(** ** X86PatchUndefinedResultPass *)

(** [bin(1 << (width - 1))]: a one and [width - 1] zeros; [<<] refuses a negative shift. *)
Definition patch_bit_scan (x parent : nat) : M unit :=
  i ← the_inst x;
  source ← lift (from_option IndexError (i_operands i !! 1%nat));
  let w := op_width source in
  lift (assert_ (1 <=? w) ValueError);;
  let '(mask, mask_size) :=
    if mem w [64; 32] then ("0b1000000000000000000000000000000", 32)
    else ("0b1" +:+ repeat_char "0" (Z.to_nat (w - 1)), w) in
  instrument_before parent x (instr "OR" [source; new_ImmediateOperand mask mask_size]).

Definition patch_result_bb (func : Function) (bb : nat) : M unit :=
  if decide (bb = f_entry func) then mret tt
  else
    insts ← collect bb;
    for_m (λ x _, patch_bit_scan x bb)
      (fst <$> select (λ xi : nat * Instruction, mem (i_name xi.2) ["BSF"; "BSR"]) insts) tt.
Definition patch_result_pass : TestCase → M unit := for_bbs patch_result_bb.

(** ** X86RandomProtectPass: iterates the block it is inserting into *)

Fixpoint protect_from (draws : nat → Z) (fuel : nat) (bb : nat) (cur : option nat) : M unit :=
  match cur with
  | None => mret tt
  | Some x =>
      match fuel with
      | O => raise OutOfFuel
      | S fuel =>
          d ← getrandbits draws 2;
          (if d =? 0 then instrument_before bb x (new_Instruction ".byte 0x36" false "" false)
           else mret tt);;
          next ← get (λ w, next_of (w_heap w) x);
          protect_from draws fuel bb next
      end
  end.

Definition protect_bb (draws : nat → Z) (bb : nat) : M unit :=
  b ← the_bb bb;
  n ← get (λ w, size (w_heap w));
  protect_from draws n bb (bb_start b).
Definition protect_pass (draws : nat → Z) : TestCase → M unit := for_bbs (λ _, protect_bb draws).

(** ** X86Printer *)

Definition memory_prefixes (width : Z) : option string :=
  if width =? 8 then Some "byte ptr" else if width =? 16 then Some "word ptr"
  else if width =? 32 then Some "dword ptr" else if width =? 64 then Some "qword ptr"
  else if width =? 512 then Some "" else None.

Definition operand_to_str (op : Operand) : result string :=
  match op with
  | MemoryOperand v w _ _ | AgenOperand v w =>
      prefix ← from_option KeyError (memory_prefixes w);
      Ok (prefix +:+ " [" +:+ v +:+ "]")
  | _ => Ok (op_value op)
  end.

Definition instruction_to_str (inst : Instruction) : result string :=
  operands ← mapM operand_to_str (i_operands inst);
  let comment := if i_is_instrumentation inst then "# instrumentation" else "" in
  Ok (i_name inst +:+ " " +:+ str_join ", " operands +:+ " " +:+ comment).

(** The templates, as functions of the cache line offset, without the newlines. *)
Definition prologue_template (offset : Z) : list string :=
  [".intel_syntax noprefix"; "LEA R14, [R14 + " +:+ str offset +:+ "] # instrumentation";
   "MFENCE # instrumentation"; ".test_case_enter:"].
Definition epilogue_template (offset : Z) : list string :=
  [".test_case_exit:"; "MFENCE # instrumentation";
   "LEA R14, [R14 - " +:+ str offset +:+ "] # instrumentation"].

Definition print_basic_block (bb : nat) : M (list string) :=
  b ← the_bb bb;
  insts ← collect bb;
  lines ← lift (mapM instruction_to_str ((snd <$> insts) ++ bb_terminators b));
  mret ((bb_name b +:+ ":") :: lines).

(** The lines of the printed file and the new prologue count: the printer adds
    one per template line that starts with a dot. *)
Definition print (draws : nat → Z) (conf : gen_conf) (tc : TestCase)
    : M (list string * TestCase) :=
  offset ← (if randomized_mem_alignment conf then randint draws 0 15 else mret 0);
  let cache_line_offset := offset * 4 in
  body ← for_m (λ func acc,
      lines ← for_m (λ bb acc, l ← print_basic_block bb; mret (acc ++ l)) (f_all_bb func) [];
      mret (acc ++ (f_name func +:+ ":") :: lines)) (tc_functions tc) [];
  let n := length (select (startswith ".") (prologue_template cache_line_offset)) in
  mret (prologue_template cache_line_offset ++ body ++ epilogue_template cache_line_offset,
        mkTestCase (tc_functions tc) (tc_num_prologue_instructions tc + n)
          (tc_address_map tc) (tc_last_address tc)).

(** ** [map_addresses]: [address_list] is what the decoder finds in the binary. *)

(** The instructions of a test case in layout order, without the prefix pseudo-instruction. *)
Definition layout_instructions (tc : TestCase) : M (list Instruction) :=
  for_m (λ func acc,
    for_m (λ bb acc,
             b ← the_bb bb;
             insts ← collect bb;
             mret (acc ++ select (λ i, negb (bool_decide (i_name i = ".byte 0x36")))
                            ((snd <$> insts) ++ bb_terminators b)))
      (f_all_bb func) acc) (tc_functions tc) [].

Definition assign_addresses (address_list : list Z) (insts : list Instruction) (counter : nat)
    : result (gmap Z Instruction * nat) :=
  for_each (λ inst '(m, counter),
      address ← from_option IndexError (address_list !! counter);
      Ok (<[address := inst]> m, S counter)) insts (∅, counter).

Definition unmapped : Instruction := new_Instruction "UNMAPPED" true "" false.

Definition address_map_of (address_list : list Z) (insts : list Instruction) (prologue : nat)
    : result (gmap Z Instruction * Z) :=
  '(m, _) ← assign_addresses address_list insts prologue;
  last_address ← from_option IndexError (last address_list);
  Ok (fold_left (λ m a, match m !! a with None => <[a := unmapped]> m | Some _ => m end)
        address_list m, last_address).

Definition map_addresses (address_list : list Z) (tc : TestCase) : M TestCase :=
  insts ← layout_instructions tc;
  '(m, last_address) ← lift (address_map_of address_list insts (tc_num_prologue_instructions tc));
  mret (mkTestCase (tc_functions tc) (tc_num_prologue_instructions tc) m last_address).

(** ** [create_test_case]; [assemble] and the decoder are external. *)

Inductive pass := LFENCEPass | SandboxPass | PatchUndefinedFlagsPass | PatchUndefinedResultPass
  | RandomProtectPass.

Definition run_pass (draws : nat → Z) (conf : gen_conf) (candidates : list InstructionSpec)
    (p : pass) (tc : TestCase) : M unit :=
  match p with
  | LFENCEPass => lfence_pass tc
  | SandboxPass => sandbox_pass draws conf tc
  | PatchUndefinedFlagsPass => patch_flags_pass draws conf candidates tc
  | PatchUndefinedResultPass => patch_result_pass tc
  | RandomProtectPass => protect_pass draws tc
  end.

(** [X86Generator.__init__] and the subclass that appends a pass. *)
Definition X86Generator_passes : list pass :=
  [SandboxPass; PatchUndefinedFlagsPass; PatchUndefinedResultPass].
Definition X86RandomProtGenerator_passes : list pass := X86Generator_passes ++ [RandomProtectPass].

Definition create_test_case (draws : nat → Z) (conf : gen_conf) (isa : InstructionSet)
    (passes : list pass) (addresses_of : list string → list Z) (fuel : nat)
    : M (list string * TestCase) :=
  candidates ← lift (patch_candidates isa);
  func ← generate_function draws conf isa ".function_main";
  add_terminators_in_function draws isa func;;
  add_instructions_in_function draws conf isa fuel func;;
  let tc := mkTestCase [func] 0 ∅ 0 in
  for_m (λ p _, run_pass draws conf candidates p tc) passes tt;;
  '(lines, tc) ← print draws conf tc;
  tc ← map_addresses (addresses_of lines) tc;
  mret (lines, tc).

(** [get_generator]: which generator the configuration selects. *)
Inductive generator_kind :=
  | RandomGen | RandomProtGen | LLVMGen (protcc : string) | ConstGen (asm_src : string).

Definition get_generator (instruction_set generator : string) : result generator_kind :=
  if negb (bool_decide (instruction_set = "x86-64")) then Raise ConfigException
  else if bool_decide (generator = "asm.none") then Ok RandomGen
  else if bool_decide (generator = "asm.prot") then Ok RandomProtGen
  else if bool_decide (generator = "llvm.ct") then Ok (LLVMGen "ct")
  else if bool_decide (generator = "llvm.arch") then Ok (LLVMGen "sbox")
  else if bool_decide (generator = "llvm.cts") then Ok (LLVMGen "cts")
  else if bool_decide (generator = "llvm.unr") then Ok (LLVMGen "nct")
  else if bool_decide (generator = "llvm.prot") then Ok (LLVMGen "rand")
  else if startswith "const:" generator then Ok (ConstGen (remove_prefix generator "const:"))
  else Raise ValueError.
