(* ===== verification/PassesFacts.v ===== *)
(** * What the passes do

    Each pass is stated on the instruction list of a block ([contents]); the
    linked-list work is done once, by the two instrumentation lemmas. *)

From S2P Require Import Prelude.
From S2P Require Import Isa.
From S2P Require Import BasicBlock.
From S2P Require Import Generator.
From S2P Require Import GeneratorFacts.
From S2P Require Import Passes.

Open Scope Z_scope.

(** ** Blocks as instruction lists *)

(** Allocation is ahead of the heap. *)
Definition heap_ok (w : world) : Prop := ∀ x, (w_next_inst w ≤ x)%nat → w_heap w !! x = None.

(** Block [bb] is made of the nodes [l], which hold the instructions [is]. *)
Definition contents (w : world) (bb : nat) (l : list nat) (is_ : list Instruction) : Prop :=
  (∃ b, w_bbs w !! bb = Some b ∧ represents (w_heap w) b l) ∧
  Forall2 (λ x i, n_inst <$> w_heap w !! x = Some i) l is_.

Lemma contents_dom w bb l is_ x : contents w bb l is_ → x ∈ l → is_Some (w_heap w !! x).
Proof.
  intros [_ HF] Hx. apply list_elem_of_lookup in Hx as [k Hk].
  eapply Forall2_lookup_l in HF as (i & _ & Hi); [|exact Hk].
  apply fmap_Some in Hi as (n & Hn & _). by exists n.
Qed.

Lemma contents_fresh w bb l is_ : heap_ok w → contents w bb l is_ → w_next_inst w ∉ l.
Proof.
  intros Hok Hc Hx. destruct (contents_dom _ _ _ _ _ Hc Hx) as [n Hn].
  by rewrite Hok in Hn.
Qed.

Lemma instructions_of_contents w bb l is_ :
  contents w bb l is_ → instructions_of bb w = Ok (l, w).
Proof.
  intros [(b & Hb & Hr) _]. unfold instructions_of. rewrite Hb. cbn.
  by rewrite (iter_represents _ _ _ Hr).
Qed.

Lemma the_inst_contents w bb l1 x l2 is1 i is2 :
  contents w bb (l1 ++ x :: l2) (is1 ++ i :: is2) → length l1 = length is1 →
  the_inst x w = Ok (i, w).
Proof.
  intros [_ HF] Hlen. apply Forall2_app_inv in HF as [_ HF]; [|done].
  apply Forall2_cons in HF as [Hi _]. apply fmap_Some in Hi as (n & Hn & ->).
  unfold the_inst. by rewrite Hn.
Qed.

Lemma collect_contents w bb l is_ : contents w bb l is_ → collect bb w = Ok (zip l is_, w).
Proof.
  intros Hc. unfold collect. rewrite (bindM_eq _ _ w l w) by (by eapply instructions_of_contents).
  destruct Hc as [_ HF].
  assert (Hacc : ∀ acc, for_m (λ x acc, i ← the_inst x; mret (acc ++ [(x, i)])) l acc w = Ok (acc ++ zip l is_, w));
    [|apply Hacc].
  induction HF as [|x i l is_ Hi _ IH]; intros acc; [cbn; by rewrite app_nil_r|]. cbn [for_m zip zip_with].
  rewrite (bindM_eq _ _ w (acc ++ [(x, i)]) w).
  - rewrite IH. by rewrite <- app_assoc.
  - apply fmap_Some in Hi as (n & Hn & ->). unfold the_inst, mbind, M_bind, result_bind. by rewrite Hn.
Qed.

(** A world after an operation on block [bb]: allocation moved on, nothing
    outside the nodes [ns] changed. *)
Record extends (bb : nat) (ns : list nat) (w w' : world) : Prop := {
  ext_ok : heap_ok w';
  ext_next : (w_next_inst w ≤ w_next_inst w')%nat;
  ext_heap : ∀ y, y ∉ ns → (y < w_next_inst w)%nat → w_heap w' !! y = w_heap w !! y;
  ext_bbs : ∀ y, y ≠ bb → w_bbs w' !! y = w_bbs w !! y;
  ext_names : ∀ b, w_bbs w !! bb = Some b → ∃ b', w_bbs w' !! bb = Some b' ∧
    bb_name b' = bb_name b ∧ bb_successors b' = bb_successors b ∧
    bb_terminators b' = bb_terminators b
}.

Lemma extends_refl bb ns w : heap_ok w → extends bb ns w w.
Proof. intros H. split; [done|lia|done|done|]. intros b Hb. by exists b. Qed.

Lemma extends_trans bb ns ns' w1 w2 w3 :
  extends bb ns w1 w2 → extends bb ns' w2 w3 →
  (∀ y, y ∈ ns' → y ∈ ns ∨ (w_next_inst w1 ≤ y)%nat) → extends bb ns w1 w3.
Proof.
  intros [A1 A2 A3 A4 A5] [B1 B2 B3 B4 B5] Hns. split; [done|lia| | |].
  - intros y Hy Hlt. rewrite B3; [by apply A3| |lia].
    intros Hy'. destruct (Hns y Hy'); [done|lia].
  - intros y Hy. rewrite B4 by done. by apply A4.
  - intros b Hb. destruct (A5 b Hb) as (b2 & Hb2 & ? & ? & ?).
    destruct (B5 b2 Hb2) as (b3 & Hb3 & ? & ? & ?). exists b3. split_and!; congruence.
Qed.

(** The instructions of a heap, read through relinking and allocation. *)
Lemma same_insts_lookup h h' x : same_insts h h' → n_inst <$> h' !! x = n_inst <$> h !! x.
Proof. intros H. by rewrite (H x). Qed.

Lemma insert_after_insts p x h b : same_insts h (fst (BB.insert_after (Some p) x (h, b))).
Proof.
  cbn. destruct (next_of h p); cbn.
  - etransitivity; [|apply set_prev_insts]. etransitivity; [|apply set_next_insts].
    etransitivity; [|apply set_prev_insts]. apply set_next_insts.
  - etransitivity; [|apply set_prev_insts]. apply set_next_insts.
Qed.
Lemma insert_before_insts p x h b : same_insts h (fst (BB.insert_before (Some p) x (h, b))).
Proof.
  cbn. destruct (prev_of h p); cbn.
  - etransitivity; [|apply set_next_insts]. etransitivity; [|apply set_prev_insts].
    etransitivity; [|apply set_next_insts]. apply set_prev_insts.
  - etransitivity; [|apply set_next_insts]. apply set_prev_insts.
Qed.

(** Relinking touches only the block and the new node. *)
Lemma insert_after_frame h b l1 p l2 x y :
  seg h None (l1 ++ p :: l2) None → y ∉ l1 ++ p :: l2 → y ≠ x →
  fst (BB.insert_after (Some p) x (h, b)) !! y = h !! y.
Proof.
  intros Hs Hy Hyx. cbn. rewrite (seg_next _ _ _ _ _ _ Hs).
  rewrite elem_of_app, elem_of_cons in Hy.
  destruct l2 as [|n l2]; cbn [hd_or fst].
  - by rewrite set_prev_ne, set_next_ne by (intros ->; tauto).
  - rewrite elem_of_cons in Hy.
    by rewrite set_prev_ne, set_next_ne, set_prev_ne, set_next_ne by (intros ->; tauto).
Qed.
Lemma insert_before_frame h b l1 p l2 x y :
  seg h None (l1 ++ p :: l2) None → y ∉ l1 ++ p :: l2 → y ≠ x →
  fst (BB.insert_before (Some p) x (h, b)) !! y = h !! y.
Proof.
  intros Hs Hy Hyx. cbn. rewrite (seg_prev _ _ _ _ _ _ Hs).
  rewrite elem_of_app, elem_of_cons in Hy.
  destruct l1 as [|n l1 _] using rev_ind; cbn [last_or last fst]; unfold last_or.
  - cbn. by rewrite set_next_ne, set_prev_ne by (intros ->; tauto).
  - rewrite last_snoc. cbn. rewrite elem_of_app, list_elem_of_singleton in Hy.
    by rewrite set_next_ne, set_prev_ne, set_next_ne, set_prev_ne by (intros ->; tauto).
Qed.

(** Allocation of a node. *)
Lemma new_inst_ok w i : heap_ok w →
  ∃ w', new_inst i w = Ok (w_next_inst w, w') ∧ heap_ok w' ∧
    w_next_inst w' = S (w_next_inst w) ∧ w_bbs w' = w_bbs w ∧ w_draw w' = w_draw w ∧
    w_heap w' = <[w_next_inst w := mkNode i None None]> (w_heap w).
Proof.
  intros Hok. eexists. split; [reflexivity|]. split_and!; try done.
  intros x Hx. cbn in *. rewrite lookup_insert_ne by lia. apply Hok. lia.
Qed.

Lemma represents_alloc h b l x n :
  x ∉ l → represents h b l → represents (<[x := n]> h) b l.
Proof.
  intros Hx [Hs He Hnd Hseg]. split; [done..|].
  eapply seg_frame; [|exact Hseg]. intros y Hy. by rewrite lookup_insert_ne by (intros ->; done).
Qed.

Lemma insert_keeps_meta op p x h b :
  (op = BB.insert_after ∨ op = BB.insert_before) →
  let b' := snd (op p x (h, b)) in
  bb_name b' = bb_name b ∧ bb_successors b' = bb_successors b ∧ bb_terminators b' = bb_terminators b.
Proof.
  intros [-> | ->]; cbn.
  - destruct p as [p|]; [destruct (next_of h p); by cbn|]. destruct (bb_start b) as [s|]; [|by cbn].
    destruct (next_of h s); by cbn.
  - destruct p as [p|]; [destruct (prev_of h p); by cbn|]. destruct (bb_start b) as [s|]; [|by cbn].
    destruct (prev_of h s); by cbn.
Qed.

(** The two directions share this argument: [op] inserts a fresh node next to
    [x], turning [l] into [l']. *)
Lemma instrument_ok (op : option nat → nat → heap * BasicBlock → heap * BasicBlock)
    w bb l is_ x j l' is' :
  (op = BB.insert_after ∨ op = BB.insert_before) →
  heap_ok w → contents w bb l is_ → x ∈ l →
  (∀ h b, represents h b l → fresh_node h (w_next_inst w) →
     let '(h', b') := op (Some x) (w_next_inst w) (h, b) in represents h' b' l') →
  (∀ h b, same_insts h (fst (op (Some x) (w_next_inst w) (h, b)))) →
  (∀ h b y, represents h b l → y ∉ l → y ≠ w_next_inst w →
     fst (op (Some x) (w_next_inst w) (h, b)) !! y = h !! y) →
  (∀ w', heap_ok w' → n_inst <$> w_heap w' !! w_next_inst w = Some j →
     (∀ y, y ∈ l → n_inst <$> w_heap w' !! y = n_inst <$> w_heap w !! y) →
     Forall2 (λ x i, n_inst <$> w_heap w' !! x = Some i) l' is') →
  ∃ w', (y ← new_inst j; block_op (λ st, Ok (op (Some x) y st)) bb) w = Ok (tt, w') ∧
    contents w' bb l' is' ∧ extends bb l w w' ∧ w_draw w' = w_draw w.
Proof.
  intros Hop Hok Hc Hx Hrep Hins Hframe Hall.
  pose proof (contents_fresh _ _ _ _ Hok Hc) as Hnx.
  destruct (new_inst_ok w j Hok) as (w1 & H1 & Hok1 & Hn1 & Hb1 & Hd1 & Hh1).
  rewrite (bindM_eq _ _ w _ w1 H1). destruct Hc as [(b & Hb & Hr) HF].
  unfold block_op. rewrite Hb1, Hb. cbn [from_option mbind result_bind].
  set (h1 := w_heap w1) in *.
  assert (represents h1 b l) as Hr1 by (rewrite Hh1; by apply represents_alloc).
  assert (fresh_node h1 (w_next_inst w)) as Hfr by (exists j; by rewrite Hh1, lookup_insert_eq).
  specialize (Hrep h1 b Hr1 Hfr). specialize (Hins h1 b).
  pose proof (insert_keeps_meta op (Some x) (w_next_inst w) h1 b Hop) as Hmeta.
  pose proof (λ y, Hframe h1 b y Hr1) as Hframe1.
  destruct (op (Some x) (w_next_inst w) (h1, b)) as [h2 b2]. cbn [fst snd] in *.
  eexists. split; [reflexivity|].
  set (w2 := set_bbs (<[bb := b2]> (w_bbs w1)) (set_heap h2 w1)).
  assert (heap_ok w2) as Hok2.
  { intros y Hy. cbn in Hy. destruct (h2 !! y) as [n|] eqn:E; [|done].
    pose proof (Hins y) as Hy2. rewrite E in Hy2. unfold h1 in Hy2.
    rewrite (Hok1 y Hy) in Hy2. done. }
  assert (∀ y, y ∈ l → n_inst <$> h2 !! y = n_inst <$> w_heap w !! y) as Hkeep.
  { intros y Hy. rewrite <- (Hins y), Hh1, lookup_insert_ne; [done|intros <-; done]. }
  split; [|split; [split; cbn|done]].
  - split; [exists b2; split; [cbn; by rewrite lookup_insert_eq|done]|].
    apply (Hall w2 Hok2); [|done]. cbn. rewrite <- (Hins _), Hh1. by rewrite lookup_insert_eq.
  - done.
  - lia.
  - intros y Hy Hlt. rewrite Hframe1 by (done || lia). by rewrite Hh1, lookup_insert_ne by lia.
  - intros y Hy. cbn. by rewrite lookup_insert_ne.
  - intros b' Hb'. rewrite Hb in Hb'. injection Hb' as <-. exists b2.
    cbn. by rewrite lookup_insert_eq.
Qed.

Lemma instrument_after_ok w bb l1 x l2 is1 i is2 j :
  heap_ok w → contents w bb (l1 ++ x :: l2) (is1 ++ i :: is2) → length l1 = length is1 →
  ∃ w', instrument_after bb x j w = Ok (tt, w') ∧
    contents w' bb (l1 ++ x :: w_next_inst w :: l2) (is1 ++ i :: j :: is2) ∧
    extends bb (l1 ++ x :: l2) w w' ∧ w_draw w' = w_draw w.
Proof.
  intros Hok Hc Hlen. pose proof (contents_fresh _ _ _ _ Hok Hc) as Hnx.
  eapply instrument_ok; [by left|done|exact Hc|apply elem_of_app; right; by left| | | |].
  - intros h b Hr Hf. by apply insert_after_at.
  - intros h b. apply insert_after_insts.
  - intros h b y Hr Hy Hyx. eapply insert_after_frame; [apply Hr|done..].
  - intros w' _ Hj Hkeep. destruct Hc as [_ HF].
    assert (Forall2 (λ x i, n_inst <$> w_heap w' !! x = Some i) (l1 ++ x :: l2) (is1 ++ i :: is2)) as HF'.
    { eapply Forall2_impl_in; [exact HF|]. intros y i' Hy Hi'. by rewrite Hkeep. }
    apply Forall2_app_inv in HF' as [Ha Hb]; [|done]. apply Forall2_cons in Hb as [Hb1 Hb2].
    apply Forall2_app; [done|]. by repeat (constructor; [done|]).
Qed.

Lemma instrument_before_ok w bb l1 x l2 is1 i is2 j :
  heap_ok w → contents w bb (l1 ++ x :: l2) (is1 ++ i :: is2) → length l1 = length is1 →
  ∃ w', instrument_before bb x j w = Ok (tt, w') ∧
    contents w' bb (l1 ++ w_next_inst w :: x :: l2) (is1 ++ j :: i :: is2) ∧
    extends bb (l1 ++ x :: l2) w w' ∧ w_draw w' = w_draw w.
Proof.
  intros Hok Hc Hlen. pose proof (contents_fresh _ _ _ _ Hok Hc) as Hnx.
  destruct Hc as [Hrep HF].
  assert (x ∉ l1) as Hx1.
  { destruct Hrep as (b & _ & [_ _ Hnd _]). apply NoDup_app in Hnd as (_ & Hd & _).
    intros Hin. apply (Hd x Hin). by left. }
  assert (contents w bb (l1 ++ x :: l2) (is1 ++ i :: is2)) as Hc by done.
  eapply instrument_ok; [by right|done|exact Hc|apply elem_of_app; right; by left| | | |].
  - intros h b Hr Hf. pose proof (insert_before_list h b (l1 ++ x :: l2) x (w_next_inst w) Hr) as H.
    rewrite list_insert_before_app in H by done. apply H; [apply elem_of_app; right; by left|done|done].
  - intros h b. apply insert_before_insts.
  - intros h b y Hr Hy Hyx. eapply insert_before_frame; [apply Hr|done..].
  - intros w' _ Hj Hkeep.
    assert (Forall2 (λ x i, n_inst <$> w_heap w' !! x = Some i) (l1 ++ x :: l2) (is1 ++ i :: is2)) as HF'.
    { eapply Forall2_impl_in; [exact HF|]. intros y i' Hy Hi'. by rewrite Hkeep. }
    apply Forall2_app_inv in HF' as [Ha Hb]; [|done]. apply Forall2_cons in Hb as [Hb1 Hb2].
    apply Forall2_app; [done|]. by repeat (constructor; [done|]).
Qed.

(** ** From blocks to test cases *)

Lemma contents_lt w bb l is_ x : heap_ok w → contents w bb l is_ → x ∈ l → (x < w_next_inst w)%nat.
Proof.
  intros Hok Hc Hx. destruct (contents_dom _ _ _ _ _ Hc Hx) as [n Hn].
  destruct (decide (x < w_next_inst w)%nat); [done|]. by rewrite Hok in Hn by lia.
Qed.

(** An operation on one block leaves a disjoint block alone. *)
Lemma extends_contents bb l w w' b2 l2 is2 :
  heap_ok w → extends bb l w w' → b2 ≠ bb → (∀ x, x ∈ l2 → x ∉ l) →
  contents w b2 l2 is2 → contents w' b2 l2 is2.
Proof.
  intros Hok Hext Hne Hdis Hc.
  assert (∀ x, x ∈ l2 → w_heap w' !! x = w_heap w !! x) as Hh.
  { intros x Hx. apply (ext_heap _ _ _ _ Hext); [by apply Hdis|by eapply contents_lt]. }
  destruct Hc as [(b & Hb & [Hs He Hnd Hseg]) HF]. split.
  - exists b. rewrite (ext_bbs _ _ _ _ Hext) by done. split; [done|]. split; [done..|].
    by eapply seg_frame.
  - eapply Forall2_impl_in; [exact HF|]. intros y i Hy Hi. by rewrite Hh.
Qed.

(** A step that turns the instructions of its block by [R] when they satisfy [P]. *)
Definition block_step (f : nat → M unit) (P : list Instruction → Prop)
    (R : list Instruction → list Instruction → Prop) (bb : nat) : Prop :=
  ∀ w l is_, heap_ok w → contents w bb l is_ → P is_ →
  ∃ w' l' is', f bb w = Ok (tt, w') ∧ contents w' bb l' is' ∧ R is_ is' ∧ extends bb l w w' ∧
    (∀ x, x ∈ l' → x ∈ l ∨ (w_next_inst w ≤ x)%nat).

(** The blocks of a function are made of disjoint nodes. *)
Definition separated (c : nat → list nat) (bbs : list nat) : Prop :=
  ∀ b1 b2, b1 ∈ bbs → b2 ∈ bbs → b1 ≠ b2 → ∀ x, x ∈ c b1 → x ∉ c b2.

Lemma for_blocks (f : nat → M unit) (P : nat → list Instruction → Prop)
    (R : nat → list Instruction → list Instruction → Prop) bbs :
  (∀ bb, bb ∈ bbs → block_step f (P bb) (R bb) bb) → NoDup bbs →
  ∀ w c is_, heap_ok w → separated c bbs → (∀ bb, bb ∈ bbs → contents w bb (c bb) (is_ bb)) →
  (∀ bb, bb ∈ bbs → P bb (is_ bb)) →
  ∃ w', for_m (λ bb _, f bb) bbs tt w = Ok (tt, w') ∧ heap_ok w' ∧
    (∀ bb, bb ∈ bbs → ∃ l' is', contents w' bb l' is' ∧ R bb (is_ bb) is' ∧
       ∀ x, x ∈ l' → x ∈ c bb ∨ (w_next_inst w ≤ x)%nat) ∧
    (w_next_inst w ≤ w_next_inst w')%nat ∧
    (∀ b2 l2 is2, b2 ∉ bbs → (∀ bb x, bb ∈ bbs → x ∈ l2 → x ∉ c bb) →
       contents w b2 l2 is2 → contents w' b2 l2 is2).
Proof.
  induction bbs as [|bb bbs IH]; intros Hf Hnd w c is_ Hok Hsep Hc HP; cbn [for_m].
  { exists w. split_and!; try done; try lia. intros bb H. by apply elem_of_nil in H. }
  apply NoDup_cons in Hnd as [Hbb Hnd].
  destruct (Hf bb ltac:(by left) w (c bb) (is_ bb) Hok (Hc bb ltac:(by left)) (HP bb ltac:(by left)))
    as (w1 & l1 & is1 & H1 & Hc1 & HR1 & Hext & Hl1).
  rewrite (bindM_eq _ _ w tt w1 H1).
  destruct (IH (λ b Hb, Hf b (list_elem_of_further _ _ _ Hb)) Hnd w1 c is_)
    as (w2 & H2 & Hok2 & Hdone & Hnext & Hother).
  - apply (ext_ok _ _ _ _ Hext).
  - intros b1 b2 Hb1 Hb2. by apply Hsep; right.
  - intros b Hb. eapply (extends_contents bb (c bb) w); [done|exact Hext| | |apply Hc; by right].
    + intros ->. done.
    + intros x Hx. apply (Hsep b bb); [by right|by left|intros ->; done|done].
  - intros b Hb. apply HP. by right.
  - pose proof (ext_next _ _ _ _ Hext). exists w2. split_and!; [done|done| |lia|].
    + intros b [->|Hb]%elem_of_cons.
      * exists l1, is1. split; [|done]. apply Hother; [done| |done].
        intros b x Hb Hx Hin. destruct (Hl1 x Hx) as [Hx1|Hx1].
        -- eapply (Hsep bb b); [by left|by right|intros ->; done|done|done].
        -- pose proof (contents_lt w b (c b) (is_ b) x Hok (Hc b ltac:(by right)) Hin). lia.
      * destruct (Hdone b Hb) as (l' & is' & ? & ? & Hl'). exists l', is'. split_and!; [done..|].
        intros x Hx. destruct (Hl' x Hx); [by left|right; lia].
    + intros b2 l2 is2 Hb2 Hdis Hc2. apply Hother.
      * intros ?. apply Hb2. by right.
      * intros b x Hb. apply Hdis. by right.
      * eapply (extends_contents bb (c bb) w); [done|exact Hext| | |done].
        -- intros ->. apply Hb2. by left.
        -- intros x Hx. apply Hdis; [by left|done].
Qed.

(** ** X86LFENCEPass *)

Definition lfence : Instruction := new_Instruction "LFENCE" true "" false.

(** A fence after every instruction. *)
Definition fenced (is_ is' : list Instruction) : Prop := is' = (is_ ≫= λ i, [i; lfence]).

Lemma lfence_loop bb rest : ∀ l1 is1 isr w,
  heap_ok w → contents w bb (l1 ++ rest) (is1 ++ isr) → length l1 = length is1 →
  ∃ w' l', for_m (λ x _, instrument_after bb x lfence) rest tt w = Ok (tt, w') ∧
    contents w' bb (l1 ++ l') (is1 ++ (isr ≫= λ i, [i; lfence])) ∧
    extends bb (l1 ++ rest) w w' ∧ (∀ x, x ∈ l' → x ∈ rest ∨ (w_next_inst w ≤ x)%nat).
Proof.
  induction rest as [|x rest IH]; intros l1 is1 isr w Hok Hc Hlen.
  { exists w, []. destruct Hc as [Hr HF]. pose proof (Forall2_length _ _ _ HF) as Hl.
    rewrite !length_app in Hl. destruct isr; cbn in Hl; [|lia].
    split_and!; [done|done|by apply extends_refl|by intros x ?%elem_of_nil]. }
  destruct isr as [|i isr].
  { destruct Hc as [_ HF%Forall2_length]. rewrite !length_app in HF. cbn in HF. lia. }
  destruct (instrument_after_ok w bb l1 x rest is1 i isr lfence Hok Hc Hlen)
    as (w1 & H1 & Hc1 & Hext & _).
  cbn [for_m]. rewrite (bindM_eq _ _ w tt w1 H1).
  destruct (IH (l1 ++ [x; w_next_inst w]) (is1 ++ [i; lfence]) isr w1) as (w2 & l' & H2 & Hc2 & He2 & Hl').
  - apply Hext.
  - by rewrite <- !app_assoc.
  - rewrite !length_app. cbn. lia.
  - rewrite <- !app_assoc in *. cbn [app] in *. exists w2, (x :: w_next_inst w :: l').
    pose proof (ext_next _ _ _ _ Hext). split_and!; [done|done| |].
    + eapply extends_trans; [exact Hext|exact He2|]. intros y.
      rewrite !elem_of_app, !elem_of_cons. intros [?|[?|[->|?]]]; tauto || (right; lia).
    + intros y [->|[->|Hy]%elem_of_cons]%elem_of_cons; [left; by left|right; lia|].
      destruct (Hl' y Hy); [left; by right|right; lia].
Qed.

Lemma lfence_bb_step bb : block_step lfence_bb (λ _, True) fenced bb.
Proof.
  intros w l is_ Hok Hc _. unfold lfence_bb.
  rewrite (bindM_eq _ _ w l w) by (by eapply instructions_of_contents).
  destruct (lfence_loop bb l [] [] is_ w Hok Hc eq_refl) as (w' & l' & H & Hc' & He & Hl').
  exists w', l', (is_ ≫= λ i, [i; lfence]). split_and!; done.
Qed.

(** the fence pass.  Every block of the test case ends up with exactly its own
    instructions, each followed by one [LFENCE]. *)
Theorem lfence_pass_fences func w c is_ :
  heap_ok w → NoDup (f_all_bb func) → separated c (f_all_bb func) →
  (∀ bb, bb ∈ f_all_bb func → contents w bb (c bb) (is_ bb)) →
  ∃ w', lfence_pass (mkTestCase [func] 0 ∅ 0) w = Ok (tt, w') ∧
    ∀ bb, bb ∈ f_all_bb func → ∃ l', contents w' bb l' (is_ bb ≫= λ i, [i; lfence]).
Proof.
  intros Hok Hnd Hsep Hc.
  destruct (for_blocks lfence_bb (λ _ _, True) (λ _, fenced) (f_all_bb func)) with (w := w) (c := c) (is_ := is_)
    as (w' & H & _ & Hall & _); [intros; apply lfence_bb_step|done..|].
  exists w'. split.
  - unfold lfence_pass, for_bbs. cbn [for_m tc_functions]. by rewrite (bindM_eq _ _ w tt w' H).
  - intros bb Hbb. destruct (Hall bb Hbb) as (l' & is' & Hc' & -> & _). by exists l'.
Qed.

(** A block with one instruction, for the witnesses. *)
Definition one_block (i : Instruction) : world :=
  mkWorld {[ 0%nat := mkNode i None None ]} {[ 0%nat := mkBB ".bb_main.0" [] [] (Some 0%nat) (Some 0%nat) ]}
    1 1 0 false.

Lemma one_block_ok i : heap_ok (one_block i) ∧ contents (one_block i) 0 [0%nat] [i].
Proof.
  split.
  - intros x Hx. cbn in *. by rewrite lookup_singleton_ne by lia.
  - split; [|by constructor; [|constructor]].
    eexists. split; [reflexivity|]. split; [done|done|repeat constructor; set_solver|]. cbn.
    split; [|done]. by exists i.
Qed.

Lemma lfence_pass_fences_witness :
  let i := new_Instruction "NOP" false "" false in
  ∃ w', lfence_pass (mkTestCase [mkFunction "" [0%nat] 5 6] 0 ∅ 0) (one_block i) = Ok (tt, w') ∧
    ∀ bb, bb ∈ [0%nat] → ∃ l', contents w' bb l' ([i] ≫= λ i, [i; lfence]).
Proof.
  intros i. apply (lfence_pass_fences (mkFunction "" [0%nat] 5 6) (one_block i) (λ _, [0%nat]) (λ _, [i])).
  - apply one_block_ok.
  - repeat constructor. set_solver.
  - intros b1 b2 ->%list_elem_of_singleton ->%list_elem_of_singleton. done.
  - intros bb ->%list_elem_of_singleton. apply one_block_ok.
Defined.

(** ** Rewriting an instruction in place, deleting one *)

Lemma set_inst_ne h x y i : y ≠ x → set_inst x i h !! y = h !! y.
Proof. intros. unfold set_inst. by rewrite lookup_alter_ne. Qed.

Lemma seg_set_inst h p l n x i : seg h p l n → seg (set_inst x i h) p l n.
Proof.
  revert p. induction l as [|y l IH]; intros p; cbn; [done|]. intros [[j Hy] Hs]. split; [|by apply IH].
  destruct (decide (y = x)) as [->|].
  - exists i. unfold set_inst. by rewrite lookup_alter_eq, Hy.
  - exists j. by rewrite set_inst_ne.
Qed.

Lemma put_inst_ok w bb l1 x l2 is1 i is2 j :
  heap_ok w → contents w bb (l1 ++ x :: l2) (is1 ++ i :: is2) → length l1 = length is1 →
  ∃ w', put_inst x j w = Ok (tt, w') ∧
    contents w' bb (l1 ++ x :: l2) (is1 ++ j :: is2) ∧
    extends bb (l1 ++ x :: l2) w w' ∧ w_draw w' = w_draw w ∧ w_next_inst w' = w_next_inst w.
Proof.
  intros Hok Hc Hlen.
  assert (is_Some (w_heap w !! x)) as [n Hn]
    by (eapply contents_dom; [exact Hc|apply elem_of_app; right; by left]).
  destruct Hc as [(b & Hb & [Hs He Hnd Hseg]) HF]. eexists. split; [reflexivity|].
  apply Forall2_app_inv in HF as [HF1 HF2]; [|done]. apply Forall2_cons in HF2 as [_ HF2].
  apply NoDup_app in Hnd as H. destruct H as (_ & Hd & [Hx2 _]%NoDup_cons).
  split; [split|split; [split|done]]; cbn.
  - exists b. split; [done|]. split; [done..|]. by apply seg_set_inst.
  - apply Forall2_app; [|constructor].
    + eapply Forall2_impl_in; [exact HF1|]. intros y k Hy Hk. cbn.
      rewrite set_inst_ne; [done|]. intros ->. apply (Hd x Hy). by left.
    + unfold set_inst. by rewrite lookup_alter_eq, Hn.
    + eapply Forall2_impl_in; [exact HF2|]. intros y k Hy Hk. cbn.
      rewrite set_inst_ne; [done|]. by intros ->.
  - intros y Hy. cbn in *. destruct (decide (y = x)) as [->|]; [by rewrite Hok in Hn|].
    rewrite set_inst_ne by done. by apply Hok.
  - lia.
  - intros y Hy _. rewrite set_inst_ne; [done|]. intros ->. apply Hy, elem_of_app. right; by left.
  - done.
  - intros b' Hb'. by exists b'.
Qed.

Lemma delete_keeps x h b h' b' l1 l2 :
  represents h b (l1 ++ x :: l2) → BB.delete x (h, b) = Ok (h', b') →
  same_insts h h' ∧ (∀ y, y ∉ l1 ++ x :: l2 → h' !! y = h !! y) ∧
  bb_name b' = bb_name b ∧ bb_successors b' = bb_successors b ∧ bb_terminators b' = bb_terminators b.
Proof.
  intros Hr H. unfold BB.delete in H. destruct (negb _); [done|].
  destruct Hr as [_ _ _ Hseg].
  rewrite (seg_prev _ _ _ _ _ _ Hseg), (seg_next _ _ _ _ _ _ Hseg) in H.
  assert (∀ p, last_or None l1 = Some p → p ∈ l1) as Hp.
  { unfold last_or. intros p. destruct (last l1) eqn:E; [|done]. intros [= <-].
    apply last_Some_elem_of in E. done. }
  assert (∀ n, hd_or l2 None = Some n → n ∈ l2) as Hn.
  { intros n. destruct l2; cbn; [done|]. intros [= ->]. by left. }
  assert (∀ p y, last_or None l1 = Some p → y ∉ l1 ++ x :: l2 → p ≠ y) as Hpy.
  { intros p y Hp' Hy ->. apply Hy, elem_of_app. left. by apply Hp. }
  assert (∀ n y, hd_or l2 None = Some n → y ∉ l1 ++ x :: l2 → n ≠ y) as Hny.
  { intros n y Hn' Hy ->. apply Hy, elem_of_app. right; right. by apply Hn. }
  destruct (last_or None l1) as [p|] eqn:Ep, (hd_or l2 None) as [n|] eqn:En;
    injection H as <- <-; cbn; split_and!; try done; auto with heap.
  - etransitivity; [apply set_next_insts|apply set_prev_insts].
  - intros y Hy. by rewrite set_prev_ne, set_next_ne by eauto.
  - intros y Hy. by rewrite set_next_ne by eauto.
  - intros y Hy. by rewrite set_prev_ne by eauto.
Qed.

Lemma delete_m_ok w bb l1 x l2 is1 i is2 :
  heap_ok w → contents w bb (l1 ++ x :: l2) (is1 ++ i :: is2) → length l1 = length is1 →
  ∃ w', delete_m bb x w = Ok (tt, w') ∧ contents w' bb (l1 ++ l2) (is1 ++ is2) ∧
    extends bb (l1 ++ x :: l2) w w' ∧ w_draw w' = w_draw w.
Proof.
  intros Hok [(b & Hb & Hr) HF] Hlen.
  destruct (delete_at _ _ _ _ _ Hr) as (h' & b' & Hdel & Hr').
  destruct (delete_keeps _ _ _ _ _ _ _ Hr Hdel) as (Hins & Hfr & Hmeta).
  unfold delete_m, block_op. rewrite Hb. cbn [from_option mbind result_bind]. rewrite Hdel.
  eexists. split; [reflexivity|]. split; [split|split; [split|done]]; cbn.
  - exists b'. by rewrite lookup_insert_eq.
  - apply Forall2_app_inv in HF as [HF1 HF2]; [|done]. apply Forall2_cons in HF2 as [_ HF2].
    assert (∀ y, n_inst <$> h' !! y = n_inst <$> w_heap w !! y) as Hi by (intros y; by rewrite (Hins y)).
    apply Forall2_app; (eapply Forall2_impl_in; [eassumption|]); intros y k _ Hk; by rewrite Hi.
  - intros y Hy. pose proof (Hins y) as H. rewrite Hok in H by done. cbn in *.
    by destruct (h' !! y).
  - lia.
  - intros y Hy _. by apply Hfr.
  - intros y Hy. by rewrite lookup_insert_ne.
  - intros b0 Hb0. rewrite Hb in Hb0. injection Hb0 as <-. exists b'. by rewrite lookup_insert_eq.
Qed.

(** ** X86SandboxPass: memory accesses *)

Section sandbox.
Context (conf : gen_conf).

(** An explicit memory operand is masked and rebased to R14. *)
Lemma sandbox_explicit_ok w bb l1 x l2 is1 i is2 m :
  heap_ok w → contents w bb (l1 ++ x :: l2) (is1 ++ i :: is2) → length l1 = length is1 →
  get_implicit_mem_operands i = [] → get_mem_operands i = [m] →
  ∃ w' l1', sandbox_memory_access conf x bb w = Ok (tt, w') ∧
    contents w' bb (l1' ++ x :: l2)
      (is1 ++ apply_mask conf m ::
       set_operands i (set_first_mem ("R14 + " +:+ op_value m) (i_operands i)) :: is2) ∧
    length l1' = S (length is1) ∧ extends bb (l1 ++ x :: l2) w w'.
Proof.
  intros Hok Hc Hlen Himp Hm. unfold sandbox_memory_access.
  rewrite (bindM_eq _ _ w i w) by (by eapply the_inst_contents). rewrite Himp, Hm.
  destruct (instrument_before_ok w bb l1 x l2 is1 i is2 (apply_mask conf m) Hok Hc Hlen)
    as (w1 & H1 & Hc1 & He1 & _).
  rewrite (bindM_eq _ _ w tt w1 H1).
  assert (contents w1 bb ((l1 ++ [w_next_inst w]) ++ x :: l2)
            ((is1 ++ [apply_mask conf m]) ++ i :: is2)) as Hc1' by (by rewrite <- !app_assoc).
  assert (length (l1 ++ [w_next_inst w]) = length (is1 ++ [apply_mask conf m])) as Hlen1
    by (rewrite !length_app; cbn; lia).
  rewrite (bindM_eq _ _ w1 i w1) by (by eapply the_inst_contents).
  destruct (put_inst_ok w1 bb _ x l2 _ i is2
    (set_operands i (set_first_mem ("R14 + " +:+ op_value m) (i_operands i)))
    (ext_ok _ _ _ _ He1) Hc1' Hlen1) as (w2 & H2 & Hc2 & He2 & _).
  exists w2, (l1 ++ [w_next_inst w]). split; [exact H2|]. split.
  - rewrite <- (app_assoc l1), <- (app_assoc is1) in Hc2. rewrite <- app_assoc. exact Hc2.
  - split; [rewrite length_app; cbn; lia|].
    eapply extends_trans; [exact He1|exact He2|]. intros y. rewrite !elem_of_app, !elem_of_cons, elem_of_nil.
    intros Hy. destruct (decide (y = w_next_inst w)); [right; lia|left; tauto].
Qed.

(** An implicit memory operand: the address register is masked and rebased. *)
Lemma sandbox_implicit_ok w bb l1 x l2 is1 i is2 m :
  heap_ok w → contents w bb (l1 ++ x :: l2) (is1 ++ i :: is2) → length l1 = length is1 →
  get_implicit_mem_operands i = [m] →
  ∃ w' l1', sandbox_memory_access conf x bb w = Ok (tt, w') ∧
    contents w' bb (l1' ++ x :: l2) (is1 ++ apply_mask conf m :: add_base m :: i :: is2) ∧
    length l1' = S (S (length is1)) ∧ extends bb (l1 ++ x :: l2) w w'.
Proof.
  intros Hok Hc Hlen Himp. unfold sandbox_memory_access.
  rewrite (bindM_eq _ _ w i w) by (by eapply the_inst_contents). rewrite Himp.
  destruct (instrument_before_ok w bb l1 x l2 is1 i is2 (apply_mask conf m) Hok Hc Hlen)
    as (w1 & H1 & Hc1 & He1 & _).
  rewrite (bindM_eq _ _ w tt w1 H1).
  assert (contents w1 bb ((l1 ++ [w_next_inst w]) ++ x :: l2)
            ((is1 ++ [apply_mask conf m]) ++ i :: is2)) as Hc1' by (by rewrite <- !app_assoc).
  assert (length (l1 ++ [w_next_inst w]) = length (is1 ++ [apply_mask conf m])) as Hlen1
    by (rewrite !length_app; cbn; lia).
  destruct (instrument_before_ok w1 bb _ x l2 _ i is2 (add_base m) (ext_ok _ _ _ _ He1) Hc1' Hlen1)
    as (w2 & H2 & Hc2 & He2 & _).
  exists w2, (l1 ++ [w_next_inst w; w_next_inst w1]). split; [exact H2|]. split.
  - rewrite <- (app_assoc l1), <- (app_assoc is1) in Hc2. rewrite <- app_assoc. exact Hc2.
  - split; [rewrite length_app; cbn; lia|].
    eapply extends_trans; [exact He1|exact He2|]. intros y. rewrite !elem_of_app, !elem_of_cons, elem_of_nil.
    intros Hy. destruct (decide (y = w_next_inst w)); [right; lia|left; tauto].
Qed.
End sandbox.

(** ** The mask *)

(** The value of a ["0b..."] literal. *)
Fixpoint bits_value (s : string) (acc : Z) : Z :=
  match s with
  | EmptyString => acc
  | String c s => bits_value s (2 * acc + (if Ascii.eqb c "1" then 1 else 0))
  end.
Definition int2 (s : string) : Z := bits_value (String.substring 2 (String.length s) s) 0.

Lemma bits_value_app s t acc : bits_value (s +:+ t) acc = bits_value t (bits_value s acc).
Proof. revert acc. induction s as [|c s IH]; intros acc; [done|]. exact (IH _). Qed.
Lemma bits_value_ones n acc : bits_value (repeat_char "1" n) acc = acc * 2 ^ Z.of_nat n + Z.ones (Z.of_nat n).
Proof.
  revert acc. induction n as [|n IH]; intros acc.
  { cbn [repeat_char bits_value]. change (Z.of_nat 0) with 0. change (Z.ones 0) with 0. lia. }
  cbn [repeat_char bits_value]. rewrite IH. rewrite !Z.ones_equiv, Nat2Z.inj_succ, Z.pow_succ_r by lia.
  cbn [Ascii.eqb Bool.eqb]. change (Ascii.eqb "1" "1") with true. lia.
Qed.
Lemma bits_value_zeros n acc : bits_value (repeat_char "0" n) acc = acc * 2 ^ Z.of_nat n.
Proof.
  revert acc. induction n as [|n IH]; intros acc.
  { cbn [repeat_char bits_value]. change (Z.of_nat 0) with 0. change (Z.ones 0) with 0. lia. }
  cbn [repeat_char bits_value]. rewrite IH. rewrite Nat2Z.inj_succ, Z.pow_succ_r by lia.
  change (Ascii.eqb "0" "1") with false. lia.
Qed.
Lemma substring_full s m : (String.length s ≤ m)%nat → String.substring 0 m s = s.
Proof.
  revert m. induction s as [|c s IH]; intros [|m] H; cbn in *; try done; try lia.
  by rewrite IH by lia.
Qed.

Lemma mask_value size z : 0 ≤ z ≤ Z.log2 size →
  int2 (sandbox_address_mask size z) = Z.ones (Z.log2 size - z) * 2 ^ z.
Proof.
  intros Hz. unfold int2, sandbox_address_mask.
  set (s := repeat_char "1" _ +:+ repeat_char "0" _).
  change ("0b" +:+ s) with (String "0" (String "b" s)). cbn [String.substring].
  rewrite substring_full by (cbn; lia). unfold s.
  rewrite bits_value_app, bits_value_zeros, bits_value_ones, !Z2Nat.id by lia. lia.
Qed.

(** C24: the sandbox mask.  For a main region of [2^k] bytes, masking any register
    value yields an offset inside the region that is a multiple of
    [2^memory_access_zeroed_bits], and leaves offsets of that form alone. *)
Theorem sandbox_mask_confines k z address :
  0 ≤ z ≤ k →
  let offset := Z.land address (int2 (sandbox_address_mask (2 ^ k) z)) in
  0 ≤ offset < 2 ^ k ∧ offset mod 2 ^ z = 0 ∧
  (0 ≤ address < 2 ^ k → address mod 2 ^ z = 0 → offset = address).
Proof.
  intros Hz. cbn zeta. rewrite mask_value by (rewrite Z.log2_pow2; lia).
  rewrite Z.log2_pow2 by lia. rewrite <- Z.shiftl_mul_pow2 by lia.
  assert (Z.land address (Z.shiftl (Z.ones (k - z)) z)
          = Z.shiftl (Z.land (Z.shiftr address z) (Z.ones (k - z))) z) as E.
  { apply Z.bits_inj'. intros n Hn.
    rewrite Z.land_spec, !Z.shiftl_spec by lia. destruct (Z.ltb_spec n z).
    - rewrite !(Z.testbit_neg_r _ (n - z)) by lia. apply andb_false_r.
    - rewrite Z.land_spec, Z.shiftr_spec by lia. by replace (n - z + z) with n by lia. }
  rewrite E, Z.land_ones, Z.shiftl_mul_pow2, Z.shiftr_div_pow2 by lia.
  pose proof (Z.mod_pos_bound (address / 2 ^ z) (2 ^ (k - z)) ltac:(lia)) as Hb.
  assert (2 ^ k = 2 ^ (k - z) * 2 ^ z) as Hk by (rewrite <- Z.pow_add_r by lia; f_equal; lia).
  assert (0 < 2 ^ z) by lia. split_and!.
  - nia.
  - nia.
  - apply Z.mod_mul. lia.
  - intros Ha Hm. rewrite Z.mod_small.
    + pose proof (Z.div_mod address (2 ^ z)). lia.
    + split; [apply Z.div_pos; lia|]. apply Z.div_lt_upper_bound; [lia|]. lia.
Qed.

Lemma sandbox_mask_confines_witness :
  int2 (sandbox_address_mask (2 ^ 12) 3) = 4088 ∧
  let offset := Z.land 0x12345fff (int2 (sandbox_address_mask (2 ^ 12) 3)) in
  0 ≤ offset < 2 ^ 12 ∧ offset mod 2 ^ 3 = 0 ∧
  (0 ≤ 0x12345fff < 2 ^ 12 → 0x12345fff mod 2 ^ 3 = 0 → offset = 0x12345fff).
Proof. split; [reflexivity|]. apply (sandbox_mask_confines 12 3 0x12345fff). lia. Defined.

(** sandboxing a memory access.  An instruction with one explicit memory
    operand gets a mask of its address register in front and its operand rebased
    to R14; one with an implicit memory operand gets the mask and the addition of
    R14; one without memory operands is refused.  The rest of the block is
    unchanged. *)
Theorem sandbox_memory_access_spec conf w bb l1 x l2 is1 i is2 :
  heap_ok w → contents w bb (l1 ++ x :: l2) (is1 ++ i :: is2) → length l1 = length is1 →
  (∀ m, get_implicit_mem_operands i = [] → get_mem_operands i = [m] →
     ∃ w' l', sandbox_memory_access conf x bb w = Ok (tt, w') ∧
       contents w' bb l' (is1 ++ apply_mask conf m ::
         set_operands i (set_first_mem ("R14 + " +:+ op_value m) (i_operands i)) :: is2)) ∧
  (∀ m, get_implicit_mem_operands i = [m] →
     ∃ w' l', sandbox_memory_access conf x bb w = Ok (tt, w') ∧
       contents w' bb l' (is1 ++ apply_mask conf m :: add_base m :: i :: is2)) ∧
  (get_mem_operands i = [] → sandbox_memory_access conf x bb w = Raise GeneratorException).
Proof.
  intros Hok Hc Hlen. split_and!.
  - intros m Himp Hm.
    destruct (sandbox_explicit_ok conf w bb l1 x l2 is1 i is2 m Hok Hc Hlen Himp Hm)
      as (w' & l1' & H & Hc' & _). eauto.
  - intros m Himp.
    destruct (sandbox_implicit_ok conf w bb l1 x l2 is1 i is2 m Hok Hc Hlen Himp)
      as (w' & l1' & H & Hc' & _). eauto.
  - intros Hm. unfold sandbox_memory_access.
    rewrite (bindM_eq _ _ w i w) by (by eapply the_inst_contents).
    assert (get_implicit_mem_operands i = []) as ->; [|by rewrite Hm].
    unfold get_mem_operands in Hm. by apply app_eq_nil in Hm as [_ ?].
Qed.

Lemma sandbox_memory_access_spec_witness :
  let m := MemoryOperand "RAX" 64 true false in
  let i := mkInstruction "MOV" [RegisterOperand "RBX" 64 false true; m] [] "" false false None in
  ∃ w' l', sandbox_memory_access demo_conf 0 0 (one_block i) = Ok (tt, w') ∧
    contents w' 0 l' ([] ++ apply_mask demo_conf m ::
      set_operands i [RegisterOperand "RBX" 64 false true; MemoryOperand "R14 + RAX" 64 true false] :: []).
Proof.
  intros m i. destruct (one_block_ok i) as [Hok Hc].
  apply (proj1 (sandbox_memory_access_spec demo_conf (one_block i) 0 [] 0%nat [] [] i [] Hok Hc eq_refl) m);
    reflexivity.
Defined.

(** ** X86SandboxPass: divisions *)

Definition or_one (d : Operand) : Instruction := instr "OR" [d; new_ImmediateOperand "1" 8].

(** The instrumentation of a 16- or 32-bit division by [d]. *)
Definition halve_dividend (reg : string) (d : Operand) : list Instruction :=
  [instr "AND" [new_RegisterOperand reg (op_width d) false true; d];
   instr "SHR" [new_RegisterOperand reg (op_width d) false true; new_ImmediateOperand "1" 8]].

Definition divisor_in_D (d : Operand) : bool :=
  mem (op_value d) ["RDX"; "EDX"; "DX"; "DH"; "DL"] || str_in "RDX" (op_value d).

(** Instrumenting in front of [x], with the lists reassociated. *)
Lemma instrument_front w bb l1 x l2 is1 i is2 j :
  heap_ok w → contents w bb (l1 ++ x :: l2) (is1 ++ i :: is2) → length l1 = length is1 →
  ∃ w' l1', instrument_before bb x j w = Ok (tt, w') ∧ heap_ok w' ∧
    contents w' bb (l1' ++ x :: l2) ((is1 ++ [j]) ++ i :: is2) ∧ length l1' = length (is1 ++ [j]) ∧
    w_draw w' = w_draw w.
Proof.
  intros Hok Hc Hlen.
  destruct (instrument_before_ok w bb l1 x l2 is1 i is2 j Hok Hc Hlen) as (w1 & H1 & Hc1 & He1 & Hd).
  exists w1, (l1 ++ [w_next_inst w]). split_and!; [done|apply He1| | |done].
  - by rewrite <- (app_assoc l1), <- (app_assoc is1).
  - rewrite !length_app. cbn. lia.
Qed.

(** sandboxing a division.  A 16- or 32-bit division whose divisor does not
    involve RDX gets [OR d, 1; AND D, d; SHR D, 1] in front; a 64-bit division, or
    one whose divisor involves RDX, is deleted behind its [OR]; an 8-bit division
    not by RAX gets [OR d, 1; MOV AX, 1]. *)
Theorem sandbox_division_spec w bb l1 x l2 is1 i is2 d ops :
  heap_ok w → contents w bb (l1 ++ x :: l2) (is1 ++ i :: is2) → length l1 = length is1 →
  i_operands i = d :: ops → op_width d ∈ [8; 16; 32; 64] →
  ∃ w' l', sandbox_division x bb w = Ok (tt, w') ∧
    contents w' bb l' (is1 ++ or_one d ::
      (if op_width d =? 8 then
         if str_in "RAX" (op_value d) then is2
         else instr "MOV" [new_RegisterOperand "AX" 16 false true; new_ImmediateOperand "1" 16] :: i :: is2
       else if (op_width d =? 64) || divisor_in_D d then is2
       else halve_dividend (if op_width d =? 32 then "EDX" else "DX") d ++ i :: is2)).
Proof.
  intros Hok Hc Hlen Hops Hw. unfold sandbox_division.
  rewrite (bindM_eq _ _ w i w) by (by eapply the_inst_contents). rewrite Hops. cbn [head from_option].
  rewrite (bindM_eq _ _ w d w) by done.
  destruct (instrument_front w bb l1 x l2 is1 i is2 (or_one d) Hok Hc Hlen)
    as (w1 & l1' & H1 & Hok1 & Hc1 & Hlen1 & _).
  unfold or_one in H1. rewrite (bindM_eq _ _ w tt w1 H1). fold (or_one d) in *.
  assert (∃ w' l', delete_m bb x w1 = Ok (tt, w') ∧ contents w' bb l' (is1 ++ or_one d :: is2)) as Hdel.
  { destruct (delete_m_ok w1 bb l1' x l2 _ i is2 Hok1 Hc1 Hlen1) as (w2 & H2 & Hc2 & _).
    rewrite <- (app_assoc is1) in Hc2. eauto. }
  destruct (op_width d =? 8) eqn:E8.
  - destruct (str_in "RAX" (op_value d)); cbn [negb]; [exact Hdel|].
    destruct (instrument_front w1 bb l1' x l2 _ i is2
      (instr "MOV" [new_RegisterOperand "AX" 16 false true; new_ImmediateOperand "1" 16]) Hok1 Hc1 Hlen1)
      as (w2 & l2' & H2 & _ & Hc2 & _).
    rewrite <- !(app_assoc is1) in Hc2. eauto.
  - destruct (op_width d =? 64) eqn:E64; cbn [orb]; [exact Hdel|].
    unfold divisor_in_D. destruct (mem _ _ || str_in _ _); [exact Hdel|].
    assert (op_width d = 16 ∨ op_width d = 32) as Hw'.
    { rewrite !elem_of_cons, elem_of_nil in Hw. lia. }
    set (reg := if op_width d =? 32 then "EDX" else "DX").
    assert ((if op_width d =? 32 then Some "EDX" else if op_width d =? 16 then Some "DX" else None)
            = Some reg) as -> by (unfold reg; destruct Hw' as [-> | ->]; reflexivity).
    rewrite (bindM_eq _ _ w1 reg w1) by done.
    destruct (instrument_front w1 bb l1' x l2 _ i is2
      (instr "AND" [new_RegisterOperand reg (op_width d) false true; d]) Hok1 Hc1 Hlen1)
      as (w2 & l2' & H2 & Hok2 & Hc2 & Hlen2 & _).
    rewrite (bindM_eq _ _ w1 tt w2 H2).
    destruct (instrument_front w2 bb l2' x l2 _ i is2
      (instr "SHR" [new_RegisterOperand reg (op_width d) false true; new_ImmediateOperand "1" 8])
      Hok2 Hc2 Hlen2) as (w3 & l3' & H3 & _ & Hc3 & _).
    rewrite <- !(app_assoc is1) in Hc3. eauto.
Qed.

Lemma sandbox_division_spec_witness :
  let d := RegisterOperand "EBX" 32 true false in
  let i := mkInstruction "DIV" [d] [] "" false false None in
  ∃ w' l', sandbox_division 0 0 (one_block i) = Ok (tt, w') ∧
    contents w' 0 l' ([] ++ or_one d :: halve_dividend "EDX" d ++ [i]).
Proof.
  intros d i. destruct (one_block_ok i) as [Hok Hc].
  apply (sandbox_division_spec (one_block i) 0 [] 0%nat [] [] i [] d [] Hok Hc eq_refl); [reflexivity|].
  cbn. set_solver.
Defined.

(** ** X86SandboxPass: bit tests *)

(** the bit-test case that should give up is unreachable.  The memory
    instrumentation has already rewritten the address operand to [R14 + reg], so a
    bit test whose offset is the register of its address is masked, not deleted. *)
Theorem bit_test_same_register_masked draws w bb l1 x l2 is1 i is2 reg wa sa da wo so d_o ops :
  heap_ok w → contents w bb (l1 ++ x :: l2)
    (is1 ++ set_operands i (set_first_mem ("R14 + " +:+ reg)
              (MemoryOperand reg wa sa da :: RegisterOperand reg wo so d_o :: ops)) :: is2) →
  length l1 = length is1 →
  ∃ w' l', sandbox_bit_test draws x bb w = Ok (tt, w') ∧
    contents w' bb l' (is1 ++ instr "AND" [RegisterOperand reg wo so d_o; new_ImmediateOperand mask_3bits 8] ::
      set_operands i (MemoryOperand ("R14 + " +:+ reg) wa sa da :: RegisterOperand reg wo so d_o :: ops) :: is2).
Proof.
  intros Hok Hc Hlen.
  change (set_first_mem ("R14 + " +:+ reg) (MemoryOperand reg wa sa da :: RegisterOperand reg wo so d_o :: ops))
    with (MemoryOperand ("R14 + " +:+ reg) wa sa da :: RegisterOperand reg wo so d_o :: ops) in Hc.
  unfold sandbox_bit_test. set (i' := set_operands i _) in *.
  rewrite (bindM_eq _ _ w i' w) by (by eapply the_inst_contents).
  cbn [i_operands i' set_operands head from_option].
  rewrite (bindM_eq _ _ w (MemoryOperand ("R14 + " +:+ reg) wa sa da) w) by done.
  change (is_reg (MemoryOperand ("R14 + " +:+ reg) wa sa da)) with false. cbn match.
  rewrite (bindM_eq _ _ w (RegisterOperand reg wo so d_o) w) by done. cbn [op_value].
  rewrite bool_decide_true.
  2:{ intros E. apply (f_equal String.length) in E.
    change (6 + String.length reg = String.length reg)%nat in E. lia. }
  destruct (instrument_front w bb l1 x l2 is1 i' is2
    (instr "AND" [RegisterOperand reg wo so d_o; new_ImmediateOperand mask_3bits 8]) Hok Hc Hlen)
    as (w1 & l1' & H1 & _ & Hc1 & _).
  rewrite <- (app_assoc is1) in Hc1. eauto.
Qed.

Lemma bit_test_same_register_masked_witness :
  let i := new_Instruction "BT" false "" false in
  let i' := set_operands i [MemoryOperand "R14 + RAX" 64 true true; RegisterOperand "RAX" 64 true false] in
  ∃ w' l', sandbox_bit_test (λ _, 0) 0 0 (one_block i') = Ok (tt, w') ∧
    contents w' 0 l' ([] ++ instr "AND" [RegisterOperand "RAX" 64 true false; new_ImmediateOperand mask_3bits 8] ::
      [i']).
Proof.
  intros i i'. destruct (one_block_ok i') as [Hok Hc].
  apply (bit_test_same_register_masked (λ _, 0) (one_block i') 0 [] 0%nat [] [] i [] "RAX" 64 true true 64
           true false [] Hok Hc eq_refl).
Defined.
