(* ===== verification/Division.v ===== *)
(** * Sandboxed divisions do not fault

    What [X86SandboxPass.sandbox_division] leaves in a block in place of a division, run on
    the machine of [Machine.v]. *)

From S2P Require Import Prelude.
From S2P Require Import Isa.
From S2P Require Import Registers.
From S2P Require Import Machine.
From S2P Require Import BasicBlock.
From S2P Require Import Generator.
From S2P Require Import GeneratorFacts.
From S2P Require Import Passes.
From S2P Require Import PassesFacts.

Open Scope Z_scope.

(** ** Divisors *)

Definition gprs : list string :=
  ["RAX"; "RBX"; "RCX"; "RDX"; "RSI"; "RDI"; "RSP"; "RBP"; "R8"; "R9"; "R10"; "R11"; "R12"; "R13"; "R14"; "R15"].

(** The operand of a division when it is sandboxed: a part of a general-purpose register,
    or memory at the address the memory instrumentation has left, [R14] plus a register. *)
Definition divisor (o : Operand) : bool :=
  mem (op_width o) [8; 16; 32; 64] &&
  match o with
  | RegisterOperand r w _ _ =>
      match view_of r with Some (b, _, width) => (width =? w) && mem b gprs | None => false end
  | MemoryOperand s _ _ _ => mem s (String.append "R14 + " <$> gprs)
  | _ => false
  end.

(** The registers an operand's value depends on, and what a write to it changes. *)
Definition operand_bases (o : Operand) : list string :=
  match o with
  | RegisterOperand r _ _ _ => [base_of r]
  | MemoryOperand s _ _ _ => base_of <$> address_registers s
  | _ => []
  end.
Definition written (o : Operand) : list string :=
  match o with RegisterOperand r _ _ _ => [base_of r] | _ => [] end.
Definition footprint (σ : machine) (o : Operand) (b : Z) : Prop :=
  match o with
  | MemoryOperand s w _ _ => offset (address s σ) b < Z.of_nat (bytes_of w)
  | _ => False
  end.

(** Only the division's own registers, the flags and the divisor differ. *)
Definition leaves (d : Operand) (σ σ' : machine) : Prop :=
  (∀ x, x ∉ "RAX" :: "RDX" :: "EFLAGS" :: written d → m_regs σ' x = m_regs σ x) ∧
  (∀ b, ¬ footprint σ d b → m_mem σ' b = m_mem σ b).

Lemma width_cases w : mem w [8; 16; 32; 64] = true → w = 8 ∨ w = 16 ∨ w = 32 ∨ w = 64.
Proof. intros H%mem_spec. rewrite !elem_of_cons, elem_of_nil in H. tauto. Qed.
Lemma bytes_of_width w : mem w [8; 16; 32; 64] = true → 256 ^ Z.of_nat (bytes_of w) = 2 ^ w ∧ Z.of_nat (bytes_of w) ≤ 8.
Proof. intros [-> |[-> |[-> | ->]]]%width_cases; by vm_compute. Qed.

Lemma divisor_cases d : divisor d = true →
  ∃ w, mem w [8; 16; 32; 64] = true ∧
  ((∃ r s e b low, d = RegisterOperand r w s e ∧ view_of r = Some (b, low, w) ∧ b ∈ gprs) ∨
   (∃ r s e, d = MemoryOperand ("R14 + " +:+ r) w s e ∧ r ∈ gprs)).
Proof.
  intros [Hw H]%andb_true_iff. exists (op_width d). split; [done|]. destruct d as [r w s e|v w s e| | | |]; try done; cbn [op_width] in *.
  - destruct (view_of r) as [[[b low] width]|] eqn:E; [|done]. apply andb_true_iff in H as [->%Z.eqb_eq Hb%mem_spec].
    left. by exists r, s, e, b, low.
  - apply mem_spec, list_elem_of_fmap in H as (r & -> & Hr). right. by exists r, s, e.
Qed.

(** The registers of a sandboxed address. *)
Lemma address_bases (P : string → string → bool) r b :
  forallb (λ r, forallb (P r) (base_of <$> address_registers ("R14 + " +:+ r))) gprs = true →
  r ∈ gprs → b ∈ base_of <$> address_registers ("R14 + " +:+ r) → P r b = true.
Proof.
  intros H Hr Hb. rewrite forallb_forall in H. specialize (H r). rewrite forallb_forall in H.
  apply H; by apply list_elem_of_In.
Qed.

Lemma divisor_bases d b : divisor d = true → b ∈ operand_bases d → b ∈ gprs.
Proof.
  intros (w & _ & [(r & s & e & b' & low & -> & Hv & Hb)|(r & s & e & -> & Hr)])%divisor_cases; cbn [operand_bases].
  - unfold base_of. rewrite Hv. by intros ->%list_elem_of_singleton.
  - intros Hb. apply mem_spec. revert Hr Hb. apply (address_bases (λ _ b, mem b gprs)). vm_compute. reflexivity.
Qed.

Lemma divisor_flags d : divisor d = true → "EFLAGS" ∉ operand_bases d.
Proof. intros Hd H%divisor_bases; [|done]. revert H. in_notin. Qed.

(** The test on the text of the operand finds every divisor that depends on RDX. *)
Lemma divisor_not_D d :
  divisor d = true → op_width d ≠ 8 → divisor_in_D d = false → "RDX" ∉ operand_bases d.
Proof.
  intros (w & _ & [(r & s & e & b & low & -> & Hv & Hb)|(r & s & e & -> & Hr)])%divisor_cases Hw HD; unfold divisor_in_D in *;
    cbn [operand_bases op_width op_value] in *; intros Hin.
  - unfold base_of in Hin. rewrite Hv in Hin. apply list_elem_of_singleton in Hin as <-.
    apply (view_of_all (λ r v, let '(b, _, width) := v in
      negb (b =? "RDX")%string || (width =? 8) || mem r ["RDX"; "EDX"; "DX"; "DH"; "DL"])) in Hv;
      [|vm_compute; reflexivity].
    cbn [String.eqb] in Hv. apply orb_false_iff in HD as [HD _]. rewrite HD, orb_false_r in Hv.
    apply orb_true_iff in Hv as [Hv|Hv]; [by vm_compute in Hv|lia].
  - apply orb_false_iff in HD as [_ HD].
    pose proof (address_bases (λ r b, negb (b =? "RDX")%string || str_in "RDX" ("R14 + " +:+ r)) r "RDX"
      ltac:(vm_compute; reflexivity) Hr Hin) as H.
    cbn beta in H. rewrite HD in H. by vm_compute in H.
Qed.
Lemma divisor_not_A d :
  divisor d = true → is_reg d = false → str_in "RAX" (op_value d) = false → "RAX" ∉ operand_bases d.
Proof.
  intros (w & _ & [(r & s & e & b & low & -> & Hv & Hb)|(r & s & e & -> & Hr)])%divisor_cases Hw HD; unfold divisor_in_D in *;
    cbn [operand_bases op_width op_value] in *; intros Hin; [by vm_compute in Hw|].
  pose proof (address_bases (λ r b, negb (b =? "RAX")%string || str_in "RAX" ("R14 + " +:+ r)) r "RAX"
    ltac:(vm_compute; reflexivity) Hr Hin) as H.
  cbn beta in H. rewrite HD in H. by vm_compute in H.
Qed.

(** ** Reading and writing a divisor *)

Lemma address_write s r v σ :
  base_of r ∉ base_of <$> address_registers s → address s (write_reg r v σ) = address s σ.
Proof.
  intros H. unfold address. do 2 f_equal. apply list_fmap_ext. intros i x Hx. apply read_write_ne.
  intros E. apply H. rewrite <- E. apply list_elem_of_fmap. exists x. split; [done|]. by eapply list_elem_of_lookup_2.
Qed.

Lemma get_write d r v σ :
  base_of r ∉ operand_bases d → get_operand (write_reg r v σ) d = get_operand σ d.
Proof.
  intros H. destruct d; cbn in *; [|by rewrite address_write|done..].
  f_equal. apply read_write_ne. intros E. apply H. rewrite E. by left.
Qed.
Lemma footprint_write d r v σ b :
  base_of r ∉ operand_bases d → footprint (write_reg r v σ) d b ↔ footprint σ d b.
Proof. intros H. destruct d; cbn in *; try done. by rewrite address_write. Qed.

Lemma get_divisor d σ : divisor d = true → ∃ v, get_operand σ d = Some v ∧ 0 ≤ v < 2 ^ op_width d.
Proof.
  intros (w & Hw & [(r & s & e & b & low & -> & Hv & _)|(r & s & e & -> & _)])%divisor_cases; cbn [get_operand op_width];
    eexists; (split; [reflexivity|]).
  - by eapply read_range.
  - destruct (bytes_of_width _ Hw) as [<- _]. apply load_range.
Qed.

(** A write to the divisor is read back, and changes nothing else. *)
Lemma put_divisor d v σ : divisor d = true →
  ∃ σ', put_operand d v σ = Some σ' ∧ get_operand σ' d = Some (v mod 2 ^ op_width d) ∧
    (∀ x, x ∉ written d → m_regs σ' x = m_regs σ x) ∧
    (∀ b, ¬ footprint σ d b → m_mem σ' b = m_mem σ b) ∧ (∀ b, footprint σ' d b ↔ footprint σ d b).
Proof.
  intros (w & Hw & [(r & s & e & b & low & -> & Hv & _)|(r & s & e & -> & _)])%divisor_cases; cbn [put_operand];
    eexists; (split; [reflexivity|]); cbn [get_operand written footprint op_width m_mem m_regs].
  - split_and!; [f_equal; by eapply read_write_same| |done|done].
    intros x Hx. apply regs_write_ne. intros ->. apply Hx. by left.
  - destruct (bytes_of_width _ Hw) as [<- H8]. split_and!; [|done| |done].
    + f_equal. apply load_store. lia.
    + intros b. apply store_outside.
Qed.

(** ** The steps of the instrumentation *)

Lemma leaves_trans d σ1 σ2 σ3 :
  leaves d σ1 σ2 → (∀ b, footprint σ2 d b ↔ footprint σ1 d b) → leaves d σ2 σ3 → leaves d σ1 σ3.
Proof.
  intros [R1 M1] F [R2 M2]. split.
  - intros x Hx. by rewrite R2, R1.
  - intros b Hb. rewrite M2 by (by rewrite F). by apply M1.
Qed.
Lemma leaves_write d r v σ : base_of r ∈ ["RAX"; "RDX"; "EFLAGS"] → leaves d σ (write_reg r v σ).
Proof.
  intros Hr. split; [|done]. intros x Hx. apply regs_write_ne. intros ->. apply Hx.
  change (base_of r ∈ ["RAX"; "RDX"; "EFLAGS"] ++ written d). apply elem_of_app. by left.
Qed.

Section steps.
Context (flags : Instruction → machine → Z).

Lemma steps_app l1 l2 σ : steps flags (l1 ++ l2) σ = σ' ← steps flags l1 σ; steps flags l2 σ'.
Proof.
  revert σ. induction l1 as [|i l1 IH]; intros σ; [done|]. cbn [steps app].
  destruct (step flags i σ); cbn; [apply IH|done].
Qed.

(** The divisor after [OR d, 1]. *)
Lemma or_step d σ : divisor d = true →
  ∃ σ' v, step flags (or_one d) σ = Some σ' ∧ get_operand σ' d = Some v ∧ 0 < v < 2 ^ op_width d ∧
    leaves d σ σ' ∧ (∀ b, footprint σ' d b ↔ footprint σ d b).
Proof.
  intros Hd. destruct (get_divisor d σ Hd) as (v & Hv & Hr).
  destruct (put_divisor d (Z.lor v 1) σ Hd) as (σ1 & H1 & G1 & R1 & M1 & F1).
  pose proof (divisor_flags d Hd) as Hf. change "EFLAGS" with (base_of "EFLAGS") in Hf.
  assert (0 < Z.lor v 1 < 2 ^ op_width d) as Hb.
  { assert (0 ≤ Z.lor v 1) by (apply Z.lor_nonneg; lia).
    assert (Z.lor v 1 ≠ 0) as Hne.
    { intros E. apply (f_equal (λ z, Z.testbit z 0)) in E. rewrite Z.lor_spec, orb_comm in E. discriminate E. }
    split; [lia|]. destruct (decide (v = 0)) as [->|]; [cbn; apply (Z.pow_gt_1 2); [lia|]|].
    - apply divisor_cases in Hd as (w & Hw & Hd). apply width_cases in Hw.
      destruct Hd as [(?&?&?&?&?&->&_)|(?&?&?&->&_)]; cbn [op_width]; lia.
    - apply Z.log2_lt_pow2; [lia|]. rewrite Z.log2_lor by lia.
      apply Z.max_lub_lt; [apply Z.log2_lt_pow2; lia|]. apply (Z.le_lt_trans _ (Z.log2 v)); [apply Z.log2_nonneg|].
      apply Z.log2_lt_pow2; lia. }
  exists (write_reg "EFLAGS" (flags (or_one d) σ) σ1), (Z.lor v 1). split_and!; try lia.
  - unfold step, or_one, instr. cbn [i_operands set_operands new_Instruction]. rewrite Hv. cbn [mbind option_bind].
    change (get_operand σ (new_ImmediateOperand "1" 8)) with (Some 1). cbn [mbind option_bind].
    change (alu _ (op_width d) v 1) with (Some (Z.lor v 1)). cbn [mbind option_bind]. by rewrite H1.
  - rewrite get_write by done. rewrite G1. f_equal. apply Z.mod_small. lia.
  - apply (leaves_trans _ _ σ1); [|done|apply leaves_write; in_list]. split; [|done].
    intros x Hx. apply R1. intros Hin. apply Hx. do 3 right. done.
  - intros b. by rewrite footprint_write.
Qed.

(** A step whose destination is a register of the dividend. *)
Lemma register_step name r w src a b v d x σ :
  get_operand σ (RegisterOperand r w false true) = Some a → get_operand σ src = Some b → alu name w a b = Some v →
  base_of r ∈ ["RAX"; "RDX"] → divisor d = true → base_of r ∉ operand_bases d → get_operand σ d = Some x →
  ∃ σ', step flags (instr name [RegisterOperand r w false true; src]) σ = Some σ' ∧
    σ' = write_reg "EFLAGS" (flags (instr name [RegisterOperand r w false true; src]) σ) (write_reg r v σ) ∧
    get_operand σ' d = Some x ∧ leaves d σ σ' ∧ (∀ b, footprint σ' d b ↔ footprint σ d b).
Proof.
  intros Ha Hb Hv Hr Hd Hnd Hx. eexists. split; [|split; [reflexivity|split_and!]].
  - unfold step. cbn [i_operands instr set_operands new_Instruction i_name op_width].
    rewrite Ha, Hb. cbn [mbind option_bind]. rewrite Hv. done.
  - pose proof (divisor_flags d Hd). by rewrite !get_write.
  - apply (leaves_trans _ _ (write_reg r v σ)).
    + apply leaves_write. change (base_of r ∈ ["RAX"; "RDX"] ++ ["EFLAGS"]). apply elem_of_app. by left.
    + intros c. by rewrite footprint_write.
    + apply leaves_write. in_list.
  - intros c. pose proof (divisor_flags d Hd). by rewrite !footprint_write.
Qed.

(** [D = (D & divisor) >> 1] is below the divisor. *)
Lemma halve_steps d w reg v σ :
  (w, reg) ∈ [(16, "DX"); (32, "EDX")] → op_width d = w → divisor d = true → "RDX" ∉ operand_bases d →
  get_operand σ d = Some v → 0 < v < 2 ^ w →
  ∃ σ', steps flags (halve_dividend reg d) σ = Some σ' ∧ get_operand σ' d = Some v ∧ read_reg reg σ' < v ∧
    leaves d σ σ' ∧ (∀ b, footprint σ' d b ↔ footprint σ d b).
Proof.
  intros Hreg Hw Hd Hnd Hv Hr.
  assert (upper reg = reg ∧ base_of reg = "RDX" ∧ view_of reg = Some ("RDX", 0, w) ∧ 0 < w) as (Hup & Hb & Hview & Hwp).
  { apply elem_of_cons in Hreg as [[= -> ->]|[= -> ->]%list_elem_of_singleton]; done. }
  unfold halve_dividend, new_RegisterOperand. rewrite Hup, Hw. rewrite <- Hb in Hnd.
  destruct (register_step "AND" reg w d (read_reg reg σ) v (Z.land (read_reg reg σ) v) d v σ)
    as (σ1 & S1 & E1 & G1 & L1 & F1); [done..| |done|done|done|]; [rewrite Hb; in_list|].
  set (h := Z.land (read_reg reg σ) v) in *.
  assert (0 ≤ h ≤ v) as Hh by (apply land_nonneg_le; lia).
  assert (read_reg reg σ1 = h) as E1'.
  { rewrite E1, read_write_ne by (rewrite Hb; done). rewrite (read_write_same _ _ _ _ _ _ Hview). apply Z.mod_small. lia. }
  destruct (register_step "SHR" reg w (new_ImmediateOperand "1" 8) h 1 (Z.shiftr h 1) d v σ1)
    as (σ2 & S2 & E2 & G2 & L2 & F2); [cbn; by rewrite E1'|done| |rewrite Hb; in_list|done|done|done|].
  { unfold alu. cbn [String.eqb]. destruct (w =? 64); reflexivity. }
  exists σ2. cbn [steps]. rewrite S1. cbn [mbind option_bind]. rewrite S2. cbn [mbind option_bind].
  split_and!; [done|done| |by eapply leaves_trans|intros b; by rewrite F2].
  rewrite E2, read_write_ne by (rewrite Hb; done). rewrite (read_write_same _ _ _ _ _ _ Hview).
  rewrite Z.shiftr_div_pow2 by lia. change (2 ^ 1) with 2.
  assert (h / 2 < v ∧ 0 ≤ h / 2) as Hq.
  { split; [apply Z.div_lt_upper_bound; lia|apply Z.div_pos; lia]. }
  rewrite Z.mod_small; lia.
Qed.

(** [AX = 1]: the dividend of an 8-bit division, and its divisor when it is AL. *)
Lemma one_step d v σ : divisor d = true → op_width d = 8 → str_in "RAX" (op_value d) = false → op_value d ≠ "AH" →
  get_operand σ d = Some v → 0 < v →
  let i := instr "MOV" [new_RegisterOperand "AX" 16 false true; new_ImmediateOperand "1" 16] in
  ∃ σ' v', step flags i σ = Some σ' ∧ get_operand σ' d = Some v' ∧ 0 < v' ∧ read_reg "AH" σ' = 0 ∧
    leaves d σ σ' ∧ (∀ b, footprint σ' d b ↔ footprint σ d b).
Proof.
  intros Hd Hw HA HAH Hv Hr i. set (σ1 := write_reg "EFLAGS" (flags i σ) (write_reg "AX" 1 σ)).
  assert (step flags i σ = Some σ1) as HS by done.
  assert (∀ b, footprint (write_reg "AX" 1 σ) d b ↔ footprint σ d b) as HF1.
  { intros b. destruct (divisor_cases d Hd) as (w & _ & [(?&?&?&?&?&->&_)|(r&?&?&->&Hrg)]); [done|].
    apply footprint_write. by apply divisor_not_A. }
  assert (∀ b, footprint σ1 d b ↔ footprint σ d b) as HF.
  { intros b. unfold σ1. by rewrite footprint_write by apply divisor_flags, Hd. }
  assert (leaves d σ σ1) as HL.
  { apply (leaves_trans _ _ (write_reg "AX" 1 σ)); [apply leaves_write; in_list|done|apply leaves_write; in_list]. }
  assert (read_reg "AH" σ1 = 0 ∧ read_reg "AL" σ1 = 1) as [HAH0 HAL1].
  { unfold σ1. split; rewrite read_write_ne by done; [by rewrite (read_write_in "AX" "RAX" 0 16 "AH" 8 8)|by rewrite (read_write_in "AX" "RAX" 0 16 "AL" 0 8)]. }
  destruct (decide ("RAX" ∈ operand_bases d)) as [Hin|Hnin].
  - assert (get_operand σ1 d = Some 1) as H1; [|by exists σ1, 1].
    destruct (is_reg d) eqn:Er; [|by apply divisor_not_A in Hin].
    destruct (divisor_cases d Hd) as (w & _ & [(r&s&e&b&low&->&Hview&_)|(r&?&?&->&Hrg)]); [|done].
    cbn [op_width op_value operand_bases get_operand] in *. subst w.
    unfold base_of in Hin. rewrite Hview in Hin. apply list_elem_of_singleton in Hin as <-.
    apply (view_of_all (λ r v, let '(b, _, width) := v in
      negb (b =? "RAX")%string || negb (width =? 8) || mem r ["AL"; "AH"])) in Hview; [|vm_compute; reflexivity].
    cbn [String.eqb Ascii.eqb Bool.eqb Z.eqb Pos.eqb negb orb] in Hview.
    apply mem_spec, elem_of_cons in Hview as [-> | ->%list_elem_of_singleton]; [by f_equal|done].
  - exists σ1, v. split_and!; [done| |done..]. unfold σ1.
    rewrite !get_write by (apply divisor_flags, Hd || done). done.
Qed.

(** A division whose upper half is below the divisor has a quotient that fits. *)
Lemma divide_step i d v high low σ :
  i_operands i = [d] → is_division i = true → mem (op_width d) [8; 16; 32; 64] = true →
  dividend (op_width d) = Some (high, low) → get_operand σ d = Some v → 0 < v → read_reg high σ < v →
  ∃ σ', step flags i σ = Some σ' ∧ leaves d σ σ'.
Proof.
  intros Hi Hn Hw Hdiv Hv Hpos Hlt. unfold step. rewrite Hi. unfold is_division in Hn. rewrite Hn, Hv.
  cbn [mbind option_bind]. unfold divide. rewrite Hdiv. cbn [mbind option_bind].
  assert (0 < op_width d ∧ base_of high ∈ ["RAX"; "RDX"] ∧ base_of low ∈ ["RAX"; "RDX"] ∧
    (∃ bl, view_of low = Some (bl, 0, op_width d)) ∧ ∃ bh l w, view_of high = Some (bh, l, w))
    as (Hwp & Hbh & Hbl & [bl Hl] & bh & l & w & Hh).
  { apply width_cases in Hw as [Hw|[Hw|[Hw|Hw]]]; rewrite Hw in *; injection Hdiv as <- <-;
      split_and!; try lia; (in_list || by do 3 eexists || by eexists). }
  set (n := read_reg high σ * 2 ^ op_width d + read_reg low σ).
  pose proof (read_range _ _ _ _ σ Hl). pose proof (read_range _ _ _ _ σ Hh).
  assert (n / v < 2 ^ op_width d) as Hq by (apply Z.div_lt_upper_bound; [done|nia]).
  rewrite bool_decide_false by lia. rewrite (proj2 (Z.leb_gt _ _) Hq). cbn [orb mbind option_bind].
  eexists. split; [reflexivity|]. split; [|done]. intros x Hx.
  assert (∀ r, base_of r ∈ ["RAX"; "RDX"; "EFLAGS"] → x ≠ base_of r) as Hne.
  { intros r Hr ->. apply Hx. change (base_of r ∈ ["RAX"; "RDX"; "EFLAGS"] ++ written d). apply elem_of_app. by left. }
  assert (∀ r, base_of r ∈ ["RAX"; "RDX"] → x ≠ base_of r) as Hne2.
  { intros r Hr. apply Hne. change (base_of r ∈ ["RAX"; "RDX"] ++ ["EFLAGS"]). apply elem_of_app. by left. }
  rewrite !regs_write_ne; [done|by apply Hne2|by apply Hne2|apply Hne; in_list].
Qed.
End steps.

(** ** The pass *)

(** The divisions that are deleted: of 64 bits, by memory addressed through RAX when the
    dividend is AX, and by a divisor that depends on RDX otherwise. *)
Definition given_up (d : Operand) : bool :=
  if op_width d =? 8 then str_in "RAX" (op_value d) else (op_width d =? 64) || divisor_in_D d.

(** What replaces the division. *)
Definition sandboxed (i : Instruction) (d : Operand) : list Instruction :=
  or_one d ::
  (if op_width d =? 8 then
     if str_in "RAX" (op_value d) then []
     else [instr "MOV" [new_RegisterOperand "AX" 16 false true; new_ImmediateOperand "1" 16]; i]
   else if (op_width d =? 64) || divisor_in_D d then []
   else halve_dividend (if op_width d =? 32 then "EDX" else "DX") d ++ [i]).

Lemma sandboxed_runs flags i d σ :
  i_operands i = [d] → is_division i = true → divisor d = true → op_value d ≠ "AH" →
  ∃ σ', steps flags (sandboxed i d) σ = Some σ' ∧ leaves d σ σ'.
Proof.
  intros Hi Hn Hd HAH. destruct (or_step flags d σ Hd) as (σ1 & v & S1 & G1 & R1 & L1 & F1).
  assert (mem (op_width d) [8; 16; 32; 64] = true) as Hw by (by apply andb_true_iff in Hd as [? _]).
  unfold sandboxed. cbn [steps]. rewrite S1. cbn [mbind option_bind].
  destruct (op_width d =? 8) eqn:E8.
  { destruct (str_in "RAX" (op_value d)) eqn:EA; [by exists σ1|]. apply Z.eqb_eq in E8.
    destruct (one_step flags d v σ1 Hd E8 EA HAH G1 ltac:(lia)) as (σ2 & v2 & S2 & G2 & P2 & H2 & L2 & F2).
    destruct (divide_step flags i d v2 "AH" "AL" σ2) as (σ3 & S3 & L3); [done..|by rewrite E8|done|done|lia|].
    exists σ3. cbn [steps]. rewrite S2. cbn [mbind option_bind]. rewrite S3. split; [done|].
    eapply leaves_trans; [done..|]. by eapply leaves_trans. }
  destruct (op_width d =? 64) eqn:E64; cbn [orb]; [by exists σ1|].
  destruct (divisor_in_D d) eqn:ED; [by exists σ1|].
  set (reg := if op_width d =? 32 then "EDX" else "DX").
  set (low := if op_width d =? 32 then "EAX" else "AX").
  assert ((op_width d, reg) ∈ [(16, "DX"); (32, "EDX")] ∧ dividend (op_width d) = Some (reg, low)) as [Hreg Hdiv].
  { unfold reg, low. assert (op_width d = 16 ∨ op_width d = 32) as [-> | ->] by (apply width_cases in Hw; lia);
      (split; [in_list|reflexivity]). }
  assert ("RDX" ∉ operand_bases d) as HnD by (apply divisor_not_D; [done|lia|done]).
  destruct (halve_steps flags d _ reg v σ1 Hreg eq_refl Hd HnD G1 R1) as (σ2 & S2 & G2 & H2 & L2 & F2).
  destruct (divide_step flags i d v reg low σ2) as (σ3 & S3 & L3); [done..|lia|done|].
  exists σ3. rewrite steps_app, S2. cbn [mbind option_bind steps]. rewrite S3. split; [done|].
  eapply leaves_trans; [done..|]. by eapply leaves_trans.
Qed.

(** C15: the divisions the sandbox pass leaves do not fault.  For a [DIV] or [REX DIV] in a
    block, whose divisor is a part of a general-purpose register or memory at the address
    the memory instrumentation has given it, and is not AH, [sandbox_division] replaces the
    division by a list of instructions that, from any registers and memory, runs to the end:
    no divisor is zero and no quotient is too wide.  The list ends in the division unless
    it is one the pass gives up (of 64 bits, of 8 bits by memory at an address of RAX, or by
    a divisor that depends on RDX); everything else in the block stays; and running the list
    changes no register but RAX, RDX, the flags and the divisor's, and no memory but the
    divisor. *)
Theorem division_instrumentation_safe flags w bb l1 x l2 is1 i is2 d :
  heap_ok w → contents w bb (l1 ++ x :: l2) (is1 ++ i :: is2) → length l1 = length is1 →
  i_operands i = [d] → is_division i = true → divisor d = true → op_value d ≠ "AH" →
  ∃ w' l' before,
    let kept := if given_up d then [] else [i] in
    sandbox_division x bb w = Ok (tt, w') ∧ contents w' bb l' (is1 ++ (before ++ kept) ++ is2) ∧
    ∀ σ, ∃ σ', steps flags (before ++ kept) σ = Some σ' ∧ leaves d σ σ'.
Proof.
  intros Hok Hc Hlen Hi Hn Hd HAH.
  assert (mem (op_width d) [8; 16; 32; 64] = true) as Hw by (by apply andb_true_iff in Hd as [? _]).
  destruct (sandbox_division_spec w bb l1 x l2 is1 i is2 d [] Hok Hc Hlen Hi) as (w' & l' & H & Hc').
  { by apply mem_spec. }
  pose proof (λ σ, sandboxed_runs flags i d σ Hi Hn Hd HAH) as Hruns. unfold sandboxed, given_up in *.
  destruct (op_width d =? 8); [destruct (str_in "RAX" (op_value d))|destruct ((op_width d =? 64) || divisor_in_D d)].
  - by exists w', l', [or_one d].
  - by exists w', l', [or_one d; instr "MOV" [new_RegisterOperand "AX" 16 false true; new_ImmediateOperand "1" 16]].
  - by exists w', l', [or_one d].
  - by exists w', l', (or_one d :: halve_dividend (if op_width d =? 32 then "EDX" else "DX") d).
Qed.

Lemma division_instrumentation_safe_witness :
  let d := MemoryOperand "R14 + RBX" 32 true false in
  let i := mkInstruction "DIV" [d] [] "" false false None in
  ∃ w' l' before, sandbox_division 0 0 (one_block i) = Ok (tt, w') ∧ contents w' 0 l' ([] ++ (before ++ [i]) ++ []) ∧
    ∀ σ, ∃ σ', steps (λ _ _, 2) (before ++ [i]) σ = Some σ' ∧ leaves d σ σ'.
Proof.
  intros d i. destruct (one_block_ok i) as [Hok Hc].
  exact (division_instrumentation_safe (λ _ _, 2) (one_block i) 0 [] 0%nat [] [] i [] d Hok Hc eq_refl eq_refl
    eq_refl eq_refl ltac:(discriminate)).
Defined.

(** Dividing by AH always faults: [OR AH, 1] is undone by [MOV AX, 1], which is inserted
    after it and clears AH. *)
Theorem ah_division_faults flags s e l :
  let d := RegisterOperand "AH" 8 s e in
  let i := mkInstruction "DIV" [d] [] "" false false l in
  (∃ w' l', sandbox_division 0 0 (one_block i) = Ok (tt, w') ∧ contents w' 0 l' (sandboxed i d)) ∧
  ∀ σ, steps flags (sandboxed i d) σ = None.
Proof.
  intros d i. split.
  - destruct (one_block_ok i) as [Hok Hc].
    destruct (sandbox_division_spec (one_block i) 0 [] 0%nat [] [] i [] d [] Hok Hc eq_refl eq_refl) as (w' & l' & H & Hc').
    { cbn. left. }
    by exists w', l'.
  - intros σ. set (mov := instr "MOV" [new_RegisterOperand "AX" 16 false true; new_ImmediateOperand "1" 16]).
    change (steps flags (sandboxed i d) σ) with
      (σ1 ← step flags (or_one d) σ; σ2 ← step flags mov σ1; steps flags [i] σ2).
    destruct (step flags (or_one d) σ) as [σ1|]; [|done]. cbn [mbind option_bind].
    set (σ2 := write_reg "EFLAGS" (flags mov σ1) (write_reg "AX" 1 σ1)).
    change (step flags mov σ1) with (Some σ2). cbn [mbind option_bind steps].
    assert (read_reg "AH" σ2 = 0) as H0.
    { unfold σ2. rewrite read_write_ne by done. by rewrite (read_write_in "AX" "RAX" 0 16 "AH" 8 8). }
    assert (step flags i σ2 = None) as ->; [|done].
    unfold step. cbn [i i_operands i_name d get_operand op_width]. rewrite H0. done.
Qed.
