(* ===== verification/SandboxFacts.v ===== *)
(** * The sandbox pass, instruction by instruction

    [X86SandboxPass] walks a block five times and edits its linked list around the
    instructions it collected at first.  Each walk only touches the
    neighbourhood of an instruction, so their composition rewrites every
    instruction of the block on its own: a memory access gets its mask, then the
    class of the instruction decides what surrounds it. *)

From S2P Require Import Prelude Isa BasicBlock Generator GeneratorFacts Passes PassesFacts.

Open Scope Z_scope.

(** ** What the pass does to one instruction *)

Section rewriting.
Context (conf : gen_conf).

(** The instrumentation of its memory access, and the instruction after it. *)
Definition memory_step (i : Instruction) : list Instruction * Instruction :=
  match get_implicit_mem_operands i, get_mem_operands i with
  | [m], _ => ([apply_mask conf m; add_base m], i)
  | [], [m] =>
      ([apply_mask conf m], set_operands i (set_first_mem ("R14 + " +:+ op_value m) (i_operands i)))
  | _, _ => ([], i)
  end.

Definition division_step (i : Instruction) : list Instruction :=
  match i_operands i with
  | [] => [i]
  | d :: _ =>
      or_one d ::
      (if op_width d =? 8 then
         if str_in "RAX" (op_value d) then []
         else [instr "MOV" [new_RegisterOperand "AX" 16 false true; new_ImmediateOperand "1" 16]; i]
       else if (op_width d =? 64) || divisor_in_D d then []
       else halve_dividend (if op_width d =? 32 then "EDX" else "DX") d ++ [i])
  end.

(** An immediate offset becomes a random one below 8. *)
Definition bit_test_step (i : Instruction) (is' : list Instruction) : Prop :=
  match i_operands i with
  | address :: offset :: _ =>
      if is_reg address then is' = [i]
      else match offset with
           | ImmediateOperand _ w =>
               ∃ v, 0 ≤ v ≤ 7 ∧ is' = [set_operands i (<[1%nat := ImmediateOperand (str v) w]> (i_operands i))]
           | _ => is' = if bool_decide (op_value address = op_value offset) then []
                        else [instr "AND" [offset; new_ImmediateOperand mask_3bits 8]; i]
           end
  | _ => is' = [i]
  end.

Definition repeat_step (i : Instruction) : list Instruction :=
  [instr "AND" [new_RegisterOperand "RCX" 64 true true; new_ImmediateOperand "0xff" 8];
   instr "ADD" [new_RegisterOperand "RCX" 64 true true; new_ImmediateOperand "1" 1]; i].

(** The classes of the collecting loop, as the instruction is collected. *)
Definition class_step (i0 i : Instruction) (is' : list Instruction) : Prop :=
  if is_division i0 then is' = division_step i
  else if is_bit_test i0 then bit_test_step i is'
  else if is_repeated i0 then is' = repeat_step i
  else if is_corrupted_cf i0 then is' = [i; new_Instruction "STC" true "" false]
  else is' = [i].

Definition sandboxed (i0 : Instruction) (is' : list Instruction) : Prop :=
  ∃ rest, class_step i0 (memory_step i0).2 rest ∧ is' = (memory_step i0).1 ++ rest.

(** The instructions the pass has no assertion or lookup to fail on. *)
Definition sandboxable (i0 : Instruction) : bool :=
  match get_implicit_mem_operands i0, get_mem_operands i0 with
  | [_], _ | [], [_] | _, [] => true
  | _, _ => false
  end
  && (negb (is_division i0) ||
      match i_operands i0 with d :: _ => mem (op_width d) [8; 16; 32; 64] | [] => false end)
  && (negb (is_bit_test i0) || (2 <=? length (i_operands i0))%nat).
End rewriting.

(** ** Editing around one instruction *)

Notation pairs := (list (nat * Instruction)).

(** Block [bb] holds these nodes with their instructions. *)
Definition holds (w : world) (bb : nat) (ps : pairs) : Prop := contents w bb ps.*1 ps.*2.

(** [f] replaces the node [x] holding [i] by nodes that satisfy [S], wherever it is
    in the block, and touches nothing else. *)
Definition rewrites (bb : nat) (f : M unit) (x : nat) (i : Instruction) (S : pairs → Prop) : Prop :=
  ∀ w L R, heap_ok w → holds w bb (L ++ (x, i) :: R) →
  ∃ w' mid, f w = Ok (tt, w') ∧ holds w' bb (L ++ mid ++ R) ∧ S mid ∧
    extends bb (L ++ (x, i) :: R).*1 w w' ∧
    (∀ y, y ∈ mid.*1 → y = x ∨ (w_next_inst w ≤ y)%nat).

Section editing.
Context (bb : nat).

Lemma holds_split w L x i R :
  holds w bb (L ++ (x, i) :: R) → contents w bb (L.*1 ++ x :: R.*1) (L.*2 ++ i :: R.*2).
Proof. unfold holds. by rewrite !fmap_app. Qed.

Lemma holds_join w L mid R : 
  contents w bb (L.*1 ++ mid.*1 ++ R.*1) (L.*2 ++ mid.*2 ++ R.*2) → holds w bb (L ++ mid ++ R).
Proof. unfold holds. by rewrite !fmap_app. Qed.

Lemma fst_snd_length (L : pairs) : length L.*1 = length L.*2.
Proof. by rewrite !length_fmap. Qed.

Lemma rewrites_ret x i (S : pairs → Prop) : S [(x, i)] → rewrites bb (mret tt) x i S.
Proof.
  intros HS w L R Hok Hw. exists w, [(x, i)]. split_and!; try done.
  - by apply extends_refl.
  - intros y Hy%list_elem_of_singleton. by left.
Qed.

Lemma rewrites_the_inst f x i S : rewrites bb (f i) x i S → rewrites bb (i ← the_inst x; f i) x i S.
Proof.
  intros Hf w L R Hok Hw. rewrite (bindM_eq _ _ w i w); [by apply Hf|].
  eapply the_inst_contents; [by apply holds_split|apply fst_snd_length].
Qed.

(** A first edit that leaves the node in place, then the rest. *)
Lemma rewrites_step (g : M unit) f x i i' (pre : nat → pairs) (S : pairs → Prop) :
  (∀ w L R, heap_ok w → holds w bb (L ++ (x, i) :: R) →
   ∃ w', g w = Ok (tt, w') ∧ holds w' bb (L ++ pre (w_next_inst w) ++ (x, i') :: R) ∧
     extends bb (L ++ (x, i) :: R).*1 w w') →
  (∀ n y, y ∈ (pre n).*1 → (n ≤ y)%nat) →
  (∀ n, rewrites bb f x i' (λ mid, S (pre n ++ mid))) →
  rewrites bb (g;; f) x i S.
Proof.
  intros Hg Hpre Hf w L R Hok Hw.
  destruct (Hg w L R Hok Hw) as (w1 & H1 & Hw1 & He1). rewrite (bindM_eq _ _ w tt w1 H1).
  rewrite (app_assoc L) in Hw1.
  destruct (Hf (w_next_inst w) w1 _ R (ext_ok _ _ _ _ He1) Hw1) as (w2 & mid & H2 & Hw2 & HS & He2 & Hy).
  pose proof (ext_next _ _ _ _ He1) as Hn. exists w2, (pre (w_next_inst w) ++ mid). split_and!; try done.
  - by rewrite <- !app_assoc in *.
  - eapply extends_trans; [exact He1|exact He2|]. intros y.
    rewrite !fmap_app, !elem_of_app. intros [[?|?%Hpre]|?]; auto.
  - intros y. rewrite fmap_app, elem_of_app. intros [?%Hpre|[?|?]%Hy]; [by right|by left|right; lia].
Qed.

Lemma rewrites_before j f x i (S : pairs → Prop) :
  (∀ n, rewrites bb f x i (λ mid, S ((n, j) :: mid))) →
  rewrites bb (instrument_before bb x j;; f) x i S.
Proof.
  intros Hf. apply (rewrites_step _ _ _ _ i (λ n, [(n, j)])); [|by intros n y ->%list_elem_of_singleton|done].
  intros w L R Hok Hw.
  destruct (instrument_before_ok w bb L.*1 x R.*1 L.*2 i R.*2 j Hok (holds_split _ _ _ _ _ Hw)
    (fst_snd_length L)) as (w' & H & Hc & He & _).
  exists w'. split_and!; [done|by apply holds_join|by rewrite fmap_app].
Qed.

Lemma rewrites_put i' f x i (S : pairs → Prop) :
  rewrites bb f x i' S → rewrites bb (put_inst x i';; f) x i S.
Proof.
  intros Hf. apply (rewrites_step _ _ _ _ i' (λ _, [])); [|by intros n y ?%elem_of_nil|done].
  intros w L R Hok Hw.
  destruct (put_inst_ok w bb L.*1 x R.*1 L.*2 i R.*2 i' Hok (holds_split _ _ _ _ _ Hw)
    (fst_snd_length L)) as (w' & H & Hc & He & _).
  exists w'. split_and!; [done|by apply (holds_join w' L [(x, i')] R)|by rewrite fmap_app].
Qed.

Lemma rewrites_seq (f : M unit) x i S : rewrites bb (f;; mret tt) x i S → rewrites bb f x i S.
Proof.
  intros Hf w L R Hok Hw. destruct (Hf w L R Hok Hw) as (w' & mid & H & Hrest).
  exists w', mid. split; [|done]. revert H. unfold mbind, M_bind, mret, M_ret.
  by destruct (f w) as [[[]]|].
Qed.

Lemma rewrites_after j x i (S : pairs → Prop) :
  (∀ n, S [(x, i); (n, j)]) → rewrites bb (instrument_after bb x j) x i S.
Proof.
  intros HS w L R Hok Hw.
  destruct (instrument_after_ok w bb L.*1 x R.*1 L.*2 i R.*2 j Hok (holds_split _ _ _ _ _ Hw)
    (fst_snd_length L)) as (w' & H & Hc & He & _).
  exists w', [(x, i); (w_next_inst w, j)]. split_and!; [done|by apply holds_join|done|by rewrite fmap_app|].
  intros y [->|Hy]%elem_of_cons; [by left|]. apply list_elem_of_singleton in Hy as ->. by right.
Qed.

Lemma rewrites_delete x i (S : pairs → Prop) : S [] → rewrites bb (delete_m bb x) x i S.
Proof.
  intros HS w L R Hok Hw.
  destruct (delete_m_ok w bb L.*1 x R.*1 L.*2 i R.*2 Hok (holds_split _ _ _ _ _ Hw)
    (fst_snd_length L)) as (w' & H & Hc & He & _).
  exists w', []. split_and!; [done|by apply holds_join|done|by rewrite fmap_app|].
  by intros y ?%elem_of_nil.
Qed.

Lemma rewrites_lift {A} (a : A) f x i S : rewrites bb (f a) x i S → rewrites bb (lift (Ok a) ≫= f) x i S.
Proof. done. Qed.

Lemma rewrites_randint draws a b f x i S :
  a ≤ b → (∀ v, a ≤ v ≤ b → rewrites bb (f v) x i S) → rewrites bb (randint draws a b ≫= f) x i S.
Proof.
  intros Hab Hf w L R Hok Hw.
  destruct (randint_ok draws a b w Hab) as (v & w1 & H & Hv & Hd). rewrite (bindM_eq _ _ w v w1 H).
  destruct Hd as (Eh & Eb & En & _).
  destruct (Hf v Hv w1 L R) as (w2 & mid & H2 & Hw2 & HS & He2 & Hy).
  - intros y Hy. rewrite Eh. apply Hok. by rewrite <- En.
  - destruct Hw as [(blk & Hb & Hr) HF]. split; [exists blk; by rewrite Eb, Eh|by rewrite Eh].
  - exists w2, mid. rewrite En in Hy. split_and!; try done.
    destruct He2 as [A1 A2 A3 A4 A5]. split; [done|by rewrite <- En| | |by rewrite <- Eb].
    + intros y Hy1 Hy2. rewrite A3 by (done || by rewrite En). by rewrite Eh.
    + intros y Hy1. rewrite A4 by done. by rewrite Eb.
Qed.
End editing.

(** ** The five edits *)

Section edits.
Context (draws : nat → Z) (conf : gen_conf) (bb : nat).

(** The node [x] itself, behind instructions [pre]. *)
Definition behind (x : nat) (pre : list Instruction) (i : Instruction) (mid : pairs) : Prop :=
  ∃ ps, mid = ps ++ [(x, i)] ∧ ps.*2 = pre.

Lemma behind_cons x n j pre i mid :
  behind x pre i mid → behind x (j :: pre) i ((n, j) :: mid).
Proof. intros (ps & -> & <-). by exists ((n, j) :: ps). Qed.

Lemma sandbox_memory_rewrites x i :
  has_mem_operand i true = true → sandboxable i = true →
  rewrites bb (sandbox_memory_access conf x bb) x i
    (behind x (memory_step conf i).1 (memory_step conf i).2).
Proof.
  intros Hm Hs. unfold sandbox_memory_access, memory_step. apply rewrites_the_inst.
  unfold sandboxable in Hs. rewrite !andb_true_iff in Hs. destruct Hs as [[Hs _] _].
  assert (Hne : get_mem_operands i ≠ []).
  { unfold has_mem_operand, get_mem_operands in *. cbn [andb] in Hm. rewrite <- existsb_app in Hm.
    rewrite <- select_app. apply existsb_exists in Hm as (o & Ho & Hmem). intros E.
    assert (o ∈ select is_mem (i_operands i ++ i_implicit_operands i)) as H
      by (apply select_elem; by rewrite list_elem_of_In).
    rewrite E in H. by apply elem_of_nil in H. }
  destruct (get_implicit_mem_operands i) as [|m [|]] eqn:Ei.
  - destruct (get_mem_operands i) as [|m [|]] eqn:Em; try done.
    apply rewrites_before. intros n. apply rewrites_the_inst, rewrites_seq, rewrites_put, rewrites_ret.
    by exists [(n, apply_mask conf m)].
  - apply rewrites_before. intros n. apply rewrites_seq, rewrites_before. intros n'. apply rewrites_ret.
    by exists [(n, apply_mask conf m); (n', add_base m)].
  - by destruct (get_mem_operands i).
Qed.

(** The result is the node list's instructions. *)
Notation becomes is' := (λ mid : pairs, mid.*2 = is').

Lemma sandbox_division_rewrites x i d ops :
  i_operands i = d :: ops → mem (op_width d) [8; 16; 32; 64] = true →
  rewrites bb (sandbox_division x bb) x i (becomes (division_step i)).
Proof.
  intros Hd Hw. unfold sandbox_division, division_step. apply rewrites_the_inst. rewrite Hd.
  apply rewrites_lift, rewrites_before. intros n. fold (or_one d).
  destruct (op_width d =? 8) eqn:E8.
  { destruct (str_in "RAX" (op_value d)); cbn [negb].
    - by apply rewrites_delete.
    - apply rewrites_seq, rewrites_before. intros n'. by apply rewrites_ret. }
  destruct (op_width d =? 64) eqn:E64; cbn [orb]; [by apply rewrites_delete|].
  unfold divisor_in_D. destruct (mem _ _ || str_in _ _); [by apply rewrites_delete|].
  assert (op_width d = 16 ∨ op_width d = 32) as Hw'.
  { apply mem_spec in Hw. rewrite !elem_of_cons, elem_of_nil in Hw. lia. }
  set (reg := if op_width d =? 32 then "EDX" else "DX").
  assert ((if op_width d =? 32 then Some "EDX" else if op_width d =? 16 then Some "DX" else None)
          = Some reg) as -> by (unfold reg; destruct Hw' as [-> | ->]; reflexivity).
  apply rewrites_lift, rewrites_before. intros n1.
  apply rewrites_seq, rewrites_before. intros n2. by apply rewrites_ret.
Qed.

Lemma sandbox_bit_test_rewrites x i :
  (2 <= length (i_operands i))%nat →
  rewrites bb (sandbox_bit_test draws x bb) x i (λ mid, bit_test_step i mid.*2).
Proof.
  intros Hl. unfold sandbox_bit_test, bit_test_step. apply rewrites_the_inst.
  destruct (i_operands i) as [|address [|offset ops]] eqn:Eo; cbn in Hl; try lia.
  apply rewrites_lift. destruct (is_reg address); [by apply rewrites_ret|]. apply rewrites_lift.
  assert (Hmask : rewrites bb
    (if bool_decide (op_value address ≠ op_value offset)
     then instrument_before bb x (instr "AND" [offset; new_ImmediateOperand mask_3bits 8])
     else delete_m bb x) x i
    (λ mid, mid.*2 = if bool_decide (op_value address = op_value offset) then []
                     else [instr "AND" [offset; new_ImmediateOperand mask_3bits 8]; i])).
  { rewrite bool_decide_not. case_bool_decide; cbn [negb].
    - by apply rewrites_delete.
    - apply rewrites_seq, rewrites_before. intros n. by apply rewrites_ret. }
  destruct offset as [| |v w| | |]; try exact Hmask.
  apply rewrites_randint; [lia|]. intros k Hk. apply rewrites_seq, rewrites_put, rewrites_ret.
  by exists k.
Qed.

Lemma sandbox_repeated_rewrites x i :
  rewrites bb (sandbox_repeated_instruction x bb) x i (becomes (repeat_step i)).
Proof.
  unfold sandbox_repeated_instruction. apply rewrites_before. intros n.
  apply rewrites_seq, rewrites_before. intros n'. by apply rewrites_ret.
Qed.

Lemma sandbox_corrupted_rewrites x i :
  rewrites bb (sandbox_corrupted_cf x bb) x i (becomes [i; new_Instruction "STC" true "" false]).
Proof. by apply rewrites_after. Qed.
End edits.

(** ** One walk over the block *)

(** A node of the original block with its instruction, and what stands for it now. *)
Notation item := (nat * Instruction * pairs)%type.
Notation nodes items := (mjoin (snd <$> (items : list item))).

(** The walk [for inst in selected: f(inst)] rewrites the selected nodes and leaves
    the others. *)
Lemma walk bb (f : nat → M unit) (p : Instruction → bool) (S : nat → Instruction → pairs → Prop)
    (items : list item) : ∀ L w,
  Forall (λ it : item, p it.1.2 = true →
    ∃ pre i, it.2 = pre ++ [(it.1.1, i)] ∧
      rewrites bb (f it.1.1) it.1.1 i (λ mid, S it.1.1 it.1.2 (pre ++ mid))) items →
  heap_ok w → holds w bb (L ++ nodes items) →
  ∃ w' items', for_m (λ x _, f x) (fst <$> select (λ xi, p xi.2) items.*1) tt w = Ok (tt, w') ∧
    items'.*1 = items.*1 ∧ holds w' bb (L ++ nodes items') ∧
    Forall2 (λ it it' : item, if p it.1.2 then S it.1.1 it.1.2 it'.2 else it'.2 = it.2) items items' ∧
    extends bb (L ++ nodes items).*1 w w' ∧
    (∀ y, y ∈ (nodes items').*1 → y ∈ (nodes items).*1 ∨ (w_next_inst w ≤ y)%nat).
Proof.
  induction items as [|[[x i0] mid] items IH]; intros L w Hitems Hok Hw.
  { exists w, []. split_and!; try done. by apply extends_refl. by intros y ?%elem_of_nil. }
  apply Forall_cons in Hitems as [Hx Hitems]. cbn [fst snd] in Hx.
  change (nodes ((x, i0, mid) :: items)) with (mid ++ nodes items) in *.
  change (select _ _) with (select (λ xi : nat * Instruction, p xi.2) ((x, i0) :: items.*1)).
  unfold select. cbn [List.filter snd]. fold (select (λ xi : nat * Instruction, p xi.2) items.*1).
  destruct (p i0) eqn:Ep.
  - destruct (Hx eq_refl) as (pre & i & -> & Hf). rewrite <- (app_assoc pre) in Hw. cbn [app] in Hw.
    rewrite (app_assoc L) in Hw.
    destruct (Hf w _ _ Hok Hw) as (w1 & mid' & H1 & Hw1 & HS & He1 & Hy1).
    pose proof (ext_next _ _ _ _ He1) as Hn1.
    rewrite <- (app_assoc L), (app_assoc pre), (app_assoc L) in Hw1.
    destruct (IH _ w1 Hitems (ext_ok _ _ _ _ He1) Hw1) as (w2 & items' & H2 & Hi & Hw2 & HF & He2 & Hy2).
    exists w2, ((x, i0, pre ++ mid') :: items').
    change (nodes ((x, i0, pre ++ mid') :: items')) with ((pre ++ mid') ++ nodes items').
    split_and!.
    + cbn [fmap list_fmap for_m fst]. by rewrite (bindM_eq _ _ w tt w1 H1).
    + cbn. by rewrite Hi.
    + by rewrite <- !app_assoc in *.
    + constructor; [cbn [fst snd]; by rewrite Ep|done].
    + rewrite <- (app_assoc pre). cbn [app]. rewrite (app_assoc L).
      eapply extends_trans; [exact He1|exact He2|]. intros y.
      rewrite !fmap_app, fmap_cons, !elem_of_app, elem_of_cons. cbn [fst].
      intros [[?|[?|[?|?]%Hy1]]|?]; tauto.
    + intros y. rewrite !fmap_app, !elem_of_app. cbn [fmap list_fmap fst]. rewrite elem_of_cons.
      intros [[?|[?|?]%Hy1]|[?|?]%Hy2]; [tauto|tauto|right; lia|tauto|right; lia].
  - rewrite (app_assoc L) in Hw.
    destruct (IH _ w Hitems Hok Hw) as (w2 & items' & H2 & Hi & Hw2 & HF & He2 & Hy2).
    exists w2, ((x, i0, mid) :: items').
    change (nodes ((x, i0, mid) :: items')) with (mid ++ nodes items').
    split_and!.
    + done.
    + cbn. by rewrite Hi.
    + by rewrite <- !app_assoc in *.
    + constructor; [cbn [fst snd]; by rewrite Ep|done].
    + by rewrite (app_assoc L).
    + intros y. rewrite !fmap_app, !elem_of_app. intros [?|[?|?]%Hy2]; tauto.
Qed.

(** ** The walks of a block *)

Section block.
Context (draws : nat → Z) (conf : gen_conf).

Lemma set_first_mem_length v ops : length (set_first_mem v ops) = length ops.
Proof. induction ops as [|o ops IH]; [done|]. cbn. destruct (is_mem o); cbn; [done|by rewrite IH]. Qed.

Lemma set_first_mem_width v o ops :
  ∃ o' ops', set_first_mem v (o :: ops) = o' :: ops' ∧ op_width o' = op_width o.
Proof.
  cbn. destruct (is_mem o) eqn:E; [|by eexists _, _]. eexists _, _. split; [reflexivity|]. by destruct o.
Qed.

Lemma memory_step_operands i :
  i_operands (memory_step conf i).2 = i_operands i ∨
  ∃ v, i_operands (memory_step conf i).2 = set_first_mem v (i_operands i).
Proof.
  unfold memory_step. destruct (get_implicit_mem_operands i) as [|m [|]];
    destruct (get_mem_operands i) as [|m' [|]]; cbn [snd]; auto.
  right. eexists. reflexivity.
Qed.

Lemma memory_step_none i : has_mem_operand i true = false → memory_step conf i = ([], i).
Proof.
  intros Hm. unfold memory_step.
  assert (get_mem_operands i = []) as Hg.
  { unfold has_mem_operand, get_mem_operands in *. cbn [andb] in Hm. rewrite <- existsb_app in Hm.
    rewrite <- select_app. destruct (select _ _) as [|o l] eqn:E; [done|].
    assert (o ∈ o :: l) as H by (by left). rewrite <- E in H. apply select_elem in H as [Ho Hin].
    assert (existsb is_mem (i_operands i ++ i_implicit_operands i) = true); [|congruence].
    apply existsb_exists. exists o. by rewrite <- list_elem_of_In. }
  assert (get_implicit_mem_operands i = []) as ->; [|by rewrite Hg].
  unfold get_mem_operands in Hg. by apply app_eq_nil in Hg as [_ ?].
Qed.

Notation item := (nat * Instruction * pairs)%type.
Notation nodes items := (mjoin (snd <$> (items : list item))).

(** Items whose class has been walked are finished, the others have had their memory
    access instrumented. *)
Definition walked (done : Instruction → bool) (it : item) : Prop :=
  if done it.1.2 then sandboxed conf it.1.2 it.2.*2
  else behind it.1.1 (memory_step conf it.1.2).1 (memory_step conf it.1.2).2 it.2.

Lemma behind_sandboxed i0 mid (rest : pairs) :
  class_step i0 (memory_step conf i0).2 rest.*2 →
  ∀ pre, pre.*2 = (memory_step conf i0).1 → mid = pre ++ rest → sandboxed conf i0 mid.*2.
Proof. intros Hc pre Hp ->. exists rest.*2. by rewrite fmap_app, Hp. Qed.

(** What a finished walk leaves. *)
Record walk_result (bb : nat) (m : M unit) (w : world) (items : list item) (Q : item → Prop)
    (w' : world) (items' : list item) : Prop := {
  wr_run : m w = Ok (tt, w');
  wr_keys : items'.*1 = items.*1;
  wr_holds : holds w' bb (nodes items');
  wr_items : Forall Q items';
  wr_extends : extends bb (nodes items).*1 w w';
  wr_fresh : ∀ y, y ∈ (nodes items').*1 → y ∈ (nodes items).*1 ∨ (w_next_inst w ≤ y)%nat
}.

Lemma class_walk bb f p done items w :
  (∀ x i0, sandboxable i0 = true → p i0 = true →
     rewrites bb (f x) x (memory_step conf i0).2 (λ mid, class_step i0 (memory_step conf i0).2 mid.*2)) →
  (∀ i, p i = true → done i = false) →
  heap_ok w → holds w bb (nodes items) → Forall (λ it : item, sandboxable it.1.2 = true) items →
  Forall (walked done) items →
  ∃ w' items', walk_result bb (for_m (λ x _, f x) (fst <$> select (λ xi, p xi.2) items.*1) tt) w items
                 (walked (λ i, done i || p i)) w' items'.
Proof.
  intros Hf Hdis Hok Hw Hs Hd.
  destruct (walk bb f p (λ x i0 mid, sandboxed conf i0 mid.*2) items [] w) as (w' & items' & H & Hk & Hh & HF & He & Hy);
    [|done|done|].
  - rewrite Forall_forall in *. intros [[x i0] mid] Hit Hp. cbn [fst snd] in *.
    specialize (Hs _ Hit). specialize (Hd _ Hit). unfold walked in Hd. cbn [fst snd] in *.
    rewrite (Hdis i0 Hp) in Hd. destruct Hd as (pre & -> & Hpre).
    exists pre, (memory_step conf i0).2. split; [done|].
    intros w1 L R Hok1 Hw1. destruct (Hf x i0 Hs Hp w1 L R Hok1 Hw1) as (w2 & mid' & ? & ? & Hc & ?).
    exists w2, mid'. split_and!; try tauto. by eapply behind_sandboxed.
  - exists w', items'. split; try done. apply Forall_forall. intros it' Hit'.
    apply list_elem_of_lookup in Hit' as [k Hk'].
    pose proof (Forall2_lookup_r _ _ _ _ _ HF Hk') as (it & Hit & HR).
    assert (it'.1 = it.1) as E.
    { apply (f_equal (.!! k)) in Hk. rewrite !list_lookup_fmap, Hk', Hit in Hk. by injection Hk. }
    unfold walked. rewrite E. pose proof (proj1 (Forall_forall _ _) Hd it) as Hw0.
    specialize (Hw0 ltac:(by eapply list_elem_of_lookup_2)). unfold walked in Hw0.
    destruct (p it.1.2) eqn:Ep; [by rewrite orb_true_r|]. rewrite orb_false_r, HR. done.
Qed.
End block.

(** ** A block and a test case *)

Section pass.
Context (draws : nat → Z) (conf : gen_conf).
Notation item := (nat * Instruction * pairs)%type.
Notation nodes items := (mjoin (snd <$> (items : list item))).

Definition untouched (ps : pairs) : list item := (λ xi, (xi, [xi])) <$> ps.
Lemma untouched_nodes ps : nodes (untouched ps) = ps.
Proof. induction ps as [|xi ps IH]; [done|]. exact (f_equal (cons xi) IH). Qed.
Lemma untouched_keys ps : (untouched ps).*1 = ps.
Proof. induction ps as [|xi ps IH]; [done|]. exact (f_equal (cons xi) IH). Qed.

(** The first walk. *)
Lemma memory_walk bb ps w :
  heap_ok w → holds w bb ps → Forall (λ i, sandboxable i = true) ps.*2 →
  ∃ w' items', walk_result bb
    (for_m (λ x _, sandbox_memory_access conf x bb) (fst <$> select (λ xi, has_mem_operand xi.2 true) ps) tt)
    w (untouched ps) (walked conf (λ _, false)) w' items'.
Proof.
  intros Hok Hw Hs.
  destruct (walk bb (λ x, sandbox_memory_access conf x bb) (λ i, has_mem_operand i true)
    (λ x i0 mid, behind x (memory_step conf i0).1 (memory_step conf i0).2 mid) (untouched ps) [] w)
    as (w' & items' & H & Hk & Hh & HF & He & Hy).
  - apply Forall_forall. intros [[x i0] mid] Hit Hp. apply list_elem_of_fmap in Hit as ([x' i'] & [= <- <- ->] & Hin).
    cbn [fst snd] in *. exists [], i0. split; [done|].
    apply sandbox_memory_rewrites; [done|]. rewrite Forall_forall in Hs. apply Hs.
    apply list_elem_of_fmap. by exists (x, i0).
  - done.
  - by rewrite untouched_nodes.
  - rewrite untouched_keys in H. exists w', items'. split; try done.
    apply Forall_forall. intros it' Hit'. apply list_elem_of_lookup in Hit' as [k Hk'].
    pose proof (Forall2_lookup_r _ _ _ _ _ HF Hk') as (it & Hit & HR).
    assert (it'.1 = it.1) as E.
    { apply (f_equal (.!! k)) in Hk. rewrite !list_lookup_fmap, Hk', Hit in Hk. by injection Hk. }
    unfold walked. rewrite E. destruct (has_mem_operand it.1.2 true) eqn:Ep; [done|].
    rewrite (memory_step_none conf _ Ep), HR. apply list_elem_of_lookup_2, list_elem_of_fmap in Hit.
    destruct Hit as ([x i] & -> & _). by exists [].
Qed.

(** Two walks, one after the other. *)
Lemma walk_result_trans bb m1 m2 w w1 w2 items items1 items2 Q1 Q2 :
  walk_result bb m1 w items Q1 w1 items1 → walk_result bb m2 w1 items1 Q2 w2 items2 →
  walk_result bb (m1;; m2) w items Q2 w2 items2.
Proof.
  intros [H1 K1 O1 I1 E1 F1] [H2 K2 O2 I2 E2 F2]. pose proof (ext_next _ _ _ _ E1). split; try done.
  - by rewrite (bindM_eq _ _ w tt w1 H1).
  - congruence.
  - eapply extends_trans; [exact E1|exact E2|]. intros y [?|?]%F1; auto.
  - intros y [[?|?]%F1|?]%F2; [by left|by right|right; lia].
Qed.

Lemma sandboxable_parts i :
  sandboxable i = true →
  (is_division i = true → ∃ d ops, i_operands i = d :: ops ∧ mem (op_width d) [8; 16; 32; 64] = true) ∧
  (is_bit_test i = true → (2 <= length (i_operands i))%nat).
Proof.
  unfold sandboxable. rewrite !andb_true_iff, !orb_true_iff, !negb_true_iff. intros [[_ Hd] Hb]. split.
  - intros E. destruct Hd as [Hd|Hd]; [congruence|]. destruct (i_operands i) as [|d ops]; [done|].
    by exists d, ops.
  - intros E. destruct Hb as [Hb|Hb]; [congruence|]. by apply Nat.leb_le.
Qed.

(** A walk over one class of the collected instructions. *)
Lemma next_class bb f p done ps items w :
  (∀ x i0, sandboxable i0 = true → p i0 = true →
     rewrites bb (f x) x (memory_step conf i0).2 (λ mid, class_step i0 (memory_step conf i0).2 mid.*2)) →
  (∀ i, p i = true → done i = false) → Forall (λ i, sandboxable i = true) ps.*2 →
  heap_ok w → holds w bb (nodes items) → items.*1 = ps → Forall (walked conf done) items →
  ∃ w' items', walk_result bb (for_m (λ x _, f x) (fst <$> select (λ xi, p xi.2) ps) tt) w items
                 (walked conf (λ i, done i || p i)) w' items'.
Proof.
  intros Hf Hdis Hs Hok Hw <- Hd. eapply class_walk; try done.
  apply Forall_forall. intros it Hit. rewrite Forall_forall in Hs. apply Hs.
  apply list_elem_of_fmap. exists it.1. split; [done|]. by apply list_elem_of_fmap_2.
Qed.

Lemma all_walked items :
  Forall (walked conf (λ i, false || is_division i || is_bit_test i || is_repeated i || is_corrupted_cf i)) items →
  Forall2 (sandboxed conf) items.*1.*2 ((λ it : item, it.2.*2) <$> items).
Proof.
  induction 1 as [|[[x i] mid] items Hit _ IH]; [constructor|]. constructor; [|exact IH].
  unfold walked in Hit. cbn [fst snd] in *.
  destruct (_ || is_corrupted_cf i) eqn:E; [done|]. rewrite !orb_false_iff in E.
  destruct E as [[[[_ E1] E2] E3] E4]. destruct Hit as (pre & -> & Hpre).
  exists [(memory_step conf i).2]. split; [unfold class_step; by rewrite E1, E2, E3, E4|].
  by rewrite fmap_app, Hpre.
Qed.

Lemma nodes_instructions items :
  (nodes items).*2 = mjoin ((λ it : item, it.2.*2) <$> items).
Proof.
  induction items as [|it items IH]; [done|].
  change (nodes (it :: items)) with (it.2 ++ nodes items). rewrite fmap_app, IH. done.
Qed.

Definition block_sandboxed (is_ is' : list Instruction) : Prop :=
  ∃ parts, is' = mjoin parts ∧ Forall2 (sandboxed conf) is_ parts.

(** The four classes are disjoint. *)
Lemma classes_disjoint i :
  (is_bit_test i = true → is_division i = false) ∧
  (is_repeated i = true → is_division i = false ∧ is_bit_test i = false) ∧
  (is_corrupted_cf i = true → is_division i = false ∧ is_bit_test i = false ∧ is_repeated i = false).
Proof.
  unfold is_corrupted_cf, is_repeated, is_bit_test.
  by destruct (is_division i), (mem (i_name i) bit_test_names), (str_in "REP" (i_name i)).
Qed.

(** Each walk does to an instruction of its class what the class calls for. *)
Definition class_edit bb (f : nat → M unit) (p : Instruction → bool) : Prop :=
  ∀ x i0, sandboxable i0 = true → p i0 = true →
  rewrites bb (f x) x (memory_step conf i0).2 (λ mid, class_step i0 (memory_step conf i0).2 mid.*2).

Lemma division_edit bb : class_edit bb (λ x, sandbox_division x bb) is_division.
Proof.
  intros x i0 Hsb Hp. apply sandboxable_parts in Hsb as [Hd _].
  destruct (Hd Hp) as (d & ops & Ho & Hwd). unfold class_step. rewrite Hp.
  destruct (memory_step_operands conf i0) as [E|[v E]].
  - apply sandbox_division_rewrites with (d := d) (ops := ops); [by rewrite E|done].
  - rewrite Ho in E. destruct (set_first_mem_width v d ops) as (d' & ops' & E' & Hd').
    apply sandbox_division_rewrites with (d := d') (ops := ops'); [by rewrite E|by rewrite Hd'].
Qed.

Lemma bit_test_edit bb : class_edit bb (λ x, sandbox_bit_test draws x bb) is_bit_test.
Proof.
  intros x i0 Hsb Hp. apply sandboxable_parts in Hsb as [_ Hb]. specialize (Hb Hp).
  unfold class_step. rewrite (proj1 (classes_disjoint i0) Hp), Hp. apply sandbox_bit_test_rewrites.
  destruct (memory_step_operands conf i0) as [->|[v ->]]; [done|by rewrite set_first_mem_length].
Qed.

Lemma repeated_edit bb : class_edit bb (λ x, sandbox_repeated_instruction x bb) is_repeated.
Proof.
  intros x i0 _ Hp. unfold class_step.
  destruct (proj1 (proj2 (classes_disjoint i0)) Hp) as [-> ->]. rewrite Hp. apply sandbox_repeated_rewrites.
Qed.

Lemma corrupted_edit bb : class_edit bb (λ x, sandbox_corrupted_cf x bb) is_corrupted_cf.
Proof.
  intros x i0 _ Hp. unfold class_step.
  destruct (proj2 (proj2 (classes_disjoint i0)) Hp) as (-> & -> & ->). rewrite Hp.
  apply sandbox_corrupted_rewrites.
Qed.

(** The four walks of the classes, after the walk of the memory accesses. *)
Lemma class_walks bb ps items w :
  Forall (λ i, sandboxable i = true) ps.*2 →
  heap_ok w → holds w bb (nodes items) → items.*1 = ps → Forall (walked conf (λ _, false)) items →
  ∃ w' items', walk_result bb
    (for_m (λ x _, sandbox_division x bb) (fst <$> select (λ xi, is_division xi.2) ps) tt;;
     for_m (λ x _, sandbox_bit_test draws x bb) (fst <$> select (λ xi, is_bit_test xi.2) ps) tt;;
     for_m (λ x _, sandbox_repeated_instruction x bb) (fst <$> select (λ xi, is_repeated xi.2) ps) tt;;
     for_m (λ x _, sandbox_corrupted_cf x bb) (fst <$> select (λ xi, is_corrupted_cf xi.2) ps) tt)
    w items
    (walked conf (λ i, false || is_division i || is_bit_test i || is_repeated i || is_corrupted_cf i))
    w' items'.
Proof.
  intros Hs Hok Hw K Hd.
  destruct (next_class bb _ is_division (λ _, false) ps items w (division_edit bb))
    as (w2 & t2 & R2); [done..|].
  pose proof (eq_trans (wr_keys _ _ _ _ _ _ _ R2) K) as K2.
  destruct (next_class bb _ is_bit_test (λ i, false || is_division i) ps t2 w2 (bit_test_edit bb))
    as (w3 & t3 & R3); [apply classes_disjoint|done|apply (wr_extends _ _ _ _ _ _ _ R2)|apply R2|done|apply R2|].
  pose proof (eq_trans (wr_keys _ _ _ _ _ _ _ R3) K2) as K3.
  destruct (next_class bb _ is_repeated (λ i, false || is_division i || is_bit_test i) ps t3 w3 (repeated_edit bb))
    as (w4 & t4 & R4); [|done|apply (wr_extends _ _ _ _ _ _ _ R3)|apply R3|done|apply R3|].
  { intros i Hp. by destruct (proj1 (proj2 (classes_disjoint i)) Hp) as [-> ->]. }
  pose proof (eq_trans (wr_keys _ _ _ _ _ _ _ R4) K3) as K4.
  destruct (next_class bb _ is_corrupted_cf (λ i, false || is_division i || is_bit_test i || is_repeated i)
    ps t4 w4 (corrupted_edit bb))
    as (w5 & t5 & R5); [|done|apply (wr_extends _ _ _ _ _ _ _ R4)|apply R4|done|apply R4|].
  { intros i Hp. by destruct (proj2 (proj2 (classes_disjoint i)) Hp) as (-> & -> & ->). }
  exists w5, t5. eapply walk_result_trans; [exact R2|]. eapply walk_result_trans; [exact R3|].
  eapply walk_result_trans; [exact R4|exact R5].
Qed.

Lemma sandbox_bb_step func bb :
  bb ≠ f_entry func →
  block_step (sandbox_bb draws conf func) (Forall (λ i, sandboxable i = true)) block_sandboxed bb.
Proof.
  intros Hne w l is_ Hok Hc Hs. unfold sandbox_bb. rewrite decide_False by done.
  rewrite (bindM_eq _ _ w (zip l is_) w) by (by apply collect_contents).
  pose proof (Forall2_length _ _ _ (proj2 Hc)) as Hlen.
  assert (El : (zip l is_).*1 = l) by (apply fst_zip; lia).
  assert (Ei : (zip l is_).*2 = is_) by (apply snd_zip; lia).
  set (ps := zip l is_) in *.
  assert (Hs' : Forall (λ i, sandboxable i = true) ps.*2) by (by rewrite Ei).
  assert (Hw : holds w bb ps) by (unfold holds; by rewrite El, Ei).
  destruct (memory_walk bb ps w Hok Hw Hs') as (w1 & t1 & R1).
  pose proof (wr_keys _ _ _ _ _ _ _ R1) as K1. rewrite untouched_keys in K1.
  destruct (class_walks bb ps t1 w1 Hs') as (w2 & t2 & R2);
    [apply (wr_extends _ _ _ _ _ _ _ R1)|apply R1|done|apply R1|].
  pose proof (walk_result_trans _ _ _ _ _ _ _ _ _ _ _ R1 R2) as [H K Ho HI He Hy].
  rewrite untouched_nodes, El in *.
  exists w2, (nodes t2).*1, (nodes t2).*2. split_and!; try done.
  rewrite nodes_instructions. eexists. split; [reflexivity|].
  rewrite untouched_keys in K. rewrite <- Ei, <- K. by apply all_walked.
Qed.

(** C14: The sandbox pass rewrites every instruction on its own.  On a function whose
    instructions have at most one memory operand (one implicit one, or one explicit
    one), a first operand for divisions and two for bit tests, the pass succeeds; the
    entry block is unchanged, and every other block consists of its instructions in
    order, each replaced by: the mask of its address register (and the addition of
    R14, or its operand rebased to R14), then what its class calls for. *)
Theorem sandbox_pass_rewrites func w c is_ :
  heap_ok w → NoDup (f_all_bb func) → separated c (f_all_bb func) →
  (∀ bb, bb ∈ f_all_bb func → contents w bb (c bb) (is_ bb)) →
  (∀ bb, bb ∈ f_all_bb func → bb ≠ f_entry func → Forall (λ i, sandboxable i = true) (is_ bb)) →
  ∃ w', sandbox_pass draws conf (mkTestCase [func] 0 ∅ 0) w = Ok (tt, w') ∧
    ∀ bb, bb ∈ f_all_bb func → ∃ l' is', contents w' bb l' is' ∧
      if decide (bb = f_entry func) then is' = is_ bb
      else ∃ parts, is' = mjoin parts ∧ Forall2 (sandboxed conf) (is_ bb) parts.
Proof.
  intros Hok Hnd Hsep Hc Hs.
  set (P bb is_ := bb ≠ f_entry func → Forall (λ i, sandboxable i = true) is_).
  set (R bb is_ is' := if decide (bb = f_entry func) then is' = is_ else block_sandboxed is_ is').
  destruct (for_blocks (sandbox_bb draws conf func) P R (f_all_bb func)) with (w := w) (c := c) (is_ := is_)
    as (w' & H & _ & Hall & _); [|done..|].
  - intros bb _. subst P R. cbv beta. destruct (decide (bb = f_entry func)) as [E|E].
    + intros w1 l is1 Hok1 Hc1 _. exists w1, l, is1. split_and!; [|done|done|by apply extends_refl|by left].
      unfold sandbox_bb. by rewrite decide_True.
    + intros w1 l is1 Hok1 Hc1 HP. by apply (sandbox_bb_step func bb E w1 l is1 Hok1 Hc1 (HP E)).
  - exists w'. split.
    + unfold sandbox_pass, for_bbs. cbn [for_m tc_functions]. by rewrite (bindM_eq _ _ w tt w' H).
    + intros bb Hbb. destruct (Hall bb Hbb) as (l' & is' & Hc' & HR & _). by exists l', is'.
Qed.
End pass.

(** A division by a word in memory: its access is masked and rebased, then the divisor
    is made odd and the upper half of the dividend reduced. *)
Lemma sandbox_pass_rewrites_witness :
  let m := MemoryOperand "RAX" 32 true false in
  let i := mkInstruction "DIV" [m] [] "" false false None in
  let m' := MemoryOperand "R14 + RAX" 32 true false in
  let func := mkFunction "" [0%nat] 5 6 in
  ∃ w', sandbox_pass (λ _, 0) demo_conf (mkTestCase [func] 0 ∅ 0) (one_block i) = Ok (tt, w') ∧
    ∃ l', contents w' 0 l'
      [apply_mask demo_conf m; or_one m';
       instr "AND" [new_RegisterOperand "EDX" 32 false true; m'];
       instr "SHR" [new_RegisterOperand "EDX" 32 false true; new_ImmediateOperand "1" 8];
       mkInstruction "DIV" [m'] [] "" false false None].
Proof.
  intros m i m' func.
  destruct (sandbox_pass_rewrites (λ _, 0) demo_conf func (one_block i) (λ _, [0%nat]) (λ _, [i]))
    as (w' & H & Hall).
  - apply one_block_ok.
  - repeat constructor. set_solver.
  - intros b1 b2 ->%list_elem_of_singleton ->%list_elem_of_singleton. done.
  - intros bb ->%list_elem_of_singleton. apply one_block_ok.
  - intros bb _ _. by repeat constructor.
  - exists w'. split; [exact H|].
    destruct (Hall 0%nat ltac:(by left)) as (l' & is' & Hc & Hi). rewrite decide_False in Hi by done.
    destruct Hi as (parts & -> & HF). exists l'.
    inversion HF as [|? part ? ? Hp HF' Ei Ep]. inversion HF'; subst.
    destruct Hp as (rest & Hr & ->). cbn in Hr. rewrite Hr in Hc. exact Hc.
Defined.
