(* ===== verification/FlagsFacts.v ===== *)
(** * Undefined flags

    A semantics of undefined flags for the modes of [FlagsOperand]: an
    instruction defines the flags it writes and undefines those of mode
    [undef].  [find_flags_patch] is correct for it; inserting its patches one by
    one behind the same instruction reverses them, and that is not. *)

From S2P Require Import Prelude.
From S2P Require Import Isa.
From S2P Require Import BasicBlock.
From S2P Require Import Generator.
From S2P Require Import GeneratorFacts.
From S2P Require Import Passes.
From S2P Require Import PassesFacts.

Open Scope Z_scope.

(** ** The semantics *)

(** The flags undefined after an instruction, from those undefined before. *)
Definition undefined_after (i : Instruction) (u : list string) : list string :=
  match get_flags_operand i with
  | None => u
  | Some fv => select (λ f, negb (mem f (get_write_flags fv))) u ++ get_undef_flags fv
  end.
Definition undefined_after_all (is_ : list Instruction) (u : list string) : list string :=
  fold_left (λ u i, undefined_after i u) is_ u.

Lemma undefined_after_all_app a b u :
  undefined_after_all (a ++ b) u = undefined_after_all b (undefined_after_all a u).
Proof. apply fold_left_app. Qed.

(** ** [find_flags_patch] *)

Section patch.
Context (draws : nat → Z) (conf : gen_conf).

(** What is still undefined among the awaited flags is what the search still
    has to patch. *)
Lemma flags_patch_loop_sound specs : ∀ undef F patches u w patches' undef' w',
  (∀ f, f ∈ undefined_after_all patches u → f ∈ F → f ∈ undef) →
  flags_patch_loop draws conf specs undef F patches w = Ok ((patches', undef'), w') →
  ∀ f, f ∈ undefined_after_all patches' u → f ∈ F → f ∈ undef'.
Proof.
  induction specs as [|spec specs IH]; intros undef F patches u w patches' undef' w' Hinv H;
    cbn [flags_patch_loop] in H.
  { inv_m. by simplify_eq. }
  apply bindM_Ok in H as (patch & w1 & _ & H). apply bindM_Ok in H as (fv & w2 & Hfv & H).
  apply lift_Ok in Hfv as [Hfv ->]. apply from_option_Ok in Hfv.
  case_bool_decide as Hnew; [|by eapply IH]. case_bool_decide as Hpatched; [|by eapply IH].
  cbn [andb] in H.
  set (undef1 := select (λ i, negb (mem i (get_write_flags fv))) undef) in *.
  assert (∀ f, f ∈ undefined_after_all (patches ++ [patch]) u → f ∈ F → f ∈ undef1) as Hinv1.
  { intros f Hf HF. rewrite undefined_after_all_app in Hf. cbn in Hf.
    unfold undefined_after in Hf. rewrite Hfv in Hf. unfold undef1. rewrite select_elem.
    apply elem_of_app in Hf as [Hf|Hf].
    - apply select_elem in Hf as [Hnw Hf]. auto.
    - assert (f ∈ undef) as Hu.
      { destruct (decide (f ∈ undef)) as [|Hn]; [done|exfalso].
        assert (f ∈ @nil string) as Hnil; [|by apply elem_of_nil in Hnil].
        rewrite <- Hnew. apply select_elem. split; [|done].
        apply andb_true_iff. by rewrite negb_true_iff, mem_false, mem_spec. }
      split; [|done]. apply negb_true_iff, mem_false.
      by apply undef_flags_not_written in Hf as [? _]. }
  case_bool_decide as He.
  - inv_m. simplify_eq. intros f Hf HF. rewrite <- He. auto.
  - by eapply IH.
Qed.

Lemma flags_patch_loop_elem specs : ∀ undef F patches w patches' undef' w',
  flags_patch_loop draws conf specs undef F patches w = Ok ((patches', undef'), w') →
  ∀ p, p ∈ patches' → p ∈ patches ∨
    ∃ s v v', s ∈ specs ∧ generate_instruction draws conf s v = Ok (p, v').
Proof.
  induction specs as [|spec specs IH]; intros undef F patches w patches' undef' w' H p Hp;
    cbn [flags_patch_loop] in H.
  { inv_m. simplify_eq. by left. }
  apply bindM_Ok in H as (patch & w1 & Hg & H). apply bindM_Ok in H as (fv & w2 & Hfv & H).
  apply lift_Ok in Hfv as [Hfv ->].
  assert (∀ ps ud v, flags_patch_loop draws conf specs ud F ps v = Ok ((patches', undef'), w') →
    (∀ q, q ∈ ps → q ∈ patches ∨ q = patch) →
    p ∈ patches ∨ ∃ s v v', s ∈ spec :: specs ∧ generate_instruction draws conf s v = Ok (p, v')) as Hrec.
  { intros ps ud v Hl Hps. destruct (IH _ _ _ _ _ _ _ Hl p Hp) as [Hin|(s & v1 & v2 & Hs & Hgs)].
    - destruct (Hps p Hin) as [?| ->]; [by left|]. right. exists spec, w, w1. split; [by left|done].
    - right. exists s, v1, v2. split; [by right|done]. }
  assert (∀ q, q ∈ patches ++ [patch] → q ∈ patches ∨ q = patch) as Hsnoc
    by (intros q; rewrite elem_of_app, list_elem_of_singleton; tauto).
  destruct (_ && _).
  - case_bool_decide.
    + inv_m. simplify_eq. destruct (Hsnoc p Hp) as [?| ->]; [by left|].
      right. exists spec, w, w1. split; [by left|done].
    + by eapply Hrec.
  - eapply Hrec; [exact H|]. auto.
Qed.
End patch.

(** C17: the patch search is correct.  Whatever sequence [find_flags_patch] returns,
    run in that order it leaves none of the awaited flags undefined, provided the
    awaited flags undefined before are among [undef_flags]; and every patch is an
    instance of a candidate. *)
Theorem find_flags_patch_sound draws conf candidates undef_flags flags_to_set w patches w' u :
  (∀ f, f ∈ u → f ∈ flags_to_set → f ∈ undef_flags) →
  find_flags_patch draws conf candidates undef_flags flags_to_set w = Ok (patches, w') →
  (∀ f, f ∈ flags_to_set → f ∉ undefined_after_all patches u) ∧
  (∀ p, p ∈ patches → ∃ s v v', s ∈ candidates ∧ generate_instruction draws conf s v = Ok (p, v')).
Proof.
  intros Hu H. unfold find_flags_patch in H.
  apply bindM_Ok in H as ([ps ud] & w1 & Hl & H). case_bool_decide as He; [|done]. inv_m. subst.
  split.
  - intros f HF Hf.
    pose proof (flags_patch_loop_sound draws conf candidates undef_flags flags_to_set [] u w
      ps [] w1 Hu Hl f Hf HF) as Hn. by apply elem_of_nil in Hn.
  - intros p Hp. destruct (flags_patch_loop_elem _ _ _ _ _ _ _ _ _ _ Hl p Hp) as [Hn|?]; [|done].
    by apply elem_of_nil in Hn.
Qed.

(** Two candidates: the first writes CF and undefines OF, the second writes OF. *)
Definition cand (name : string) (modes : list string) : InstructionSpec :=
  mkInstructionSpec name [] [new_OperandSpec modes FLAGS false false] "" false false false false.
Definition cand1 : InstructionSpec := cand "P1" ["w"; ""; ""; ""; ""; ""; ""; ""; "undef"].
Definition cand2 : InstructionSpec := cand "P2" [""; ""; ""; ""; ""; ""; ""; ""; "w"].
Definition patch_of (name : string) (modes : list string) : Instruction :=
  mkInstruction name [] [FlagsOperand modes] "" false true None.

Definition found_patches : list Instruction :=
  [set_is_instrumentation (patch_of "P1" ["w"; ""; ""; ""; ""; ""; ""; ""; "undef"]) false;
   set_is_instrumentation (patch_of "P2" [""; ""; ""; ""; ""; ""; ""; ""; "w"]) false].

Lemma find_flags_patch_sound_witness :
  (∀ f, f ∈ ["CF"; "OF"] → f ∉ undefined_after_all found_patches ["CF"; "OF"]) ∧
  (∀ p, p ∈ found_patches → ∃ s v v', s ∈ [cand1; cand2] ∧
     generate_instruction (λ _, 0) demo_conf s v = Ok (p, v')).
Proof.
  apply (find_flags_patch_sound (λ _, 0) demo_conf [cand1; cand2] ["CF"; "OF"] ["CF"; "OF"]
           empty_world found_patches empty_world ["CF"; "OF"]); [auto|vm_compute; reflexivity].
Defined.

(** A shift that undefines CF and OF, and a conditional branch that reads both. *)
Definition undef_shift : Instruction :=
  mkInstruction "SHX" [] [FlagsOperand ["undef"; ""; ""; ""; ""; ""; ""; ""; "undef"]] "" false false None.
Definition reader : Instruction :=
  mkInstruction "CMOVX" [] [FlagsOperand ["r"; ""; ""; ""; ""; ""; ""; ""; "r"]] "" false false None.

Definition two_block (i j : Instruction) : world :=
  mkWorld {[ 0%nat := mkNode i None (Some 1%nat); 1%nat := mkNode j (Some 0%nat) None ]}
    {[ 0%nat := mkBB ".bb_main.0" [] [] (Some 0%nat) (Some 1%nat) ]} 2 1 0 false.

(** The instructions of a block, in order. *)
Definition block_instructions (w : world) (bb : nat) : result (list Instruction) :=
  match collect bb w with Ok (insts, _) => Ok (insts.*2) | Raise e => Raise e end.

(** the undefined-flags pass reverses its patches.  On a block where a shift
    undefines CF and OF and the next instruction reads them, with the two
    candidates above, the pass inserts the patch that undefines OF last: OF is
    still undefined when it is read, although the search had fixed it. *)
Theorem patches_inserted_in_reverse :
  ∃ w', patch_flags_bb (λ _, 0) demo_conf [cand1; cand2] 0 (two_block undef_shift reader) = Ok (tt, w') ∧
    block_instructions w' 0 = Ok [undef_shift;
      patch_of "P2" [""; ""; ""; ""; ""; ""; ""; ""; "w"];
      patch_of "P1" ["w"; ""; ""; ""; ""; ""; ""; ""; "undef"]; reader] ∧
    "OF" ∈ undefined_after_all [undef_shift; patch_of "P2" [""; ""; ""; ""; ""; ""; ""; ""; "w"];
      patch_of "P1" ["w"; ""; ""; ""; ""; ""; ""; ""; "undef"]] [] ∧
    "OF" ∉ undefined_after_all (undef_shift :: found_patches) [].
Proof.
  destruct (patch_flags_bb (λ _, 0) demo_conf [cand1; cand2] 0 (two_block undef_shift reader))
    as [[[] w']|] eqn:E; [|vm_compute in E; discriminate E].
  exists w'. split; [done|]. vm_compute in E. injection E as <-.
  split; [vm_compute; reflexivity|]. split; [by apply (bool_decide_unpack _)|by apply (bool_decide_unpack _)].
Qed.
