(* ===== verification/LayoutFacts.v ===== *)
(** * Protection prefixes and the address map

    [X86RandomProtectPass] only inserts prefixes, in front of instructions;
    [map_addresses] gives every decoded address an instruction, and each
    instruction of the layout the address at its position. *)

From S2P Require Import Prelude.
From S2P Require Import Isa.
From S2P Require Import BasicBlock.
From S2P Require Import Generator.
From S2P Require Import GeneratorFacts.
From S2P Require Import Passes.
From S2P Require Import PassesFacts.

Open Scope Z_scope.

(** ** X86RandomProtectPass *)

Definition prefix_byte : Instruction := new_Instruction ".byte 0x36" false "" false.

(** [is'] is [is_] with at most one prefix in front of each instruction. *)
Inductive prefixed : list Instruction → list Instruction → Prop :=
  | prefixed_nil : prefixed [] []
  | prefixed_plain i is_ is' : prefixed is_ is' → prefixed (i :: is_) (i :: is')
  | prefixed_byte i is_ is' : prefixed is_ is' → prefixed (i :: is_) (prefix_byte :: i :: is').

Lemma contents_next w bb l1 x l2 is_ :
  contents w bb (l1 ++ x :: l2) is_ → next_of (w_heap w) x = head l2.
Proof.
  intros [(b & _ & Hr) _]. rewrite (seg_next _ _ _ _ _ _ (rep_seg _ _ _ Hr)). by destruct l2.
Qed.

Lemma getrandbits_ok draws k w : 0 ≤ k →
  ∃ d w', getrandbits draws k w = Ok (d, w') ∧ 0 ≤ d < 2 ^ k ∧ drawn w w'.
Proof.
  intros Hk. do 2 eexists. split; [reflexivity|]. split; [apply Z.mod_pos_bound; lia|done].
Qed.

Lemma drawn_contents w w' bb l is_ : drawn w w' → contents w bb l is_ → contents w' bb l is_.
Proof. intros (Hh & Hb & _) Hc. unfold contents. by rewrite Hh, Hb. Qed.
Lemma drawn_heap_ok w w' : drawn w w' → heap_ok w → heap_ok w'.
Proof. intros (Hh & _ & Hn & _) Hok x. rewrite Hh, Hn. apply Hok. Qed.
Lemma drawn_extends w w' bb ns : drawn w w' → heap_ok w → extends bb ns w w'.
Proof.
  intros Hd Hok. destruct Hd as (Hh & Hb & Hn & Hrest) eqn:E.
  split; [by apply (drawn_heap_ok w)|lia|by rewrite Hh|by rewrite Hb|].
  intros b Hbb. exists b. by rewrite Hb.
Qed.

(** Does a draw ask for a prefix?  The step of one instruction. *)
Lemma protect_step draws w bb l1 x l2 is1 i is2 :
  heap_ok w → contents w bb (l1 ++ x :: l2) (is1 ++ i :: is2) → length l1 = length is1 →
  ∃ w' pre pre_is,
    (d ← getrandbits draws 2;
     (if d =? 0 then instrument_before bb x prefix_byte else mret tt)) w = Ok (tt, w') ∧
    contents w' bb ((l1 ++ pre ++ [x]) ++ l2) ((is1 ++ pre_is ++ [i]) ++ is2) ∧
    length pre = length pre_is ∧ (pre_is = [] ∨ pre_is = [prefix_byte]) ∧
    extends bb (l1 ++ x :: l2) w w' ∧ (∀ y, y ∈ pre → (w_next_inst w ≤ y)%nat).
Proof.
  intros Hok Hc Hlen. destruct (getrandbits_ok draws 2 w) as (d & w1 & Hd & _ & Hdr); [lia|].
  rewrite (bindM_eq _ _ w d w1 Hd).
  pose proof (drawn_contents _ _ _ _ _ Hdr Hc) as Hc1.
  pose proof (drawn_heap_ok _ _ Hdr Hok) as Hok1.
  pose proof (drawn_extends w w1 bb (l1 ++ x :: l2) Hdr Hok) as He1.
  destruct (d =? 0).
  - destruct (instrument_before_ok w1 bb l1 x l2 is1 i is2 prefix_byte Hok1 Hc1 Hlen)
      as (w2 & H2 & Hc2 & He2 & _).
    exists w2, [w_next_inst w1], [prefix_byte]. split_and!; auto.
    + by rewrite <- !app_assoc.
    + eapply extends_trans; [exact He1|exact He2|auto].
    + intros y ->%list_elem_of_singleton. apply (ext_next _ _ _ _ He1).
  - exists w1, [], []. split_and!; auto.
    + by rewrite <- !app_assoc.
    + intros y Hy. by apply elem_of_nil in Hy.
Qed.

Lemma protect_from_ok draws bb rest : ∀ l1 is1 isr fuel w,
  heap_ok w → contents w bb (l1 ++ rest) (is1 ++ isr) → length l1 = length is1 →
  (length rest ≤ fuel)%nat →
  ∃ w' l' is', protect_from draws fuel bb (head rest) w = Ok (tt, w') ∧
    contents w' bb (l1 ++ l') (is1 ++ is') ∧ prefixed isr is' ∧
    extends bb (l1 ++ rest) w w' ∧ (∀ x, x ∈ l' → x ∈ rest ∨ (w_next_inst w ≤ x)%nat).
Proof.
  induction rest as [|x rest IH]; intros l1 is1 isr fuel w Hok Hc Hlen Hf.
  { exists w, [], []. destruct Hc as [Hr HF]. pose proof (Forall2_length _ _ _ HF) as Hl.
    rewrite !length_app in Hl. destruct isr; cbn in Hl; [|lia].
    split_and!; [by destruct fuel|done|constructor|by apply extends_refl|by intros y ?%elem_of_nil]. }
  destruct isr as [|i isr].
  { destruct Hc as [_ HF%Forall2_length]. rewrite !length_app in HF. cbn in HF. lia. }
  destruct fuel as [|fuel]; cbn in Hf; [lia|].
  destruct (protect_step draws w bb l1 x rest is1 i isr Hok Hc Hlen)
    as (w1 & pre & pre_is & H1 & Hc1 & Hlp & Hpre & He1 & Hfresh).
  cbn [head protect_from].
  assert (next_of (w_heap w1) x = head rest) as Hnext.
  { rewrite !app_assoc, <- (app_assoc _ [x]) in Hc1. by eapply contents_next. }
  destruct (IH (l1 ++ pre ++ [x]) (is1 ++ pre_is ++ [i]) isr fuel w1 (ext_ok _ _ _ _ He1) Hc1)
    as (w2 & l' & is' & H2 & Hc2 & Hp & He2 & Hl'); [rewrite !length_app; cbn; lia|lia|].
  pose proof (ext_next _ _ _ _ He1). 
  exists w2, (pre ++ x :: l'), (pre_is ++ i :: is'). split_and!.
  - apply bindM_Ok in H1 as (d & wd & Hd & H1). rewrite (bindM_eq _ _ w d wd Hd).
    rewrite (bindM_eq _ _ wd tt w1 H1). rewrite (bindM_eq _ _ w1 (head rest) w1); [exact H2|].
    unfold get. by rewrite Hnext.
  - replace (l1 ++ pre ++ x :: l') with ((l1 ++ pre ++ [x]) ++ l') by (by rewrite <- !app_assoc).
    by replace (is1 ++ pre_is ++ i :: is') with ((is1 ++ pre_is ++ [i]) ++ is') by (by rewrite <- !app_assoc).
  - destruct Hpre as [-> | ->]; by constructor.
  - eapply extends_trans; [exact He1|exact He2|]. intros y.
    rewrite !elem_of_app, !elem_of_cons, elem_of_nil.
    intros [[?|[?|[->|[]]]]|?]; [tauto|right; by apply Hfresh|tauto|tauto].
  - intros y. rewrite elem_of_app, !elem_of_cons.
    intros [?|[->|Hy]]; [right; by apply Hfresh|tauto|].
    destruct (Hl' y Hy); [tauto|right; lia].
Qed.

Lemma protect_bb_step draws bb : block_step (protect_bb draws) (λ _, True) prefixed bb.
Proof.
  intros w l is_ Hok Hc _. unfold protect_bb.
  destruct Hc as [(b & Hb & Hr) HF] eqn:E. clear E.
  rewrite (bindM_eq _ _ w b w) by (unfold the_bb; by rewrite Hb).
  rewrite (bindM_eq _ _ w (size (w_heap w)) w) by done.
  rewrite (rep_start _ _ _ Hr).
  destruct (protect_from_ok draws bb l [] [] is_ (size (w_heap w)) w Hok)
    as (w' & l' & is' & H & Hc' & Hp & He & Hl'); [by split; [exists b|]|done| |].
  { eapply seg_dom; apply Hr. }
  exists w', l', is'. split_and!; done.
Qed.

(** random protection only adds prefixes.  For every sequence of draws the pass
    terminates on every block, and the block's instructions afterwards are the
    original ones, in order, each with at most one protection prefix in front. *)
Theorem protect_pass_prefixes draws func w c is_ :
  heap_ok w → NoDup (f_all_bb func) → separated c (f_all_bb func) →
  (∀ bb, bb ∈ f_all_bb func → contents w bb (c bb) (is_ bb)) →
  ∃ w', protect_pass draws (mkTestCase [func] 0 ∅ 0) w = Ok (tt, w') ∧
    ∀ bb, bb ∈ f_all_bb func → ∃ l' is', contents w' bb l' is' ∧ prefixed (is_ bb) is'.
Proof.
  intros Hok Hnd Hsep Hc.
  destruct (for_blocks (protect_bb draws) (λ _ _, True) (λ _, prefixed) (f_all_bb func)) with (w := w) (c := c) (is_ := is_)
    as (w' & H & _ & Hall & _); [intros; apply protect_bb_step|done..|].
  exists w'. split.
  - unfold protect_pass, for_bbs. cbn [for_m tc_functions]. by rewrite (bindM_eq _ _ w tt w' H).
  - intros bb Hbb. destruct (Hall bb Hbb) as (l' & is' & Hc' & Hp & _). eauto.
Qed.

Lemma protect_pass_prefixes_witness :
  let i := new_Instruction "NOP" false "" false in
  ∃ w', protect_pass (λ _, 0) (mkTestCase [mkFunction "" [0%nat] 5 6] 0 ∅ 0) (one_block i) = Ok (tt, w') ∧
    ∀ bb, bb ∈ [0%nat] → ∃ l' is', contents w' bb l' is' ∧ prefixed [i] is'.
Proof.
  intros i. apply (protect_pass_prefixes (λ _, 0) (mkFunction "" [0%nat] 5 6) (one_block i) (λ _, [0%nat]) (λ _, [i])).
  - apply one_block_ok.
  - repeat constructor. set_solver.
  - intros b1 b2 ->%list_elem_of_singleton ->%list_elem_of_singleton. done.
  - intros bb ->%list_elem_of_singleton. apply one_block_ok.
Defined.

(** ** [map_addresses] *)

Lemma assign_addresses_ok (addrs : list Z) (insts : list Instruction) : ∀ (m : gmap Z Instruction) c,
  NoDup addrs → (c + length insts ≤ length addrs)%nat →
  ∃ m' : gmap Z Instruction, for_each (λ inst '(m, counter),
      address ← from_option IndexError (addrs !! counter);
      Ok (<[address := inst]> m, S counter)) insts (m, c) = Ok (m', (c + length insts)%nat) ∧
    (∀ k i a, insts !! k = Some i → addrs !! (c + k)%nat = Some a → m' !! a = Some i) ∧
    (∀ a, (∀ k, (k < length insts)%nat → addrs !! (c + k)%nat ≠ Some a) → m' !! a = m !! a).
Proof.
  induction insts as [|i insts IH]; intros m c Hnd Hc; cbn [for_each length] in *.
  { exists m. rewrite Nat.add_0_r. split_and!; [done|done|done]. }
  destruct (lookup_lt_is_Some_2 addrs c) as [a Ha]; [lia|]. rewrite Ha. cbn [from_option mbind result_bind].
  destruct (IH (<[a := i]> m) (S c) Hnd) as (m' & Hm & Hin & Hout); [lia|].
  exists m'. split; [|split].
  - rewrite Hm. do 2 f_equal. lia.
  - intros [|k] j b Hj Hb; cbn in Hj.
    + injection Hj as <-. rewrite Nat.add_0_r, Ha in Hb. injection Hb as <-.
      rewrite Hout, lookup_insert_eq; [done|]. intros k _ Hk.
      pose proof (NoDup_lookup _ _ _ _ Hnd Ha Hk). lia.
    + apply (Hin k j b Hj). by rewrite Nat.add_succ_comm.
  - intros b Hb. rewrite Hout.
    + rewrite lookup_insert_ne; [done|]. intros ->. apply (Hb 0%nat); [lia|]. by rewrite Nat.add_0_r.
    + intros k Hk. specialize (Hb (S k) ltac:(lia)). by rewrite Nat.add_succ_comm.
Qed.

Lemma fill_unmapped addrs : ∀ m : gmap Z Instruction,
  let m' := fold_left (λ m a, match m !! a with None => <[a := unmapped]> m | Some _ => m end) addrs m in
  (∀ a i, m !! a = Some i → m' !! a = Some i) ∧
  (∀ a, m !! a = None → m' !! a = if mem a addrs then Some unmapped else None).
Proof.
  induction addrs as [|b addrs IH]; intros m; cbn [fold_left]; [by split|].
  destruct (m !! b) as [j|] eqn:Eb; destruct (IH (match m !! b with None => <[b := unmapped]> m | Some _ => m end))
    as [H1 H2]; rewrite Eb in H1, H2; cbn in *.
  - split; [done|]. intros a Ha. rewrite (H2 a Ha). unfold mem.
    assert (a ≠ b) by congruence. repeat case_bool_decide; set_solver.
  - split.
    + intros a i Ha. apply H1. rewrite lookup_insert_ne by congruence. done.
    + intros a Ha. destruct (decide (a = b)) as [->|Hab].
      * rewrite (H1 b unmapped) by (by rewrite lookup_insert_eq).
        by rewrite (proj2 (mem_spec b (b :: addrs))) by (by left).
      * rewrite H2 by (by rewrite lookup_insert_ne). unfold mem.
        repeat case_bool_decide; set_solver.
Qed.

(** the address map.  When the decoder finds distinct addresses and enough of
    them, the [k]-th instruction of the layout is mapped at the address that
    follows the prologue by [k], every other decoded address is mapped to the
    dummy instruction, and nothing else is mapped; with too few addresses
    the mapping raises. *)
Theorem address_map_complete addrs insts prologue :
  NoDup addrs →
  ((prologue + length insts ≤ length addrs)%nat → addrs ≠ [] →
   ∃ m a, address_map_of addrs insts prologue = Ok (m, a) ∧ last addrs = Some a ∧
     (∀ k i b, insts !! k = Some i → addrs !! (prologue + k)%nat = Some b → m !! b = Some i) ∧
     (∀ b, b ∈ addrs → is_Some (m !! b)) ∧
     (∀ b, b ∉ addrs → m !! b = None)) ∧
  ((length addrs < prologue + length insts)%nat → insts ≠ [] →
   address_map_of addrs insts prologue = Raise IndexError).
Proof.
  intros Hnd. split.
  - intros Hlen Hne. destruct (assign_addresses_ok addrs insts ∅ prologue Hnd Hlen) as (m & Hm & Hin & Hout).
    destruct (last addrs) as [a|] eqn:Ea; [|by apply last_None in Ea].
    destruct (fill_unmapped addrs m) as [H1 H2].
    eexists _, a. unfold address_map_of, assign_addresses. rewrite Hm. cbn. rewrite Ea. cbn.
    split; [reflexivity|]. split; [done|]. split_and!.
    + intros k i b Hk Hb. apply H1. by eapply Hin.
    + intros b Hb. destruct (m !! b) eqn:E; [by erewrite H1|].
      rewrite H2 by done. by rewrite (proj2 (mem_spec b addrs) Hb).
    + intros b Hb. assert (m !! b = None) as E.
      { rewrite Hout; [done|]. intros k _ Hk. apply Hb. by eapply list_elem_of_lookup_2. }
      rewrite H2 by done. by rewrite (proj2 (mem_false b addrs) Hb).
  - intros Hlen Hne. unfold address_map_of, assign_addresses.
    assert (∀ (insts : list Instruction) c (m : gmap Z Instruction), (length addrs < c + length insts)%nat → insts ≠ [] →
      for_each (λ inst '(m, counter),
        address ← from_option IndexError (addrs !! counter);
        Ok (<[address := inst]> m, S counter)) insts (m, c) = Raise IndexError) as H.
    { clear. induction insts as [|i insts IH]; intros c m Hlen Hne; [done|]. cbn [for_each length] in *.
      destruct (addrs !! c) as [a|] eqn:Ea; cbn; [|done].
      destruct insts as [|j insts]; [apply lookup_lt_Some in Ea; cbn in *; lia|].
      apply IH; [lia|done]. }
    by rewrite H.
Qed.

Lemma address_map_complete_witness :
  ∃ m a, address_map_of [0; 4; 7] [lfence] 1 = Ok (m, a) ∧ last [0; 4; 7] = Some a ∧
     (∀ k i b, [lfence] !! k = Some i → [0; 4; 7] !! (1 + k)%nat = Some b → m !! b = Some i) ∧
     (∀ b, b ∈ [0; 4; 7] → is_Some (m !! b)) ∧
     (∀ b, b ∉ [0; 4; 7] → m !! b = None).
Proof.
  apply (proj1 (address_map_complete [0; 4; 7] [lfence] 1 ltac:(apply (bool_decide_unpack _); vm_compute; exact I)));
    [cbn; lia|discriminate].
Defined.
