(* ===== verification/Dataflow.v ===== *)
(** * The CTS analysis: which registers are publicly transmitted

    The backward data-flow analysis of [CTSTracer] in [src/src/model.py].
    Capstone is external: a decoded instruction is a record of the attributes
    the analysis reads, registers are capstone's names.  The dictionaries keyed
    by instruction objects are keyed by instruction address here. *)

From S2P Require Import Prelude.

Open Scope Z_scope.

(** ** Decoded instructions *)

Record cs_operand := mkCsOperand {
  co_is_mem : bool;
  co_accessed : bool;          (* access & (CS_AC_READ | CS_AC_WRITE) *)
  co_base : option string;     (* op.mem.base, None for 0 *)
  co_index : option string;
  co_imm : Z
}.

Record cs_insn := mkCsInsn {
  ci_address : Z;
  ci_size : Z;
  ci_bytes : list Z;
  ci_jump : bool;              (* CS_GRP_JUMP in groups *)
  ci_branch_relative : bool;
  ci_opcode_is_jmp : bool;     (* opcode == X86_INS_JMP *)
  ci_opcode_is_div : bool;
  ci_operands : list cs_operand;
  ci_regs_read : list string;
  ci_regs_write : list string
}.

(** ** [subregs_str] *)

Definition is_dec_digit (c : ascii) : bool :=
  let n := N_of_ascii c in (48 <=? n)%N && (n <=? 57)%N.
Fixpoint all_digits (s : string) : bool :=
  match s with EmptyString => true | String c s => is_dec_digit c && all_digits s end.

(** [r(\d+)] followed by [suffix]: the digits. *)
Fixpoint digits_then (suffix s : string) : option string :=
  if bool_decide (s = suffix) then Some ""
  else match s with
       | String c s => if is_dec_digit c then String c <$> digits_then suffix s else None
       | EmptyString => None
       end.
Definition numbered (suffix reg : string) : option string :=
  match reg with
  | String "r" s => match digits_then suffix s with
                    | Some "" => None
                    | o => o
                    end
  | _ => None
  end.

Definition one_of (cs : string) (c : ascii) : bool := str_in (String c "") cs.

(** The patterns over letters, in the order of the table: the names of the next
    smaller registers, or no match. *)
Definition lettered (reg : string) : option (list string) :=
  match reg with
  | String "r" (String c "x") => if one_of "abcd" c then Some ["e" +:+ String c "x"] else None
  | String "e" (String c "x") => if one_of "abcd" c then Some [String c "x"] else None
  | String c "x" => if one_of "abcd" c then Some [String c "h"; String c "l"] else None
  | "rdi" => Some ["edi"] | "rsi" => Some ["esi"]
  | "edi" => Some ["di"] | "esi" => Some ["si"]
  | "di" => Some ["dil"] | "si" => Some ["sil"]
  | "dil" | "sil" => Some []
  | "rsp" => Some ["esp"] | "rbp" => Some ["ebp"]
  | "esp" => Some ["sp"] | "ebp" => Some ["bp"]
  | "sp" => Some ["spl"] | "bp" => Some ["bpl"]
  | "spl" | "bpl" => Some []
  | String c "s" => if one_of "cdsefg" c then Some [] else None
  | "rflags" => Some []
  | String c (String d "") =>
      if one_of "abcd" c && one_of "hl" d then Some [] else None
  | _ => None
  end.

Definition smaller (reg : string) : option (list string) :=
  match numbered "" reg with
  | Some n => Some ["r" +:+ n +:+ "d"]
  | None =>
  match numbered "d" reg with
  | Some n => Some ["r" +:+ n +:+ "w"]
  | None =>
  match numbered "w" reg with
  | Some n => Some ["r" +:+ n +:+ "b"]
  | None =>
  match numbered "b" reg with
  | Some _ => Some []
  | None => lettered reg
  end end end end.

(** The recursion is at most four deep. *)
Fixpoint subregs_str (fuel : nat) (reg : string) : result (list string) :=
  match fuel with
  | O => Raise OutOfFuel
  | S fuel =>
      match smaller reg with
      | Some subs => rest ← mapM (subregs_str fuel) subs; Ok (reg :: mjoin rest)
      | None => Raise ValueError
      end
  end.

Definition expand_subregs_impl (l : list string) : result (list string) :=
  rs ← mapM (subregs_str 5) l; Ok (mjoin rs).

(** ** The analysis state *)

Abbreviation regset := (gset string).

Record analysis := mkAnalysis {
  a_insns : gmap Z cs_insn;
  a_succs : gmap Z (list Z);
  a_pre : gmap Z regset;
  a_post : gmap Z regset
}.
Definition clear_analysis : analysis := mkAnalysis ∅ ∅ ∅ ∅.

(** [get_insns]: the disassembly of the page, in order; a later instruction at
    the same address would overwrite an earlier one. *)
Definition get_insns (decoded : list cs_insn) (a : analysis) : analysis :=
  mkAnalysis (fold_left (λ m i, <[ci_address i := i]> m) decoded (a_insns a))
    (a_succs a) (a_pre a) (a_post a).

(** The successors of one instruction. *)
Definition cfg_targets (i : cs_insn) : result (list Z) :=
  if ci_jump i then
    assert_ (ci_branch_relative i) AssertionError;;
    op ← from_option IndexError (head (ci_operands i));
    Ok (co_imm op :: (if negb (ci_opcode_is_jmp i) then [ci_address i + ci_size i] else []))
  else Ok [ci_address i + ci_size i].

Definition in_code (insns : gmap Z cs_insn) (x : Z) : bool :=
  match insns !! x with Some _ => true | None => false end.

Definition construct_cfg (a : analysis) : result analysis :=
  succs ← for_each (λ p m,
      targets ← cfg_targets p.2;
      Ok (<[p.1 := List.filter (in_code (a_insns a)) targets]> m))
    (map_to_list (a_insns a)) (a_succs a);
  Ok (mkAnalysis (a_insns a) succs (a_pre a) (a_post a)).

(** ** The data-flow equations *)

Definition pre_of (a : analysis) (x : Z) : regset := default ∅ (a_pre a !! x).
Definition post_of (a : analysis) (x : Z) : regset := default ∅ (a_post a !! x).
Definition succs_of (a : analysis) (x : Z) : list Z := default [] (a_succs a !! x).

(** Reading a [defaultdict] creates the entry. *)
Definition touch (x : Z) (m : gmap Z regset) : gmap Z regset :=
  match m !! x with Some _ => m | None => <[x := ∅]> m end.

Definition merge (pred : Z) (a : analysis) : analysis :=
  fold_left (λ a succ,
      mkAnalysis (a_insns a) (a_succs a) (touch succ (a_pre a))
        (<[pred := post_of a pred ∪ pre_of a succ]> (a_post a)))
    (succs_of a pred) a.

Definition get_unprot_operands_impl (i : cs_insn) : list string :=
  (if ci_jump i then ci_regs_read i else []) ++
  (ci_operands i ≫= λ op,
     if co_accessed op then option_list (co_base op) ++ option_list (co_index op) else []).

(** The registers public before an instruction, from those public after it. *)
Definition transfer_regs (i : cs_insn) (post : regset) : regset :=
  let unprot_defs := existsb (λ x, bool_decide (x ∈ post)) (ci_regs_write i) in
  let v := post ∖ list_to_set (ci_regs_write i) in
  let v := v ∪ list_to_set (get_unprot_operands_impl i) in
  if unprot_defs then v ∪ list_to_set (ci_regs_read i) else v.

(** [expand_subregs] runs over the set; the result is the set of all names. *)
Definition transfer (i : cs_insn) (a : analysis) : result analysis :=
  let x := ci_address i in
  expanded ← expand_subregs_impl (elements (transfer_regs i (post_of a x)));
  Ok (mkAnalysis (a_insns a) (a_succs a)
        (<[x := list_to_set expanded]> (touch x (a_pre a))) (touch x (a_post a))).

(** [sorted(self.insns.items(), reverse=True)]: by decreasing address. *)
Definition descending (a b : Z * cs_insn) : Prop := b.1 ≤ a.1.
#[export] Instance descending_dec : RelDecision descending.
Proof. intros a b. unfold descending. apply _. Defined.
Definition sorted_insns (a : analysis) : list (Z * cs_insn) :=
  merge_sort descending (map_to_list (a_insns a)).

Definition one_pass (insns : list (Z * cs_insn)) (a : analysis) : result analysis :=
  for_each (λ p a, transfer p.2 (merge (ci_address p.2) a)) insns a.

(** Did the snapshot change?  The post sets are shared between the two snapshots,
    so only their keys can differ. *)
Definition changed (old new : analysis) : bool :=
  negb (bool_decide (a_pre old = a_pre new) && bool_decide (dom (a_post old) = dom (a_post new))).

Definition dataflow_analysis_one (a : analysis) : result (analysis * bool) :=
  new ← one_pass (sorted_insns a) a; Ok (new, changed a new).

(** [dataflow_analysis]: gives up in iteration 1001 that still changes. *)
Fixpoint dataflow_loop (iters : nat) (a : analysis) : result analysis :=
  '(a, ch) ← dataflow_analysis_one a;
  if negb (ch : bool) then Ok a
  else match iters with
       | O => Raise RuntimeError
       | S iters => dataflow_loop iters a
       end.
Definition dataflow_analysis : analysis → result analysis := dataflow_loop 1000.

Definition analyze_binary (decoded : list cs_insn) (a : analysis) : result analysis :=
  a ← construct_cfg (get_insns decoded a);
  dataflow_analysis a.
