(* ===== verification/DataflowFacts.v ===== *)
(** * The CTS analysis reaches a solution

    What [dataflow_analysis] returns solves the data-flow equations; on code
    without backward edges (what the generator emits) it needs two passes, far
    from its limit of a thousand. *)

From S2P Require Import Prelude.
From S2P Require Import Dataflow.

Open Scope Z_scope.

(** ** One step *)

Lemma touch_default x y m : default (∅ : regset) (touch x m !! y) = default ∅ (m !! y).
Proof.
  unfold touch. destruct (m !! x) eqn:E; [done|].
  destruct (decide (x = y)) as [->|]; [by rewrite lookup_insert_eq, E|by rewrite lookup_insert_ne].
Qed.

(** The public registers flowing in from the successors. *)
Definition inflow (a : analysis) (succs : list Z) : regset := ⋃ (pre_of a <$> succs).

Record merged (pred : Z) (succs : list Z) (a b : analysis) : Prop := {
  mg_insns : a_insns b = a_insns a;
  mg_succs : a_succs b = a_succs a;
  mg_pre : ∀ y, pre_of b y = pre_of a y;
  mg_post : post_of b pred = post_of a pred ∪ inflow a succs;
  mg_other : ∀ y, y ≠ pred → post_of b y = post_of a y
}.

Lemma merge_fold pred succs : ∀ a,
  merged pred succs a
    (fold_left (λ a succ,
      mkAnalysis (a_insns a) (a_succs a) (touch succ (a_pre a))
        (<[pred := post_of a pred ∪ pre_of a succ]> (a_post a))) succs a).
Proof.
  induction succs as [|s succs IH]; intros a; cbn [fold_left].
  - split; try done. unfold inflow. cbn. set_solver.
  - set (b := mkAnalysis _ _ _ _). destruct (IH b) as [H1 H2 H3 H4 H5].
    assert (∀ y, pre_of b y = pre_of a y) as Hpre by (intros y; apply (touch_default s y)).
    split.
    + by rewrite H1.
    + by rewrite H2.
    + intros y. by rewrite H3.
    + rewrite H4. unfold inflow. rewrite (list_fmap_ext _ (pre_of a)) by (intros; apply Hpre). cbn.
      unfold post_of at 1, b. cbn. rewrite lookup_insert_eq. cbn. set_solver.
    + intros y Hy. rewrite H5 by done. unfold post_of, b. cbn. by rewrite lookup_insert_ne.
Qed.

Lemma merge_merged pred a : merged pred (succs_of a pred) a (merge pred a).
Proof. apply merge_fold. Qed.

(** The value the transfer function gives. *)
Definition flow (i : cs_insn) (post : regset) : result regset :=
  expanded ← expand_subregs_impl (elements (transfer_regs i post)); Ok (list_to_set expanded).

(** One instruction of a pass. *)
Record stepped (i : cs_insn) (a b : analysis) : Prop := {
  st_insns : a_insns b = a_insns a;
  st_succs : a_succs b = a_succs a;
  st_post : post_of b (ci_address i) =
            post_of a (ci_address i) ∪ inflow a (succs_of a (ci_address i));
  st_pre : flow i (post_of b (ci_address i)) = Ok (pre_of b (ci_address i));
  st_other : ∀ y, y ≠ ci_address i → pre_of b y = pre_of a y ∧ post_of b y = post_of a y
}.

Lemma step_stepped i a b :
  transfer i (merge (ci_address i) a) = Ok b → stepped i a b.
Proof.
  intros H. destruct (merge_merged (ci_address i) a) as [M1 M2 M3 M4 M5].
  set (m := merge (ci_address i) a) in *. unfold transfer in H.
  apply bind_Ok in H as (ex & Hex & [= <-]).
  assert (∀ y, post_of (mkAnalysis (a_insns m) (a_succs m)
      (<[ci_address i := list_to_set ex]> (touch (ci_address i) (a_pre m)))
      (touch (ci_address i) (a_post m))) y = post_of m y) as Hpost
    by (intros y; apply (touch_default (ci_address i) y)).
  split; cbn.
  - done.
  - done.
  - by rewrite Hpost, M4.
  - rewrite Hpost. unfold flow. rewrite Hex. unfold pre_of. cbn. by rewrite lookup_insert_eq.
  - intros y Hy. split; [|rewrite Hpost; by apply M5].
    rewrite <- M3. unfold pre_of. cbn. rewrite lookup_insert_ne by done.
    apply (touch_default (ci_address i) y).
Qed.

(** ** A pass *)

Definition addresses (l : list (Z * cs_insn)) : list Z := (λ p, ci_address p.2) <$> l.

(** A pass leaves the other addresses alone. *)
Lemma one_pass_other l : ∀ a b y,
  one_pass l a = Ok b → y ∉ addresses l →
  a_insns b = a_insns a ∧ a_succs b = a_succs a ∧
  pre_of b y = pre_of a y ∧ post_of b y = post_of a y.
Proof.
  induction l as [|[k i] l IH]; intros a b y H Hy; cbn in H; [by inv_ok|].
  apply bind_Ok in H as (c & Hc & H). apply step_stepped in Hc.
  change (y ∉ ci_address i :: addresses l) in Hy. apply not_elem_of_cons in Hy as [Hyi Hy].
  destruct (IH c b y H Hy) as (E1 & E2 & E3 & E4). destruct (st_other _ _ _ Hc y Hyi) as [E5 E6].
  rewrite E1, E2, E3, E4. split_and!; [apply Hc|apply Hc|done|done].
Qed.

Lemma one_pass_static l : ∀ a b, one_pass l a = Ok b → a_insns b = a_insns a ∧ a_succs b = a_succs a.
Proof.
  induction l as [|[k i] l IH]; intros a b H; cbn in H; [by inv_ok|].
  apply bind_Ok in H as (c & Hc & H). apply step_stepped in Hc.
  destruct (IH c b H) as [-> ->]. split; apply Hc.
Qed.

(** The equations at one instruction. *)
Definition solved (a : analysis) (i : cs_insn) : Prop :=
  inflow a (succs_of a (ci_address i)) ⊆ post_of a (ci_address i) ∧
  flow i (post_of a (ci_address i)) = Ok (pre_of a (ci_address i)).

Lemma inflow_ext a b succs : (∀ y, y ∈ succs → pre_of a y = pre_of b y) → inflow a succs = inflow b succs.
Proof.
  intros H. unfold inflow. induction succs as [|s succs IH]; [done|]. cbn.
  rewrite H by (by left). f_equal. apply IH. intros y Hy. apply H. by right.
Qed.

(** A pass that changes no pre set ends in a solution. *)
Lemma stable_pass_solves l : ∀ a b,
  NoDup (addresses l) → one_pass l a = Ok b → (∀ y, pre_of a y = pre_of b y) →
  ∀ p, p ∈ l → solved b p.2.
Proof.
  induction l as [|[k i] l IH]; intros a b Hnd H Hst p Hp; [by apply elem_of_nil in Hp|].
  cbn in H. apply bind_Ok in H as (c & Hc & H). apply step_stepped in Hc.
  change (NoDup (ci_address i :: addresses l)) in Hnd. apply NoDup_cons in Hnd as [Hi Hnd].
  destruct (one_pass_other l c b (ci_address i) H Hi) as (E1 & E2 & E3 & E4).
  assert (∀ y, pre_of c y = pre_of b y) as Hst'.
  { intros y. destruct (decide (y = ci_address i)) as [->|Hy]; [done|].
    rewrite <- Hst. apply (st_other _ _ _ Hc y Hy). }
  apply elem_of_cons in Hp as [->|Hp]; [|by eapply IH]. cbn [snd]. split.
  - rewrite E4, (st_post _ _ _ Hc).
    rewrite (inflow_ext b a) by (intros y _; by rewrite Hst).
    unfold succs_of. rewrite E2, (st_succs _ _ _ Hc). set_solver.
  - rewrite E4, E3. apply Hc.
Qed.

(** ** The sorted worklist *)

(** The instruction table is indexed by the instructions' own addresses. *)
Definition indexed (a : analysis) : Prop := ∀ x i, a_insns a !! x = Some i → ci_address i = x.

Lemma sorted_insns_elem a p : p ∈ sorted_insns a ↔ a_insns a !! p.1 = Some p.2.
Proof.
  unfold sorted_insns. rewrite (merge_sort_Permutation descending). destruct p.
  apply elem_of_map_to_list.
Qed.

Lemma sorted_insns_addresses a : indexed a → addresses (sorted_insns a) = (sorted_insns a).*1.
Proof.
  intros Hi. unfold addresses. apply list_fmap_ext. intros k [x i] Hk.
  apply (Hi x i), (sorted_insns_elem a (x, i)). by eapply list_elem_of_lookup_2.
Qed.

Lemma sorted_insns_NoDup a : indexed a → NoDup (addresses (sorted_insns a)).
Proof.
  intros Hi. rewrite sorted_insns_addresses by done.
  unfold sorted_insns. rewrite (merge_sort_Permutation descending). apply NoDup_fst_map_to_list.
Qed.

Lemma get_insns_indexed decoded a : indexed a → indexed (get_insns decoded a).
Proof.
  unfold get_insns, indexed. cbn. revert a. destruct a as [insns s pr po]. cbn. clear.
  revert insns. induction decoded as [|i decoded IH]; intros insns Hi; cbn; [done|].
  apply IH. intros x j. destruct (decide (ci_address i = x)) as [<-|Hx].
  - rewrite lookup_insert_eq. intros [= <-]. done.
  - rewrite lookup_insert_ne by done. apply Hi.
Qed.

Lemma dataflow_loop_last n : ∀ a c, dataflow_loop n a = Ok c →
  ∃ b, dataflow_analysis_one b = Ok (c, false) ∧ a_insns b = a_insns a ∧ a_succs b = a_succs a.
Proof.
  assert (∀ a b ch, dataflow_analysis_one a = Ok (b, ch) → a_insns b = a_insns a ∧ a_succs b = a_succs a) as Hst.
  { intros a b ch H. apply bind_Ok in H as (b' & H & [= <- <-]). by eapply one_pass_static. }
  induction n as [|n IH]; intros a c H; cbn [dataflow_loop] in H;
    apply bind_Ok in H as ([b ch] & Hb & H); destruct ch; cbn in H; inv_ok; eauto.
  destruct (IH b c H) as (b' & H1 & H2 & H3). destruct (Hst _ _ _ Hb) as [E1 E2].
  exists b'. split_and!; [done|congruence|congruence].
Qed.

(** C10: the analysis computes a solution.  Whatever [dataflow_analysis] returns
    satisfies, at every instruction, that the registers public after it include
    those public before each successor, and that those public before it are the
    transfer function of those public after it. *)
Theorem dataflow_analysis_solves a b :
  indexed a → dataflow_analysis a = Ok b →
  a_insns b = a_insns a ∧ a_succs b = a_succs a ∧
  ∀ x i, a_insns a !! x = Some i → solved b i.
Proof.
  intros Hi H. destruct (dataflow_loop_last _ _ _ H) as (c & Hc & E1 & E2).
  apply bind_Ok in Hc as (b' & Hp & [= <- Hch]).
  destruct (one_pass_static _ _ _ Hp) as [S1 S2]. split_and!; [congruence|congruence|].
  intros x i Hx. unfold changed in Hch. apply negb_false_iff, andb_true_iff in Hch as [Hpre _].
  apply bool_decide_eq_true in Hpre.
  apply (stable_pass_solves (sorted_insns c) c b') with (p := (x, i)).
  - apply sorted_insns_NoDup. intros y j. rewrite E1. apply Hi.
  - done.
  - intros y. unfold pre_of. by rewrite Hpre.
  - apply sorted_insns_elem. cbn. by rewrite E1.
Qed.

(** ** Forward code: two passes *)

(** Every key the instruction needs is present. *)
Record keyed (a : analysis) (i : cs_insn) : Prop := {
  kd_pre : is_Some (a_pre a !! ci_address i);
  kd_post : is_Some (a_post a !! ci_address i);
  kd_succs : ∀ s, s ∈ succs_of a (ci_address i) → is_Some (a_pre a !! s)
}.

Lemma touch_present x (m : gmap Z regset) : is_Some (m !! x) → touch x m = m.
Proof. unfold touch. by intros [v ->]. Qed.

Lemma touch_keys x y (m : gmap Z regset) : is_Some (m !! y) → is_Some (touch x m !! y).
Proof.
  intros H. unfold touch. destruct (m !! x) eqn:E; [done|].
  destruct (decide (x = y)) as [->|]; [by rewrite lookup_insert_eq; eexists|by rewrite lookup_insert_ne].
Qed.
Lemma touch_key x (m : gmap Z regset) : is_Some (touch x m !! x).
Proof. unfold touch. destruct (m !! x) eqn:E; [by eexists|rewrite lookup_insert_eq; by eexists]. Qed.

Lemma merge_fixed pred succs a :
  is_Some (a_post a !! pred) → (∀ s, s ∈ succs → is_Some (a_pre a !! s)) →
  inflow a succs ⊆ post_of a pred →
  fold_left (λ a succ,
      mkAnalysis (a_insns a) (a_succs a) (touch succ (a_pre a))
        (<[pred := post_of a pred ∪ pre_of a succ]> (a_post a))) succs a = a.
Proof.
  intros [v Hv] Hs Hin. induction succs as [|s succs IH]; [done|]. cbn [fold_left].
  unfold inflow in Hin. cbn in Hin.
  rewrite (touch_present s) by (apply Hs; by left).
  assert (post_of a pred ∪ pre_of a s = v) as ->.
  { unfold post_of in *. rewrite Hv in *. cbn in *. set_solver. }
  rewrite insert_id by done. replace (mkAnalysis _ _ _ _) with a by (by destruct a).
  apply IH; [intros y Hy; apply Hs; by right|]. unfold inflow. set_solver.
Qed.

Lemma step_fixed i a : solved a i → keyed a i → transfer i (merge (ci_address i) a) = Ok a.
Proof.
  intros [Hin Hfl] [[v Hv] Hpost Hs]. unfold merge. rewrite merge_fixed by done.
  unfold transfer. unfold flow in Hfl. apply bind_Ok in Hfl as (ex & Hex & [= Heq]).
  rewrite Hex. cbn [mbind result_bind]. rewrite !touch_present by (done || by eexists).
  rewrite Heq, insert_id by (unfold pre_of; by rewrite Hv). by destruct a.
Qed.

Lemma pass_fixed l a : (∀ p, p ∈ l → solved a p.2 ∧ keyed a p.2) → one_pass l a = Ok a.
Proof.
  induction l as [|p l IH]; intros H; [done|]. cbn.
  destruct (H p ltac:(by left)) as [H1 H2]. rewrite (step_fixed _ _ H1 H2). cbn [mbind result_bind].
  apply IH. intros q Hq. apply H. by right.
Qed.

Lemma merge_keys pred succs : ∀ a,
  let b := fold_left (λ a succ,
      mkAnalysis (a_insns a) (a_succs a) (touch succ (a_pre a))
        (<[pred := post_of a pred ∪ pre_of a succ]> (a_post a))) succs a in
  (∀ y, is_Some (a_pre a !! y) → is_Some (a_pre b !! y)) ∧
  (∀ y, is_Some (a_post a !! y) → is_Some (a_post b !! y)) ∧
  (∀ s, s ∈ succs → is_Some (a_pre b !! s)).
Proof.
  induction succs as [|s succs IH]; intros a; cbn [fold_left].
  { split_and!; [done|done|]. intros s Hs. by apply elem_of_nil in Hs. }
  set (c := mkAnalysis _ _ _ _). destruct (IH c) as (H1 & H2 & H3). cbn in *. split_and!.
  - intros y Hy. apply H1. cbn. by apply touch_keys.
  - intros y Hy. apply H2. cbn. destruct (decide (pred = y)) as [->|].
    + rewrite lookup_insert_eq. by eexists.
    + by rewrite lookup_insert_ne.
  - intros t [->|Ht]%elem_of_cons; [|by apply H3]. apply H1. cbn. apply touch_key.
Qed.

Lemma step_keys i a b : transfer i (merge (ci_address i) a) = Ok b →
  (∀ y, is_Some (a_pre a !! y) → is_Some (a_pre b !! y)) ∧
  (∀ y, is_Some (a_post a !! y) → is_Some (a_post b !! y)) ∧ keyed b i.
Proof.
  intros H. pose proof (mg_succs _ _ _ _ (merge_merged (ci_address i) a)) as Hms.
  pose proof (merge_keys (ci_address i) (succs_of a (ci_address i)) a) as (K1 & K2 & K3).
  fold (merge (ci_address i) a) in K1, K2, K3. set (m := merge (ci_address i) a) in *.
  unfold transfer in H. apply bind_Ok in H as (ex & _ & [= <-]).
  assert (∀ y, is_Some (a_pre m !! y) →
    is_Some (<[ci_address i := (list_to_set ex : regset)]> (touch (ci_address i) (a_pre m)) !! y)) as Kp.
  { intros y Hy. destruct (decide (ci_address i = y)) as [->|].
    - rewrite lookup_insert_eq. by eexists.
    - rewrite lookup_insert_ne by done. by apply touch_keys. }
  split_and!; cbn.
  - intros y Hy. by apply Kp, K1.
  - intros y Hy. apply touch_keys. by apply K2.
  - split; cbn.
    + rewrite lookup_insert_eq. by eexists.
    + apply touch_key.
    + intros s Hs. apply Kp, K3. unfold succs_of in *. cbn in Hs.
      by rewrite Hms in Hs.
Qed.

Lemma pass_keys l : ∀ a b, one_pass l a = Ok b →
  (∀ y, is_Some (a_pre a !! y) → is_Some (a_pre b !! y)) ∧
  (∀ y, is_Some (a_post a !! y) → is_Some (a_post b !! y)) ∧ ∀ p, p ∈ l → keyed b p.2.
Proof.
  induction l as [|[k i] l IH]; intros a b H.
  { cbn in H. inv_ok. split_and!; [done|done|]. intros p Hp. by apply elem_of_nil in Hp. }
  cbn in H. apply bind_Ok in H as (c & Hc & H).
  destruct (step_keys _ _ _ Hc) as (K1 & K2 & K3). destruct (IH c b H) as (I1 & I2 & I3).
  split_and!; [auto|auto|]. intros p [->|Hp]%elem_of_cons; [|by apply I3]. cbn [snd].
  destruct K3 as [P1 P2 P3]. split; [auto|auto|]. intros s Hs. apply I1, P3.
  unfold succs_of in *. by rewrite (proj2 (one_pass_static _ _ _ H)) in Hs.
Qed.

(** All edges lead to a larger address. *)
Definition forward_code (a : analysis) : Prop :=
  ∀ x i s, a_insns a !! x = Some i → s ∈ succs_of a x → x < s.

Lemma forward_pass_solves l : ∀ a b,
  StronglySorted descending l → NoDup (addresses l) → (∀ p, p ∈ l → ci_address p.2 = p.1) →
  (∀ p s, p ∈ l → s ∈ succs_of a (ci_address p.2) → ci_address p.2 < s) →
  one_pass l a = Ok b → ∀ p, p ∈ l → solved b p.2.
Proof.
  induction l as [|[k i] l IH]; intros a b Hsort Hnd Hidx Hfwd H p Hp; [by apply elem_of_nil in Hp|].
  pose proof (Hidx (k, i) ltac:(by left)) as Hk. cbn in Hk. cbn in H.
  apply bind_Ok in H as (c & Hc & H). apply step_stepped in Hc.
  inversion_clear Hsort as [|? ? Hsort' Hall]. rewrite Forall_forall in Hall.
  change (NoDup (ci_address i :: addresses l)) in Hnd. apply NoDup_cons in Hnd as [Hi Hnd].
  assert (∀ q, q ∈ l → ci_address q.2 = q.1) as Hidx' by (intros q Hq; apply Hidx; by right).
  apply elem_of_cons in Hp as [->|Hp].
  - cbn [snd]. destruct (one_pass_other l c b (ci_address i) H Hi) as (_ & E2 & E3 & E4).
    split; [|rewrite E4, E3; apply Hc].
    assert (∀ s, s ∈ succs_of a (ci_address i) → pre_of a s = pre_of b s) as Hsame.
    { intros s Hs. pose proof (Hfwd (k, i) s ltac:(by left) Hs) as Hlt. cbn in Hlt.
      assert (s ∉ addresses l) as Hns.
      { intros (q & -> & Hq)%list_elem_of_fmap. specialize (Hall q Hq). unfold descending in Hall. cbn in Hall.
        rewrite (Hidx' q Hq) in Hlt. lia. }
      destruct (one_pass_other l c b s H Hns) as (_ & _ & -> & _).
      symmetry. apply (st_other _ _ _ Hc). lia. }
    unfold succs_of in *. rewrite E2, (st_succs _ _ _ Hc).
    rewrite <- (inflow_ext a b) by done. rewrite E4, (st_post _ _ _ Hc). unfold succs_of. set_solver.
  - eapply (IH c b); try done. intros q s Hq Hs. apply (Hfwd q s); [by right|].
    unfold succs_of in *. by rewrite (st_succs _ _ _ Hc) in Hs.
Qed.

(** C37: on code without backward edges the analysis converges in two passes.  If
    the first pass knows every register it meets, the loop returns its result;
    the limit of a thousand iterations is never reached. *)
Theorem forward_code_converges a b n :
  indexed a → forward_code a → one_pass (sorted_insns a) a = Ok b →
  dataflow_loop (S n) a = Ok b.
Proof.
  intros Hi Hf Hp. destruct (one_pass_static _ _ _ Hp) as [S1 S2].
  assert (∀ p, p ∈ sorted_insns a → solved b p.2 ∧ keyed b p.2) as Hall.
  { intros p Hpin. split; [|by eapply pass_keys].
    apply (forward_pass_solves (sorted_insns a) a b); try done.
    - apply StronglySorted_merge_sort; [|intros x y; unfold descending; lia].
      intros x y z. unfold descending. lia.
    - by apply sorted_insns_NoDup.
    - intros q Hq. apply Hi. by apply sorted_insns_elem.
    - intros q s Hq Hs. pose proof (proj1 (sorted_insns_elem a q) Hq) as Hq'.
      rewrite (Hi _ _ Hq') in *. by eapply Hf. }
  assert (dataflow_loop n b = Ok b) as Hb.
  { assert (dataflow_analysis_one b = Ok (b, false)) as Hone.
    { unfold dataflow_analysis_one.
      replace (sorted_insns b) with (sorted_insns a) by (unfold sorted_insns; by rewrite S1).
      rewrite pass_fixed by done. cbn. unfold changed. by rewrite !bool_decide_true. }
    destruct n; cbn [dataflow_loop]; by rewrite Hone. }
  cbn [dataflow_loop]. unfold dataflow_analysis_one. rewrite Hp. cbn [mbind result_bind].
  destruct (changed a b) eqn:E; cbn [negb]; done.
Qed.

(** Two instructions: [add rax, rbx] at 0 and [jnz 8] at 4, reading rflags. *)
Definition demo_add : cs_insn := mkCsInsn 0 4 [] false false false false
  [mkCsOperand false true None None 0; mkCsOperand true true (Some "r14") (Some "rcx") 0]
  ["rax"; "rbx"] ["rax"; "rflags"].
Definition demo_jnz : cs_insn := mkCsInsn 4 2 [] true true false false
  [mkCsOperand false false None None 0x20] ["rflags"] [].
Definition demo_analysis : analysis :=
  mkAnalysis (<[4 := demo_jnz]> (<[0 := demo_add]> ∅)) (<[4 := []]> (<[0 := [4]]> ∅)) ∅ ∅.

Example demo_cfg : construct_cfg (get_insns [demo_add; demo_jnz] clear_analysis) = Ok demo_analysis.
Proof. vm_compute. reflexivity. Qed.

Lemma demo_lookup x i : a_insns demo_analysis !! x = Some i →
  (x = 0 ∧ i = demo_add) ∨ (x = 4 ∧ i = demo_jnz).
Proof.
  unfold demo_analysis, a_insns. intros Hx.
  apply lookup_insert_Some in Hx as [[Hk Hi]|[_ Hx]]; [right; by subst|].
  apply lookup_insert_Some in Hx as [[Hk Hi]|[_ Hx]]; [left; by subst|].
  by rewrite lookup_empty in Hx.
Qed.

Lemma forward_code_converges_witness :
  match one_pass (sorted_insns demo_analysis) demo_analysis with
  | Ok b => dataflow_loop 2 demo_analysis = Ok b ∧ "rbx" ∈ pre_of b 0
  | Raise _ => False
  end.
Proof.
  destruct (one_pass (sorted_insns demo_analysis) demo_analysis) as [b|] eqn:E; [|vm_compute in E; discriminate E].
  split.
  - apply (forward_code_converges demo_analysis b 1).
    + intros x i Hx. by destruct (demo_lookup x i Hx) as [[-> ->]|[-> ->]].
    + intros x i s Hx Hs. destruct (demo_lookup x i Hx) as [[-> ->]|[-> ->]]; clear Hx.
      * replace (succs_of demo_analysis 0) with [4] in Hs by (vm_compute; reflexivity).
        apply list_elem_of_singleton in Hs as ->. lia.
      * replace (succs_of demo_analysis 4) with (@nil Z) in Hs by (vm_compute; reflexivity).
        exfalso. exact (proj1 (elem_of_nil s) Hs).
    + exact E.
  - vm_compute in E. injection E as <-. apply (bool_decide_unpack _). vm_compute. exact I.
Defined.

Lemma dataflow_analysis_solves_witness :
  match dataflow_analysis demo_analysis with
  | Ok b => a_insns b = a_insns demo_analysis ∧ a_succs b = a_succs demo_analysis ∧
            ∀ x i, a_insns demo_analysis !! x = Some i → solved b i
  | Raise _ => False
  end.
Proof.
  destruct (dataflow_analysis demo_analysis) as [b|] eqn:E; [|vm_compute in E; discriminate E].
  apply (dataflow_analysis_solves demo_analysis b); [|exact E].
  intros x i Hx. by destruct (demo_lookup x i Hx) as [[-> ->]|[-> ->]].
Defined.
