(* ===== verification/Uc.v ===== *)
(** * The emulator interface

    Unicorn is external: the class [Uc] lists the operations [src/src/model.py]
    calls, [UcLaws] the behaviour it documents: byte-addressed memory; registers of
    64 bits whose parts have names of their own, so that a write of RAX is a write of
    EAX and AL; contexts that save the registers and not the memory.  The code only
    writes full registers: of a write to a part nothing is assumed.  Accesses to
    unmapped memory, which raise in Unicorn, are outside the model.  A concrete
    emulator state shows that the laws are consistent. *)

From S2P Require Import Prelude Isa Registers.

Open Scope Z_scope.

Class Uc (uc ctx : Type) := {
  mem_byte : uc → Z → Z;
  mem_write : uc → Z → list Z → uc;
  reg_read : uc → string → Z;
  reg_write : uc → string → Z → uc;
  context_save : uc → ctx;
  context_restore : uc → ctx → uc
}.

(** [emulator.mem_read(address, size)] *)
Definition mem_read `{Uc uc ctx} (u : uc) (address : Z) (size : Z) : list Z :=
  (λ k : nat, mem_byte u (address + Z.of_nat k)) <$> seq 0 (Z.to_nat size).

Class UcLaws (uc ctx : Type) `{Uc uc ctx} := {
  write_byte u a bs x :
    mem_byte (mem_write u a bs) x =
    if (a <=? x) && (x <? a + Z.of_nat (length bs)) then default 0 (bs !! Z.to_nat (x - a))
    else mem_byte u x;
  write_regs u a bs r : reg_read (mem_write u a bs) r = reg_read u r;
  reg_view u r : reg_read u r = part r (reg_read u (base_of r));
  reg_range u r : is_full r = true → norm r (reg_read u r) = reg_read u r;
  reg_write_eq u r v : is_full r = true → reg_read (reg_write u r v) r = norm r v;
  reg_write_ne u r r' v : is_full r = true → base_of r' ≠ r → reg_read (reg_write u r v) r' = reg_read u r';
  reg_write_cong u u' r v : (∀ q, reg_read u q = reg_read u' q) →
    ∀ q, reg_read (reg_write u r v) q = reg_read (reg_write u' r v) q;
  reg_write_mem u r v x : mem_byte (reg_write u r v) x = mem_byte u x;
  restore_regs u u' r : reg_read (context_restore u (context_save u')) r = reg_read u' r;
  restore_mem u c x : mem_byte (context_restore u c) x = mem_byte u x
}.

(** ** A concrete emulator *)

(** The registers that were written, by their full names. *)
Record toy_uc := mkToy { toy_mem : gmap Z Z; toy_regs : gmap string Z }.
Definition toy_full (regs : gmap string Z) (b : string) : Z :=
  let v := default 0 (regs !! b) in if is_full b then norm b v else v.

#[export] Instance toy_Uc : Uc toy_uc (gmap string Z) := {
  mem_byte u a := default 0 (toy_mem u !! a);
  mem_write u a bs :=
    mkToy (list_to_map (imap (λ k b, (a + Z.of_nat k, b)) bs) ∪ toy_mem u) (toy_regs u);
  reg_read u r := part r (toy_full (toy_regs u) (base_of r));
  reg_write u r v :=
    mkToy (toy_mem u) (<[base_of r := set_part r (toy_full (toy_regs u) (base_of r)) v]> (toy_regs u));
  context_save u := toy_regs u;
  context_restore u c := mkToy (toy_mem u) c
}.

(** The bytes a write stores. *)
Lemma written_bytes (bs : list Z) : ∀ a x,
  (list_to_map (imap (λ k b, (a + Z.of_nat k, b)) bs) : gmap Z Z) !! x =
  if (a <=? x) && (x <? a + Z.of_nat (length bs)) then bs !! Z.to_nat (x - a) else None.
Proof.
  induction bs as [|b bs IH]; intros a x.
  { change (imap _ []) with (@nil (Z * Z)). cbn [list_to_map foldr length]. rewrite lookup_empty.
    destruct (Z.leb_spec a x), (Z.ltb_spec x (a + Z.of_nat 0)); cbn [andb]; reflexivity. }
  rewrite imap_cons, (imap_ext _ (λ k b, (a + 1 + Z.of_nat k, b))) by (intros; cbn; f_equal; lia).
  change (Z.of_nat 0) with 0. rewrite Z.add_0_r. cbn [list_to_map foldr length uncurry].
  destruct (decide (x = a)) as [->|Hx].
  - rewrite lookup_insert_eq, Z.leb_refl, Z.sub_diag. cbn.
    destruct (Z.ltb_spec a (a + Z.of_nat (S (length bs)))); [done|lia].
  - rewrite lookup_insert_ne by done. rewrite IH.
    destruct (Z.leb_spec a x), (Z.leb_spec (a + 1) x),
      (Z.ltb_spec x (a + Z.of_nat (S (length bs)))), (Z.ltb_spec x (a + 1 + Z.of_nat (length bs)));
      cbn; try done; try lia.
    replace (Z.to_nat (x - a)) with (S (Z.to_nat (x - (a + 1)))) by lia. done.
Qed.

(** What a full register shows of itself, and after a write. *)
Lemma toy_part_base regs r : part (base_of r) (toy_full regs (base_of r)) = toy_full regs (base_of r).
Proof.
  unfold toy_full. destruct (is_full (base_of r)) eqn:E; [by apply part_full|].
  apply part_none. destruct (view_of r) as [[[b low] width]|] eqn:Hv.
  - destruct (view_base _ _ _ _ Hv) as (Hb & _). unfold base_of in E. rewrite Hv in E. congruence.
  - unfold base_of. by rewrite Hv.
Qed.
Lemma toy_part regs r : part r (part (base_of r) (toy_full regs (base_of r))) = part r (toy_full regs (base_of r)).
Proof. by rewrite toy_part_base. Qed.
Lemma toy_full_insert (regs : gmap string Z) b b' v :
  toy_full (<[b := v]> regs) b' = if decide (b' = b) then (if is_full b then norm b v else v) else toy_full regs b'.
Proof.
  unfold toy_full. destruct (decide (b' = b)) as [->|Hne]; [by rewrite lookup_insert_eq|by rewrite lookup_insert_ne].
Qed.
Lemma toy_written r old v : is_full r = true →
  part r (if is_full r then norm r (set_part r old v) else set_part r old v) = norm r v.
Proof.
  intros Hr. rewrite Hr, part_full by done. unfold set_part.
  destruct (full_view r Hr) as [[Hne ->]|[-> ->]].
  - change (32 <=? 64) with true. cbv iota. unfold norm. apply String.eqb_neq in Hne. rewrite Hne. apply wrap64_idemp.
  - change (32 <=? 32) with true. cbv iota.
    change (Z.lor ((v mod 2 ^ 32) mod 2 ^ 32) 2 = Z.lor (v mod 2 ^ 32) 2). by rewrite Zmod_mod.
Qed.

#[export] Instance toy_UcLaws : UcLaws toy_uc (gmap string Z).
Proof.
  split; cbn; try done.
  - intros u a bs x. rewrite lookup_union, written_bytes.
    destruct ((a <=? x) && (x <? a + Z.of_nat (length bs))) eqn:E.
    + apply andb_true_iff in E as [H1%Z.leb_le H2%Z.ltb_lt].
      destruct (lookup_lt_is_Some_2 bs (Z.to_nat (x - a))) as [b Hb]; [lia|]. rewrite Hb.
      by destruct (toy_mem u !! x).
    + by destruct (toy_mem u !! x).
  - intros u r. rewrite base_of_base. symmetry. apply toy_part.
  - intros u r Hr. rewrite full_base by done. unfold toy_full. rewrite Hr, part_full by done. apply norm_idemp.
  - intros u r v Hr. rewrite full_base by done. rewrite toy_full_insert, decide_True by done. by apply toy_written.
  - intros u r r' v Hr Hne. rewrite toy_full_insert, decide_False; [done|]. by rewrite (full_base r).
  - intros u u' r v Heq q. rewrite !toy_full_insert.
    assert (Hb : ∀ q, toy_full (toy_regs u) (base_of q) = toy_full (toy_regs u') (base_of q)).
    { intros p. specialize (Heq (base_of p)). rewrite base_of_base in Heq. by rewrite !toy_part_base in Heq. }
    by rewrite !Hb.
Qed.

(** ** Shared facts *)

Section facts.
Context `{UcLaws uc ctx}.

Lemma length_mem_read u a n : 0 ≤ n → length (mem_read u a n) = Z.to_nat n.
Proof. intros. unfold mem_read. by rewrite length_fmap, length_seq. Qed.

Lemma mem_read_lookup u a n k : (k < Z.to_nat n)%nat →
  mem_read u a n !! k = Some (mem_byte u (a + Z.of_nat k)).
Proof. intros. unfold mem_read. by rewrite list_lookup_fmap, lookup_seq_lt. Qed.

(** What a name shows after a full register was written. *)
Lemma reg_write_read u r v q : is_full r = true →
  reg_read (reg_write u r v) q = if decide (base_of q = r) then part q (norm r v) else reg_read u q.
Proof.
  intros Hr. destruct (decide (base_of q = r)) as [<-|Hne]; [|by apply reg_write_ne].
  by rewrite reg_view, reg_write_eq.
Qed.

(** Writing back the value of a full register. *)
Lemma reg_write_back u u' r : is_full r = true → reg_read (reg_write u r (reg_read u' r)) r = reg_read u' r.
Proof. intros Hr. by rewrite reg_write_eq, reg_range. Qed.

(** Writing back what was read restores the bytes, whatever happened since. *)
Lemma write_back u u' a n x : 0 ≤ n →
  mem_byte (mem_write u' a (mem_read u a n)) x =
  if (a <=? x) && (x <? a + n) then mem_byte u x else mem_byte u' x.
Proof.
  intros Hn. rewrite write_byte, length_mem_read, Z2Nat.id by done.
  destruct ((a <=? x) && (x <? a + n)) eqn:E; [|done].
  apply andb_true_iff in E as [H1%Z.leb_le H2%Z.ltb_lt].
  rewrite mem_read_lookup by lia. cbn. f_equal. lia.
Qed.

(** Outside the range written, memory is unchanged. *)
Lemma write_outside u a bs x :
  ¬ (a ≤ x < a + Z.of_nat (length bs)) → mem_byte (mem_write u a bs) x = mem_byte u x.
Proof.
  intros Hx. rewrite write_byte.
  destruct (Z.leb_spec a x), (Z.ltb_spec x (a + Z.of_nat (length bs))); cbn; try done. lia.
Qed.
End facts.
