(* ===== verification/Model.v ===== *)
(** * The contract model: tracers and speculation

    [src/src/model.py] without the taint tracker (see [Taint]) and the CTS
    analysis (see [Dataflow]): the observation clauses (tracers), the execution
    clauses (sequential, conditional misprediction, store bypass, zero
    injection), checkpoints and rollbacks, and the loading of inputs.  A hook of
    the emulator is a function of the model state. *)

From S2P Require Import Prelude.
From S2P Require Import Isa.
From S2P Require Import Input.
From S2P Require Import Taint.
From S2P Require Import Boosting.
From S2P Require Import Dataflow.
From S2P Require Import Registers Uc.

Open Scope Z_scope.

(** ** Clauses *)

Inductive observation_clause :=
  | L1D | PC | MEMORY | CT | CTNonSpecStore | CTR | CTX | Prot | CTS | Arch.
Inductive execution_clause := Seq | Cond | Bpas | Null | CondBpas.

#[export] Instance observation_clause_eq_dec : EqDecision observation_clause.
Proof. solve_decision. Defined.
#[export] Instance execution_clause_eq_dec : EqDecision execution_clause.
Proof. solve_decision. Defined.

(** [get_model]: the clauses a configuration selects. *)
Definition get_execution_clause (clauses : list string) : result execution_clause :=
  if mem "cond" clauses && mem "bpas" clauses then Ok CondBpas
  else if mem "cond" clauses then Ok Cond
  else if mem "bpas" clauses then Ok Bpas
  else if mem "cond-bpas" clauses then Ok CondBpas
  else if mem "null-injection" clauses then Ok Null
  else if mem "seq" clauses then Ok Seq
  else Raise ConfigException.
Definition get_observation_clause (clause : string) : result observation_clause :=
  if bool_decide (clause = "l1d") then Ok L1D
  else if bool_decide (clause = "pc") then Ok PC
  else if bool_decide (clause = "memory") then Ok MEMORY
  else if bool_decide (clause = "ct") then Ok CT
  else if bool_decide (clause = "ctx") then Ok CTX
  else if bool_decide (clause = "ct-nonspecstore") then Ok CTNonSpecStore
  else if bool_decide (clause = "ctr") then Ok CTR
  else if bool_decide (clause = "arch") then Ok Arch
  else if bool_decide (clause = "prot") then Ok Prot
  else if bool_decide (clause = "cts") then Ok CTS
  else Raise ConfigException.
Definition get_model (model : string) (execution : list string) (observation : string)
    : result (execution_clause * observation_clause) :=
  if bool_decide (model = "x86-unicorn") then
    e ← get_execution_clause execution;
    o ← get_observation_clause observation;
    Ok (e, o)
  else Raise ConfigException.

(** ** State *)

(** [TracedMemAccess] and [TracedInstruction] of [src/src/interfaces.py]. *)
Record TracedMemAccess := mkAccess { m_address : Z; m_value : Z; m_is_store : bool }.
Record TracedInstruction := mkTraced { i_address : Z; accesses : list TracedMemAccess }.
Abbreviation ExecutionTrace := (list TracedInstruction).

Record tracer_state := mkTracerState {
  tr_trace : list Z;
  tr_execution_trace : ExecutionTrace;
  tr_instruction_id : nat;
  tr_unprot_regs : list string;
  tr_last_pc : Z;
  tr_analyzed : bool;
  tr_analysis : analysis
}.

Record settings := mkSettings {
  s_observation : observation_clause;
  s_execution : execution_clause;
  s_nesting : Z;
  s_max_spec_window : Z;
  s_sandbox_base : Z;
  s_code_start : Z;
  s_regions : regions;
  s_address_map : gmap Z Instruction;
  s_tainting_enabled : bool;
  s_execution_tracing_enabled : bool
}.

Section model.
Context {uc ctx : Type} `{!Uc uc ctx}.
(** Capstone: the instruction at the start of a byte string, the instructions of a page. *)
Context (disasm_one : list Z → Z → option cs_insn) (disasm : list Z → Z → list cs_insn).
Context (cfg : settings).

(** The stacks [checkpoints] and [store_logs] have their top at the head. *)
Record model := mkModel {
  m_uc : uc;
  m_tracer : tracer_state;
  m_taint : option tracker;
  m_current_instruction : option Instruction;
  m_in_speculation : bool;
  m_speculation_window : Z;
  m_checkpoints : list (ctx * Z * Z * Z);
  m_store_logs : list (list (Z * list Z));
  m_previous_store : Z * Z * list Z * Z;
  m_latest_rollback_address : Z;
  m_instruction_address : Z;
  m_stopped : bool
}.

Definition set_uc (u : uc) (m : model) : model :=
  mkModel u (m_tracer m) (m_taint m) (m_current_instruction m) (m_in_speculation m)
    (m_speculation_window m) (m_checkpoints m) (m_store_logs m) (m_previous_store m)
    (m_latest_rollback_address m) (m_instruction_address m) (m_stopped m).
Definition set_tracer (t : tracer_state) (m : model) : model :=
  mkModel (m_uc m) t (m_taint m) (m_current_instruction m) (m_in_speculation m)
    (m_speculation_window m) (m_checkpoints m) (m_store_logs m) (m_previous_store m)
    (m_latest_rollback_address m) (m_instruction_address m) (m_stopped m).
Definition set_taint (t : option tracker) (m : model) : model :=
  mkModel (m_uc m) (m_tracer m) t (m_current_instruction m) (m_in_speculation m)
    (m_speculation_window m) (m_checkpoints m) (m_store_logs m) (m_previous_store m)
    (m_latest_rollback_address m) (m_instruction_address m) (m_stopped m).
Definition set_current (i : Instruction) (m : model) : model :=
  mkModel (m_uc m) (m_tracer m) (m_taint m) (Some i) (m_in_speculation m)
    (m_speculation_window m) (m_checkpoints m) (m_store_logs m) (m_previous_store m)
    (m_latest_rollback_address m) (m_instruction_address m) (m_stopped m).
Definition set_speculation (ins : bool) (window : Z) (cps : list (ctx * Z * Z * Z))
    (logs : list (list (Z * list Z))) (m : model) : model :=
  mkModel (m_uc m) (m_tracer m) (m_taint m) (m_current_instruction m) ins window cps logs
    (m_previous_store m) (m_latest_rollback_address m) (m_instruction_address m) (m_stopped m).
Definition set_previous_store (p : Z * Z * list Z * Z) (m : model) : model :=
  mkModel (m_uc m) (m_tracer m) (m_taint m) (m_current_instruction m) (m_in_speculation m)
    (m_speculation_window m) (m_checkpoints m) (m_store_logs m) p
    (m_latest_rollback_address m) (m_instruction_address m) (m_stopped m).
Definition set_rollback_address (a : Z) (m : model) : model :=
  mkModel (m_uc m) (m_tracer m) (m_taint m) (m_current_instruction m) (m_in_speculation m)
    (m_speculation_window m) (m_checkpoints m) (m_store_logs m) (m_previous_store m)
    a (m_instruction_address m) (m_stopped m).
Definition set_instruction_address (a : Z) (m : model) : model :=
  mkModel (m_uc m) (m_tracer m) (m_taint m) (m_current_instruction m) (m_in_speculation m)
    (m_speculation_window m) (m_checkpoints m) (m_store_logs m) (m_previous_store m)
    (m_latest_rollback_address m) a (m_stopped m).
(** [emulator.emu_stop()] *)
Definition emu_stop (m : model) : model :=
  mkModel (m_uc m) (m_tracer m) (m_taint m) (m_current_instruction m) (m_in_speculation m)
    (m_speculation_window m) (m_checkpoints m) (m_store_logs m) (m_previous_store m)
    (m_latest_rollback_address m) (m_instruction_address m) true.

(** A call on the tracker; the dummy tracker ignores it. *)
Definition on_taint (f : tracker → result tracker) (m : model) : result model :=
  match m_taint m with
  | Some t => t ← f t; Ok (set_taint (Some t) m)
  | None => Ok m
  end.
Definition on_taint_ (f : tracker → tracker) : model → result model := on_taint (λ t, Ok (f t)).

(** ** X86UnicornTracer *)

Definition set_trace (l : list Z) (m : model) : model :=
  let t := m_tracer m in
  set_tracer (mkTracerState l (tr_execution_trace t) (tr_instruction_id t) (tr_unprot_regs t)
                (tr_last_pc t) (tr_analyzed t) (tr_analysis t)) m.
Definition set_execution_trace (l : ExecutionTrace) (k : nat) (m : model) : model :=
  let t := m_tracer m in
  set_tracer (mkTracerState (tr_trace t) l k (tr_unprot_regs t)
                (tr_last_pc t) (tr_analyzed t) (tr_analysis t)) m.
Definition set_prot (regs : list string) (pc : Z) (m : model) : model :=
  let t := m_tracer m in
  set_tracer (mkTracerState (tr_trace t) (tr_execution_trace t) (tr_instruction_id t) regs
                pc (tr_analyzed t) (tr_analysis t)) m.
Definition set_analysis (analyzed : bool) (a : analysis) (m : model) : model :=
  let t := m_tracer m in
  set_tracer (mkTracerState (tr_trace t) (tr_execution_trace t) (tr_instruction_id t)
                (tr_unprot_regs t) (tr_last_pc t) analyzed a) m.
Definition append_trace (x : Z) (m : model) : model :=
  set_trace (tr_trace (m_tracer m) ++ [x]) m.

(** The L1D clause keeps two 64-bit sets; the others append the address. *)
Definition l1d_bit (address : Z) : Z :=
  Z.shiftr 0x8000000000000000 (Z.shiftr (Z.land address 0xfc0) 6).

Definition add_mem_address_to_trace (address : Z) (m : model) : result model :=
  m ← match s_observation cfg with
      | L1D =>
          let bit := l1d_bit address in
          match tr_trace (m_tracer m) with
          | t0 :: t1 :: rest =>
              Ok (if m_in_speculation m then set_trace (t0 :: Z.lor t1 bit :: rest) m
                  else set_trace (Z.lor t0 bit :: t1 :: rest) m)
          | _ => Raise IndexError
          end
      | _ => Ok (append_trace address m)
      end;
  on_taint_ taint_memory_access_address m.

Definition add_pc_to_trace (address : Z) (m : model) : result model :=
  on_taint_ taint_pc (append_trace address m).

(** [TracedInstruction.accesses] is shared with the trace: appending mutates the entry. *)
Definition append_access (a : TracedMemAccess) (i : TracedInstruction) : TracedInstruction :=
  mkTraced (i_address i) (accesses i ++ [a]).

Definition base_observe_mem_access (is_store : bool) (address size value : Z) (m : model)
    : result model :=
  let normalized_address := address - s_sandbox_base cfg in
  let val := if is_store then value else le_value (mem_read (m_uc m) address size) in
  if m_in_speculation m then Ok m
  else if s_execution_tracing_enabled cfg then
    let k := tr_instruction_id (m_tracer m) in
    traced ← from_option IndexError (tr_execution_trace (m_tracer m) !! k);
    Ok (set_execution_trace
          (<[k := append_access (mkAccess normalized_address val is_store) traced]>
             (tr_execution_trace (m_tracer m))) k m)
  else Ok m.

Definition base_observe_instruction (address : Z) (m : model) : result model :=
  let normalized_address := address - s_code_start cfg in
  _ ← from_option KeyError (s_address_map cfg !! normalized_address);
  if m_in_speculation m then Ok m
  else if s_execution_tracing_enabled cfg then
    let tr := tr_execution_trace (m_tracer m) ++ [mkTraced normalized_address []] in
    Ok (set_execution_trace tr (length tr - 1) m)
  else Ok m.

(** [next(iter(self.cs.disasm(code, address)))] at RIP. *)
Definition disasm_instruction (m : model) : result cs_insn :=
  let address := reg_read (m_uc m) "RIP" in
  from_option StopIteration (disasm_one (mem_read (m_uc m) address 16) address).

Definition cs_to_uc_regname (cs_reg : string) : string :=
  if bool_decide (cs_reg = "rflags") then "eflags" else cs_reg.
Definition read_cs_reg (reg : string) (m : model) : Z :=
  if mem reg ["cs"; "ds"; "ss"; "fs"; "gs"; "es"] then 0
  else reg_read (m_uc m) (upper (cs_to_uc_regname reg)).
Definition expose_reg (reg : string) (m : model) : result model :=
  on_taint (taint_reg (upper reg)) (append_trace (read_cs_reg reg m) m).
Definition expose_mem (address size : Z) (m : model) : result model :=
  on_taint_ taint_memory_load (append_trace (le_value (mem_read (m_uc m) address size)) m).

(** ** The observation clauses *)

(** The base and index registers of the accessed memory operands. *)
Definition address_regs (i : cs_insn) : list string :=
  ci_operands i ≫= λ op,
    if co_is_mem op && co_accessed op
    then option_list (co_base op) ++ option_list (co_index op) else [].

Definition check_protected_pc (pc : Z) (m : model) : bool :=
  mem_byte (m_uc m) pc =? 0x36.

(** [PCTracer.observe_instruction] and its subclasses. *)
Definition pc_observe_instruction (address : Z) (m : model) : result model :=
  m ← add_pc_to_trace address m; base_observe_instruction address m.

Definition ctx_observe_instruction (address : Z) (m : model) : result model :=
  m ← pc_observe_instruction address m;
  insn ← disasm_instruction m;
  for_each expose_reg (address_regs insn) m.

Definition prot_observe_instruction (address : Z) (m : model) : result model :=
  m ← pc_observe_instruction address m;
  insn ← disasm_instruction m;
  let regs := tr_unprot_regs (m_tracer m) in
  let m := set_prot regs address m in
  m ← for_each expose_reg regs m;
  let m := set_prot [] address m in
  m ← for_each expose_reg (address_regs insn) m;
  if negb (check_protected_pc address m) then Ok m
  else Ok (set_prot (ci_regs_write insn) address m).

Definition cts_observe_instruction (address : Z) (m : model) : result model :=
  m ← (if tr_analyzed (m_tracer m) then Ok m
       else
         let address_base := Z.land address (Z.lnot 0xFFF) in
         let code_bytes := mem_read (m_uc m) address_base 0x1000 in
         a ← analyze_binary (disasm code_bytes address_base) (tr_analysis (m_tracer m));
         Ok (set_analysis true a m));
  m ← ctx_observe_instruction address m;
  match a_insns (tr_analysis (m_tracer m)) !! address with
  | Some _ => for_each expose_reg (elements (pre_of (tr_analysis (m_tracer m)) address)) m
  | None => Ok m
  end.

Definition observe_instruction (address : Z) (m : model) : result model :=
  match s_observation cfg with
  | L1D | MEMORY => base_observe_instruction address m
  | PC | CT | CTNonSpecStore | CTR | Arch => pc_observe_instruction address m
  | CTX => ctx_observe_instruction address m
  | Prot => prot_observe_instruction address m
  | CTS => cts_observe_instruction address m
  end.

(** The memory hook of the CT family: the address, then the base class. *)
Definition ct_observe_mem_access (is_store : bool) (address size value : Z) (m : model)
    : result model :=
  m ← add_mem_address_to_trace address m;
  base_observe_mem_access is_store address size value m.

Definition observe_mem_access (is_store : bool) (address size value : Z) (m : model)
    : result model :=
  match s_observation cfg with
  | PC => base_observe_mem_access is_store address size value m
  | L1D | MEMORY | CT | CTR => ct_observe_mem_access is_store address size value m
  | CTNonSpecStore =>
      m ← (if negb (m_in_speculation m) || negb is_store
           then add_mem_address_to_trace address m else Ok m);
      base_observe_mem_access is_store address size value m
  | CTX | CTS =>
      m ← ct_observe_mem_access is_store address size value m;
      _ ← disasm_instruction m;
      Ok m
  | Prot =>
      m ← ct_observe_mem_access is_store address size value m;
      if is_store then Ok m
      else
        let pc := reg_read (m_uc m) "RIP" in
        assert_ (pc =? tr_last_pc (m_tracer m)) AssertionError;;
        if check_protected_pc pc m then Ok m else expose_mem address size m
  | Arch =>
      m ← (if is_store then Ok m else expose_mem address size m);
      m ← add_mem_address_to_trace address m;
      ct_observe_mem_access is_store address size value m
  end.

Definition input_regs : list string := ["RAX"; "RBX"; "RCX"; "RDX"; "RSI"; "RDI"; "EFLAGS"].

Definition reset_trace (m : model) : model :=
  let t := m_tracer m in
  let trace := match s_observation cfg with
    | L1D => [0; 0]
    | CTR | Prot | Arch => reg_read (m_uc m) <$> input_regs
    | CTX | CTS => [reg_read (m_uc m) "RBP"; reg_read (m_uc m) "RSP"]
    | _ => []
    end in
  let '(analyzed, a) := match s_observation cfg with
    | CTS => (false, clear_analysis)
    | _ => (tr_analyzed t, tr_analysis t)
    end in
  set_tracer (mkTracerState trace [] (tr_instruction_id t) (tr_unprot_regs t) (tr_last_pc t)
                analyzed a) m.

(** ** Execution clauses *)

(** [X86UnicornSpec.checkpoint] *)
Definition checkpoint (next_instruction : Z) (m : model) : result model :=
  let flags := reg_read (m_uc m) "EFLAGS" in
  let context := context_save (m_uc m) in
  let m := set_speculation true (m_speculation_window m)
             ((context, next_instruction, flags, m_speculation_window m) :: m_checkpoints m)
             ([] :: m_store_logs m) m in
  on_taint_ taint_checkpoint m.

(** The [while mem_changes] loop of [rollback]: the last change is undone first.
    The log keeps its last entry at the head. *)
Definition undo_changes (log : list (Z * list Z)) (u : uc) : uc :=
  fold_left (λ u p, mem_write u p.1 p.2) log u.

(** [X86UnicornSpec.rollback] up to the restart of the emulation, with the
    address it restarts at. *)
Definition rollback (m : model) : result (model * Z) :=
  match m_checkpoints m, m_store_logs m with
  | (state, next_instr, flags, spec_window) :: cps, mem_changes :: logs =>
      let ins := match cps with [] => false | _ => m_in_speculation m end in
      let m := set_rollback_address next_instr m in
      let u := undo_changes mem_changes (context_restore (m_uc m) state) in
      let u := reg_write u "EFLAGS" flags in
      let m := set_previous_store (0, 0, [], 0)
                 (set_speculation ins spec_window cps logs (set_uc u m)) in
      m ← on_taint taint_rollback m;
      Ok (m, next_instr)
  | _, _ => Raise IndexError
  end.

(** [X86UnicornCond.decode] *)
Definition FLAGS_CF : Z := 1.
Definition FLAGS_PF : Z := 4.
Definition FLAGS_ZF : Z := 64.
Definition FLAGS_SF : Z := 128.
Definition FLAGS_OF : Z := 2048.
Definition flag_set (f flag : Z) : bool := negb (Z.land f flag =? 0).

(** The condition of the sixteen jumps, by the low nibble of the opcode. *)
Definition jump_condition (n f : Z) : bool :=
  match n with
  | 0 => flag_set f FLAGS_OF
  | 1 => negb (flag_set f FLAGS_OF)
  | 2 => flag_set f FLAGS_CF
  | 3 => negb (flag_set f FLAGS_CF)
  | 4 => flag_set f FLAGS_ZF
  | 5 => negb (flag_set f FLAGS_ZF)
  | 6 => flag_set f FLAGS_CF || flag_set f FLAGS_ZF
  | 7 => negb (flag_set f FLAGS_CF) && negb (flag_set f FLAGS_ZF)
  | 8 => flag_set f FLAGS_SF
  | 9 => negb (flag_set f FLAGS_SF)
  | 10 => flag_set f FLAGS_PF
  | 11 => negb (flag_set f FLAGS_PF)
  | 12 => negb (Bool.eqb (negb (flag_set f FLAGS_SF)) (negb (flag_set f FLAGS_OF)))
  | 13 => Bool.eqb (negb (flag_set f FLAGS_SF)) (negb (flag_set f FLAGS_OF))
  | 14 => flag_set f FLAGS_ZF ||
          negb (Bool.eqb (negb (flag_set f FLAGS_SF)) (negb (flag_set f FLAGS_OF)))
  | _ => negb (flag_set f FLAGS_ZF) &&
         Bool.eqb (negb (flag_set f FLAGS_SF)) (negb (flag_set f FLAGS_OF))
  end.

(** The tables [jumps] and [multibyte_jmp]: target bytes, taken, is it a LOOP. *)
Definition jumps (c : list Z) (f r : Z) : result (list Z * bool * bool) :=
  match c with
  | [] => Raise IndexError
  | op :: rest =>
      if (0x70 <=? op) && (op <=? 0x7F) then Ok (rest, jump_condition (op - 0x70) f, false)
      else if op =? 0xE0 then Ok (rest, negb (r =? 1) && negb (flag_set f FLAGS_ZF), true)
      else if op =? 0xE1 then Ok (rest, negb (r =? 1) && flag_set f FLAGS_ZF, true)
      else if op =? 0xE2 then Ok (rest, negb (r =? 1), true)
      else if op =? 0xE3 then Ok (rest, r =? 0, false)
      else if op =? 0x0F then
        match rest with
        | [] => Raise IndexError
        | op2 :: rest =>
            if (0x80 <=? op2) && (op2 <=? 0x8F)
            then Ok (rest, jump_condition (op2 - 0x80) f, false)
            else Ok ([0], false, false)
        end
      else Ok ([0], false, false)
  end.

Definition decode (code : list Z) (flags rcx : Z) : result (Z * bool * bool) :=
  '(target, will_jump, is_loop) ← jumps code flags rcx;
  Ok (match target with [t] => t | _ => le_value target end, will_jump, is_loop).

(** [X86UnicornCond.speculate_instruction] *)
Definition cond_speculate_instruction (address size : Z) (m : model) : result model :=
  if s_nesting cfg <=? Z.of_nat (length (m_checkpoints m)) then Ok m
  else
    let code := mem_read (m_uc m) address size in
    let flags := reg_read (m_uc m) "EFLAGS" in
    let rcx := reg_read (m_uc m) "RCX" in
    '(target, will_jump, is_loop) ← decode code flags rcx;
    if target =? 0 then Ok m
    else
      let m := if is_loop : bool then set_uc (reg_write (m_uc m) "RCX" (rcx - 1)) m else m in
      let next_instr := if will_jump : bool then address + size + target else address + size in
      m ← checkpoint next_instr m;
      Ok (set_uc (reg_write (m_uc m) "RIP"
                    (if will_jump then address + size else address + size + target)) m).

(** [int.to_bytes(size, 'little', signed=value < 0)] *)
Definition to_bytes (value size : Z) : result (list Z) :=
  if value <? 0 then
    if - 2 ^ (8 * size - 1) <=? value then Ok (le_bytes (Z.to_nat size) value)
    else Raise OverflowError
  else if value <? 2 ^ (8 * size) then Ok (le_bytes (Z.to_nat size) value)
  else Raise OverflowError.

(** [store_logs[-1].append(entry)] *)
Definition log_change (entry : Z * list Z) (m : model) : result model :=
  match m_store_logs m with
  | [] => Raise IndexError
  | log :: logs =>
      Ok (set_speculation (m_in_speculation m) (m_speculation_window m) (m_checkpoints m)
            ((entry :: log) :: logs) m)
  end.

(** [X86UnicornBpas] *)
Definition bpas_speculate_mem_access (is_store : bool) (address size value : Z) (m : model)
    : result model :=
  if is_store then
    let rip := reg_read (m_uc m) "RIP" in
    let opcode := mem_byte (m_uc m) rip in
    if mem opcode [0xE8; 0xFF; 0x9A] then Ok m
    else Ok (set_previous_store (address, size, mem_read (m_uc m) address size, value) m)
  else Ok m.

Definition bpas_speculate_instruction (address : Z) (m : model) : result model :=
  if s_nesting cfg <=? Z.of_nat (length (m_checkpoints m)) then Ok m
  else
    let '(store_addr, store_size, old_value, value) := m_previous_store m in
    m ← (if store_addr =? 0 then Ok m
         else
           new_value ← to_bytes value store_size;
           m ← checkpoint address m;
           log_change (store_addr, new_value)
             (set_uc (mem_write (m_uc m) store_addr old_value) m));
    Ok (set_previous_store (0, 0, [], 0) m).

(** [X86UnicornNull] *)
Definition null_speculate_mem_access (is_store : bool) (address size : Z) (m : model)
    : result model :=
  if s_nesting cfg <=? Z.of_nat (length (m_checkpoints m)) then Ok m
  else if is_store then Ok m
  else if m_instruction_address m =? m_latest_rollback_address m then Ok m
  else
    m ← checkpoint (m_instruction_address m) m;
    m ← log_change (address, mem_read (m_uc m) address 8) m;
    Ok (set_uc (mem_write (m_uc m) address (replicate (Z.to_nat size) 0)) m).

(** Dispatch on the execution clause. *)
Definition speculate_mem_access (is_store : bool) (address size value : Z) (m : model)
    : result model :=
  match s_execution cfg with
  | Seq | Cond => Ok m
  | Bpas | CondBpas => bpas_speculate_mem_access is_store address size value m
  | Null => null_speculate_mem_access is_store address size m
  end.
Definition speculate_instruction (address size : Z) (m : model) : result model :=
  match s_execution cfg with
  | Seq => Ok m
  | Cond => cond_speculate_instruction address size m
  | Bpas => bpas_speculate_instruction address m
  | Null => Ok (set_instruction_address address m)
  | CondBpas =>
      m ← cond_speculate_instruction address size m;
      bpas_speculate_instruction address m
  end.

(** ** The hooks *)

Definition seq_trace_instruction (address : Z) (m : model) : result model :=
  m ← match m_current_instruction m with
      | Some i => on_taint (start_instruction i) m
      | None => Raise AttributeError
      end;
  observe_instruction address m.
Definition seq_trace_mem_access (is_store : bool) (address size value : Z) (m : model)
    : result model :=
  m ← on_taint_ (track_memory_access address size is_store) m;
  observe_mem_access is_store address size value m.

Definition spec_trace_mem_access (is_store : bool) (address size value : Z) (m : model)
    : result model :=
  m ← (if is_store && negb (bool_decide (m_store_logs m = []))
       then log_change (address, mem_read (m_uc m) address 8) m else Ok m);
  m ← seq_trace_mem_access is_store address size value m;
  speculate_mem_access is_store address size value m.

Definition spec_trace_instruction (address size : Z) (m : model) : result model :=
  m ← (if m_in_speculation m then
         let m := set_speculation true (m_speculation_window m + 1) (m_checkpoints m)
                    (m_store_logs m) m in
         name ← from_option AttributeError (i_name <$> m_current_instruction m);
         let m := if mem name ["LFENCE"; "MFENCE"] then emu_stop m else m in
         Ok (if s_max_spec_window cfg <? m_speculation_window m then emu_stop m else m)
       else Ok m);
  m ← seq_trace_instruction address m;
  speculate_instruction address size m.

Definition trace_instruction (address size : Z) (m : model) : result model :=
  match s_execution cfg with
  | Seq => seq_trace_instruction address m
  | _ => spec_trace_instruction address size m
  end.
Definition trace_mem_access (is_store : bool) (address size value : Z) (m : model) : result model :=
  match s_execution cfg with
  | Seq => seq_trace_mem_access is_store address size value m
  | _ => spec_trace_mem_access is_store address size value m
  end.

Definition instruction_hook (address size : Z) (m : model) : result model :=
  i ← from_option KeyError (s_address_map cfg !! (address - s_code_start cfg));
  trace_instruction address size (set_current i m).

(** ** Inputs *)

Definition OVERFLOW_REGION_SIZE : Z := 4096.
Definition lower_overflow_base : Z := s_sandbox_base cfg.
Definition main_region : Z := lower_overflow_base + OVERFLOW_REGION_SIZE.
Definition assist_region_base : Z :=
  main_region + Z.of_nat (Input.input_main_region_size (s_regions cfg)).
Definition upper_overflow_base : Z :=
  assist_region_base + Z.of_nat (input_assist_region_size (s_regions cfg)).
Definition stack_base : Z :=
  s_sandbox_base cfg + Z.of_nat (Input.input_main_region_size (s_regions cfg)) - 8.

Definition initial_taints : list string :=
  match s_observation cfg with
  | CTR | Arch => ["A"; "B"; "C"; "D"; "SI"; "DI"; "RSP"; "CF"; "PF"; "AF"; "ZF"; "SF"; "TF";
                   "IF"; "DF"; "OF"; "AC"]
  | _ => []
  end.

Definition reset_model (m : model) : model :=
  let m := set_speculation false 0 [] (m_store_logs m) m in
  let m := reset_trace m in
  let m := set_taint (if s_tainting_enabled cfg
                      then Some (new_tracker initial_taints (s_sandbox_base cfg)) else None) m in
  match s_execution cfg with
  | Seq => m
  | _ => set_rollback_address 0 m
  end.

Definition write_input_reg (p : nat * Z) (u : uc) : result uc :=
  r ← from_option IndexError (input_regs !! p.1);
  Ok (reg_write u r (if bool_decide (r = "EFLAGS") then load_flags p.2 else p.2)).

Definition _load_input (input_ : Input) (m : model) : result model :=
  let zeros := replicate (Z.to_nat OVERFLOW_REGION_SIZE) 0 in
  let u := mem_write (m_uc m) lower_overflow_base zeros in
  let u := mem_write u upper_overflow_base zeros in
  let u := mem_write u (s_sandbox_base cfg) (tobytes input_) in
  u ← for_each write_input_reg (imap pair (get_registers (s_regions cfg) input_)) u;
  let u := reg_write u "RSP" stack_base in
  let u := reg_write u "RBP" stack_base in
  let u := reg_write u "R14" (s_sandbox_base cfg) in
  Ok (set_uc u m).

(** ** Running a test case *)

(** [emu_start(begin)]: Unicorn calls the hooks; the boolean says whether it
    ended with an error. *)
Context (emu_start : Z → model → model * bool).
Context (xxh32 : string → Z).

(** The residual simulations are rolled back; the fuel bounds their number. *)
Fixpoint rollback_all (fuel : nat) (m : model) : result model :=
  if negb (m_in_speculation m) then Ok m
  else match fuel with
       | O => Raise OutOfFuel
       | S fuel =>
           '(m, next_instr) ← rollback m;
           rollback_all fuel (emu_start next_instr m).1
       end.

Definition get_contract_trace (m : model) : result Z :=
  let trace := tr_trace (m_tracer m) in
  match s_observation cfg with
  | L1D => match trace with
           | t0 :: t1 :: _ => Ok (Z.shiftl t1 64 + t0)
           | _ => Raise IndexError
           end
  | _ => Ok (xxh32 (foldr (λ x s, hex x +:+ s) "" trace))
  end.

(** The tracker's answer, or an uninitialised vector from the dummy. *)
Definition model_taint (m : model) : result (option (list bool)) :=
  match m_taint m with
  | Some t => v ← get_taint (s_regions cfg) t; Ok (Some v)
  | None => Ok None
  end.

Definition execute_input (fuel : nat) (input_ : Input) (m : model)
    : result (model * (Z * ExecutionTrace * option (list bool))) :=
  let m := reset_model m in
  m ← _load_input input_ m;
  let m := reset_model m in
  let '(m, error) := emu_start (s_code_start cfg) m in
  assert_ (negb (error && negb (m_in_speculation m))) SystemExit;;
  m ← rollback_all fuel m;
  ctrace ← get_contract_trace m;
  taint ← model_taint m;
  Ok (m, (ctrace, tr_execution_trace (m_tracer m), taint)).

(** [_execute_test_case]: one result per input, in order. *)
Definition _execute_test_case (fuel : nat) (inputs : list Input) (m : model)
    : result (model * list (Z * ExecutionTrace * option (list bool))) :=
  for_each (λ input_ st,
      '(m, r) ← execute_input fuel input_ st.1;
      Ok (m, st.2 ++ [r])) inputs (m, []).
End model.
