(* ===== verification/SpecFacts.v ===== *)
(** * Speculation leaves no architectural trace

    Checkpoints and rollbacks of [X86UnicornSpec]: whatever the transient
    instructions did, nested speculation included, a rollback restores memory,
    registers and the speculation state of its checkpoint.  A transient run is
    an inductive relation whose steps the hooks of each clause are shown to make. *)

From S2P Require Import Prelude.
From S2P Require Import Isa.
From S2P Require Import Taint.
From S2P Require Import Registers Uc.
From S2P Require Import Model.

Open Scope Z_scope.

Section facts.
Context {uc ctx : Type} `{!Uc uc ctx, !UcLaws uc ctx}.
Abbreviation model := (@model uc ctx).

Definition same_mem (u u' : uc) : Prop := ∀ x, mem_byte u x = mem_byte u' x.

#[export] Instance same_mem_equiv : Equivalence same_mem.
Proof. split; [by intros u x|by intros u v H x|by intros u v w H1 H2 x; rewrite H1]. Qed.

Lemma mem_write_same u u' a bs : same_mem u u' → same_mem (mem_write u a bs) (mem_write u' a bs).
Proof. intros H x. rewrite !write_byte. by destruct (_ && _). Qed.

#[export] Instance mem_write_proper :
  Proper (same_mem ==> (=) ==> (=) ==> same_mem) (mem_write (uc := uc)).
Proof. intros u u' H a ? <- bs ? <-. by apply mem_write_same. Qed.

Lemma undo_same log u u' : same_mem u u' → same_mem (undo_changes log u) (undo_changes log u').
Proof.
  revert u u'. induction log as [|e log IH]; intros u u' H; cbn; [done|].
  apply IH. by apply mem_write_same.
Qed.

#[export] Instance undo_changes_proper log : Proper (same_mem ==> same_mem) (undo_changes log).
Proof. intros u u' H. by apply undo_same. Qed.

Lemma undo_app l1 l2 (u : uc) : undo_changes (l1 ++ l2) u = undo_changes l2 (undo_changes l1 u).
Proof. apply fold_left_app. Qed.

Lemma undo_regs log (u : uc) r : reg_read (undo_changes log u) r = reg_read u r.
Proof.
  revert u. induction log as [|e log IH]; intros u; [done|].
  change (reg_read (undo_changes log (mem_write u e.1 e.2)) r = reg_read u r).
  by rewrite IH, write_regs.
Qed.

(** Undoing a logged write. *)
Lemma undo_write u a bs n :
  0 ≤ n → Z.of_nat (length bs) ≤ n →
  same_mem (mem_write (mem_write u a bs) a (mem_read u a n)) u.
Proof.
  intros Hn Hl x. rewrite write_back by done. destruct ((a <=? x) && (x <? a + n)) eqn:E; [done|].
  apply write_outside. intros Hx. apply andb_false_iff in E as [E%Z.leb_gt|E%Z.ltb_ge]; lia.
Qed.

(** ** Transient execution *)

Inductive transient : model → model → Prop :=
  | transient_refl m : transient m m
  (** nothing in memory or on the stacks changes *)
  | transient_silent m m1 m2 :
      transient m m1 → same_mem (m_uc m1) (m_uc m2) →
      m_store_logs m2 = m_store_logs m1 → m_checkpoints m2 = m_checkpoints m1 →
      transient m m2
  (** a write whose old bytes are logged *)
  | transient_write m m1 m2 a n bs log logs :
      transient m m1 → 0 ≤ n → Z.of_nat (length bs) ≤ n →
      m_store_logs m1 = log :: logs →
      m_store_logs m2 = ((a, mem_read (m_uc m1) a n) :: log) :: logs →
      m_checkpoints m2 = m_checkpoints m1 →
      same_mem (m_uc m2) (mem_write (m_uc m1) a bs) →
      transient m m2
  (** a nested speculation, rolled back *)
  | transient_nested m m1 m2 m3 m4 next next' :
      transient m m1 → checkpoint next m1 = Ok m2 → transient m2 m3 →
      rollback m3 = Ok (m4, next') → transient m m4.

(** A checkpoint pushes onto both stacks and leaves the machine alone. *)
Lemma checkpoint_spec next (m m' : model) : checkpoint next m = Ok m' →
  m_uc m' = m_uc m ∧ m_store_logs m' = [] :: m_store_logs m ∧
  m_checkpoints m' = (context_save (m_uc m), next, reg_read (m_uc m) "EFLAGS",
                      m_speculation_window m) :: m_checkpoints m ∧
  m_in_speculation m' = true ∧ m_speculation_window m' = m_speculation_window m.
Proof.
  unfold checkpoint, on_taint_, on_taint. cbn. destruct (m_taint m); cbn; by intros [= <-].
Qed.

Lemma rollback_spec (m m' : model) next' : rollback m = Ok (m', next') →
  ∃ state flags w cps log logs,
    m_checkpoints m = (state, next', flags, w) :: cps ∧ m_store_logs m = log :: logs ∧
    m_checkpoints m' = cps ∧ m_store_logs m' = logs ∧ m_speculation_window m' = w ∧
    m_in_speculation m' = match cps with [] => false | _ => m_in_speculation m end ∧
    m_uc m' = reg_write (undo_changes log (context_restore (m_uc m) state)) "EFLAGS" flags ∧
    m_previous_store m' = (0, 0, [], 0).
Proof.
  unfold rollback. destruct (m_checkpoints m) as [|[[[state next] flags] w] cps]; [done|].
  destruct (m_store_logs m) as [|log logs]; [done|]. intros H.
  apply bind_Ok in H as (m1 & H1 & [= <- <-]).
  exists state, flags, w, cps, log, logs. unfold on_taint in H1. cbn in H1.
  destruct (m_taint m) as [t|]; [|injection H1 as <-; by cbn].
  apply bind_Ok in H1 as (t2 & _ & [= <-]). by cbn.
Qed.

(** What a transient run adds to the log undoes it. *)
Lemma transient_undo m m' log logs :
  transient m m' → m_store_logs m = log :: logs →
  m_checkpoints m' = m_checkpoints m ∧
  ∃ entries, m_store_logs m' = (entries ++ log) :: logs ∧
    same_mem (undo_changes entries (m_uc m')) (m_uc m).
Proof.
  intros H. revert log logs.
  induction H as [m|m m1 m2 _ IH Hs Hl Hc|m m1 m2 a n bs l ls _ IH Hn Hb H1 H2 Hc Hm|
                  m m1 m2 m3 m4 nx nx' _ IH1 Hcp _ IH2 Hrb]; intros log logs Hlog.
  - split; [done|]. by exists [].
  - destruct (IH _ _ Hlog) as [Hcp (es & He & Hu)]. split; [congruence|].
    exists es. split; [congruence|]. by rewrite <- Hs.
  - destruct (IH _ _ Hlog) as [Hcp (es & He & Hu)]. split; [congruence|].
    rewrite He in H1. injection H1 as <- <-. exists ((a, mem_read (m_uc m1) a n) :: es).
    split; [by rewrite H2|]. cbn. rewrite Hm, undo_write by done. done.
  - destruct (IH1 _ _ Hlog) as [Hcp1 (es & He & Hu)].
    apply checkpoint_spec in Hcp as (Hu2 & Hl2 & Hc2 & _).
    destruct (IH2 _ _ Hl2) as [Hcp3 (es3 & He3 & Hu3)].
    apply rollback_spec in Hrb as (st & fl & w & cps & lg & lgs & E1 & E2 & E3 & E4 & _ & _ & E5 & _).
    rewrite Hcp3, Hc2 in E1. injection E1 as <- _ <- _ <-. rewrite He3 in E2. injection E2 as <- <-.
    split; [congruence|]. exists es. split; [congruence|].
    rewrite <- Hu. apply undo_same. intros x. rewrite E5, reg_write_mem, app_nil_r.
    rewrite (undo_same es3 _ (m_uc m3)) by (intros y; apply restore_mem).
    rewrite Hu3. by rewrite Hu2.
Qed.

(** The speculation state agrees with the stacks. *)
Definition speculation_ok (m : model) : Prop :=
  m_in_speculation m = negb (bool_decide (m_checkpoints m = [])) ∧
  length (m_store_logs m) = length (m_checkpoints m).
End facts.

(** C7: a rollback undoes everything.  Take a checkpoint, run any transient
    execution (register changes, logged writes, nested speculation), roll back:
    memory, every register, both stacks, the speculation window and the
    speculation flag are those of the checkpoint, and the restart address is the one
    the checkpoint was taken with. *)
Theorem rollback_restores {uc ctx} `{!Uc uc ctx, !UcLaws uc ctx} (m m0 m1 m2 : @Model.model uc ctx) next next' :
  speculation_ok m → checkpoint next m = Ok m0 → transient m0 m1 →
  m_in_speculation m1 = true → rollback m1 = Ok (m2, next') →
  next' = next ∧ same_mem (m_uc m2) (m_uc m) ∧
  (∀ r, reg_read (m_uc m2) r = reg_read (m_uc m) r) ∧
  m_checkpoints m2 = m_checkpoints m ∧ m_store_logs m2 = m_store_logs m ∧
  m_speculation_window m2 = m_speculation_window m ∧
  m_in_speculation m2 = m_in_speculation m.
Proof.
  intros [Hok1 Hok2] Hcp Ht Hin Hrb.
  apply checkpoint_spec in Hcp as (Hu & Hl & Hc & _ & Hw).
  destruct (transient_undo _ _ _ _ Ht Hl) as [Hc1 (es & He & Hundo)].
  apply rollback_spec in Hrb as (st & fl & w & cps & lg & lgs & E1 & E2 & E3 & E4 & E6 & E7 & E5 & _).
  rewrite Hc1, Hc in E1. injection E1 as <- <- <- <- <-. rewrite He in E2. injection E2 as <- <-.
  split_and!; [done| | |done|done|done|].
  - intros x. rewrite E5, reg_write_mem, app_nil_r.
    rewrite (undo_same es _ (m_uc m1)) by (intros y; apply restore_mem).
    rewrite Hundo. by rewrite Hu.
  - intros r. rewrite E5, reg_write_read by done. rewrite undo_regs, restore_regs.
    destruct (decide (base_of r = "EFLAGS")) as [E|]; [|done].
    by rewrite reg_range, <- E, <- reg_view by done.
  - rewrite E7, Hok1, Hin. by destruct (m_checkpoints m).
Qed.
