(* ===== verification/HookFacts.v ===== *)
(** * The hooks of the contract model

    Observation never touches the machine or the speculation stacks; execution
    clauses only push checkpoints within the nesting bound and log every store.
    From this: the stack invariant, the bound on nesting, and that the
    hooks' steps are transient steps, so that rollbacks undo them. *)

From S2P Require Import Prelude.
From S2P Require Import Isa.
From S2P Require Import Input.
From S2P Require Import Taint.
From S2P Require Import Dataflow.
From S2P Require Import Registers Uc.
From S2P Require Import Model.
From S2P Require Import SpecFacts.

Open Scope Z_scope.

Section facts.
Context {uc ctx : Type} `{!Uc uc ctx, !UcLaws uc ctx}.
Abbreviation model := (@model uc ctx).
Context (disasm_one : list Z → Z → option cs_insn) (disasm : list Z → Z → list cs_insn).
Context (cfg : settings).

(** How many checkpoints the tracker holds. *)
Definition taint_depth (m : model) : option nat := (λ t, length (t_checkpoints t)) <$> m_taint m.

(** What observation must preserve. *)
Definition core (m : model) :=
  (m_uc m, m_store_logs m, m_checkpoints m, m_in_speculation m, m_speculation_window m,
   m_previous_store m, (m_latest_rollback_address m, m_instruction_address m, taint_depth m)).

(** A call that leaves the tracker's checkpoints alone. *)
Definition keeps_checkpoints (f : tracker → result tracker) : Prop :=
  ∀ t t', f t = Ok t' → t_checkpoints t' = t_checkpoints t.

Lemma on_taint_core f (m m' : model) : keeps_checkpoints f → on_taint f m = Ok m' → core m' = core m.
Proof.
  unfold on_taint. intros Hf. destruct (m_taint m) as [t|] eqn:E; [|by intros [= <-]].
  intros H. apply bind_Ok in H as (t' & Ht & [= <-]). unfold core, taint_depth. cbn.
  rewrite E. cbn. by rewrite (Hf _ _ Ht).
Qed.
Lemma on_taint__core f (m m' : model) :
  (∀ t, t_checkpoints (f t) = t_checkpoints t) → on_taint_ f m = Ok m' → core m' = core m.
Proof. intros Hf. apply on_taint_core. by intros t t' [= <-]. Qed.

Lemma finalize_checkpoints t : t_checkpoints (finalize_pending t) = t_checkpoints t.
Proof. unfold finalize_pending. by destruct (t_instruction t). Qed.
Lemma taint_pc_checkpoints t : t_checkpoints (taint_pc t) = t_checkpoints t.
Proof. unfold taint_pc. destruct (t_instruction t) as [i|]; [|done]. by destruct (i_control_flow i). Qed.
Lemma track_checkpoints a n w t : t_checkpoints (track_memory_access a n w t) = t_checkpoints t.
Proof. unfold track_memory_access. by destruct w. Qed.

Lemma taint_reg_keeps r : keeps_checkpoints (taint_reg r).
Proof.
  intros t t'. unfold taint_reg. destruct (mem _ _); [by intros [= <-]|].
  intros H. by apply bind_Ok in H as (l & _ & [= <-]).
Qed.
Lemma start_instruction_keeps i : keeps_checkpoints (start_instruction i).
Proof.
  intros t t'. unfold start_instruction.
  apply (for_each_inv (λ x, t_checkpoints x = t_checkpoints t)).
  - intros op x x' _ <-. destruct op; cbn; try (by intros [= <-]).
    intros H. by apply bind_Ok in H as (v & _ & [= <-]).
  - apply finalize_checkpoints.
Qed.

Lemma expose_reg_core r (m m' : model) : expose_reg r m = Ok m' → core m' = core m.
Proof. unfold expose_reg. intros H%on_taint_core; [by rewrite H|apply taint_reg_keeps]. Qed.

Lemma expose_regs_core rs (m m' : model) : for_each expose_reg rs m = Ok m' → core m' = core m.
Proof.
  apply (for_each_inv (λ x, core x = core m)); [|done].
  intros r s s' _ <- H. by eapply expose_reg_core.
Qed.

Lemma expose_mem_core a n (m m' : model) : expose_mem a n m = Ok m' → core m' = core m.
Proof. unfold expose_mem. intros H%on_taint__core; [by rewrite H|done]. Qed.

Lemma add_mem_core a (m m' : model) : add_mem_address_to_trace cfg a m = Ok m' → core m' = core m.
Proof.
  unfold add_mem_address_to_trace. intros H. apply bind_Ok in H as (m1 & H1 & H).
  apply on_taint__core in H; [|done]. rewrite H. destruct (s_observation cfg); try by injection H1 as <-.
  destruct (tr_trace (m_tracer m)) as [|t0 [|t1 rest]]; [done..|].
  injection H1 as <-. by destruct (m_in_speculation m).
Qed.

Lemma base_mem_core st a n v (m m' : model) :
  base_observe_mem_access cfg st a n v m = Ok m' → core m' = core m.
Proof.
  unfold base_observe_mem_access. destruct (m_in_speculation m) eqn:E; [by intros [= <-]|].
  destruct (s_execution_tracing_enabled cfg); [|by intros [= <-]].
  intros H. apply bind_Ok in H as (t & _ & [= <-]). done.
Qed.
Lemma base_instr_core a (m m' : model) : base_observe_instruction cfg a m = Ok m' → core m' = core m.
Proof.
  unfold base_observe_instruction. intros H. apply bind_Ok in H as (i & _ & H).
  destruct (m_in_speculation m) eqn:E; [by injection H as <-|].
  destruct (s_execution_tracing_enabled cfg); by injection H as <-.
Qed.

Lemma pc_instr_core a (m m' : model) : pc_observe_instruction cfg a m = Ok m' → core m' = core m.
Proof.
  unfold pc_observe_instruction, add_pc_to_trace. intros H.
  apply bind_Ok in H as (m1 & H1 & H%base_instr_core).
  apply on_taint__core in H1; [|apply taint_pc_checkpoints]. by rewrite H, H1.
Qed.
Lemma ctx_instr_core a (m m' : model) :
  ctx_observe_instruction disasm_one cfg a m = Ok m' → core m' = core m.
Proof.
  unfold ctx_observe_instruction. intros H. apply bind_Ok in H as (m1 & H1%pc_instr_core & H).
  apply bind_Ok in H as (i & _ & H%expose_regs_core). by rewrite H.
Qed.

Lemma observe_instruction_core a (m m' : model) :
  observe_instruction disasm_one disasm cfg a m = Ok m' → core m' = core m.
Proof.
  unfold observe_instruction. destruct (s_observation cfg);
    eauto using base_instr_core, pc_instr_core, ctx_instr_core.
  - unfold prot_observe_instruction. intros H. apply bind_Ok in H as (m1 & H1%pc_instr_core & H).
    apply bind_Ok in H as (i & _ & H). apply bind_Ok in H as (m2 & H2%expose_regs_core & H).
    apply bind_Ok in H as (m3 & H3%expose_regs_core & H).
    assert (core m3 = core m) as E by (rewrite H3; change (core (set_prot [] a m2)) with (core m2);
                                       rewrite H2; exact H1).
    destruct (negb _); injection H as <-; exact E.
  - unfold cts_observe_instruction. intros H. apply bind_Ok in H as (m1 & H1 & H).
    apply bind_Ok in H as (m2 & H2%ctx_instr_core & H).
    assert (core m1 = core m) as E1.
    { destruct (tr_analyzed (m_tracer m)); [by injection H1 as <-|].
      apply bind_Ok in H1 as (an & _ & [= <-]). done. }
    destruct (_ !! a); [apply expose_regs_core in H; congruence|]. injection H as <-. congruence.
Qed.

Lemma ct_mem_core st a n v (m m' : model) :
  ct_observe_mem_access cfg st a n v m = Ok m' → core m' = core m.
Proof.
  unfold ct_observe_mem_access. intros H.
  apply bind_Ok in H as (m1 & H1%add_mem_core & H%base_mem_core). congruence.
Qed.

Lemma observe_mem_access_core st a n v (m m' : model) :
  observe_mem_access disasm_one cfg st a n v m = Ok m' → core m' = core m.
Proof.
  unfold observe_mem_access. destruct (s_observation cfg); eauto using ct_mem_core, base_mem_core.
  - intros H. apply bind_Ok in H as (m1 & H1 & H%base_mem_core).
    destruct (_ || _); [apply add_mem_core in H1|injection H1 as <-]; congruence.
  - intros H. apply bind_Ok in H as (m1 & H1%ct_mem_core & H). by apply bind_Ok in H as (i & _ & [= <-]).
  - intros H. apply bind_Ok in H as (m1 & H1%ct_mem_core & H). destruct st; [by injection H as <-|].
    apply bind_Ok in H as (? & _ & H). destruct (check_protected_pc _ _); [by injection H as <-|].
    apply expose_mem_core in H. congruence.
  - intros H. apply bind_Ok in H as (m1 & H1%ct_mem_core & H). by apply bind_Ok in H as (i & _ & [= <-]).
  - intros H. apply bind_Ok in H as (m1 & H1 & H). apply bind_Ok in H as (m2 & H2%add_mem_core & H%ct_mem_core).
    destruct st; [injection H1 as <-|apply expose_mem_core in H1]; congruence.
Qed.

Lemma seq_instruction_core a (m m' : model) :
  seq_trace_instruction disasm_one disasm cfg a m = Ok m' → core m' = core m.
Proof.
  unfold seq_trace_instruction. intros H.
  apply bind_Ok in H as (m1 & H1 & H%observe_instruction_core).
  destruct (m_current_instruction m); [|done].
  apply on_taint_core in H1; [congruence|apply start_instruction_keeps].
Qed.
Lemma seq_mem_core st a n v (m m' : model) :
  seq_trace_mem_access disasm_one cfg st a n v m = Ok m' → core m' = core m.
Proof.
  unfold seq_trace_mem_access. intros H.
  apply bind_Ok in H as (m1 & H1 & H%observe_mem_access_core).
  apply on_taint__core in H1; [congruence|apply track_checkpoints].
Qed.

(** ** Stacks *)

Abbreviation depth m := (Z.of_nat (length (m_checkpoints m))).

(** The stacks agree and the depth did not pass the bound. *)
Definition within (m m' : model) : Prop :=
  speculation_ok m' ∧ depth m' ≤ Z.max (depth m) (s_nesting cfg).

Lemma within_core (m m' : model) : speculation_ok m → core m' = core m → within m m'.
Proof. unfold core, within, speculation_ok. intros [H1 H2] [= E1 E2 E3 E4 E5 E6 E7]. rewrite E2, E3, E4. split; [by split|lia]. Qed.

Lemma within_eq (m m' : model) : speculation_ok m → m_checkpoints m' = m_checkpoints m →
  m_store_logs m' = m_store_logs m → m_in_speculation m' = m_in_speculation m → within m m'.
Proof. intros [H1 H2] E1 E2 E3. unfold within, speculation_ok. rewrite E1, E2, E3. split; [done|lia]. Qed.

Lemma checkpoint_within next (m m' : model) :
  speculation_ok m → depth m < s_nesting cfg → checkpoint next m = Ok m' → within m m'.
Proof.
  intros [H1 H2] Hd (_ & Hl & Hc & Hi & _)%checkpoint_spec. unfold within, speculation_ok.
  rewrite Hl, Hc, Hi. cbn [length]. split; [|lia]. split; [|by rewrite H2].
  by rewrite bool_decide_false.
Qed.

Lemma within_same (m m1 m2 : model) :
  within m m1 → m_checkpoints m2 = m_checkpoints m1 →
  length (m_store_logs m2) = length (m_store_logs m1) → m_in_speculation m2 = m_in_speculation m1 →
  within m m2.
Proof. unfold within, speculation_ok. intros [[H1 H2] H3] -> -> ->. done. Qed.

Lemma within_trans (m m1 m2 : model) : within m m1 → within m1 m2 → within m m2.
Proof. unfold within. intros [_ H1] [H2 H3]. split; [done|lia]. Qed.

Lemma cond_within a n (m m' : model) :
  speculation_ok m → cond_speculate_instruction cfg a n m = Ok m' → within m m'.
Proof.
  intros Hok. unfold cond_speculate_instruction.
  destruct (Z.leb_spec (s_nesting cfg) (depth m)); [intros [= <-]; by apply within_eq|].
  intros Hm. apply bind_Ok in Hm as ([[t j] l] & _ & Hm).
  destruct (t =? 0); [injection Hm as <-; by apply within_eq|].
  apply bind_Ok in Hm as (m1 & H1 & [= <-]).
  destruct l; (apply checkpoint_within in H1; [|exact Hok|exact H]);
    (eapply within_same; [exact H1|done..]).
Qed.

Lemma log_change_same e (m m' : model) : log_change e m = Ok m' →
  m_checkpoints m' = m_checkpoints m ∧ length (m_store_logs m') = length (m_store_logs m) ∧
  m_in_speculation m' = m_in_speculation m ∧ m_uc m' = m_uc m ∧
  m_previous_store m' = m_previous_store m ∧
  ∃ log logs, m_store_logs m = log :: logs ∧ m_store_logs m' = (e :: log) :: logs.
Proof.
  unfold log_change. destruct (m_store_logs m) as [|log logs] eqn:E; [done|]. intros [= <-]. cbn.
  split_and!; try done. by exists log, logs.
Qed.

Lemma bpas_within a (m m' : model) :
  speculation_ok m → bpas_speculate_instruction cfg a m = Ok m' → within m m'.
Proof.
  intros Hok. unfold bpas_speculate_instruction.
  destruct (Z.leb_spec (s_nesting cfg) (depth m)); [intros [= <-]; by apply within_eq|].
  destruct (m_previous_store m) as [[[sa ss] ov] v]. intros Hm.
  apply bind_Ok in Hm as (m1 & H1 & [= <-]). destruct (sa =? 0).
  - injection H1 as <-. by apply within_eq.
  - apply bind_Ok in H1 as (nv & _ & H1). apply bind_Ok in H1 as (m2 & H2 & H1).
    apply log_change_same in H1 as (E1 & E2 & E3 & _).
    eapply within_same; [by eapply checkpoint_within|exact E1|exact E2|exact E3].
Qed.

Lemma null_within st a n (m m' : model) :
  speculation_ok m → null_speculate_mem_access cfg st a n m = Ok m' → within m m'.
Proof.
  intros Hok. unfold null_speculate_mem_access.
  destruct (Z.leb_spec (s_nesting cfg) (depth m)); [intros [= <-]; by apply within_eq|].
  destruct st; [intros [= <-]; by apply within_eq|].
  destruct (_ =? _); [intros [= <-]; by apply within_eq|].
  intros Hm. apply bind_Ok in Hm as (m1 & H1 & Hm). apply bind_Ok in Hm as (m2 & H2 & [= <-]).
  apply log_change_same in H2 as (E1 & E2 & E3 & _).
  eapply within_same; [by eapply checkpoint_within|exact E1|exact E2|exact E3].
Qed.
Lemma speculate_instruction_within a n (m m' : model) :
  speculation_ok m → speculate_instruction cfg a n m = Ok m' → within m m'.
Proof.
  intros Hok H. unfold speculate_instruction in H. destruct (s_execution cfg).
  - injection H as <-. by apply within_eq.
  - by eapply cond_within.
  - by eapply bpas_within.
  - injection H as <-. by apply within_eq.
  - apply bind_Ok in H as (m1 & H1 & H). pose proof (cond_within _ _ _ _ Hok H1) as Hw.
    eapply within_trans; [exact Hw|]. eapply bpas_within; [apply Hw|exact H].
Qed.

Lemma speculate_mem_access_within st a n v (m m' : model) :
  speculation_ok m → speculate_mem_access cfg st a n v m = Ok m' → within m m'.
Proof.
  intros Hok H. unfold speculate_mem_access in H.
  destruct (s_execution cfg); try (injection H as <-; by apply within_eq); [|by eapply null_within|];
    unfold bpas_speculate_mem_access in H; destruct st; try destruct (mem _ _);
    injection H as <-; by apply within_eq.
Qed.

(** ** A hook is an observation, then a speculation

    What the parts of a hook before its clause leave alone: everything but the
    window, the trace, the instruction and the entries of the open log. *)
Definition frame (m : model) :=
  (m_uc m, m_checkpoints m, length (m_store_logs m), m_in_speculation m, m_previous_store m,
   m_latest_rollback_address m, m_instruction_address m, taint_depth m).

Lemma core_frame (m m' : model) : core m' = core m → frame m' = frame m.
Proof. unfold core, frame. by intros [= -> -> -> -> _ -> -> -> ->]. Qed.

Lemma within_frame (m m' : model) : speculation_ok m → frame m' = frame m → within m m'.
Proof.
  unfold frame, within, speculation_ok. intros [H1 H2] [= _ E1 E2 E3 _ _ _ _].
  rewrite E1, E2, E3. split; [by split|lia].
Qed.

Lemma instruction_hook_split a n (m m' : model) :
  instruction_hook disasm_one disasm cfg a n m = Ok m' →
  is_Some (s_address_map cfg !! (a - s_code_start cfg)) ∧
  ∃ m1, frame m1 = frame m ∧ speculate_instruction cfg a n m1 = Ok m'.
Proof.
  unfold instruction_hook. intros H. apply bind_Ok in H as (i & Hi%from_option_Ok & H). split; [by exists i|].
  change (frame m) with (frame (set_current i m)). revert H. generalize (set_current i m). clear m Hi.
  intros m H. unfold trace_instruction, spec_trace_instruction in H.
  assert (s_execution cfg = Seq ∨ s_execution cfg ≠ Seq) as [Ex|Ex] by (destruct (s_execution cfg); auto).
  { rewrite Ex in H. apply seq_instruction_core, core_frame in H. exists m'. split; [done|].
    unfold speculate_instruction. by rewrite Ex. }
  assert (∃ m1, frame m1 = frame m ∧ (m2 ← seq_trace_instruction disasm_one disasm cfg a m1;
            speculate_instruction cfg a n m2) = Ok m') as (m1 & E1 & H1).
  { destruct (s_execution cfg); [done|..]; apply bind_Ok in H as (m1 & H1 & H); exists m1; (split; [|exact H]);
      (destruct (m_in_speculation m) eqn:Ei; [|by injection H1 as <-]);
      apply bind_Ok in H1 as (nm & _ & [= <-]); unfold frame;
      destruct (mem nm _), (s_max_spec_window cfg <? _); cbn; by rewrite Ei. }
  apply bind_Ok in H1 as (m2 & H2%seq_instruction_core%core_frame & H1). exists m2. split; [congruence|done].
Qed.

Lemma trace_mem_access_split st a n v (m m' : model) :
  trace_mem_access disasm_one cfg st a n v m = Ok m' →
  ∃ m1, frame m1 = frame m ∧ speculate_mem_access cfg st a n v m1 = Ok m'.
Proof.
  intros H. unfold trace_mem_access, spec_trace_mem_access in H.
  assert (s_execution cfg = Seq ∨ s_execution cfg ≠ Seq) as [Ex|Ex] by (destruct (s_execution cfg); auto).
  { rewrite Ex in H. apply seq_mem_core, core_frame in H. exists m'. split; [done|].
    unfold speculate_mem_access. by rewrite Ex. }
  assert (∃ m1, frame m1 = frame m ∧ (m2 ← seq_trace_mem_access disasm_one cfg st a n v m1;
            speculate_mem_access cfg st a n v m2) = Ok m') as (m1 & E1 & H1).
  { destruct (s_execution cfg); [done|..]; apply bind_Ok in H as (m1 & H1 & H); exists m1; (split; [|exact H]);
      (destruct (st && _); [|by injection H1 as <-]);
      unfold log_change in H1; destruct (m_store_logs m) as [|log logs] eqn:El; try done;
      injection H1 as <-; unfold frame; cbn; by rewrite El. }
  apply bind_Ok in H1 as (m2 & H2%seq_mem_core%core_frame & H1). exists m2. split; [congruence|done].
Qed.

Lemma instruction_hook_within a n (m m' : model) :
  speculation_ok m → instruction_hook disasm_one disasm cfg a n m = Ok m' → within m m'.
Proof.
  intros Hok (_ & m1 & E & H)%instruction_hook_split. apply within_frame in E; [|done].
  eapply within_trans; [exact E|]. eapply speculate_instruction_within; [apply E|exact H].
Qed.
Lemma trace_mem_access_within st a n v (m m' : model) :
  speculation_ok m → trace_mem_access disasm_one cfg st a n v m = Ok m' → within m m'.
Proof.
  intros Hok (m1 & E & H)%trace_mem_access_split. apply within_frame in E; [|done].
  eapply within_trans; [exact E|]. eapply speculate_mem_access_within; [apply E|exact H].
Qed.
End facts.

(** C6: speculation stays bounded and consistent.  Every hook, under every execution
    and observation clause, keeps the checkpoint and log stacks of equal height and
    the speculation flag equal to "some checkpoint is open", and never
    nests deeper than the configured bound. *)
Theorem hooks_respect_nesting {uc ctx} `{!Uc uc ctx, !UcLaws uc ctx} disasm_one disasm cfg
    (m m' : @Model.model uc ctx) :
  speculation_ok m →
  (∀ address size, instruction_hook disasm_one disasm cfg address size m = Ok m' → within cfg m m') ∧
  (∀ is_store address size value,
     trace_mem_access disasm_one cfg is_store address size value m = Ok m' → within cfg m m').
Proof. intros Hok. split; intros; [by eapply instruction_hook_within|by eapply trace_mem_access_within]. Qed.

(** ** The clauses make transient steps *)

Section clauses.
Context {uc ctx : Type} `{!Uc uc ctx, !UcLaws uc ctx}.
Abbreviation model := (@model uc ctx).
Context (disasm_one : list Z → Z → option cs_insn) (cfg : settings).

(** Speculation entered from [m] at restart address [next], now in [m']. *)
Definition speculates (m : model) (next : Z) (m' : model) : Prop :=
  ∃ m1, checkpoint next m = Ok m1 ∧ transient m1 m'.

Lemma core_stacks (m m' : model) : core m' = core m →
  m_uc m' = m_uc m ∧ m_store_logs m' = m_store_logs m ∧ m_checkpoints m' = m_checkpoints m.
Proof. unfold core. intros [= -> -> ->]. done. Qed.

(** A store seen by the hook and then carried out by the CPU. *)
Lemma hooked_store_transient a n v bs (m m' : model) log logs :
  m_store_logs m = log :: logs → Z.of_nat (length bs) ≤ 8 →
  spec_trace_mem_access disasm_one cfg true a n v m = Ok m' →
  transient m (set_uc (mem_write (m_uc m') a bs) m').
Proof.
  intros Hl Hb H. unfold spec_trace_mem_access in H. rewrite Hl in H. cbn [andb negb bool_decide] in H.
  rewrite bool_decide_false in H by done. cbn [negb andb] in H.
  apply bind_Ok in H as (m1 & H1 & H). apply bind_Ok in H as (m2 & H2%seq_mem_core%core_stacks & H).
  destruct H2 as (Eu2 & El2 & Ec2).
  apply log_change_same in H1 as (Ec1 & _ & _ & Eu1 & _ & lg & lgs & E1 & E2).
  assert (m_uc m' = m_uc m2 ∧ m_store_logs m' = m_store_logs m2 ∧ m_checkpoints m' = m_checkpoints m2)
    as (Eu & El & Ec).
  { unfold speculate_mem_access in H. destruct (s_execution cfg); try by injection H as <-.
    - unfold bpas_speculate_mem_access in H. destruct (mem _ _); by injection H as <-.
    - unfold null_speculate_mem_access in H. destruct (_ <=? _); by injection H as <-.
    - unfold bpas_speculate_mem_access in H. destruct (mem _ _); by injection H as <-. }
  eapply (transient_write m m _ a 8 bs lg lgs); [apply transient_refl|lia|done|done| | |]; cbn.
  - congruence.
  - congruence.
  - rewrite Eu, Eu2, Eu1. reflexivity.
Qed.
End clauses.

(** C11: every execution clause speculates under a checkpoint.  Conditional
    misprediction changes no memory; store bypass, when the bytes in memory are
    the stored value, and zero injection, for loads of at most eight bytes, only
    make logged writes; so [rollback_restores] applies to each of them. *)
Theorem clauses_speculate_under_checkpoint {uc ctx} `{!Uc uc ctx, !UcLaws uc ctx} cfg
    (m m' : @Model.model uc ctx) :
  (∀ address size, cond_speculate_instruction cfg address size m = Ok m' →
     m' = m ∨ ∃ m0 next, speculates m0 next m' ∧
       (m0 = m ∨ m0 = set_uc (reg_write (m_uc m) "RCX" (reg_read (m_uc m) "RCX" - 1)) m)) ∧
  (∀ address sa ss ov v nv, m_previous_store m = (sa, ss, ov, v) → to_bytes v ss = Ok nv →
     0 ≤ ss → Z.of_nat (length ov) ≤ ss → mem_read (m_uc m) sa ss = nv →
     bpas_speculate_instruction cfg address m = Ok m' →
     m' = m ∨ m' = set_previous_store (0, 0, [], 0) m ∨ speculates m address m') ∧
  (∀ is_store address size, size ≤ 8 →
     null_speculate_mem_access cfg is_store address size m = Ok m' →
     m' = m ∨ speculates m (m_instruction_address m) m').
Proof.
  split_and!.
  - intros a n H. unfold cond_speculate_instruction in H.
    destruct (s_nesting cfg <=? _); [injection H as <-; by left|].
    apply bind_Ok in H as ([[t j] l] & _ & H). destruct (t =? 0); [injection H as <-; by left|].
    right. apply bind_Ok in H as (m1 & H1 & [= <-]).
    destruct l; do 2 eexists; (split; [exists m1; split; [exact H1|]|auto]);
      (eapply transient_silent; [apply transient_refl| |done|done]); intros x; cbn; by rewrite reg_write_mem.
  - intros a sa ss ov v nv Hp Hnv Hss Hov Hmem H. unfold bpas_speculate_instruction in H.
    destruct (_ <=? _); [injection H as <-; by left|]. right. rewrite Hp in H.
    apply bind_Ok in H as (m1 & H1 & [= <-]). destruct (sa =? 0); [injection H1 as <-; by left|].
    right. rewrite Hnv in H1. cbn [mbind result_bind] in H1. apply bind_Ok in H1 as (m2 & H2 & H1).
    exists m2. split; [exact H2|]. pose proof (checkpoint_spec _ _ _ H2) as (Eu & El & Ec & _).
    apply log_change_same in H1 as (E1 & _ & _ & E4 & _ & lg & lgs & E5 & E6). cbn in E1, E4, E5.
    rewrite El in E5. injection E5 as <- <-.
    eapply (transient_write m2 m2 _ sa ss ov [] (m_store_logs m)); [apply transient_refl|done|done|done| |done|].
    + cbn. by rewrite E6, Eu, Hmem.
    + cbn. rewrite E4. reflexivity.
  - intros st a n Hn H. unfold null_speculate_mem_access in H.
    destruct (_ <=? _); [injection H as <-; by left|]. destruct st; [injection H as <-; by left|].
    destruct (_ =? _); [injection H as <-; by left|]. right.
    apply bind_Ok in H as (m1 & H1 & H). apply bind_Ok in H as (m2 & H2 & [= <-]).
    exists m1. split; [exact H1|]. pose proof (checkpoint_spec _ _ _ H1) as (Eu & El & Ec & _).
    apply log_change_same in H2 as (E1 & _ & _ & E4 & _ & lg & lgs & E5 & E6).
    rewrite El in E5. injection E5 as <- <-.
    eapply (transient_write m1 m1 _ a 8 (replicate (Z.to_nat n) 0) [] (m_store_logs m));
      [apply transient_refl|lia|rewrite length_replicate; lia|done|cbn; by rewrite E6|cbn; exact E1|].
    cbn. rewrite E4. reflexivity.
Qed.

(** ** A concrete run: store of one byte under a mispredicted branch *)

Module Demo.
Definition start_uc : toy_uc := mkToy {[ 100 := 7 ]} {[ "RIP" := 4; "EFLAGS" := 64 ]}.
Definition start : @Model.model toy_uc (gmap string Z) :=
  mkModel start_uc (mkTracerState [] [] 0 [] 0 false clear_analysis) None None false 0 [] []
    (0, 0, [], 0) 0 0 false.
Definition demo_settings : settings :=
  mkSettings CT Cond 1 250 0 0 (mkRegions 4096 4096 64) ∅ false false.
Definition no_insn : list Z → Z → option cs_insn := λ _ _, None.
Definition speculating : @Model.model toy_uc (gmap string Z) :=
  match checkpoint 6 start with Ok m => m | Raise _ => start end.
Definition hooked : @Model.model toy_uc (gmap string Z) :=
  match spec_trace_mem_access no_insn demo_settings true 100 1 9 speculating with
  | Ok m => m | Raise _ => start end.
Definition stored : @Model.model toy_uc (gmap string Z) :=
  set_uc (mem_write (m_uc hooked) 100 [9]) hooked.
Definition restored : @Model.model toy_uc (gmap string Z) :=
  match rollback stored with Ok (m, _) => m | Raise _ => start end.
End Demo.

Lemma rollback_restores_witness :
  mem_byte (m_uc Demo.stored) 100 = 9 ∧ mem_byte (m_uc Demo.restored) 100 = 7 ∧
  same_mem (m_uc Demo.restored) (m_uc Demo.start).
Proof.
  split; [reflexivity|]. split; [reflexivity|].
  apply (rollback_restores Demo.start Demo.speculating Demo.stored Demo.restored 6 6).
  - by split.
  - reflexivity.
  - apply (hooked_store_transient Demo.no_insn Demo.demo_settings 100 1 9 [9] Demo.speculating
             Demo.hooked [] []); reflexivity || (cbn; lia).
  - reflexivity.
  - reflexivity.
Defined.

Lemma hooks_respect_nesting_witness :
  within Demo.demo_settings Demo.speculating Demo.hooked.
Proof.
  apply (proj2 (hooks_respect_nesting Demo.no_insn (λ _ _, []) Demo.demo_settings Demo.speculating
                  Demo.hooked ltac:(by split)) true 100 1 9). reflexivity.
Defined.

Lemma clauses_speculate_under_checkpoint_witness :
  let cfg := mkSettings CT Null 1 250 0 0 (mkRegions 4096 4096 64) ∅ false false in
  let m := set_instruction_address 4 Demo.start in
  match null_speculate_mem_access cfg false 100 8 m with
  | Ok m' => m' = m ∨ speculates m 4 m'
  | Raise _ => False
  end.
Proof.
  intros cfg m. destruct (null_speculate_mem_access cfg false 100 8 m) as [m'|] eqn:E;
    [|vm_compute in E; discriminate E].
  apply (proj2 (proj2 (clauses_speculate_under_checkpoint cfg m m')) false 100 8 ltac:(lia) E).
Defined.
