(* ===== verification/SpeculationEnds.v ===== *)
(** * Every speculation ends

    After a test case ran, [_execute_test_case] rolls back the simulations that are
    still open; each rollback restarts the emulator, which may open new ones.
    The loop ends because checkpoints only point forward: a run that was
    resumed at an address opens simulations that restart behind it, and there
    are finitely many addresses of instructions and a bounded number of open
    simulations. *)

From S2P Require Import Prelude Isa Input Taint Dataflow Registers Uc Model SpecFacts HookFacts.

Open Scope Z_scope.

(** ** What the emulator does with the hooks *)

Section emulation.
Context {uc ctx : Type} `{!Uc uc ctx}.
Abbreviation model := (@model uc ctx).
Context (disasm_one : list Z → Z → option cs_insn) (disasm : list Z → Z → list cs_insn).
Context (cfg : settings).

(** The accesses of one instruction: the machine changes, the hook is called. *)
Inductive mem_accesses : model → model → Prop :=
  | accesses_nil m : mem_accesses m m
  | accesses_machine u m m' : mem_accesses (set_uc u m) m' → mem_accesses m m'
  | accesses_hook st a n v m m1 m' :
      trace_mem_access disasm_one cfg st a n v m = Ok m1 → mem_accesses m1 m' → mem_accesses m m'.

(** A run of forward code from address [p]: the hook of the instruction at [p],
    whose encoding is bytes, its accesses, and the run from an address after it
    (where the clause or the machine sends the program counter); or the end,
    at the end of the code, on a stop or on a fault. *)
Inductive emulates : Z → model → model → Prop :=
  | emulates_end u p m : emulates p m (set_uc u m)
  | emulates_step p size q m m1 m2 m' :
      0 < size → byte_list (mem_read (m_uc m) p size) →
      instruction_hook disasm_one disasm cfg p size m = Ok m1 →
      mem_accesses m1 m2 → p < q → emulates q m2 m' → emulates p m m'.
End emulation.

(** ** Where checkpoints restart *)

Section facts.
Context {uc ctx : Type} `{!Uc uc ctx, !UcLaws uc ctx}.
Abbreviation model := (@model uc ctx).
Context (disasm_one : list Z → Z → option cs_insn) (disasm : list Z → Z → list cs_insn).
Context (cfg : settings).

Abbreviation entry := (ctx * Z * Z * Z)%type.
Definition restart (e : entry) : Z := e.1.1.2.
Definition previous_address (m : model) : Z := (m_previous_store m).1.1.1.

(** From [m] to [m'] checkpoints were pushed, on both stacks, which restart at
    addresses [Q] holds of. *)
Definition opens (Q : Z → Prop) (m m' : model) : Prop :=
  m_latest_rollback_address m' = m_latest_rollback_address m ∧
  ∃ pushed : list entry,
    m_checkpoints m' = pushed ++ m_checkpoints m ∧ Forall (λ e, Q (restart e)) pushed ∧
    taint_depth m' = Nat.add (length pushed) <$> taint_depth m.

Lemma opens_same Q (m m' : model) :
  m_latest_rollback_address m' = m_latest_rollback_address m →
  m_checkpoints m' = m_checkpoints m → taint_depth m' = taint_depth m → opens Q m m'.
Proof. intros H1 H2 H3. split; [done|]. exists []. rewrite H2, H3. by destruct (taint_depth m). Qed.

Lemma frame_opens Q (m m' : model) : frame m' = frame m → opens Q m m'.
Proof. unfold frame. intros [= _ E1 _ _ _ E2 _ E3]. by apply opens_same. Qed.

Lemma opens_trans Q (m m1 m2 : model) : opens Q m m1 → opens Q m1 m2 → opens Q m m2.
Proof.
  intros (L1 & l1 & E1 & F1 & T1) (L2 & l2 & E2 & F2 & T2). split; [congruence|].
  exists (l2 ++ l1). rewrite E2, E1, app_assoc. split_and!; [done|by apply Forall_app|].
  rewrite T2, T1, length_app. destruct (taint_depth m); cbn; [|done]. f_equal. lia.
Qed.

Lemma opens_impl (Q Q' : Z → Prop) (m m' : model) : (∀ x, Q x → Q' x) → opens Q m m' → opens Q' m m'.
Proof.
  intros HQ (L & l & E & F & T). split; [done|]. exists l. split_and!; [done| |done].
  eapply Forall_impl; [exact F|]. intros e. apply HQ.
Qed.

(** A change of other parts afterwards. *)
Lemma opens_then Q (m m1 m2 : model) :
  opens Q m m1 → m_latest_rollback_address m2 = m_latest_rollback_address m1 →
  m_checkpoints m2 = m_checkpoints m1 → taint_depth m2 = taint_depth m1 → opens Q m m2.
Proof. intros H E1 E2 E3. eapply opens_trans; [exact H|]. by apply opens_same. Qed.

Lemma checkpoint_opens (Q : Z → Prop) next (m m' : model) :
  Q next → checkpoint next m = Ok m' →
  opens Q m m' ∧ m_previous_store m' = m_previous_store m ∧ m_instruction_address m' = m_instruction_address m.
Proof.
  intros HQ. unfold checkpoint, on_taint_, on_taint. cbn.
  destruct (m_taint m) as [t|] eqn:E; intros [= <-]; cbn; (split; [|done]);
    (split; [done|]); exists [(context_save (m_uc m), next, reg_read (m_uc m) "EFLAGS", m_speculation_window m)];
    (split_and!; [done|by constructor|]); unfold taint_depth; cbn; rewrite E; [|done].
  cbn. by rewrite finalize_checkpoints.
Qed.

(** The target of a jump is read as an unsigned number. *)
Lemma decode_nonneg code flags rcx t j l :
  byte_list code → decode code flags rcx = Ok (t, j, l) → 0 ≤ t.
Proof.
  unfold decode. intros Hb H. apply bind_Ok in H as ([[target j'] l'] & Hj & [= <- <- <-]).
  assert (byte_list target) as Ht.
  { destruct code as [|op rest]; [done|]. cbn in Hj. apply Forall_cons in Hb as [_ Hb].
    repeat (case_match; [by simplify_eq|]). case_match.
    - destruct rest as [|op2 rest]; [done|]. apply Forall_cons in Hb as [_ Hb].
      case_match; simplify_eq; [done|]. by repeat constructor.
    - simplify_eq. by repeat constructor. }
  destruct target as [|b [|b' bs]]; [done| |].
  - apply Forall_cons in Ht as [Hb1 _]. lia.
  - by apply le_value_bound.
Qed.

Lemma cond_opens a n (m m' : model) :
  0 < n → byte_list (mem_read (m_uc m) a n) → cond_speculate_instruction cfg a n m = Ok m' →
  opens (λ x, a < x) m m' ∧ m_previous_store m' = m_previous_store m.
Proof.
  intros Hn Hb. unfold cond_speculate_instruction. destruct (_ <=? _).
  { intros [= <-]. split; [by apply opens_same|done]. }
  intros H. apply bind_Ok in H as ([[t j] l] & Ht%decode_nonneg & H); [|done].
  destruct (t =? 0); [injection H as <-; split; [by apply opens_same|done]|].
  apply bind_Ok in H as (m1 & H1 & [= <-]).
  apply (checkpoint_opens (λ x, a < x)) in H1 as (Hg & Hp & _); [|destruct j; lia].
  split; [|by destruct l]. eapply opens_then; [|done..]. by destruct l.
Qed.

Lemma log_change_frame e (m m' : model) : log_change e m = Ok m' → frame m' = frame m.
Proof.
  unfold log_change, frame. destruct (m_store_logs m) as [|log logs] eqn:E; [done|]. by intros [= <-].
Qed.

Lemma bpas_opens a (m m' : model) :
  bpas_speculate_instruction cfg a m = Ok m' → opens (λ x, x = a ∧ previous_address m ≠ 0) m m'.
Proof.
  unfold bpas_speculate_instruction, previous_address. destruct (_ <=? _); [intros [= <-]; by apply opens_same|].
  destruct (m_previous_store m) as [[[sa ss] ov] v]. cbn.
  intros H. apply bind_Ok in H as (m1 & H1 & [= <-]).
  apply (opens_then _ m m1); [|done..]. destruct (Z.eqb_spec sa 0); [injection H1 as <-; by apply opens_same|].
  apply bind_Ok in H1 as (nv & _ & H1). apply bind_Ok in H1 as (m2 & H2 & H1%log_change_frame).
  apply (checkpoint_opens (λ x, x = a ∧ sa ≠ 0)) in H2 as (Hg & _); [|done].
  apply (opens_trans _ _ (set_uc (mem_write (m_uc m2) sa ov) m2)); [by eapply opens_then|by apply frame_opens].
Qed.

Lemma speculate_instruction_opens a n (m m' : model) :
  0 < n → byte_list (mem_read (m_uc m) a n) → speculate_instruction cfg a n m = Ok m' →
  opens (λ x, a ≤ x ∧ (previous_address m = 0 → a < x)) m m' ∧
  (s_execution cfg = Null → m_instruction_address m' = a).
Proof.
  intros Hn Hb H. unfold speculate_instruction in H. destruct (s_execution cfg); (split; [|done || by injection H as <-]).
  - injection H as <-. by apply opens_same.
  - apply cond_opens in H as [H _]; [|done..]. eapply opens_impl; [|exact H]. cbn. lia.
  - apply bpas_opens in H. eapply opens_impl; [|exact H]. cbn. lia.
  - injection H as <-. by apply opens_same.
  - apply bind_Ok in H as (m1 & H1 & H). apply cond_opens in H1 as [H1 Hp]; [|done..].
    apply bpas_opens in H. unfold previous_address in H. rewrite Hp in H.
    eapply opens_trans; eapply opens_impl; [|exact H1| |exact H]; unfold previous_address; cbn; lia.
Qed.

(** Only the clause without a value at loads pushes in the middle of an instruction. *)
Definition at_load (m : model) (x : Z) : Prop :=
  s_execution cfg = Null ∧ x = m_instruction_address m ∧ x ≠ m_latest_rollback_address m.

Lemma speculate_mem_access_opens st a n v (m m' : model) :
  speculate_mem_access cfg st a n v m = Ok m' →
  opens (at_load m) m m' ∧ m_instruction_address m' = m_instruction_address m.
Proof.
  unfold speculate_mem_access, at_load.
  assert (∀ m' : model, bpas_speculate_mem_access st a n v m = Ok m' →
    opens (at_load m) m m' ∧ m_instruction_address m' = m_instruction_address m) as Hbpas.
  { unfold bpas_speculate_mem_access. intros m1. destruct st; [destruct (mem _ _)|]; intros [= <-];
      (split; [by apply opens_same|done]). }
  destruct (s_execution cfg) eqn:Ex; try (intros [= <-]; split; [by apply opens_same|done]).
  - intros [H E]%Hbpas. split; [|done]. eapply opens_impl; [|exact H]. unfold at_load. rewrite Ex. tauto.
  - unfold null_speculate_mem_access. destruct (_ <=? _); [intros [= <-]; split; [by apply opens_same|done]|].
    destruct st; [intros [= <-]; split; [by apply opens_same|done]|].
    destruct (Z.eqb_spec (m_instruction_address m) (m_latest_rollback_address m)) as [|Hne].
    { intros [= <-]; split; [by apply opens_same|done]. }
    intros H. apply bind_Ok in H as (m1 & H1 & H). apply bind_Ok in H as (m2 & H2%log_change_frame & [= <-]).
    apply (checkpoint_opens (at_load m)) in H1 as (Hg & _ & E); [|by split_and!].
    split.
    + apply (opens_then _ m m2); [|done..]. apply (opens_trans _ m m1); [|by apply frame_opens].
      eapply opens_impl; [|exact Hg]. unfold at_load. by rewrite Ex.
    + unfold frame in H2. cbn. congruence.
  - intros [H E]%Hbpas. split; [|done]. eapply opens_impl; [|exact H]. unfold at_load. rewrite Ex. tauto.
Qed.

Lemma mem_accesses_opens (m m' : model) :
  mem_accesses disasm_one cfg m m' →
  opens (at_load m) m m' ∧ m_instruction_address m' = m_instruction_address m.
Proof.
  induction 1 as [m|u m m' _ [IH E]|st a n v m m1 m' H _ [IH E]].
  - split; [by apply opens_same|done].
  - split; [|done]. eapply opens_trans; [by apply (opens_same _ m (set_uc u m))|exact IH].
  - apply trace_mem_access_split in H as (m0 & Hf & H). pose proof (frame_opens (at_load m) _ _ Hf) as Hg.
    apply speculate_mem_access_opens in H as [H E1].
    unfold frame in Hf. injection Hf as _ _ _ _ _ El Ei _.
    split; [|congruence]. eapply opens_trans; [exact Hg|]. destruct H as [L H].
    eapply opens_trans; [eapply opens_impl; [|split; [exact L|exact H]]|eapply opens_impl; [|exact IH]];
      unfold at_load; intros x; rewrite ?E1, ?L, ?El, ?Ei; done.
Qed.

(** A run from [p] opens simulations from [p] on; behind [p] when it was resumed
    there; and none when there is no instruction at [p]. *)
Lemma emulates_opens p (m m' : model) :
  emulates disasm_one disasm cfg p m m' →
  opens (λ x, p ≤ x) m m' ∧
  (m_latest_rollback_address m = p → previous_address m = 0 → opens (λ x, p < x) m m') ∧
  (m_checkpoints m' = m_checkpoints m ∨ is_Some (s_address_map cfg !! (p - s_code_start cfg))).
Proof.
  induction 1 as [u p m|p n q m m1 m2 m' Hn Hb H Ha Hq _ (IH & _ & _)].
  { split_and!; [by apply opens_same|intros; by apply opens_same|by left]. }
  apply instruction_hook_split in H as (Hin & m0 & Hf & H). rename m0 into m0'.
  pose proof (λ Q, frame_opens Q _ _ Hf) as Hg. unfold frame in Hf. injection Hf as Eu _ _ _ Ep El _ _.
  apply speculate_instruction_opens in H as [H Hnull]; [|done|by rewrite Eu].
  apply mem_accesses_opens in Ha as [Ha _].
  assert (m_latest_rollback_address m1 = m_latest_rollback_address m) as El1 by (destruct H; congruence).
  assert (∀ Q : Z → Prop, (∀ x, p ≤ x ∧ (previous_address m = 0 → p < x) → Q x) →
    (∀ x, x = p ∧ x ≠ m_latest_rollback_address m → Q x) → (∀ x, q ≤ x → Q x) → opens Q m m') as Hall.
  { intros Q H1 H2 H3. eapply opens_trans; [apply Hg|].
    eapply opens_trans; [eapply opens_impl; [|exact H]|].
    { unfold previous_address in *. rewrite Ep. exact H1. }
    eapply opens_trans; [eapply opens_impl; [|exact Ha]|eapply opens_impl; [exact H3|exact IH]].
    unfold at_load. intros x (Hx & -> & Hne). apply H2. rewrite Hnull, El1 in * by done. done. }
  split_and!; [|intros Hl Hp|by right]; apply Hall; intros x; lia.
Qed.

Lemma mem_accesses_within (m m' : model) :
  speculation_ok m → mem_accesses disasm_one cfg m m' → within cfg m m'.
Proof.
  intros Hok H. revert Hok. induction H as [m|u m m' _ IH|st a n v m m1 m' H _ IH]; intros Hok.
  - by apply within_eq.
  - by apply IH.
  - apply (trace_mem_access_within disasm_one cfg) in H; [|done].
    eapply within_trans; [exact H|]. apply IH, H.
Qed.

Lemma emulates_within p (m m' : model) :
  speculation_ok m → emulates disasm_one disasm cfg p m m' → within cfg m m'.
Proof.
  intros Hok H. revert Hok. induction H as [u p m|p n q m m1 m2 m' _ _ H Ha _ _ IH]; intros Hok.
  - by apply within_eq.
  - apply (instruction_hook_within disasm_one disasm cfg) in H; [|done].
    apply mem_accesses_within in Ha; [|by apply H].
    eapply within_trans; [exact H|]. eapply within_trans; [exact Ha|]. apply IH, Ha.
Qed.
End facts.

(** ** The measure *)

Section measure.
Context {uc ctx : Type} `{!Uc uc ctx, !UcLaws uc ctx}.
Abbreviation model := (@model uc ctx).
Context (cfg : settings).

(** The instructions at or behind an address. *)
Definition instructions_from (a : Z) : nat :=
  size (filter (λ k, a - s_code_start cfg ≤ k) (dom (s_address_map cfg) : gset Z)).

(** The bound on the open simulations; a negative one opens none. *)
Definition max_open : nat := Z.to_nat (s_nesting cfg).

(** A simulation may be replaced by [max_open] ones that restart behind it. *)
Definition weight (a : Z) : nat := (S max_open ^ instructions_from a)%nat.
Definition open_weight (m : model) : nat := sum_list ((λ e, weight (restart e)) <$> m_checkpoints m).
(** No more rollbacks than this. *)
Definition rollback_bound : nat := (max_open * S max_open ^ size (s_address_map cfg))%nat.

Lemma instructions_from_total a : (instructions_from a ≤ size (s_address_map cfg))%nat.
Proof.
  unfold instructions_from. rewrite <- (size_dom (D := gset Z)). apply subseteq_size. set_solver.
Qed.

Lemma instructions_from_lt a b :
  is_Some (s_address_map cfg !! (a - s_code_start cfg)) → a < b →
  (instructions_from b < instructions_from a)%nat.
Proof.
  intros Ha%elem_of_dom Hab. unfold instructions_from. apply subset_size. split.
  - intros k. rewrite !elem_of_filter. intros [H1 H2]. split; [lia|done].
  - intros H. specialize (H (a - s_code_start cfg)). rewrite !elem_of_filter in H.
    destruct H as [H _]; [split; [lia|done]|lia].
Qed.

Lemma weight_lt a b :
  is_Some (s_address_map cfg !! (a - s_code_start cfg)) → a < b →
  (S max_open * weight b ≤ weight a)%nat.
Proof.
  intros Ha Hab. unfold weight. rewrite <- Nat.pow_succ_r'. apply Nat.pow_le_mono_r; [lia|].
  pose proof (instructions_from_lt a b Ha Hab). lia.
Qed.

Lemma weight_antitone a b : a ≤ b → (weight b ≤ weight a)%nat.
Proof.
  intros Hab. unfold weight. apply Nat.pow_le_mono_r; [lia|]. unfold instructions_from. apply subseteq_size.
  intros k. rewrite !elem_of_filter. intros [H1 H2]. split; [lia|done].
Qed.

Lemma weight_pos a : (1 ≤ weight a)%nat.
Proof. unfold weight. apply Nat.neq_0_lt_0, Nat.pow_nonzero. lia. Qed.

Lemma sum_list_bound {A} (f : A → nat) c l :
  (∀ x, x ∈ l → (f x ≤ c)%nat) → (sum_list (f <$> l) ≤ length l * c)%nat.
Proof.
  induction l as [|x l IH]; intros H; cbn; [lia|].
  pose proof (H x ltac:(by left)). specialize (IH ltac:(intros; apply H; by right)). lia.
Qed.

Lemma open_weight_bound (m : model) :
  (length (m_checkpoints m) ≤ max_open)%nat → (open_weight m ≤ rollback_bound)%nat.
Proof.
  intros H. unfold open_weight, rollback_bound. etrans; [apply (sum_list_bound _ (S max_open ^ size (s_address_map cfg)))|].
  - intros e _. apply Nat.pow_le_mono_r; [lia|]. apply instructions_from_total.
  - by apply Nat.mul_le_mono_r.
Qed.
End measure.

(** ** The loop *)

Section ends.
Context {uc ctx : Type} `{!Uc uc ctx, !UcLaws uc ctx}.
Abbreviation model := (@model uc ctx).
Context (disasm_one : list Z → Z → option cs_insn) (disasm : list Z → Z → list cs_insn).
Context (cfg : settings).
Context (emu_start : Z → model → model * bool) (xxh32 : string → Z).

(** The stacks of the model and of its tracker agree, within the bound. *)
Definition balanced (m : model) : Prop :=
  speculation_ok m ∧ (length (m_checkpoints m) ≤ max_open cfg)%nat ∧
  ∀ d, taint_depth m = Some d → d = length (m_checkpoints m).

(** No simulation is open. *)
Definition quiet (m : model) : Prop :=
  m_in_speculation m = false ∧ m_checkpoints m = [] ∧ m_store_logs m = [].

Lemma balanced_quiet (m : model) : balanced m → m_in_speculation m = false → quiet m.
Proof.
  intros ([H1 H2] & _ & _) Hin. rewrite Hin in H1. symmetry in H1.
  apply negb_false_iff, bool_decide_eq_true in H1. split_and!; [done|done|].
  rewrite H1 in H2. by destruct (m_store_logs m).
Qed.

(** A rollback of a balanced model succeeds. *)
Lemma rollback_balanced (m : model) :
  balanced m → m_in_speculation m = true →
  ∃ e cps m1, m_checkpoints m = e :: cps ∧ rollback m = Ok (m1, restart e) ∧ balanced m1 ∧
    m_checkpoints m1 = cps ∧ m_latest_rollback_address m1 = restart e ∧ previous_address m1 = 0.
Proof.
  intros ([H1 H2] & Hd & Ht) Hin. rewrite Hin in H1.
  destruct (m_checkpoints m) as [|[[[st next] flags] w] cps] eqn:Ec; [done|].
  destruct (m_store_logs m) as [|log logs] eqn:El; [done|].
  assert (is_Some (m_taint m) → ∃ t d cs, m_taint m = Some t ∧ t_checkpoints t = d :: cs ∧ length cs = length cps) as Htaint.
  { intros [t Et]. specialize (Ht (length (t_checkpoints t))). unfold taint_depth in Ht. rewrite Et in Ht.
    specialize (Ht eq_refl). destruct (t_checkpoints t) as [|d cs] eqn:Ecs; [done|].
    cbn in Ht. injection Ht as Ht. by exists t, d, cs. }
  unfold rollback. rewrite Ec, El. unfold on_taint. cbn.
  assert (∀ m1 : model, m_checkpoints m1 = cps → m_store_logs m1 = logs →
    m_in_speculation m1 = (match cps with [] => false | _ => m_in_speculation m end) →
    (∀ d, taint_depth m1 = Some d → d = length cps) → balanced m1) as Hbal.
  { intros m1 E1 E2 E3 E4. unfold balanced, speculation_ok. rewrite E1, E2, E3, Hin.
    cbn [length] in *. split_and!; [by destruct cps|congruence|lia|done]. }
  destruct (m_taint m) as [t|] eqn:Et.
  - destruct Htaint as (t' & [[fd rd] md] & cs & [= <-] & Ecs & Hlen); [done|].
    unfold taint_rollback. rewrite Ecs. cbn. eexists _, _, _. split; [done|]. split; [done|].
    split_and!; [|done..]. apply Hbal; [done..|]. unfold taint_depth. cbn. by intros d [= <-].
  - cbn. eexists _, _, _. split; [done|]. split; [done|]. split_and!; [|done..].
    apply Hbal; [done..|]. unfold taint_depth. cbn. by rewrite Et.
Qed.

Lemma balanced_after p Q (m m' : model) :
  balanced m → emulates disasm_one disasm cfg p m m' → opens Q m m' → balanced m'.
Proof.
  intros (Hok & Hd & Ht) He (_ & pushed & Ec & _ & Etaint).
  apply emulates_within in He as [Hok' Hd']; [|done]. split_and!; [done| |].
  - unfold max_open in *. lia.
  - intros d Hdep. rewrite Etaint in Hdep. destruct (taint_depth m) as [d0|]; [|done].
    injection Hdep as <-. rewrite Ec, length_app. by rewrite (Ht d0).
Qed.

Hypothesis emu_runs : ∀ begin m, emulates disasm_one disasm cfg begin m (emu_start begin m).1.

(** One turn of the loop makes the measure smaller. *)
Lemma rollback_turn (m : model) :
  balanced m → m_in_speculation m = true →
  ∃ m1 next, rollback m = Ok (m1, next) ∧ balanced (emu_start next m1).1 ∧
    (open_weight cfg (emu_start next m1).1 < open_weight cfg m)%nat.
Proof.
  intros Hb Hin. destruct (rollback_balanced m Hb Hin) as (e & cps & m1 & Ec & Hr & Hb1 & Ec1 & Hl & Hp).
  exists m1, (restart e). split; [done|]. set (m2 := (emu_start (restart e) m1).1).
  pose proof (emu_runs (restart e) m1) as He. fold m2 in He.
  destruct (emulates_opens disasm_one disasm cfg _ _ _ He) as (Hg & Hg' & Hin1).
  specialize (Hg' Hl Hp). pose proof (balanced_after _ _ _ _ Hb1 He Hg') as Hb2. split; [done|].
  destruct Hg' as (_ & pushed & Ec2 & Hq & _). unfold open_weight. rewrite Ec2, Ec1, Ec.
  rewrite fmap_app, sum_list_with_app. cbn. pose proof (weight_pos cfg (restart e)).
  enough (sum_list ((λ e, weight cfg (restart e)) <$> pushed) < weight cfg (restart e))%nat by lia.
  destruct pushed as [|e1 pushed]; [cbn; lia|].
  destruct Hin1 as [Hin1|Hin1].
  { rewrite Ec2 in Hin1. apply (f_equal length) in Hin1. rewrite length_app in Hin1. cbn in Hin1. lia. }
  assert (Hle : (length (e1 :: pushed) ≤ max_open cfg)%nat).
  { destruct Hb2 as (_ & Hd & _). rewrite Ec2, length_app in Hd. lia. }
  pose proof (sum_list_bound (λ e, weight cfg (restart e)) (weight cfg (restart e + 1)) (e1 :: pushed)) as Hsum.
  assert (S (max_open cfg) * weight cfg (restart e + 1) ≤ weight cfg (restart e))%nat by (apply weight_lt; [done|lia]).
  pose proof (weight_pos cfg (restart e + 1)).
  assert (length (e1 :: pushed) * weight cfg (restart e + 1) ≤ max_open cfg * weight cfg (restart e + 1))%nat
    by (by apply Nat.mul_le_mono_r).
  assert (sum_list ((λ e, weight cfg (restart e)) <$> e1 :: pushed) ≤ length (e1 :: pushed) * weight cfg (restart e + 1))%nat; [|lia].
  apply Hsum. intros x Hx. rewrite Forall_forall in Hq. specialize (Hq x Hx). cbn in Hq.
  apply weight_antitone. lia.
Qed.

Lemma rollback_all_ends (m : model) fuel :
  balanced m → (open_weight cfg m ≤ fuel)%nat →
  ∃ m', rollback_all emu_start fuel m = Ok m' ∧ quiet m'.
Proof.
  revert m. induction fuel as [|fuel IH]; intros m Hb Hf; cbn [rollback_all];
    destruct (m_in_speculation m) eqn:Hin; cbn [negb].
  - destruct (rollback_turn m Hb Hin) as (m1 & next & _ & _ & Hlt). lia.
  - exists m. split; [done|by apply balanced_quiet].
  - destruct (rollback_turn m Hb Hin) as (m1 & next & -> & Hb2 & Hlt). cbn [mbind result_bind].
    apply IH; [done|lia].
  - exists m. split; [done|by apply balanced_quiet].
Qed.
End ends.

(** ** The theorem *)

Section execute.
Context {uc ctx : Type} `{!Uc uc ctx, !UcLaws uc ctx}.
Abbreviation model := (@model uc ctx).
Context (disasm_one : list Z → Z → option cs_insn) (disasm : list Z → Z → list cs_insn).
Context (cfg : settings).

(** A model that was reset and whose logs are empty. *)
Lemma reset_balanced (m : model) : m_store_logs m = [] → balanced cfg (reset_model cfg m).
Proof.
  intros H. unfold balanced, speculation_ok, reset_model, reset_trace, taint_depth.
  destruct (s_execution cfg), (s_tainting_enabled cfg), (s_observation cfg); cbn; rewrite ?H;
    (split_and!; [done|done|lia|by intros d [= <-] || done]).
Qed.

Lemma load_input_logs input (m m' : model) :
  _load_input cfg input m = Ok m' → m_store_logs m' = m_store_logs m.
Proof. unfold _load_input. intros H. by apply bind_Ok in H as (u & _ & [= <-]). Qed.

Lemma reset_logs (m : model) : m_store_logs (reset_model cfg m) = m_store_logs m.
Proof.
  unfold reset_model, reset_trace.
  by destruct (s_execution cfg), (s_tainting_enabled cfg), (s_observation cfg).
Qed.
End execute.

(** C8: every input's execution ends.  When the code runs forward, executing an
    input on a model without leftovers rolls back at most [rollback_bound] times
    (the nesting bound times its successor to the power of the number of
    instructions): the loop over the open simulations ends, no rollback fails, and the
    result is computed from a model with no checkpoint, no log and the speculation flag
    cleared, so that the next input starts without leftovers again. *)
Theorem input_execution_ends {uc ctx} `{!Uc uc ctx, !UcLaws uc ctx} disasm_one disasm cfg
    emu_start xxh32 fuel input (m m1 m2 : @Model.model uc ctx) error :
  (∀ begin m, emulates disasm_one disasm cfg begin m (emu_start begin m).1) →
  m_store_logs m = [] →
  _load_input cfg input (reset_model cfg m) = Ok m1 →
  emu_start (s_code_start cfg) (reset_model cfg m1) = (m2, error) →
  (error = true → m_in_speculation m2 = true) →
  (rollback_bound cfg ≤ fuel)%nat →
  ∃ m3, rollback_all emu_start fuel m2 = Ok m3 ∧ quiet m3 ∧
    execute_input cfg emu_start xxh32 fuel input m =
      (ctrace ← get_contract_trace cfg xxh32 m3;
       taint ← model_taint cfg m3;
       Ok (m3, (ctrace, tr_execution_trace (m_tracer m3), taint))).
Proof.
  intros Hrun Hlog Hload Hstart Herr Hfuel.
  assert (balanced cfg (reset_model cfg m1)) as Hb.
  { apply reset_balanced. apply load_input_logs in Hload. by rewrite Hload, reset_logs. }
  pose proof (Hrun (s_code_start cfg) (reset_model cfg m1)) as He. rewrite Hstart in He. cbn in He.
  destruct (emulates_opens _ _ _ _ _ _ He) as (Hg & _).
  pose proof (balanced_after _ _ _ _ _ _ _ Hb He Hg) as Hb2.
  destruct (rollback_all_ends disasm_one disasm cfg emu_start Hrun m2 fuel Hb2) as (m3 & Hm3 & Hq).
  { etrans; [apply open_weight_bound, Hb2|done]. }
  exists m3. split_and!; [done..|]. unfold execute_input. rewrite Hload. cbn [mbind result_bind].
  rewrite Hstart. replace (error && negb (m_in_speculation m2)) with false.
  - cbn [negb assert_ mbind result_bind]. by rewrite Hm3.
  - destruct error; [|done]. by rewrite Herr.
Qed.

(** ** A concrete run: three instructions that each load, under the clause that
    speculates on the value of every load *)
Module EndsDemo.
Definition cfg : settings :=
  mkSettings CT Null 2 250 4096 0 (mkRegions 64 64 64)
    (list_to_map (map (λ a, (a, new_Instruction "MOV" false "BASE-DATAXFER" false)) [0; 2; 4])) false false.
Definition no_page : list Z → Z → list cs_insn := λ _ _, [].
Abbreviation model := (@Model.model toy_uc (gmap string Z)).

(** The hooks of the instructions from [p] on, two bytes each. *)
Fixpoint run (n : nat) (p : Z) (m : model) : model :=
  match n with
  | O => m
  | S n =>
      if forallb (λ b, (0 <=? b) && (b <? 256)) (mem_read (m_uc m) p 2) then
        match instruction_hook Demo.no_insn no_page cfg p 2 m with
        | Ok m1 =>
            match trace_mem_access Demo.no_insn cfg false (4096 + p) 8 0 m1 with
            | Ok m2 => run n (p + 2) m2
            | Raise _ => m1
            end
        | Raise _ => m
        end
      else m
  end.
Definition emu_start (begin : Z) (m : model) : model * bool := (run 3 begin m, false).

Definition loaded : model :=
  match _load_input cfg (mkInput (replicate 24 5) 0) (reset_model cfg Demo.start) with
  | Ok m => m | Raise _ => Demo.start end.
Definition ran : model := (emu_start 0 (reset_model cfg loaded)).1.
End EndsDemo.

Lemma demo_emulates n p m : emulates Demo.no_insn EndsDemo.no_page EndsDemo.cfg p m (EndsDemo.run n p m).
Proof.
  assert (∀ p m, emulates Demo.no_insn EndsDemo.no_page EndsDemo.cfg p m m) as Hend.
  { intros p' m'. destruct m' eqn:E. rewrite <- E at 1. rewrite E. apply (emulates_end _ _ _ m_uc). }
  revert p m. induction n as [|n IH]; intros p m; cbn [EndsDemo.run]; [apply Hend|].
  destruct (forallb _ _) eqn:Hb; [|apply Hend].
  destruct (instruction_hook _ _ _ p 2 m) as [m1|] eqn:E1; [|apply Hend].
  assert (byte_list (mem_read (m_uc m) p 2)) as Hbytes.
  { apply Forall_forall. intros b Hin%list_elem_of_In. rewrite forallb_forall in Hb.
    specialize (Hb b Hin). lia. }
  destruct (trace_mem_access _ _ _ _ _ _ m1) as [m2|] eqn:E2.
  - eapply (emulates_step _ _ _ p 2 (p + 2)); [lia|done|exact E1| |lia|apply IH].
    eapply accesses_hook; [exact E2|constructor].
  - eapply (emulates_step _ _ _ p 2 (p + 2)); [lia|done|exact E1|constructor|lia|apply Hend].
Qed.

Lemma input_execution_ends_witness :
  length (m_checkpoints EndsDemo.ran) = 2%nat ∧ rollback_bound EndsDemo.cfg = 54%nat ∧
  ∃ m3, rollback_all EndsDemo.emu_start 54 EndsDemo.ran = Ok m3 ∧ quiet m3 ∧
    execute_input EndsDemo.cfg EndsDemo.emu_start (λ _, 0) 54 (mkInput (replicate 24 5) 0) Demo.start =
      (ctrace ← get_contract_trace EndsDemo.cfg (λ _, 0) m3;
       taint ← model_taint EndsDemo.cfg m3;
       Ok (m3, (ctrace, tr_execution_trace (m_tracer m3), taint))).
Proof.
  assert (_load_input EndsDemo.cfg (mkInput (replicate 24 5) 0) (reset_model EndsDemo.cfg Demo.start) =
          Ok EndsDemo.loaded) as Hload.
  { unfold EndsDemo.loaded. destruct (_load_input _ _ _) as [m|e] eqn:E; [done|].
    assert (succeeds (_load_input EndsDemo.cfg (mkInput (replicate 24 5) 0)
              (reset_model EndsDemo.cfg Demo.start)) = true) as H by (vm_compute; reflexivity).
    rewrite E in H. discriminate H. }
  split; [vm_compute; reflexivity|]. split; [vm_compute; reflexivity|].
  apply (input_execution_ends Demo.no_insn EndsDemo.no_page EndsDemo.cfg EndsDemo.emu_start (λ _, 0) 54
           (mkInput (replicate 24 5) 0) Demo.start EndsDemo.loaded EndsDemo.ran false).
  - intros begin m. apply demo_emulates.
  - reflexivity.
  - exact Hload.
  - unfold EndsDemo.ran, EndsDemo.emu_start. cbn [fst]. apply eq_refl.
  - intros [=].
  - apply Nat.leb_le. vm_compute. reflexivity.
Defined.
