(* ===== verification/ModelFacts.v ===== *)
(** * Observations, mispredictions, inputs

    The conditional jumps against the architecture's condition codes, the two
    sides of a misprediction, the hash encoding of a trace, what the protection
    clause exposes, the state an input is loaded into, and the CT hooks of the
    model as the hooks [TaintSound] reasons about. *)

From S2P Require Import Prelude.
From S2P Require Import Isa.
From S2P Require Import Input.
From S2P Require Import InputFacts.
From S2P Require Import Taint.
From S2P Require Import TaintSound.
From S2P Require Import Boosting.
From S2P Require Import Dataflow.
From S2P Require Import Registers Uc.
From S2P Require Import Model.
From S2P Require Import SpecFacts.
From S2P Require Import HookFacts.

Open Scope Z_scope.

(** ** Conditional jumps *)

(** The architecture: condition [2k] is a predicate of the flags, [2k+1] its negation. *)
Definition cc_base (k f : Z) : bool :=
  match k with
  | 0 => Z.testbit f 11
  | 1 => Z.testbit f 0
  | 2 => Z.testbit f 6
  | 3 => Z.testbit f 0 || Z.testbit f 6
  | 4 => Z.testbit f 7
  | 5 => Z.testbit f 2
  | 6 => xorb (Z.testbit f 7) (Z.testbit f 11)
  | _ => Z.testbit f 6 || xorb (Z.testbit f 7) (Z.testbit f 11)
  end.
Definition cc_holds (n f : Z) : bool := xorb (Z.odd n) (cc_base (n / 2) f).

Lemma flag_set_testbit f k : 0 ≤ k → flag_set f (2 ^ k) = Z.testbit f k.
Proof.
  intros Hk. unfold flag_set. destruct (Z.testbit f k) eqn:E.
  - apply negb_true_iff, Z.eqb_neq. intros H. apply (f_equal (λ z, Z.testbit z k)) in H.
    rewrite Z.land_spec, Z.pow2_bits_true, E, Z.bits_0 in H by done. done.
  - apply negb_false_iff, Z.eqb_eq. apply Z.bits_inj'. intros j Hj.
    rewrite Z.land_spec, Z.bits_0. destruct (decide (j = k)) as [->|].
    + by rewrite E.
    + rewrite Z.pow2_bits_false by congruence. apply andb_false_r.
Qed.

Lemma jump_condition_cc n f : 0 ≤ n < 16 → jump_condition n f = cc_holds n f.
Proof.
  intros Hn.
  pose proof (flag_set_testbit f 0 ltac:(lia)) as H0. pose proof (flag_set_testbit f 2 ltac:(lia)) as H2.
  pose proof (flag_set_testbit f 6 ltac:(lia)) as H6. pose proof (flag_set_testbit f 7 ltac:(lia)) as H7.
  pose proof (flag_set_testbit f 11 ltac:(lia)) as H11.
  change (2 ^ 0) with FLAGS_CF in H0. change (2 ^ 2) with FLAGS_PF in H2. change (2 ^ 6) with FLAGS_ZF in H6.
  change (2 ^ 7) with FLAGS_SF in H7. change (2 ^ 11) with FLAGS_OF in H11.
  assert (n ∈ [0; 1; 2; 3; 4; 5; 6; 7; 8; 9; 10; 11; 12; 13; 14; 15]) as Hin
    by (rewrite !elem_of_cons, elem_of_nil; lia).
  rewrite !elem_of_cons, elem_of_nil in Hin. unfold cc_holds.
  repeat (destruct Hin as [->|Hin]; [
    match goal with |- context [Z.odd ?k] =>
      let b := eval vm_compute in (Z.odd k) in let q := eval vm_compute in (k / 2) in
      change (Z.odd k) with b; change (k / 2) with q end;
    cbn [jump_condition cc_base]; rewrite ?H0, ?H2, ?H6, ?H7, ?H11;
    by repeat match goal with |- context [Z.testbit f ?k] => destruct (Z.testbit f k) end|]).
  done.
Qed.

(** the decoder of conditional jumps agrees with the architecture.  For each of
    the sixteen condition codes and any flags, the two-byte and the six-byte form
    are both recognised, with the architectural outcome and the displacement as
    an unsigned number. *)
Theorem decode_conditions n f r d d1 d2 d3 d4 :
  0 ≤ n < 16 →
  decode [0x70 + n; d] f r = Ok (d, cc_holds n f, false) ∧
  decode [0x0F; 0x80 + n; d1; d2; d3; d4] f r = Ok (le_value [d1; d2; d3; d4], cc_holds n f, false).
Proof.
  intros Hn. rewrite <- (jump_condition_cc n f Hn). split; unfold decode, jumps.
  - rewrite (proj2 (Z.leb_le 0x70 _)), (proj2 (Z.leb_le _ 0x7F)) by lia. cbn [andb].
    by replace (0x70 + n - 0x70) with n by lia.
  - change ((0x70 <=? 0x0F) && (0x0F <=? 0x7F)) with false. cbn match.
    change (0x0F =? 0xE0) with false. change (0x0F =? 0xE1) with false. change (0x0F =? 0xE2) with false.
    change (0x0F =? 0xE3) with false. change (0x0F =? 0x0F) with true. cbn match.
    rewrite (proj2 (Z.leb_le 0x80 _)), (proj2 (Z.leb_le _ 0x8F)) by lia. cbn [andb].
    by replace (0x80 + n - 0x80) with n by lia.
Qed.

Lemma decode_conditions_witness :
  decode [0x70 + 4; 5] 64 0 = Ok (5, cc_holds 4 64, false) ∧
  decode [0x0F; 0x80 + 4; 1; 1; 0; 0] 64 0 = Ok (le_value [1; 1; 0; 0], cc_holds 4 64, false).
Proof. apply (decode_conditions 4 64 0 5 1 1 0 0). lia. Defined.

(** displacements are read as unsigned.  The target of a short conditional
    jump is its signed displacement exactly when the jump goes forward. *)
Theorem short_jump_displacement n f r d :
  0 ≤ n < 16 → 0 ≤ d < 256 →
  let signed := if d <? 128 then d else d - 256 in
  ∃ target taken, decode [0x70 + n; d] f r = Ok (target, taken, false) ∧
    (target = signed ↔ d < 128).
Proof.
  intros Hn Hd. cbn zeta. exists d, (cc_holds n f). split.
  - unfold decode, jumps. rewrite (proj2 (Z.leb_le 0x70 _)), (proj2 (Z.leb_le _ 0x7F)) by lia. cbn [andb].
    replace (0x70 + n - 0x70) with n by lia. by rewrite jump_condition_cc.
  - destruct (Z.ltb_spec d 128); lia.
Qed.

Lemma short_jump_displacement_witness :
  ∃ target taken, decode [0x70 + 4; 0xFE] 0 0 = Ok (target, taken, false) ∧ (target = -2 ↔ 0xFE < 128).
Proof. apply (short_jump_displacement 4 0 0 0xFE); lia. Defined.

Section spec.
Context {uc ctx : Type} `{!Uc uc ctx, !UcLaws uc ctx}.
Abbreviation model := (@model uc ctx).

(** A mispredicted branch: where the machine goes and where it will come back. *)
Record mispredicted (right wrong : Z) (m m' : model) : Prop := {
  mp_rip : reg_read (m_uc m') "RIP" = wrap64 wrong;
  mp_restart : ∃ c f w cps, m_checkpoints m' = (c, right, f, w) :: cps;
  mp_depth : length (m_checkpoints m') = S (length (m_checkpoints m));
  mp_speculative : m_in_speculation m' = true
}.
End spec.

(** the misprediction takes the wrong side.  When the instruction at [address]
    is a conditional jump with a non-zero target and the nesting allows it, the
    machine continues on the side the flags do not select, and the checkpoint
    restarts on the side they select; anything else leaves the model as it is. *)
Theorem cond_mispredicts {uc ctx} `{!Uc uc ctx, !UcLaws uc ctx} cfg address size
    (m m' : @Model.model uc ctx) target taken is_loop :
  decode (mem_read (m_uc m) address size) (reg_read (m_uc m) "EFLAGS") (reg_read (m_uc m) "RCX")
    = Ok (target, taken, is_loop) →
  cond_speculate_instruction cfg address size m = Ok m' →
  if (target =? 0) || (s_nesting cfg <=? Z.of_nat (length (m_checkpoints m))) then m' = m
  else mispredicted (if taken : bool then address + size + target else address + size)
                    (if taken then address + size else address + size + target) m m'.
Proof.
  intros Hd H. unfold cond_speculate_instruction in H.
  destruct (s_nesting cfg <=? _); [rewrite orb_true_r; by injection H as <-|]. rewrite orb_false_r.
  rewrite Hd in H. cbn [mbind result_bind] in H. destruct (target =? 0); [by injection H as <-|].
  apply bind_Ok in H as (m1 & H1 & [= <-]). apply checkpoint_spec in H1 as (_ & _ & Hc & Hi & _).
  split; cbn.
  - by rewrite reg_write_eq.
  - rewrite Hc. by do 4 eexists.
  - rewrite Hc. cbn. by destruct is_loop.
  - done.
Qed.

(** A taken JZ at address 4, of two bytes. *)
Definition jz_uc : toy_uc :=
  mkToy (<[4 := 0x74]> {[ 5 := 0x10 ]}) {[ "RIP" := 4; "EFLAGS" := 64 ]}.
Definition jz_model : @Model.model toy_uc (gmap string Z) := set_uc jz_uc HookFacts.Demo.start.

Lemma cond_mispredicts_witness :
  match cond_speculate_instruction HookFacts.Demo.demo_settings 4 2 jz_model with
  | Ok m' => mispredicted (4 + 2 + 0x10) (4 + 2) jz_model m'
  | Raise _ => False
  end.
Proof.
  destruct (cond_speculate_instruction HookFacts.Demo.demo_settings 4 2 jz_model) as [m'|] eqn:E;
    [|vm_compute in E; discriminate E].
  apply (cond_mispredicts HookFacts.Demo.demo_settings 4 2 jz_model m' 0x10 true false).
  - vm_compute. reflexivity.
  - exact E.
Defined.

(** ** The encoding that is hashed *)

(** The string [get_contract_trace] feeds to the hash. *)
Definition encode_trace (trace : list Z) : string := foldr (λ x s, hex x +:+ s) "" trace.

Fixpoint no_x (s : string) : bool :=
  match s with EmptyString => true | String c s => negb (Ascii.eqb c "x") && no_x s end.

Lemma append_assoc (a b c : string) : (a +:+ b) +:+ c = a +:+ (b +:+ c).
Proof. induction a as [|x a IH]; [done|]. change (String x ((a +:+ b) +:+ c) = String x (a +:+ (b +:+ c))). by rewrite IH. Qed.

Lemma no_x_app a b : no_x (a +:+ b) = no_x a && no_x b.
Proof.
  induction a as [|c a IH]; [done|]. change (negb (Ascii.eqb c "x") && no_x (a +:+ b) =
    negb (Ascii.eqb c "x") && no_x a && no_x b). by rewrite IH, andb_assoc.
Qed.

Lemma raw_no_x_bound n : ∀ p acc, (Pos.to_nat p < n)%nat → no_x acc = true →
  no_x (HexString.Raw.of_pos p acc) = true.
Proof.
  induction n as [|n IH]; intros p acc Hp Hacc; [lia|].
  destruct p as [[[[p|p|]|[p|p|]|]|[[p|p|]|[p|p|]|]|]|[[[p|p|]|[p|p|]|]|[[p|p|]|[p|p|]|]|]|];
    cbn; try (by rewrite Hacc); apply IH; try lia; cbn; by rewrite Hacc.
Qed.

(** A hexadecimal literal: the prefix, then digits without an [x]. *)
Lemma hex_shape a : 0 ≤ a → ∃ d, hex a = "0x" +:+ d ∧ no_x d = true.
Proof.
  intros Ha. destruct a as [|p|p]; [by exists "0"| |lia].
  exists (HexString.Raw.of_pos p ""). split; [done|].
  by apply (raw_no_x_bound (S (Pos.to_nat p))); [lia|].
Qed.

(** The rest of an encoding is empty or starts a new literal. *)
Definition boundary (s : string) : Prop := s = "" ∨ ∃ t, s = "0x" +:+ t.

Lemma encode_boundary trace : Forall (λ x, 0 ≤ x) trace → boundary (encode_trace trace).
Proof.
  intros H. destruct H as [|a trace Ha _]; [by left|]. right.
  destruct (hex_shape a Ha) as (d & Hd & _). exists (d +:+ encode_trace trace).
  change (encode_trace (a :: trace)) with (hex a +:+ encode_trace trace). by rewrite Hd, append_assoc.
Qed.

Lemma digits_split d1 : ∀ d2 r1 r2,
  no_x d1 = true → no_x d2 = true → boundary r1 → boundary r2 →
  d1 +:+ r1 = d2 +:+ r2 → d1 = d2 ∧ r1 = r2.
Proof.
  assert (∀ c d r1 r2, no_x (String c d) = true → boundary r1 → boundary r2 → r1 = String c d +:+ r2 → False) as Hne.
  { intros c d r1 r2 Hd [->|[t1 ->]] Hr2 E; [done|]. injection E as <- E. cbn in Hd.
    destruct d as [|c' d].
    - destruct Hr2 as [->|[t2 ->]]; discriminate E.
    - injection E as <- _. discriminate Hd. }
  induction d1 as [|c d1 IH]; intros [|c2 d2] r1 r2 H1 H2 Hr1 Hr2 E.
  - done.
  - exfalso. by eapply (Hne c2 d2 r1 r2).
  - exfalso. by eapply (Hne c d1 r2 r1).
  - injection E as <- E. cbn in H1, H2. apply andb_true_iff in H1 as [_ H1], H2 as [_ H2].
    destruct (IH d2 r1 r2 H1 H2 Hr1 Hr2 E) as [-> ->]. done.
Qed.

(** no two contract traces are confused before hashing.  The concatenation of
    hexadecimal literals that is fed to the hash determines the trace, so
    traces only collide when xxh32 does. *)
Theorem encode_trace_injective t1 t2 :
  Forall (λ x, 0 ≤ x) t1 → Forall (λ x, 0 ≤ x) t2 → encode_trace t1 = encode_trace t2 → t1 = t2.
Proof.
  intros H1. revert t2. induction H1 as [|a t1 Ha H1 IH]; intros t2 H2 E.
  - destruct H2 as [|b t2 Hb _]; [done|]. destruct (hex_shape b Hb) as (d & Hd & _).
    change (encode_trace (b :: t2)) with (hex b +:+ encode_trace t2) in E. rewrite Hd in E. discriminate E.
  - change (encode_trace (a :: t1)) with (hex a +:+ encode_trace t1) in E.
    destruct (hex_shape a Ha) as (d & Hd & Hnd). destruct H2 as [|b t2 Hb H2].
    { rewrite Hd in E. discriminate E. }
    change (encode_trace (b :: t2)) with (hex b +:+ encode_trace t2) in E.
    destruct (hex_shape b Hb) as (d2 & Hd2 & Hnd2). rewrite Hd, Hd2 in E. injection E as E.
    change (d +:+ encode_trace t1 = d2 +:+ encode_trace t2) in E.
    apply digits_split in E as [-> E]; [|done|done|by apply encode_boundary|by apply encode_boundary].
    f_equal; [apply (inj hex); congruence|by apply IH].
Qed.

Lemma encode_trace_injective_witness : encode_trace [16; 0] = "0x100x0" ∧ ([16; 0] : list Z) = [16; 0].
Proof.
  split; [reflexivity|]. apply (encode_trace_injective [16; 0] [16; 0]).
  - repeat constructor; discriminate.
  - repeat constructor; discriminate.
  - reflexivity.
Defined.
