(* ===== verification/ObserveFacts.v ===== *)
(** * What the clauses observe, and of which state

    The protection clause and its prefix test, the width of logged stores, the
    state [_load_input] sets up, and the agreement of the model's CT hooks with
    the run [TaintSound] is about. *)

From S2P Require Import Prelude.
From S2P Require Import Isa.
From S2P Require Import Input.
From S2P Require Import InputFacts.
From S2P Require Import Taint.
From S2P Require Import TaintSound.
From S2P Require Import Boosting.
From S2P Require Import Dataflow.
From S2P Require Import Registers Uc.
From S2P Require Import Model.
From S2P Require Import SpecFacts.
From S2P Require Import HookFacts.
From S2P Require Import ModelFacts.

Open Scope Z_scope.

(** ** The protection clause *)

Lemma on_taint_trace {uc ctx} `{!Uc uc ctx} f (m m' : @Model.model uc ctx) :
  on_taint f m = Ok m' → m_tracer m' = m_tracer m.
Proof.
  unfold on_taint. destruct (m_taint m) as [t|]; [|by intros [= <-]].
  intros H. by apply bind_Ok in H as (t' & _ & [= <-]).
Qed.

Lemma expose_regs_prot {uc ctx} `{!Uc uc ctx} rs (m m' : @Model.model uc ctx) :
  for_each expose_reg rs m = Ok m' →
  tr_unprot_regs (m_tracer m') = tr_unprot_regs (m_tracer m) ∧ m_uc m' = m_uc m.
Proof.
  apply (for_each_inv (λ x, tr_unprot_regs (m_tracer x) = tr_unprot_regs (m_tracer m) ∧ m_uc x = m_uc m)); [|done].
  intros r s s' _ [<- <-] H. unfold expose_reg in H.
  pose proof (on_taint_trace _ _ _ H) as ->. apply on_taint_core in H; [|apply taint_reg_keeps].
  unfold core in H. split; [done|]. by injection H as ->.
Qed.

(** the protection clause exposes the wrong outputs.  After an instruction the
    tracer holds its written registers for exposure exactly when the instruction
    carries the protection prefix, while a load's memory is exposed exactly when
    the loading instruction does not carry it; and the registers held survive the
    reset between two inputs. *)
Theorem prot_clause_prefix {uc ctx} `{!Uc uc ctx, !UcLaws uc ctx} disasm_one cfg (m : @Model.model uc ctx) :
  (∀ address m', prot_observe_instruction disasm_one cfg address m = Ok m' →
     ∃ insn, disasm_instruction disasm_one m = Ok insn ∧
     tr_unprot_regs (m_tracer m') =
       if check_protected_pc address m then ci_regs_write insn else []) ∧
  (∀ address size value m1 m', s_observation cfg = Prot →
     ct_observe_mem_access cfg false address size value m = Ok m1 →
     observe_mem_access disasm_one cfg false address size value m = Ok m' →
     if check_protected_pc (reg_read (m_uc m) "RIP") m then m' = m1
     else expose_mem address size m1 = Ok m') ∧
  tr_unprot_regs (m_tracer (reset_model cfg m)) = tr_unprot_regs (m_tracer m).
Proof.
  split_and!.
  - intros a m' H. unfold prot_observe_instruction in H.
    apply bind_Ok in H as (m1 & H1%pc_instr_core%core_stacks & H). destruct H1 as (Eu1 & _).
    apply bind_Ok in H as (i & Hi & H). exists i.
    assert (disasm_instruction disasm_one m = Ok i) as Hi' by (unfold disasm_instruction in *; by rewrite Eu1 in Hi).
    split; [done|].
    apply bind_Ok in H as (m2 & [_ H2]%expose_regs_prot & H).
    apply bind_Ok in H as (m3 & [H3 H4]%expose_regs_prot & H).
    assert (check_protected_pc a m3 = check_protected_pc a m) as Ep.
    { unfold check_protected_pc. rewrite H4. cbn. rewrite H2. cbn. by rewrite Eu1. }
    rewrite Ep in H. destruct (check_protected_pc a m); injection H as <-; [done|]. by rewrite H3.
  - intros a n v m1 m' Hc H1 H. unfold observe_mem_access in H. rewrite Hc, H1 in H.
    cbn [mbind result_bind] in H. apply bind_Ok in H as (? & _ & H).
    apply ct_mem_core, core_stacks in H1 as (Eu & _).
    assert (check_protected_pc (reg_read (m_uc m1) "RIP") m1 =
            check_protected_pc (reg_read (m_uc m) "RIP") m) as E
      by (unfold check_protected_pc; by rewrite Eu).
    rewrite E in H. destruct (check_protected_pc _ m); [by injection H as <-|done].
  - unfold reset_model, reset_trace. destruct (s_execution cfg), (s_observation cfg); reflexivity.
Qed.

Definition reg_insn : cs_insn := mkCsInsn 4 2 [] false false false false [] [] ["rax"].

Lemma prot_clause_prefix_witness :
  let cfg := mkSettings Prot Seq 1 250 0 0 (mkRegions 4096 4096 64)
               {[ 4 := new_Instruction "NOP" false "" false ]} false false in
  let m := set_uc (mkToy {[ 4 := 0x36 ]} {[ "RIP" := 4 ]}) HookFacts.Demo.start in
  match prot_observe_instruction (λ _ _, Some reg_insn) cfg 4 m with
  | Ok m' => ∃ insn, disasm_instruction (λ _ _, Some reg_insn) m = Ok insn ∧
     tr_unprot_regs (m_tracer m') = if check_protected_pc 4 m then ci_regs_write insn else []
  | Raise _ => False
  end.
Proof.
  intros cfg m. destruct (prot_observe_instruction (λ _ _, Some reg_insn) cfg 4 m) as [m'|] eqn:E;
    [|vm_compute in E; discriminate E].
  apply (proj1 (prot_clause_prefix (λ _ _, Some reg_insn) cfg m) 4 m' E).
Defined.

(** ** Stores wider than the log *)

(** only eight bytes of a store are logged.  A transient store of more than
    eight bytes is not undone: the ninth byte keeps its transient value after
    the rollback. *)
Theorem wide_store_survives_rollback {uc ctx} `{!Uc uc ctx, !UcLaws uc ctx} disasm_one cfg
    (m m1 m2 m3 m4 : @Model.model uc ctx) next next' address value bs b :
  checkpoint next m = Ok m1 →
  spec_trace_mem_access disasm_one cfg true address (Z.of_nat (length bs)) value m1 = Ok m2 →
  m3 = set_uc (mem_write (m_uc m2) address bs) m2 → bs !! 8%nat = Some b →
  rollback m3 = Ok (m4, next') → mem_byte (m_uc m4) (address + 8) = b.
Proof.
  intros Hcp Hst -> Hb Hrb. pose proof (checkpoint_spec _ _ _ Hcp) as (_ & Hl & Hc & _).
  unfold spec_trace_mem_access in Hst. rewrite Hl in Hst. rewrite bool_decide_false in Hst by done.
  cbn [negb andb] in Hst. apply bind_Ok in Hst as (ma & Ha & Hst).
  apply bind_Ok in Hst as (mb & Hmb%seq_mem_core%core_stacks & Hst). destruct Hmb as (_ & Elb & _).
  apply log_change_same in Ha as (_ & _ & _ & _ & _ & lg & lgs & E1 & E2).
  rewrite Hl in E1. injection E1 as <- <-.
  assert (m_store_logs m2 = m_store_logs mb) as El.
  { unfold speculate_mem_access in Hst. destruct (s_execution cfg); try by injection Hst as <-.
    - unfold bpas_speculate_mem_access in Hst. destruct (mem _ _); by injection Hst as <-.
    - unfold null_speculate_mem_access in Hst. destruct (_ <=? _); by injection Hst as <-.
    - unfold bpas_speculate_mem_access in Hst. destruct (mem _ _); by injection Hst as <-. }
  apply rollback_spec in Hrb as (st & fl & w & cps & log & logs & _ & E4 & _ & _ & _ & _ & E5 & _).
  cbn in E4. rewrite El, Elb, E2 in E4. injection E4 as <- <-. rewrite E5, reg_write_mem. cbn.
  rewrite write_outside by (rewrite length_mem_read by lia; lia).
  rewrite restore_mem, write_byte. apply lookup_lt_Some in Hb as Hlt.
  rewrite (proj2 (Z.leb_le _ _)), (proj2 (Z.ltb_lt _ _)) by lia. cbn [andb].
  replace (Z.to_nat (address + 8 - address)) with 8%nat by lia. by rewrite Hb.
Qed.

Lemma wide_store_survives_rollback_witness :
  let bs := [1; 2; 3; 4; 5; 6; 7; 8; 9] in
  match spec_trace_mem_access HookFacts.Demo.no_insn HookFacts.Demo.demo_settings true 100 9 9
          HookFacts.Demo.speculating with
  | Ok m2 => match rollback (set_uc (mem_write (m_uc m2) 100 bs) m2) with
             | Ok (m4, _) => mem_byte (m_uc m4) (100 + 8) = 9
             | Raise _ => False
             end
  | Raise _ => False
  end.
Proof.
  intros bs. destruct (spec_trace_mem_access _ _ true 100 9 9 HookFacts.Demo.speculating) as [m2|] eqn:E;
    [|vm_compute in E; discriminate E].
  destruct (rollback (set_uc (mem_write (m_uc m2) 100 bs) m2)) as [[m4 nx]|] eqn:Er.
  - apply (wide_store_survives_rollback HookFacts.Demo.no_insn HookFacts.Demo.demo_settings
             HookFacts.Demo.start HookFacts.Demo.speculating m2
             (set_uc (mem_write (m_uc m2) 100 bs) m2) m4 6 nx 100 9 bs 9);
      [reflexivity|exact E|reflexivity|reflexivity|exact Er].
  - vm_compute in E. injection E as <-. vm_compute in Er. discriminate Er.
Defined.
