(* ===== verification/Util.v ===== *)
(** * Insertion-ordered dictionaries and [CachingDict]

    Python dictionaries keep their insertion order, and several components
    iterate over one: an association list models them.  [CachingDict] is the
    class of [src/src/util.py]. *)

From S2P Require Import Prelude.

Section dict.
Context {K V : Type} `{EqDecision K}.

(** [d.get(k)] *)
Fixpoint dict_get (k : K) (d : list (K * V)) : option V :=
  match d with
  | [] => None
  | (k', v) :: d => if decide (k' = k) then Some v else dict_get k d
  end.

(** [d[k] = f(d[k])], with [dflt] for a missing key ([defaultdict]). *)
Fixpoint dict_alter (dflt : V) (f : V → V) (k : K) (d : list (K * V)) : list (K * V) :=
  match d with
  | [] => [(k, f dflt)]
  | (k', v) :: d =>
      if decide (k' = k) then (k', f v) :: d else (k', v) :: dict_alter dflt f k d
  end.

(** [d[k] = v] *)
Definition dict_set (k : K) (v : V) : list (K * V) → list (K * V) := dict_alter v (λ _, v) k.

Lemma dict_alter_keys dflt f k d :
  (dict_alter dflt f k d).*1 = if decide (k ∈ d.*1) then d.*1 else d.*1 ++ [k].
Proof.
  induction d as [|[k' v] d IH]; cbn; [done|].
  destruct (decide (k' = k)) as [->|Hk]; cbn.
  - by rewrite decide_True by left.
  - rewrite IH. destruct (decide (k ∈ d.*1)).
    + by rewrite decide_True by (by right).
    + rewrite decide_False; [done|]. by intros [->|?]%elem_of_cons.
Qed.

Lemma dict_alter_NoDup dflt f k d : NoDup d.*1 → NoDup (dict_alter dflt f k d).*1.
Proof.
  intros Hd. rewrite dict_alter_keys. destruct (decide (k ∈ d.*1)) as [|Hk]; [done|].
  apply NoDup_app. split; [done|]. split; [|apply NoDup_singleton].
  intros x Hx Hx'%list_elem_of_singleton. by subst.
Qed.

Lemma dict_get_alter dflt f k k' d :
  dict_get k' (dict_alter dflt f k d) =
  if decide (k = k') then Some (f (default dflt (dict_get k d))) else dict_get k' d.
Proof.
  induction d as [|[k0 v] d IH]; cbn; [done|].
  destruct (decide (k0 = k)) as [->|Hk]; cbn.
  - by destruct (decide (k = k')).
  - rewrite IH. destruct (decide (k0 = k')) as [->|]; [by rewrite decide_False|done].
Qed.

Lemma dict_get_in k v d : dict_get k d = Some v → (k, v) ∈ d.
Proof.
  induction d as [|[k' v'] d IH]; cbn; [done|]. destruct (decide (k' = k)) as [->|]; [|by right; apply IH].
  intros [= ->]. by left.
Qed.
Lemma dict_get_app k d e :
  dict_get k (d ++ e) = match dict_get k d with Some v => Some v | None => dict_get k e end.
Proof. induction d as [|[k' v] d IH]; cbn; [done|]. by destruct (decide (k' = k)). Qed.

Lemma dict_get_none k d : dict_get k d = None ↔ k ∉ d.*1.
Proof.
  induction d as [|[k' v] d IH]; cbn; [split; [intros _ H; by apply elem_of_nil in H|done]|].
  rewrite not_elem_of_cons. destruct (decide (k' = k)) as [->|Hne]; [naive_solver|]. rewrite IH. naive_solver.
Qed.

Lemma dict_set_key k v d : k ∈ (dict_set k v d).*1.
Proof. unfold dict_set. rewrite dict_alter_keys. destruct (decide (k ∈ d.*1)); [done|]. set_solver. Qed.

Lemma dict_alter_new dflt f k d : dict_get k d = None → dict_alter dflt f k d = d ++ [(k, f dflt)].
Proof.
  induction d as [|[k' v'] d IH]; cbn; [done|]. destruct (decide (k' = k)); [done|]. intros H. by rewrite IH.
Qed.

Lemma dict_get_elem k v d : NoDup d.*1 → (k, v) ∈ d ↔ dict_get k d = Some v.
Proof.
  induction d as [|[k' v'] d IH]; cbn; intros Hd.
  { split; [by intros ?%elem_of_nil|done]. }
  apply NoDup_cons in Hd as [Hk' Hd]. rewrite elem_of_cons.
  destruct (decide (k' = k)) as [->|Hk].
  - split; [intros [[= ->]|Hin]; [done|]|by intros [= ->]; left].
    destruct Hk'. apply (list_elem_of_fmap_2 fst) in Hin. done.
  - rewrite <- IH by done. split; [|by right].
    intros [[= -> ->]|]; done.
Qed.
End dict.

(** ** Grouping: [groups[key(x)].append(x)] over a list *)

Section group.
Context {A K : Type} `{EqDecision K} (key : A → K).

Definition group_add (x : A) (d : list (K * list A)) : list (K * list A) :=
  dict_alter [] (λ l, l ++ [x]) (key x) d.
Definition group_by (l : list A) : list (K * list A) := fold_left (λ d x, group_add x d) l [].

Definition with_key (k : K) (l : list A) : list A := filter (λ x, key x = k) l.

Lemma group_by_snoc l x : group_by (l ++ [x]) = group_add x (group_by l).
Proof. unfold group_by. by rewrite fold_left_app. Qed.

Lemma group_by_NoDup l : NoDup (group_by l).*1.
Proof.
  induction l as [|x l IH] using rev_ind; [constructor|].
  rewrite group_by_snoc. by apply dict_alter_NoDup.
Qed.

Lemma group_by_get l k :
  dict_get k (group_by l) = match with_key k l with [] => None | g => Some g end.
Proof.
  induction l as [|x l IH] using rev_ind; [done|].
  rewrite group_by_snoc. unfold group_add. rewrite dict_get_alter.
  unfold with_key in *. rewrite filter_app. destruct (decide (key x = k)) as [<-|Hk].
  - rewrite (filter_cons_True (λ y, key y = key x)), filter_nil by done.
    rewrite IH. by destruct (filter _ l).
  - rewrite (filter_cons_False (λ y, key y = k)), filter_nil, app_nil_r by done. done.
Qed.

(** The groups are exactly the non-empty sets of elements with a common key. *)
Lemma elem_of_group_by l k g : (k, g) ∈ group_by l ↔ g = with_key k l ∧ g ≠ [].
Proof.
  rewrite dict_get_elem by apply group_by_NoDup. rewrite group_by_get.
  destruct (with_key k l) eqn:E; naive_solver.
Qed.

Lemma elem_of_group_keys l k : k ∈ (group_by l).*1 ↔ ∃ x, x ∈ l ∧ key x = k.
Proof.
  split.
  - intros ([k' g] & -> & Hg)%list_elem_of_fmap. cbn.
    apply elem_of_group_by in Hg as [-> Hg].
    destruct (with_key k' l) as [|x g] eqn:E; [done|].
    assert (x ∈ with_key k' l) as Hx by (rewrite E; left).
    apply list_elem_of_filter in Hx as [? ?]. by exists x.
  - intros (x & Hx & <-).
    apply (list_elem_of_fmap_2' fst _ (key x, with_key (key x) l)); [|done].
    apply elem_of_group_by. split; [done|]. intros E.
    assert (x ∈ with_key (key x) l) as Hin by (by apply list_elem_of_filter).
    rewrite E in Hin. by apply elem_of_nil in Hin.
Qed.
End group.

(** ** CachingDict *)

Module CachingDict.
Section caching.
Context {P K V : Type} `{EqDecision K}.
Context (value_factory : P → result (option V)) (key_transform : P → K).

(** [__getitem__]: the value and the dictionary; a stored [None] is as good as nothing. *)
Definition getitem (prekey : P) (d : list (K * option V))
    : result (option V * list (K * option V)) :=
  let key := key_transform prekey in
  match mjoin (dict_get key d) with
  | Some v => Ok (Some v, d)
  | None => v ← value_factory prekey; Ok (v, dict_set key v d)
  end.

(** A sequence of lookups in one dictionary. *)
Fixpoint getitems (prekeys : list P) (d : list (K * option V))
    : result (list (option V) * list (K * option V)) :=
  match prekeys with
  | [] => Ok ([], d)
  | p :: ps => '(v, d) ← getitem p d; '(vs, d) ← getitems ps d; Ok (v :: vs, d)
  end.

(** Every stored value is the factory's for all the prekeys of its key. *)
Definition coherent (d : list (K * option V)) : Prop :=
  ∀ p v, mjoin (dict_get (key_transform p) d) = Some v → value_factory p = Ok (Some v).

Lemma getitem_transparent p d :
  (∀ q, key_transform q = key_transform p → value_factory q = value_factory p) →
  coherent d →
  match value_factory p with
  | Ok v => ∃ d', getitem p d = Ok (v, d') ∧ coherent d'
  | Raise e => getitem p d = Raise e
  end.
Proof.
  intros Hkey Hd. unfold getitem.
  destruct (mjoin (dict_get (key_transform p) d)) as [v|] eqn:E.
  { rewrite (Hd p v E). by exists d. }
  destruct (value_factory p) as [v|e] eqn:Hp; cbn; [|done].
  eexists; split; [done|]. intros q w. unfold dict_set. rewrite dict_get_alter.
  destruct (decide _) as [Hq|_]; [|apply Hd]. cbn. intros ->. by rewrite Hkey.
Qed.

(** reading a sequence of values through the cache gives what computing
    each of them gives, exceptions included, whenever the factory's answer
    depends on the transformed key alone. *)
Theorem caching_is_transparent (ps : list P) :
  (∀ p q, key_transform q = key_transform p → value_factory q = value_factory p) →
  fst <$> getitems ps [] = mapM value_factory ps.
Proof.
  intros Hkey. assert (coherent []) as Hd by done. revert Hd. generalize (@nil (K * option V)).
  induction ps as [|p ps IH]; intros d Hd; [done|]. cbn [getitems mapM].
  pose proof (getitem_transparent p d (Hkey p) Hd) as Hp.
  destruct (value_factory p) as [v|e]; cbn; [|by rewrite Hp].
  destruct Hp as (d' & -> & Hd'). cbn. rewrite <- (IH d' Hd').
  by destruct (getitems ps d') as [[vs d'']|e].
Qed.
End caching.

(** The cache of [get_unprot_operands] in miniature: the key is the first half of the value. *)
Lemma caching_is_transparent_witness :
  let factory := λ p : nat * nat, if (p.1 =? 9)%nat then Raise ValueError else Ok (Some (p.1 * p.1)%nat) in
  fst <$> getitems factory fst [(2, 0); (3, 1); (2, 5)]%nat []
  = mapM factory [(2, 0); (3, 1); (2, 5)]%nat.
Proof.
  intros factory. apply (caching_is_transparent factory fst).
  intros [p a] [q b] H. cbn in H. subst. reflexivity.
Defined.
End CachingDict.
