(* ===== verification/Text.v ===== *)
(** * Python text operations

    The string methods the code parses files and messages with: searching,
    splitting, stripping, replacing and [int]. Text is ASCII. *)

From S2P Require Import Prelude.

Open Scope Z_scope.

Definition newline : string := String "010" EmptyString.

(** ** Searching and slicing *)

(** [s.find(sub)], [None] where Python returns -1. *)
Fixpoint str_find (sub s : string) : option nat :=
  if String.prefix sub s then Some O
  else match s with EmptyString => None | String _ s => S <$> str_find sub s end.

(** [s.index(sub)] *)
Definition str_index (sub s : string) : result nat := from_option ValueError (str_find sub s).

Definition str_take (n : nat) (s : string) : string := String.substring 0 n s.
Fixpoint str_drop (n : nat) (s : string) : string :=
  match n, s with
  | O, _ => s
  | S _, EmptyString => EmptyString
  | S n, String _ s => str_drop n s
  end.

(** [s.endswith(p)] and [s[:-n]]. *)
Definition endswith (p s : string) : bool :=
  (String.length p <=? String.length s)%nat && (str_drop (String.length s - String.length p) s =? p)%string.
Definition drop_last (n : nat) (s : string) : string := str_take (String.length s - n) s.

(** ** Splitting and replacing; the separator is not empty. *)

Fixpoint split_fuel (fuel : nat) (sep s : string) : list string :=
  match fuel with
  | O => [s]
  | S fuel =>
      match str_find sep s with
      | None => [s]
      | Some i => str_take i s :: split_fuel fuel sep (str_drop (i + String.length sep) s)
      end
  end.
(** [s.split(sep)]; a separator takes at least one character. *)
Definition split (sep s : string) : list string := split_fuel (String.length s) sep s.

(** [s.replace(old, new)] *)
Definition replace (old new s : string) : string := str_join new (split old s).

(** ** Pieces of regular expressions *)

(** The longest run of characters of a class, and the rest. *)
Fixpoint span (p : ascii → bool) (s : string) : string * string :=
  match s with
  | String c s' => if p c then let '(a, b) := span p s' in (String c a, b) else ("", s)
  | EmptyString => ("", "")
  end.
(** A run of at least one character, a literal; each answers what follows it. *)
Definition match_run (p : ascii → bool) (s : string) : option (string * string) :=
  let '(run, rest) := span p s in if (run =? "")%string then None else Some (run, rest).
Definition match_lit (p s : string) : option string :=
  if String.prefix p s then Some (str_drop (String.length p) s) else None.
(** [re.search]: the first position that matches. *)
Fixpoint search {A} (m : string → option A) (s : string) : option A :=
  match m s, s with
  | Some a, _ => Some a
  | None, String _ s => search m s
  | None, EmptyString => None
  end.

(** ** White space *)

Definition is_space (c : ascii) : bool :=
  let n := N_of_ascii c in ((9 <=? n) && (n <=? 13) || (28 <=? n) && (n <=? 32))%N.

Fixpoint lstrip (s : string) : string :=
  match s with
  | String c s' => if is_space c then lstrip s' else s
  | EmptyString => EmptyString
  end.
Fixpoint rstrip (s : string) : string :=
  match s with
  | String c s =>
      match rstrip s with
      | EmptyString => if is_space c then EmptyString else String c EmptyString
      | s' => String c s'
      end
  | EmptyString => EmptyString
  end.
Definition strip (s : string) : string := rstrip (lstrip s).

(** [s.split()]: the words between runs of white space. *)
Fixpoint words_from (word : string) (s : string) : list string :=
  let flush := match word with EmptyString => [] | _ => [word] end in
  match s with
  | EmptyString => flush
  | String c s =>
      if is_space c then flush ++ words_from EmptyString s
      else words_from (word +:+ String c EmptyString) s
  end.
Definition words : string → list string := words_from EmptyString.

(** ** Numbers *)

(** [s.isdigit()] *)
Fixpoint all_digits (s : string) : bool :=
  match s with
  | EmptyString => true
  | String c s => bool_decide (is_Some (digit_value c)) && all_digits s
  end.
Definition isdigit (s : string) : bool := negb (s =? "")%string && all_digits s.

(** The digits [int] accepts: single underscores may stand between them. *)
Fixpoint int_digits (acc : Z) (start : bool) (s : string) : option Z :=
  match s with
  | EmptyString => if start then None else Some acc
  | String c s =>
      match digit_value c with
      | Some d => int_digits (10 * acc + d) false s
      | None => if Ascii.eqb c "_" && negb start then int_digits acc true s else None
      end
  end.

(** [int(s)] *)
Definition py_int (s : string) : result Z :=
  from_option ValueError
    (match strip s with
     | String "+" s => int_digits 0 true s
     | String "-" s => Z.opp <$> int_digits 0 true s
     | s => int_digits 0 true s
     end).

(** ** Lemmas *)

Lemma digit_value_pretty (d : N) :
  (d < 10)%N → digit_value (pretty_N_char d) = Some (Z.of_N d)
             ∧ is_space (pretty_N_char d) = false ∧ pretty_N_char d ≠ "+"%char ∧ pretty_N_char d ≠ "-"%char.
Proof.
  intros Hd.
  assert (d = 0 ∨ d = 1 ∨ d = 2 ∨ d = 3 ∨ d = 4 ∨ d = 5 ∨ d = 6 ∨ d = 7 ∨ d = 8 ∨ d = 9)%N as H by lia.
  repeat (destruct H as [->|H]; [by vm_compute|]). by subst.
Qed.

(** The digits of a positive number, read back. *)
Lemma int_digits_pretty (x : N) s start :
  (0 < x)%N → int_digits 0 start (pretty_N_go x s) = int_digits (Z.of_N x) false s.
Proof.
  revert s start. induction (N.lt_wf_0 x) as [x _ IH]. intros s start Hx.
  rewrite pretty_N_go_step by done.
  destruct (digit_value_pretty (x `mod` 10)) as [Hd _]; [by apply N.mod_lt|].
  destruct (decide (x `div` 10 = 0)%N) as [E|E].
  - rewrite E, pretty_N_go_0. cbn [int_digits]. rewrite Hd. f_equal.
    pose proof (N.div_mod x 10 ltac:(done)). lia.
  - rewrite IH; [|apply N.div_lt; lia|by apply N.neq_0_lt_0]. cbn [int_digits]. rewrite Hd. f_equal.
    pose proof (N.div_mod x 10 ltac:(done)). lia.
Qed.

Fixpoint str_forall (p : ascii → bool) (s : string) : bool :=
  match s with EmptyString => true | String c s => p c && str_forall p s end.

Lemma str_forall_app p s t : str_forall p (s +:+ t) = str_forall p s && str_forall p t.
Proof. induction s as [|c s IH]; cbn; [done|]. by rewrite <- andb_assoc, <- IH. Qed.

Lemma str_forall_pretty p (x : N) s :
  (∀ d, (d < 10)%N → p (pretty_N_char d) = true) → str_forall p s = true →
  str_forall p (pretty_N_go x s) = true.
Proof.
  intros Hp. revert s. induction (N.lt_wf_0 x) as [x _ IH]. intros s Hs.
  destruct (decide (x = 0)%N) as [->|E]; [by rewrite pretty_N_go_0|].
  rewrite pretty_N_go_step by lia. apply IH; [apply N.div_lt; lia|]. cbn.
  rewrite Hp, Hs; [done|]. by apply N.mod_lt.
Qed.

Lemma lstrip_id s : str_forall (λ c, negb (is_space c)) s = true → lstrip s = s.
Proof. destruct s as [|c s]; cbn; [done|]. by destruct (is_space c). Qed.
Lemma rstrip_id s : str_forall (λ c, negb (is_space c)) s = true → rstrip s = s.
Proof.
  induction s as [|c s IH]; cbn; [done|]. intros [Hc Hs]%andb_true_iff. rewrite IH by done.
  destruct s; [|done]. by destruct (is_space c).
Qed.
Lemma strip_id s : str_forall (λ c, negb (is_space c)) s = true → strip s = s.
Proof. intros H. unfold strip. by rewrite lstrip_id, rstrip_id. Qed.

Lemma pretty_N_0 : pretty 0%N = "0". Proof. reflexivity. Qed.
Lemma pretty_N_pos (x : N) : (0 < x)%N → pretty x = pretty_N_go x "".
Proof. intros. unfold pretty, pretty_N. rewrite decide_False by lia. done. Qed.

Lemma pretty_N_forall p (x : N) :
  (∀ d, (d < 10)%N → p (pretty_N_char d) = true) → str_forall p (pretty x) = true.
Proof.
  intros Hp. destruct (decide (x = 0)%N) as [->|].
  - specialize (Hp 0%N ltac:(lia)). change (pretty_N_char 0) with "0"%char in Hp.
    rewrite pretty_N_0. cbn. by rewrite Hp.
  - rewrite pretty_N_pos by lia. by apply str_forall_pretty.
Qed.

Lemma int_digits_pretty_N (x : N) : int_digits 0 true (pretty x) = Some (Z.of_N x).
Proof.
  destruct (decide (x = 0)%N) as [->|]; [done|].
  rewrite pretty_N_pos, int_digits_pretty by lia. done.
Qed.

(** [int(str(n)) == n] *)
Lemma py_int_str n : py_int (str n) = Ok n.
Proof.
  assert (Hsp : ∀ x : N, str_forall (λ c, negb (is_space c)) (pretty x) = true).
  { intros x. apply pretty_N_forall. intros d Hd. by destruct (digit_value_pretty d Hd) as (_ & -> & _). }
  unfold py_int, str. destruct n as [|p|p]; [done| |].
  - change (pretty (Z.pos p)) with (pretty (N.pos p)). rewrite strip_id by done.
    pose proof (int_digits_pretty_N (N.pos p)) as Hi.
    rewrite pretty_N_pos in * by lia.
    assert (Hs : str_forall (λ c, negb (Ascii.eqb c "+" || Ascii.eqb c "-")) (pretty_N_go (N.pos p) "") = true).
    { apply str_forall_pretty; [|done]. intros d Hd.
      destruct (digit_value_pretty d Hd) as (_ & _ & H1 & H2).
      apply negb_true_iff, orb_false_iff. by rewrite !Ascii.eqb_neq. }
    destruct (pretty_N_go _ "") as [|c s]; [done|]. cbn [str_forall] in Hs.
    apply andb_true_iff in Hs as [Hc _]. 
    destruct (Ascii.eqb_spec c "+") as [->|Hp]; [done|].
    destruct (Ascii.eqb_spec c "-") as [->|Hm]; [done|].
    transitivity (from_option ValueError (int_digits 0 true (String c s))); [|by rewrite Hi].
    destruct c as [[] [] [] [] [] [] [] []]; try done.
  - change (pretty (Z.neg p)) with (String "-" (pretty (N.pos p))).
    rewrite strip_id by (cbn; apply Hsp). by rewrite int_digits_pretty_N.
Qed.

(** ** Concatenations *)

Lemma str_app_cons c s t : String c s +:+ t = String c (s +:+ t).
Proof. reflexivity. Qed.
Lemma str_app_nil_l t : "" +:+ t = t.
Proof. reflexivity. Qed.

Ltac str_cbn := rewrite ?str_app_cons, ?str_app_nil_l; cbn.

Lemma str_length_app s t : String.length (s +:+ t) = (String.length s + String.length t)%nat.
Proof. induction s as [|c s IH]; str_cbn; [done|]. by rewrite IH. Qed.

Lemma str_app_nil s : s +:+ "" = s.
Proof. induction s as [|c s IH]; str_cbn; [done|]. by rewrite IH. Qed.

Lemma str_app_assoc s t u : (s +:+ t) +:+ u = s +:+ (t +:+ u).
Proof. induction s as [|c s IH]; str_cbn; [done|]. by rewrite IH. Qed.

Lemma str_app_inj_l s t u : s +:+ t = s +:+ u → t = u.
Proof. induction s as [|c s IH]; str_cbn; [done|]. intros [= H]. by apply IH. Qed.

Lemma str_drop_app s t : str_drop (String.length s) (s +:+ t) = t.
Proof. induction s as [|c s IH]; str_cbn; [done|]. exact IH. Qed.

Lemma str_take_0 s : str_take 0 s = "".
Proof. by destruct s. Qed.

Lemma str_take_app s t : str_take (String.length s) (s +:+ t) = s.
Proof. induction s as [|c s IH]; [apply str_take_0|]. unfold str_take in *. str_cbn. by rewrite IH. Qed.

Lemma str_take_drop n s : str_take n s +:+ str_drop n s = s.
Proof.
  revert n. induction s as [|c s IH]; intros [|n]; try done. unfold str_take in *.
  cbn [String.substring str_drop]. by rewrite str_app_cons, IH.
Qed.

Lemma drop_last_app s t : drop_last (String.length t) (s +:+ t) = s.
Proof.
  unfold drop_last. rewrite str_length_app, Nat.add_sub. apply str_take_app.
Qed.

Lemma endswith_spec p s : endswith p s = true ↔ ∃ t, s = t +:+ p.
Proof.
  unfold endswith. rewrite andb_true_iff, Nat.leb_le, String.eqb_eq. split.
  - intros [Hl Hd]. exists (str_take (String.length s - String.length p) s).
    rewrite <- Hd at 2. by rewrite str_take_drop.
  - intros [t ->]. rewrite str_length_app, Nat.add_sub. split; [lia|]. apply str_drop_app.
Qed.

(** Two texts with the same end characters have the same beginnings. *)
Lemma str_app_snoc_inj s t c d :
  s +:+ String c "" = t +:+ String d "" → s = t ∧ c = d.
Proof.
  revert t. induction s as [|a s IH]; intros [|b t]; str_cbn.
  - by intros [= ->].
  - intros [= _ H]. by destruct t.
  - intros [= _ H]. by destruct s.
  - intros [= -> [-> ->]%IH]. done.
Qed.

Lemma lower_app s t : lower (s +:+ t) = lower s +:+ lower t.
Proof. induction s as [|c s IH]; str_cbn; [done|]. by rewrite IH. Qed.

Lemma lower_length s : String.length (lower s) = String.length s.
Proof. induction s as [|c s IH]; str_cbn; [done|]. by rewrite IH. Qed.

Definition is_digit (c : ascii) : bool := bool_decide (is_Some (digit_value c)).

Lemma all_digits_forall s : all_digits s = str_forall is_digit s.
Proof. induction s as [|c s IH]; str_cbn; [done|]. by rewrite IH. Qed.

Lemma lower_digit c : is_digit c = true → ascii_lower c = c.
Proof.
  intros [d Hd]%bool_decide_eq_true. unfold digit_value in Hd. unfold ascii_lower. cbv zeta in *.
  destruct ((48 <=? Z.of_N (N_of_ascii c)) && (Z.of_N (N_of_ascii c) <=? 57)) eqn:E; [|done].
  destruct ((65 <=? N_of_ascii c)%N && (N_of_ascii c <=? 90)%N) eqn:E'; [|done]. apply andb_true_iff in E, E'. destruct E, E'. rewrite ?Z.leb_le, ?N.leb_le in *. lia.
Qed.

Lemma lower_digits s : str_forall is_digit s = true → lower s = s.
Proof.
  induction s as [|c s IH]; [done|]. intros [Hc Hs]%andb_true_iff.
  change (lower (String c s)) with (String (ascii_lower c) (lower s)).
  by rewrite lower_digit, IH.
Qed.

Lemma str_digits n : 0 ≤ n → str_forall is_digit (str n) = true.
Proof.
  intros Hn. unfold str. assert (∃ x, n = Z.of_N x) as [x ->] by (exists (Z.to_N n); lia).
  replace (pretty (Z.of_N x)) with (pretty x) by (by destruct x).
  apply pretty_N_forall. intros d Hd. destruct (digit_value_pretty d Hd) as [H _].
  unfold is_digit. by rewrite H.
Qed.

Lemma str_nonempty n : str n ≠ "".
Proof. intros H. pose proof (py_int_str n) as E. by rewrite H in E. Qed.

(** ** Splitting what was joined *)

Definition without (c : ascii) (s : string) : bool := str_forall (λ a, negb (Ascii.eqb a c)) s.

Lemma prefix_char c a s : String.prefix (String c "") (String a s) = Ascii.eqb a c.
Proof.
  cbn. destruct (ascii_dec c a) as [->|Hne].
  - rewrite Ascii.eqb_refl. by destruct s.
  - symmetry. apply Ascii.eqb_neq. congruence.
Qed.

Lemma str_find_char c k s :
  without c k = true → str_find (String c "") (k +:+ String c s) = Some (String.length k).
Proof.
  induction k as [|a k IH]; intros Hk.
  - rewrite str_app_nil_l. cbn [str_find]. by rewrite prefix_char, Ascii.eqb_refl.
  - rewrite str_app_cons. cbn [str_find]. rewrite prefix_char.
    apply andb_true_iff in Hk as [Ha Hk]. apply negb_true_iff in Ha. rewrite Ha, IH by done. done.
Qed.

Lemma str_find_none c k : without c k = true → str_find (String c "") k = None.
Proof.
  induction k as [|a k IH]; intros Hk; [done|]. cbn [str_find]. rewrite prefix_char.
  apply andb_true_iff in Hk as [Ha Hk]. apply negb_true_iff in Ha. by rewrite Ha, IH.
Qed.

Lemma split_fuel_join c l fuel :
  l ≠ [] → Forall (λ s, without c s = true) l → (length l ≤ S fuel)%nat →
  split_fuel fuel (String c "") (str_join (String c "") l) = l.
Proof.
  revert fuel. induction l as [|s l IH]; intros fuel Hne Hl Hf; [done|].
  inversion Hl as [|? ? Hs Hl']; subst. destruct l as [|t l].
  - cbn [str_join]. destruct fuel as [|fuel]; [done|]. cbn [split_fuel]. by rewrite str_find_none.
  - destruct fuel as [|fuel]; [cbn in Hf; lia|].
    change (str_join (String c "") (s :: t :: l)) with (s +:+ (String c "" +:+ str_join (String c "") (t :: l))).
    rewrite str_app_cons, str_app_nil_l. cbn [split_fuel]. rewrite str_find_char by done.
    rewrite str_take_app. f_equal. cbn [String.length].
    replace (str_drop (String.length s + 1) (s +:+ String c (str_join (String c "") (t :: l))))
      with (str_join (String c "") (t :: l)); [apply IH; [done|done|cbn in *; lia]|].
    replace (s +:+ String c (str_join (String c "") (t :: l)))
      with ((s +:+ String c "") +:+ str_join (String c "") (t :: l)) by (by rewrite str_app_assoc).
    replace (String.length s + 1)%nat with (String.length (s +:+ String c "")) by (by rewrite str_length_app).
    by rewrite str_drop_app.
Qed.

(** [sep.join(l).split(sep) == l] for a separator that no part contains. *)
Lemma split_join c l :
  l ≠ [] → Forall (λ s, without c s = true) l → split (String c "") (str_join (String c "") l) = l.
Proof.
  intros Hne Hl. apply split_fuel_join; [done|done|]. clear Hne Hl.
  induction l as [|s [|t l] IH]; [cbn; lia|cbn; lia|].
  change (str_join (String c "") (s :: t :: l)) with (s +:+ (String c "" +:+ str_join (String c "") (t :: l))).
  rewrite !str_length_app. cbn [String.length length] in *. lia.
Qed.

(** ** Replacing *)

Lemma str_drop_length n s : String.length (str_drop n s) = (String.length s - n)%nat.
Proof. revert n. induction s as [|c s IH]; intros [|n]; try done. apply IH. Qed.

Lemma str_find_bound sub s i : str_find sub s = Some i → (i + String.length sub ≤ String.length s)%nat.
Proof.
  revert i. induction s as [|c s IH]; intros i H; cbn [str_find] in H.
  - destruct (String.prefix sub "") eqn:E; [|done]. injection H as <-. by destruct sub.
  - destruct (String.prefix sub (String c s)) eqn:E.
    + injection H as <-. clear IH. revert E. generalize (String c s). clear c s.
      induction sub as [|a sub IH]; intros [|c s] E; cbn in *; try lia; try done.
      destruct (ascii_dec a c); [|done]. apply IH in E. lia.
    + destruct (str_find sub s) as [j|]; [|done]. injection H as <-. specialize (IH j eq_refl). cbn. lia.
Qed.

Lemma split_fuel_enough sep s fuel fuel' :
  sep ≠ "" → (String.length s ≤ fuel)%nat → (String.length s ≤ fuel')%nat →
  split_fuel fuel sep s = split_fuel fuel' sep s.
Proof.
  intros Hsep. revert s fuel'. induction fuel as [|fuel IH]; intros s [|fuel'] H H'; cbn [split_fuel].
  - done.
  - destruct s; [|cbn in H; lia]. by destruct sep.
  - destruct s; [|cbn in H'; lia]. by destruct sep.
  - destruct (str_find sep s) as [i|] eqn:E; [|done]. f_equal. apply str_find_bound in E.
    assert (String.length sep ≠ 0)%nat by (by destruct sep).
    apply IH; rewrite str_drop_length; lia.
Qed.

(** Replacing from left to right. *)
Lemma replace_step old new s :
  old ≠ "" →
  replace old new s = match str_find old s with
                      | None => s
                      | Some i => str_take i s +:+ new +:+ replace old new (str_drop (i + String.length old) s)
                      end.
Proof.
  intros Hold. unfold replace, split. destruct s as [|c s].
  - cbn. by destruct old.
  - cbn [String.length split_fuel]. destruct (str_find old (String c s)) as [i|] eqn:E; [|done].
    assert (String.length old ≠ 0)%nat by (by destruct old). apply str_find_bound in E as Hb. cbn in Hb.
    rewrite (split_fuel_enough _ _ _ (String.length (str_drop (i + String.length old) (String c s))));
      [|done|rewrite str_drop_length; cbn; lia|lia].
    assert (∀ s fuel, split_fuel fuel old s ≠ []) as Hne.
    { intros s' [|f]; [done|]. cbn. by destruct (str_find old s'). }
    specialize (Hne (str_drop (i + String.length old) (String c s))
                  (String.length (str_drop (i + String.length old) (String c s)))).
    by destruct (split_fuel _ _ _).
Qed.

Lemma replace_none old new s : old ≠ "" → str_find old s = None → replace old new s = s.
Proof. intros Hold E. by rewrite replace_step, E. Qed.

(** A text without the first character of the pattern. *)
Lemma str_find_without c p s : without c s = true → str_find (String c p) s = None.
Proof.
  induction s as [|a s IH]; [done|]. intros [Ha Hs]%andb_true_iff. cbn [str_find String.prefix].
  apply negb_true_iff, Ascii.eqb_neq in Ha. destruct (ascii_dec c a); [congruence|]. by rewrite IH.
Qed.

Lemma without_digits c s : is_digit c = false → str_forall is_digit s = true → without c s = true.
Proof.
  intros Hc. induction s as [|a s IH]; [done|]. intros [Ha Hs]%andb_true_iff. change (negb (Ascii.eqb a c) && without c s = true). rewrite (IH Hs), andb_true_r.
  apply negb_true_iff, Ascii.eqb_neq. intros ->. congruence.
Qed.

Lemma without_app c s t : without c (s +:+ t) = without c s && without c t.
Proof. apply str_forall_app. Qed.

(** A pattern does not reach over a character it does not contain. *)
Lemma prefix_over sub c s t :
  without c sub = true → sub ≠ "" → String.prefix sub (s +:+ String c t) = String.prefix sub s.
Proof.
  intros H. revert s. induction sub as [|a sub IH]; intros s Hne; [done|].
  apply andb_true_iff in H as [Ha H]. apply negb_true_iff, Ascii.eqb_neq in Ha. destruct s as [|b s].
  - rewrite str_app_nil_l. cbn. by destruct (ascii_dec a c).
  - rewrite str_app_cons. cbn. destruct (ascii_dec a b); [|done]. destruct sub as [|a' sub]; [|by apply IH].
    by destruct s.
Qed.

Lemma str_find_over sub c s t :
  without c sub = true → sub ≠ "" →
  str_find sub (s +:+ String c t) = match str_find sub s with
                                    | Some i => Some i
                                    | None => Nat.add (S (String.length s)) <$> str_find sub t
                                    end.
Proof.
  intros H Hne. induction s as [|a s IH].
  - rewrite str_app_nil_l. cbn [str_find]. pose proof (prefix_over sub c "" t H Hne) as Hp.
    rewrite str_app_nil_l in Hp. rewrite Hp. destruct (String.prefix sub "") eqn:E; [done|]. done.
  - pose proof (prefix_over sub c (String a s) t H Hne) as Hp. rewrite str_app_cons in Hp |- *.
    cbn [str_find]. rewrite Hp. destruct (String.prefix sub (String a s)); [done|]. rewrite IH.
    destruct (str_find sub s); [done|]. by destruct (str_find sub t).
Qed.

Lemma str_take_app_le n s t : (n ≤ String.length s)%nat → str_take n (s +:+ t) = str_take n s.
Proof.
  unfold str_take. revert s. induction n as [|n IH]; intros [|c s] H; cbn in H; try lia.
  - rewrite str_app_nil_l. by destruct t.
  - done.
  - rewrite str_app_cons. cbn. rewrite IH by lia. done.
Qed.
Lemma str_drop_app_le n s t : (n ≤ String.length s)%nat → str_drop n (s +:+ t) = str_drop n s +:+ t.
Proof. revert s. induction n as [|n IH]; intros [|c s] H; cbn in H; try lia; try done. rewrite str_app_cons. apply IH. lia. Qed.

Lemma replace_over old new c s t :
  without c old = true → old ≠ "" →
  replace old new (s +:+ String c t) = replace old new s +:+ String c (replace old new t).
Proof.
  intros H Hne. assert (0 < String.length old)%nat by (destruct old; cbn; [done|lia]).
  remember (String.length s) as n eqn:Hn. revert s Hn.
  induction (Nat.lt_wf_0 n) as [n _ IH]. intros s ->.
  rewrite !(replace_step old new (_ +:+ _)), (replace_step old new s), str_find_over by done.
  destruct (str_find old s) as [i|] eqn:E.
  - apply str_find_bound in E. rewrite str_take_app_le, str_drop_app_le by lia.
    rewrite (IH (String.length (str_drop (i + String.length old) s))); [|rewrite str_drop_length; lia|done].
    by rewrite !str_app_assoc.
  - rewrite (replace_step old new t) by done. destruct (str_find old t) as [i|] eqn:Et; cbn [fmap option_fmap option_map]; [|done].
    set (u := s +:+ String c "").
    assert (Hu : ∀ x, s +:+ String c x = u +:+ x) by (intros x; unfold u; by rewrite str_app_assoc).
    assert (Hl : S (String.length s) = String.length u) by (unfold u; rewrite str_length_app; cbn; lia).
    rewrite Hl, !Hu, <- Nat.add_assoc.
    assert (∀ n, str_take (String.length u + n) (u +:+ t) = u +:+ str_take n t) as ->.
    { clear. induction u as [|a u IHu]; intros n; [done|]. rewrite !str_app_cons. unfold str_take in *. cbn. by rewrite IHu. }
    assert (∀ n, str_drop (String.length u + n) (u +:+ t) = str_drop n t) as ->.
    { clear. induction u as [|a u IHu]; intros n; [done|]. rewrite str_app_cons. cbn. apply IHu. }
    by rewrite str_app_assoc.
Qed.

(** ** The digits at the end of a text *)

Lemma last_digits s t c d u v :
  is_digit c = false → is_digit d = false → str_forall is_digit u = true → str_forall is_digit v = true →
  s +:+ String c u = t +:+ String d v → s = t ∧ c = d ∧ u = v.
Proof.
  intros Hc Hd Hu Hv.
  assert (Hno : ∀ a s b w, is_digit a = false → str_forall is_digit b = true → b ≠ s +:+ String a w).
  { intros a s' b w Ha Hb ->. rewrite str_forall_app in Hb. apply andb_true_iff in Hb as [_ Hb].
    cbn in Hb. by rewrite Ha in Hb. }
  revert t. induction s as [|a s IH]; intros [|b t]; rewrite ?str_app_cons, ?str_app_nil_l.
  - by intros [= -> ->].
  - intros [= -> E]. exfalso. by eapply (Hno d t u v).
  - intros [= -> E]. symmetry in E. exfalso. by eapply (Hno c s v u).
  - intros [= -> E]. destruct (IH t E) as (-> & -> & ->). done.
Qed.

Lemma str_app_inj_r s t u : s +:+ u = t +:+ u → s = t.
Proof.
  revert s t. induction u as [|c u IH]; intros s t H; [by rewrite !str_app_nil in H|].
  replace (s +:+ String c u) with ((s +:+ String c "") +:+ u) in H by (by rewrite str_app_assoc).
  replace (t +:+ String c u) with ((t +:+ String c "") +:+ u) in H by (by rewrite str_app_assoc).
  apply IH in H. by apply str_app_snoc_inj in H as [-> _].
Qed.

#[export] Instance str_inj : Inj (=) (=) str.
Proof. intros m n H. pose proof (py_int_str m) as E. rewrite H, py_int_str in E. by injection E. Qed.

Lemma map_replace_none old new l :
  old ≠ "" → Forall (λ w, str_find old w = None) l → map (replace old new) l = l.
Proof. intros Hold H. induction H as [|w l Hw _ IH]; [done|]. cbn. by rewrite replace_none, IH. Qed.

Lemma str_drop_app_ge n s t : str_drop (String.length s + n) (s +:+ t) = str_drop n t.
Proof. induction s as [|a s IH]; [done|]. rewrite str_app_cons. cbn. apply IH. Qed.

Lemma prefix_app p s t : String.prefix (p +:+ s) (p +:+ t) = String.prefix s t.
Proof. induction p as [|a p IH]; [done|]. rewrite !str_app_cons. cbn. by destruct (ascii_dec a a). Qed.

Lemma prefix_length s t : String.prefix s t = true → (String.length s ≤ String.length t)%nat.
Proof.
  revert t. induction s as [|a s IH]; intros [|b t] H; cbn in *; try lia; try done.
  destruct (ascii_dec a b); [|done]. apply IH in H. lia.
Qed.

Lemma endswith_app_long e s t : (String.length e ≤ String.length t)%nat → endswith e (s +:+ t) = endswith e t.
Proof.
  intros H. unfold endswith. rewrite str_length_app.
  replace (String.length s + String.length t - String.length e)%nat
    with (String.length s + (String.length t - String.length e))%nat by lia.
  rewrite str_drop_app_ge. f_equal. rewrite (proj2 (Nat.leb_le _ _)), (proj2 (Nat.leb_le _ _)) by lia. done.
Qed.
