(* ===== verification/Service.v ===== *)
(** * Statistics and logging

    [src/src/service.py]: the numbers a run counts and their summary, what the logger prints
    at which level, the bitmap of a trace.  Floating point is a parameter:
    the one-decimal format of a quotient, and the counter of the progress bar.  What a
    method prints is the text it returns. *)

From S2P Require Import Prelude Text.

Open Scope Z_scope.

(** ** Binary digits *)

Fixpoint bin_pos (p : positive) (acc : string) : string :=
  match p with
  | xH => String "1" acc
  | xO p => bin_pos p (String "0" acc)
  | xI p => bin_pos p (String "1" acc)
  end.
Fixpoint zeros (n : nat) (s : string) : string := match n with O => s | S n => String "0" (zeros n s) end.
Definition zfill (w : nat) (s : string) : string := zeros (w - String.length s) s.
(** The format [064b]: the sign counts for the width. *)
Definition bin64 (n : Z) : string :=
  match n with
  | Z0 => zfill 64 "0"
  | Zpos p => zfill 64 (bin_pos p "")
  | Zneg p => String "-" (zfill 63 (bin_pos p ""))
  end.

Definition MASK_64BIT : Z := 2 ^ 64.

(** [s.replace(c, d)] for single characters *)
Fixpoint map_string (f : ascii → ascii) (s : string) : string :=
  match s with EmptyString => EmptyString | String c s => String (f c) (map_string f s) end.
Definition bit_mark (c : ascii) : ascii :=
  if Ascii.eqb c "0" then "_"%char else if Ascii.eqb c "1" then "^"%char else c.
Definition halves (n : Z) (between : string) : string :=
  bin64 (n mod MASK_64BIT) +:+ " [ns]" +:+ newline +:+ between +:+ bin64 ((n ≫ 64) mod MASK_64BIT) +:+ " [s]".
Definition pretty_bitmap (bits : Z) (merged : bool) : string :=
  map_string bit_mark (if merged then halves bits "" else bin64 bits).

(** ** [bit_count] *)

Fixpoint bit_count_loop (fuel : nat) (n count : Z) : result Z :=
  match fuel with
  | O => Raise OutOfFuel
  | S fuel => if n =? 0 then Ok count else bit_count_loop fuel (Z.land n (n - 1)) (count + 1)
  end.
Definition bit_count (fuel : nat) (n : Z) : result Z := bit_count_loop fuel (Z.abs n) 0.

(** ** Statistics *)

Record StatisticsCls := mkStat {
  st_test_cases : Z; st_num_inputs : Z; st_eff_classes : Z; st_single_entry_classes : Z;
  st_required_priming : Z; st_priming_errors : Z; st_violations : Z; st_coverage : Z;
  st_coverage_longest_uncovered : Z; st_fully_covered : Z }.
Definition new_stat : StatisticsCls := mkStat 0 0 0 0 0 0 0 0 0 0.

Section formats.
(** [a / b] with one decimal. *)
Context (ratio1 : Z → Z → string).

Definition quotient (a b : Z) : result string :=
  if b =? 0 then Raise ZeroDivisionError else Ok (ratio1 a b).
Definition quotient_if (a b : Z) : string := if b =? 0 then ratio1 0 1 else ratio1 a b.

(** [__str__]: the text is built and not returned. *)
Definition stat_str (s : StatisticsCls) : result (option string) :=
  quotient (st_num_inputs s) (st_test_cases s);; Ok None.
(** [print(STAT)]: a [__str__] that returns no string is a type error. *)
Definition print_stat (s : StatisticsCls) : result string :=
  text ← stat_str s; from_option TypeError text.

Definition get_brief (s : StatisticsCls) : result string :=
  if st_test_cases s =? 0 then Ok ""
  else
    efcl ← quotient (st_eff_classes s) (st_test_cases s);
    alcl ← quotient (st_eff_classes s + st_single_entry_classes s) (st_test_cases s);
    inputs ← quotient (st_num_inputs s) (st_test_cases s);
    Ok ("EfCl:" +:+ efcl +:+ ", " +:+ "AlCl:" +:+ alcl +:+ ", " +:+ "In:" +:+ inputs +:+ ", "
        +:+ "Cov:" +:+ str (st_coverage s) +:+ ", " +:+ "Prim:" +:+ str (st_required_priming s) +:+ ", "
        +:+ "PErr:" +:+ str (st_priming_errors s) +:+ ", " +:+ "Viol:" +:+ str (st_violations s) +:+ ", ").
End formats.

(** ** The logger *)

Section logger.
(** Floats: [iterations / 100], the sum, and whether an integer is greater. *)
Context {F : Type} (hundredth : Z → F) (fadd : F → F → F) (above : Z → F → bool) (fzero : F).
Context (ratio1 : Z → Z → string).

Record Logger := mkLogger {
  lg_one_percent_progress : F; lg_progress : F; lg_progress_percent : Z;
  lg_msg : string; lg_line_ending : string; lg_redraw_mode : bool;
  lg_info_enabled : bool; lg_stat_enabled : bool;
  lg_fuzzer_debug : bool; lg_fuzzer_trace : bool; lg_model_debug : bool; lg_coverage_debug : bool;
  lg_print_final : bool;
  (* [start_time], in microseconds; not an attribute before [fuzzer_start] sets it *)
  lg_start_time : option Z }.
Definition new_logger : Logger :=
  mkLogger fzero fzero 0 "" "" true false false true false false false false None.

Definition set_modes (info stat fd ft md cd : bool) (l : Logger) : Logger :=
  mkLogger (lg_one_percent_progress l) (lg_progress l) (lg_progress_percent l) (lg_msg l) (lg_line_ending l)
    (lg_redraw_mode l) (lg_info_enabled l || info) (lg_stat_enabled l || stat) (lg_fuzzer_debug l || fd)
    (lg_fuzzer_trace l || ft) (lg_model_debug l || md) (lg_coverage_debug l || cd) (lg_print_final l)
    (lg_start_time l).
(** [set_logging_modes]; Python runs without [-O]. *)
Definition set_logging_modes (modes : list string) : Logger → Logger :=
  set_modes (mem "info" modes) (mem "stat" modes) (mem "fuzzer_debug" modes) (mem "fuzzer_trace" modes)
    (mem "model_debug" modes) (mem "coverage_debug" modes).

(** [print] *)
Definition line (s : string) : string := s +:+ newline.
Definition redraw (l : Logger) : string := if lg_redraw_mode l then newline else "".

Definition error_text (msg : string) (l : Logger) : string := redraw l +:+ line ("ERROR: " +:+ msg).
Definition error (msg : string) (l : Logger) : result unit := Raise SystemExit.
Definition waring (src msg : string) (l : Logger) : string :=
  redraw l +:+ line ("WARNING: [" +:+ src +:+ "] " +:+ msg).
Definition info (src msg : string) (l : Logger) : string :=
  if lg_info_enabled l then redraw l +:+ line ("INFO: [" +:+ src +:+ "] " +:+ msg) else "".
Definition dbg_fuzzer (msg : string) (l : Logger) : string :=
  if lg_fuzzer_debug l then line ("DBG: [fuzzer] " +:+ msg) else "".
Definition dbg_model (src msg : string) (l : Logger) : string :=
  if lg_model_debug l then line ("DBG: [model] " +:+ src +:+ ": " +:+ msg) else "".
Definition dbg_report_coverage (round_id : Z) (msg : string) (l : Logger) : string :=
  if negb (round_id =? 0) && (round_id mod 100 =? 0) && lg_coverage_debug l
  then newline +:+ line ("DBG: [coverage] " +:+ msg) else "".

Definition set_progress (one progress : F) (percent : Z) (msg ending : string) (redraw : bool)
    (start : option Z) (l : Logger) : Logger :=
  mkLogger one progress percent msg ending redraw (lg_info_enabled l) (lg_stat_enabled l) (lg_fuzzer_debug l)
    (lg_fuzzer_trace l) (lg_model_debug l) (lg_coverage_debug l) (lg_print_final l) start.
Definition fuzzer_start (multiline_output : bool) (iterations start_time : Z) (time pid : string) (l : Logger)
    : string * Logger :=
  let l := if lg_info_enabled l
           then set_progress (hundredth iterations) fzero 0 "" (if multiline_output then newline else "")
                  (negb multiline_output) (Some start_time) l
           else l in
  (info "fuzzer" ("Starting at " +:+ time) l +:+ info "fuzzer" ("pid: " +:+ pid) l, l).

(** [total_seconds()], printed *)
Context (duration : Z → string).
Definition round_debug (round_id now : Z) (l : Logger) : result string :=
  if negb (round_id =? 0) && (round_id mod 1000 =? 0)
  then start ← from_option AttributeError (lg_start_time l);
       Ok (dbg_fuzzer ("Current duration: " +:+ duration (now - start)) l)
  else Ok "".
Definition fuzzer_start_round (round_id now : Z) (s : StatisticsCls) (l : Logger) : result (string * Logger) :=
  debug ← round_debug round_id now l;
  if lg_info_enabled l then
    let '(progress, percent) :=
      if above (st_test_cases s) (lg_progress l)
      then (fadd (lg_progress l) (lg_one_percent_progress l), lg_progress_percent l + 1)
      else (lg_progress l, lg_progress_percent l) in
    brief ← get_brief ratio1 s;
    let msg := String "013" ("Progress: " +:+ str (st_test_cases s) +:+ "|" +:+ str percent +:+ "%, ") +:+ brief in
    Ok (debug +:+ msg +:+ "> Normal execution              " +:+ newline +:+ newline +:+ lg_line_ending l,
        set_progress (lg_one_percent_progress l) progress percent msg (lg_line_ending l) (lg_redraw_mode l)
          (lg_start_time l) l)
  else Ok (debug, l).

Definition fuzzer_priming (num_violations : Z) (l : Logger) : string :=
  if lg_info_enabled l
  then lg_msg l +:+ "> Priming:" +:+ str num_violations +:+ "           " +:+ lg_line_ending l else "".
Definition fuzzer_nesting_increased (model_max_nesting : Z) (l : Logger) : string :=
  if lg_info_enabled l
  then lg_msg l +:+ "> Trying max nesting:" +:+ str model_max_nesting +:+ "         " +:+ lg_line_ending l else "".
Definition fuzzer_timeout (l : Logger) : string := info "fuzzer" (newline +:+ "Timeout expired") l.

(** A [timedelta] of microseconds: [days] and [seconds]; hours, minutes and seconds. *)
Definition td_days (delta : Z) : Z := delta / (86400 * 1000000).
Definition td_seconds (delta : Z) : Z := delta mod (86400 * 1000000) / 1000000.
Definition elapsed (delta : Z) : Z * Z * Z :=
  (td_days delta * 24 + td_seconds delta / 3600, td_seconds delta mod 3600 / 60, td_seconds delta mod 60).
Definition fuzzer_finish (violation : bool) (now : Z) (time cpu : string) (s : StatisticsCls) (l : Logger)
    : result string :=
  start ← from_option AttributeError (lg_start_time l);
  let '(hrs, mins, secs) := elapsed (now - start) in
  Ok (newline
      +:+ line ("Duration Elapsed: " +:+ str hrs +:+ "hrs-" +:+ str mins +:+ "mins-" +:+ str secs +:+ "secs")
      +:+ line ("Finished at " +:+ time) +:+ line ("CPU time: " +:+ cpu)
      +:+ line (if violation then "Violation found - Check results"
                else if negb (st_violations s =? 0) then str (st_violations s) +:+ " violations found"
                else "Fuzzer finished without finding violations")).

(** [trc_fuzzer_dump_traces]: the first ten pairs. *)
Definition dots : string := "..............................................................".
Definition trc_fuzzer_dump_traces (htraces ctraces : list Z) (l : Logger) : result string :=
  if lg_fuzzer_trace l then
    lines ← mapM (λ i, c ← from_option IndexError (ctraces !! i); h ← from_option IndexError (htraces !! i);
                       Ok (line dots +:+ line (pretty_bitmap c (2 ^ 64 <? c)) +:+ line (pretty_bitmap h false)))
              (seq 0 (length ctraces `min` 10));
    Ok (newline +:+ str_join "" lines)
  else Ok "".

(** ** The report of a violation *)

(** A measurement: the number of the input and the input; [trace] is the model's
    [trace_test_case], whose hooks print through the logger it is given. *)
Context {I : Type} (repr : Z * I → string) (trace : list I → Z → Z → Logger → result string).

Definition set_tracing (model_debug print_final : bool) (l : Logger) : Logger :=
  mkLogger (lg_one_percent_progress l) (lg_progress l) (lg_progress_percent l) (lg_msg l) (lg_line_ending l)
    (lg_redraw_mode l) (lg_info_enabled l) (lg_stat_enabled l) (lg_fuzzer_debug l) (lg_fuzzer_trace l)
    model_debug (lg_coverage_debug l) print_final (lg_start_time l).

Definition inputs_text (inputs : list (Z * I)) : string := "[" +:+ str_join ", " (map repr inputs) +:+ "]".
Definition measurements_text (htrace : Z) (inputs : list (Z * I)) : string :=
  line (if (length inputs <? 4)%nat then "   Inputs " +:+ inputs_text inputs +:+ ":"
        else "   Inputs " +:+ inputs_text (take 4 inputs) +:+ " (+ " +:+ str (Z.of_nat (length inputs) - 4) +:+ " ):")
  +:+ line ("    " +:+ pretty_bitmap htrace false).
Definition ctrace_text (ctrace : Z) : string :=
  if ctrace <=? 2 ^ 64 then line ("    " +:+ bin64 ctrace +:+ newline)
  else line ("    " +:+ halves ctrace "    " +:+ newline).

Definition trace_measurements (round : Z) (inputs : list (Z * I)) (st : string * Logger)
    : result (string * Logger) :=
  let '(text, l) := st in
  m ← from_option IndexError (head inputs);
  let tracing := set_tracing true true l in
  traced ← trace [m.2] 1 round tracing;
  Ok (text +:+ line "---------------------------------------------------------------------------"
      +:+ line ("Input #" +:+ str m.1) +:+ traced,
      set_tracing (lg_model_debug l) false tracing).

Definition fuzzer_report_violations (ctrace : Z) (htrace_map : list (Z * list (Z * I))) (round : Z) (l : Logger)
    : result (string * Logger) :=
  let text :=
    line (newline +:+ newline +:+ "================================ Violations detected ==========================" +:+ newline)
    +:+ line ("  Contract trace (hash):" +:+ newline) +:+ ctrace_text ctrace +:+ line "  Hardware traces:"
    +:+ str_join "" (map (λ '(htrace, ms), measurements_text htrace ms) htrace_map) in
  '(text, l) ← (if lg_fuzzer_debug l
                then for_each (trace_measurements round) (map snd htrace_map)
                       (text +:+ line "================================ Execution Trace ==============================", l)
                else Ok (text, l));
  Ok (text +:+ newline, l).

(** [fuzzer_report_violation], with the texts of the inputs, and [report_bug]. *)
Definition fuzzer_report_violation (input_gen_seed input_gen_entropy_bits : Z) (conf_test_case : string)
    (base_input : string) (Id : Z) (ref_input tested_input test_case : string) : string :=
  line (newline +:+ newline +:+ "================================ Violation found ==========================")
  +:+ line ("Input seed: " +:+ str input_gen_seed +:+ ",   Input_entropy: " +:+ str input_gen_entropy_bits +:+ newline)
  +:+ (if (test_case =? "")%string then "" else line ("Test case: " +:+ test_case))
  +:+ line "Base checkpoint:"
  +:+ line (" " +:+ conf_test_case +:+ "/checkpoint_" +:+ str Id +:+ "_" +:+ base_input +:+ newline)
  +:+ line "The Input that produced different Htraces :"
  +:+ line (" " +:+ ref_input +:+ "      " +:+ tested_input +:+ newline) +:+ newline.
Definition report_bug : string := line "A buggy test was found".

(** The hooks of the model: nothing unless model debugging is on. *)
Definition lower_hex (n : Z) : string := if n <? 0 then "-" +:+ str_drop 2 (hex (- n)) else str_drop 2 (hex n).
Definition dbg_model_mem_access (normalized_address val : Z) (is_store : bool) (l : Logger) : string :=
  if lg_model_debug l
  then line ("  > " +:+ (if is_store then "store:" else "load: ") +:+ " +0x" +:+ lower_hex normalized_address
             +:+ " = 0x" +:+ lower_hex val)
  else "".
Definition ljust2 (s : string) : string := if (String.length s <? 2)%nat then s +:+ " " else s.
Definition dbg_model_instruction (name : string) (normalized_address : Z) (in_speculation : bool)
    (state : string) (l : Logger) : string :=
  if lg_model_debug l
  then line ((if in_speculation then "transient 0x" else "0x") +:+ ljust2 (lower_hex normalized_address)
             +:+ ": " +:+ name) +:+ state
  else "".
Definition dbg_model_rollback (address base : Z) (l : Logger) : string :=
  if lg_model_debug l then line ("ROLLBACK to 0x" +:+ lower_hex (address - base)) else "".
End logger.
Arguments Logger : clear implicits.

(** ** [bit_count] counts bits *)

Fixpoint popcount (p : positive) : Z :=
  match p with xH => 1 | xO p => popcount p | xI p => 1 + popcount p end.
Definition ones (n : Z) : Z := match n with Z0 => 0 | Zpos p | Zneg p => popcount p end.

Lemma ones_double n : 0 ≤ n → ones (2 * n) = ones n.
Proof. by destruct n. Qed.
Lemma ones_succ_double n : 0 ≤ n → ones (2 * n + 1) = 1 + ones n.
Proof. by destruct n. Qed.
Lemma ones_nonneg n : 0 ≤ ones n.
Proof.
  assert (∀ p, 0 ≤ popcount p) as H by (induction p; cbn [popcount]; lia).
  destruct n; cbn [ones]; [lia|apply H|apply H].
Qed.

(** Clearing the lowest bit of a positive number. *)
Lemma clear_lowest p :
  0 ≤ Z.land (Zpos p) (Zpos p - 1) < Zpos p ∧ ones (Z.land (Zpos p) (Zpos p - 1)) = popcount p - 1.
Proof.
  induction p as [p _|p [IHb IHo]|]; [| |done].
  - replace (Z.land (Zpos p~1) (Zpos p~1 - 1)) with (2 * Zpos p);
      [rewrite ones_double by lia; cbn [ones popcount]; lia|].
    apply Z.bits_inj'. intros i Hi. rewrite Z.land_spec. change (Zpos p~1 - 1) with (2 * Zpos p).
    destruct (decide (i = 0)) as [->|]; [by rewrite Z.testbit_even_0, andb_false_r|].
    replace i with (Z.succ (i - 1)) by lia. change (Zpos p~1) with (2 * Zpos p + 1).
    rewrite Z.testbit_even_succ, Z.testbit_odd_succ by lia. by rewrite andb_diag.
  - assert (Z.land (Zpos p~0) (Zpos p~0 - 1) = 2 * Z.land (Zpos p) (Zpos p - 1)) as ->.
    { apply Z.bits_inj'. intros i Hi. rewrite Z.land_spec.
      destruct (decide (i = 0)) as [->|]; [by rewrite Z.testbit_even_0|].
      replace i with (Z.succ (i - 1)) by lia.
      change (Zpos p~0) with (2 * Zpos p). replace (2 * Zpos p - 1) with (2 * (Zpos p - 1) + 1) by lia.
      rewrite !Z.testbit_even_succ, Z.testbit_odd_succ, Z.land_spec by lia. done. }
    cbn [popcount]. rewrite ones_double by lia. lia.
Qed.

Lemma bit_count_loop_spec fuel n c :
  0 ≤ n → ones n < Z.of_nat fuel → bit_count_loop fuel n c = Ok (c + ones n).
Proof.
  induction fuel as [|fuel IH] in n, c |- *; intros Hn Hf; [pose proof (ones_nonneg n); lia|]. cbn.
  destruct (Z.eqb_spec n 0) as [->|Hne]; [cbn; f_equal; lia|]. destruct n as [|p|p]; [lia| |lia].
  destruct (clear_lowest p) as [Hb Ho]. cbn [ones] in Hf. rewrite IH by lia. rewrite Ho. cbn. f_equal. lia.
Qed.

(** The loop ends and answers the number of bits set in the absolute value, however large the
    number is. *)
Lemma bit_count_spec n : ∀ fuel, ones n < Z.of_nat fuel → bit_count fuel n = Ok (ones n).
Proof.
  intros fuel Hf. unfold bit_count. assert (ones (Z.abs n) = ones n) as E by (by destruct n).
  rewrite bit_count_loop_spec by lia. by rewrite E.
Qed.

(** ** The bitmap shows the number *)

(** Reading a bitmap of one word: an optional sign, then marks. *)
Fixpoint read_marks (acc : Z) (s : string) : option Z :=
  match s with
  | EmptyString => Some acc
  | String c s =>
      if Ascii.eqb c "_" then read_marks (2 * acc) s
      else if Ascii.eqb c "^" then read_marks (2 * acc + 1) s else None
  end.
Definition read_bitmap (s : string) : option Z :=
  match s with String "-" s => Z.opp <$> read_marks 0 s | _ => read_marks 0 s end.

Lemma read_marks_zeros n s : read_marks 0 (map_string bit_mark (zeros n s)) = read_marks 0 (map_string bit_mark s).
Proof. by induction n. Qed.

(** The number written by [p] after the bits of [acc]. *)
Fixpoint after (acc : Z) (p : positive) : Z :=
  match p with xH => 2 * acc + 1 | xO p => 2 * after acc p | xI p => 2 * after acc p + 1 end.
Lemma after_0 p : after 0 p = Zpos p.
Proof. induction p as [p IH|p IH|]; cbn [after]; lia. Qed.

Lemma read_marks_pos p acc s :
  read_marks acc (map_string bit_mark (bin_pos p s)) = read_marks (after acc p) (map_string bit_mark s).
Proof. induction p as [p IH|p IH|] in s |- *; cbn [bin_pos after]; [by rewrite IH|by rewrite IH|done]. Qed.

Lemma zfill_marks w p : read_marks 0 (map_string bit_mark (zfill w (bin_pos p ""))) = Some (Zpos p).
Proof. unfold zfill. by rewrite read_marks_zeros, read_marks_pos, after_0. Qed.

Lemma no_sign s : read_marks 0 s ≠ None → read_bitmap s = read_marks 0 s.
Proof.
  destruct s as [|c s]; [done|]. intros H. destruct (decide (c = "-"%char)) as [->|Hc]; [done|].
  unfold read_bitmap. by destruct c as [[] [] [] [] [] [] [] []].
Qed.

(** Different traces have different bitmaps: the bitmap read back is the trace. *)
Lemma bitmap_roundtrip bits : read_bitmap (pretty_bitmap bits false) = Some bits.
Proof.
  unfold pretty_bitmap. destruct bits as [|p|p].
  - reflexivity.
  - rewrite no_sign; unfold bin64; by rewrite zfill_marks.
  - unfold bin64. cbn [map_string]. change (bit_mark "-") with "-"%char. cbn [read_bitmap]. by rewrite zfill_marks.
Qed.

(** ** Summaries and times *)

Lemma get_brief_returns ratio1 s : ∃ text, get_brief ratio1 s = Ok text.
Proof.
  unfold get_brief, quotient. destruct (st_test_cases s =? 0); cbn; by eexists.
Qed.

(** Printing the statistics fails, before the first test case and after it. *)
Lemma print_stat_fails ratio1 s :
  print_stat ratio1 s = Raise (if st_test_cases s =? 0 then ZeroDivisionError else TypeError).
Proof. unfold print_stat, stat_str, quotient. by destruct (st_test_cases s =? 0). Qed.

(** Hours, minutes and seconds are the time elapsed, to the second. *)
Lemma elapsed_spec delta hrs mins secs :
  elapsed delta = (hrs, mins, secs) →
  hrs * 3600 + mins * 60 + secs = delta / 1000000 ∧ 0 ≤ mins < 60 ∧ 0 ≤ secs < 60.
Proof.
  unfold elapsed, td_days, td_seconds. intros [= <- <- <-].
  assert (Hd : delta / 1000000 = delta / (86400 * 1000000) * 86400 + delta mod (86400 * 1000000) / 1000000).
  { rewrite (Z.div_mod delta (86400 * 1000000)) at 1 by lia.
    replace (86400 * 1000000 * (delta / (86400 * 1000000)) + delta mod (86400 * 1000000))
      with (delta mod (86400 * 1000000) + (delta / (86400 * 1000000) * 86400) * 1000000) by lia.
    rewrite Z.div_add by lia. lia. }
  rewrite Hd. generalize (delta / (86400 * 1000000)), (delta mod (86400 * 1000000) / 1000000). intros d s.
  pose proof (Z.div_mod s 3600 ltac:(lia)). pose proof (Z.div_mod (s mod 3600) 60 ltac:(lia)).
  pose proof (Z.mod_pos_bound s 3600 ltac:(lia)). pose proof (Z.mod_pos_bound (s mod 3600) 60 ltac:(lia)).
  pose proof (Z.mod_pos_bound s 60 ltac:(lia)).
  assert (s mod 3600 mod 60 = s mod 60) by (rewrite <- Znumtheory.Zmod_div_mod; [done|lia|lia|by exists 60]).
  split; [lia|]. split; [|lia]. split; [by apply Z.div_pos; lia|by apply Z.div_lt_upper_bound; lia].
Qed.

(** ** The logger over a run *)

Section run.
Context {F : Type} (hundredth : Z → F) (fadd : F → F → F) (above : Z → F → bool) (fzero : F).
Context (ratio1 : Z → Z → string) (duration : Z → string).
Let round := fuzzer_start_round fadd above ratio1 duration.

(** The reports at the starts of a list of rounds: number, time and statistics. *)
Definition start_rounds (rounds : list (Z * Z * StatisticsCls)) (l : Logger F) : result (string * Logger F) :=
  for_each (λ '(i, now, s) '(text, l), '(t, l) ← fuzzer_start_round fadd above ratio1 duration i now s l;
                                       Ok (text +:+ t, l)) rounds ("", l).

Lemma start_round_keeps i now s l text l' :
  round i now s l = Ok (text, l') →
  lg_start_time l' = lg_start_time l ∧ lg_info_enabled l' = lg_info_enabled l ∧
  lg_progress_percent l ≤ lg_progress_percent l' ≤ lg_progress_percent l + 1.
Proof.
  intros H. unfold round, fuzzer_start_round in H. apply bind_Ok in H as (debug & _ & H).
  destruct (lg_info_enabled l) eqn:Ei; [|injection H as <- <-; rewrite Ei; repeat split; lia].
  destruct (above _ _); apply bind_Ok in H as (brief & _ & H); injection H as <- <-; cbn;
    rewrite Ei; repeat split; lia.
Qed.

Lemma start_rounds_keep rounds l text l' :
  start_rounds rounds l = Ok (text, l') →
  lg_start_time l' = lg_start_time l ∧
  lg_progress_percent l ≤ lg_progress_percent l' ≤ lg_progress_percent l + Z.of_nat (length rounds).
Proof.
  unfold start_rounds. generalize ""%string as t0. induction rounds as [|[[i now] s] rounds IH] in l |- *; intros t0 H.
  { injection H as <- <-. split; [done|]. cbn; lia. }
  cbn [for_each] in H. apply bind_Ok in H as ([t1 l1] & H1 & H).
  apply bind_Ok in H1 as ([t2 l2] & H1 & H2). injection H2 as <- <-.
  destruct (start_round_keeps _ _ _ _ _ _ H1) as (Hs & _ & Hp).
  destruct (IH _ _ H) as (Hs' & Hp'). split; [congruence|]. cbn [length]. lia.
Qed.

(** The progress bar moves by at most one percent a round: a run of fewer than a hundred test
    cases never shows more percents than it had rounds. *)
Lemma progress_bounded multiline iterations now time pid l rounds t0 l0 text l' :
  lg_info_enabled l = true →
  fuzzer_start hundredth fzero multiline iterations now time pid l = (t0, l0) →
  start_rounds rounds l0 = Ok (text, l') → lg_progress_percent l' ≤ Z.of_nat (length rounds).
Proof.
  intros Hi H Hr. unfold fuzzer_start in H. rewrite Hi in H. injection H as _ <-.
  apply start_rounds_keep in Hr as [_ Hr]. cbn in Hr. lia.
Qed.

(** The report at the end of a run needs the start time, which is kept only when the logging mode
    [info] is on. *)
Lemma finish_needs_info modes multiline iterations now time pid t0 l0 rounds text l' violation now' time' cpu s :
  fuzzer_start hundredth fzero multiline iterations now time pid (set_logging_modes modes (new_logger fzero))
    = (t0, l0) →
  start_rounds rounds l0 = Ok (text, l') →
  if mem "info" modes
  then ∃ report, fuzzer_finish violation now' time' cpu s l' = Ok report
  else fuzzer_finish violation now' time' cpu s l' = Raise AttributeError.
Proof.
  intros H Hr. apply start_rounds_keep in Hr as [Hs _]. unfold fuzzer_start in H.
  cbn [lg_info_enabled set_logging_modes set_modes new_logger] in H. rewrite orb_false_l in H.
  unfold fuzzer_finish. rewrite Hs. destruct (mem "info" modes); injection H as _ <-; cbn; [by eexists|done].
Qed.

(** [fuzzer_debug] is on from the start, whatever the modes. *)
Lemma fuzzer_debug_always_on modes : lg_fuzzer_debug (set_logging_modes modes (new_logger fzero)) = true.
Proof. reflexivity. Qed.

(** The report of a violation switches model debugging on to print the traces, and leaves it as
    it was. *)
Lemma report_restores_debugging {I} (repr : Z * I → string) trace ctrace htrace_map r (l : Logger F) text l' :
  fuzzer_report_violations repr trace ctrace htrace_map r l = Ok (text, l') →
  lg_model_debug l' = lg_model_debug l ∧
  lg_print_final l' = (lg_print_final l && (negb (lg_fuzzer_debug l) || bool_decide (htrace_map = []))).
Proof.
  intros H. unfold fuzzer_report_violations in H. cbv zeta in H. apply bind_Ok in H as ([t1 l1] & H1 & H).
  injection H as _ <-. destruct (lg_fuzzer_debug l); [|injection H1 as _ <-; by rewrite andb_true_r].
  destruct htrace_map as [|[h ms] hs]; [injection H1 as _ <-; by rewrite andb_true_r|].
  rewrite bool_decide_false by done. rewrite andb_false_r. cbn [map for_each] in H1.
  apply bind_Ok in H1 as ([t2 l2] & H2 & H1).
  assert (Hstep : ∀ inputs st st', trace_measurements trace r inputs st = Ok st' →
            lg_model_debug st'.2 = lg_model_debug st.2 ∧ lg_print_final st'.2 = false).
  { intros inputs [t0 l0] st' E. unfold trace_measurements in E. inv_ok. by simplify_eq/=. }
  apply Hstep in H2 as [Hm Hf]. cbn [snd] in Hm, Hf.
  pose (P := λ st : string * Logger F, lg_model_debug st.2 = lg_model_debug l ∧ lg_print_final st.2 = false).
  refine (for_each_inv P _ _ _ _ _ _ H1); [|done].
  intros inputs st st' _ [Hm0 _] [Hm1 Hf1]%Hstep. split; congruence.
Qed.
End run.

Lemma finish_needs_info_witness :
  ∃ t0 l0 text l', fuzzer_start (λ _, tt) tt false 1 0 "" "" (set_logging_modes ["stat"] (new_logger tt)) = (t0, l0) ∧
    start_rounds (λ _ _, tt) (λ _ _, true) (λ _ _, "") (λ _, "") [(0, 0, new_stat)] l0 = Ok (text, l') ∧
    fuzzer_finish true 5 "" "" new_stat l' = Raise AttributeError.
Proof.
  do 4 eexists. split; [reflexivity|]. split; [reflexivity|].
  refine (finish_needs_info (λ _, tt) (λ _ _, tt) (λ _ _, true) tt (λ _ _, "") (λ _, "") ["stat"] false 1 0 "" "" _ _
            [(0, 0, new_stat)] _ _ true 5 "" "" new_stat _ _); reflexivity.
Defined.

Example brief : get_brief (λ a b, str (a / b)) (mkStat 2 20 4 2 1 0 1 7 0 0)
  = Ok "EfCl:2, AlCl:3, In:10, Cov:7, Prim:1, PErr:0, Viol:1, ".
Proof. by vm_compute. Qed.
