(* ===== verification/Analyser.v ===== *)
(** * The analyser: contract traces against hardware traces

    [EquivalenceAnalyser] of [src/src/analyser.py] with the classes
    [Measurement] and [EquivalenceClass] of [src/src/interfaces.py].  Inputs
    are grouped by contract trace; a class whose hardware traces disagree is a
    violation.  The dictionaries are insertion-ordered lists ([Util]), since
    the fuzzer iterates over [htrace_map].  The coverage object the analyser
    notifies is an interface, [Coverage]; the JSON table written for the
    debugging directory is not modelled. *)

From S2P Require Import Prelude Input Util.

Open Scope Z_scope.

Record Measurement := mkMeasurement {
  me_input_id : nat;
  me_input : Input;
  me_ctrace : Z;
  me_htrace : Z
}.

Record EquivalenceClass := mkClass {
  ec_ctrace : Z;
  measurements : list Measurement;
  htrace_map : list (Z * list Measurement)
}.

(** What a coverage object promises to the other components. *)
Class Coverage (test_case execution_trace cov : Type) := {
  load_test_case : test_case → cov → result cov;
  model_hook : list execution_trace → cov → result cov;
  analyser_hook : list EquivalenceClass → cov → result cov;
  coverage_count : cov → Z
}.

(** [NoCoverage]: every hook is empty. *)
#[export] Instance NoCoverage {tc et} : Coverage tc et unit := {|
  load_test_case _ _ := Ok tt; model_hook _ _ := Ok tt; analyser_hook _ _ := Ok tt;
  coverage_count _ := 0 |}.

(** The counters of [StatisticsCls] the analyser updates. *)
Record statistics := mkStat { eff_classes : Z; single_entry_classes : Z }.

(** [EquivalenceClass.build_htrace_map]: a zero trace is ignored. *)
Definition usable (m : Measurement) : bool := negb (me_htrace m =? 0).
Definition build_htrace_map (eq : EquivalenceClass) : EquivalenceClass :=
  mkClass (ec_ctrace eq) (measurements eq)
    (group_by me_htrace (List.filter usable (measurements eq))).

(** ** [_build_equivalence_classes] *)

Definition measure (inputs : list Input) (htraces : list Z) (i : nat) (ctrace : Z)
    : result Measurement :=
  input_ ← from_option IndexError (inputs !! i);
  htrace ← from_option IndexError (htraces !! i);
  Ok (mkMeasurement i input_ ctrace htrace).

(** [eq_class_map], a [defaultdict] of classes, as the measurements of each trace. *)
Definition eq_class_map (inputs : list Input) (ctraces htraces : list Z)
    : result (list (Z * list Measurement)) :=
  for_each (λ '(i, ctrace) d, m ← measure inputs htraces i ctrace; Ok (group_add me_ctrace m d))
    (imap pair ctraces) [].

Definition ctrace_le (a b : EquivalenceClass) : Prop := ec_ctrace a ≤ ec_ctrace b.
#[export] Instance ctrace_le_dec : RelDecision ctrace_le.
Proof. intros a b. unfold ctrace_le. apply _. Defined.

Definition _build_equivalence_classes (inputs : list Input) (ctraces htraces : list Z)
    (stats : bool) (stat : statistics) : result (list EquivalenceClass * statistics) :=
  eq_class_map ← eq_class_map inputs ctraces htraces;
  let effective_classes :=
    (λ p : Z * list Measurement, mkClass p.1 p.2 []) <$>
      List.filter (λ p : Z * list Measurement, (1 <? length p.2)%nat) eq_class_map in
  let effective_classes := merge_sort ctrace_le effective_classes in
  let stat :=
    if stats then
      mkStat (eff_classes stat + Z.of_nat (length effective_classes))
        (single_entry_classes stat
         + (Z.of_nat (length eq_class_map) - Z.of_nat (length effective_classes)))
    else stat in
  Ok (build_htrace_map <$> effective_classes, stat).

(** ** [filter_violations] *)

(** [max(htraces, key=abs)]: the first of the largest. *)
Fixpoint max_abs (best : Z) (l : list Z) : Z :=
  match l with
  | [] => best
  | h :: l => max_abs (if Z.abs best <? Z.abs h then h else best) l
  end.

Definition check_if_all_subsets (htraces : list Z) : result bool :=
  match htraces with
  | [] => Raise ValueError
  | h :: rest =>
      let max_htrace := max_abs h rest in
      Ok (forallb (λ h, Z.land (Z.abs h) max_htrace =? Z.abs h) htraces)
  end.

(** One turn of the loop over the classes. *)
Definition judge (analyser_permit_subsets : bool) (eq_cls : EquivalenceClass)
    (violations : list EquivalenceClass) : result (list EquivalenceClass) :=
  if (length (htrace_map eq_cls) <? 2)%nat then Ok violations
  else if negb analyser_permit_subsets then Ok (violations ++ [eq_cls])
  else
    all_subsets ← check_if_all_subsets (htrace_map eq_cls).*1;
    Ok (if all_subsets : bool then violations else violations ++ [eq_cls]).

Definition filter_violations {tc et cov} `{Coverage tc et cov} (analyser_permit_subsets : bool)
    (inputs : list Input) (ctraces htraces : list Z) (stats : bool) (st : cov * statistics)
    : result (list EquivalenceClass * (cov * statistics)) :=
  '(equivalence_classes, stat) ← _build_equivalence_classes inputs ctraces htraces stats st.2;
  c ← analyser_hook equivalence_classes st.1;
  violations ← for_each (judge analyser_permit_subsets) equivalence_classes [];
  Ok (violations, (c, stat)).

(** [get_analyser]: the only analyser there is. *)
Definition get_analyser (analyser : string) : result string :=
  if bool_decide (analyser = "equivalence-classes") then Ok "EquivalenceAnalyser"
  else Raise SystemExit.

(** ** What a violation is *)

(** The measurements of a run, in the order of the inputs. *)
Definition measurements_of (inputs : list Input) (ctraces htraces : list Z) : list Measurement :=
  imap (λ i p, mkMeasurement i p.1 p.2.1 p.2.2) (zip inputs (zip ctraces htraces)).

(** The inputs that share the contract trace [c] disagree in hardware: two of
    them have different usable traces and, when subsets are permitted, no
    usable trace of the class contains all the others. *)
Definition disagree (permit : bool) (c : Z) (ms : list Measurement) : Prop :=
  let cls := with_key me_ctrace c ms in
  (∃ m1 m2, m1 ∈ cls ∧ m2 ∈ cls ∧ me_htrace m1 ≠ 0 ∧ me_htrace m2 ≠ 0 ∧
            me_htrace m1 ≠ me_htrace m2) ∧
  (permit = true →
   ∀ m, m ∈ cls → me_htrace m ≠ 0 →
   ∃ m', m' ∈ cls ∧ me_htrace m' ≠ 0 ∧ Z.land (me_htrace m') (me_htrace m) ≠ me_htrace m').

(** ** Facts *)

Lemma measure_ok inputs htraces i ctrace inp h :
  inputs !! i = Some inp → htraces !! i = Some h →
  measure inputs htraces i ctrace = Ok (mkMeasurement i inp ctrace h).
Proof. intros Hi Hh. unfold measure. by rewrite Hi, Hh. Qed.

Lemma for_each_groups inputs htraces l ms d :
  Forall2 (λ p m, measure inputs htraces p.1 p.2 = Ok m) l ms →
  for_each (λ '(i, ctrace) d, m ← measure inputs htraces i ctrace; Ok (group_add me_ctrace m d)) l d
  = Ok (fold_left (λ d m, group_add me_ctrace m d) ms d).
Proof.
  intros HF. revert d. induction HF as [|[i c] m l ms Hm HF IH]; intros d; cbn; [done|].
  cbn in Hm. rewrite Hm. cbn. apply IH.
Qed.

Lemma measurements_of_lookup inputs ctraces htraces i m :
  measurements_of inputs ctraces htraces !! i = Some m ↔
  inputs !! i = Some (me_input m) ∧ ctraces !! i = Some (me_ctrace m) ∧
  htraces !! i = Some (me_htrace m) ∧ me_input_id m = i.
Proof.
  unfold measurements_of. rewrite list_lookup_imap, !lookup_zip_with.
  destruct m as [i' inp c h]. cbn. split.
  - intros (p & E & Hp)%fmap_Some. 
    destruct (inputs !! i), (ctraces !! i), (htraces !! i); cbn in *; simplify_eq. done.
  - intros (-> & -> & -> & ->). done.
Qed.

Lemma eq_class_map_groups inputs ctraces htraces :
  length inputs = length ctraces → length htraces = length ctraces →
  eq_class_map inputs ctraces htraces
  = Ok (group_by me_ctrace (measurements_of inputs ctraces htraces)).
Proof.
  intros Hi Hh. unfold eq_class_map. apply for_each_groups. apply Forall2_same_length_lookup.
  split.
  { unfold measurements_of. rewrite !length_imap, !length_zip_with, Hi, Hh. lia. }
  intros i [j c] m Hp Hm. rewrite list_lookup_imap in Hp.
  destruct (ctraces !! i) as [c'|] eqn:Hc; [|done]. cbn in Hp. injection Hp as <- <-. cbn.
  apply measurements_of_lookup in Hm as (Hin & Hc' & Hht & Hid).
  rewrite (measure_ok _ _ _ _ _ _ Hin Hht). destruct m; cbn in *. congruence.
Qed.

#[export] Instance ctrace_le_total : Total ctrace_le.
Proof. intros a b. unfold ctrace_le. lia. Qed.
#[export] Instance ctrace_le_trans : Transitive ctrace_le.
Proof. intros a b c. unfold ctrace_le. lia. Qed.

Definition class_of (ms : list Measurement) (c : Z) : EquivalenceClass :=
  build_htrace_map (mkClass c (with_key me_ctrace c ms) []).

Definition ctrace_lt (a b : EquivalenceClass) : Prop := ec_ctrace a < ec_ctrace b.

(** A sorted list without duplicated keys is strictly sorted. *)
Lemma strictly_sorted l :
  StronglySorted ctrace_le l → NoDup (ec_ctrace <$> l) → StronglySorted ctrace_lt l.
Proof.
  induction 1 as [|a l Hl IH Ha]; cbn; [constructor|]. intros [Hna Hnd]%NoDup_cons.
  constructor; [auto|]. rewrite Forall_forall in Ha |- *. intros b Hb. specialize (Ha b Hb).
  unfold ctrace_le, ctrace_lt in *. destruct (decide (ec_ctrace a = ec_ctrace b)) as [E|]; [|lia].
  destruct Hna. rewrite E. by apply list_elem_of_fmap_2.
Qed.

Lemma StronglySorted_fmap_build l :
  StronglySorted ctrace_lt l → StronglySorted ctrace_lt (build_htrace_map <$> l).
Proof.
  induction 1 as [|a l Hl IH Ha]; cbn; [constructor|]. constructor; [done|].
  rewrite Forall_forall in Ha |- *. intros b (b' & -> & Hb')%list_elem_of_fmap. exact (Ha b' Hb').
Qed.

Lemma elem_of_list_filter_bool {A} (p : A → bool) x l : x ∈ List.filter p l ↔ p x = true ∧ x ∈ l.
Proof. rewrite !list_elem_of_In, List.filter_In. tauto. Qed.

Lemma NoDup_map_filter {A B} (f : A → B) (p : A → bool) l :
  NoDup (f <$> l) → NoDup (f <$> List.filter p l).
Proof.
  induction l as [|x l IH]; cbn; [done|]. intros [Hx Hl]%NoDup_cons.
  destruct (p x); [|auto]. cbn. apply NoDup_cons. split; [|auto].
  intros (y & Hy & [_ Hin]%elem_of_list_filter_bool)%list_elem_of_fmap.
  destruct Hx. rewrite Hy. by apply list_elem_of_fmap_2.
Qed.

Lemma StronglySorted_filter_bool {A} (R : relation A) (p : A → bool) l :
  StronglySorted R l → StronglySorted R (List.filter p l).
Proof.
  induction 1 as [|a l Hl IH Ha]; cbn; [constructor|]. destruct (p a); [|done].
  constructor; [done|]. rewrite Forall_forall in *. intros b [_ Hb]%elem_of_list_filter_bool. auto.
Qed.

(** The classes, whatever the flag [stats]; their number is what the statistics count. *)
Lemma equivalence_classes_spec inputs ctraces htraces stats stat :
  length inputs = length ctraces → length htraces = length ctraces →
  let ms := measurements_of inputs ctraces htraces in
  ∃ classes stat',
    _build_equivalence_classes inputs ctraces htraces stats stat = Ok (classes, stat') ∧
    StronglySorted ctrace_lt classes ∧
    (∀ ec, ec ∈ classes ↔ ∃ c, ec = class_of ms c ∧ (2 ≤ length (with_key me_ctrace c ms))%nat) ∧
    (stats = true →
     eff_classes stat' = eff_classes stat + Z.of_nat (length classes) ∧
     eff_classes stat' + single_entry_classes stat'
     = eff_classes stat + single_entry_classes stat + Z.of_nat (length (group_by me_ctrace ms))).
Proof.
  intros Hi Hh ms. unfold _build_equivalence_classes. rewrite eq_class_map_groups by done.
  cbn [mbind result_bind].
  fold ms. match goal with |- context [merge_sort _ ?l] => set (eff := l) end.
  assert (Hperm : merge_sort ctrace_le eff ≡ₚ eff) by apply merge_sort_Permutation.
  assert (Helem : ∀ ec, ec ∈ merge_sort ctrace_le eff ↔
            ∃ c, ec = mkClass c (with_key me_ctrace c ms) [] ∧ (2 ≤ length (with_key me_ctrace c ms))%nat).
  { intros ec. rewrite Hperm. unfold eff. split.
    - intros ([c g] & -> & [Hlen Hg]%elem_of_list_filter_bool)%list_elem_of_fmap. cbn [fst snd] in *.
      apply elem_of_group_by in Hg as [-> _]. apply Nat.ltb_lt in Hlen. exists c. split; [done|lia].
    - intros (c & -> & Hlen).
      apply (list_elem_of_fmap_2' _ _ (c, with_key me_ctrace c ms)); [|done].
      apply elem_of_list_filter_bool. split; [apply Nat.ltb_lt; cbn [snd]; lia|].
      apply elem_of_group_by. split; [done|]. intros E. rewrite E in Hlen. cbn in Hlen. lia. }
  eexists _, _. split; [done|]. split; [|split].
  - apply StronglySorted_fmap_build, strictly_sorted; [apply StronglySorted_merge_sort; apply _|].
    rewrite Hperm. unfold eff. rewrite <- list_fmap_compose.
    apply (NoDup_map_filter fst), group_by_NoDup.
  - intros ec. unfold class_of. split.
    + intros (ec' & -> & (c & -> & Hc)%Helem)%list_elem_of_fmap. by exists c.
    + intros (c & -> & Hc). apply list_elem_of_fmap_2, Helem. by exists c.
  - intros ->. cbn. rewrite length_fmap. lia.
Qed.

(** Grouping the inputs by contract trace is a partition: the effective
    classes are the contract traces that at least two inputs share, each with
    all its inputs in the order of the run, in strictly increasing order of
    trace; and the two statistics add up to the number of distinct traces. *)
Theorem equivalence_classes_partition inputs ctraces htraces stat :
  length inputs = length ctraces → length htraces = length ctraces →
  let ms := measurements_of inputs ctraces htraces in
  ∃ classes stat',
    _build_equivalence_classes inputs ctraces htraces true stat = Ok (classes, stat') ∧
    StronglySorted ctrace_lt classes ∧
    (∀ ec, ec ∈ classes ↔ ∃ c, ec = class_of ms c ∧ (2 ≤ length (with_key me_ctrace c ms))%nat) ∧
    eff_classes stat' = eff_classes stat + Z.of_nat (length classes) ∧
    eff_classes stat' + single_entry_classes stat'
    = eff_classes stat + single_entry_classes stat + Z.of_nat (length (group_by me_ctrace ms)).
Proof.
  intros Hi Hh ms. destruct (equivalence_classes_spec inputs ctraces htraces true stat Hi Hh)
    as (classes & stat' & ? & ? & ? & Hstat). destruct (Hstat eq_refl). by exists classes, stat'.
Qed.

Lemma two_distinct {A} (l : list A) :
  NoDup l → (2 ≤ length l)%nat ↔ ∃ x y, x ∈ l ∧ y ∈ l ∧ x ≠ y.
Proof.
  intros Hnd. split.
  - destruct l as [|x [|y l]]; cbn; [lia|lia|]. intros _. exists x, y.
    apply NoDup_cons in Hnd as [Hx _]. split; [by left|]. split; [by right; left|].
    intros ->. apply Hx. by left.
  - intros (x & y & Hx & Hy & Hxy). destruct l as [|a [|b l]]; [by apply elem_of_nil in Hx| |cbn; lia].
    apply list_elem_of_singleton in Hx, Hy. congruence.
Qed.

Lemma max_abs_spec best l :
  0 ≤ best → Forall (λ h, 0 ≤ h) l →
  max_abs best l ∈ best :: l ∧ ∀ h, h ∈ best :: l → h ≤ max_abs best l.
Proof.
  intros Hb Hl. revert best Hb. induction Hl as [|x l Hx Hl IH]; intros best Hb; cbn.
  { split; [by left|]. intros h ->%list_elem_of_singleton. lia. }
  set (b := if Z.abs best <? Z.abs x then x else best).
  assert (0 ≤ b ∧ best ≤ b ∧ x ≤ b ∧ (b = best ∨ b = x)) as (Hb' & Hle1 & Hle2 & Hor).
  { unfold b. destruct (Z.ltb_spec (Z.abs best) (Z.abs x)); lia. }
  destruct (IH b Hb') as [Hin Hmax]. split.
  - apply elem_of_cons in Hin as [E|Hin]; [|by right; right].
    rewrite E. destruct Hor as [->| ->]; [by left|by right; left].
  - intros h [->|[->|Hh]%elem_of_cons]%elem_of_cons.
    + etrans; [exact Hle1|]. apply Hmax. by left.
    + etrans; [exact Hle2|]. apply Hmax. by left.
    + apply Hmax. by right.
Qed.

Lemma land_eq_le x y : 0 ≤ y → Z.land x y = x → x ≤ y.
Proof. intros Hy E. rewrite <- E. apply land_nonneg_le, Hy. Qed.

(** On non-negative traces the test asks for one trace that contains them all. *)
Lemma check_if_all_subsets_spec hs :
  hs ≠ [] → Forall (λ h, 0 ≤ h) hs →
  ∃ b, check_if_all_subsets hs = Ok b ∧
       (b = true ↔ ∃ h, h ∈ hs ∧ ∀ h', h' ∈ hs → Z.land h' h = h').
Proof.
  destruct hs as [|h0 rest]; [done|]. intros _ Hnn. cbn [check_if_all_subsets].
  eexists; split; [done|]. pose proof (Forall_cons_1 _ _ _ Hnn) as [H0 Hr].
  destruct (max_abs_spec h0 rest H0 Hr) as [Hin Hmax].
  rewrite forallb_forall, Forall_forall in *. split.
  - intros Hall. exists (max_abs h0 rest). split; [done|]. intros h' Hh'.
    specialize (Hall h' (proj1 (list_elem_of_In _ _) Hh')). apply Z.eqb_eq in Hall.
    by rewrite Z.abs_eq in Hall by auto.
  - intros (h & Hh & Hcover) h' Hh'%list_elem_of_In. apply Z.eqb_eq.
    rewrite (Z.abs_eq h') by auto.
    assert (max_abs h0 rest = h) as ->; [|by apply Hcover].
    apply Z.le_antisymm; [apply land_eq_le; auto|by apply Hmax].
Qed.

Lemma elem_of_htraces ms c h :
  h ∈ (htrace_map (class_of ms c)).*1 ↔ ∃ m, m ∈ with_key me_ctrace c ms ∧ me_htrace m ≠ 0 ∧ me_htrace m = h.
Proof.
  unfold class_of, build_htrace_map. cbn [htrace_map measurements]. rewrite elem_of_group_keys. setoid_rewrite elem_of_list_filter_bool.
  unfold usable. setoid_rewrite negb_true_iff. setoid_rewrite Z.eqb_neq. naive_solver.
Qed.

Definition is_violation (permit : bool) (ec : EquivalenceClass) : bool :=
  (2 <=? length (htrace_map ec))%nat &&
  (negb permit || match check_if_all_subsets (htrace_map ec).*1 with Ok b => negb b | _ => true end).

Lemma judge_ok permit ec vs :
  judge permit ec vs = Ok (if is_violation permit ec then vs ++ [ec] else vs).
Proof.
  unfold judge, is_violation.
  destruct (Nat.ltb_spec (length (htrace_map ec)) 2), (Nat.leb_spec 2 (length (htrace_map ec)));
    try lia; [done|]. cbn [andb].
  destruct permit; cbn [negb orb]; [|done].
  destruct (htrace_map ec) as [|p l]; [cbn in *; lia|]. cbn [fmap list_fmap check_if_all_subsets mbind result_bind].
  by destruct (forallb _ _).
Qed.

Lemma judge_all permit l vs :
  for_each (judge permit) l vs = Ok (vs ++ List.filter (is_violation permit) l).
Proof.
  revert vs. induction l as [|ec l IH]; intros vs; cbn [for_each List.filter]; [by rewrite app_nil_r|].
  rewrite judge_ok. cbn [mbind result_bind]. rewrite IH.
  destruct (is_violation permit ec); [by rewrite <- (app_assoc vs)|done].
Qed.

Lemma and_iff_under (P Q R : Prop) : (P → (Q ↔ R)) → (P ∧ Q ↔ P ∧ R).
Proof. tauto. Qed.

Lemma is_violation_spec permit ms c :
  (permit = true → Forall (λ m, 0 ≤ me_htrace m) ms) →
  is_violation permit (class_of ms c) = true ↔ disagree permit c ms.
Proof.
  intros Hnn. unfold is_violation, disagree.
  assert (Hlen : (2 ≤ length (htrace_map (class_of ms c)))%nat ↔
            ∃ m1 m2, m1 ∈ with_key me_ctrace c ms ∧ m2 ∈ with_key me_ctrace c ms ∧
                     me_htrace m1 ≠ 0 ∧ me_htrace m2 ≠ 0 ∧ me_htrace m1 ≠ me_htrace m2).
  { rewrite <- (length_fmap fst), two_distinct by apply group_by_NoDup.
    setoid_rewrite elem_of_htraces. split.
    - intros (x & y & (m1 & ? & ? & <-) & (m2 & ? & ? & <-) & ?). by exists m1, m2.
    - intros (m1 & m2 & ? & ? & ? & ? & ?). eexists _, _. split; [by exists m1|]. by split; [exists m2|]. }
  rewrite andb_true_iff, Nat.leb_le. rewrite Hlen. apply and_iff_under. intros Hex.
  destruct permit; cbn [negb orb]; [|naive_solver]. 
  destruct (check_if_all_subsets_spec (htrace_map (class_of ms c)).*1) as (b & -> & Hb).
  { apply Hlen in Hex. rewrite <- (length_fmap fst) in Hex. by intros E; rewrite E in Hex; cbn in Hex; lia. }
  { apply Forall_forall. intros h (m & [_ Hm]%list_elem_of_filter & _ & <-)%elem_of_htraces.
    specialize (Hnn eq_refl). rewrite Forall_forall in Hnn. auto. }
  rewrite negb_true_iff. split.
  - intros -> _ m Hm Hm0.
    destruct (decide (Exists (λ m', me_htrace m' ≠ 0 ∧ Z.land (me_htrace m') (me_htrace m) ≠ me_htrace m')
                        (with_key me_ctrace c ms))) as [Hyes|Hno]; [by apply Exists_exists in Hyes|].
    exfalso. enough (false = true) by done. apply Hb. exists (me_htrace m).
    split; [apply elem_of_htraces; by exists m|].
    intros h' (m' & Hm' & Hm'0 & <-)%elem_of_htraces. apply dec_stable. intros Hne.
    apply Hno, Exists_exists. by exists m'.
  - intros Hall. destruct b; [|done]. destruct (proj1 Hb eq_refl) as (h & Hh & Hcov).
    apply elem_of_htraces in Hh as (m & Hm & Hm0 & <-).
    destruct (Hall eq_refl m Hm Hm0) as (m' & Hm' & Hm'0 & Hne). destruct Hne. apply Hcov.
    apply elem_of_htraces. by exists m'.
Qed.

Lemma filter_violations_spec {tc et cov} `{Coverage tc et cov} (permit stats : bool)
    inputs ctraces htraces (st : cov * statistics) :
  length inputs = length ctraces → length htraces = length ctraces →
  (permit = true → Forall (λ h, 0 ≤ h) htraces) →
  (∀ classes, ∃ c', analyser_hook classes st.1 = Ok c') →
  let ms := measurements_of inputs ctraces htraces in
  ∃ vs st', filter_violations permit inputs ctraces htraces stats st = Ok (vs, st') ∧
    StronglySorted ctrace_lt vs ∧
    (∀ ec, ec ∈ vs ↔ ∃ c, ec = class_of ms c ∧ disagree permit c ms).
Proof.
  intros Hi Hh Hnn Hhook ms.
  destruct (equivalence_classes_spec inputs ctraces htraces stats st.2 Hi Hh)
    as (classes & stat' & Hbuild & Hsort & Helem & _).
  fold ms in Helem. unfold filter_violations. rewrite Hbuild. cbn [mbind result_bind].
  destruct (Hhook classes) as (c' & ->).
  cbn [mbind result_bind]. rewrite judge_all. cbn [mbind result_bind app].
  eexists _, _. split; [done|]. split; [by apply StronglySorted_filter_bool|].
  assert (Hms : permit = true → Forall (λ m, 0 ≤ me_htrace m) ms).
  { intros Hp. specialize (Hnn Hp). apply Forall_forall. intros m Hm.
    apply list_elem_of_lookup in Hm as (i & (_ & _ & Hm & _)%measurements_of_lookup).
    by apply (Forall_lookup_1 _ _ _ _ Hnn Hm). }
  intros ec. rewrite elem_of_list_filter_bool, Helem. split.
  - intros (Hv & c & -> & _). exists c. split; [done|]. by apply is_violation_spec in Hv.
  - intros (c & -> & Hd). split; [by apply is_violation_spec|]. exists c. split; [done|].
    destruct Hd as [(m1 & m2 & Hm1 & Hm2 & _ & _ & Hne) _].
    destruct (with_key me_ctrace c ms) as [|a [|b l]]; [by apply elem_of_nil in Hm1| |cbn; lia].
    apply list_elem_of_singleton in Hm1, Hm2. congruence.
Qed.

(** C9: the analyser reports exactly the contract traces on which the hardware
    disagrees: a class is returned if and only if two of its inputs have
    different usable traces (and, with [analyser_permit_subsets], no trace of
    the class covers the others); it comes with all its measurements, and the
    classes come in increasing order of contract trace. *)
Theorem filter_violations_exact {tc et cov} `{Coverage tc et cov} (permit stats : bool)
    inputs ctraces htraces (st : cov * statistics) :
  length inputs = length ctraces → length htraces = length ctraces →
  (permit = true → Forall (λ h, 0 ≤ h) htraces) →
  (∀ classes, ∃ c', analyser_hook classes st.1 = Ok c') →
  let ms := measurements_of inputs ctraces htraces in
  ∃ vs st', filter_violations permit inputs ctraces htraces stats st = Ok (vs, st') ∧
    StronglySorted ctrace_lt vs ∧
    (∀ ec, ec ∈ vs ↔ ∃ c, ec = class_of ms c ∧ disagree permit c ms).
Proof. apply filter_violations_spec. Qed.

(** Four inputs, two contract traces: the class of trace 7 disagrees. *)
Lemma filter_violations_exact_witness :
  let inputs := replicate 4 (mkInput [] 0) in
  ∃ vs st', filter_violations (tc := unit) (et := unit) false inputs [7; 3; 7; 3] [1; 4; 2; 4] true
              (tt, mkStat 0 0) = Ok (vs, st') ∧
    StronglySorted ctrace_lt vs ∧
    (∀ ec, ec ∈ vs ↔ ∃ c, ec = class_of (measurements_of inputs [7; 3; 7; 3] [1; 4; 2; 4]) c ∧
                          disagree false c (measurements_of inputs [7; 3; 7; 3] [1; 4; 2; 4])).
Proof.
  intros inputs. apply (filter_violations_exact (tc := unit) (et := unit) false true inputs
    [7; 3; 7; 3] [1; 4; 2; 4] (tt, mkStat 0 0)); try done.
  intros cls. by exists tt.
Defined.

Lemma equivalence_classes_partition_witness :
  let inputs := replicate 4 (mkInput [] 0) in
  let ms := measurements_of inputs [7; 3; 7; 5] [1; 4; 2; 4] in
  ∃ classes stat',
    _build_equivalence_classes inputs [7; 3; 7; 5] [1; 4; 2; 4] true (mkStat 0 0) = Ok (classes, stat') ∧
    StronglySorted ctrace_lt classes ∧
    (∀ ec, ec ∈ classes ↔ ∃ c, ec = class_of ms c ∧ (2 ≤ length (with_key me_ctrace c ms))%nat) ∧
    eff_classes stat' = 0 + Z.of_nat (length classes) ∧
    eff_classes stat' + single_entry_classes stat' = 0 + 0 + Z.of_nat (length (group_by me_ctrace ms)).
Proof.
  intros inputs. apply (equivalence_classes_partition inputs [7; 3; 7; 5] [1; 4; 2; 4] (mkStat 0 0)); done.
Defined.
