(* ===== verification/Fuzzer.v ===== *)
(** * The fuzzing loop

    [Fuzzer] of [src/src/fuzzer.py]: boosting, the fuzzing round, priming and
    the outer loop.  The modules the fuzzer drives are interfaces: a contract
    model, a hardware executor, a coverage object and a source of test cases.
    The state of all of them, the counters and the clock are one record that
    every operation threads.  Files written for debugging are not modelled. *)

From S2P Require Import Prelude Isa Input Util Analyser.

Open Scope Z_scope.

(** What the fuzzer asks of a contract model ([Model] of [interfaces.py]): the
    contract and execution traces of a run, the taints of a run. *)
Class ContractModel (tc et mdl : Type) := {
  model_load : tc → mdl → result mdl;
  model_trace : list Input → Z → mdl → result (list Z * list et * mdl);
  model_taints : list Input → Z → mdl → result (list (list bool) * list et * mdl)
}.

(** What it asks of an executor ([Executor] of [interfaces.py]). *)
Class HardwareExecutor (tc exe : Type) := {
  exec_load : tc → exe → result exe;
  exec_trace : list Input → exe → result (list Z * exe);
  exec_start_priming : exe → exe;
  exec_stop_priming : exe → exe;
  exec_bugged : exe → bool
}.

(** The configuration the fuzzer reads. *)
Record fuzz_conf := mkFuzzConf {
  inputs_per_class : Z;
  model_max_nesting : Z;
  no_priming : bool;
  analyser_permit_subsets : bool;
  contract_execution_clause : list string;
  existing_test_case : bool;
  existing_input_case : bool;
  input_gen_entropy_bits : nat;
  input_regions : regions
}.

Section fuzzer.
Context {tc et mdl exe cov : Type}.
Context `{!ContractModel tc et mdl, !HardwareExecutor tc exe, !Coverage tc et cov}.
Context (conf : fuzz_conf).
(** What numpy finds in the memory of an allocation (call, allocation, word)
    and the seconds since the start at each reading of the clock. *)
Context (alloc : nat → nat → nat → Z) (elapsed : nat → Z).

Record fworld := mkFWorld {
  fw_model : mdl;
  fw_exec : exe;
  fw_cov : cov;
  fw_stat : statistics;
  fw_num_inputs : Z;
  fw_required_priming : Z;
  fw_calls : nat;
  fw_clock : nat
}.

Definition F (A : Type) : Type := fworld → result (A * fworld).
#[export] Instance F_ret : MRet F := λ A a w, Ok (a, w).
#[export] Instance F_bind : MBind F := λ A B f m w, '(a, w) ← m w; f a w.

Definition on_model {A} (f : mdl → result (A * mdl)) : F A := λ w,
  '(a, m) ← f (fw_model w);
  Ok (a, mkFWorld m (fw_exec w) (fw_cov w) (fw_stat w) (fw_num_inputs w)
           (fw_required_priming w) (fw_calls w) (fw_clock w)).
Definition on_exec {A} (f : exe → result (A * exe)) : F A := λ w,
  '(a, e) ← f (fw_exec w);
  Ok (a, mkFWorld (fw_model w) e (fw_cov w) (fw_stat w) (fw_num_inputs w)
           (fw_required_priming w) (fw_calls w) (fw_clock w)).
Definition on_cov {A} (f : cov * statistics → result (A * (cov * statistics))) : F A := λ w,
  '(a, st) ← f (fw_cov w, fw_stat w);
  Ok (a, mkFWorld (fw_model w) (fw_exec w) st.1 st.2 (fw_num_inputs w)
           (fw_required_priming w) (fw_calls w) (fw_clock w)).
Definition count_inputs (n : nat) : F unit := λ w,
  Ok (tt, mkFWorld (fw_model w) (fw_exec w) (fw_cov w) (fw_stat w)
            (fw_num_inputs w + Z.of_nat n) (fw_required_priming w) (fw_calls w) (fw_clock w)).
Definition count_priming : F unit := λ w,
  Ok (tt, mkFWorld (fw_model w) (fw_exec w) (fw_cov w) (fw_stat w) (fw_num_inputs w)
            (fw_required_priming w + 1) (fw_calls w) (fw_clock w)).
(** The number of the next call of the input generator. *)
Definition next_call : F nat := λ w,
  Ok (fw_calls w, mkFWorld (fw_model w) (fw_exec w) (fw_cov w) (fw_stat w) (fw_num_inputs w)
                    (fw_required_priming w) (S (fw_calls w)) (fw_clock w)).
(** [(now - self.start_time).total_seconds()] *)
Definition read_clock : F Z := λ w,
  Ok (elapsed (fw_clock w),
      mkFWorld (fw_model w) (fw_exec w) (fw_cov w) (fw_stat w) (fw_num_inputs w)
        (fw_required_priming w) (fw_calls w) (S (fw_clock w))).
Definition fraise {A} (e : exn) : F A := λ _, Raise e.
Definition flift {A} (r : result A) : F A := λ w, a ← r; Ok (a, w).

(** [if timeout: ... > timeout] *)
Definition timed_out (timeout : Z) : F bool :=
  if timeout =? 0 then mret false else t ← read_clock; mret (timeout <? t).

(** ** Tracing: the model reports its execution traces to the coverage object. *)

Definition trace_model (inputs : list Input) (nesting : Z) : F (list Z) :=
  '(ctraces, ets) ← on_model (λ m, '(cs, es, m) ← model_trace inputs nesting m; Ok (cs, es, m));
  on_cov (λ st, c ← model_hook ets st.1; Ok (tt, (c, st.2)));;
  mret ctraces.
Definition taint_model (inputs : list Input) (nesting : Z) : F (list (list bool)) :=
  '(taints, ets) ← on_model (λ m, '(ts, es, m) ← model_taints inputs nesting m; Ok (ts, es, m));
  on_cov (λ st, c ← model_hook ets st.1; Ok (tt, (c, st.2)));;
  mret taints.

(** ** [boost_inputs] *)

Fixpoint boost_loop (rounds : nat) (inputs : list Input) (taints : list (list bool))
    (boosted_inputs : list Input) : F (list Input) :=
  match rounds with
  | O => mret boosted_inputs
  | S rounds =>
      k ← next_call;
      more ← flift (extend_equivalence_classes (input_regions conf) (input_gen_entropy_bits conf)
                      (alloc k) inputs taints);
      boost_loop rounds inputs taints (boosted_inputs ++ more)
  end.

Definition boost_inputs (inputs : list Input) (nesting : Z) : F (list Input) :=
  taints ← taint_model inputs nesting;
  boost_loop (Z.to_nat (inputs_per_class conf - 1)) inputs taints inputs.

(** ** [survives_priming] *)

(** The answer of the inner loop: a pair that survived, a timeout, or neither. *)
Inductive primed := Survives (test_input ref_input : Input) | TimedOut | Exhausted.

Definition set_at (k : nat) (i : Input) (l : list Input) : result (list Input) :=
  if (k <? length l)%nat then Ok (<[k := i]> l) else Raise IndexError.

Fixpoint prime_ids (timeout : Z) (all_inputs : list Input) (current_input_id : nat)
    (current_htrace : Z) (input_ids_to_test : list nat) : F primed :=
  match input_ids_to_test with
  | [] => mret Exhausted
  | input_id :: rest =>
      late ← timed_out timeout;
      if late : bool then mret TimedOut
      else
        tested ← flift (from_option IndexError (all_inputs !! input_id));
        primer ← flift (set_at current_input_id tested (take (S current_input_id) all_inputs));
        htraces ← on_exec (exec_trace primer);
        primed_htrace ← flift (from_option IndexError (htraces !! current_input_id));
        if (primed_htrace =? 0) || (primed_htrace =? current_htrace)
        then prime_ids timeout all_inputs current_input_id current_htrace rest
        else
          current ← flift (from_option IndexError (all_inputs !! current_input_id));
          mret (Survives current tested)
  end.

Definition different_ids (ms : list Measurement) (current_htrace : Z) : list nat :=
  me_input_id <$> List.filter (λ m, negb (me_htrace m =? current_htrace)) ms.

Fixpoint prime_htraces (timeout : Z) (all_inputs : list Input) (ms : list Measurement)
    (groups : list (Z * list Measurement)) : F primed :=
  match groups with
  | [] => mret Exhausted
  | (current_htrace, group) :: groups =>
      m ← flift (from_option IndexError (last group));
      r ← prime_ids timeout all_inputs (me_input_id m) current_htrace
            (different_ids ms current_htrace);
      match r with
      | Exhausted => prime_htraces timeout all_inputs ms groups
      | _ => mret r
      end
  end.

(** On a timeout the executor stays in its priming mode. *)
Definition survives_priming (violation : EquivalenceClass) (all_inputs : list Input) (timeout : Z)
    : F (option (Input * Input)) :=
  on_exec (λ e, Ok (tt, exec_start_priming e));;
  r ← prime_htraces timeout all_inputs (measurements violation) (htrace_map violation);
  match r with
  | TimedOut => mret None
  | Survives a b => on_exec (λ e, Ok (tt, exec_stop_priming e));; mret (Some (a, b))
  | Exhausted => on_exec (λ e, Ok (tt, exec_stop_priming e));; mret None
  end.

(** ** [fuzzing_round] *)

Definition fuzz_load (test_case : tc) : F unit :=
  on_model (λ m, m ← model_load test_case m; Ok (tt, m));;
  on_exec (λ e, e ← exec_load test_case e; Ok (tt, e));;
  on_cov (λ st, c ← load_test_case test_case st.1; Ok (tt, (c, st.2))).

(** The loop over the nestings; [None] is an early [return None]. *)
Fixpoint nesting_loop (inputs : list Input) (nestings : list Z)
    (found : list EquivalenceClass * list Input)
    : F (option (list EquivalenceClass * list Input)) :=
  match nestings with
  | [] => mret (Some found)
  | nesting :: nestings =>
      boosted_inputs ← (if existing_input_case conf then mret inputs
                        else boost_inputs inputs nesting);
      count_inputs (length boosted_inputs);;
      ctraces ← trace_model boosted_inputs nesting;
      htraces ← on_exec (exec_trace boosted_inputs);
      bugged ← on_exec (λ e, Ok (exec_bugged e, e));
      if bugged : bool then mret None
      else if existing_input_case conf && existing_test_case conf then mret None
      else
        violations ← on_cov (filter_violations (analyser_permit_subsets conf)
                               boosted_inputs ctraces htraces true);
        if bool_decide (length violations = 0%nat) then mret None
        else if mem "seq" (contract_execution_clause conf)
             then mret (Some (violations, boosted_inputs))
        else nesting_loop inputs nestings (violations, boosted_inputs)
  end.

(** [while violations: violations.pop()]: the last class first. *)
Fixpoint priming_loop (violations : list EquivalenceClass) (boosted_inputs : list Input)
    (timeout : Z) : F (option EquivalenceClass) :=
  match violations with
  | [] => mret None
  | violation :: violations =>
      survives ← survives_priming violation boosted_inputs timeout;
      match survives with
      | Some _ => mret (Some violation)
      | None => priming_loop violations boosted_inputs timeout
      end
  end.

Definition fuzzing_round (test_case : tc) (inputs : list Input) (timeout : Z)
    : F (option EquivalenceClass) :=
  fuzz_load test_case;;
  r ← nesting_loop inputs [1; model_max_nesting conf] ([], []);
  match r with
  | None => mret None
  | Some (violations, boosted_inputs) =>
      if no_priming conf then
        violation ← flift (from_option IndexError (last violations)); mret (Some violation)
      else
        count_priming;; priming_loop (rev violations) boosted_inputs timeout
  end.

(** ** [start]: the outer loop *)

Context (create_test_case : nat → result tc) (next_inputs : nat → result (list Input)).

(** The tested cases, the violations and whether the loop stopped early. *)
Fixpoint start_loop (todo : nat) (i : nat) (timeout : Z) (nonstop : bool)
    (test_cases violations : Z) : F (Z * Z) :=
  match todo with
  | O => mret (test_cases, violations)
  | S todo =>
      test_case ← flift (create_test_case i);
      inputs ← flift (next_inputs i);
      violation ← fuzzing_round test_case inputs timeout;
      let test_cases := test_cases + 1 in
      let violations := match violation with Some _ => violations + 1 | None => violations end in
      if bool_decide (is_Some violation) && negb nonstop then mret (test_cases, violations)
      else
        late ← timed_out timeout;
        if late || existing_input_case conf then mret (test_cases, violations)
        else start_loop todo (S i) timeout nonstop test_cases violations
  end.

(** [LOGGER.fuzzer_finish(violation)] reads a variable the loop assigns. *)
Definition start (num_test_cases : Z) (timeout : Z) (nonstop : bool) : F (Z * Z) :=
  if num_test_cases <=? 0 then fraise UnboundLocalError
  else start_loop (Z.to_nat num_test_cases) 0 timeout nonstop 0 0.
End fuzzer.
