(* ===== verification/FuzzerFacts.v ===== *)
(** * Properties of the fuzzing loop

    Soundness and completeness of a fuzzing round against an idealised pair of
    model and executor, what priming keeps and discards, and what boosting
    rounds produce. *)

From S2P Require Import Prelude Isa Input InputFacts Util Analyser Fuzzer.

Open Scope Z_scope.

(** ** Boosting rounds *)

Lemma extend_loop_seeds r bits alloc inputs taints : ∀ k seed news,
  Z.of_nat bits mod 33 ≤ 26 → padded r →
  extend_loop r bits alloc k inputs taints seed = Ok news →
  in_seed <$> news = (λ j, lcg_iter (2 * data_size r * j) seed) <$> seq 0 (length inputs).
Proof.
  revert taints. induction inputs as [|inp inputs IH]; intros [|taint taints] k seed news Hb Hp H;
    cbn [extend_loop] in H; try (by injection H as <-); try done.
  destruct (generate_one_run r bits (alloc k) seed Hb Hp) as (ws & Hrun & _ & _).
  rewrite Hrun in H. cbn [mbind result_bind] in H. inv_ok. cbn [fmap list_fmap length seq in_seed].
  f_equal; [by rewrite Nat.mul_0_r|]. rewrite (IH _ _ _ _ Hb Hp H1), <- fmap_S_seq, <- list_fmap_compose.
  apply list_fmap_ext. intros _ j _. unfold compose. rewrite <- lcg_iter_add. f_equal. lia.
Qed.

Lemma extend_seeds r bits alloc inputs taints news :
  Z.of_nat bits mod 33 ≤ 26 → padded r →
  extend_equivalence_classes r bits alloc inputs taints = Ok news →
  in_seed <$> news =
  (λ j, lcg_iter (2 * data_size r * S j) (default 0 (in_seed <$> last inputs))) <$> seq 0 (length inputs).
Proof.
  intros Hb Hp H. unfold extend_equivalence_classes in H.
  destruct (negb _); [done|]. destruct (last inputs) as [l|]; [|done].
  cbn [from_option mbind result_bind] in H.
  destruct (generate_one_run r bits (alloc 0%nat) (in_seed l) Hb Hp) as (ws & Hrun & _).
  rewrite Hrun in H. cbn [mbind result_bind] in H.
  rewrite (extend_loop_seeds _ _ _ _ _ _ _ _ Hb Hp H). apply list_fmap_ext. intros _ j _.
  rewrite <- lcg_iter_add. f_equal. lia.
Qed.

(** Two inputs with the same data and the same seed: the words beyond
    [data_size] are the padding numpy left uninitialised. *)
Definition same_data (r : regions) (a b : Input) : Prop :=
  in_seed a = in_seed b ∧
  ∀ j, (j < data_size r)%nat → in_words a !! j = in_words b !! j.

(** every boosting round starts from the seed of the same last input, so a
    second round over the same inputs and taints rebuilds the inputs of the
    first: with [inputs_per_class] above two the classes gain copies, not members. *)
Theorem boosting_rounds_repeat r bits alloc1 alloc2 inputs taints news1 news2 :
  Z.of_nat bits mod 33 ≤ 26 → padded r →
  Forall (input_ok r) inputs → Forall (λ t, length t = taint_size r) taints →
  extend_equivalence_classes r bits alloc1 inputs taints = Ok news1 →
  extend_equivalence_classes r bits alloc2 inputs taints = Ok news2 →
  Forall2 (same_data r) news1 news2.
Proof.
  intros Hb Hp Hin Htl H1 H2.
  assert (inputs ≠ []) as Hne by (by intros ->; unfold extend_equivalence_classes in H1; destruct taints).
  assert (length inputs = length taints) as Hlen.
  { unfold extend_equivalence_classes in H1.
    destruct (Nat.eqb_spec (length inputs) (length taints)); done. }
  destruct (extend_preserved r bits alloc1 inputs taints Hb Hp Hne Hin Hlen Htl) as (n1 & E1 & F1).
  destruct (extend_preserved r bits alloc2 inputs taints Hb Hp Hne Hin Hlen Htl) as (n2 & E2 & F2).
  rewrite E1 in H1. rewrite E2 in H2. injection H1 as ->. injection H2 as ->.
  pose proof (extend_seeds r bits alloc1 inputs taints news1 Hb Hp E1) as S1.
  pose proof (extend_seeds r bits alloc2 inputs taints news2 Hb Hp E2) as S2.
  rewrite <- S2 in S1. clear S2. apply Forall2_same_length_lookup. split.
  { by rewrite <- (Forall2_length _ _ _ F1), <- (Forall2_length _ _ _ F2). }
  intros i a b Ha Hb'.
  destruct (Forall2_lookup_r _ _ _ _ _ F1 Ha) as ([inp t] & Hp1 & B1 & R1).
  destruct (Forall2_lookup_r _ _ _ _ _ F2 Hb') as ([inp' t'] & Hp2 & B2 & R2).
  rewrite Hp1 in Hp2. injection Hp2 as <- <-. cbn [fst snd] in *.
  assert (Hseed : in_seed a = in_seed b).
  { apply (f_equal (λ l, l !! i)) in S1. rewrite !list_lookup_fmap, Ha, Hb' in S1. by injection S1. }
  split; [done|]. intros j Hj.
  assert (length t = taint_size r) as Ht.
  { rewrite lookup_zip_with in Hp1. destruct (inputs !! i); [|done]. cbn in Hp1.
    destruct (taints !! i) eqn:Et; [|done]. cbn in Hp1. injection Hp1 as <- <-.
    by apply (Forall_lookup_1 _ _ _ _ Htl Et). }
  destruct (lookup_lt_is_Some_2 t j) as [[] Hj']; [rewrite Ht; exact Hj| |].
  - rewrite (B1 j Hj Hj'), (B2 j Hj Hj'). done.
  - rewrite (R1 j Hj Hj'), (R2 j Hj Hj'), Hseed. done.
Qed.

Lemma boosting_rounds_repeat_witness :
  let r := mkRegions 8 0 8 in
  let inp := mkInput (replicate (aligned_size r) 5) 7 in
  ∃ news1 news2,
    extend_equivalence_classes r 3 (λ _ _, 0) [inp] [[true; false]] = Ok news1 ∧
    extend_equivalence_classes r 3 (λ _ _, 9) [inp] [[true; false]] = Ok news2 ∧
    Forall2 (same_data r) news1 news2.
Proof.
  intros r inp. eexists _, _. split; [vm_compute; reflexivity|]. split; [vm_compute; reflexivity|].
  apply (boosting_rounds_repeat r 3 (λ _ _, 0) (λ _ _, 9) [inp] [[true; false]]).
  - vm_compute. discriminate.
  - unfold padded. vm_compute. lia.
  - constructor; [|constructor]. split; [vm_compute; reflexivity|apply Forall_replicate; lia].
  - repeat constructor.
  - vm_compute. reflexivity.
  - vm_compute. reflexivity.
Defined.

(** ** What the fuzzer relies on

    The traces of a batch, when every input has its own: [ctr n i] is the contract trace of
    [i] at nesting [n], [obs p i] its hardware trace after the inputs [p]. *)
Definition trace_of (obs : list Input → Input → Z) (inputs : list Input) : list Z :=
  imap (λ i x, obs (take i inputs) x) inputs.

(** A component is [idle] between test cases and [ready] once the test case is loaded; it
    stays ready as long as it is given inputs of the configured size. *)
Class ContractLaws {tc et mdl : Type} `{!ContractModel tc et mdl} (r : regions) (test_case : tc)
    (idle ready : mdl → Prop) (ctr : Z → Input → Z) : Prop := {
  law_model_load m : idle m → ∃ m', model_load test_case m = Ok m' ∧ ready m';
  law_model_trace inputs n m : Forall (input_ok r) inputs → ready m →
    ∃ ets m', model_trace inputs n m = Ok (ctr n <$> inputs, ets, m') ∧ ready m';
  law_model_taints inputs n m : Forall (input_ok r) inputs → ready m →
    ∃ ts ets m', model_taints inputs n m = Ok (ts, ets, m') ∧ ready m' ∧
      length ts = length inputs ∧ Forall (λ t, length t = taint_size r) ts
}.

Class HardwareLaws {tc exe : Type} `{!HardwareExecutor tc exe} (r : regions) (test_case : tc)
    (idle ready : exe → Prop) (obs : list Input → Input → Z) : Prop := {
  law_exec_load e : idle e → ∃ e', exec_load test_case e = Ok e' ∧ ready e';
  law_exec_trace inputs e : inputs ≠ [] → Forall (input_ok r) inputs → ready e →
    ∃ e', exec_trace inputs e = Ok (trace_of obs inputs, e') ∧ ready e';
  law_start_priming e : ready e → ready (exec_start_priming e);
  law_stop_priming e : ready e → ready (exec_stop_priming e);
  law_not_bugged e : ready e → exec_bugged e = false
}.

Class CoverageLaws (tc et cov : Type) `{!Coverage tc et cov} : Prop := {
  law_cov_load (t : tc) (c : cov) : ∃ c', load_test_case t c = Ok c';
  law_cov_model (ets : list et) (c : cov) : ∃ c', model_hook ets c = Ok c';
  law_cov_analyser cls (c : cov) : ∃ c', analyser_hook cls c = Ok c'
}.

#[export] Instance NoCoverage_laws {tc et} : CoverageLaws tc et unit.
Proof. constructor; intros; by eexists. Qed.

(** ** Running the fuzzer's operations *)

Section returns.
Context {mdl exe cov : Type}.
Abbreviation fw := (fworld (mdl := mdl) (exe := exe) (cov := cov)).

(** The operation returns, with a result and a state that satisfy [Q]. *)
Definition returns {A} (m : F (mdl := mdl) (exe := exe) (cov := cov) A) w
    (Q : A → fw → Prop) : Prop :=
  ∃ a w', m w = Ok (a, w') ∧ Q a w'.

Lemma returns_ret {A} (a : A) w (Q : A → fw → Prop) : Q a w → returns (mret a) w Q.
Proof. intros. by exists a, w. Qed.

Lemma returns_bind {A B} (m : F A) (f : A → F B) w (Q : B → fw → Prop) :
  returns m w (λ a w, returns (f a) w Q) → returns (m ≫= f) w Q.
Proof.
  intros (a & w' & Hm & b & w'' & Hf & HQ). exists b, w''. split; [|done].
  unfold mbind, F_bind. rewrite Hm. cbn. done.
Qed.

Lemma returns_mono {A} (m : F A) w (P Q : A → fw → Prop) :
  returns m w P → (∀ a w, P a w → Q a w) → returns m w Q.
Proof. intros (a & w' & Hm & HP) HPQ. exists a, w'. auto. Qed.

Lemma returns_lift {A} (r : result A) a w (Q : A → fw → Prop) :
  r = Ok a → Q a w → returns (flift r) w Q.
Proof. intros -> HQ. by exists a, w. Qed.
End returns.

Section runs.
Context {mdl exe cov : Type} (model_ready : mdl → Prop) (exec_ready : exe → Prop).
Abbreviation fw := (fworld (mdl := mdl) (exe := exe) (cov := cov)).

Definition all_ready (w : fw) : Prop := model_ready (fw_model w) ∧ exec_ready (fw_exec w).

(** ... and the components are ready. *)
Definition runs {A} (m : F (mdl := mdl) (exe := exe) (cov := cov) A) w
    (Q : A → fw → Prop) : Prop :=
  returns m w (λ a w', all_ready w' ∧ Q a w').

Lemma runs_ret {A} (a : A) w (Q : A → fw → Prop) : all_ready w → Q a w → runs (mret a) w Q.
Proof. intros. by exists a, w. Qed.

Lemma runs_bind {A B} (m : F A) (f : A → F B) w (Q : B → fw → Prop) :
  runs m w (λ a w, runs (f a) w Q) → runs (m ≫= f) w Q.
Proof.
  intros H. apply returns_bind. eapply returns_mono; [exact H|]. intros a w' [_ H']. exact H'.
Qed.

Lemma runs_mono {A} (m : F A) w (P Q : A → fw → Prop) :
  runs m w P → (∀ a w, all_ready w → P a w → Q a w) → runs m w Q.
Proof. intros (a & w' & Hm & Hr & HP) HPQ. exists a, w'. auto. Qed.

Lemma runs_lift {A} (r : result A) a w (Q : A → fw → Prop) :
  r = Ok a → all_ready w → Q a w → runs (flift r) w Q.
Proof. intros -> Hr HQ. by exists a, w. Qed.

Lemma runs_exec {A} (f : exe → result (A * exe)) w (Q : A → fw → Prop) :
  all_ready w →
  (∃ a e, f (fw_exec w) = Ok (a, e) ∧ exec_ready e ∧ ∀ w, all_ready w → Q a w) → runs (on_exec f) w Q.
Proof.
  intros [Hm _] (a & e & Hf & He & HQ). unfold runs, returns, on_exec. rewrite Hf. cbn.
  eexists _, _. split; [done|]. split; [by split|apply HQ; by split].
Qed.

Lemma runs_model {A} (f : mdl → result (A * mdl)) w (Q : A → fw → Prop) :
  all_ready w →
  (∃ a m, f (fw_model w) = Ok (a, m) ∧ model_ready m ∧ ∀ w, all_ready w → Q a w) → runs (on_model f) w Q.
Proof.
  intros [_ He] (a & m & Hf & Hm & HQ). unfold runs, returns, on_model. rewrite Hf. cbn.
  eexists _, _. split; [done|]. split; [by split|apply HQ; by split].
Qed.

Lemma runs_cov {A} (f : cov * statistics → result (A * (cov * statistics))) w
    (Q : A → fw → Prop) :
  all_ready w →
  (∃ a st, f (fw_cov w, fw_stat w) = Ok (a, st) ∧ ∀ w, all_ready w → Q a w) → runs (on_cov f) w Q.
Proof.
  intros Hr (a & st & Hf & HQ). unfold runs, returns, on_cov. rewrite Hf. cbn.
  eexists _, _. split; [done|]. split; [exact Hr|apply HQ, Hr].
Qed.

Lemma runs_count n w (Q : unit → fw → Prop) :
  all_ready w → (∀ w, all_ready w → Q tt w) → runs (count_inputs n) w Q.
Proof. intros Hr HQ. eexists _, _. split; [done|]. split; [exact Hr|apply HQ, Hr]. Qed.
Lemma runs_count_priming w (Q : unit → fw → Prop) :
  all_ready w → (∀ w, all_ready w → Q tt w) → runs count_priming w Q.
Proof. intros Hr HQ. eexists _, _. split; [done|]. split; [exact Hr|apply HQ, Hr]. Qed.
Lemma runs_next_call w (Q : nat → fw → Prop) :
  all_ready w → (∀ k w, all_ready w → Q k w) → runs next_call w Q.
Proof. intros Hr HQ. eexists _, _. split; [done|]. split; [exact Hr|apply HQ, Hr]. Qed.
End runs.

(** Boosting succeeds and keeps the inputs it is given. *)
Definition boostable (conf : fuzz_conf) (inputs : list Input) : Prop :=
  Z.of_nat (input_gen_entropy_bits conf) mod 33 ≤ 26 ∧ padded (input_regions conf) ∧
  inputs ≠ [] ∧ Forall (input_ok (input_regions conf)) inputs.

Lemma elem_of_rev {A} (x : A) l : x ∈ rev l ↔ x ∈ l.
Proof. rewrite !list_elem_of_In. symmetry. apply in_rev. Qed.

Section round.
Context {tc et mdl exe cov : Type}.
Context `{!ContractModel tc et mdl, !HardwareExecutor tc exe, !Coverage tc et cov}.
Context (conf : fuzz_conf) (alloc : nat → nat → nat → Z) (elapsed : nat → Z).
Context (test_case : tc) (ctr : Z → Input → Z) (obs : list Input → Input → Z).
Context (model_idle model_ready : mdl → Prop) (exec_idle exec_ready : exe → Prop).
Context `{!ContractLaws (et := et) (input_regions conf) test_case model_idle model_ready ctr}.
Context `{!HardwareLaws (input_regions conf) test_case exec_idle exec_ready obs}.
Context `{!CoverageLaws tc et cov}.

Abbreviation fw := (fworld (mdl := mdl) (exe := exe) (cov := cov)).
Abbreviation ready := (all_ready (cov := cov) model_ready exec_ready).
Abbreviation runs := (runs (cov := cov) model_ready exec_ready).
Abbreviation inputs_ok := (Forall (input_ok (input_regions conf))).

Lemma boost_loop_runs rounds inputs taints acc (w : fw) :
  boostable conf inputs → length taints = length inputs →
  Forall (λ t, length t = taint_size (input_regions conf)) taints → ready w →
  runs (boost_loop conf alloc rounds inputs taints acc) w (λ b _, ∃ more, b = acc ++ more ∧ inputs_ok more).
Proof.
  intros (Hb & Hp & Hne & Hin) Hlen Htl. revert acc w.
  induction rounds as [|rounds IH]; intros acc w Hw; cbn [boost_loop].
  { apply runs_ret; [done|]. exists []. by rewrite app_nil_r. }
  apply runs_bind, runs_next_call; [done|]. intros k w' Hw'. apply runs_bind.
  destruct (extend_preserved (input_regions conf) _ (alloc k) inputs taints Hb Hp Hne Hin)
    as (news & Hnews & _); [done|done|].
  eapply runs_lift; [exact Hnews|done|]. eapply runs_mono; [by apply IH|].
  intros b _ _ (more & -> & Hmore). exists (news ++ more). rewrite (app_assoc acc). split; [done|].
  apply Forall_app. split; [|done]. exact (extend_ok _ _ _ _ _ _ Hb Hp Hin Hnews).
Qed.

Lemma boost_inputs_runs inputs n (w : fw) :
  boostable conf inputs → ready w →
  runs (boost_inputs (tc := tc) (et := et) conf alloc inputs n) w
    (λ b _, ∃ more, b = inputs ++ more ∧ inputs_ok more).
Proof.
  intros Hb Hw. unfold boost_inputs, taint_model. apply runs_bind, runs_bind, runs_model; [done|].
  destruct (law_model_taints inputs n (fw_model w)) as (ts & ets & m' & -> & Hm' & Hlen & Htl); [apply Hb|apply Hw|].
  eexists _, _. split; [done|]. split; [done|]. intros w1 Hw1. apply runs_bind, runs_cov; [done|].
  destruct (law_cov_model (tc := tc) ets (fw_cov w1)) as (c' & Hc). cbn [fst snd].
  rewrite Hc. eexists _, _. split; [done|]. intros w2 Hw2. apply runs_ret; [done|].
  by apply boost_loop_runs.
Qed.

Lemma trace_model_runs inputs n (w : fw) :
  inputs_ok inputs → ready w →
  runs (trace_model (tc := tc) (et := et) inputs n) w (λ cs _, cs = ctr n <$> inputs).
Proof.
  intros Hin Hw. unfold trace_model. apply runs_bind, runs_model; [done|].
  destruct (law_model_trace inputs n (fw_model w)) as (ets & m' & -> & Hm'); [done|apply Hw|].
  eexists _, _. split; [done|]. split; [done|]. intros w1 Hw1. apply runs_bind, runs_cov; [done|].
  destruct (law_cov_model (tc := tc) ets (fw_cov w1)) as (c' & Hc). cbn [fst snd].
  rewrite Hc. eexists _, _. split; [done|]. intros w2 Hw2. by apply runs_ret.
Qed.

(** The measurements of a run of the idealised pair. *)
Definition pure_measurements (n : Z) (inputs : list Input) : list Measurement :=
  measurements_of inputs (ctr n <$> inputs) (trace_of obs inputs).

Lemma pure_measurements_lookup n inputs i m :
  pure_measurements n inputs !! i = Some m ↔
  inputs !! i = Some (me_input m) ∧ me_input_id m = i ∧
  me_ctrace m = ctr n (me_input m) ∧ me_htrace m = obs (take i inputs) (me_input m).
Proof.
  unfold pure_measurements, trace_of.
  rewrite measurements_of_lookup, list_lookup_imap, list_lookup_fmap.
  split.
  - intros (Hi & Hc & Hh & Hid). rewrite Hi in Hc, Hh. cbn in Hc, Hh.
    injection Hc as <-. injection Hh as <-. done.
  - intros (-> & Hid & -> & ->). done.
Qed.

Lemma pure_measurements_elem n inputs m :
  m ∈ pure_measurements n inputs →
  inputs !! me_input_id m = Some (me_input m) ∧ me_ctrace m = ctr n (me_input m) ∧
  me_htrace m = obs (take (me_input_id m) inputs) (me_input m).
Proof. by intros (i & (Hi & <- & Hc & Hh)%pure_measurements_lookup)%list_elem_of_lookup. Qed.

Lemma pure_measurements_in n inputs i a :
  inputs !! i = Some a →
  mkMeasurement i a (ctr n a) (obs (take i inputs) a) ∈ pure_measurements n inputs.
Proof. intros Hi. apply list_elem_of_lookup. exists i. by apply pure_measurements_lookup. Qed.

(** What the analyser finds on a run of the pair. *)
Definition found_in (n : Z) (inputs : list Input) (vs : list EquivalenceClass) : Prop :=
  ∀ ec, ec ∈ vs ↔ ∃ c, ec = class_of (pure_measurements n inputs) c ∧
                       disagree (analyser_permit_subsets conf) c (pure_measurements n inputs).

Lemma length_trace_of inputs : length (trace_of obs inputs) = length inputs.
Proof. apply length_imap. Qed.

Lemma analyse_runs n inputs (w : fw) :
  (analyser_permit_subsets conf = true → ∀ p i, 0 ≤ obs p i) → ready w →
  runs (on_cov (filter_violations (tc := tc) (et := et) (analyser_permit_subsets conf) inputs
          (ctr n <$> inputs) (trace_of obs inputs) true)) w (λ vs _, found_in n inputs vs).
Proof.
  intros Hnn Hw. apply runs_cov; [done|].
  destruct (filter_violations_spec (tc := tc) (et := et) (analyser_permit_subsets conf) true inputs
              (ctr n <$> inputs) (trace_of obs inputs) (fw_cov w, fw_stat w)) as (vs & st' & Hf & _ & Hvs).
  - by rewrite length_fmap.
  - by rewrite length_trace_of, length_fmap.
  - intros Hp. apply Forall_lookup. intros i h Hh. unfold trace_of in Hh.
    rewrite list_lookup_imap in Hh. destruct (inputs !! i); [|done]. cbn in Hh. injection Hh as <-. auto.
  - intros cls. apply (law_cov_analyser (tc := tc) (et := et)).
  - exists vs, st'. by split.
Qed.

(** Loading the test case makes idle components ready. *)
Definition all_idle (w : fw) : Prop := model_idle (fw_model w) ∧ exec_idle (fw_exec w).

Lemma fuzz_load_runs (w : fw) (Q : unit → fw → Prop) :
  all_idle w → (∀ w, ready w → Q tt w) → runs (fuzz_load (tc := tc) (et := et) test_case) w Q.
Proof.
  intros [Hm He] HQ.
  destruct (law_model_load (fw_model w) Hm) as (m' & Em & Hm').
  destruct (law_exec_load (fw_exec w) He) as (e' & Ee & He').
  destruct (law_cov_load (et := et) test_case (fw_cov w)) as (c' & Ec).
  unfold FuzzerFacts.runs, returns, fuzz_load, on_model, on_exec, on_cov, mbind, F_bind. rewrite Em. cbn.
  rewrite Ee. cbn. rewrite Ec. cbn. eexists _, _. split; [done|]. split; [by split|]. apply HQ. by split.
Qed.

(** *** Priming *)

(** Putting [b] in the place of [a] changes the usable trace [h] seen there. *)
Definition swap_differs (all_inputs : list Input) (cur : nat) (h : Z) (b : Input) : Prop :=
  obs (take cur all_inputs) b ≠ 0 ∧ obs (take cur all_inputs) b ≠ h.

Lemma timed_out_runs timeout (w : fw) (Q : bool → fw → Prop) :
  ready w → (∀ w, ready w → Q false w) → (timeout ≠ 0 → ∀ w, ready w → Q true w) →
  runs (timed_out elapsed timeout) w Q.
Proof.
  intros Hw Hf Ht. unfold timed_out. destruct (Z.eqb_spec timeout 0) as [|Hto]; [by apply runs_ret; auto|].
  apply runs_bind. unfold FuzzerFacts.runs, returns, read_clock. eexists _, _. split; [done|]. split; [done|].
  apply runs_ret; [done|]. destruct (timeout <? _); auto.
Qed.

Lemma prime_ids_runs timeout all_inputs cur h ids (w : fw) :
  inputs_ok all_inputs → ready w →
  (∃ a, all_inputs !! cur = Some a) → Forall (λ id, ∃ b, all_inputs !! id = Some b) ids →
  runs (prime_ids elapsed timeout all_inputs cur h ids) w (λ r _,
    match r with
    | Survives a b => all_inputs !! cur = Some a ∧
        ∃ id, id ∈ ids ∧ all_inputs !! id = Some b ∧ swap_differs all_inputs cur h b
    | TimedOut => timeout ≠ 0
    | Exhausted => ∀ id b, id ∈ ids → all_inputs !! id = Some b → ¬ swap_differs all_inputs cur h b
    end).
Proof.
  intros Hall Hw [a Ha] Hids. revert w Hw. induction Hids as [|id ids [b Hb] Hids IH]; intros w Hw; cbn [prime_ids].
  { apply runs_ret; [done|]. intros id b Hin. by apply elem_of_nil in Hin. }
  apply runs_bind, timed_out_runs; [done| |by intros; apply runs_ret]. intros w1 Hw1.
  apply runs_bind. eapply runs_lift; [by rewrite Hb|done|].
  pose proof (lookup_lt_Some _ _ _ Ha) as Hcur.
  apply runs_bind. eapply runs_lift.
  { unfold set_at. rewrite length_take, (proj2 (Nat.ltb_lt _ _)) by lia. done. }
  { done. }
  apply runs_bind, runs_exec; [done|].
  destruct (law_exec_trace (<[cur := b]> (take (S cur) all_inputs)) (fw_exec w1)) as (e' & -> & He'); [| |apply Hw1|].
  { intros E%(f_equal length). rewrite length_insert, length_take in E. cbn [length] in E. lia. }
  { apply Forall_insert; [by apply Forall_take|]. by apply (Forall_lookup_1 _ _ _ _ Hall Hb). }
  eexists _, _. split; [done|]. split; [done|]. intros w2 Hw2. apply runs_bind.
  eapply (runs_lift _ _ _ (obs (take cur all_inputs) b)).
  { unfold trace_of. rewrite list_lookup_imap, list_lookup_insert_eq by (rewrite length_take; lia).
    rewrite take_insert_ge, take_take by lia. cbn. by rewrite Nat.min_l by lia. }
  { done. }
  destruct (Z.eqb_spec (obs (take cur all_inputs) b) 0) as [E|E];
    [|destruct (Z.eqb_spec (obs (take cur all_inputs) b) h) as [E'|E']]; cbn [orb].
  3:{ apply runs_bind. eapply runs_lift; [by rewrite Ha|done|]. apply runs_ret; [done|]. split; [done|].
      exists id. split; [by left|]. by split. }
  all: eapply runs_mono; [by apply IH|]; intros r w3 _ Hr; destruct r as [? ?| |]; [|done|].
  1,3: destruct Hr as (? & id' & ? & ?); split; [done|]; exists id'; split; [by right|done].
  all: intros id' b' [->|Hin]%elem_of_cons Hb'; [|by eapply Hr].
  all: rewrite Hb in Hb'; injection Hb' as <-; intros [? ?]; done.
Qed.

(** A swap priming can report for the class [ec]. *)
Definition candidate (all_inputs : list Input) (ms : list Measurement)
    (groups : list (Z * list Measurement)) (a b : Input) : Prop :=
  ∃ h g m m', (h, g) ∈ groups ∧ last g = Some m ∧ all_inputs !! me_input_id m = Some a ∧
    m' ∈ ms ∧ me_htrace m' ≠ h ∧ all_inputs !! me_input_id m' = Some b ∧
    swap_differs all_inputs (me_input_id m) h b.

Lemma elem_of_different_ids ms h id :
  id ∈ different_ids ms h ↔ ∃ m, m ∈ ms ∧ me_htrace m ≠ h ∧ me_input_id m = id.
Proof.
  unfold different_ids. rewrite list_elem_of_fmap. setoid_rewrite elem_of_list_filter_bool.
  setoid_rewrite negb_true_iff. setoid_rewrite Z.eqb_neq. naive_solver.
Qed.

Definition measured (all_inputs : list Input) (m : Measurement) : Prop :=
  all_inputs !! me_input_id m = Some (me_input m).

Lemma prime_htraces_runs timeout all_inputs ms groups (w : fw) :
  inputs_ok all_inputs → ready w → Forall (measured all_inputs) ms →
  Forall (λ p, ∃ m, last p.2 = Some m ∧ measured all_inputs m) groups →
  runs (prime_htraces elapsed timeout all_inputs ms groups) w (λ r _,
    match r with
    | Survives a b => candidate all_inputs ms groups a b
    | TimedOut => timeout ≠ 0
    | Exhausted => ∀ a b, ¬ candidate all_inputs ms groups a b
    end).
Proof.
  intros Hall Hw Hms Hg. revert w Hw.
  induction Hg as [|[h g] groups (m & Hlast & Hm) Hg IH]; intros w Hw; cbn [prime_htraces].
  { apply runs_ret; [done|]. by intros a b (h & g & m & m' & []%elem_of_nil & _). }
  cbn [snd] in Hlast. apply runs_bind. eapply runs_lift; [by rewrite Hlast|done|]. apply runs_bind.
  eapply runs_mono; [apply prime_ids_runs; [done|done|by exists (me_input m)|]|].
  { apply Forall_forall. intros id (m' & Hm' & _ & <-)%elem_of_different_ids.
    rewrite Forall_forall in Hms. exists (me_input m'). by apply Hms. }
  intros r w1 Hw1 Hr. destruct r as [a b| |].
  - apply runs_ret; [done|]. destruct Hr as (Ha & id & (m' & Hm' & Hne & <-)%elem_of_different_ids & Hb & Hs).
    exists h, g, m, m'. split; [by left|done].
  - by apply runs_ret.
  - eapply runs_mono; [by apply IH|]. intros r w2 _ Hr'. destruct r as [a b| |]; [|done|].
    + destruct Hr' as (h' & g' & m1 & m2 & ? & ?). exists h', g', m1, m2. split; [by right|done].
    + intros a b (h' & g' & m1 & m2 & [[= -> ->]|Hin]%elem_of_cons & Hl & Ha & Hm2 & Hne & Hb & Hs).
      * rewrite Hlast in Hl. injection Hl as <-. eapply Hr; [|exact Hb|exact Hs].
        apply elem_of_different_ids. by exists m2.
      * eapply Hr'. exists h', g', m1, m2. done.
Qed.

Definition class_candidate (all_inputs : list Input) (ec : EquivalenceClass) : Input → Input → Prop :=
  candidate all_inputs (measurements ec) (htrace_map ec).

Lemma survives_priming_runs n timeout all_inputs c (w : fw) :
  let ec := class_of (pure_measurements n all_inputs) c in
  inputs_ok all_inputs → ready w →
  runs (survives_priming elapsed ec all_inputs timeout) w (λ r _,
    match r with
    | Some (a, b) => class_candidate all_inputs ec a b
    | None => timeout ≠ 0 ∨ ∀ a b, ¬ class_candidate all_inputs ec a b
    end).
Proof.
  intros ec Hall Hw. unfold survives_priming. apply runs_bind, runs_exec; [done|]. eexists _, _. split; [done|].
  split; [apply law_start_priming, Hw|]. intros w1 Hw1. apply runs_bind.
  eapply runs_mono; [apply prime_htraces_runs; [done|done|..]|].
  - apply Forall_forall. intros m [_ Hm]%list_elem_of_filter.
    by destruct (pure_measurements_elem _ _ _ Hm) as (? & _).
  - apply Forall_forall. intros [h g] [-> Hg]%elem_of_group_by. cbn [snd].
    destruct (last _) as [m|] eqn:El; [|by apply last_None in El]. exists m. split; [done|].
    apply last_Some_elem_of in El. apply list_elem_of_filter in El as [_ El].
    apply elem_of_list_filter_bool in El as [_ El]. apply list_elem_of_filter in El as [_ El].
    by destruct (pure_measurements_elem _ _ _ El) as (? & _).
  - intros r w2 Hw2 Hr. destruct r as [a b| |].
    + apply runs_bind, runs_exec; [done|]. eexists _, _. split; [done|]. split; [apply law_stop_priming, Hw2|].
      intros w3 Hw3. by apply runs_ret.
    + apply runs_ret; [done|]. by left.
    + apply runs_bind, runs_exec; [done|]. eexists _, _. split; [done|]. split; [apply law_stop_priming, Hw2|].
      intros w3 Hw3. apply runs_ret; [done|]. by right.
Qed.

(** What a candidate means: the two inputs are a counterexample to the
    contract, in one and the same microarchitectural context. *)
Definition counterexample (n c : Z) (a b : Input) : Prop :=
  ctr n a = c ∧ ctr n b = c ∧ ∃ p, obs p a ≠ 0 ∧ obs p b ≠ 0 ∧ obs p a ≠ obs p b.

Lemma class_candidate_counterexample n all_inputs c a b :
  class_candidate all_inputs (class_of (pure_measurements n all_inputs) c) a b →
  a ∈ all_inputs ∧ b ∈ all_inputs ∧ counterexample n c a b.
Proof.
  intros (h & g & m & m' & [-> Hg]%elem_of_group_by & Hl & Ha & Hm' & Hne & Hb & Hs0 & Hs).
  apply last_Some_elem_of, list_elem_of_filter in Hl as [Hh Hl].
  apply elem_of_list_filter_bool in Hl as [Hu Hl]. apply list_elem_of_filter in Hl as [Hc Hl].
  destruct (pure_measurements_elem _ _ _ Hl) as (Hm & Hmc & Hmh).
  apply list_elem_of_filter in Hm' as [Hc' Hm'].
  destruct (pure_measurements_elem _ _ _ Hm') as (Hm1 & Hmc1 & Hmh1).
  rewrite Hm in Ha. injection Ha as <-. rewrite Hm1 in Hb. injection Hb as <-.
  split; [by eapply list_elem_of_lookup_2|]. split; [by eapply list_elem_of_lookup_2|].
  split; [congruence|]. split; [congruence|]. exists (take (me_input_id m) all_inputs).
  unfold usable in Hu. apply negb_true_iff, Z.eqb_neq in Hu. split; [congruence|].
  split; [done|]. congruence.
Qed.

Lemma class_candidate_members n all_inputs c a b :
  let ec := class_of (pure_measurements n all_inputs) c in
  class_candidate all_inputs ec a b →
  a ∈ me_input <$> measurements ec ∧ b ∈ me_input <$> measurements ec.
Proof.
  intros ec (h & g & m & m' & [-> Hg]%elem_of_group_by & Hl & Ha & Hm' & Hne & Hb & _).
  apply last_Some_elem_of, list_elem_of_filter in Hl as [_ Hl].
  apply elem_of_list_filter_bool in Hl as [_ Hl].
  assert (∀ m x, m ∈ measurements ec → all_inputs !! me_input_id m = Some x →
            x ∈ me_input <$> measurements ec) as Hmem.
  { intros m0 x Hm0 Hx. pose proof Hm0 as [_ Hp]%list_elem_of_filter.
    destruct (pure_measurements_elem _ _ _ Hp) as (Hi & _). rewrite Hi in Hx. injection Hx as <-.
    by apply list_elem_of_fmap_2. }
  split; [by apply (Hmem m a)|by apply (Hmem m' b)].
Qed.

(** *** The round *)

Context (Hnew : existing_input_case conf = false).
Context (Hsign : analyser_permit_subsets conf = true → ∀ p i, 0 ≤ obs p i).

(** A step of the loop over the nestings, by what the analyser finds. *)
Lemma nesting_loop_runs inputs (P : option (list EquivalenceClass * list Input) → Prop) nestings found
    (w : fw) :
  boostable conf inputs → ready w →
  (∀ n more vs, n ∈ nestings → inputs_ok (inputs ++ more) → found_in n (inputs ++ more) vs →
     P (if bool_decide (vs = []) then None else Some (vs, inputs ++ more))) →
  (nestings = [] → P (Some found)) →
  runs (nesting_loop (tc := tc) (et := et) conf alloc inputs nestings found) w (λ r _, P r).
Proof.
  intros Hb Hw HP. revert found w Hw. induction nestings as [|n nestings IH]; intros found w Hw Hf; cbn [nesting_loop].
  { apply runs_ret; auto. }
  rewrite Hnew. cbn [andb]. apply runs_bind.
  eapply runs_mono; [by apply boost_inputs_runs|]. intros b w1 Hw1 (more & -> & Hmore).
  assert (inputs_ok (inputs ++ more)) as Hall by (apply Forall_app; split; [apply Hb|done]).
  apply runs_bind, runs_count; [done|]. intros w2 Hw2. apply runs_bind.
  eapply runs_mono; [by apply trace_model_runs|]. intros cs w3 Hw3 ->.
  apply runs_bind, runs_exec; [done|].
  destruct (law_exec_trace (inputs ++ more) (fw_exec w3)) as (e' & -> & He'); [|done|apply Hw3|].
  { destruct Hb as (_ & _ & Hne & _). by intros [? _]%app_eq_nil. }
  eexists _, _. split; [done|]. split; [done|].
  intros w4 Hw4. apply runs_bind, runs_exec; [done|]. eexists _, _. split; [done|]. split; [apply Hw4|]. intros w5 Hw5.
  rewrite law_not_bugged by apply Hw4. apply runs_bind. eapply runs_mono; [by apply analyse_runs|].
  intros vs w6 Hw6 Hvs. pose proof (HP n more vs ltac:(by left) Hall Hvs) as Hn.
  destruct vs as [|v vs]; [by apply runs_ret|]. cbn [length]. rewrite bool_decide_false in Hn by done.
  rewrite bool_decide_false by done. destruct (mem "seq" _); [by apply runs_ret|].
  apply IH; [|done|by intros _]. intros n' more' vs' Hn'. apply HP. by right.
Qed.

Lemma priming_loop_runs n timeout all_inputs vs (w : fw) :
  inputs_ok all_inputs → ready w →
  Forall (λ ec, ∃ c, ec = class_of (pure_measurements n all_inputs) c) vs →
  runs (priming_loop elapsed vs all_inputs timeout) w (λ r _,
    match r with
    | Some ec => ec ∈ vs ∧ ∃ a b, class_candidate all_inputs ec a b
    | None => timeout ≠ 0 ∨ ∀ ec a b, ec ∈ vs → ¬ class_candidate all_inputs ec a b
    end).
Proof.
  intros Hall Hw Hvs. revert w Hw. induction Hvs as [|ec vs (c & ->) Hvs IH]; intros w Hw; cbn [priming_loop].
  { apply runs_ret; [done|]. right. intros ec a b Hin. by apply elem_of_nil in Hin. }
  apply runs_bind. eapply runs_mono; [by apply survives_priming_runs|]. intros [[a b]|] w1 Hw1 Hr.
  { apply runs_ret; [done|]. split; [by left|]. by exists a, b. }
  eapply runs_mono; [by apply IH|]. intros [ec|] w2 _ Hr'.
  - destruct Hr' as [? ?]. split; [by right|done].
  - destruct Hr as [|Hr]; [by left|]. destruct Hr' as [|Hr']; [by left|]. right.
    intros ec a b [->|Hin]%elem_of_cons; [apply Hr|by apply Hr'].
Qed.

(** What a round reports is a counterexample among the inputs of its class. *)
Lemma round_reports inputs timeout (w : fw) :
  boostable conf inputs → no_priming conf = false → all_idle w →
  runs (fuzzing_round (tc := tc) (et := et) conf alloc elapsed test_case inputs timeout) w (λ r _,
    ∀ ec, r = Some ec → ∃ n a b, n ∈ [1; model_max_nesting conf] ∧
      counterexample n (ec_ctrace ec) a b ∧
      a ∈ me_input <$> measurements ec ∧ b ∈ me_input <$> measurements ec).
Proof.
  intros Hb Hprime Hidle. unfold fuzzing_round. apply runs_bind, fuzz_load_runs; [done|]. intros w1 Hw1.
  apply runs_bind. eapply runs_mono; [apply (nesting_loop_runs inputs (λ r,
    match r with
    | Some (vs, b) => vs = [] ∨ ∃ n, n ∈ [1; model_max_nesting conf] ∧ inputs_ok b ∧ found_in n b vs
    | None => True
    end)); [done|done| |by left]|].
  { intros n more vs Hn Hall Hf. case_bool_decide; [done|]. right. by exists n. }
  intros [[vs b]|] w2 Hw2 Hr; [|by apply runs_ret]. rewrite Hprime.
  apply runs_bind, runs_count_priming; [done|]. intros w3 Hw3.
  destruct Hr as [->|(n & Hn & Hall & Hf)]; [by apply runs_ret|].
  eapply runs_mono; [apply (priming_loop_runs n); [done|done|]|].
  { apply Forall_forall. intros ec (c & -> & _)%elem_of_rev%Hf. by exists c. }
  intros [ec|] w4 _ Hec ec' [= <-]. destruct Hec as [Hin (x & y & Hxy)].
  apply elem_of_rev, Hf in Hin as (c & -> & _). exists n, x, y. split; [done|].
  destruct (class_candidate_counterexample _ _ _ _ _ Hxy) as (_ & _ & Hcx).
  split; [done|]. by apply class_candidate_members.
Qed.

(** C4: soundness of a fuzzing round with priming.  The round returns, and a
    class it reports contains two of the tested inputs with one contract
    trace whose usable hardware traces differ after the same preceding
    inputs: a difference of context alone is never reported. *)
Theorem fuzzing_round_sound inputs timeout (w : fw) :
  boostable conf inputs → no_priming conf = false → all_idle w →
  runs (fuzzing_round (tc := tc) (et := et) conf alloc elapsed test_case inputs timeout) w (λ r _,
    ∀ ec, r = Some ec → ∃ n a b, n ∈ [1; model_max_nesting conf] ∧
      counterexample n (ec_ctrace ec) a b ∧
      a ∈ me_input <$> measurements ec ∧ b ∈ me_input <$> measurements ec).
Proof. apply round_reports. Qed.

Lemma measurements_of_class n c inputs m :
  m ∈ with_key me_ctrace c (pure_measurements n inputs) →
  m ∈ measurements (class_of (pure_measurements n inputs) c).
Proof. done. Qed.

(** Without an influence of the context, priming finds every class again. *)
Lemma disagree_candidate n c all_inputs :
  (∀ p i, obs p i = obs [] i) →
  disagree (analyser_permit_subsets conf) c (pure_measurements n all_inputs) →
  ∃ a b, class_candidate all_inputs (class_of (pure_measurements n all_inputs) c) a b.
Proof.
  intros Hfree [(m1 & m2 & H1 & H2 & Hn1 & Hn2 & Hne) _].
  set (ec := class_of (pure_measurements n all_inputs) c).
  assert (me_htrace m1 ∈ (htrace_map ec).*1) as Hin by (apply elem_of_htraces; by exists m1).
  apply list_elem_of_fmap in Hin as ([h g] & Hh & Hg). cbn [fst] in Hh. subst h.
  pose proof Hg as [Hgg Hgn]%elem_of_group_by.
  destruct (last g) as [m|] eqn:El; [|by apply last_None in El].
  pose proof (last_Some_elem_of _ _ El) as Hm. rewrite Hgg in Hm.
  apply list_elem_of_filter in Hm as [Hmh Hm]. apply elem_of_list_filter_bool in Hm as [_ Hm].
  apply list_elem_of_filter in Hm as [_ Hm].
  destruct (pure_measurements_elem _ _ _ Hm) as (Hmi & _ & _).
  pose proof H2 as [_ H2']%list_elem_of_filter.
  destruct (pure_measurements_elem _ _ _ H2') as (Hi2 & _ & Hh2).
  exists (me_input m), (me_input m2), (me_htrace m1), g, m, m2.
  split; [done|]. split; [done|]. split; [done|]. split; [by apply measurements_of_class|].
  split; [done|]. split; [done|]. unfold swap_differs. rewrite Hfree, <- (Hfree (take (me_input_id m2) all_inputs)), <- Hh2.
  by split.
Qed.

(** Two inputs that tell the hardware from the contract: one contract trace at
    every nesting tried, two usable hardware traces, and (with subsets
    permitted) no input of their class whose trace covers both. *)
Definition leak (a b : Input) : Prop :=
  (∀ n, n ∈ [1; model_max_nesting conf] → ctr n a = ctr n b) ∧
  obs [] a ≠ 0 ∧ obs [] b ≠ 0 ∧ obs [] a ≠ obs [] b ∧
  (analyser_permit_subsets conf = true → ∀ n x, ctr n x = ctr n a →
   Z.land (obs [] a) (obs [] x) ≠ obs [] a ∨ Z.land (obs [] b) (obs [] x) ≠ obs [] b).

Lemma leak_disagrees n inputs a b :
  (∀ p i, obs p i = obs [] i) → a ∈ inputs → b ∈ inputs → n ∈ [1; model_max_nesting conf] →
  leak a b → disagree (analyser_permit_subsets conf) (ctr n a) (pure_measurements n inputs).
Proof.
  intros Hfree Ha Hb Hn (Hc & Ha0 & Hb0 & Hne & Hcov).
  apply list_elem_of_lookup in Ha as (i & Hi). apply list_elem_of_lookup in Hb as (j & Hj).
  pose proof (pure_measurements_in n inputs i a Hi) as Hma.
  pose proof (pure_measurements_in n inputs j b Hj) as Hmb.
  rewrite Hfree in Hma, Hmb.
  assert (∀ k x, mkMeasurement k x (ctr n x) (obs [] x) ∈ pure_measurements n inputs →
            ctr n x = ctr n a → mkMeasurement k x (ctr n x) (obs [] x)
            ∈ with_key me_ctrace (ctr n a) (pure_measurements n inputs)) as Hk.
  { intros k x Hx Hcx. by apply list_elem_of_filter. }
  pose proof (Hk _ _ Hma eq_refl) as Ka. pose proof (Hk _ _ Hmb (eq_sym (Hc n Hn))) as Kb.
  split; [eexists _, _; split; [exact Ka|]; split; [exact Kb|]; done|].
  intros Hp m Hm Hm0. apply list_elem_of_filter in Hm as [Hmc Hm].
  destruct (pure_measurements_elem _ _ _ Hm) as (_ & Hmc' & Hmh).
  rewrite Hfree in Hmh. rewrite Hmc' in Hmc.
  destruct (Hcov Hp n (me_input m) Hmc) as [Hx|Hx];
    [exists (mkMeasurement i a (ctr n a) (obs [] a))|exists (mkMeasurement j b (ctr n b) (obs [] b))];
    rewrite Hmh; done.
Qed.

(** A leak among the inputs is found. *)
Lemma round_finds inputs a b (w : fw) :
  boostable conf inputs → all_idle w → (∀ p i, obs p i = obs [] i) →
  a ∈ inputs → b ∈ inputs → leak a b →
  runs (fuzzing_round (tc := tc) (et := et) conf alloc elapsed test_case inputs 0) w
    (λ r _, is_Some r).
Proof.
  intros Hb Hidle Hfree Ha Hbi Hleak. unfold fuzzing_round. apply runs_bind, fuzz_load_runs; [done|]. intros w1 Hw1.
  apply runs_bind. eapply runs_mono; [apply (nesting_loop_runs inputs (λ r,
    ∃ vs b n, r = Some (vs, b) ∧ vs ≠ [] ∧ inputs_ok b ∧ found_in n b vs)); [done|done| |done]|].
  { intros n more vs Hn Hall Hf. assert (vs ≠ []) as Hvs.
    { intros ->. apply (elem_of_nil (class_of (pure_measurements n (inputs ++ more)) (ctr n a))).
      apply Hf. eexists. split; [done|].
      apply (leak_disagrees _ _ a b); try done; apply elem_of_app; by left. }
    rewrite bool_decide_false by done. by exists vs, (inputs ++ more), n. }
  intros r w2 Hw2 (vs & inputs' & n & -> & Hne & Hall & Hf). destruct (no_priming conf).
  { apply runs_bind. destruct (last vs) as [v|] eqn:El; [|by apply last_None in El].
    eapply runs_lift; [done|done|]. by apply runs_ret. }
  apply runs_bind, runs_count_priming; [done|]. intros w3 Hw3.
  eapply runs_mono; [apply (priming_loop_runs n); [done|done|]|].
  { apply Forall_forall. intros ec (c & -> & _)%elem_of_rev%Hf. by exists c. }
  intros [ec|] w4 _ Hr; [done|]. destruct Hr as [|Hr]; [done|]. exfalso.
  destruct vs as [|v vs]; [done|]. assert (v ∈ v :: vs) as Hv by left.
  pose proof Hv as (c & -> & Hd)%Hf. destruct (disagree_candidate _ _ _ Hfree Hd) as (x & y & Hxy).
  by apply (Hr _ x y (proj2 (elem_of_rev _ _) Hv)).
Qed.

(** C5: completeness of a fuzzing round.  On hardware whose traces do not depend
    on the context, a round without a timeout reports a class whenever two of
    the inputs it is given form a leak; boosting and priming lose nothing. *)
Theorem fuzzing_round_complete inputs a b (w : fw) :
  boostable conf inputs → all_idle w → (∀ p i, obs p i = obs [] i) →
  a ∈ inputs → b ∈ inputs → leak a b →
  runs (fuzzing_round (tc := tc) (et := et) conf alloc elapsed test_case inputs 0) w
    (λ r _, is_Some r).
Proof. apply round_finds. Qed.
End round.

(** ** The outer loop *)

Section start.
Context {tc et mdl exe cov : Type}.
Context `{!ContractModel tc et mdl, !HardwareExecutor tc exe, !Coverage tc et cov}.
Context (conf : fuzz_conf) (alloc : nat → nat → nat → Z) (elapsed : nat → Z).
Context (create_test_case : nat → result tc) (next_inputs : nat → result (list Input)).

Lemma F_bind_Ok {A B} (m : F (mdl := mdl) (exe := exe) (cov := cov) A) (f : A → F B) w r :
  (m ≫= f) w = Ok r → ∃ a w1, m w = Ok (a, w1) ∧ f a w1 = Ok r.
Proof. unfold mbind, F_bind. destruct (m w) as [[a w1]|] eqn:E; [|done]. cbn. eauto. Qed.

Lemma timed_out_zero (w : fworld (mdl := mdl) (exe := exe) (cov := cov)) b w' :
  timed_out elapsed 0 w = Ok (b, w') → b = false.
Proof. by intros [= <- _]. Qed.

Lemma start_loop_counts todo : ∀ i timeout nonstop t0 v0 w t v w',
  start_loop (tc := tc) (et := et) conf alloc elapsed create_test_case next_inputs todo i timeout
    nonstop t0 v0 w = Ok (t, v, w') →
  t0 ≤ t ≤ t0 + Z.of_nat todo ∧ (todo ≠ 0%nat → t0 < t) ∧ v0 ≤ v ≤ v0 + (t - t0) ∧
  (nonstop = false → v ≤ v0 + 1) ∧
  (t < t0 + Z.of_nat todo →
   (nonstop = false ∧ v = v0 + 1) ∨ timeout ≠ 0 ∨ existing_input_case conf = true).
Proof.
  induction todo as [|todo IH]; intros i timeout nonstop t0 v0 w t v w' H; cbn [start_loop] in H.
  { injection H as <- <- <-. cbn. repeat split; try lia; done. }
  apply F_bind_Ok in H as (test_case & w1 & _ & H). apply F_bind_Ok in H as (inputs & w2 & _ & H).
  apply F_bind_Ok in H as (violation & w3 & _ & H). cbv zeta in H.
  destruct (bool_decide (is_Some violation) && negb nonstop) eqn:Estop.
  { injection H as <- <- <-.
    apply andb_true_iff in Estop as [[ec ->]%bool_decide_eq_true Hns%negb_true_iff]. subst.
    repeat split; try lia. }
  apply F_bind_Ok in H as (late & w4 & Hlate & H).
  assert (∃ d, match violation with Some _ => v0 + 1 | None => v0 end = v0 + d ∧
               (d = 0 ∨ d = 1 ∧ nonstop = true)) as (d & Ed & Hd).
  { destruct violation; [exists 1|exists 0]; (split; [lia|]); [|by left].
    right. split; [done|]. by destruct nonstop. }
  rewrite Ed in H. assert (0 ≤ d ≤ 1) by (destruct Hd as [|[? _]]; lia).
  destruct (late || existing_input_case conf) eqn:Eend.
  { injection H as <- <- <-. repeat split; try lia.
    intros _. right. apply orb_true_iff in Eend as [->|]; [left|by right].
    intros ->. by apply timed_out_zero in Hlate. }
  destruct (IH _ _ _ _ _ _ _ _ _ H) as (H1 & _ & H3 & H4 & H5).
  repeat split; try lia.
  - destruct Hd as [|[? ->]]; [|done]. intros Hns. specialize (H4 Hns). lia.
  - intros Hlt. destruct (H5 ltac:(lia)) as [[? ?]|]; [left|by right].
    split; [done|]. destruct Hd as [|[? ->]]; [lia|done].
Qed.

(** the outer loop runs at least one and at most the requested number of
    test cases; without [nonstop] it stops at the first violation; and it
    stops early only for a violation, a timeout or a fixed input. *)
Theorem start_counts num_test_cases timeout nonstop w t v w' :
  start (tc := tc) (et := et) conf alloc elapsed create_test_case next_inputs num_test_cases timeout
    nonstop w = Ok (t, v, w') →
  1 ≤ t ≤ num_test_cases ∧ 0 ≤ v ≤ t ∧ (nonstop = false → v ≤ 1) ∧
  (t < num_test_cases →
   (nonstop = false ∧ v = 1) ∨ timeout ≠ 0 ∨ existing_input_case conf = true).
Proof.
  unfold start. destruct (Z.leb_spec num_test_cases 0); [done|]. intros H'.
  destruct (start_loop_counts _ _ _ _ _ _ _ _ _ _ H') as (H1 & H2 & H3 & H4 & H5).
  rewrite Z2Nat.id in * by lia. specialize (H2 ltac:(lia)).
  split; [lia|]. split; [lia|]. split; [intros; by apply H4|]. intros. by apply H5.
Qed.
End start.

(** ** A small instance

    Every input has the contract trace 0 and shows its first word in hardware. *)
Module Demo.
Definition layout : regions := mkRegions 8 0 8.
Definition ctr (n : Z) (i : Input) : Z := 0.
Definition obs (p : list Input) (i : Input) : Z := default 0 (in_words i !! 0%nat).

#[global] Instance toy_model : ContractModel unit unit unit := {|
  model_load _ _ := Ok tt;
  model_trace inputs n _ := Ok (ctr n <$> inputs, [], tt);
  model_taints inputs n _ :=
    Ok (replicate (length inputs) (replicate (taint_size layout) true), [], tt) |}.
#[global] Instance toy_executor : HardwareExecutor unit unit := {|
  exec_load _ _ := Ok tt;
  exec_trace inputs _ := Ok (trace_of obs inputs, tt);
  exec_start_priming e := e; exec_stop_priming e := e; exec_bugged _ := false |}.

Definition anything {A} (x : A) : Prop := True.

#[global] Instance toy_contract_laws :
  ContractLaws (tc := unit) (et := unit) (mdl := unit) layout tt anything anything ctr.
Proof.
  constructor; try (by intros; eexists).
  - intros. by eexists _, _.
  - intros. eexists _, _, _. split; [reflexivity|]. rewrite length_replicate. do 2 (split; [done|]).
    apply Forall_replicate. by rewrite length_replicate.
Qed.
#[global] Instance toy_hardware_laws :
  HardwareLaws (tc := unit) (exe := unit) layout tt anything anything obs.
Proof. constructor; try done; by intros; eexists. Qed.

Definition conf : fuzz_conf := mkFuzzConf 2 1 false false ["seq"] false false 3 layout.
Definition start_world : fworld := mkFWorld tt tt tt (mkStat 0 0) 0 0 0 0.
Definition word_input (v : Z) : Input := mkInput (replicate (aligned_size layout) v) 1.

Lemma inputs_boostable : boostable conf [word_input 1; word_input 2].
Proof.
  split; [vm_compute; discriminate|]. split; [unfold padded; vm_compute; lia|]. split; [done|].
  repeat (constructor; [split; [vm_compute; reflexivity|apply Forall_replicate; lia]|]). constructor.
Qed.
End Demo.

Lemma fuzzing_round_sound_witness :
  runs (cov := unit) Demo.anything Demo.anything (fuzzing_round (tc := unit) (et := unit) Demo.conf (λ _ _ _, 0) (λ _, 0) tt
          [Demo.word_input 1; Demo.word_input 2] 0) Demo.start_world (λ r _,
    ∀ ec, r = Some ec → ∃ n a b, n ∈ [1; model_max_nesting Demo.conf] ∧
      counterexample Demo.ctr Demo.obs n (ec_ctrace ec) a b ∧
      a ∈ me_input <$> measurements ec ∧ b ∈ me_input <$> measurements ec).
Proof.
  apply (fuzzing_round_sound Demo.conf (λ _ _ _, 0) (λ _, 0) tt Demo.ctr Demo.obs Demo.anything Demo.anything
           Demo.anything Demo.anything);
    [reflexivity|discriminate|apply Demo.inputs_boostable|reflexivity|split; exact I].
Defined.

Lemma fuzzing_round_complete_witness :
  runs (cov := unit) Demo.anything Demo.anything (fuzzing_round (tc := unit) (et := unit) Demo.conf (λ _ _ _, 0) (λ _, 0) tt
          [Demo.word_input 1; Demo.word_input 2] 0) Demo.start_world (λ r _, is_Some r).
Proof.
  apply (fuzzing_round_complete Demo.conf (λ _ _ _, 0) (λ _, 0) tt Demo.ctr Demo.obs Demo.anything Demo.anything
           Demo.anything Demo.anything) with (a := Demo.word_input 1) (b := Demo.word_input 2);
    [reflexivity|discriminate|apply Demo.inputs_boostable|split; exact I|reflexivity|by left|by right; left|].
  split; [reflexivity|]. split; [discriminate|]. split; [discriminate|]. split; [discriminate|discriminate].
Defined.

Lemma start_counts_witness :
  ∃ t v w', start (tc := unit) (et := unit) Demo.conf (λ _ _ _, 0) (λ _, 0) (λ _, Ok tt)
      (λ _, Ok [Demo.word_input 1; Demo.word_input 2]) 3 0 false Demo.start_world = Ok (t, v, w') ∧
    1 ≤ t ≤ 3 ∧ 0 ≤ v ≤ t ∧ (false = false → v ≤ 1) ∧
    (t < 3 → (false = false ∧ v = 1) ∨ 0 ≠ 0 ∨ existing_input_case Demo.conf = true).
Proof.
  eexists _, _, _. split; [vm_compute; reflexivity|].
  eapply (start_counts (tc := unit) (et := unit) Demo.conf (λ _ _ _, 0) (λ _, 0) (λ _, Ok tt)
    (λ _, Ok [Demo.word_input 1; Demo.word_input 2]) 3 0 false Demo.start_world).
  vm_compute. reflexivity.
Defined.
