(* ===== verification/Postprocessor.v ===== *)
(** * Postprocessing: minimising a violating test case

    [Postprocessor] of [src/src/postprocessor.py]: the check that a test case
    still violates, the probing loop shared by minimisation and fencing, the
    choice of a primer ([Fuzzer.build_batch_primer] in [src/src/fuzzer.py]) and
    the minimisation of the inputs.  Parsing a program text is the interface
    [Generator.parse_existing_test_case]: a parameter. *)

From S2P Require Import Prelude Isa Input Util Text Analyser Fuzzer.

Open Scope Z_scope.

(** Lines the probing loop preserves: sandboxing, fences, labels, blanks. *)
Definition preserved (line : string) : bool :=
  bool_decide (line = "") || str_in "instrumentation" line || str_in "LFENCE" line ||
  startswith "." line.

Definition header : string := ".test_case_enter:".

(** The two modifiers. *)
Definition skip_instruction (instructions : list string) (i : Z) : list string :=
  py_upto instructions i ++ py_from instructions (i + 1).
Definition lfence_line : string := "LFENCE" +:+ String (ascii_of_nat 10) "".
Definition push_fence (instructions : list string) (i : Z) : list string :=
  py_upto instructions i ++ [lfence_line] ++ py_from instructions i.

Section post.
Context {tc et mdl exe cov : Type}.
Context `{!ContractModel tc et mdl, !HardwareExecutor tc exe, !Coverage tc et cov}.
Context (conf : fuzz_conf) (parse_existing_test_case : list string → result tc).

Abbreviation FM := (F (mdl := mdl) (exe := exe) (cov := cov)).

(** [_get_all_violations]: with priming enabled, [survives_priming] is called
    without its [timeout] argument. *)
Definition _get_all_violations (test_case : tc) (inputs : list Input) : FM (list EquivalenceClass) :=
  on_model (λ m, m ← model_load test_case m; Ok (tt, m));;
  on_exec (λ e, e ← exec_load test_case e; Ok (tt, e));;
  ctraces ← trace_model (tc := tc) (et := et) inputs (model_max_nesting conf);
  htraces ← on_exec (exec_trace inputs);
  violations ← on_cov (filter_violations (tc := tc) (et := et) (analyser_permit_subsets conf)
                         inputs ctraces htraces true);
  if bool_decide (violations = []) then mret []
  else if no_priming conf then mret violations
  else fraise TypeError.

(** Parse the modified text and look for violations. *)
Definition still_violates (instructions : list string) (inputs : list Input) : FM bool :=
  test_case ← flift (parse_existing_test_case instructions);
  violations ← _get_all_violations test_case inputs;
  mret (negb (bool_decide (violations = []))).

(** The loop of [_probe_test_case], from the end of the text up to the header. *)
Fixpoint probe_loop (modifier : list string → Z → list string) (inputs : list Input) (fuel : nat)
    (instructions : list string) (cursor : Z) : FM (list string) :=
  match fuel with
  | O => fraise OutOfFuel
  | S fuel =>
      let cursor := cursor - 1 in
      raw ← flift (py_index instructions cursor);
      let line := strip raw in
      if bool_decide (line = header) then mret instructions
      else if preserved line then probe_loop modifier inputs fuel instructions cursor
      else
        let tmp_instructions := modifier instructions cursor in
        found ← still_violates tmp_instructions inputs;
        probe_loop modifier inputs fuel (if found : bool then tmp_instructions else instructions) cursor
  end.

Definition _probe_test_case (fuel : nat) (instructions : list string) (inputs : list Input)
    (modifier : list string → Z → list string) : FM (list string) :=
  instructions ← probe_loop modifier inputs fuel instructions (Z.of_nat (length instructions));
  _ ← flift (parse_existing_test_case instructions);
  mret instructions.

Definition minimize_test_case (fuel : nat) (instructions : list string) (inputs : list Input)
    : FM (list string) := _probe_test_case fuel instructions inputs skip_instruction.
Definition add_fences (fuel : nat) (instructions : list string) (inputs : list Input)
    : FM (list string) := _probe_test_case fuel instructions inputs push_fence.

(** ** Primers *)

(** The size [build_batch_primer] tries after [primer_size] failed; [None] when
    it gives up. *)
Definition next_primer_size (max_primer_size : Z) (n_inputs target_input_id primer_size : Z) : option Z :=
  let new_size := primer_size * 2 in
  let primer_size :=
    if (target_input_id <? new_size) && (primer_size <? target_input_id)
    then target_input_id else new_size in
  if max_primer_size <? primer_size then None
  else if n_inputs <=? primer_size then None
  else Some primer_size.

Definition first_primer_size (min_primer_size n_inputs : Z) : Z := min_primer_size mod n_inputs + 1.

(** [inputs[target - size:target + 1]], wrapping around the end of the list. *)
Definition primer_of (inputs : list Input) (target_input_id primer_size : Z) : list Input :=
  if primer_size <=? target_input_id
  then take (Z.to_nat (primer_size + 1)) (drop (Z.to_nat (target_input_id - primer_size)) inputs)
  else py_from inputs (target_input_id - primer_size) ++ py_upto inputs (target_input_id + 1).

(** [build_batch_primer]: the two assertions on the primer, then
    [primer_is_effective], which takes seven arguments and is given three. *)
Definition build_batch_primer (min_primer_size : Z) (inputs : list Input) (target_input_id : Z)
    : result (list Input) :=
  if bool_decide (inputs = []) then Raise ZeroDivisionError
  else
    let primer_size := first_primer_size min_primer_size (Z.of_nat (length inputs)) in
    let primer := primer_of inputs target_input_id primer_size in
    assert_ (Z.of_nat (length primer) =? primer_size + 1) AssertionError;;
    l ← from_option IndexError (last primer);
    target ← py_index inputs target_input_id;
    assert_ (in_seed l =? in_seed target) AssertionError;;
    Raise TypeError.

(** ** [minimize_inputs] and [minimize] *)

Definition primer_for (min_primer_size : Z) (inputs : list Input) (measurement : Measurement)
    (min_inputs : list Input) : result (list Input) :=
  primer ← build_batch_primer min_primer_size inputs (Z.of_nat (me_input_id measurement));
  Ok (min_inputs ++ primer).
Definition minimize_inputs (min_primer_size : Z) (test_case : tc) (inputs : list Input)
    (violations : list EquivalenceClass) : FM (list Input) :=
  min_inputs ← flift (for_each (λ violation, for_each (primer_for min_primer_size inputs) (measurements violation))
                        violations []);
  violations ← _get_all_violations test_case min_inputs;
  if bool_decide (violations = []) || (length inputs <? length min_inputs)%nat
  then mret inputs else mret min_inputs.

(** The input generator: reading saved inputs, and [generate(seed, count)]. *)
Context (parse_existing_input : string → result (list Input)) (generate : Z → Z → result (list Input)).

(** What numpy finds in the memory of an allocation. *)
Context (alloc : nat → nat → nat → Z).

(** How [minimize] ends: without a pair of files, without the violation, or with the
    text that is stored. *)
Inductive minimized := WrongInputcase | NotReproduced | Stored (text : list string).

(** The inputs: the two saved sequences of a violation as they are, else the saved or
    generated inputs with their boosted ones.  [inputcase] may be empty. *)
Definition reproducing_inputs (ipc : bool) (seed : Z) (test_case : tc) (inputcase : string) (num_inputs : Z)
    : FM (option (list Input)) :=
  if ipc && negb (inputcase =? "")%string then
    match split "," inputcase with
    | [reference; primer] =>
        references ← flift (parse_existing_input reference);
        primers ← flift (parse_existing_input primer);
        mret (Some (references ++ primers))
    | _ => mret None
    end
  else
    inputs ← flift (if negb (inputcase =? "")%string then parse_existing_input inputcase
                    else generate seed num_inputs);
    on_model (λ m, m ← model_load test_case m; Ok (tt, m));;
    boosted_inputs ← boost_inputs (tc := tc) (et := et) conf alloc inputs (model_max_nesting conf);
    mret (Some boosted_inputs).

Definition minimize (fuel : nat) (ipc : bool) (seed : Z) (instructions : list string) (inputcase : string)
    (num_inputs : Z) (fences : bool) : FM minimized :=
  test_case ← flift (parse_existing_test_case instructions);
  boosted_inputs ← reproducing_inputs ipc seed test_case inputcase num_inputs;
  match boosted_inputs with
  | None => mret WrongInputcase
  | Some boosted_inputs =>
      violations ← _get_all_violations test_case boosted_inputs;
      if bool_decide (violations = []) then mret NotReproduced
      else
        min_test_case ← minimize_test_case fuel instructions boosted_inputs;
        min_test_case ← (if fences then add_fences fuel min_test_case boosted_inputs
                         else mret min_test_case);
        mret (Stored min_test_case)
  end.
End post.
