(* ===== verification/PostFacts.v ===== *)
(** * Properties of the minimisation of test cases *)

From S2P Require Import Prelude Isa Input InputFacts Util Text Analyser Fuzzer FuzzerFacts Postprocessor.

Open Scope Z_scope.

(** ** What the modifiers do to a text *)

(** What a modifier does to the line [x] at the cursor and the lines [suf] after it. *)
Definition drop_line (x : string) (suf : list string) : list string := suf.
Definition fence_line (x : string) (suf : list string) : list string := lfence_line :: x :: suf.

Definition edits (modifier : list string → Z → list string) (edit : string → list string → list string) : Prop :=
  ∀ l x k, modifier (l ++ x :: k) (Z.of_nat (length l)) = l ++ edit x k.

Lemma skip_instruction_edits : edits skip_instruction drop_line.
Proof.
  intros l x k. unfold skip_instruction. rewrite py_upto_nonneg, py_from_nonneg by lia.
  replace (Z.to_nat (Z.of_nat (length l) + 1)) with (length l + 1)%nat by lia.
  rewrite Nat2Z.id, take_app_length, <- drop_drop, drop_app_length. done.
Qed.
Lemma push_fence_edits : edits push_fence fence_line.
Proof.
  intros l x k. unfold push_fence. rewrite py_upto_nonneg, py_from_nonneg by lia.
  by rewrite Nat2Z.id, take_app_length, drop_app_length.
Qed.

Lemma py_index_app {A} (l : list A) x k : py_index (l ++ x :: k) (Z.of_nat (length l)) = Ok x.
Proof.
  unfold py_index, py_pos. rewrite length_app. cbn [length].
  destruct (Z.ltb_spec (Z.of_nat (length l)) 0); [lia|].
  rewrite (proj2 (Z.leb_le _ _)), (proj2 (Z.ltb_lt _ _)) by lia. cbn.
  rewrite Nat2Z.id, list_lookup_middle; done.
Qed.

(** The lines that are never removed, and the lines that are not the fence line. *)
Definition kept (l : list string) : list string := List.filter (λ x, preserved (strip x)) l.
Definition unfenced (l : list string) : list string := List.filter (λ x, negb (x =? lfence_line)%string) l.
Lemma kept_app l k : kept (l ++ k) = kept l ++ kept k.
Proof. apply List.filter_app. Qed.
Lemma unfenced_app l k : unfenced (l ++ k) = unfenced l ++ unfenced k.
Proof. apply List.filter_app. Qed.
Lemma unfenced_sublist l : sublist (unfenced l) l.
Proof.
  unfold unfenced. induction l as [|x l IH]; cbn; [done|]. destruct (negb _); by constructor.
Qed.

(** ** The probing loop as a relation on texts *)

Section probed.
(** [says l b]: in some state the text [l] was given the verdict [b]. *)
Context (says : list string → bool → Prop) (front : list string) (edit : string → list string → list string).

(** [probed rtodo suf t]: probing the lines [rtodo] (last first) in front of [suf] can
    leave the lines [t]. *)
Inductive probed : list string → list string → list string → Prop :=
  | probed_end suf : probed [] suf suf
  | probed_preserved x r suf t : preserved (strip x) = true → probed r (x :: suf) t → probed (x :: r) suf t
  | probed_refused x r suf t : preserved (strip x) = false → says (front ++ rev r ++ edit x suf) false →
      probed r (x :: suf) t → probed (x :: r) suf t
  | probed_taken x r suf t : preserved (strip x) = false → says (front ++ rev r ++ edit x suf) true →
      probed r (edit x suf) t → probed (x :: r) suf t.

Lemma probed_says rtodo suf t :
  probed rtodo suf t → says (front ++ rev rtodo ++ suf) true → says (front ++ t) true.
Proof.
  induction 1 as [suf|x r suf t _ _ IH|x r suf t _ _ _ IH|x r suf t _ Hs _ IH]; cbn [rev]; [done| | |].
  1,2: intros H; apply IH; by rewrite <- (app_assoc (rev r)) in H.
  intros _. by apply IH.
Qed.
End probed.

(** *** Removing lines *)

Lemma removed_shape says front rtodo suf t :
  probed says front drop_line rtodo suf t →
  ∃ l, t = l ++ suf ∧ sublist l (rev rtodo) ∧ kept l = kept (rev rtodo).
Proof.
  assert (Hkeep : ∀ x r suf t, (∃ l, t = l ++ x :: suf ∧ sublist l (rev r) ∧ kept l = kept (rev r)) →
    ∃ l, t = l ++ suf ∧ sublist l (rev r ++ [x]) ∧ kept l = kept (rev r ++ [x])).
  { intros x r s ? (l & -> & Hs & Hk). exists (l ++ [x]). rewrite <- (app_assoc l), !kept_app, Hk.
    split_and!; [done| |done]. by apply sublist_app. }
  induction 1 as [suf|x r suf t _ _ IH|x r suf t _ _ _ IH|x r suf t Hx _ _ IH]; cbn [rev];
    [by exists []|by apply Hkeep|by apply Hkeep|].
  destruct IH as (l & -> & Hs & Hk). exists l. split_and!; [done|by apply sublist_inserts_r|].
  rewrite kept_app, Hk. cbn. rewrite Hx. by rewrite app_nil_r.
Qed.

(** Every removable line that is left was refused: the text with all the lines before
    it, the lines left after it, and not the line itself, did not violate. *)
Lemma removed_minimal says front rtodo suf t :
  probed says front drop_line rtodo suf t →
  ∀ pre x post, t = pre ++ x :: post → preserved (strip x) = false → (length suf ≤ length post)%nat →
  ∃ before after, rev rtodo = before ++ x :: after ∧ sublist pre before ∧ says (front ++ before ++ post) false.
Proof.
  assert (Hstep : ∀ x0 r suf t, probed says front drop_line r (x0 :: suf) t →
    (∀ pre x post, t = pre ++ x :: post → preserved (strip x) = false → (length (x0 :: suf) ≤ length post)%nat →
       ∃ before after, rev r = before ++ x :: after ∧ sublist pre before ∧ says (front ++ before ++ post) false) →
    preserved (strip x0) = true ∨ says (front ++ rev r ++ suf) false →
    ∀ pre x post, t = pre ++ x :: post → preserved (strip x) = false → (length suf ≤ length post)%nat →
      ∃ before after, rev r ++ [x0] = before ++ x :: after ∧ sublist pre before ∧ says (front ++ before ++ post) false).
  { intros x0 r suf0 t0 Hp IH Hwhy pre x post E Hx Hlen.
    destruct (decide (length (x0 :: suf0) ≤ length post)%nat) as [Hlong|Hshort].
    { destruct (IH pre x post E Hx Hlong) as (before & after & -> & Hs & Hn).
      exists before, (after ++ [x0]). by rewrite <- (app_assoc before). }
    destruct (removed_shape _ _ _ _ _ Hp) as (l & -> & Hs & _).
    apply app_inj_2 in E as [<- [= -> ->]]; [|cbn in *; lia].
    destruct Hwhy as [|Hwhy]; [congruence|]. by exists (rev r), []. }
  induction 1 as [suf|x r suf t Hx Hp IH|x r suf t Hx Hn Hp IH|x r suf t Hx Hs Hp IH]; cbn [rev].
  - intros pre x post -> _. rewrite length_app. cbn. lia.
  - eapply Hstep; [done|exact IH|by left].
  - eapply Hstep; [done|exact IH|by right].
  - intros pre y post E Hy Hlen. destruct (IH pre y post E Hy Hlen) as (before & after & -> & Hpre & Hn).
    exists before, (after ++ [x]). by rewrite <- (app_assoc before).
Qed.

(** *** Adding fences *)

Lemma fenced_shape says front rtodo suf t :
  probed says front fence_line rtodo suf t →
  ∃ l, t = l ++ suf ∧ sublist (rev rtodo) l ∧ unfenced l = unfenced (rev rtodo).
Proof.
  assert (Hmid : ∀ mid x r suf t, sublist [x] mid → unfenced mid = unfenced [x] →
    (∃ l, t = l ++ mid ++ suf ∧ sublist (rev r) l ∧ unfenced l = unfenced (rev r)) →
    ∃ l, t = l ++ suf ∧ sublist (rev r ++ [x]) l ∧ unfenced l = unfenced (rev r ++ [x])).
  { intros mid x r s ? Hs Hu (l & -> & Hl & Hk). exists (l ++ mid).
    rewrite <- (app_assoc l), !unfenced_app, Hk, Hu. split_and!; [done| |done]. by apply sublist_app. }
  induction 1 as [suf|x r suf t _ _ IH|x r suf t _ _ _ IH|x r suf t _ _ _ IH]; cbn [rev];
    [by exists []|by apply (Hmid [x])|by apply (Hmid [x])|].
  apply (Hmid [lfence_line; x]); [by constructor|reflexivity|exact IH].
Qed.

(** ** The program's loop *)

Section minimise.
Context {tc et mdl exe cov : Type}.
Context `{!ContractModel tc et mdl, !HardwareExecutor tc exe, !Coverage tc et cov}.
Context (conf : fuzz_conf) (parse_existing_test_case : list string → result tc).
Notation world := (fworld (mdl := mdl) (exe := exe) (cov := cov)).
Notation violates := (still_violates (tc := tc) (et := et) (mdl := mdl) (exe := exe) (cov := cov)
                        conf parse_existing_test_case).

(** In some state of the model, the executor and the coverage the text [l] was parsed,
    run on [inputs] and found violating or not; or the attempt raised. *)
Definition says (inputs : list Input) (l : list string) (b : bool) : Prop :=
  ∃ w w' : world, violates l inputs w = Ok (b, w').
Definition fails (inputs : list Input) (l : list string) (e : exn) : Prop :=
  ∃ w : world, violates l inputs w = Raise e.

Section inputs.
Context (inputs : list Input) (front : list string) (h : string) (Hh : strip h = header).

Section loop.
Context (modifier : list string → Z → list string) (edit : string → list string → list string).
Context (Hedit : edits modifier edit).
(** What every text given to the loop satisfies, below the header line. *)
Context (P : list string → Prop) (HP : ∀ l x k, P (l ++ x :: k) → P (l ++ edit x k)).

Lemma probe_loop_runs rtodo suf fuel w :
  Forall (λ x, strip x ≠ header) rtodo → (length rtodo < fuel)%nat → P (rev rtodo ++ suf) →
  match probe_loop (tc := tc) (et := et) conf parse_existing_test_case modifier inputs fuel
          (front ++ [h] ++ rev rtodo ++ suf) (Z.of_nat (length (front ++ [h] ++ rev rtodo))) w with
  | Ok (r, _) => ∃ t, r = (front ++ [h]) ++ t ∧ P t ∧ probed (says inputs) (front ++ [h]) edit rtodo suf t
  | Raise e => ∃ t, P t ∧ fails inputs ((front ++ [h]) ++ t) e
  end.
Proof.
  intros Hx. revert suf fuel w. induction Hx as [|x r Hx Hr IH]; intros suf [|fuel] w Hfuel Hp;
    try (cbn in Hfuel; lia); cbn [probe_loop].
  - cbn [rev app] in *. replace (Z.of_nat (length (front ++ [h])) - 1) with (Z.of_nat (length front))
      by (rewrite length_app; cbn; lia).
    unfold mbind, F_bind, flift. rewrite py_index_app. cbn. rewrite Hh, bool_decide_true by done.
    exists suf. rewrite <- (app_assoc front). split_and!; [done|done|constructor].
  - cbn [rev length] in *.
    replace (Z.of_nat (length (front ++ [h] ++ rev r ++ [x])) - 1)
      with (Z.of_nat (length (front ++ [h] ++ rev r))) by (rewrite !length_app; cbn; lia).
    assert (front ++ [h] ++ (rev r ++ [x]) ++ suf = (front ++ [h] ++ rev r) ++ x :: suf) as ->.
    { rewrite <- !(app_assoc (A := string)). done. }
    assert (Hass : ∀ k, (front ++ [h] ++ rev r) ++ k = front ++ [h] ++ rev r ++ k)
      by (intros k; by rewrite <- !(app_assoc (A := string))).
    rewrite <- (app_assoc (rev r)) in Hp. cbn [app] in Hp.
    unfold mbind at 1, F_bind at 1, flift at 1. rewrite py_index_app. cbn [mbind result_bind].
    rewrite bool_decide_false by done. destruct (preserved (strip x)) eqn:Ep.
    + rewrite Hass. specialize (IH (x :: suf) fuel w ltac:(lia) Hp).
      destruct (probe_loop _ _ _ _ _ _ _ _) as [[r' w']|]; [|done].
      destruct IH as (t & ? & ? & ?). exists t. split_and!; [done|done|by apply probed_preserved].
    + cbv zeta. rewrite !Hedit, !Hass. unfold mbind, F_bind.
      assert (Hform : front ++ [h] ++ rev r ++ edit x suf = (front ++ [h]) ++ rev r ++ edit x suf)
        by (by rewrite <- (app_assoc front)).
      destruct (violates (front ++ [h] ++ rev r ++ edit x suf) inputs w) as [[b w1]|e] eqn:Ev; cbn [mbind result_bind].
      2:{ exists (rev r ++ edit x suf). split; [by apply HP|]. exists w. by rewrite <- Hform. }
      rewrite Hform in Ev. destruct b.
      * specialize (IH (edit x suf) fuel w1 ltac:(lia) (HP _ _ _ Hp)).
        destruct (probe_loop _ _ _ _ _ _ _ _) as [[r' w']|]; [|done].
        destruct IH as (t & ? & ? & ?). exists t. split_and!; [done|done|]. apply probed_taken; [done|by eexists _, _|done].
      * specialize (IH (x :: suf) fuel w1 ltac:(lia) Hp).
        destruct (probe_loop _ _ _ _ _ _ _ _) as [[r' w']|]; [|done].
        destruct IH as (t & ? & ? & ?). exists t. split_and!; [done|done|]. apply probed_refused; [done|by eexists _, _|done].
Qed.

(** Probing, and the parse of the text that is left. *)
Lemma probe_test_case_runs body fuel w :
  Forall (λ x, strip x ≠ header) body → (length body < fuel)%nat → P body →
  match _probe_test_case (tc := tc) (et := et) conf parse_existing_test_case fuel (front ++ h :: body) inputs modifier w with
  | Ok (r, _) => ∃ t, r = front ++ h :: t ∧ probed (says inputs) (front ++ [h]) edit (rev body) [] t
  | Raise e => ∃ t, P t ∧ fails inputs (front ++ h :: t) e
  end.
Proof.
  intros Hbody Hfuel Hp. unfold _probe_test_case, mbind at 1, F_bind at 1.
  pose proof (probe_loop_runs (rev body) [] fuel w) as Hrun.
  rewrite rev_involutive, app_nil_r in Hrun. specialize (Hrun (Forall_rev Hbody)).
  rewrite length_rev in Hrun. specialize (Hrun Hfuel Hp). change (front ++ [h] ++ body) with (front ++ h :: body) in Hrun.
  assert (Hass : ∀ t, (front ++ [h]) ++ t = front ++ h :: t) by (intros t; by rewrite <- (app_assoc front)).
  destruct (probe_loop _ _ _ _ _ _ _ _) as [[r w1]|e]; cbn [mbind result_bind].
  2:{ destruct Hrun as (t & Ht & Hf). exists t. by rewrite Hass in Hf. }
  destruct Hrun as (t & -> & Ht & Hprobed). rewrite Hass. unfold mbind, F_bind, flift.
  destruct (parse_existing_test_case (front ++ h :: t)) as [?|e] eqn:Eparse; cbn; [by exists t|].
  exists t. split; [done|]. exists w1. unfold still_violates, mbind, F_bind, flift. by rewrite Eparse.
Qed.
End loop.
End inputs.

(** *** [minimize] *)

Context (parse_existing_input : string → result (list Input)) (generate : Z → Z → result (list Input)).
Context (alloc : nat → nat → nat → Z).

(** A text that violated was found with priming disabled: with priming enabled the
    first violation raises. *)
Lemma says_unprimed inputs l : says inputs l true → no_priming conf = true.
Proof.
  intros (w & w' & H). unfold still_violates in H. apply F_bind_Ok in H as (t & w1 & _ & H).
  apply F_bind_Ok in H as (violations & w2 & Hv & H). unfold _get_all_violations in Hv.
  repeat (apply F_bind_Ok in Hv as (? & ? & _ & Hv)). destruct (bool_decide _).
  - injection Hv as <- <-. by injection H.
  - by destruct (no_priming conf).
Qed.

(** What [minimize] stores for the lines [body] below the header line [h]: [body'] is
    what is left of them, [body''] the same with the fences that were added. *)
Definition minimal_text (inputs : list Input) (front : list string) (h : string) (body : list string)
    (fences : bool) (text : list string) : Prop :=
  ∃ body' body'', text = front ++ h :: body'' ∧ says inputs text true ∧
    sublist body' body ∧ kept body' = kept body ∧
    sublist body' body'' ∧ unfenced body'' = unfenced body' ∧ (fences = false → body'' = body') ∧
    (∀ pre x post, body' = pre ++ x :: post → preserved (strip x) = false →
       ∃ before after, body = before ++ x :: after ∧ sublist pre before ∧
         says inputs (front ++ h :: before ++ post) false) ∧
    ((∀ l k, sublist l k → says inputs l true → ¬ says inputs k false) →
     ∀ pre x post, body' = pre ++ x :: post → preserved (strip x) = false →
       ¬ says inputs (front ++ h :: pre ++ post) true).

Lemma minimise_runs inputs front h body fuel fences w :
  strip h = header → Forall (λ x, strip x ≠ header) body → (length body < fuel)%nat →
  says inputs (front ++ h :: body) true →
  match (min_test_case ← minimize_test_case (tc := tc) (et := et) conf parse_existing_test_case fuel
                           (front ++ h :: body) inputs;
         if fences : bool then add_fences (tc := tc) (et := et) conf parse_existing_test_case fuel min_test_case inputs
         else mret min_test_case) w with
  | Ok (r, _) => minimal_text inputs front h body fences r
  | Raise e => ∃ b, sublist (unfenced b) body ∧ fails inputs (front ++ h :: b) e
  end.
Proof.
  intros Hh Hbody Hfuel Hsays.
  pose proof (probe_test_case_runs inputs front h Hh skip_instruction drop_line skip_instruction_edits
    (λ b, sublist b body)
    (λ l x k H, transitivity (sublist_app l l k (x :: k) (reflexivity l) (sublist_cons x k k (reflexivity k))) H)
    body fuel w Hbody Hfuel (reflexivity body)) as Hrun.
  unfold mbind at 1, F_bind at 1, minimize_test_case.
  destruct (_probe_test_case _ _ _ _ _ _ _) as [[r w1]|e]; cbn [mbind result_bind].
  2:{ destruct Hrun as (t & Ht & Hf). exists t. split; [|done]. by transitivity t; [apply unfenced_sublist|]. }
  destruct Hrun as (body' & -> & Hp).
  assert (Hass : ∀ t, (front ++ [h]) ++ t = front ++ h :: t) by (intros t; by rewrite <- (app_assoc front)).
  assert (Hsays' : says inputs (front ++ h :: body') true).
  { rewrite <- Hass. eapply probed_says; [exact Hp|]. by rewrite rev_involutive, app_nil_r, Hass. }
  destruct (removed_shape _ _ _ _ _ Hp) as (l & E & Hs & Hk). rewrite app_nil_r in E. subst l.
  pose proof (removed_minimal _ _ _ _ _ Hp) as Hmin. rewrite rev_involutive in Hs, Hk, Hmin.
  assert (Hmin' : ∀ pre x post, body' = pre ++ x :: post → preserved (strip x) = false →
       ∃ before after, body = before ++ x :: after ∧ sublist pre before ∧
         says inputs (front ++ h :: before ++ post) false).
  { intros pre x post E Hx. destruct (Hmin pre x post E Hx ltac:(cbn; lia)) as (before & after & ? & ? & Hn).
    rewrite Hass in Hn. by exists before, after. }
  assert (Hmono : (∀ l k, sublist l k → says inputs l true → ¬ says inputs k false) →
     ∀ pre x post, body' = pre ++ x :: post → preserved (strip x) = false →
       ¬ says inputs (front ++ h :: pre ++ post) true).
  { intros Hmono pre x post E Hx Hyes. destruct (Hmin' pre x post E Hx) as (before & after & _ & Hpre & Hno).
    revert Hno. eapply Hmono; [|exact Hyes]. apply sublist_app; [done|]. by apply sublist_skip, sublist_app. }
  destruct fences; [|by exists body', body'].
  assert (Hbody' : Forall (λ x, strip x ≠ header) body').
  { rewrite Forall_forall in *. intros x Hx. by eapply Hbody, elem_of_sublist. }
  assert (HP : ∀ l x k, unfenced (l ++ x :: k) = unfenced body' → unfenced (l ++ fence_line x k) = unfenced body').
  { intros l x k <-. by rewrite !unfenced_app. }
  pose proof (probe_test_case_runs inputs front h Hh push_fence fence_line push_fence_edits
    (λ b, unfenced b = unfenced body') HP body' fuel w1 Hbody'
    ltac:(apply sublist_length in Hs; lia) eq_refl) as Hrun2.
  unfold add_fences. destruct (_probe_test_case _ _ _ _ _ _ _) as [[r w2]|e].
  2:{ destruct Hrun2 as (t & Ht & Hf). exists t. split; [|done]. rewrite Ht.
      transitivity body'; [apply unfenced_sublist|done]. }
  destruct Hrun2 as (body'' & -> & Hp2).
  destruct (fenced_shape _ _ _ _ _ Hp2) as (l & E & Hs2 & Hu2). rewrite app_nil_r in E. subst l.
  rewrite rev_involutive in Hs2, Hu2. exists body', body''. split_and!; try done.
  rewrite <- Hass. eapply probed_says; [exact Hp2|]. by rewrite rev_involutive, app_nil_r, Hass.
Qed.

(** C19: the minimisation of a violation, whose last header line is [h].  [minimize]
    returns unless a call it makes raises: the parse of the text, the reading or boosting
    of the inputs, or the parse and the run of the text itself or of one that was probed,
    made of the same lines up to [h] and some of the lines below, possibly with fences;
    with priming enabled the first violation raises.  With two inputs named wrongly nothing
    is done; when the text, run on the inputs that were read or boosted, does not
    violate, nothing is stored.  Otherwise the text that is stored was itself found
    violating; without its added fences it is the same front and a sublist of the other
    lines that keeps every instrumentation line, fence and label; every other line left
    was tried: the text with all the lines before it, the lines left after it, and not
    the line itself, was found not violating.  A verdict is one that was given in some
    state of the model and the executor; when moreover no text that was found violating
    has a longer one that is found not violating in any state, none of the other lines
    left can be removed without losing the violation. *)
Theorem minimize_spec front h body fuel ipc seed inputcase num_inputs fences w :
  strip h = header → Forall (λ x, strip x ≠ header) body → (length body < fuel)%nat →
  let text := front ++ h :: body in
  match minimize (tc := tc) (et := et) conf parse_existing_test_case parse_existing_input generate alloc
          fuel ipc seed text inputcase num_inputs fences w with
  | Raise e =>
      parse_existing_test_case text = Raise e ∨
      ∃ t, parse_existing_test_case text = Ok t ∧
        match reproducing_inputs (tc := tc) (et := et) conf parse_existing_input generate alloc
                ipc seed t inputcase num_inputs w with
        | Raise e' => e' = e
        | Ok (None, _) => False
        | Ok (Some inputs, _) => ∃ b, sublist (unfenced b) body ∧ fails inputs (front ++ h :: b) e
        end
  | Ok (r, _) =>
      ∃ t bi w1, parse_existing_test_case text = Ok t ∧
        reproducing_inputs (tc := tc) (et := et) conf parse_existing_input generate alloc
          ipc seed t inputcase num_inputs w = Ok (bi, w1) ∧
        match bi, r with
        | None, WrongInputcase => True
        | Some inputs, NotReproduced => says inputs text false
        | Some inputs, Stored text' =>
            no_priming conf = true ∧ says inputs text true ∧ minimal_text inputs front h body fences text'
        | _, _ => False
        end
  end.
Proof.
  intros Hh Hbody Hfuel text. unfold minimize, mbind at 1, F_bind at 1, flift at 1.
  destruct (parse_existing_test_case text) as [t|e] eqn:Et; cbn [mbind result_bind]; [|by left].
  unfold mbind at 1, F_bind at 1.
  destruct (reproducing_inputs _ _ _ _ _ _ _ _ _ _) as [[[inputs|] w1]|e] eqn:Ei; cbn [mbind result_bind].
  2:{ by exists t, None, w1. }
  2:{ right. exists t. split; [done|]. by rewrite Ei. }
  assert (Hviolates : violates text inputs w1 =
    '(v, w2) ← _get_all_violations (tc := tc) (et := et) conf t inputs w1; Ok (negb (bool_decide (v = [])), w2)).
  { unfold still_violates, mbind, F_bind, flift. rewrite Et. cbn.
    destruct (_get_all_violations _ _ _ _) as [[]|]; reflexivity. }
  unfold mbind at 1, F_bind at 1.
  destruct (_get_all_violations _ _ _ _) as [[violations w2]|e]; cbn [mbind result_bind] in *.
  2:{ right. exists t. split; [done|]. rewrite Ei. exists body. split; [apply unfenced_sublist|by exists w1]. }
  destruct (bool_decide (violations = [])).
  { exists t, (Some inputs), w1. split_and!; [done|done|by eexists _, _]. }
  assert (Hsays : says inputs text true) by (by eexists _, _).
  pose proof (minimise_runs inputs front h body fuel fences w2 Hh Hbody Hfuel Hsays) as Hrun.
  fold text in Hrun. unfold mbind at 1, F_bind at 1. unfold mbind at 1, F_bind at 1 in Hrun.
  destruct (minimize_test_case _ _ _ _ _ _) as [[m w3]|e]; cbn [mbind result_bind] in *.
  2:{ right. exists t. split; [done|]. by rewrite Ei. }
  unfold mbind at 1, F_bind at 1.
  match type of Hrun with match ?c with _ => _ end =>
    destruct c as [[m' w4]|e] end; cbn [mbind result_bind].
  2:{ right. exists t. split; [done|]. by rewrite Ei. }
  exists t, (Some inputs), w1. split_and!; [done|done|by eapply says_unprimed|done|done].
Qed.
End minimise.

(** ** A program in which one line leaks *)
Module PostDemo.
Definition leaks (l : list string) : bool := mem "leak" l.
Definition inputs : list Input := [mkInput [1] 1; mkInput [2] 2].
Definition saved (name : string) : result (list Input) :=
  Ok [if (name =? "a")%string then mkInput [1] 1 else mkInput [2] 2].
(** The parser needs the header line. *)
Definition parse (l : list string) : result (list string) :=
  if mem ".test_case_enter:" l then Ok l else Raise ValueError.

#[global] Instance line_model : ContractModel (list string) unit unit := {|
  model_load _ _ := Ok tt;
  model_trace inputs n _ := Ok ((λ _, 0) <$> inputs, [], tt);
  model_taints inputs n _ := Ok ((λ _, []) <$> inputs, [], tt) |}.
(** The executor remembers the program it was given. *)
#[global] Instance line_executor : HardwareExecutor (list string) (list string) := {|
  exec_load t _ := Ok t;
  exec_trace inputs t :=
    Ok ((λ i, if leaks t then default 0 (in_words i !! 0%nat) else 5) <$> inputs, t);
  exec_start_priming e := e; exec_stop_priming e := e; exec_bugged _ := false |}.

Definition conf : fuzz_conf := mkFuzzConf 2 1 true false ["seq"] false false 3 default_regions.
Definition start_world : fworld (mdl := unit) (exe := list string) (cov := unit) :=
  mkFWorld tt [] tt (mkStat 0 0) 0 0 0 0.
Definition lines : list string := ["nop"; "leak"; "LFENCE"; "add"].
Definition run (fences : bool) (text : list string) :=
  minimize (tc := list string) (et := unit) conf parse saved (λ _ _, Raise ValueError) (λ _ _ _, 0)
    9 true 5 text "a,b" 2 fences start_world.
#[global] Strategy expand [run].

Example removes_two_lines : fst <$> run false (["start"] ++ ".test_case_enter:" :: lines)
  = Ok (Stored ["start"; ".test_case_enter:"; "leak"; "LFENCE"]).
Proof. vm_compute. reflexivity. Qed.
Example needs_the_leak : fst <$> run false ["start"; ".test_case_enter:"; "nop"] = Ok NotReproduced.
Proof. vm_compute. reflexivity. Qed.
Example needs_the_header : run false lines = Raise ValueError.
Proof. vm_compute. reflexivity. Qed.

(** In this program the verdict is a function of the text. *)
Lemma verdict_runs l (w : fworld (mdl := unit) (exe := list string) (cov := unit)) : parse l = Ok l →
  returns (still_violates (tc := list string) (et := unit) conf parse l inputs) w (λ b _, b = leaks l).
Proof.
  intros Hl. unfold returns. destruct (leaks l) eqn:E; eexists _, _; (split; [|reflexivity]);
    unfold still_violates, _get_all_violations, trace_model, on_model, on_exec, on_cov, flift, mbind, F_bind, mret, F_ret;
    rewrite Hl; cbn -[leaks filter_violations mem]; rewrite E; vm_compute; reflexivity.
Qed.
Lemma verdict l b : says (tc := list string) (et := unit) (cov := unit) conf parse inputs l b → b = leaks l.
Proof.
  intros (w & w' & H). destruct (parse l) as [l'|e] eqn:Hl.
  - assert (l' = l) as -> by (revert Hl; unfold parse; destruct (mem _ l); by intros [=]).
    destruct (verdict_runs l w Hl) as (b' & w'' & H' & <-). rewrite H in H'. by injection H' as -> _.
  - unfold still_violates, mbind, F_bind, flift in H. by rewrite Hl in H.
Qed.
End PostDemo.

Lemma minimize_spec_witness :
  let text := ["start"] ++ ".test_case_enter:" :: PostDemo.lines in
  ∃ body' w', PostDemo.run false text = Ok (Stored (["start"] ++ ".test_case_enter:" :: body'), w') ∧
    sublist body' PostDemo.lines ∧
    ∀ pre x post, body' = pre ++ x :: post → preserved (strip x) = false →
      ¬ says (tc := list string) (et := unit) (cov := unit) PostDemo.conf PostDemo.parse PostDemo.inputs
          (["start"] ++ ".test_case_enter:" :: pre ++ post) true.
Proof.
  intros text. unfold PostDemo.run.
  pose proof (minimize_spec (tc := list string) (et := unit) PostDemo.conf PostDemo.parse
    PostDemo.saved (λ _ _, Raise ValueError) (λ _ _ _, 0) ["start"] ".test_case_enter:" PostDemo.lines
    9 true 5 "a,b" 2 false PostDemo.start_world eq_refl
    ltac:(repeat constructor; discriminate) ltac:(cbn; lia)) as H.
  cbv zeta in H. subst text. pose proof PostDemo.removes_two_lines as Hrun. unfold PostDemo.run in Hrun.
  match type of H with match ?m with _ => _ end => destruct m as [[r w']|]; [|discriminate Hrun] end.
  injection Hrun as ->.
  destruct H as (t & bi & w1 & _ & Hi & H). vm_compute in Hi. injection Hi as <- _.
  destruct H as (_ & _ & body' & body'' & E & _ & Hs & _ & _ & _ & Hno & _ & Hmono).
  rewrite (Hno eq_refl) in E. exists body', w'. split; [by rewrite E|]. split; [done|]. apply Hmono.
  intros l k Hlk Hl Hk. apply PostDemo.verdict in Hl, Hk. symmetry in Hl, Hk.
  unfold PostDemo.leaks, mem in Hl, Hk. rewrite bool_decide_eq_true in Hl.
  rewrite bool_decide_eq_false in Hk. by apply Hk; eapply elem_of_sublist.
Defined.
