(* ===== verification/Coverage.v ===== *)
(** * Coverage of dependent instruction pairs

    [DependentPairCoverage] of [src/src/coverage.py]: which pairs of executed
    instructions had a data or control dependency.  Python's [hash] of a string
    is a parameter.  The class implements the [Coverage] interface of
    [Analyser]. *)

From S2P Require Import Prelude Isa Input BasicBlock Generator Passes Uc Dataflow Model Util Analyser.

Open Scope Z_scope.

(** Dependency types, with the source's values. *)
Inductive DT := REG_GPR | REG_FLAGS | MEM_LL | MEM_LS | MEM_SL | MEM_SS | CONTROL_DIRECT | CONTROL_COND.

#[export] Instance DT_eq_dec : EqDecision DT.
Proof. solve_decision. Defined.

Definition all_DT : list DT :=
  [REG_GPR; REG_FLAGS; MEM_LL; MEM_LS; MEM_SL; MEM_SS; CONTROL_DIRECT; CONTROL_COND].

Record DependentPairCoverage := mkCoverage {
  coverage : list (DT * gset Z);
  max_coverage : list (DT * Z);
  execution_traces : list ExecutionTrace;
  cov_test_case : option TestCase;
  stat_coverage : Z
}.

(** [str(op.type)] *)
Definition OT_str (t : OT) : string :=
  match t with
  | REG => "REG" | MEM => "MEM" | IMM => "IMM" | LABEL => "LABEL" | AGEN => "AGEN"
  | FLAGS => "FLAGS" | COND => "COND"
  end.

Definition _get_instruction_key (instruction : Instruction) : string :=
  fold_left (λ key op, key +:+ "-" +:+ str (op_width op) +:+ OT_str (op_type op))
    (i_operands instruction ++ i_implicit_operands instruction) (i_name instruction).

(** ** Dependencies between two executed instructions *)

Definition addresses_where (p : TracedMemAccess → bool) (i : TracedInstruction) : list Z :=
  m_address <$> select p (accesses i).

Definition any_in (l k : list Z) : bool := existsb (λ x, mem x k) l.

(** The lists of the second instruction are filled the other way round. *)
Definition _search_memory_dependency (traced_instr1 traced_instr2 : TracedInstruction) : list DT :=
  let read_addresses1 := addresses_where (λ a, negb (m_is_store a)) traced_instr1 in
  let write_addresses1 := addresses_where m_is_store traced_instr1 in
  let read_addresses2 := addresses_where m_is_store traced_instr2 in
  let write_addresses2 := addresses_where (λ a, negb (m_is_store a)) traced_instr2 in
  (if any_in read_addresses1 read_addresses2 then [MEM_LL] else []) ++
  (if any_in read_addresses1 write_addresses2 then [MEM_LS] else []) ++
  (if any_in write_addresses1 read_addresses2 then [MEM_SL] else []) ++
  (if any_in write_addresses1 write_addresses2 then [MEM_SS] else []).

Definition normalized (l : list string) : result (list string) :=
  mapM (λ r, from_option KeyError (gpr_normalized !! r)) l.

Definition _search_reg_dependency (inst1 inst2 : Instruction) : result bool :=
  dest_regs ← normalized (op_value <$> select is_reg (get_dest_operands inst1 true));
  src_regs ← normalized (op_value <$> select is_reg (get_src_operands inst2 true));
  if existsb (λ r, mem r src_regs) dest_regs then Ok true
  else
    let mem_operands := op_value <$> get_mem_operands inst2 in
    Ok (existsb (λ r, existsb (str_in r) mem_operands) dest_regs).

Definition _search_flag_dependency (instr1 instr2 : Instruction) : bool :=
  match get_flags_operand instr1, get_flags_operand instr2 with
  | Some flags1, Some flags2 => is_dependent flags2 flags1
  | _, _ => false
  end.

Section coverage.
Context (hash : string → Z).

(** [self.coverage[type_].add(key)] *)
Definition cover (key : Z) (t : DT) (c : list (DT * gset Z)) : list (DT * gset Z) :=
  dict_alter ∅ (λ s, {[key]} ∪ s) t c.

(** The dependency types of a pair, in the order the code tests them. *)
Definition dependencies (addr1 addr2 : TracedInstruction) (instr1 instr2 : Instruction)
    : result (list DT) :=
  reg ← _search_reg_dependency instr1 instr2;
  Ok ((if i_control_flow instr1
       then [if bool_decide (i_category instr1 = "BASE-UNCOND_BR") then CONTROL_DIRECT else CONTROL_COND]
       else []) ++
      (if negb (bool_decide (accesses addr1 = [])) && negb (bool_decide (accesses addr2 = []))
       then _search_memory_dependency addr1 addr2 else []) ++
      (if reg : bool then [REG_GPR] else []) ++
      (if _search_flag_dependency instr1 instr2 then [REG_FLAGS] else [])).

Definition cover_pair (address_map : gmap Z Instruction) (p : TracedInstruction * TracedInstruction)
    (c : list (DT * gset Z)) : result (list (DT * gset Z)) :=
  instr1 ← from_option KeyError (address_map !! i_address p.1);
  instr2 ← from_option KeyError (address_map !! i_address p.2);
  let key := hash (_get_instruction_key instr1 +:+ _get_instruction_key instr2) in
  types ← dependencies p.1 p.2 instr1 instr2;
  Ok (fold_left (λ c t, cover key t c) types c).

(** Instrumentation is dropped from the traces before pairing. *)
Definition not_instrumentation (address_map : gmap Z Instruction) (t : TracedInstruction) : bool :=
  negb (default false (i_is_instrumentation <$> address_map !! i_address t)).

Definition _update_coverage (effective_traces : list ExecutionTrace) (tc : TestCase)
    (c : list (DT * gset Z)) : result (list (DT * gset Z)) :=
  let address_map := tc_address_map tc in
  for_each (λ trace c,
      let trace := select (not_instrumentation address_map) trace in
      for_each (cover_pair address_map) (zip trace (tail trace)) c)
    effective_traces c.

(** ** The hooks *)

Definition cov_get (c : DependentPairCoverage) : Z :=
  foldr (λ p n, Z.of_nat (size p.2) + n) 0 (coverage c).

Definition cov_load_test_case (tc : TestCase) (c : DependentPairCoverage)
    : result DependentPairCoverage :=
  Ok (mkCoverage (coverage c) (max_coverage c) (execution_traces c) (Some tc) (stat_coverage c)).
Definition cov_model_hook (traces : list ExecutionTrace) (c : DependentPairCoverage)
    : result DependentPairCoverage :=
  Ok (mkCoverage (coverage c) (max_coverage c) traces (cov_test_case c) (stat_coverage c)).

(** The trace of the first member of every effective class. *)
Definition effective_traces (classes : list EquivalenceClass) (c : DependentPairCoverage)
    : result (list ExecutionTrace) :=
  for_each (λ eq_cls traces,
      if (1 <? length (measurements eq_cls))%nat then
        m ← from_option IndexError (head (measurements eq_cls));
        t ← from_option IndexError (execution_traces c !! me_input_id m);
        Ok (traces ++ [t])
      else Ok traces) classes [].

Definition cov_analyser_hook (classes : list EquivalenceClass) (c : DependentPairCoverage)
    : result DependentPairCoverage :=
  traces ← effective_traces classes c;
  if bool_decide (length traces = 0%nat) then Ok c
  else
    tc ← from_option AttributeError (cov_test_case c);
    cov ← _update_coverage traces tc (coverage c);
    let c := mkCoverage cov (max_coverage c) (execution_traces c) (cov_test_case c) (stat_coverage c) in
    Ok (mkCoverage cov (max_coverage c) (execution_traces c) (cov_test_case c) (cov_get c)).

#[export] Instance DependentPairCoverage_Coverage :
  Coverage TestCase ExecutionTrace DependentPairCoverage := {|
  load_test_case := cov_load_test_case;
  model_hook := cov_model_hook;
  analyser_hook := cov_analyser_hook;
  coverage_count := cov_get |}.

(** ** [_calculate_max_coverage] *)

Definition count {A} (p : A → bool) (l : list A) : Z := Z.of_nat (length (select p l)).

Definition all_specs (i : InstructionSpec) : list OperandSpec := is_operands i ++ is_implicit_operands i.
Definition has_op (t : OT) (p : OperandSpec → bool) (i : InstructionSpec) : bool :=
  existsb (λ o, bool_decide (os_type o = t) && p o) (all_specs i).
(** Only the first flags operand of an instruction is read. *)
Definition has_flag (mode : string) (i : InstructionSpec) : bool :=
  match List.find (λ o, bool_decide (os_type o = FLAGS)) (all_specs i) with
  | Some o => existsb (str_in mode) (os_values o)
  | None => false
  end.
Definition is_direct (i : InstructionSpec) : bool := bool_decide (is_category i = "BASE-UNCOND_BR").

Definition _calculate_max_coverage (insts : list InstructionSpec) : list (DT * Z) :=
  let all_ := Z.of_nat (length insts) in
  let reg_src := count (has_op REG os_src) insts in
  let reg_dest := count (has_op REG os_dest) insts in
  let flags_src := count (has_flag "r") insts in
  let flags_dest := count (has_flag "w") insts in
  let mem_dest := count is_has_write insts in
  let mem_src := count (has_op MEM os_src) insts in
  let control_direct := 1 + count (λ i, is_control_flow i && is_direct i) insts in
  let control_cond := count (λ i, is_control_flow i && negb (is_direct i)) insts in
  [(REG_GPR, reg_src * (reg_dest + mem_src + mem_dest)); (REG_FLAGS, flags_src * flags_dest);
   (MEM_LL, mem_src * mem_src); (MEM_LS, mem_src * mem_dest); (MEM_SL, mem_dest * mem_src);
   (MEM_SS, mem_dest * mem_dest); (CONTROL_DIRECT, control_direct * all_);
   (CONTROL_COND, control_cond * all_)].

(** [DependentPairCoverage.__init__] *)
Definition new_coverage (isa : InstructionSet) : DependentPairCoverage :=
  mkCoverage ((λ k, (k, ∅)) <$> all_DT) (_calculate_max_coverage (instructions isa)) [] None 0.
End coverage.

(** [get_coverage] *)
Definition get_coverage (coverage_type : string) : result string :=
  if bool_decide (coverage_type = "dependent-pairs") then Ok "DependentPairCoverage"
  else if bool_decide (coverage_type = "none") then Ok "NoCoverage"
  else Raise ConfigException.

(** ** Facts *)

Lemma any_in_spec l k : any_in l k = true ↔ ∃ x, x ∈ l ∧ x ∈ k.
Proof.
  unfold any_in. rewrite existsb_exists. setoid_rewrite mem_spec.
  setoid_rewrite <- list_elem_of_In. done.
Qed.

(** Both instructions access one address, the first as [s1] says and the second as [s2]. *)
Definition shared (s1 s2 : bool) (t1 t2 : TracedInstruction) : Prop :=
  ∃ a b, a ∈ accesses t1 ∧ b ∈ accesses t2 ∧ m_address a = m_address b ∧
         m_is_store a = s1 ∧ m_is_store b = s2.

Lemma any_in_shared (p q : TracedMemAccess → bool) t1 t2 :
  any_in (addresses_where p t1) (addresses_where q t2) = true ↔
  ∃ a b, a ∈ accesses t1 ∧ b ∈ accesses t2 ∧ m_address a = m_address b ∧ p a = true ∧ q b = true.
Proof.
  rewrite any_in_spec. unfold addresses_where, select. setoid_rewrite list_elem_of_fmap.
  setoid_rewrite elem_of_list_filter_bool. naive_solver.
Qed.

(** the memory dependencies the coverage records are mislabelled: for the
    second instruction loads and stores are exchanged, so load-load is reported
    for a load followed by a store of the same address, and so on. *)
Theorem memory_dependency_swapped t1 t2 :
  let types := _search_memory_dependency t1 t2 in
  (MEM_LL ∈ types ↔ shared false true t1 t2) ∧ (MEM_LS ∈ types ↔ shared false false t1 t2) ∧
  (MEM_SL ∈ types ↔ shared true true t1 t2) ∧ (MEM_SS ∈ types ↔ shared true false t1 t2).
Proof.
  intros types.
  assert (∀ (b : bool) (x y : DT), x ∈ (if b then [y] else []) ↔ b = true ∧ x = y) as Hone.
  { intros b x y. destruct b; [rewrite list_elem_of_singleton; naive_solver|].
    split; [by intros ?%elem_of_nil|by intros [? _]]. }
  assert (∀ p q s1 s2, (∀ a, p a = true ↔ m_is_store a = s1) → (∀ a, q a = true ↔ m_is_store a = s2) →
    any_in (addresses_where p t1) (addresses_where q t2) = true ↔ shared s1 s2 t1 t2) as Hany.
  { intros p q s1 s2 Hp Hq. rewrite any_in_shared. unfold shared.
    setoid_rewrite Hp. setoid_rewrite Hq. done. }
  subst types. unfold _search_memory_dependency. rewrite !elem_of_app, !Hone.
  assert (∀ a, negb (m_is_store a) = true ↔ m_is_store a = false) as Hneg by (intros; apply negb_true_iff).
  rewrite !(Hany _ _ _ _ Hneg Hneg), !(Hany _ _ false true Hneg (λ _, iff_refl _)),
    !(Hany _ _ true false (λ _, iff_refl _) Hneg), !(Hany _ _ true true (λ _, iff_refl _) (λ _, iff_refl _)).
  naive_solver.
Qed.
