(* ===== verification/Json.v ===== *)
(** * The JSON text of the instruction set

    What [json.dumps] writes with its default settings and what [json.load]
    reads: a value type, the printer, a lexer and a parser of the tokens, and
    the theorem that reading gives back what was printed.  A character is a code
    point below 256; a number with a fraction or an exponent is not
    represented, and reading one is an error here. *)

From S2P Require Import Prelude Text.

Open Scope Z_scope.

Unset Elimination Schemes.
Inductive json :=
  | JNull
  | JBool (b : bool)
  | JInt (n : Z)
  | JString (s : string)
  | JList (l : list json)
  | JObject (l : list (string * json)).
Set Elimination Schemes.

Section json_ind.
Variable P : json → Prop.
Hypothesis Pnull : P JNull.
Hypothesis Pbool : ∀ b, P (JBool b).
Hypothesis Pint : ∀ n, P (JInt n).
Hypothesis Pstring : ∀ s, P (JString s).
Hypothesis Plist : ∀ l, Forall P l → P (JList l).
Hypothesis Pobject : ∀ l, Forall (λ kv, P (snd kv)) l → P (JObject l).
Fixpoint json_ind (v : json) : P v :=
  match v with
  | JNull => Pnull
  | JBool b => Pbool b
  | JInt n => Pint n
  | JString s => Pstring s
  | JList l =>
      Plist l ((fix go (l : list json) : Forall P l :=
        match l with
        | [] => Forall_nil_2 _
        | v :: l => Forall_cons_2 _ _ _ (json_ind v) (go l)
        end) l)
  | JObject l =>
      Pobject l ((fix go (l : list (string * json)) : Forall (λ kv, P (snd kv)) l :=
        match l with
        | [] => Forall_nil_2 _
        | kv :: l => Forall_cons_2 _ _ _ (json_ind (snd kv)) (go l)
        end) l)
  end.
End json_ind.

(** ** Printing *)

Definition dquote : ascii := "034"%char.
Definition backslash : ascii := "092"%char.
Definition newline : ascii := "010"%char.
Definition nl : string := String newline "".

Definition hex_char (n : N) : ascii :=
  ascii_of_N (if (n <? 10)%N then 48 + n else 87 + n).

(** One character of a string, escaped when it is a quote, a backslash or not
    a printable ASCII character. *)
Definition escape_char (c : ascii) : string :=
  let esc d := String backslash (String d "") in
  let n := N_of_ascii c in
  if Ascii.eqb c dquote then esc dquote
  else if Ascii.eqb c backslash then esc backslash
  else if (n =? 8)%N then esc "b"%char
  else if (n =? 9)%N then esc "t"%char
  else if (n =? 10)%N then esc "n"%char
  else if (n =? 12)%N then esc "f"%char
  else if (n =? 13)%N then esc "r"%char
  else if ((n <? 32) || (126 <? n))%N then
    String backslash (String "u" (String "0" (String "0"
      (String (hex_char (n / 16)) (String (hex_char (n mod 16)) "")))))
  else String c "".

Fixpoint escape (s : string) : string :=
  match s with
  | EmptyString => EmptyString
  | String c s => escape_char c +:+ escape s
  end.

(** A string between double quotes, and with the escapes. *)
Definition quoted (s : string) : string := String dquote (s +:+ String dquote "").
Definition json_string (s : string) : string := quoted (escape s).

(** [str(b).lower()] *)
Definition json_bool (b : bool) : string := if b then "true" else "false".

(** [json.dumps(v)] *)
Fixpoint dumps (v : json) : string :=
  match v with
  | JNull => "null"
  | JBool b => json_bool b
  | JInt n => str n
  | JString s => json_string s
  | JList l => "[" +:+ str_join ", " (map dumps l) +:+ "]"
  | JObject l =>
      "{" +:+ str_join ", " (map (λ kv, json_string kv.1 +:+ ": " +:+ dumps kv.2) l) +:+ "}"
  end.

(** ** Reading: the lexer *)

Inductive token :=
  | TOpen | TClose | TBegin | TEnd | TComma | TColon
  | TNull | TBool (b : bool) | TInt (n : Z) | TString (s : string).

Definition json_space (c : ascii) : bool :=
  let n := N_of_ascii c in ((n =? 32) || (n =? 9) || (n =? 10) || (n =? 13))%N.

Definition punctuation (c : ascii) : option token :=
  if Ascii.eqb c "{" then Some TOpen else if Ascii.eqb c "}" then Some TClose
  else if Ascii.eqb c "[" then Some TBegin else if Ascii.eqb c "]" then Some TEnd
  else if Ascii.eqb c "," then Some TComma else if Ascii.eqb c ":" then Some TColon else None.

(** The literals; an integer has no superfluous zero and no plus sign. *)
Definition literal (w : string) : result token :=
  if (w =? "null")%string then Ok TNull
  else if (w =? "true")%string then Ok (TBool true)
  else if (w =? "false")%string then Ok (TBool false)
  else if (w =? "-0")%string then Ok (TInt 0)
  else n ← py_int w; assert_ (str n =? w)%string ValueError;; Ok (TInt n).

Definition hex_value (c : ascii) : option N :=
  let n := N_of_ascii c in
  if ((48 <=? n) && (n <=? 57))%N then Some (n - 48)%N
  else if ((97 <=? n) && (n <=? 102))%N then Some (n - 87)%N
  else if ((65 <=? n) && (n <=? 70))%N then Some (n - 55)%N else None.

(** The character after a backslash, the escape with a code point apart. *)
Definition unescape (c : ascii) : option ascii :=
  if Ascii.eqb c dquote then Some dquote
  else if Ascii.eqb c backslash then Some backslash
  else if Ascii.eqb c "/" then Some "/"%char
  else if Ascii.eqb c "b" then Some "008"%char
  else if Ascii.eqb c "t" then Some "009"%char
  else if Ascii.eqb c "n" then Some "010"%char
  else if Ascii.eqb c "f" then Some "012"%char
  else if Ascii.eqb c "r" then Some "013"%char else None.

(** Where the lexer stands: between tokens, in a literal, in a string, after a
    backslash, or with some hexadecimal digits of a code point to go. *)
Inductive lex_state :=
  | Start
  | InWord (w : string)
  | InString (s : string)
  | InEscape (s : string)
  | InCode (s : string) (todo : nat) (code : N).

Definition snoc (s : string) (c : ascii) : string := s +:+ String c "".

(** The token a literal under way ends with. *)
Definition flush (st : lex_state) : result (list token) :=
  match st with
  | Start => Ok []
  | InWord w => t ← literal w; Ok [t]
  | _ => Raise ValueError
  end.

(** One character: the tokens it ends, and the state after it. *)
Definition lex_char (st : lex_state) (c : ascii) : result (list token * lex_state) :=
  match st with
  | Start | InWord _ =>
      if json_space c then ts ← flush st; Ok (ts, Start)
      else if Ascii.eqb c dquote then ts ← flush st; Ok (ts, InString "")
      else match punctuation c with
           | Some t => ts ← flush st; Ok (ts ++ [t], Start)
           | None => Ok ([], InWord (match st with InWord w => snoc w c | _ => String c "" end))
           end
  | InString s =>
      if Ascii.eqb c dquote then Ok ([TString s], Start)
      else if Ascii.eqb c backslash then Ok ([], InEscape s)
      else if (N_of_ascii c <? 32)%N then Raise ValueError
      else Ok ([], InString (snoc s c))
  | InEscape s =>
      if Ascii.eqb c "u" then Ok ([], InCode s 4 0)
      else d ← from_option ValueError (unescape c); Ok ([], InString (snoc s d))
  | InCode s todo code =>
      d ← from_option ValueError (hex_value c);
      let code := (16 * code + d)%N in
      match todo with
      | S (S todo) => Ok ([], InCode s (S todo) code)
      | _ => assert_ (code <? 256)%N ValueError;; Ok ([], InString (snoc s (ascii_of_N code)))
      end
  end.

Fixpoint lex (st : lex_state) (s : string) : result (list token) :=
  match s with
  | EmptyString => flush st
  | String c s => '(ts, st) ← lex_char st c; rest ← lex st s; Ok (ts ++ rest)
  end.

(** ** Reading: the parser; one unit of fuel for each token is enough *)

Section lists.
Context (parse_value : list token → result (json * list token)).
Fixpoint parse_elements (fuel : nat) (ts : list token) : result (list json * list token) :=
  match fuel with
  | O => Raise OutOfFuel
  | S fuel =>
      '(v, ts) ← parse_value ts;
      match ts with
      | TComma :: ts => '(l, ts) ← parse_elements fuel ts; Ok (v :: l, ts)
      | TEnd :: ts => Ok ([v], ts)
      | _ => Raise ValueError
      end
  end.
Fixpoint parse_members (fuel : nat) (ts : list token) : result (list (string * json) * list token) :=
  match fuel with
  | O => Raise OutOfFuel
  | S fuel =>
      match ts with
      | TString k :: TColon :: ts =>
          '(v, ts) ← parse_value ts;
          match ts with
          | TComma :: ts => '(l, ts) ← parse_members fuel ts; Ok ((k, v) :: l, ts)
          | TClose :: ts => Ok ([(k, v)], ts)
          | _ => Raise ValueError
          end
      | _ => Raise ValueError
      end
  end.
End lists.

Fixpoint parse_value (fuel : nat) (ts : list token) : result (json * list token) :=
  match fuel with
  | O => Raise OutOfFuel
  | S fuel =>
      match ts with
      | TNull :: ts => Ok (JNull, ts)
      | TBool b :: ts => Ok (JBool b, ts)
      | TInt n :: ts => Ok (JInt n, ts)
      | TString s :: ts => Ok (JString s, ts)
      | TBegin :: TEnd :: ts => Ok (JList [], ts)
      | TBegin :: ts => '(l, ts) ← parse_elements (parse_value fuel) fuel ts; Ok (JList l, ts)
      | TOpen :: TClose :: ts => Ok (JObject [], ts)
      | TOpen :: ts => '(l, ts) ← parse_members (parse_value fuel) fuel ts; Ok (JObject l, ts)
      | _ => Raise ValueError
      end
  end.

(** [json.loads(s)]: one value and nothing after it. *)
Definition loads (s : string) : result json :=
  ts ← lex Start s;
  '(v, rest) ← parse_value (S (length ts)) ts;
  match rest with [] => Ok v | _ => Raise ValueError end.

(** [v[k]] on an object: the last of the members named [k]. *)
Definition json_get (k : string) (v : json) : result json :=
  match v with
  | JObject l => from_option KeyError (snd <$> last (List.filter (λ kv, (kv.1 =? k)%string) l))
  | _ => Raise TypeError
  end.

(** ** What the lexer makes of printed text *)

Lemma fmap_app_nil (r : result (list token)) : app [] <$> r = r.
Proof. by destruct r. Qed.
Lemma fmap_app_app ts ts' (r : result (list token)) : app ts <$> (app ts' <$> r) = app (ts ++ ts') <$> r.
Proof. destruct r; cbn; [|done]. by rewrite app_assoc. Qed.

(** From [st] the text [s] gives the tokens [ts] and ends in [st']. *)
Definition lexes (st : lex_state) (s : string) (ts : list token) (st' : lex_state) : Prop :=
  ∀ rest, lex st (s +:+ rest) = app ts <$> lex st' rest.

Lemma lexes_nil st : lexes st "" [] st.
Proof. intros rest. by rewrite fmap_app_nil. Qed.

Lemma lexes_app st s ts st1 s' ts' st2 :
  lexes st s ts st1 → lexes st1 s' ts' st2 → lexes st (s +:+ s') (ts ++ ts') st2.
Proof. intros H1 H2 rest. by rewrite str_app_assoc, H1, H2, fmap_app_app. Qed.

Lemma lexes_cons st c s ts st1 ts' st2 :
  lex_char st c = Ok (ts, st1) → lexes st1 s ts' st2 → lexes st (String c s) (ts ++ ts') st2.
Proof.
  intros H1 H2 rest. rewrite str_app_cons. cbn [lex]. rewrite H1. cbn. rewrite H2.
  destruct (lex st2 rest); cbn; [|done]. by rewrite app_assoc.
Qed.

Lemma str_app_snoc s c t : snoc s c +:+ t = s +:+ String c t.
Proof. unfold snoc. by rewrite str_app_assoc. Qed.

Lemma ascii_is c n : (N_of_ascii c =? n)%N = true → c = ascii_of_N n.
Proof. intros <-%N.eqb_eq. by rewrite ascii_N_embedding. Qed.

Lemma hex_value_char k : (k < 16)%N → hex_value (hex_char k) = Some k.
Proof.
  intros Hk. unfold hex_char. assert (∃ i, k = N.of_nat i ∧ (i < 16)%nat) as (i & -> & Hi)
    by (exists (N.to_nat k); lia).
  do 16 (destruct i as [|i]; [reflexivity|]). lia.
Qed.

Lemma lexes_one st c s ts st1 st2 :
  lex_char st c = Ok (ts, st1) → lexes st1 s [] st2 → lexes st (String c s) ts st2.
Proof. intros H1 H2. rewrite <- (app_nil_r ts). by eapply lexes_cons. Qed.

(** Every escaped character is read back. *)
Lemma lexes_escape_char s c : lexes (InString s) (escape_char c) [] (InString (snoc s c)).
Proof.
  unfold escape_char. cbv zeta.
  destruct (Ascii.eqb_spec c dquote) as [->|Hq]; [do 2 (eapply lexes_one; [reflexivity|]); apply lexes_nil|].
  destruct (Ascii.eqb_spec c backslash) as [->|Hb]; [do 2 (eapply lexes_one; [reflexivity|]); apply lexes_nil|].
  do 5 (destruct (_ =? _)%N eqn:E; [apply ascii_is in E as ->; do 2 (eapply lexes_one; [reflexivity|]); apply lexes_nil|clear E]).
  destruct (_ || _) eqn:E.
  - pose proof (N_ascii_bounded c) as Hc.
    assert (N_of_ascii c / 16 < 16)%N by (apply N.Div0.div_lt_upper_bound; lia).
    assert (N_of_ascii c mod 16 < 16)%N by (by apply N.mod_lt).
    do 4 (eapply lexes_one; [reflexivity|]). eapply lexes_one; [cbn [lex_char]; by rewrite hex_value_char|].
    eapply lexes_one; [|apply lexes_nil]. cbn [lex_char]. rewrite hex_value_char by done. cbn.
    replace (16 * _ + _)%N with (N_of_ascii c) by (pose proof (N.div_mod (N_of_ascii c) 16 ltac:(done)); lia).
    rewrite ascii_N_embedding. by rewrite (proj2 (N.ltb_lt _ _) Hc).
  - apply orb_false_iff in E as [E _]. eapply lexes_one; [|apply lexes_nil]. cbn [lex_char].
    apply Ascii.eqb_neq in Hq, Hb. by rewrite Hq, Hb, E.
Qed.

Lemma lexes_escape t s : lexes (InString s) (escape t) [] (InString (s +:+ t)).
Proof.
  revert s. induction t as [|c t IH]; intros s; cbn [escape].
  - rewrite str_app_nil. apply lexes_nil.
  - rewrite <- str_app_snoc. eapply (lexes_app _ _ [] _ _ []); [apply lexes_escape_char|apply IH].
Qed.

Lemma lexes_string s : lexes Start (json_string s) [TString s] Start.
Proof.
  unfold json_string, quoted. eapply (lexes_cons _ _ _ []); [reflexivity|].
  eapply (lexes_app _ _ [] _ _ [TString s]); [apply lexes_escape|].
  eapply lexes_one; [reflexivity|apply lexes_nil].
Qed.

(** Characters a string needs no escape for. *)
Definition plain_char (c : ascii) : bool :=
  negb (Ascii.eqb c dquote) && negb (Ascii.eqb c backslash) && (32 <=? N_of_ascii c)%N.
Definition plain (s : string) : bool := str_forall plain_char s.

Lemma lexes_plain t s : plain t = true → lexes (InString s) t [] (InString (s +:+ t)).
Proof.
  revert s. induction t as [|c t IH]; intros s Ht.
  - rewrite str_app_nil. apply lexes_nil.
  - apply andb_true_iff in Ht as [Hc Ht]. rewrite <- str_app_snoc.
    eapply (lexes_cons _ _ _ []); [|by apply IH].
    unfold plain_char in Hc. rewrite !andb_true_iff, !negb_true_iff in Hc.
    destruct Hc as [[Hq Hb] H32%N.leb_le]. cbn [lex_char]. rewrite Hq, Hb.
    by destruct (N.ltb_spec (N_of_ascii c) 32); [lia|].
Qed.

Lemma lexes_quoted s : plain s = true → lexes Start (quoted s) [TString s] Start.
Proof.
  intros Hs. unfold quoted. eapply (lexes_cons _ _ _ []); [reflexivity|].
  eapply (lexes_app _ _ [] _ _ [TString s]); [by apply lexes_plain|].
  eapply lexes_one; [reflexivity|apply lexes_nil].
Qed.

(** The characters of a literal. *)
Definition word_char (c : ascii) : bool :=
  negb (json_space c) && negb (Ascii.eqb c dquote) && bool_decide (punctuation c = None).

Lemma lexes_word w u : str_forall word_char u = true → lexes (InWord w) u [] (InWord (w +:+ u)).
Proof.
  revert w. induction u as [|c u IH]; intros w Hu.
  - rewrite str_app_nil. apply lexes_nil.
  - apply andb_true_iff in Hu as [Hc Hu]. rewrite <- str_app_snoc.
    eapply (lexes_cons _ _ _ []); [|by apply IH].
    unfold word_char in Hc. rewrite !andb_true_iff, !negb_true_iff, bool_decide_eq_true in Hc.
    destruct Hc as [[Hq Hb] Hp]. cbn [lex_char]. by rewrite Hq, Hb, Hp.
Qed.

Lemma lexes_literal w : str_forall word_char w = true → w ≠ "" → lexes Start w [] (InWord w).
Proof.
  destruct w as [|c w]; [done|]. intros [Hc Hw]%andb_true_iff _.
  eapply (lexes_cons _ _ _ []); [|by apply (lexes_word (String c ""))].
  unfold word_char in Hc. rewrite !andb_true_iff, !negb_true_iff, bool_decide_eq_true in Hc.
  destruct Hc as [[Hq Hb] Hp]. cbn [lex_char]. by rewrite Hq, Hb, Hp.
Qed.

(** The text of a value: its tokens, the last one maybe still under way. *)
Definition ends (s : string) (ts : list token) : Prop :=
  ∃ ts1 st ts2, lexes Start s ts1 st ∧ flush st = Ok ts2 ∧ ts = ts1 ++ ts2.

Lemma ends_start s ts : lexes Start s ts Start → ends s ts.
Proof. intros H. exists ts, Start, []. by rewrite app_nil_r. Qed.

Lemma ends_literal w t :
  str_forall word_char w = true → w ≠ "" → literal w = Ok t → ends w [t].
Proof.
  intros Hw Hne Ht. exists [], (InWord w), [t]. cbn. rewrite Ht. by split; [apply lexes_literal|].
Qed.

(** A value, then a punctuation mark or white space. *)
Definition closing (c : ascii) : bool := json_space c || bool_decide (is_Some (punctuation c)).

Lemma flush_then st ts c ts' :
  flush st = Ok ts → closing c = true → lex_char Start c = Ok (ts', Start) →
  lex_char st c = Ok (ts ++ ts', Start).
Proof.
  destruct st; try done; cbn [flush lex_char]; [by intros [= <-]|].
  intros Hw Hc H. unfold closing in Hc. rewrite Hw. destruct (json_space c) eqn:E.
  - injection H as <-. cbn. by rewrite app_nil_r.
  - destruct (Ascii.eqb c dquote); [done|].
    apply orb_true_iff in Hc as [|Hc]; [done|]. apply bool_decide_eq_true in Hc as [p Hp].
    rewrite Hp in *. by injection H as <-.
Qed.

Lemma ends_then s ts c ts' s' ts'' st :
  ends s ts → closing c = true → lex_char Start c = Ok (ts', Start) → lexes Start s' ts'' st →
  lexes Start (s +:+ String c s') (ts ++ ts' ++ ts'') st.
Proof.
  intros (ts1 & st1 & ts2 & H1 & H2 & ->) Hc Hl H3. rewrite <- app_assoc.
  eapply lexes_app; [done|]. rewrite app_assoc.
  eapply lexes_cons; [|exact H3]. by apply flush_then.
Qed.

(** *** Sequences *)

Fixpoint token_join (l : list (list token)) : list token :=
  match l with
  | [] => []
  | [ts] => ts
  | ts :: l => ts ++ TComma :: token_join l
  end.

Lemma token_join_cons ts l :
  token_join (ts :: l) = ts ++ match l with [] => [] | _ => TComma :: token_join l end.
Proof. destruct l; cbn; [|done]. by rewrite app_nil_r. Qed.

Lemma lexes_spaces s : str_forall json_space s = true → lexes Start s [] Start.
Proof.
  induction s as [|c s IH]; cbn; [intros _; apply lexes_nil|].
  intros [Hc Hs]%andb_true_iff. eapply (lexes_cons _ _ _ []); [|by apply IH].
  cbn [lex_char]. by rewrite Hc.
Qed.

Lemma ends_join {A} (f : A → string) (g : A → list token) blanks l :
  str_forall json_space blanks = true → l ≠ [] → Forall (λ a, ends (f a) (g a)) l →
  ends (str_join (String "," blanks) (map f l)) (token_join (map g l)).
Proof.
  intros Hb Hne H. induction H as [|a l Ha Hl IH]; [done|].
  destruct l as [|b l]; [done|]. destruct (IH ltac:(done)) as (ts1 & st & ts2 & H1 & H2 & H3).
  cbn [map] in *. cbn [str_join token_join] in *. exists (g a ++ TComma :: ts1), st, ts2.
  split; [|split; [done|by rewrite H3, <- app_assoc]].
  rewrite str_app_cons. apply (ends_then _ _ _ [TComma]); [done..|].
  eapply (lexes_app _ _ [] _ _ ts1); [by apply lexes_spaces|exact H1].
Qed.

(** A possibly empty sequence between an opening and a closing mark. *)
Lemma lexes_enclosed {A} (f : A → string) (g : A → list token) blanks blanks1 blanks2 c d tc td l :
  str_forall json_space blanks = true → str_forall json_space blanks1 = true →
  str_forall json_space blanks2 = true →
  lex_char Start c = Ok ([tc], Start) → lex_char Start d = Ok ([td], Start) → closing d = true →
  Forall (λ a, ends (f a) (g a)) l →
  lexes Start (String c (blanks1 +:+ str_join (String "," blanks) (map f l)
                           +:+ blanks2 +:+ String d ""))
    (tc :: token_join (map g l) ++ [td]) Start.
Proof.
  intros Hb H1 H2 Hc Hd Hcl Hl. eapply (lexes_cons _ _ _ [tc]); [done|].
  eapply (lexes_app _ _ []); [by apply lexes_spaces|].
  assert (lexes Start (String d "") [td] Start) as Hend by (eapply lexes_one; [done|apply lexes_nil]).
  destruct l as [|a l].
  - eapply (lexes_app _ _ []); [by apply lexes_nil|]. eapply (lexes_app _ _ []); [by apply lexes_spaces|done].
  - assert (ends (str_join (String "," blanks) (map f (a :: l))) (token_join (map g (a :: l)))) as He
      by (by apply ends_join).
    destruct blanks2 as [|b blanks2].
    + eapply (ends_then _ _ d [td] "" []); [exact He|done|done|apply lexes_nil].
    + cbn in H2. apply andb_true_iff in H2 as [Hb2 H2]. rewrite str_app_cons.
      eapply (ends_then _ _ b [] _ [td]); [exact He| | |].
      * unfold closing. by rewrite Hb2.
      * cbn. by rewrite Hb2.
      * eapply (lexes_app _ _ []); [by apply lexes_spaces|done].
Qed.

(** ** What the printer writes is read back *)

Fixpoint tokens (v : json) : list token :=
  match v with
  | JNull => [TNull]
  | JBool b => [TBool b]
  | JInt n => [TInt n]
  | JString s => [TString s]
  | JList l => TBegin :: token_join (map tokens l) ++ [TEnd]
  | JObject l => TOpen :: token_join (map (λ kv, TString kv.1 :: TColon :: tokens kv.2) l) ++ [TClose]
  end.

Lemma str_word n : str_forall word_char (str n) = true ∧ literal (str n) = Ok (TInt n).
Proof.
  split.
  - assert (∀ s, str_forall is_digit s = true → str_forall word_char s = true) as Hd.
    { induction s as [|c s IH]; [done|]. cbn. rewrite !andb_true_iff. intros [Hc Hs]. split; [|by apply IH].
      by destruct c as [[] [] [] [] [] [] [] []]. }
    destruct (decide (0 ≤ n)) as [Hn|Hn]; [by apply Hd, str_digits|].
    destruct n as [|p|p]; try lia. change (str (Z.neg p)) with (String "-" (str (Z.pos p))).
    cbn. by apply Hd, (str_digits (Z.pos p)).
  - pose proof (py_int_str n) as Hn. unfold literal.
    destruct (String.eqb_spec (str n) "null") as [E|_]; [by rewrite E in Hn|].
    destruct (String.eqb_spec (str n) "true") as [E|_]; [by rewrite E in Hn|].
    destruct (String.eqb_spec (str n) "false") as [E|_]; [by rewrite E in Hn|].
    destruct (String.eqb_spec (str n) "-0") as [E|_].
    { rewrite E in Hn. injection Hn as <-. done. }
    rewrite Hn. cbn. by rewrite String.eqb_refl.
Qed.

Lemma ends_bool b : ends (json_bool b) [TBool b].
Proof. by destruct b; apply ends_literal. Qed.
Lemma ends_int n : ends (str n) [TInt n].
Proof. destruct (str_word n). apply ends_literal; [done|apply str_nonempty|done]. Qed.

Lemma ends_member k ts s ts' :
  lexes Start k ts Start → ends s ts' → ends (k +:+ ": " +:+ s) (ts ++ TColon :: ts').
Proof.
  intros Hk (ts1 & st & ts2 & H1 & H2 & ->). exists (ts ++ TColon :: ts1), st, ts2.
  split; [|split; [done|by rewrite <- app_assoc]]. eapply lexes_app; [done|].
  eapply (lexes_cons _ _ _ [TColon]); [done|]. eapply (lexes_cons _ _ _ []); [done|exact H1].
Qed.

Lemma ends_dumps v : ends (dumps v) (tokens v).
Proof.
  induction v as [|b|n|s|l IH|l IH]; cbn [dumps tokens].
  - by apply ends_literal.
  - apply ends_bool.
  - apply ends_int.
  - apply ends_start, lexes_string.
  - apply ends_start. by apply (lexes_enclosed dumps tokens " " "" "" "[" "]" TBegin TEnd).
  - apply ends_start.
    apply (lexes_enclosed (λ kv, json_string kv.1 +:+ ": " +:+ dumps kv.2)
      (λ kv, TString kv.1 :: TColon :: tokens kv.2) " " "" "" "{" "}" TOpen TClose); try done.
    eapply Forall_impl; [exact IH|]. intros [k v] Hv. cbn in *.
    apply (ends_member _ [TString k]); [apply lexes_string|done].
Qed.

Lemma ends_lex s ts : ends s ts → lex Start s = Ok ts.
Proof.
  intros (ts1 & st & ts2 & H1 & H2 & ->). rewrite <- (str_app_nil s), H1. cbn. by rewrite H2.
Qed.

(** *** The parser *)

Lemma tokens_head v : ∃ t ts, tokens v = t :: ts ∧ t ≠ TEnd ∧ t ≠ TClose.
Proof. destruct v; cbn; by eexists _, _. Qed.

Lemma parse_elements_tokens parse fuel l rest :
  l ≠ [] → (length l ≤ fuel)%nat →
  Forall (λ v, ∀ rest, parse (tokens v ++ rest) = Ok (v, rest)) l →
  parse_elements parse fuel (token_join (map tokens l) ++ TEnd :: rest) = Ok (l, rest).
Proof.
  intros Hne Hf H. revert fuel Hf. induction H as [|v l Hv Hl IH]; [done|]; intros fuel Hf.
  destruct fuel as [|fuel]; [cbn in Hf; lia|]. cbn [map parse_elements]. rewrite token_join_cons.
  destruct l as [|v' l].
  - cbn [map]. rewrite app_nil_r, Hv. done.
  - cbn [map]. rewrite <- app_assoc, Hv. cbn [app mbind result_bind].
    rewrite (IH ltac:(done)) by (cbn in *; lia). done.
Qed.

Lemma parse_members_tokens parse fuel (l : list (string * json)) rest :
  l ≠ [] → (length l ≤ fuel)%nat →
  Forall (λ kv, ∀ rest, parse (tokens kv.2 ++ rest) = Ok (kv.2, rest)) l →
  parse_members parse fuel
    (token_join (map (λ kv, TString kv.1 :: TColon :: tokens kv.2) l) ++ TClose :: rest) = Ok (l, rest).
Proof.
  intros Hne Hf H. revert fuel Hf. induction H as [|[k v] l Hv Hl IH]; [done|]; intros fuel Hf.
  destruct fuel as [|fuel]; [cbn in Hf; lia|]. cbn in Hv. cbn [map]. rewrite token_join_cons.
  cbn [parse_members app fst snd]. rewrite <- app_assoc, Hv. cbn [mbind result_bind].
  destruct l as [|kv l]; [done|]. cbn [map app].
  rewrite (IH ltac:(done)) by (cbn in *; lia). done.
Qed.

Lemma token_join_length l : (∀ ts, ts ∈ l → ts ≠ []) → (length l ≤ length (token_join l))%nat.
Proof.
  induction l as [|ts l IH]; intros H; [cbn; lia|]. rewrite token_join_cons, length_app.
  pose proof (H ts ltac:(by left)) as Hts. specialize (IH ltac:(intros; apply H; by right)).
  destruct ts; [done|]. destruct l; cbn [length] in *; lia.
Qed.

Lemma token_join_elem ts l : ts ∈ l → (length ts ≤ length (token_join l))%nat.
Proof.
  induction l as [|ts' l IH]; [by intros ?%elem_of_nil|].
  rewrite token_join_cons, length_app. intros [->|H]%elem_of_cons; [lia|]. specialize (IH H).
  destruct l; [by apply elem_of_nil in H|]. cbn [length]. lia.
Qed.

Lemma parse_tokens v fuel rest :
  (length (tokens v) ≤ fuel)%nat → parse_value fuel (tokens v ++ rest) = Ok (v, rest).
Proof.
  revert fuel rest. induction v as [|b|n|s|l IH|l IH]; intros [|fuel] rest Hf; cbn in Hf; try lia; try done.
  - cbn [tokens app]. rewrite <- app_assoc. cbn [app]. rewrite length_app in Hf. destruct l as [|v l]; [done|].
    assert (∃ t ts, token_join (map tokens (v :: l)) = t :: ts ∧ t ≠ TEnd) as (t & ts & Et & Ht).
    { cbn [map]. rewrite token_join_cons. destruct (tokens_head v) as (t & ts & -> & Ht & _). by eexists _, _. }
    assert (parse_elements (parse_value fuel) fuel (token_join (map tokens (v :: l)) ++ TEnd :: rest)
            = Ok (v :: l, rest)) as Hp.
    { apply parse_elements_tokens; [done| |].
      - pose proof (token_join_length (map tokens (v :: l))) as Hlen. rewrite length_map in Hlen.
        cbn [length] in Hf. etrans; [apply Hlen|lia].
        intros ts' (v' & -> & _)%list_elem_of_fmap. by destruct (tokens_head v') as (? & ? & -> & _).
      - apply Forall_forall. intros v' Hv' rest'. rewrite Forall_forall in IH. apply IH; [done|].
        pose proof (token_join_elem (tokens v') (map tokens (v :: l)) ltac:(by apply list_elem_of_fmap_2)).
        lia. }
    cbn [parse_value]. rewrite Et in *. cbn [app] in *. destruct t; try done; by rewrite Hp.
  - cbn [tokens app]. rewrite <- app_assoc. cbn [app]. rewrite length_app in Hf. destruct l as [|[k v] l]; [done|].
    set (f := λ kv : string * json, TString kv.1 :: TColon :: tokens kv.2) in *.
    assert (parse_members (parse_value fuel) fuel (token_join (map f ((k, v) :: l)) ++ TClose :: rest)
            = Ok ((k, v) :: l, rest)) as Hp.
    { apply parse_members_tokens; [done| |].
      - pose proof (token_join_length (map f ((k, v) :: l))) as Hlen. rewrite length_map in Hlen.
        cbn [length] in Hf. etrans; [apply Hlen|lia]. by intros ts' (v' & -> & _)%list_elem_of_fmap.
      - apply Forall_forall. intros kv Hkv rest'. rewrite Forall_forall in IH. apply IH; [done|].
        pose proof (token_join_elem (f kv) (map f ((k, v) :: l)) ltac:(by apply list_elem_of_fmap_2)) as H.
        change (length (f kv)) with (S (S (length (tokens kv.2)))) in H. lia. }
    cbn [parse_value]. cbn [map] in *. rewrite token_join_cons in *.
    cbn [app f fst snd] in *. by rewrite Hp.
Qed.

(** A text whose tokens are those of a value reads as the value. *)
Lemma loads_ends s v : ends s (tokens v) → loads s = Ok v.
Proof.
  intros H. unfold loads. rewrite (ends_lex _ _ H). cbn [mbind result_bind].
  pose proof (parse_tokens v (S (length (tokens v))) [] ltac:(lia)) as Hp.
  rewrite app_nil_r in Hp. by rewrite Hp.
Qed.

Lemma loads_dumps v : loads (dumps v) = Ok v.
Proof. apply loads_ends, ends_dumps. Qed.
