(* ===== verification/IsaLoader.v ===== *)
(** * Loading the instruction set

    [InstructionSet] of [src/src/isa_loader.py]: building specifications from
    the nodes of the JSON file, filtering them by the configuration, removing
    duplicates.  A node is read from its JSON value ([Json]), where a value of an
    unexpected type is an error that Python would meet only on using it; the
    order in which Python lists a set of strings is a parameter. *)

From S2P Require Import Prelude Isa Json Generator Util Analyser.

Open Scope Z_scope.

(** The keys of an operand node and of an instruction node. *)
Record operand_node := mkOperandNode {
  on_values : list string; on_type : string; on_src : bool; on_dest : bool; on_width : Z }.
Record instruction_node := mkInstructionNode {
  in_name : string; in_category : string; in_control_flow : bool;
  in_operands : list operand_node; in_implicit_operands : list operand_node }.

Definition as_string (v : json) : result string := match v with JString s => Ok s | _ => Raise TypeError end.
Definition as_bool (v : json) : result bool := match v with JBool b => Ok b | _ => Raise TypeError end.
Definition as_int (v : json) : result Z := match v with JInt n => Ok n | _ => Raise TypeError end.
Definition as_list (v : json) : result (list json) := match v with JList l => Ok l | _ => Raise TypeError end.

Definition operand_of_json (op : json) : result operand_node :=
  type_ ← json_get "type_" op ≫= as_string;
  values ← json_get "values" op ≫= as_list; values ← mapM as_string values;
  src ← json_get "src" op ≫= as_bool;
  dest ← json_get "dest" op ≫= as_bool;
  width ← json_get "width" op ≫= as_int;
  Ok (mkOperandNode values type_ src dest width).

Definition instruction_of_json (node : json) : result instruction_node :=
  name ← json_get "name" node ≫= as_string;
  category ← json_get "category" node ≫= as_string;
  control_flow ← json_get "control_flow" node ≫= as_bool;
  ops ← json_get "operands" node ≫= as_list; ops ← mapM operand_of_json ops;
  iops ← json_get "implicit_operands" node ≫= as_list; iops ← mapM operand_of_json iops;
  Ok (mkInstructionNode name category control_flow ops iops).

Definition ot_str_to_enum (s : string) : result OT :=
  if bool_decide (s = "REG") then Ok REG else if bool_decide (s = "MEM") then Ok MEM
  else if bool_decide (s = "IMM") then Ok IMM else if bool_decide (s = "LABEL") then Ok LABEL
  else if bool_decide (s = "AGEN") then Ok AGEN else if bool_decide (s = "FLAGS") then Ok FLAGS
  else if bool_decide (s = "COND") then Ok COND else Raise KeyError.

Definition set_mem_flags (mem write magic : bool) (s : InstructionSpec) : InstructionSpec :=
  mkInstructionSpec (is_name s) (is_operands s) (is_implicit_operands s) (is_category s)
    (is_control_flow s) (is_has_mem_operand s || mem) (is_has_write s || write)
    (is_has_magic_value s || magic).
Definition set_spec_operands (ops iops : list OperandSpec) (s : InstructionSpec) : InstructionSpec :=
  mkInstructionSpec (is_name s) ops iops (is_category s) (is_control_flow s)
    (is_has_mem_operand s) (is_has_write s) (is_has_magic_value s).

(** [parse_operand]: the parent learns of memory operands and writes. *)
Definition parse_operand (op : operand_node) (parent : InstructionSpec)
    : result (OperandSpec * InstructionSpec) :=
  op_type ← ot_str_to_enum (on_type op);
  let spec := mkOperandSpec (on_values op) op_type (on_width op) (on_src op) (on_dest op) false in
  Ok (spec, if bool_decide (op_type = MEM) then set_mem_flags true (os_dest spec) false parent
            else parent).

Definition parse_instruction (node : instruction_node) : result InstructionSpec :=
  let instruction := mkInstructionSpec (in_name node) [] [] (in_category node) (in_control_flow node)
                       false false false in
  instruction ← for_each (λ op_node i,
      '(op, i) ← parse_operand op_node i;
      let i := set_spec_operands (is_operands i ++ [op]) (is_implicit_operands i) i in
      Ok (set_mem_flags false false (os_magic_value op) i)) (in_operands node) instruction;
  for_each (λ op_node i,
      '(op, i) ← parse_operand op_node i;
      Ok (set_spec_operands (is_operands i) (is_implicit_operands i ++ [op]) i))
    (in_implicit_operands node) instruction.

Definition init_from_file (root : list instruction_node) : result (list InstructionSpec) :=
  mapM parse_instruction root.

(** [init_from_file] on the text of the file. *)
Definition init_from_text (text : string) : result (list InstructionSpec) :=
  root ← loads text ≫= as_list;
  mapM (λ node, n ← instruction_of_json node; parse_instruction n) root.

Section reduce.
Context (no_generation : bool) (include_categories : list string).
Context (instruction_blocklist gpr_blocklist : list string).
(** The order in which a set of strings is listed. *)
Context (set_order : list string → list string).

(** The loop over the implicit operands: it ends at the first refusal and
    accepts at once an operand that is a blocked [RIP]. *)
Fixpoint implicit_supported (ops : list OperandSpec) : result bool :=
  match ops with
  | [] => Ok true
  | op :: ops =>
      assert_ (negb (bool_decide (os_type op = LABEL))) AssertionError;;
      blocked ← (if bool_decide (os_type op = MEM) || bool_decide (os_type op = REG)
                 then v ← from_option IndexError (head (os_values op)); Ok (mem v gpr_blocklist)
                 else Ok false);
      if negb blocked then implicit_supported ops
      else if bool_decide (os_type op = MEM) then Ok false
      else
        assert_ (length (os_values op) =? 1)%nat AssertionError;;
        Ok (bool_decide (head (os_values op) = Some "RIP"))
  end.

Definition explicit_blocked (op : OperandSpec) : bool :=
  bool_decide (os_type op = MEM) &&
  match os_values op with v :: _ => mem v gpr_blocklist | [] => false end.

Definition is_supported (spec : InstructionSpec) : result bool :=
  if no_generation then Ok true
  else if negb (bool_decide (include_categories = [])) && negb (mem (is_category spec) include_categories)
  then Ok false
  else if mem (is_name spec) instruction_blocklist then Ok false
  else if existsb explicit_blocked (is_operands spec) then Ok false
  else implicit_supported (is_implicit_operands spec).

(** [reg.replace('H', 'L')] when the name ends with H. *)
Fixpoint last_char (s : string) : option ascii :=
  match s with
  | EmptyString => None
  | String c EmptyString => Some c
  | String _ s => last_char s
  end.
Definition low_byte (reg : string) : result string :=
  c ← from_option IndexError (last_char reg);
  Ok (if bool_decide (c = "H"%char) then replace_char "H" "L" reg else reg).

(** [list(set(op.values) - set(CONF.gpr_blocklist))] *)
Definition choices_of (values : list string) : list string :=
  set_order (select (λ v, negb (mem v gpr_blocklist)) (remove_dups values)).

(** The loop over the explicit operands; [None] is [skip_pending]. *)
Fixpoint reduce_operands (ops : list OperandSpec) : result (option (list OperandSpec)) :=
  match ops with
  | [] => Ok (Some [])
  | op :: ops =>
      if bool_decide (os_type op = REG) then
        let choices := choices_of (os_values op) in
        if bool_decide (length choices = 0%nat) then Ok None
        else
          values ← mapM low_byte choices;
          rest ← reduce_operands ops;
          let op := mkOperandSpec values (os_type op) (os_width op) (os_src op) (os_dest op)
                      (os_magic_value op) in
          Ok (option_map (cons op) rest)
      else rest ← reduce_operands ops; Ok (option_map (cons op) rest)
  end.

Definition reduce_spec (s : InstructionSpec) : result (option InstructionSpec) :=
  supported ← is_supported s;
  if supported : bool then
    ops ← reduce_operands (is_operands s);
    Ok (option_map (λ ops, set_spec_operands ops (is_implicit_operands s) s) ops)
  else Ok None.

(** The attributes [reduce] sets from the instructions left. *)
Definition set_attributes (insts : list InstructionSpec) : InstructionSet :=
  mkISA insts
    (existsb (λ i, is_control_flow i && bool_decide (is_category i = "BASE-UNCOND_BR")) insts)
    (existsb (λ i, is_control_flow i && negb (bool_decide (is_category i = "BASE-UNCOND_BR"))) insts)
    false
    (existsb (λ i, negb (is_control_flow i) && is_has_mem_operand i && negb (is_has_write i)) insts)
    (existsb (λ i, negb (is_control_flow i) && is_has_mem_operand i && is_has_write i) insts).

Definition reduce (insts : list InstructionSpec) : result InstructionSet :=
  kept ← mapM reduce_spec insts; Ok (set_attributes (omap id kept)).

(** ** [dedup] *)

Definition same_operand (op1 op2 : OperandSpec) : bool :=
  bool_decide (os_type op1 = os_type op2) && bool_decide (os_values op1 = os_values op2) &&
  (bool_decide (os_width op1 = os_width op2) || bool_decide (os_type op1 = IMM)).
Definition duplicates (inst1 inst2 : InstructionSpec) : bool :=
  bool_decide (is_name inst1 = is_name inst2) &&
  (length (is_operands inst1) =? length (is_operands inst2))%nat &&
  forallb (λ p : OperandSpec * OperandSpec, same_operand p.1 p.2)
    (zip (is_operands inst1) (is_operands inst2)).

(** An instruction goes when a later one has the same name and operands. *)
Fixpoint dedup (insts : list InstructionSpec) : list InstructionSpec :=
  match insts with
  | [] => []
  | inst1 :: rest => if existsb (duplicates inst1) rest then dedup rest else inst1 :: dedup rest
  end.

(** [InstructionSet.__init__]: the attributes are set before [dedup]. *)
Definition new_InstructionSet (root : list instruction_node) : result InstructionSet :=
  insts ← init_from_file root;
  isa ← reduce insts;
  Ok (mkISA (dedup (instructions isa)) (has_unconditional_branch isa) (has_conditional_branch isa)
        (has_indirect_branch isa) (has_reads isa) (has_writes isa)).

(** ** Facts *)

Lemma same_operand_refl o : same_operand o o = true.
Proof. unfold same_operand. rewrite !bool_decide_true by done. done. Qed.

Lemma same_operand_trans a b c :
  same_operand a b = true → same_operand b c = true → same_operand a c = true.
Proof.
  unfold same_operand. rewrite !andb_true_iff, !orb_true_iff, !bool_decide_eq_true.
  intros ((H1 & H2) & [H3|H3]) ((H4 & H5) & [H6|H6]); (split; [split; congruence|]);
    first [left; congruence|right; congruence].
Qed.

Lemma duplicates_refl i : duplicates i i = true.
Proof.
  unfold duplicates. rewrite bool_decide_true, Nat.eqb_refl by done. cbn.
  induction (is_operands i) as [|o l IH]; cbn; [done|]. by rewrite same_operand_refl.
Qed.

Lemma duplicates_trans a b c :
  duplicates a b = true → duplicates b c = true → duplicates a c = true.
Proof.
  unfold duplicates. rewrite !andb_true_iff, !bool_decide_eq_true, !Nat.eqb_eq.
  intros ((-> & Hl1) & H1) ((-> & Hl2) & H2). split; [split; congruence|].
  revert Hl1 H1 Hl2 H2. generalize (is_operands a) as la, (is_operands b) as lb, (is_operands c) as lc.
  induction la as [|x la IH]; intros [|y lb] [|z lc]; try done; cbn.
  intros [= Hl1] [Hxy H1]%andb_true_iff [= Hl2] [Hyz H2]%andb_true_iff.
  rewrite (same_operand_trans _ _ _ Hxy Hyz). by apply (IH lb lc).
Qed.

(** The first instruction of the rest that [x] duplicates. *)
Lemma dedup_covers insts x :
  x ∈ insts → ∃ y, y ∈ dedup insts ∧ duplicates x y = true.
Proof.
  induction insts as [|a insts IH] in x |- *; [by intros ?%elem_of_nil|]. cbn [dedup].
  intros Hx. destruct (existsb (duplicates a) insts) eqn:E.
  - apply elem_of_cons in Hx as [->|Hx]; [|by apply IH].
    apply existsb_exists in E as (b & Hb%list_elem_of_In & Hab).
    destruct (IH b Hb) as (y & Hy & Hby). exists y. split; [done|]. by eapply duplicates_trans.
  - apply elem_of_cons in Hx as [->|Hx].
    + exists a. split; [by left|apply duplicates_refl].
    + destruct (IH x Hx) as (y & Hy & Hxy). exists y. split; [by right|done].
Qed.

Lemma dedup_sublist insts : sublist (dedup insts) insts.
Proof.
  induction insts as [|a insts IH]; cbn; [done|]. destruct (existsb _ _).
  - by apply sublist_cons.
  - by apply sublist_skip.
Qed.

Lemma dedup_distinct insts i j x y :
  dedup insts !! i = Some x → dedup insts !! j = Some y → (i < j)%nat → duplicates x y = false.
Proof.
  induction insts as [|a insts IH] in i, j |- *; cbn [dedup]; [done|].
  destruct (existsb (duplicates a) insts) eqn:E; [by apply IH|]. intros Hi Hj Hij.
  destruct j as [|j]; [lia|]. destruct i as [|i]; [|eapply IH; eauto; lia].
  cbn in Hi, Hj. injection Hi as <-. destruct (duplicates a y) eqn:Ey; [|done].
  enough (existsb (duplicates a) insts = true) by congruence. apply existsb_exists. exists y.
  split; [|done]. apply list_elem_of_In.
  eapply elem_of_sublist; [by eapply list_elem_of_lookup_2|apply dedup_sublist].
Qed.

(** The register names [reduce] leaves in an operand. *)
Definition register_choice_ok (values : list string) (v : string) : Prop :=
  ∃ u, u ∈ values ∧ u ∉ gpr_blocklist ∧ low_byte u = Ok v.

Lemma reduce_operands_spec ops ops' :
  (∀ l, set_order l ≡ₚ l) → reduce_operands ops = Ok (Some ops') →
  Forall2 (λ op op', os_type op' = os_type op ∧ os_width op' = os_width op ∧
      os_src op' = os_src op ∧ os_dest op' = os_dest op ∧
      if decide (os_type op = REG)
      then os_values op' ≠ [] ∧ ∀ v, v ∈ os_values op' → register_choice_ok (os_values op) v
      else op' = op) ops ops'.
Proof.
  intros Hperm. revert ops'. induction ops as [|o ops IH]; intros ops' H; cbn [reduce_operands] in H; cbv zeta in H.
  { injection H as <-. constructor. }
  destruct (bool_decide_reflect (os_type o = REG)) as [Hreg|Hreg].
  - destruct (bool_decide_reflect (length (choices_of (os_values o)) = 0%nat)) as [|Hne]; [done|].
    inv_ok. destruct a0 as [rest|]; [|done]. injection H as <-. constructor; [|by apply IH].
    repeat (split; [done|]). rewrite decide_True by done. cbn [os_values].
    pose proof (mapM_length _ _ _ H0) as Hlen. split.
    + intros ->. cbn in Hlen. done.
    + intros v Hv. apply (mapM_elem _ _ _ H0) in Hv as (u & Hu & Hlow). exists u.
      unfold choices_of in Hu. rewrite Hperm in Hu.
      apply elem_of_list_filter_bool in Hu as [Hb Hu]. rewrite elem_of_remove_dups in Hu.
      apply negb_true_iff, mem_false in Hb. done.
  - inv_ok. destruct a as [rest|]; [|done]. injection H as <-. constructor; [|by apply IH].
    repeat (split; [done|]). by rewrite decide_False.
Qed.

(** An operand whose first register is blocked. *)
Definition blocked_operand (op : OperandSpec) : Prop :=
  (os_type op = MEM ∨ os_type op = REG) ∧ ∃ v, head (os_values op) = Some v ∧ v ∈ gpr_blocklist.

(** The implicit operands of an accepted instruction: no label, and none blocked, up to the
    end or up to a blocked [RIP], after which the loop looks at no further operand. *)
Definition implicit_allowed (ops : list OperandSpec) : Prop :=
  ∃ seen rest, ops = seen ++ rest ∧ Forall (λ op, os_type op ≠ LABEL ∧ ¬ blocked_operand op) seen ∧
    (rest = [] ∨ ∃ rip unseen, rest = rip :: unseen ∧ os_type rip = REG ∧ os_values rip = ["RIP"]
                               ∧ "RIP" ∈ gpr_blocklist).

Lemma implicit_supported_allowed ops : implicit_supported ops = Ok true → implicit_allowed ops.
Proof.
  induction ops as [|op ops IH]; cbn [implicit_supported]; [intros _; by exists [], []; split_and!; [..|left]|].
  intros H. apply bind_Ok in H as (u & Hl & H). apply bind_Ok in H as (b & Hb & H).
  assert (os_type op ≠ LABEL) as Hlabel.
  { destruct (bool_decide_reflect (os_type op = LABEL)); [|done]. cbn in Hl. done. }
  assert (b = true ↔ blocked_operand op) as Hbl.
  { destruct (bool_decide (os_type op = MEM) || bool_decide (os_type op = REG)) eqn:E.
    - apply bind_Ok in Hb as (v & Hv%from_option_Ok & [= <-]). rewrite mem_spec.
      apply orb_true_iff in E. rewrite !bool_decide_eq_true in E. unfold blocked_operand. rewrite Hv. naive_solver.
    - injection Hb as <-. apply orb_false_iff in E. rewrite !bool_decide_eq_false in E. unfold blocked_operand. naive_solver. }
  destruct b; cbn [negb] in H.
  - destruct (bool_decide_reflect (os_type op = MEM)) as [|Hmem]; [done|].
    apply bind_Ok in H as (u' & Hlen & H). injection H as H.
    apply bool_decide_eq_true in H. destruct (Nat.eqb_spec (length (os_values op)) 1) as [E|]; [|done].
    destruct (os_values op) as [|v [|]] eqn:Ev; try done. injection H as ->.
    destruct (proj1 Hbl eq_refl) as [[?|Hreg] (v & Hv & Hin)]; [done|]. rewrite Ev in Hv. injection Hv as <-.
    exists [], (op :: ops). split_and!; [done..|]. right. by exists op, ops.
  - destruct (IH H) as (seen & rest & -> & Hs & Hr). exists (op :: seen), rest. split_and!; [done| |done].
    constructor; [|done]. split; [done|]. intros Hbo. by apply Hbl in Hbo.
Qed.

Definition allowed (s s' : InstructionSpec) : Prop :=
  is_name s' = is_name s ∧ is_category s' = is_category s ∧ is_control_flow s' = is_control_flow s ∧
  is_implicit_operands s' = is_implicit_operands s ∧
  (include_categories ≠ [] → is_category s ∈ include_categories) ∧
  is_name s ∉ instruction_blocklist ∧
  implicit_allowed (is_implicit_operands s) ∧
  Forall2 (λ op op',
      (os_type op = MEM → ∀ v, head (os_values op') = Some v → v ∉ gpr_blocklist) ∧
      (os_type op = REG → os_values op' ≠ [] ∧ ∀ v, v ∈ os_values op' → register_choice_ok (os_values op) v))
    (is_operands s) (is_operands s').

Lemma reduce_spec_allowed s s' :
  no_generation = false → (∀ l, set_order l ≡ₚ l) → reduce_spec s = Ok (Some s') → allowed s s'.
Proof.
  intros Hgen Hperm H. unfold reduce_spec in H. inv_ok. destruct a; [|done]. inv_ok.
  destruct a as [ops|]; [|done]. injection H as <-. rename H0 into Hsup, H1 into Hops.
  unfold is_supported in Hsup. rewrite Hgen in Hsup.
  destruct (negb (bool_decide (include_categories = [])) && _) eqn:Ecat; [done|].
  destruct (mem (is_name s) instruction_blocklist) eqn:Ename; [done|].
  destruct (existsb explicit_blocked (is_operands s)) eqn:Eops; [done|].
  repeat (split; [done|]). split; [|split; [|split]].
  - intros Hne. rewrite bool_decide_false in Ecat by done. cbn in Ecat.
    by apply negb_false_iff, mem_spec in Ecat.
  - by apply mem_false.
  - by apply implicit_supported_allowed.
  - cbn [set_spec_operands is_operands]. eapply Forall2_impl_in; [by apply reduce_operands_spec|].
    intros op op' Hop (Ht & _ & _ & _ & H). split.
    + intros Hmem v Hv. rewrite decide_False in H by congruence. subst op'.
      rewrite existsb_false in Eops. specialize (Eops op Hop). unfold explicit_blocked in Eops.
      rewrite bool_decide_true in Eops by done. destruct (os_values op); [done|]. injection Hv as ->.
      by apply mem_false.
    + intros Hreg. by rewrite decide_True in H.
Qed.

(** C28: The loaded instruction set.  Every instruction comes from a node the configuration
    allows: its category is included, its name is not blocked, the first register of none of
    its explicit memory operands is blocked, and none of its implicit operands is a label or
    starts with a blocked register, up to a blocked [RIP], which accepts the instruction
    whatever implicit operands follow.  Each of its register operands keeps at least one
    register and offers only unblocked ones (a high byte register as its low byte); no two
    instructions are duplicates; and every instruction the filter lets through has its
    duplicate in the set. *)
Theorem loaded_instruction_set root isa :
  no_generation = false → (∀ l, set_order l ≡ₚ l) → new_InstructionSet root = Ok isa →
  ∃ specs, init_from_file root = Ok specs ∧
    (∀ s', s' ∈ instructions isa → ∃ s, s ∈ specs ∧ allowed s s') ∧
    (∀ i j x y, instructions isa !! i = Some x → instructions isa !! j = Some y → (i < j)%nat →
       duplicates x y = false) ∧
    (∀ s s', s ∈ specs → reduce_spec s = Ok (Some s') →
       ∃ y, y ∈ instructions isa ∧ duplicates s' y = true).
Proof.
  intros Hgen Hperm H. unfold new_InstructionSet, reduce in H.
  apply bind_Ok in H as (specs & Hinit & H). apply bind_Ok in H as (isa0 & Hred & H).
  apply bind_Ok in Hred as (kept & Hred & E). injection E as <-. injection H as <-.
  cbn [instructions set_attributes]. exists specs. split; [done|]. split; [|split].
  - intros s' Hs'. eapply elem_of_sublist in Hs'; [|apply dedup_sublist].
    apply list_elem_of_omap in Hs' as (o & Ho & Hid). cbn in Hid. subst o.
    apply (mapM_elem _ _ _ Hred) in Ho as (s & Hs & Hr). exists s. split; [done|].
    by apply reduce_spec_allowed.
  - apply dedup_distinct.
  - intros s s' Hs Hr. apply dedup_covers, list_elem_of_omap. exists (Some s'). split; [|done].
    by apply (mapM_image _ _ _ Hred s).
Qed.
End reduce.

(** ** A small instruction file: two nodes are duplicates, one is blocked *)
Module IsaDemo.
Definition reg (vs : list string) : operand_node := mkOperandNode vs "REG" true true 8.
Definition root : list instruction_node :=
  [mkInstructionNode "INC" "BASE-BINARY" false [reg ["AH"; "BL"; "R8B"]] [];
   mkInstructionNode "INC" "BASE-BINARY" false [reg ["AH"; "BL"; "R8B"]] [];
   mkInstructionNode "DEC" "BASE-BINARY" false [reg ["R8B"]] [];
   mkInstructionNode "PUSH" "BASE-BINARY" false [] [mkOperandNode ["R8B"] "MEM" true true 8];
   mkInstructionNode "CALL" "BASE-BINARY" false [] [mkOperandNode ["RIP"] "REG" true true 64; mkOperandNode ["R8B"] "MEM" true true 8];
   mkInstructionNode "STI" "BASE-FLAGOP" false [] []].
Definition load : result InstructionSet :=
  new_InstructionSet false ["BASE-BINARY"] ["STI"] ["R8B"; "RIP"] (λ l, l) root.
End IsaDemo.

Lemma loaded_instruction_set_witness :
  ∃ isa specs, IsaDemo.load = Ok isa ∧ length (instructions isa) = 2%nat ∧
    init_from_file IsaDemo.root = Ok specs ∧
    (∀ s', s' ∈ instructions isa → ∃ s, s ∈ specs ∧ allowed ["BASE-BINARY"] ["STI"] ["R8B"; "RIP"] s s') ∧
    (∀ i j x y, instructions isa !! i = Some x → instructions isa !! j = Some y → (i < j)%nat →
       duplicates x y = false) ∧
    (∀ s s', s ∈ specs → reduce_spec false ["BASE-BINARY"] ["STI"] ["R8B"; "RIP"] (λ l, l) s = Ok (Some s') →
       ∃ y, y ∈ instructions isa ∧ duplicates s' y = true).
Proof.
  destruct IsaDemo.load as [isa|e] eqn:E; [|vm_compute in E; discriminate].
  destruct (loaded_instruction_set false ["BASE-BINARY"] ["STI"] ["R8B"; "RIP"] (λ l, l) IsaDemo.root isa)
    as (specs & Hs & H); [reflexivity|reflexivity|exact E|].
  exists isa, specs. split; [done|]. split; [|by split].
  vm_compute in E. injection E as <-. reflexivity.
Defined.
