(* ===== verification/GetSpec.v ===== *)
(** * Producing the instruction set file

    [src/src/x86/isa_spec/get_spec.py]: the transformation of the XML
    description of the instruction set into the JSON file the fuzzer loads.
    Parsing the XML and fetching it are the library's and the shell's: the input is
    the tree of elements. *)

From S2P Require Import Prelude Text Json.

Open Scope Z_scope.

(** ** The XML tree *)

Unset Elimination Schemes.
Inductive element :=
  | Element (tag : string) (attrib : gmap string string) (text : option string)
      (children : list element).
Set Elimination Schemes.
Definition e_tag '(Element t _ _ _) : string := t.
Definition e_attrib '(Element _ a _ _) : gmap string string := a.
Definition e_text '(Element _ _ t _) : option string := t.
Definition e_children '(Element _ _ _ c) : list element := c.

(** [e.iter()]: the element and those below it, in document order. *)
Fixpoint e_all (e : element) : list element :=
  match e with Element _ _ _ children => e :: flat_map e_all children end.
Definition e_iter (tag : string) (e : element) : list element :=
  List.filter (λ e, bool_decide (e_tag e = tag)) (e_all e).

(** [e.attrib.get(k, d)] and [e.attrib[k]] *)
Definition attr_get (k d : string) (e : element) : string := default d (e_attrib e !! k).
Definition attr (k : string) (e : element) : result string := from_option KeyError (e_attrib e !! k).
Definition attr_is (k d v : string) (e : element) : bool := bool_decide (attr_get k d e = v).

(** ** The specifications *)

(** The attributes of an object; [magic] is one only when it was set.  A value
    is [None] where the element has no text. *)
Record OperandSpec := mkOperandSpec {
  gs_type_ : string; gs_values : list (option string); gs_src : bool; gs_dest : bool;
  gs_width : Z; gs_magic : bool }.
Record InstructionSpec := mkInstructionSpec {
  name : string; category : string; control_flow : bool;
  operands : list OperandSpec; implicit_operands : list OperandSpec }.

Definition json_of_value (v : option string) : json :=
  match v with Some s => JString s | None => JNull end.
(** [vars(op)], in the order in which the attributes are set *)
Definition operand_vars (o : OperandSpec) : json :=
  JObject ([("type_", JString (gs_type_ o)); ("values", JList (map json_of_value (gs_values o)));
            ("src", JBool (gs_src o)); ("dest", JBool (gs_dest o)); ("width", JInt (gs_width o))]
           ++ if gs_magic o then [("magic", JBool true)] else []).
Definition operand_to_json (o : OperandSpec) : string := dumps (operand_vars o).

Definition lines_join (l : list string) : string := str_join ("," +:+ nl +:+ "    ") l.

(** [InstructionSpec.to_json]: the name and the category are not escaped. *)
Definition to_json (i : InstructionSpec) : string :=
  "{" +:+ quoted "name" +:+ ": " +:+ quoted (name i) +:+ ", "
    +:+ quoted "category" +:+ ": " +:+ quoted (category i) +:+ ", "
    +:+ quoted "control_flow" +:+ ": " +:+ json_bool (control_flow i) +:+ "," +:+ nl
    +:+ "  " +:+ quoted "operands" +:+ ": [" +:+ nl +:+ "    "
    +:+ lines_join (map operand_to_json (operands i)) +:+ nl +:+ "  ]," +:+ nl
    +:+ (if bool_decide (implicit_operands i = []) then "  " +:+ quoted "implicit_operands" +:+ ": []"
         else "  " +:+ quoted "implicit_operands" +:+ ": [" +:+ nl +:+ "    "
                +:+ lines_join (map operand_to_json (implicit_operands i)) +:+ nl +:+ "  ]")
    +:+ nl +:+ "}".

(** ** Operands *)

Definition reg_sizes : gmap string Z := list_to_map
  [("RAX", 64); ("RBX", 64); ("RCX", 64); ("RDX", 64); ("EAX", 32); ("EBX", 32); ("ECX", 32);
   ("EDX", 32); ("AX", 16); ("DX", 16); ("AL", 8); ("AH", 8); ("TMM0", 0); ("MXCSR", 32);
   ("ES", 16); ("SS", 16); ("DS", 16); ("FS", 16); ("GS", 16)].

(** [int(op.attrib.get('width'))]: [int(None)] is a type error. *)
Definition width_of (op : element) : result Z :=
  match e_attrib op !! "width" with Some w => py_int w | None => Raise TypeError end.

Definition parse_reg_operand (op : element) : result OperandSpec :=
  text ← from_option AttributeError (e_text op);
  let values := split "," text in
  width ← match e_attrib op !! "width" with Some w => py_int w | None => Ok 0 end;
  width ← (if width =? 0
           then v ← from_option IndexError (head values); from_option ParseFailed (reg_sizes !! v)
           else Ok width);
  Ok (mkOperandSpec "REG" (map Some values) (attr_is "r" "0" "1" op) (attr_is "w" "0" "1" op) width false).

Definition parse_mem_operand (op : element) : result OperandSpec :=
  if negb (attr_is "VSIB" "0" "0" op) then Raise ParseFailed
  else if negb (attr_is "memory-suffix" "" "" op) then Raise ParseFailed
  else
    let choices := if attr_is "base" "" "" op then [] else [Some (attr_get "base" "" op)] in
    width ← width_of op;
    Ok (mkOperandSpec "MEM" choices (attr_is "r" "0" "1" op) (attr_is "w" "0" "1" op) width false).

Definition parse_agen_operand (op : element) : result OperandSpec :=
  Ok (mkOperandSpec "AGEN" [] true false 64 false).

Definition parse_imm_operand (op : element) : result OperandSpec :=
  width ← width_of op;
  Ok (mkOperandSpec "IMM" (if attr_is "implicit" "0" "1" op then [e_text op] else []) true false width false).

Definition parse_label_operand (op : element) : result OperandSpec :=
  Ok (mkOperandSpec "LABEL" [] true false 0 false).

Definition flag_attributes : list string :=
  ["flag_CF"; "flag_PF"; "flag_AF"; "flag_ZF"; "flag_SF"; "flag_TF"; "flag_IF"; "flag_DF"; "flag_OF"].
Definition parse_flags_operand (op : element) : result OperandSpec :=
  Ok (mkOperandSpec "FLAGS" (map (λ f, Some (attr_get f "" op)) flag_attributes) false false 0 false).

(** ** [parse_tree] *)

(** One operand node: the operand and whether it makes the instruction one of
    control flow.  The text given to an [agen] node is not read. *)
Definition parse_operand_node (instruction_node op_node : element) : result (OperandSpec * bool) :=
  op_type ← attr "type" op_node;
  if bool_decide (op_type = "reg") then
    o ← parse_reg_operand op_node; Ok (o, bool_decide (e_text op_node = Some "RIP"))
  else if bool_decide (op_type = "mem") then o ← parse_mem_operand op_node; Ok (o, false)
  else if bool_decide (op_type = "agen") then
    _ ← attr "agen" instruction_node; o ← parse_agen_operand op_node; Ok (o, false)
  else if bool_decide (op_type = "imm") then o ← parse_imm_operand op_node; Ok (o, false)
  else if bool_decide (op_type = "relbr") then o ← parse_label_operand op_node; Ok (o, true)
  else if bool_decide (op_type = "flags") then o ← parse_flags_operand op_node; Ok (o, false)
  else Raise PlainException.

Definition set_magic (o : OperandSpec) : OperandSpec :=
  mkOperandSpec (gs_type_ o) (gs_values o) (gs_src o) (gs_dest o) (gs_width o) true.

(** The body of the loop over the operands. *)
Definition add_operand (instruction_node op_node : element) (i : InstructionSpec) : result InstructionSpec :=
  '(parsed_op, cf) ← parse_operand_node instruction_node op_node;
  let parsed_op := if attr_is "implicit" "0" "1" op_node then set_magic parsed_op else parsed_op in
  let cf := control_flow i || cf in
  Ok (if attr_is "suppressed" "0" "1" op_node
      then mkInstructionSpec (name i) (category i) cf (operands i) (implicit_operands i ++ [parsed_op])
      else mkInstructionSpec (name i) (category i) cf (operands i ++ [parsed_op]) (implicit_operands i)).

Definition unsupported_variant (instruction_node : element) : bool :=
  attr_is "sae" "" "1" instruction_node || attr_is "roundc" "" "1" instruction_node
  || attr_is "zeroing" "" "1" instruction_node.

Definition clean_name (asm : string) : string :=
  remove_prefix (remove_prefix (remove_prefix asm "{load} ") "{store} ") "{disp32} ".

(** One turn of the loop over the instructions: [None] when it is skipped. *)
Definition parse_instruction_node (extensions : list string) (node : element)
    : result (option InstructionSpec) :=
  if unsupported_variant node then Ok None else
  skip ← (if bool_decide (extensions = []) then Ok false
          else e ← attr "extension" node; Ok (negb (mem e extensions)));
  if skip : bool then Ok None else
  extension ← attr "extension" node;
  category ← attr "category" node;
  asm ← attr "asm" node;
  let i := mkInstructionSpec (clean_name asm) (extension +:+ "-" +:+ category) false [] [] in
  match for_each (add_operand node) (e_iter "operand" node) i with
  | Ok i => Ok (Some i)
  | Raise ParseFailed => Ok None
  | Raise e => Raise e
  end.

Definition parse_tree (extensions : list string) (tree : element) : result (list InstructionSpec) :=
  parsed ← mapM (parse_instruction_node extensions) (e_iter "instruction" tree);
  Ok (omap id parsed).

(** ** [add_missing], [save] and [main] *)

Definition flush_instruction (name category : string) (width : Z) : InstructionSpec :=
  mkInstructionSpec name category false [mkOperandSpec "MEM" [] true false width false] [].

Definition add_missing (extensions : list string) : list InstructionSpec :=
  (if bool_decide (extensions = []) || mem "CLFSH" extensions
   then map (flush_instruction "CLFLUSH" "CLFSH-MISC") [8; 16; 32; 64] else [])
  ++ (if bool_decide (extensions = []) || mem "CLFLUSHOPT" extensions
      then map (flush_instruction "CLFLUSHOPT" "CLFLUSHOPT-CLFLUSHOPT") [8; 16; 32; 64] else []).

Definition save (instructions : list InstructionSpec) : string :=
  "[" +:+ nl +:+ str_join ("," +:+ nl) (map to_json instructions) +:+ nl +:+ "]".

(** A tree whose root has no children counts as missing. *)
Definition load_files (tree : element) : result element :=
  if bool_decide (length (e_children tree) = 0%nat) then Raise SystemExit else Ok tree.

Definition transform (extensions : list string) (tree : element) : result (list InstructionSpec) :=
  tree ← load_files tree;
  parsed ← parse_tree extensions tree;
  Ok (parsed ++ add_missing extensions).
