(* ===== verification/GetSpecFacts.v ===== *)
(** * The file [get_spec.py] writes is the one [isa_loader.py] reads

    The text [save] builds is valid JSON, it reads back as the specifications it
    was made of, and [InstructionSet.init_from_file] turns it into the instructions
    the transformation produced, whatever XML they come from. *)

From S2P Require Import Prelude Text Json GetSpec Isa IsaLoader.

Open Scope Z_scope.

(** ** The text of the file *)

Definition instruction_vars (i : GetSpec.InstructionSpec) : json :=
  JObject [("name", JString (name i)); ("category", JString (category i));
           ("control_flow", JBool (control_flow i));
           ("operands", JList (map operand_vars (operands i)));
           ("implicit_operands", JList (map operand_vars (implicit_operands i)))].

(** The texts [to_json] writes without escapes. *)
Definition well_named (i : GetSpec.InstructionSpec) : bool := plain (name i) && plain (category i).

Lemma lexes_punct c t s ts st :
  lex_char Start c = Ok ([t], Start) → lexes Start s ts st → lexes Start (String c s) (t :: ts) st.
Proof. intros H1 H2. by eapply (lexes_cons _ _ _ [t]). Qed.

Lemma lexes_space c s ts st :
  json_space c = true → lexes Start s ts st → lexes Start (String c s) ts st.
Proof. intros H1 H2. eapply (lexes_cons _ _ _ []); [cbn; by rewrite H1|done]. Qed.

Lemma lexes_key k s ts st :
  plain k = true → lexes Start s ts st →
  lexes Start (quoted k +:+ s) (TString k :: ts) st.
Proof. intros Hk Hs. eapply (lexes_app _ _ [_]); [by apply lexes_quoted|done]. Qed.

Lemma lexes_boolean b s ts st :
  lexes Start s ts st → lexes Start (json_bool b +:+ String "," s) (TBool b :: TComma :: ts) st.
Proof. intros Hs. by apply (ends_then _ _ "," [TComma] _ ts _ (ends_bool b)). Qed.

(** Operands on a line each. *)
Lemma lexes_lines ops s ts st :
  lexes Start s ts st →
  lexes Start (String "[" (String newline ("    " +:+ (lines_join (map operand_to_json ops)
      +:+ String newline (String " " (String " " (String "]" s)))))))
    (tokens (JList (map operand_vars ops)) ++ ts) st.
Proof.
  intros Hs.
  assert (lexes Start (String "[" ((nl +:+ "    ") +:+ lines_join (map operand_to_json ops) +:+ (nl +:+ "  ") +:+ "]"))
            (tokens (JList (map operand_vars ops))) Start) as H.
  { cbn [tokens]. rewrite map_map.
    apply (lexes_enclosed operand_to_json (λ o, tokens (operand_vars o)) (nl +:+ "    ") _ _ "[" "]");
      try done. apply Forall_forall. intros o _. apply ends_dumps. }
  pose proof (lexes_app _ _ _ _ _ _ _ H Hs) as H'.
  rewrite !str_app_cons, !str_app_assoc in H'. exact H'.
Qed.

(** The tokens of a concrete layout, one mark or blank at a time. *)
Ltac lexes_layout :=
  rewrite ?str_app_assoc, ?str_app_cons, ?str_app_nil_l;
  lazymatch goal with
  | |- lexes _ (quoted _ +:+ _) _ _ => apply lexes_key; [first [assumption|reflexivity]|lexes_layout]
  | |- lexes _ (json_bool _ +:+ _) _ _ => apply lexes_boolean; lexes_layout
  | |- lexes _ (String "[" (String newline _)) _ _ => apply lexes_lines; lexes_layout
  | |- lexes _ (String _ _) _ _ =>
      first [apply lexes_space; [reflexivity|] | eapply lexes_punct; [reflexivity|]]; lexes_layout
  | |- lexes _ "" _ _ => apply lexes_nil
  end.

Lemma lexes_eq s ts ts' : lexes Start s ts Start → ts = ts' → lexes Start s ts' Start.
Proof. by intros H <-. Qed.

Lemma lexes_to_json i : well_named i = true → lexes Start (to_json i) (tokens (instruction_vars i)) Start.
Proof.
  intros [Hn Hc]%andb_true_iff. unfold to_json, nl.
  destruct (bool_decide_reflect (implicit_operands i = [])) as [E|_].
  - eapply lexes_eq; [lexes_layout|]. unfold instruction_vars. rewrite E.
    cbn [tokens map token_join app fst snd]. by repeat (rewrite <- ?app_assoc; cbn [app]).
  - eapply lexes_eq; [lexes_layout|]. unfold instruction_vars.
    cbn [tokens map token_join app fst snd]. by repeat (rewrite <- ?app_assoc; cbn [app]).
Qed.

Lemma loads_save specs :
  forallb well_named specs = true → loads (save specs) = Ok (JList (map instruction_vars specs)).
Proof.
  intros H. apply loads_ends, ends_start. unfold save. cbn [tokens]. rewrite map_map.
  apply (lexes_enclosed to_json (λ i, tokens (instruction_vars i)) nl nl nl "[" "]"); try done.
  apply Forall_forall. intros i Hi. apply ends_start, lexes_to_json.
  rewrite forallb_forall in H. by apply H, list_elem_of_In.
Qed.

(** ** Reading it back *)

(** Every value is a text and the type is one of the loader's. *)
Definition readable (o : GetSpec.OperandSpec) : bool :=
  forallb (λ v : option string, bool_decide (is_Some v)) (gs_values o) && succeeds (ot_str_to_enum (gs_type_ o)).
Definition loadable (i : GetSpec.InstructionSpec) : bool :=
  well_named i && forallb readable (operands i) && forallb readable (implicit_operands i).

Definition enum_of (o : GetSpec.OperandSpec) : OT :=
  match ot_str_to_enum (gs_type_ o) with Ok t => t | Raise _ => REG end.

(** The loader's specifications: [magic] is lost. *)
Definition loaded_operand (o : GetSpec.OperandSpec) : OperandSpec :=
  Isa.mkOperandSpec (omap id (gs_values o)) (enum_of o) (gs_width o) (gs_src o) (gs_dest o) false.
Definition is_mem (o : GetSpec.OperandSpec) : bool := bool_decide (enum_of o = MEM).
Definition loaded_spec (i : GetSpec.InstructionSpec) : InstructionSpec :=
  Isa.mkInstructionSpec (name i) (map loaded_operand (operands i))
    (map loaded_operand (implicit_operands i)) (category i) (control_flow i)
    (existsb is_mem (operands i ++ implicit_operands i))
    (existsb (λ o, is_mem o && gs_dest o) (operands i ++ implicit_operands i)) false.

Definition node_of (o : GetSpec.OperandSpec) : operand_node :=
  mkOperandNode (omap id (gs_values o)) (gs_type_ o) (gs_src o) (gs_dest o) (gs_width o).

Lemma mapM_map {A B C} (f : B → result C) (g : A → B) (h : A → C) l :
  (∀ a, a ∈ l → f (g a) = Ok (h a)) → mapM f (map g l) = Ok (map h l).
Proof.
  induction l as [|a l IH]; intros H; [done|]. cbn. rewrite (H a) by (by left).
  cbn. rewrite IH by (intros; apply H; by right). done.
Qed.

Lemma mapM_values vs :
  (∀ v : option string, In v vs → bool_decide (is_Some v) = true) →
  mapM as_string (map json_of_value vs) = Ok (omap id vs).
Proof.
  induction vs as [|v l IH]; [done|]. intros Hv.
  pose proof (Hv v (or_introl eq_refl)) as Hs. destruct v as [v|]; [|done]. cbn.
  rewrite IH by (intros; apply Hv; by right). done.
Qed.

Lemma mapM_step {A B} (f : A → result B) a l :
  mapM f (a :: l) = (b ← f a; k ← mapM f l; Ok (b :: k)).
Proof. reflexivity. Qed.

#[local] Arguments mapM : simpl never.

Lemma operand_of_json_vars o : readable o = true → operand_of_json (operand_vars o) = Ok (node_of o).
Proof.
  intros [Hv _]%andb_true_iff. rewrite forallb_forall in Hv.
  unfold operand_of_json, operand_vars. destruct (gs_magic o); cbn; by rewrite mapM_values.
Qed.

Lemma instruction_of_json_vars i :
  loadable i = true →
  instruction_of_json (instruction_vars i) =
  Ok (mkInstructionNode (name i) (category i) (control_flow i)
        (map node_of (operands i)) (map node_of (implicit_operands i))).
Proof.
  assert (∀ l, forallb readable l = true →
    mapM operand_of_json (map operand_vars l) = Ok (map node_of l)) as Hl.
  { intros l Hl. rewrite forallb_forall in Hl. apply mapM_map.
    intros o Ho%list_elem_of_In. by apply operand_of_json_vars, Hl. }
  unfold loadable. rewrite !andb_true_iff. intros [[_ Ho] Hi].
  unfold instruction_of_json, instruction_vars. cbn. rewrite Hl by done. cbn. by rewrite Hl.
Qed.

Lemma parse_operand_node_of o p : readable o = true →
  parse_operand (node_of o) p =
  Ok (loaded_operand o, set_mem_flags (is_mem o) (is_mem o && gs_dest o) false p).
Proof.
  intros [_ Ht]%andb_true_iff. unfold parse_operand, node_of, loaded_operand, is_mem, enum_of. cbn.
  destruct (ot_str_to_enum (gs_type_ o)) as [t|]; [|done]. cbn.
  destruct (bool_decide (t = MEM)); cbn; [done|]. unfold set_mem_flags. rewrite !orb_false_r. by destruct p.
Qed.

(** The loops over the operands of an instruction. *)
Lemma parse_operands_loop l p :
  forallb readable l = true →
  for_each (λ op_node i,
      '(op, i) ← parse_operand op_node i;
      let i := set_spec_operands (is_operands i ++ [op]) (is_implicit_operands i) i in
      Ok (set_mem_flags false false (os_magic_value op) i)) (map node_of l) p =
  Ok (set_mem_flags (existsb is_mem l) (existsb (λ o, is_mem o && gs_dest o) l) false
        (set_spec_operands (is_operands p ++ map loaded_operand l) (is_implicit_operands p) p)).
Proof.
  induction l as [|o l IH] in p |- *; cbn [forallb map for_each existsb].
  { intros _. destruct p; cbn. unfold set_mem_flags, set_spec_operands; cbn. by rewrite app_nil_r, !orb_false_r. }
  intros [Ho Hl]%andb_true_iff. rewrite parse_operand_node_of by done. cbn [mbind result_bind].
  rewrite IH by done. destruct p; unfold set_mem_flags, set_spec_operands; cbn.
  by rewrite !orb_false_r, <- !app_assoc, !orb_assoc.
Qed.

Lemma parse_implicit_loop l p :
  forallb readable l = true →
  for_each (λ op_node i,
      '(op, i) ← parse_operand op_node i;
      Ok (set_spec_operands (is_operands i) (is_implicit_operands i ++ [op]) i)) (map node_of l) p =
  Ok (set_mem_flags (existsb is_mem l) (existsb (λ o, is_mem o && gs_dest o) l) false
        (set_spec_operands (is_operands p) (is_implicit_operands p ++ map loaded_operand l) p)).
Proof.
  induction l as [|o l IH] in p |- *; cbn [forallb map for_each existsb].
  { intros _. destruct p; cbn. unfold set_mem_flags, set_spec_operands; cbn. by rewrite app_nil_r, !orb_false_r. }
  intros [Ho Hl]%andb_true_iff. rewrite parse_operand_node_of by done. cbn [mbind result_bind].
  rewrite IH by done. destruct p; unfold set_mem_flags, set_spec_operands; cbn.
  by rewrite !orb_false_r, <- !app_assoc, !orb_assoc.
Qed.

Lemma load_instruction i : loadable i = true →
  (n ← instruction_of_json (instruction_vars i); parse_instruction n) = Ok (loaded_spec i).
Proof.
  intros H. rewrite instruction_of_json_vars by done. unfold loadable in H.
  rewrite !andb_true_iff in H. destruct H as [[_ Ho] Hi]. cbn [mbind result_bind].
  unfold parse_instruction. cbn [in_name in_operands in_implicit_operands in_category in_control_flow].
  rewrite parse_operands_loop by done. cbn [mbind result_bind].
  rewrite parse_implicit_loop by done. unfold loaded_spec, set_mem_flags, set_spec_operands. cbn.
  by rewrite !existsb_app.
Qed.

Lemma init_from_save specs :
  forallb loadable specs = true → init_from_text (save specs) = Ok (map loaded_spec specs).
Proof.
  intros H. rewrite forallb_forall in H. unfold init_from_text. rewrite loads_save.
  - cbn [mbind result_bind as_list]. apply mapM_map. intros i Hi%list_elem_of_In. by apply load_instruction, H.
  - rewrite forallb_forall. intros i Hi. apply H in Hi. unfold loadable in Hi. by apply andb_true_iff in Hi as [[? _]%andb_true_iff _].
Qed.

(** ** What the transformation makes of the XML *)

Definition suppressed (op_node : element) : bool := attr_is "suppressed" "0" "1" op_node.
Definition marked (op_node : element) (o : GetSpec.OperandSpec) : GetSpec.OperandSpec :=
  if attr_is "implicit" "0" "1" op_node then set_magic o else o.

(** The operands of the nodes [p] holds of, in document order. *)
Definition operands_of (p : element → bool) (nodes : list element)
    (parsed : list (GetSpec.OperandSpec * bool)) : list GetSpec.OperandSpec :=
  map (λ np : element * (GetSpec.OperandSpec * bool), marked np.1 np.2.1)
    (List.filter (λ np, p np.1) (zip nodes parsed)).

Lemma add_operands_spec node ops i i' :
  for_each (add_operand node) ops i = Ok i' →
  ∃ parsed, mapM (parse_operand_node node) ops = Ok parsed ∧
    name i' = name i ∧ category i' = category i ∧
    control_flow i' = control_flow i || existsb snd parsed ∧
    operands i' = operands i ++ operands_of (λ n, negb (suppressed n)) ops parsed ∧
    implicit_operands i' = implicit_operands i ++ operands_of suppressed ops parsed.
Proof.
  induction ops as [|op ops IH] in i |- *; cbn [for_each].
  { intros [= <-]. exists []. by rewrite orb_false_r, !app_nil_r. }
  intros H. apply bind_Ok in H as (i1 & H1 & H). unfold add_operand in H1.
  apply bind_Ok in H1 as ([o cf] & Ho & H1). injection H1 as <-.
  apply IH in H as (parsed & Hp & Hn & Hc & Hcf & Hops & Hiops). clear IH.
  exists ((o, cf) :: parsed). split.
  { by rewrite mapM_step, Ho, Hp. }
  unfold operands_of in *. fold (suppressed op) in *. fold (marked op o) in *.
  cbn [zip zip_with List.filter existsb snd fst]. rewrite orb_assoc.
  destruct (suppressed op); cbn in *; split_and!; try done.
  - by rewrite Hiops, <- app_assoc.
  - by rewrite Hops, <- app_assoc.
Qed.

Lemma parse_operand_node_type node op o cf :
  parse_operand_node node op = Ok (o, cf) → succeeds (ot_str_to_enum (gs_type_ o)) = true.
Proof.
  unfold parse_operand_node. intros H. apply bind_Ok in H as (t & _ & H).
  repeat (destruct (bool_decide (t = _)); [inv_ok; simplify_eq|]); try done;
    repeat match goal with
    | H : (if ?b then _ else _) = Ok _ |- _ => destruct b; [done|]
    | H : parse_reg_operand _ = Ok _ |- _ => unfold parse_reg_operand in H; cbv zeta in H; inv_ok
    | H : parse_mem_operand _ = Ok _ |- _ => unfold parse_mem_operand in H
    | H : parse_imm_operand _ = Ok _ |- _ => unfold parse_imm_operand in H; inv_ok
    | H : parse_agen_operand _ = Ok _ |- _ => unfold parse_agen_operand in H
    | H : parse_label_operand _ = Ok _ |- _ => unfold parse_label_operand in H
    | H : parse_flags_operand _ = Ok _ |- _ => unfold parse_flags_operand in H
    end; inv_ok; by simplify_eq.
Qed.

(** What a specification takes from its instruction element. *)
Definition described_by (extensions : list string) (node : element) (i : GetSpec.InstructionSpec) : Prop :=
  unsupported_variant node = false ∧
  ∃ extension cat asm parsed,
    attr "extension" node = Ok extension ∧ attr "category" node = Ok cat ∧ attr "asm" node = Ok asm ∧
    (extensions = [] ∨ extension ∈ extensions) ∧
    name i = clean_name asm ∧ category i = extension +:+ "-" +:+ cat ∧
    mapM (parse_operand_node node) (e_iter "operand" node) = Ok parsed ∧
    control_flow i = existsb snd parsed ∧
    operands i = operands_of (λ n, negb (suppressed n)) (e_iter "operand" node) parsed ∧
    implicit_operands i = operands_of suppressed (e_iter "operand" node) parsed.

Lemma parse_instruction_node_spec extensions node i :
  parse_instruction_node extensions node = Ok (Some i) → described_by extensions node i.
Proof.
  unfold parse_instruction_node, described_by. destruct (unsupported_variant node); [done|].
  intros H. apply bind_Ok in H as (skip & Hskip & H). destruct skip; [done|].
  apply bind_Ok in H as (ext & Hext & H). apply bind_Ok in H as (cat & Hcat & H).
  apply bind_Ok in H as (asm & Hasm & H). split; [done|].
  destruct (for_each _ _ _) as [i'|e] eqn:E; [|by destruct e]. injection H as ->.
  apply add_operands_spec in E as (parsed & Hp & Hn & Hc & Hcf & Hops & Hiops).
  exists ext, cat, asm, parsed. split_and!; try done.
  destruct (bool_decide_reflect (extensions = [])) as [He|He]; [by left|right].
  rewrite Hext in Hskip. injection Hskip as Hm%negb_false_iff. by apply mem_spec.
Qed.

(** Every operand has a type the loader knows. *)
Lemma described_types extensions node i o :
  described_by extensions node i → o ∈ operands i ++ implicit_operands i →
  succeeds (ot_str_to_enum (gs_type_ o)) = true.
Proof.
  intros (_ & ext & cat & asm & parsed & _ & _ & _ & _ & _ & _ & Hp & _ & Hops & Hiops) Ho.
  assert (∃ p, o ∈ operands_of p (e_iter "operand" node) parsed) as (p & Hin).
  { apply elem_of_app in Ho as [Ho|Ho]; [rewrite Hops in Ho|rewrite Hiops in Ho]; eauto. }
  unfold operands_of in Hin. apply list_elem_of_fmap in Hin as ([n [o' cf]] & -> & Hin).
  apply list_elem_of_In, filter_In in Hin as [Hin _]. apply list_elem_of_In, elem_of_zip_r in Hin.
  apply (mapM_elem _ _ _ Hp) in Hin as (n' & _ & Hn'). apply parse_operand_node_type in Hn'.
  cbn. unfold marked. by destruct (attr_is _ _ _ _).
Qed.

Definition worded (i : GetSpec.InstructionSpec) : bool :=
  forallb (λ o, forallb (λ v : option string, bool_decide (is_Some v)) (gs_values o))
    (operands i ++ implicit_operands i).

Lemma missing_types extensions i o :
  i ∈ add_missing extensions → o ∈ operands i ++ implicit_operands i →
  succeeds (ot_str_to_enum (gs_type_ o)) = true.
Proof.
  unfold add_missing. intros Hi Ho.
  assert (∃ n c w, i = flush_instruction n c w) as (n & c & w & ->).
  { apply elem_of_app in Hi as [Hi|Hi]; case_match; try (by apply elem_of_nil in Hi);
      apply list_elem_of_fmap in Hi as (w & -> & _); eauto. }
  cbn in Ho. by apply list_elem_of_singleton in Ho as ->.
Qed.

Lemma loadable_of i :
  well_named i = true → worded i = true →
  (∀ o, o ∈ operands i ++ implicit_operands i → succeeds (ot_str_to_enum (gs_type_ o)) = true) →
  loadable i = true.
Proof.
  intros Hn Hw Ht. unfold worded in Hw. rewrite forallb_forall in Hw.
  assert (∀ o, o ∈ operands i ++ implicit_operands i → readable o = true) as Hr.
  { intros o Ho. unfold readable. rewrite (Ht o Ho), andb_true_r. by apply Hw, list_elem_of_In. }
  unfold loadable. rewrite Hn. cbn [andb]. rewrite andb_true_iff, !forallb_forall.
  split; intros o Ho; apply Hr, elem_of_app; [left|right]; by apply list_elem_of_In.
Qed.

(** C21: the generated instruction set is the loaded one.  From any XML tree the
    transformation accepts, the text it saves is read by the loader as exactly
    the specifications it made, in order: names, categories, control flow, and
    for every operand its type, values, width and read and write flags; memory
    operands and writes are recognised, the implicit mark of an operand is
    lost.  Every specification is one of the added ones or describes an
    instruction element of an accepted extension and variant, its operands in
    document order, split by whether they are suppressed; and every element
    that parses is there.  Names must need no escapes and implicit
    immediates must have a text. *)
Theorem generated_set_loads extensions tree specs :
  transform extensions tree = Ok specs →
  forallb well_named specs = true → forallb worded specs = true →
  init_from_text (save specs) = Ok (map loaded_spec specs) ∧
  (∀ i, i ∈ specs → i ∈ add_missing extensions ∨
     ∃ node, node ∈ e_iter "instruction" tree ∧ described_by extensions node i) ∧
  (∀ node i, node ∈ e_iter "instruction" tree →
     parse_instruction_node extensions node = Ok (Some i) → i ∈ specs).
Proof.
  intros H Hn Hw. unfold transform, load_files in H. case_bool_decide; [done|]. cbn in H.
  unfold parse_tree in H. apply bind_Ok in H as (l & H & [= <-]).
  apply bind_Ok in H as (parsed & Hp & [= <-]).
  assert (∀ i, i ∈ omap id parsed ++ add_missing extensions → i ∈ add_missing extensions ∨
    ∃ node, node ∈ e_iter "instruction" tree ∧ described_by extensions node i) as Hsrc.
  { intros i [Hi|Hi]%elem_of_app; [right|by left].
    apply list_elem_of_omap in Hi as (o & Ho & Hid). cbn in Hid. subst o.
    apply (mapM_elem _ _ _ Hp) in Ho as (node & Hnode & Hi).
    exists node. split; [done|]. by apply parse_instruction_node_spec. }
  rewrite forallb_forall in Hn, Hw. split_and!; [|done|].
  - apply init_from_save. rewrite forallb_forall. intros i Hi. apply loadable_of; [by apply Hn|by apply Hw|].
    intros o Ho. apply list_elem_of_In, Hsrc in Hi as [Hi|(node & _ & Hi)].
    + by eapply missing_types.
    + by eapply described_types.
  - intros node i Hnode Hi. apply elem_of_app. left. apply list_elem_of_omap. exists (Some i).
    split; [|done]. by apply (mapM_image _ _ _ Hp node).
Qed.

(** ** A small tree: one instruction of each kind of operand, and one unsupported variant *)
Module GetSpecDemo.
Definition el (tag : string) (attrs : list (string * string)) (text : option string)
    (children : list element) : element := Element tag (list_to_map attrs) text children.
Definition instruction (asm extension category : string) (more : list (string * string))
    (ops : list element) : element :=
  el "instruction" (("asm", asm) :: ("extension", extension) :: ("category", category) :: more) None ops.
Definition tree : element :=
  el "root" [] None [el "extension" [] None [
    instruction "{load} ADD" "BASE" "BINARY" []
      [el "operand" [("type", "reg"); ("r", "1"); ("w", "1"); ("width", "8")] (Some "AL,BL") [];
       el "operand" [("type", "mem"); ("r", "1"); ("width", "8")] None [];
       el "operand" [("type", "flags"); ("suppressed", "1"); ("flag_CF", "w")] None []];
    instruction "SAR" "BASE" "SHIFT" []
      [el "operand" [("type", "reg"); ("r", "1"); ("w", "1")] (Some "RAX") [];
       el "operand" [("type", "imm"); ("implicit", "1"); ("width", "8")] (Some "1") []];
    instruction "JMP" "BASE" "UNCOND_BR" []
      [el "operand" [("type", "relbr"); ("width", "32")] None [];
       el "operand" [("type", "reg"); ("suppressed", "1"); ("width", "64")] (Some "RIP") []];
    instruction "VADDPD" "AVX512EVEX" "AVX512" [("zeroing", "1")] []]].
End GetSpecDemo.

Lemma generated_set_loads_witness :
  ∃ specs, transform [] GetSpecDemo.tree = Ok specs ∧ length specs = 11%nat ∧
    init_from_text (save specs) = Ok (map loaded_spec specs) ∧
    (∀ i, i ∈ specs → i ∈ add_missing [] ∨
       ∃ node, node ∈ e_iter "instruction" GetSpecDemo.tree ∧ described_by [] node i) ∧
    (∀ node i, node ∈ e_iter "instruction" GetSpecDemo.tree →
       parse_instruction_node [] node = Ok (Some i) → i ∈ specs).
Proof.
  eexists. split; [vm_compute; reflexivity|]. split; [reflexivity|].
  apply generated_set_loads; vm_compute; reflexivity.
Defined.
