(* ===== verification/LegacyIsa.v ===== *)
(** * The XML instruction set

    [InstructionSet] of [src/src/instruction_set.py], the reader of the XML description
    that [isa_loader.py] replaced: the specifications, their filter, the removal of
    duplicates.  The lists [all] and [control_flow] hold the same objects: they are lists
    of positions in the list of specifications read, and the filter rewrites that list.  The order in which
    Python lists a set of strings is a parameter. *)

From S2P Require Import Prelude Isa Text Json Generator Util Analyser IsaLoader GetSpec.

Open Scope Z_scope.

(** The access strings are kept as the file has them; a value is [None] where the element
    has no text. *)
Record legacy_op := mkLegacyOp {
  lo_values : list (option string); lo_type : OT; lo_width : Z; lo_src : string; lo_dest : string;
  lo_magic : bool }.
Record legacy_spec := mkLegacySpec {
  ls_name : string; ls_category : string; ls_control_flow : bool;
  ls_zeroing : bool; ls_rnsae : bool; ls_sae : bool;
  ls_operands : list legacy_op; ls_implicit : list legacy_op;
  ls_mem : bool; ls_write : bool; ls_magic : bool }.

(** A string as a condition. *)
Definition truthy_text (s : string) : bool := negb (s =? "")%string.

(** ** Operands *)

(** [int(op.attrib['width'])] *)
Definition width_attr (op : element) : result Z := attr "width" op ≫= py_int.

Definition legacy_reg (op : element) : result legacy_op :=
  text ← from_option AttributeError (e_text op);
  width ← width_of op;
  Ok (mkLegacyOp (map Some (split "," text)) REG width (attr_get "r" "0" op) (attr_get "w" "0" op) false).
Definition legacy_mem (op : element) : result legacy_op :=
  width ← width_attr op;
  assert_ (attr_is "VSIB" "0" "0" op) AssertionError;;
  assert_ (attr_is "memory-suffix" "" "" op) AssertionError;;
  let base := attr_get "base" "" op in
  Ok (mkLegacyOp (if truthy_text base then [Some base] else []) MEM width
        (attr_get "r" "0" op) (attr_get "w" "0" op) false).
Definition legacy_agen (op : element) : result legacy_op :=
  width ← width_of op; Ok (mkLegacyOp [] AGEN width "1" "0" false).
Definition legacy_imm (op : element) : result legacy_op :=
  let value := if attr_is "implicit" "0" "1" op then [e_text op] else [] in
  width ← width_attr op; Ok (mkLegacyOp value IMM width "1" "0" false).
Definition legacy_label : legacy_op := mkLegacyOp [] LABEL 0 "1" "0" false.
Definition legacy_flags (op : element) : legacy_op :=
  mkLegacyOp (map (λ f, Some (attr_get f "" op)) flag_attributes) FLAGS 0 "0" "0" false.

(** ** Instructions *)

Definition set_legacy_cf (i : legacy_spec) : legacy_spec :=
  mkLegacySpec (ls_name i) (ls_category i) true (ls_zeroing i) (ls_rnsae i) (ls_sae i)
    (ls_operands i) (ls_implicit i) (ls_mem i) (ls_write i) (ls_magic i).
Definition set_legacy_mem (write : bool) (i : legacy_spec) : legacy_spec :=
  mkLegacySpec (ls_name i) (ls_category i) (ls_control_flow i) (ls_zeroing i) (ls_rnsae i) (ls_sae i)
    (ls_operands i) (ls_implicit i) true (ls_write i || write) (ls_magic i).
Definition set_legacy_ops (ops iops : list legacy_op) (magic : bool) (i : legacy_spec) : legacy_spec :=
  mkLegacySpec (ls_name i) (ls_category i) (ls_control_flow i) (ls_zeroing i) (ls_rnsae i) (ls_sae i)
    ops iops (ls_mem i) (ls_write i) (ls_magic i || magic).

(** One operand node, by its type: the operand and what the instruction learns of it. *)
Definition legacy_operand (node op_node : element) (i : legacy_spec) : result (legacy_op * legacy_spec) :=
  op_type ← attr "type" op_node;
  if bool_decide (op_type = "reg") then
    op ← legacy_reg op_node;
    Ok (op, if bool_decide (e_text op_node = Some "RIP") then set_legacy_cf i else i)
  else if bool_decide (op_type = "mem") then
    op ← legacy_mem op_node; Ok (op, set_legacy_mem (truthy_text (lo_dest op)) i)
  else if bool_decide (op_type = "agen") then
    attr "agen" node;; op ← legacy_agen op_node; Ok (op, i)
  else if bool_decide (op_type = "imm") then op ← legacy_imm op_node; Ok (op, i)
  else if bool_decide (op_type = "relbr") then Ok (legacy_label, set_legacy_cf i)
  else if bool_decide (op_type = "flags") then Ok (legacy_flags op_node, i)
  else Raise PlainException.

Definition legacy_add (node op_node : element) (i : legacy_spec) : result legacy_spec :=
  '(op, i) ← legacy_operand node op_node i;
  let magic := attr_is "implicit" "0" "1" op_node in
  let op := mkLegacyOp (lo_values op) (lo_type op) (lo_width op) (lo_src op) (lo_dest op)
              (lo_magic op || magic) in
  Ok (if attr_is "suppressed" "0" "1" op_node
      then set_legacy_ops (ls_operands i) (ls_implicit i ++ [op]) magic i
      else set_legacy_ops (ls_operands i ++ [op]) (ls_implicit i) magic i).

Definition legacy_instruction (node : element) : result legacy_spec :=
  name ← attr "asm" node;
  category ← attr "category" node;
  control_flow ← attr "control_flow" node;
  for_each (legacy_add node) (e_iter "op" node)
    (mkLegacySpec name category (truthy_text control_flow) (attr_is "zeroing" "" "1" node)
       (attr_is "roundc" "" "1" node) (attr_is "sae" "" "1" node) [] [] false false false).

Definition legacy_init_from_file (root : element) : result (list legacy_spec) :=
  mapM legacy_instruction (e_iter "instruction" root).

(** ** [reduce] *)

(** The object: [all] and [control_flow] are positions in the specifications. *)
Record legacy_isa := mkLegacyIsa {
  li_specs : list legacy_spec; li_all : list nat; li_control_flow : list nat;
  li_has_unconditional_branch : bool; li_has_conditional_branch : bool;
  li_has_reads : bool; li_has_writes : bool }.

(** [l.remove(x)]: the first occurrence; and for each of [xs]. *)
Fixpoint remove_index (x : nat) (l : list nat) : option (list nat) :=
  match l with
  | [] => None
  | y :: l => if decide (y = x) then Some l else cons y <$> remove_index x l
  end.
Fixpoint remove_each (xs l : list nat) : result (list nat) :=
  match xs with
  | [] => Ok l
  | x :: xs => l ← from_option ValueError (remove_index x l); remove_each xs l
  end.

Section reduce.
Context (no_generation : bool) (include_categories : list string).
Context (instruction_blocklist gpr_blocklist : list string).
Context (set_order : list string → list string).

Definition blocked_value (v : option string) : bool :=
  match v with Some v => mem v gpr_blocklist | None => false end.

Fixpoint legacy_implicit (ops : list legacy_op) : result bool :=
  match ops with
  | [] => Ok true
  | op :: ops =>
      assert_ (negb (bool_decide (lo_type op = LABEL))) AssertionError;;
      blocked ← (if bool_decide (lo_type op = MEM) || bool_decide (lo_type op = REG)
                 then v ← from_option IndexError (head (lo_values op)); Ok (blocked_value v)
                 else Ok false);
      if negb blocked then legacy_implicit ops
      else if bool_decide (lo_type op = MEM) then Ok false
      else assert_ (length (lo_values op) =? 1)%nat AssertionError;; Ok false
  end.

Definition legacy_blocked (op : legacy_op) : bool :=
  bool_decide (lo_type op = MEM) && match lo_values op with v :: _ => blocked_value v | [] => false end.

Definition legacy_supported (s : legacy_spec) : result bool :=
  if no_generation then Ok true
  else if negb (bool_decide (include_categories = [])) && negb (mem (ls_category s) include_categories)
  then Ok false
  else if ls_sae s || ls_rnsae s || ls_zeroing s then Ok false
  else if mem (ls_name s) instruction_blocklist then Ok false
  else if existsb legacy_blocked (ls_operands s) then Ok false
  else legacy_implicit (ls_implicit s).

(** The loop over the operands: the operands after it, and [skip_pending].  The values of
    a register operand are strings. *)
Fixpoint legacy_choices (ops : list legacy_op) : result (list legacy_op * bool) :=
  match ops with
  | [] => Ok ([], false)
  | op :: ops =>
      if bool_decide (lo_type op = REG) then
        values ← mapM (from_option TypeError) (lo_values op);
        let choices := choices_of gpr_blocklist set_order values in
        if bool_decide (length choices = 0%nat) then Ok (op :: ops, true)
        else
          values ← mapM low_byte choices;
          '(rest, pending) ← legacy_choices ops;
          Ok (mkLegacyOp (map Some values) (lo_type op) (lo_width op) (lo_src op) (lo_dest op)
                (lo_magic op) :: rest, pending)
      else '(rest, pending) ← legacy_choices ops; Ok (op :: rest, pending)
  end.

(** What the loop does for one specification: the object afterwards, how often it enters
    [skip_list], whether it enters [control_flow]. *)
Record outcome := mkOutcome { o_spec : legacy_spec; o_skips : nat; o_cf : bool }.
Definition legacy_reduce_one (s : legacy_spec) : result outcome :=
  supported ← legacy_supported s;
  if supported : bool then
    '(ops, pending) ← legacy_choices (ls_operands s);
    let n := if ls_control_flow s then 1%nat else 0%nat in
    Ok (mkOutcome (set_legacy_ops ops (ls_implicit s) false s) (if pending : bool then S n else n)
          (ls_control_flow s))
  else Ok (mkOutcome s 1 false).

Definition skip_list (outcomes : list outcome) : list nat :=
  concat (imap (λ i o, replicate (o_skips o) i) outcomes).
Definition cf_list (outcomes : list outcome) : list nat :=
  concat (imap (λ i o, if o_cf o then [i] else []) outcomes).

Definition legacy_attributes (specs : list legacy_spec) (all cf : list nat) : legacy_isa :=
  let insts := omap (λ i, specs !! i) (all ++ cf) in
  mkLegacyIsa specs all cf
    (existsb (λ i, ls_control_flow i && bool_decide (ls_category i = "UNCOND_BR")) insts)
    (existsb (λ i, ls_control_flow i && negb (bool_decide (ls_category i = "UNCOND_BR"))) insts)
    (existsb (λ i, negb (ls_control_flow i) && ls_mem i && negb (ls_write i)) insts)
    (existsb (λ i, negb (ls_control_flow i) && ls_mem i && ls_write i) insts).

Definition legacy_reduce (specs : list legacy_spec) : result legacy_isa :=
  outcomes ← mapM legacy_reduce_one specs;
  all ← remove_each (skip_list outcomes) (seq 0 (length specs));
  Ok (legacy_attributes (map o_spec outcomes) all (cf_list outcomes)).

(** ** [dedup] *)

Definition same_legacy_op (op1 op2 : legacy_op) : bool :=
  bool_decide (lo_type op1 = lo_type op2) && bool_decide (lo_values op1 = lo_values op2) &&
  (bool_decide (lo_width op1 = lo_width op2) || bool_decide (lo_type op1 = IMM)).
Definition legacy_duplicates (specs : list legacy_spec) (i j : nat) : bool :=
  match specs !! i, specs !! j with
  | Some inst1, Some inst2 =>
      bool_decide (ls_name inst1 = ls_name inst2) &&
      (length (ls_operands inst1) =? length (ls_operands inst2))%nat &&
      forallb (λ p : legacy_op * legacy_op, same_legacy_op p.1 p.2)
        (zip (ls_operands inst1) (ls_operands inst2))
  | _, _ => false
  end.
(** The set of the specifications that a later one of [all] duplicates. *)
Fixpoint duplicated (specs : list legacy_spec) (all : list nat) : list nat :=
  match all with
  | [] => []
  | i :: all =>
      (if existsb (legacy_duplicates specs i) all then [i] else []) ++ duplicated specs all
  end.

Definition legacy_dedup (isa : legacy_isa) : result legacy_isa :=
  all ← remove_each (duplicated (li_specs isa) (li_all isa)) (li_all isa);
  Ok (mkLegacyIsa (li_specs isa) all (li_control_flow isa) (li_has_unconditional_branch isa)
        (li_has_conditional_branch isa) (li_has_reads isa) (li_has_writes isa)).

Definition new_legacy_isa (root : element) : result legacy_isa :=
  specs ← legacy_init_from_file root;
  isa ← legacy_reduce specs;
  legacy_dedup isa.
End reduce.

(** ** Removing *)

Lemma filter_keeps_all {A} (P : A → Prop) `{∀ x, Decision (P x)} (l : list A) : (∀ x, x ∈ l → P x) → filter P l = l.
Proof.
  induction l as [|x l IH]; intros Hl; [done|]. rewrite filter_cons_True by (apply Hl; by left).
  f_equal. apply IH. intros y Hy. apply Hl. by right.
Qed.

Lemma remove_index_NoDup x l :
  NoDup l → remove_index x l = if decide (x ∈ l) then Some (filter (λ y, y ≠ x) l) else None.
Proof.
  induction 1 as [|y l Hy Hl IH]; [done|]. cbn [remove_index]. rewrite filter_cons. destruct (decide (y = x)) as [->|Hne].
  - rewrite decide_True by left. rewrite decide_False by naive_solver. f_equal.
    symmetry. apply filter_keeps_all. intros z Hz ->. done.
  - rewrite IH, (decide_True (P := y ≠ x)) by done. destruct (decide (x ∈ l)) as [Hx|Hx].
    + by rewrite decide_True by (by right).
    + rewrite decide_False; [done|]. by intros [->|?]%elem_of_cons.
Qed.

Lemma remove_each_spec xs l :
  NoDup l → remove_each xs l =
  if decide (NoDup xs ∧ Forall (λ x, x ∈ l) xs) then Ok (filter (λ y, y ∉ xs) l) else Raise ValueError.
Proof.
  induction xs as [|x xs IH] in l |- *; intros Hl; cbn.
  { rewrite decide_True by (split; constructor). f_equal. symmetry. apply filter_keeps_all.
    intros y _ H. by apply elem_of_nil in H. }
  rewrite remove_index_NoDup by done. destruct (decide (x ∈ l)) as [Hx|Hx]; cbn.
  - rewrite IH by (by apply NoDup_filter). destruct (decide (NoDup (x :: xs) ∧ _)) as [[Hnd Hin]|Hno].
    + apply NoDup_cons in Hnd as [Hxs Hnd]. apply Forall_cons in Hin as [_ Hin]. rewrite decide_True.
      * f_equal. rewrite list_filter_filter. apply list_filter_iff. intros y. rewrite elem_of_cons. naive_solver.
      * split; [done|]. rewrite !Forall_forall in Hin |- *. intros y Hy. apply list_elem_of_filter.
        split; [by intros ->|by apply Hin].
    + rewrite decide_False; [done|]. intros [Hnd Hin]. apply Hno. split.
      * apply NoDup_cons. split; [|done]. intros Hxs. rewrite Forall_forall in Hin.
        by apply Hin, list_elem_of_filter in Hxs as [].
      * constructor; [done|]. eapply Forall_impl; [exact Hin|]. by intros y [_ ?]%list_elem_of_filter.
  - rewrite decide_False; [done|]. intros [_ Hin]. by apply Forall_cons in Hin as [].
Qed.

(** ** The positions the filter collects *)

Lemma skip_list_snoc os o : skip_list (os ++ [o]) = skip_list os ++ replicate (o_skips o) (length os).
Proof.
  unfold skip_list. rewrite imap_app, concat_app. cbn. by rewrite app_nil_r, Nat.add_0_r.
Qed.
Lemma cf_list_snoc os o : cf_list (os ++ [o]) = cf_list os ++ if o_cf o then [length os] else [].
Proof.
  unfold cf_list. rewrite imap_app, concat_app. cbn. by rewrite app_nil_r, Nat.add_0_r.
Qed.

Lemma elem_of_snoc_lookup {A} (P : A → Prop) os o i :
  (∃ x, (os ++ [o]) !! i = Some x ∧ P x) ↔ (∃ x, os !! i = Some x ∧ P x) ∨ i = length os ∧ P o.
Proof.
  split.
  - intros (x & [Hx|[Hi Hx]]%lookup_app_Some & HP); [left; by exists x|].
    apply list_lookup_singleton_Some in Hx as [Hi' ->]. right. split; [lia|done].
  - intros [(x & Hx & HP)|[-> HP]].
    + exists x. split; [by apply lookup_app_l_Some|done].
    + exists o. split; [by rewrite list_lookup_middle|done].
Qed.

Lemma elem_of_skip_list os i : i ∈ skip_list os ↔ ∃ o, os !! i = Some o ∧ o_skips o ≠ 0%nat.
Proof.
  induction os as [|o os IH] using rev_ind.
  { split; [by intros ?%elem_of_nil|by intros (? & ? & ?)]. }
  rewrite skip_list_snoc, elem_of_app, IH, elem_of_replicate.
  by rewrite (elem_of_snoc_lookup (λ o, o_skips o ≠ 0%nat)).
Qed.
Lemma elem_of_cf_list os i : i ∈ cf_list os ↔ ∃ o, os !! i = Some o ∧ o_cf o = true.
Proof.
  induction os as [|o os IH] using rev_ind.
  { split; [by intros ?%elem_of_nil|by intros (? & ? & ?)]. }
  rewrite cf_list_snoc, elem_of_app, IH, (elem_of_snoc_lookup (λ o, o_cf o = true)).
  destruct (o_cf o); rewrite ?list_elem_of_singleton, ?elem_of_nil; naive_solver.
Qed.

Lemma NoDup_skip_list os : NoDup (skip_list os) ↔ Forall (λ o, (o_skips o ≤ 1)%nat) os.
Proof.
  induction os as [|o os IH] using rev_ind; [split; constructor|].
  rewrite skip_list_snoc, NoDup_app, IH, Forall_app, Forall_singleton. split.
  - intros (H & _ & Ho). split; [done|]. destruct (o_skips o) as [|[|n]]; [lia|lia|].
    cbn in Ho. apply NoDup_cons in Ho as [Ho _]. destruct Ho. by left.
  - intros [H Ho]. split; [done|]. split.
    + intros i (x & Hx & _)%elem_of_skip_list [-> _]%elem_of_replicate.
      apply lookup_lt_Some in Hx. lia.
    + destruct (o_skips o) as [|[|n]]; [constructor|apply NoDup_singleton|lia].
Qed.

Section facts.
Context (no_generation : bool) (include_categories instruction_blocklist gpr_blocklist : list string).
Context (set_order : list string → list string).
Let supported := legacy_supported no_generation include_categories instruction_blocklist gpr_blocklist.
Let reduce_one := legacy_reduce_one no_generation include_categories instruction_blocklist gpr_blocklist set_order.
Let reduce := legacy_reduce no_generation include_categories instruction_blocklist gpr_blocklist set_order.
Let load := new_legacy_isa no_generation include_categories instruction_blocklist gpr_blocklist set_order.

(** Once every specification is looked at, the only error left is an instruction that is to
    be removed twice. *)
Lemma legacy_reduce_spec specs outcomes :
  mapM reduce_one specs = Ok outcomes →
  reduce specs =
  if decide (Forall (λ o, (o_skips o ≤ 1)%nat) outcomes)
  then Ok (legacy_attributes (map o_spec outcomes)
             (filter (λ i, i ∉ skip_list outcomes) (seq 0 (length specs))) (cf_list outcomes))
  else Raise ValueError.
Proof.
  intros H. unfold reduce, legacy_reduce. fold reduce_one. rewrite H. cbn.
  rewrite remove_each_spec by apply NoDup_seq.
  destruct (decide (Forall _ outcomes)) as [Hf|Hf]; rewrite <- NoDup_skip_list in Hf.
  - rewrite decide_True; [done|]. split; [done|]. apply Forall_forall.
    intros i (o & Ho & _)%elem_of_skip_list. apply elem_of_seq.
    apply lookup_lt_Some in Ho. rewrite (mapM_length _ _ _ H) in Ho. lia.
  - by rewrite decide_False by naive_solver.
Qed.

(** The registers of an operand that may be used, and none of them blocked. *)
Definition legacy_usable (s s' : legacy_spec) : Prop :=
  ls_name s' = ls_name s ∧ ls_category s' = ls_category s ∧ ls_control_flow s' = ls_control_flow s ∧
  ls_mem s' = ls_mem s ∧ ls_write s' = ls_write s ∧
  Forall2 (λ op op', lo_type op' = lo_type op ∧ lo_width op' = lo_width op ∧
      if decide (lo_type op = REG)
      then lo_values op' ≠ [] ∧ ∀ v, v ∈ lo_values op' →
             ∃ u w, v = Some w ∧ Some u ∈ lo_values op ∧ u ∉ gpr_blocklist ∧ low_byte u = Ok w
      else op' = op) (ls_operands s) (ls_operands s').

Lemma mapM_strings (vs : list (option string)) l :
  mapM (from_option TypeError) vs = Ok l → vs = map Some l.
Proof.
  revert l. induction vs as [|[v|] vs IH]; intros l H; cbn in H; inv_ok; [done|].
  cbn. f_equal. by apply IH.
Qed.

Lemma legacy_choices_spec ops ops' :
  (∀ l, set_order l ≡ₚ l) → legacy_choices gpr_blocklist set_order ops = Ok (ops', false) →
  Forall2 (λ op op', lo_type op' = lo_type op ∧ lo_width op' = lo_width op ∧
      if decide (lo_type op = REG)
      then lo_values op' ≠ [] ∧ ∀ v, v ∈ lo_values op' →
             ∃ u w, v = Some w ∧ Some u ∈ lo_values op ∧ u ∉ gpr_blocklist ∧ low_byte u = Ok w
      else op' = op) ops ops'.
Proof.
  intros Hperm. revert ops'. induction ops as [|o ops IH]; intros ops' H; cbn [legacy_choices] in H.
  { injection H as <-. constructor. }
  destruct (bool_decide_reflect (lo_type o = REG)) as [Hreg|Hreg].
  - apply bind_Ok in H as (values & Hv & H). cbv zeta in H. apply mapM_strings in Hv.
    case_bool_decide as Hne; [done|]. apply bind_Ok in H as (lows & Hl & H).
    apply bind_Ok in H as ([rest pending] & Hr & H). injection H as <- ->.
    constructor; [|by apply IH]. split; [done|]. split; [done|]. rewrite decide_True by done. cbn [lo_values].
    pose proof (mapM_length _ _ _ Hl) as Hlen. split; [by destruct lows|].
    intros v (w & -> & Hw)%list_elem_of_fmap. apply (mapM_elem _ _ _ Hl) in Hw as (u & Hu & Hlow).
    exists u, w. split; [done|]. unfold choices_of in Hu. rewrite Hperm in Hu.
    apply elem_of_list_filter_bool in Hu as [Hb Hu]. rewrite elem_of_remove_dups in Hu.
    apply negb_true_iff, mem_false in Hb. rewrite Hv. split; [by apply list_elem_of_fmap_2|done].
  - apply bind_Ok in H as ([rest pending] & Hr & H). injection H as <- ->.
    constructor; [|by apply IH]. split; [done|]. split; [done|]. by rewrite decide_False.
Qed.

Lemma legacy_reduce_one_spec s o :
  (∀ l, set_order l ≡ₚ l) → reduce_one s = Ok o →
  (o_skips o = 0%nat ∨ o_cf o = true ∧ (o_skips o ≤ 1)%nat →
     supported s = Ok true ∧ legacy_usable s (o_spec o)) ∧
  (o_skips o = 0%nat → ls_control_flow s = false) ∧ (o_cf o = true → ls_control_flow s = true).
Proof.
  intros Hperm H. unfold reduce_one, legacy_reduce_one in H. fold supported in H.
  apply bind_Ok in H as ([] & Hs & H).
  - apply bind_Ok in H as ([ops pending] & Ho & H). injection H as <-.
    cbn [o_skips o_cf o_spec]. split; [|by destruct pending, (ls_control_flow s)].
    intros Hk. split; [done|]. destruct pending; [destruct (ls_control_flow s); naive_solver lia|].
    repeat (split; [done|]). by apply legacy_choices_spec.
  - injection H as <-. cbn. naive_solver.
Qed.

(** ** What is loaded *)

Lemma mapM_lookup {A B} (f : A → result B) l k i y :
  mapM f l = Ok k → k !! i = Some y → ∃ x, l !! i = Some x ∧ f x = Ok y.
Proof.
  revert k i. induction l as [|x l IH]; intros k i H Hy; cbn in H; inv_ok; [done|].
  destruct i as [|i]; [injection Hy as <-; by exists x|]. by eapply IH.
Qed.

Lemma mapM_lookup_l {A B} (f : A → result B) l k i x :
  mapM f l = Ok k → l !! i = Some x → ∃ y, k !! i = Some y ∧ f x = Ok y.
Proof.
  intros H Hx. pose proof (mapM_length _ _ _ H) as Hlen. apply lookup_lt_Some in Hx as Hlt.
  destruct (lookup_lt_is_Some_2 k i) as [y Hy]; [lia|]. exists y. split; [done|].
  destruct (mapM_lookup _ _ _ _ _ H Hy) as (x' & Hx' & Hf). congruence.
Qed.

Lemma duplicated_sublist specs all : sublist (duplicated specs all) all.
Proof.
  induction all as [|i all IH]; cbn; [done|]. destruct (existsb _ _); [by apply sublist_skip|by apply sublist_cons].
Qed.

Lemma sublist_NoDup {A} (l k : list A) : sublist l k → NoDup k → NoDup l.
Proof.
  induction 1 as [|x l k Hs IH|x l k Hs IH]; intros Hk; [constructor| |].
  - apply NoDup_cons in Hk as [Hx Hk]. constructor; [|by apply IH]. intros Hl. apply Hx. by eapply elem_of_sublist.
  - apply NoDup_cons in Hk as [_ Hk]. by apply IH.
Qed.

Lemma legacy_dedup_returns isa :
  NoDup (li_all isa) → ∃ isa', legacy_dedup isa = Ok isa' ∧ li_specs isa' = li_specs isa ∧
    li_all isa' = filter (λ i, i ∉ duplicated (li_specs isa) (li_all isa)) (li_all isa) ∧
    li_control_flow isa' = li_control_flow isa.
Proof.
  intros Hnd. unfold legacy_dedup. rewrite remove_each_spec by done. rewrite decide_True; [cbn; by eexists|].
  split; [by eapply sublist_NoDup; [apply duplicated_sublist|]|].
  apply Forall_forall. intros i Hi. eapply elem_of_sublist; [exact Hi|apply duplicated_sublist].
Qed.

Lemma filter_seq_sorted (P : nat → Prop) `{∀ i, Decision (P i)} a n : StronglySorted lt (filter P (seq a n)).
Proof.
  induction n as [|n IH] in a |- *; [constructor|]. cbn [seq]. rewrite filter_cons.
  destruct (decide (P a)); [|apply IH]. constructor; [apply IH|].
  apply Forall_forall. intros i [_ Hi]%list_elem_of_filter. apply elem_of_seq in Hi. lia.
Qed.

Lemma duplicated_later specs all i j :
  StronglySorted lt all → i ∈ all → j ∈ all → (i < j)%nat → legacy_duplicates specs i j = true →
  i ∈ duplicated specs all.
Proof.
  induction 1 as [|a all Hs IH Ha]; [by intros ?%elem_of_nil|]. rewrite Forall_forall in Ha.
  intros [->|Hi]%elem_of_cons [->|Hj]%elem_of_cons Hij Hd; cbn; apply elem_of_app; [lia| | |].
  - left. assert (existsb (legacy_duplicates specs a) all = true) as ->; [|by left].
    apply existsb_exists. exists j. split; [by apply list_elem_of_In|done].
  - specialize (Ha i Hi). lia.
  - right. by apply IH.
Qed.

(** The set that is loaded from the XML file: the instructions that can be generated come from
    supported ones of the file that are no branches, the branches are apart, every register
    operand offers only registers that are not blocked, and no two instructions
    are duplicates. *)
Lemma legacy_instruction_set root isa :
  (∀ l, set_order l ≡ₚ l) → load root = Ok isa →
  ∃ specs, legacy_init_from_file root = Ok specs ∧
    (∀ i, i ∈ li_all isa ∨ i ∈ li_control_flow isa → ∃ s s', specs !! i = Some s ∧ li_specs isa !! i = Some s' ∧
       supported s = Ok true ∧ legacy_usable s s' ∧
       (i ∈ li_all isa → ls_control_flow s = false) ∧ (i ∈ li_control_flow isa → ls_control_flow s = true)) ∧
    (∀ i j, i ∈ li_all isa → j ∈ li_all isa → (i < j)%nat → legacy_duplicates (li_specs isa) i j = false).
Proof.
  intros Hperm H. unfold load, new_legacy_isa in H. fold reduce in H.
  apply bind_Ok in H as (specs & Hinit & H). apply bind_Ok in H as (isa1 & Hred & H).
  exists specs. split; [done|].
  assert (∃ outcomes, mapM reduce_one specs = Ok outcomes) as [outcomes Ho].
  { unfold reduce, legacy_reduce in Hred. apply bind_Ok in Hred as (os & Hos & _). by exists os. }
  rewrite (legacy_reduce_spec _ _ Ho) in Hred. destruct (decide _) as [Hskips|]; [|done]. injection Hred as <-.
  set (kept := filter _ _) in H.
  assert (Hkept : NoDup kept) by apply NoDup_filter, NoDup_seq.
  destruct (legacy_dedup_returns (legacy_attributes (map o_spec outcomes) kept (cf_list outcomes)))
    as (isa' & E & Hspecs & Hall & Hcf); [done|]. rewrite E in H. injection H as ->.
  cbn [li_specs li_all li_control_flow legacy_attributes] in Hspecs, Hall, Hcf. rewrite Hspecs, Hall, Hcf.
  assert (Hskip : ∀ i o, outcomes !! i = Some o → i ∈ kept → o_skips o = 0%nat).
  { intros i o Hio [Hi _]%list_elem_of_filter. rewrite elem_of_skip_list in Hi.
    destruct (decide (o_skips o = 0%nat)); [done|]. destruct Hi. by exists o. }
  split.
  - intros i Hi. assert (∃ o, outcomes !! i = Some o) as [o Hio].
    { destruct Hi as [[_ [_ Hi]%list_elem_of_filter]%list_elem_of_filter|(o & Ho' & _)%elem_of_cf_list]; [|by exists o].
      apply elem_of_seq in Hi. apply lookup_lt_is_Some_2. rewrite (mapM_length _ _ _ Ho). lia. }
    destruct (mapM_lookup _ _ _ _ _ Ho Hio) as (s & Hs & Hone).
    destruct (legacy_reduce_one_spec _ _ Hperm Hone) as (Huse & Hn & Hc).
    assert (Hin : i ∈ cf_list outcomes → o_cf o = true).
    { intros (o' & Ho' & Hcf')%elem_of_cf_list. congruence. }
    exists s, (o_spec o). split; [done|]. split; [by rewrite list_lookup_fmap, Hio|].
    destruct Huse as [Hsup Huse].
    { destruct Hi as [[_ Hi]%list_elem_of_filter|Hi]; [left; by eapply Hskip|right; split; [by apply Hin|]].
      rewrite Forall_forall in Hskips. by eapply Hskips, list_elem_of_lookup_2. }
    split; [done|]. split; [done|]. split; [|by intros ?%Hin%Hc].
    intros [_ Hi']%list_elem_of_filter. apply Hn. by eapply Hskip.
  - intros i j [Hi Hik]%list_elem_of_filter [_ Hjk]%list_elem_of_filter Hij.
    apply not_true_iff_false. intros Hd. apply Hi.
    eapply duplicated_later; eauto. apply filter_seq_sorted.
Qed.

(** A supported branch with a register operand all of whose registers are blocked is entered
    twice in [skip_list], and the second removal fails. *)
Lemma legacy_branch_without_choices specs s ops :
  s ∈ specs → supported s = Ok true → ls_control_flow s = true →
  legacy_choices gpr_blocklist set_order (ls_operands s) = Ok (ops, true) →
  ∃ e, reduce specs = Raise e ∧ (∀ outcomes, mapM reduce_one specs = Ok outcomes → e = ValueError).
Proof.
  intros [i Hi]%list_elem_of_lookup_1 Hsup Hcf Hops. destruct (mapM reduce_one specs) as [outcomes|e] eqn:E.
  - exists ValueError. split; [|done]. rewrite (legacy_reduce_spec _ _ E), decide_False; [done|].
    destruct (mapM_lookup_l _ _ _ _ _ E Hi) as (o & Ho & Hone).
    unfold reduce_one, legacy_reduce_one in Hone. fold supported in Hone. rewrite Hsup in Hone. cbn in Hone.
    rewrite Hops, Hcf in Hone. cbn in Hone. injection Hone as <-.
    intros Hf. eapply Forall_lookup_1 in Hf; [|exact Ho]. cbn in Hf. lia.
  - exists e. split; [|done]. unfold reduce, legacy_reduce. fold reduce_one. by rewrite E.
Qed.
End facts.

(** ** Memory operands *)

(** The access strings of the file are read as conditions, and [0] is a string that is not
    empty: a memory operand is always a write, and the set never has reads. *)
Definition write_stated (node : element) : Prop := ∀ op, op ∈ e_iter "op" node → attr_get "w" "0" op ≠ "".

Lemma legacy_mem_dest op r : legacy_mem op = Ok r → lo_dest r = attr_get "w" "0" op.
Proof. intros H. unfold legacy_mem in H. inv_ok. by simplify_eq/=. Qed.

Lemma legacy_add_write node op i i' :
  attr_get "w" "0" op ≠ "" → (ls_mem i = true → ls_write i = true) → legacy_add node op i = Ok i' →
  ls_mem i' = true → ls_write i' = true.
Proof.
  intros Hw Hi H. unfold legacy_add in H. apply bind_Ok in H as ([o j] & Ho & H). injection H as <-.
  enough (ls_mem j = true → ls_write j = true) by (by case_match).
  unfold legacy_operand in Ho. apply bind_Ok in Ho as (t & _ & Ho).
  repeat case_bool_decide; inv_ok; simplify_eq/=; try done.
  intros _. match goal with Hx : legacy_mem op = Ok o |- _ => rewrite (legacy_mem_dest _ _ Hx) end.
  unfold truthy_text. destruct (String.eqb_spec (attr_get "w" "0" op) ""); [done|]. by rewrite orb_true_r.
Qed.

Lemma legacy_memory_writes node i :
  write_stated node → legacy_instruction node = Ok i → ls_mem i = true → ls_write i = true.
Proof.
  intros Hw H. unfold legacy_instruction in H. inv_ok.
  match goal with H : for_each _ _ _ = Ok _ |- _ => revert H end.
  apply (for_each_inv (λ i, ls_mem i = true → ls_write i = true)); [|done].
  intros op s s' Hop Hs Hstep. eapply legacy_add_write; eauto.
Qed.

Lemma legacy_reduce_one_mem g c b p so s o :
  legacy_reduce_one g c b p so s = Ok o → ls_mem (o_spec o) = ls_mem s ∧ ls_write (o_spec o) = ls_write s.
Proof.
  intros H. unfold legacy_reduce_one in H. apply bind_Ok in H as ([] & _ & H).
  - by apply bind_Ok in H as ([ops pending] & _ & [= <-]).
  - by injection H as <-.
Qed.

(** Whatever the file says of its memory operands, the set loaded from it never has reads. *)
Lemma legacy_no_reads g c b p so root isa :
  (∀ node, node ∈ e_iter "instruction" root → write_stated node) →
  new_legacy_isa g c b p so root = Ok isa → li_has_reads isa = false.
Proof.
  intros Hw H. unfold new_legacy_isa, legacy_reduce, legacy_dedup in H.
  apply bind_Ok in H as (specs & Hinit & H). apply bind_Ok in H as (isa1 & Hred & H).
  apply bind_Ok in H as (all & _ & H). injection H as <-. cbn [li_has_reads].
  apply bind_Ok in Hred as (outcomes & Ho & Hred). apply bind_Ok in Hred as (all1 & _ & Hred).
  injection Hred as <-. cbn [li_has_reads legacy_attributes]. apply existsb_false.
  intros i (n & _ & Hi)%list_elem_of_omap. apply list_lookup_fmap_Some_1 in Hi as (o & -> & Hn).
  destruct (mapM_lookup _ _ _ _ _ Ho Hn) as (s & Hs & Hone).
  destruct (legacy_reduce_one_mem _ _ _ _ _ _ _ Hone) as [-> ->].
  apply list_elem_of_lookup_2 in Hs. apply (mapM_elem _ _ _ Hinit) in Hs as (node & Hnode & Hs).
  specialize (legacy_memory_writes _ _ (Hw _ Hnode) Hs). destruct (ls_mem s), (ls_write s); cbn; intros Hm;
    try (by specialize (Hm eq_refl)); by rewrite ?andb_false_r, ?andb_true_r.
Qed.

(** ** A small file: two copies of an instruction, a load, a jump; and an indirect jump *)
Module LegacyDemo.
Definition op (attrs : list (string * string)) (text : option string) : element :=
  Element "op" (list_to_map attrs) text [].
Definition inst (asm category : string) (ops : list element) : element :=
  Element "instruction" (list_to_map [("asm", asm); ("category", category); ("control_flow", "")]) None ops.
Definition inc : element :=
  inst "INC" "BINARY" [op [("type", "reg"); ("width", "8"); ("r", "1"); ("w", "1")] (Some "AH,BL,R8B")].
Definition load : element :=
  inst "MOV" "DATAXFER" [op [("type", "reg"); ("width", "64"); ("w", "1")] (Some "RAX");
                         op [("type", "mem"); ("width", "64"); ("r", "1")] None].
Definition jump : element := inst "JMP" "UNCOND_BR" [op [("type", "relbr")] None].
Definition indirect : element :=
  inst "JMP" "UNCOND_BR" [op [("type", "reg"); ("width", "64"); ("r", "1")] (Some "RIP")].
Definition root (l : list element) : element := Element "root" ∅ None l.
Definition read (l : list element) : result legacy_isa := new_legacy_isa false [] [] ["R8B"; "RIP"] (λ l, l) (root l).
End LegacyDemo.

Lemma legacy_instruction_set_witness :
  ∃ isa specs, LegacyDemo.read [LegacyDemo.inc; LegacyDemo.inc; LegacyDemo.load; LegacyDemo.jump] = Ok isa ∧
    li_all isa = [1; 2]%nat ∧ li_control_flow isa = [3]%nat ∧
    li_has_writes isa = true ∧ li_has_reads isa = false ∧ li_has_unconditional_branch isa = true ∧
    map (map lo_values ∘ ls_operands) (li_specs isa) !! 1%nat = Some [[Some "AL"; Some "BL"]] ∧
    legacy_init_from_file (LegacyDemo.root [LegacyDemo.inc; LegacyDemo.inc; LegacyDemo.load; LegacyDemo.jump])
      = Ok specs ∧
    (∀ i j, i ∈ li_all isa → j ∈ li_all isa → (i < j)%nat → legacy_duplicates (li_specs isa) i j = false).
Proof.
  destruct (LegacyDemo.read _) as [isa|e] eqn:E; [|vm_compute in E; discriminate].
  destruct (legacy_instruction_set false [] [] ["R8B"; "RIP"] (λ l, l) _ isa (λ l, reflexivity l) E)
    as (specs & Hs & _ & H).
  exists isa, specs. split; [done|].
  assert (li_all isa = [1; 2]%nat ∧ li_control_flow isa = [3]%nat ∧ li_has_writes isa = true ∧
          li_has_reads isa = false ∧ li_has_unconditional_branch isa = true ∧
          map (map lo_values ∘ ls_operands) (li_specs isa) !! 1%nat = Some [[Some "AL"; Some "BL"]])
    as (E1 & E2 & E3 & E4 & E5 & E6); [vm_compute in E; injection E as <-; repeat split|].
  repeat (split; [assumption|]). exact H.
Defined.

Example legacy_indirect_jump_fails :
  LegacyDemo.read [LegacyDemo.inc; LegacyDemo.indirect] = Raise ValueError.
Proof. by vm_compute. Qed.
