(* ===== verification/Config.v ===== *)
(** * Configuration

    The options of [src/src/config.py] with their defaults, the setter every
    configuration file and command-line flag goes through, and the parser of
    sizes. The configuration is the map from the attribute names of [CONF] to
    their values. *)

From S2P Require Import Prelude Isa Text.

Open Scope Z_scope.

(** ** Values *)

Inductive DOLMA_modes :=
  | Baseline | DOLMA_Default_MR | DOLMA_Conservative_MR | DOLMA_Default_M | DOLMA_Conservative_M
  | STT_Spectre_MR | STT_Futuristic_MR | STT_Spectre_M | STT_Futuristic_M.
#[export] Instance DOLMA_modes_eq_dec : EqDecision DOLMA_modes.
Proof. solve_decision. Defined.

(** The types of the options; a dict maps names to lists of names. *)
Inductive cfg_value :=
  | VNone | VBool (b : bool) | VInt (n : Z) | VStr (s : string) | VList (l : list string)
  | VDict (d : list (string * list string)) | VMode (m : DOLMA_modes).
#[export] Instance cfg_value_eq_dec : EqDecision cfg_value.
Proof. solve_decision. Defined.

Notation conf := (gmap string cfg_value).

(** ** Defaults *)

Definition fuzzer_defaults : list (string * cfg_value) := [
    ("config_path", VStr "");
    ("no_priming", VBool false);
    ("min_primer_size", VInt 1);
    ("max_primer_size", VInt 1000)].

Definition generator_defaults : list (string * cfg_value) := [
    ("instruction_set", VStr "x86-64");
    ("generator", VStr "random");
    ("test_case_generator_seed", VInt 0);
    ("min_bb_per_function", VInt 2);
    ("max_bb_per_function", VInt 2);
    ("test_case_size", VInt 24);
    ("avg_mem_accesses", VInt 12);
    ("randomized_mem_alignment", VBool true);
    ("avoid_data_dependencies", VBool false);
    ("generate_memory_accesses_in_pairs", VBool false);
    ("memory_access_zeroed_bits", VInt 6);
    ("supported_categories", VList ["BASE-BINARY"; "BASE-BITBYTE"; "BASE-CMOV"; "BASE-COND_BR";
      "BASE-CONVERT"; "BASE-DATAXFER"; "BASE-FLAGOP"; "BASE-LOGICAL"; "BASE-MISC"; "BASE-NOP";
      "BASE-POP"; "BASE-PUSH"; "BASE-SEMAPHORE"; "BASE-SETCC"; "BASE-STRINGOP"; "SSE-MISC";
      "SSE2-MISC"; "CLFLUSHOPT-CLFLUSHOPT"; "CLFSH-MISC"]);
    ("instruction_blocklist", VList ["STI"; "CLI"; "CMPXCHG8B"; "LOCK CMPXCHG8B"; "UD"; "UD2";
      "CPUID"; "XLAT"; "XLATB"; "IDIV"; "REX IDIV"; "ENTERW"; "ENTER"; "LEAVEW"; "LEAVE"; "CMPSB";
      "CMPSD"; "CMPSW"; "MOVSB"; "MOVSD"; "MOVSW"; "REPE LODSB"; "REPE LODSD"; "REPE LODSW"; "REPE
      SCASB"; "REPE SCASD"; "REPE SCASW"; "REPE STOSB"; "REPE STOSD"; "REPE STOSW"; "REPE CMPSB";
      "REPE CMPSD"; "REPE CMPSW"; "REPE MOVSB"; "REPE MOVSD"; "REPE MOVSW"; "REPNE LODSB"; "REPNE
      LODSD"; "REPNE LODSW"; "REPNE SCASB"; "REPNE SCASD"; "REPNE SCASW"; "REPNE STOSB"; "REPNE
      STOSD"; "REPNE STOSW"; "REPNE CMPSB"; "REPNE CMPSD"; "REPNE CMPSW"; "REPNE MOVSB"; "REPNE
      MOVSD"; "REPNE MOVSW"; "LFENCE"; "MFENCE"; "SFENCE"; "CLFLUSH"; "CLFLUSHOPT"; "BTS"; "LOCK
      BTS"; "BTR"; "LOCK BTR"; "BTC"; "LOCK BTC"; "BT"; "LODSD"; "LODSW"; "LODSB"; "STOSD";
      "STOSW"; "STOSB"; "REPNE LODSD"; "REPNE LODSB"; "REPNE LODSW"; "REPNE MOVSB"; "REPNE STOSD";
      "REPNE STOSB"; "REPNE STOSW"; "LAHF"; "SAHF"]);
    ("extended_instruction_blocklist", VList []);
    ("verbose", VBool false);
    ("gpr_blocklist", VList ["R8"; "R9"; "R10"; "R11"; "R12"; "R13"; "R14"; "R15"; "RSP"; "RBP";
      "R8D"; "R9D"; "R10D"; "R11D"; "R12D"; "R13D"; "R14D"; "R15D"; "ESP"; "EBP"; "R8W"; "R9W";
      "R10W"; "R11W"; "R12W"; "R13W"; "R14W"; "R15W"; "SP"; "BP"; "R8B"; "R9B"; "R10B"; "R11B";
      "R12B"; "R13B"; "R14B"; "R15B"; "SPL"; "BPL"; "ES"; "CS"; "SS"; "DS"; "FS"; "GS"; "CR0";
      "CR2"; "CR3"; "CR4"; "CR8"; "DR0"; "DR1"; "DR2"; "DR3"; "DR4"; "DR5"; "DR6"; "DR7"; "RIP"]);
    ("_no_generation", VBool false)].

Definition input_and_model_defaults : list (string * cfg_value) := [
    ("input_generator", VStr "random");
    ("input_gen_seed", VInt 0);
    ("input_gen_entropy_bits", VInt 3);
    ("input_main_region_size", VInt 4096);
    ("input_assist_region_size", VInt 4096);
    ("input_register_region_size", VInt 64);
    ("inputs_per_class", VInt 2);
    ("model", VStr "x86-unicorn");
    ("contract_execution_clause", VList ["seq"]);
    ("contract_observation_clause", VStr "ct");
    ("model_max_nesting", VInt 5);
    ("model_max_spec_window", VInt 250);
    ("executor", VStr "x86-gem5");
    ("executor_mode", VStr "P+P");
    ("executor_warmups", VInt 50);
    ("executor_repetitions", VInt 20);
    ("executor_max_outliers", VInt 2);
    ("executor_taskset", VInt 0);
    ("enable_ssbp_patch", VBool true);
    ("enable_pre_run_flush", VBool true);
    ("enable_assist_page", VBool true);
    ("analyser", VStr "equivalence-classes");
    ("analyser_permit_subsets", VBool true);
    ("coverage_type", VStr "none");
    ("feedback_driven_generator", VBool false);
    ("multiline_output", VBool false);
    ("logging_modes", VList ["info"; "stat"; "fuzzer_debug"; "fuzzer_trace"]);
    ("debug_dir", VStr "debug");
    ("test_case", VStr "");
    ("save_stats", VBool true);
    ("measure_uarch_diversity", VBool false)].

Definition defence_defaults : list (string * cfg_value) := [
    ("InvisiSpec", VBool false);
    ("InvisiSpec_UnsafeBaseline", VBool false);
    ("InvisiSpec_FuturisticSpec", VBool false);
    ("InvisiSpec_apply_spec_eviction_patch", VBool false);
    ("STT", VBool false);
    ("STT_UnsafeBaseline", VBool false);
    ("STT_FuturisticSpec", VBool false);
    ("protean", VNone);
    ("protean_pred_mode", VNone);
    ("protean_pred_size", VNone);
    ("gem5_script_opts", VStr "");
    ("DOLMA", VBool false);
    ("DOLMA_mode", VBool false);
    ("SpecLFB", VBool false);
    ("SpecLFB_UnsafeBaseline", VBool false);
    ("CleanupSpec", VBool false);
    ("CleanupSpec_UnsafeBaseline", VBool false)].

Definition gem5_defaults : list (string * cfg_value) := [
    ("gem5_location", VStr "");
    ("gem5_checkpoint", VStr "/checkpoint");
    ("gem5_output_location", VStr "/m5out");
    ("gem5_binary", VStr "/build/X86/gem5.opt");
    ("gem5_se", VStr "/configs/example/se.py");
    ("gem5_config_ipc_template", VStr "{root}/configs/revizor/ipc.py");
    ("gem5_test_case_path", VStr "test_case");
    ("gem5_trace_mode", VStr "data_cache");
    ("gem5_batch_size", VInt 1);
    ("gem5_restore", VInt 0);
    ("gem5_save_checkpoints", VBool false);
    ("gem5_orchestration", VStr "simple");
    ("gem5_ipc_parallelism", VInt 4);
    ("gem5_ipc_persist_log", VBool false);
    ("gem5_ipc_show_output", VBool false);
    ("gem5_enable_cross_test_case_checkpoints", VBool false);
    ("process_run", VStr "");
    ("profile", VBool false);
    ("cpu_type", VStr "DerivO3CPU");
    ("cpu_clock", VStr "2GHz");
    ("sys_clock", VStr "2GHz");
    ("tbe_count", VInt 256);
    ("l1d_size", VStr "32kB");
    ("l1d_assoc", VInt 8);
    ("l1i_size", VStr "8kB");
    ("l1i_assoc", VInt 2);
    ("cacheline_size", VInt 64);
    ("l2_size", VStr "2MB");
    ("l2_assoc", VInt 8);
    ("dtb_entries", VInt 64);
    ("debug", VBool false);
    ("debug_flags", VList []);
    ("dump_stats", VBool false);
    ("trace_filter", VList ["squash"]);
    ("gem5_attacker_mode", VDict []);
    ("analysis_run", VBool false)].

Definition ConfCls : conf := list_to_map
  (fuzzer_defaults ++ generator_defaults ++ input_and_model_defaults ++ defence_defaults ++ gem5_defaults).

(** ** Setting an option *)

(** The members of the class that are not options, found by [getattr] as well. *)
Definition class_members : list string :=
  ["DOLMA_modes"; "parse_size_as_bytes"; "set"; "sanity_check"; "gem5_config_ipc"].

(** [self.<name> % 4096]; a string operand has no conversion specifier. *)
Definition page_offset (name : string) (c : conf) : result Z :=
  match c !! name with
  | Some (VInt n) => Ok (n mod 4096)
  | Some (VBool b) => Ok (Z.b2z b)
  | Some _ => Raise TypeError
  | None => Raise AttributeError
  end.

(** The items a value adds when a list is extended with it. *)
Definition items (v : cfg_value) : result (list string) :=
  match v with
  | VStr s => Ok ((λ a, String a EmptyString) <$> String.list_ascii_of_string s)
  | VList l => Ok l
  | VDict d => Ok d.*1
  | _ => Raise TypeError
  end.

(** [self.instruction_blocklist.extend(value)] *)
Definition extend_blocklist (value : cfg_value) (c : conf) : result conf :=
  match c !! "instruction_blocklist" with
  | Some (VList l) => new ← items value; Ok (<["instruction_blocklist" := VList (l ++ new)]> c)
  | _ => Raise AttributeError
  end.

(** [set]: the two exceptions about names and types are built and dropped; reading
    the attribute raises for an unknown name. *)
Definition set (name : string) (value : cfg_value) (c : conf) : result conf :=
  match name with
  | EmptyString => Raise IndexError
  | String "_" _ => Raise ConfigException
  | _ =>
      assert_ (bool_decide (is_Some (c !! name)) || mem name class_members) AttributeError;;
      main ← page_offset "input_main_region_size" c;
      if negb (main =? 0) then Raise ConfigException
      else
        assist ← page_offset "input_assist_region_size" c;
        if negb (assist =? 0) then Raise ConfigException
        else
          c ← (if (name =? "extended_instruction_blocklist")%string then extend_blocklist value c else Ok c);
          Ok (<[name := value]> c)
  end.

(** [sanity_check], less its warning. *)
Definition sanity_check (c : conf) : conf :=
  if bool_decide (c !! "coverage_type" = Some (VStr "none"))
  then <["feedback_driven_generator" := VBool false]> c else c.

(** [gem5_config_ipc]: the template's only field is [root]. *)
Definition gem5_config_ipc (c : conf) : result string :=
  match c !! "gem5_config_ipc_template", c !! "gem5_location" with
  | Some (VStr t), Some (VStr root) => Ok (replace "{root}" root t)
  | _, _ => Raise AttributeError
  end.

(** ** Sizes *)

Definition parse_size_as_bytes (size : string + Z) : result Z :=
  match size with
  | inr n => Ok n
  | inl size =>
      if isdigit size then py_int size
      else
        let size := lower size in
        let scaled k := n ← py_int (drop_last 2 size); Ok (Z.shiftl n k) in
        if endswith "kb" size then scaled 10
        else if endswith "mb" size then scaled 20
        else if endswith "gb" size then scaled 30
        else if endswith "tb" size then scaled 40
        else if endswith "b" size then py_int (drop_last 1 size)
        else Raise ValueError
  end.

(** ** Sizes are read back *)

(** The unit a size is written with, in any case, and its shift. *)
Definition size_units : list (string * Z) := [("kb", 10); ("mb", 20); ("gb", 30); ("tb", 40); ("b", 0)].

Lemma ends_in_unit n u p :
  0 ≤ n → (String.length p ≤ String.length u)%nat → endswith p (str n +:+ u) = endswith p u.
Proof.
  intros Hn Hl. apply eq_true_iff_eq. rewrite !endswith_spec. split.
  - intros [t Ht]. exists (str_drop (String.length (str n)) t).
    assert (Hlt : (String.length (str n) ≤ String.length t)%nat).
    { apply (f_equal String.length) in Ht. rewrite !str_length_app in Ht. lia. }
    rewrite <- (str_drop_app (str n) u), Ht. clear Ht. revert t Hlt.
    induction (str n) as [|c s IH]; intros t Hlt; [done|].
    destruct t as [|d t]; cbn in *; [lia|]. apply IH. lia.
  - intros [t ->]. exists (str n +:+ t). by rewrite str_app_assoc.
Qed.

(** A size written as a number, or a number and a unit in upper or lower case, is
    that many bytes. *)
Theorem parse_size_spec n u k :
  0 ≤ n → (lower u, k) ∈ size_units →
  parse_size_as_bytes (inl (str n +:+ u)) = Ok (n * 2 ^ k)
  ∧ parse_size_as_bytes (inl (str n)) = Ok n.
Proof.
  intros Hn Hu. pose proof (str_digits n Hn) as Hd.
  assert (Hnn : (str n =? "")%string = false) by (apply String.eqb_neq, str_nonempty).
  split.
  2:{ unfold parse_size_as_bytes, isdigit. rewrite all_digits_forall, Hd, Hnn. apply py_int_str. }
  unfold parse_size_as_bytes.
  assert (isdigit (str n +:+ u) = false) as ->.
  { unfold isdigit. rewrite all_digits_forall, str_forall_app, Hd. apply andb_false_iff. right.
    destruct (str_forall is_digit u) eqn:E; [|done]. rewrite (lower_digits u E) in Hu.
    repeat (apply elem_of_cons in Hu as [[= -> ->]|Hu]; [done|]). by apply elem_of_nil in Hu. }
  rewrite lower_app, lower_digits by done.
  assert (Hb : ∀ p, (String.length p = 2)%nat → endswith p (str n +:+ "b") = true →
    str_forall is_digit (str_take 1 p) = true).
  { intros p Hp [t Ht]%endswith_spec. destruct p as [|c [|d [|]]]; try done.
    replace (t +:+ String c (String d "")) with ((t +:+ String c "") +:+ String d "") in Ht
      by (by rewrite str_app_assoc).
    apply str_app_snoc_inj in Ht as [Ht _]. rewrite Ht, str_forall_app in Hd.
    by apply andb_true_iff in Hd as [_ Hd]. }
  assert (Hnb : ∀ p, (String.length p = 2)%nat → str_forall is_digit (str_take 1 p) = false →
    endswith p (str n +:+ "b") = false).
  { intros p Hp Hnd. apply not_true_is_false. intros Ht%Hb; [|done]. congruence. }
  pose proof (ends_in_unit n) as He.
  unfold size_units in Hu.
  repeat (apply elem_of_cons in Hu as [[= -> ->]|Hu]); [..|by apply elem_of_nil in Hu];
    [rewrite ?He by (done || cbn; lia)..|rewrite !Hnb, He by (done || cbn; lia)];
    repeat match goal with |- context [endswith ?p ?q] =>
      let b := eval vm_compute in (endswith p q) in change (endswith p q) with b end; cbv iota.
  1: change 2%nat with (String.length "kb").
  2: change 2%nat with (String.length "mb").
  3: change 2%nat with (String.length "gb").
  4: change 2%nat with (String.length "tb").
  5: change 1%nat with (String.length "b").
  all: rewrite drop_last_app, py_int_str; cbn [mbind result_bind];
    rewrite ?Z.shiftl_mul_pow2, ?Z.mul_1_r; done.
Qed.

Lemma parse_size_spec_witness :
  (0 ≤ 32 ∧ (lower "kB", 10) ∈ size_units)
  ∧ parse_size_as_bytes (inl (str 32 +:+ "kB")) = Ok (32 * 2 ^ 10)
  ∧ parse_size_as_bytes (inl (str 32)) = Ok 32.
Proof.
  assert (H : (lower "kB", 10) ∈ size_units) by (by left).
  split; [split; [lia|exact H]|]. by apply (parse_size_spec 32 "kB" 10).
Defined.

(** ** Setting an option *)

(** Both region sizes are whole pages. *)
Definition aligned (c : conf) : Prop :=
  page_offset "input_main_region_size" c = Ok 0 ∧ page_offset "input_assist_region_size" c = Ok 0.
#[export] Instance aligned_dec c : Decision (aligned c).
Proof. unfold aligned. apply _. Defined.

(** The names the setter accepts. *)
Definition settable (name : string) (c : conf) : Prop :=
  name ≠ "" ∧ startswith "_" name = false ∧ (is_Some (c !! name) ∨ name ∈ class_members).

(** The value stored, and the blocklist that grows with the extended one. *)
Definition updated (name : string) (value : cfg_value) (c : conf) : result conf :=
  c ← (if (name =? "extended_instruction_blocklist")%string then extend_blocklist value c else Ok c);
  Ok (<[name := value]> c).

Lemma set_unfold name value c :
  settable name c →
  set name value c = (main ← page_offset "input_main_region_size" c;
    if negb (main =? 0) then Raise ConfigException
    else assist ← page_offset "input_assist_region_size" c;
         if negb (assist =? 0) then Raise ConfigException else updated name value c).
Proof.
  intros (Hn & Hp & Hk). unfold set.
  assert (bool_decide (is_Some (c !! name)) || mem name class_members = true) as Hb.
  { apply orb_true_iff. rewrite bool_decide_eq_true, mem_spec. done. }
  destruct name as [|a name]; [done|]. rewrite Hb.
  destruct a as [[] [] [] [] [] [] [] []]; try reflexivity. by destruct name.
Qed.

Lemma set_settable name value c c' : set name value c = Ok c' → settable name c.
Proof.
  unfold set. intros H. destruct name as [|a name]; [done|].
  assert (Hp : startswith "_" (String a name) = false).
  { destruct a as [[] [] [] [] [] [] [] []]; try done; by destruct name. }
  split; [done|]. split; [done|].
  destruct (bool_decide (is_Some (c !! String a name)) || mem (String a name) class_members) eqn:Hb.
  - apply orb_true_iff in Hb. by rewrite bool_decide_eq_true, mem_spec in Hb.
  - destruct a as [[] [] [] [] [] [] [] []]; done.
Qed.

Lemma set_iff name value c c' :
  set name value c = Ok c' ↔ settable name c ∧ aligned c ∧ updated name value c = Ok c'.
Proof.
  split.
  - intros H. pose proof (set_settable _ _ _ _ H) as Hs. split; [done|].
    rewrite set_unfold in H by done. unfold aligned.
    apply bind_Ok in H as (m & Hm & H); rewrite Hm.
    destruct (Z.eqb_spec m 0) as [Em|]; cbn [negb] in H; [|done].
    apply bind_Ok in H as (n & Hn & H); rewrite Hn.
    destruct (Z.eqb_spec n 0) as [En|]; cbn [negb] in H; [|done]. by subst.
  - intros (Hs & [Hm Ha] & Hu). rewrite set_unfold, Hm by done. cbn [mbind result_bind Z.eqb negb].
    rewrite Ha. by cbn [mbind result_bind Z.eqb negb].
Qed.

(** [CONF.set] succeeds exactly for an option that exists and is not internal, while
    the configuration it changes has page-aligned regions: the value itself is not
    checked, neither its type nor, for a region size, its alignment. Then that
    option has the value, and only the instruction blocklist may change besides. *)
Theorem set_spec name value c c' :
  set name value c = Ok c' ↔ settable name c ∧ aligned c ∧ updated name value c = Ok c'.
Proof. apply set_iff. Qed.

(** Only the listed options differ. *)
Definition changes (names : list string) (c c' : conf) : Prop := ∀ n, n ∉ names → c' !! n = c !! n.

#[export] Instance changes_refl names : Reflexive (changes names).
Proof. by intros c n. Qed.
#[export] Instance changes_trans names : Transitive (changes names).
Proof. intros a b c H1 H2 n Hn. by rewrite H2, H1. Qed.
Lemma changes_insert names n v c : n ∈ names → changes names c (<[n := v]> c).
Proof. intros Hn m Hm. rewrite lookup_insert_ne; [done|]. by intros ->. Qed.
Lemma changes_weaken names names' c c' : names ⊆ names' → changes names c c' → changes names' c c'.
Proof. intros Hs H n Hn. apply H. set_solver. Qed.

Lemma updated_Ok name value c c' :
  updated name value c = Ok c' →
  c' !! name = Some value ∧ changes [name; "instruction_blocklist"] c c'.
Proof.
  unfold updated, extend_blocklist. intros H. inv_ok. split; [by rewrite lookup_insert_eq|].
  transitivity a; [|apply changes_insert; by left].
  destruct (name =? "extended_instruction_blocklist")%string; [|by injection H0 as ->].
  destruct (c !! "instruction_blocklist") as [[]|]; try done. inv_ok. apply changes_insert.
  right. by left.
Qed.

Lemma set_Ok name value c c' :
  set name value c = Ok c' →
  aligned c ∧ c' !! name = Some value ∧ changes [name; "instruction_blocklist"] c c'.
Proof. intros (_ & Ha & Hu)%set_iff. split; [done|]. by apply updated_Ok. Qed.

Lemma aligned_changes names c c' :
  "input_main_region_size" ∉ names → "input_assist_region_size" ∉ names →
  changes names c c' → aligned c → aligned c'.
Proof.
  intros Hm Ha Hc. unfold aligned, page_offset. by rewrite (Hc _ Hm), (Hc _ Ha).
Qed.

(** ** The default register pool *)

Definition default_blocklist : list string :=
  match ConfCls !! "gpr_blocklist" with Some (VList l) => l | _ => [] end.

(** The labels of the registers an input initialises. *)
Definition initialised : list string := ["A"; "B"; "C"; "D"; "SI"; "DI"].

Lemma default_pool_checked :
  forallb (λ '(_, regs), forallb (λ r, match gpr_normalized !! r with
                                       | Some l => mem l initialised | None => false end) regs)
    (map_to_list (filtered_decoding default_blocklist)) = true.
Proof. vm_compute. reflexivity. Qed.

(** With the default blocklist every register the generator can draw, of any width,
    is part of one of the six registers that every input gives a value: no test case
    reads a register whose initial value the input does not fix. *)
Theorem default_registers_initialised w regs r :
  filtered_decoding default_blocklist !! w = Some regs → r ∈ regs →
  ∃ l, gpr_normalized !! r = Some l ∧ l ∈ initialised.
Proof.
  intros Hw Hr. pose proof default_pool_checked as H. rewrite forallb_forall in H.
  specialize (H (w, regs)). rewrite <- list_elem_of_In, elem_of_map_to_list in H.
  specialize (H Hw). cbn in H. rewrite forallb_forall in H. specialize (H r).
  rewrite <- list_elem_of_In in H. specialize (H Hr).
  destruct (gpr_normalized !! r) as [l|]; [|done]. exists l. by rewrite mem_spec in H.
Qed.

Lemma default_registers_initialised_witness :
  ∃ regs, filtered_decoding default_blocklist !! 32 = Some regs ∧ "EDI" ∈ regs
        ∧ ∃ l, gpr_normalized !! "EDI" = Some l ∧ l ∈ initialised.
Proof.
  destruct (filtered_decoding default_blocklist !! 32) as [regs|] eqn:E;
    [|exfalso; vm_compute in E; discriminate E].
  exists regs. split; [reflexivity|].
  assert (Hin : "EDI" ∈ regs).
  { apply mem_spec. assert (Some regs = filtered_decoding default_blocklist !! 32) as E' by done.
    vm_compute in E'. injection E' as ->. vm_compute. reflexivity. }
  split; [exact Hin|]. apply (default_registers_initialised _ _ _ E Hin).
Defined.
