(* ===== verification/ArgParse.v ===== *)
(** * Parsing a command line

    What the scripts use of the standard library's [argparse]: options with one value or
    none, their abbreviations, values after an equals sign, clusters of short options,
    required options, choices and subcommands.  An error and [--help] both leave the
    program; the help text is the outcome [None], an error [SystemExit]. *)

From S2P Require Import Prelude Util Text Config.

Open Scope Z_scope.

(** The namespace [parse_args] returns. *)
Notation namespace := (gmap string cfg_value).

(** ** Options *)

(** What an option does: [type=] with [choices=], [store_true], or the [--help] every
    subcommand has. *)
Inductive action :=
  | Store (convert : string → result cfg_value) (choices : option (list cfg_value))
  | StoreTrue
  | Help.

Record argument := mkArgument {
  a_flags : list string;
  a_action : action;
  a_default : cfg_value;
  a_required : bool
}.

Definition is_long (flag : string) : bool := startswith "--" flag.
Fixpoint strip_dashes (s : string) : string :=
  match s with String "-" s' => strip_dashes s' | _ => s end.

(** The attribute an option is stored under: its first long name. *)
Definition dest (a : argument) : string :=
  let first := match List.find is_long (a_flags a) with Some f => f | None => hd "" (a_flags a) end in
  replace_char "-" "_" (strip_dashes first).

Definition help_argument : argument := mkArgument ["-h"; "--help"] Help VNone false.

(** [_option_string_actions] *)
Definition flag_table (opts : list argument) : list (string * argument) :=
  opts ≫= λ a, map (λ f, (f, a)) (a_flags a).
Definition find_flag (opts : list argument) (f : string) : option argument := dict_get f (flag_table opts).

(** ** Reading one word *)

(** A value, the word [--], or an option: the action it names, if any, the name it was
    found under and the value written into the same word. *)
Inductive reading :=
  | Word
  | Dashes
  | Optional (a : option argument) (flag : string) (explicit : option string).

(** [s.split('=', 1)] when there is an equals sign. *)
Definition split_equals (s : string) : option (string * string) :=
  i ← str_find "=" s; Some (str_take i s, str_drop (S i) s).

(** [_get_option_tuples]: the options a word may abbreviate, or be glued to. *)
Definition option_tuples (opts : list argument) (s : string) : list (argument * string * option string) :=
  if is_long s then
    let '(prefix, explicit) := match split_equals s with Some (k, v) => (k, Some v) | None => (s, None) end in
    flag_table opts ≫= λ '(f, a), if startswith prefix f then [(a, f, explicit)] else []
  else
    flag_table opts ≫= λ '(f, a),
      if (f =? str_take 2 s)%string then [(a, f, Some (str_drop 2 s))]
      else if startswith s f then [(a, f, None)] else [].

(** [^-\d+$|^-\d*\.\d+$]; the end may be before a final newline. *)
Definition negative_number (s : string) : bool :=
  match (if endswith newline s then drop_last 1 s else s) with
  | String "-" d =>
      isdigit d || match str_find "." d with
                   | Some i => all_digits (str_take i d) && isdigit (str_drop (S i) d)
                   | None => false
                   end
  | _ => false
  end.

(** [_parse_optional]; an ambiguous abbreviation is an error. *)
Definition parse_optional (opts : list argument) (s : string) : result reading :=
  if negb (startswith "-" s) then Ok Word
  else match find_flag opts s with
  | Some a => Ok (Optional (Some a) s None)
  | None =>
      if (String.length s =? 1)%nat then Ok Word
      else match ('(k, v) ← split_equals s; a ← find_flag opts k; Some (a, k, v)) with
      | Some (a, k, v) => Ok (Optional (Some a) k (Some v))
      | None =>
          match option_tuples opts s with
          | [(a, f, e)] => Ok (Optional (Some a) f e)
          | _ :: _ => Raise SystemExit
          | [] => if negative_number s || str_in " " s then Ok Word else Ok (Optional None s None)
          end
      end
  end.

(** Every word is read before any is acted on; nothing after [--] is an option. *)
Fixpoint read_words (opts : list argument) (words : list string) : result (list (reading * string)) :=
  match words with
  | [] => Ok []
  | s :: rest =>
      if (s =? "--")%string then Ok ((Dashes, s) :: map (λ w, (Word, w)) rest)
      else r ← parse_optional opts s; rs ← read_words opts rest; Ok ((r, s) :: rs)
  end.

(** ** Acting on the words *)

Record parsing := mkParsing { p_names : namespace; p_seen : list string; p_extras : list string }.

Definition skip_word (w : string) (p : parsing) : parsing :=
  mkParsing (p_names p) (p_seen p) (p_extras p ++ [w]).
Definition put (a : argument) (v : cfg_value) (p : parsing) : parsing :=
  mkParsing (<[dest a := v]> (p_names p)) (dest a :: p_seen p) (p_extras p).

(** [_get_values] for one word: the conversion's ValueError and TypeError are usage
    errors, any other exception is not caught; the word [--] is removed. *)
Definition get_value (convert : string → result cfg_value) (choices : option (list cfg_value)) (w : string)
    : result cfg_value :=
  if (w =? "--")%string then Ok (VList [])
  else
    v ← match convert w with Raise (ValueError | TypeError) => Raise SystemExit | r => r end;
    assert_ (match choices with Some l => mem v l | None => true end) SystemExit;; Ok v.

(** An option without a value. *)
Definition act_plain (a : argument) (p : parsing) : option parsing :=
  match a_action a with Help => None | _ => Some (put a (VBool true) p) end.
Fixpoint act_plains (l : list argument) (p : parsing) : option parsing :=
  match l with [] => Some p | a :: l => p ← act_plain a p; act_plains l p end.

Definition takes_value (a : argument) : bool := match a_action a with Store _ _ => true | _ => false end.

(** A value inside the word of an option: [-xyz] stands for [-x -y -z] as long as the
    options take no value.  The options before the last, the last, and its value. *)
Fixpoint cluster (opts : list argument) (a : argument) (flag explicit : string)
    : result (list argument * argument * option string) :=
  if takes_value a then Ok ([], a, Some explicit)
  else match explicit with
  | String c rest =>
      if is_long flag then Raise SystemExit
      else
        let flag := String "-" (String c "") in
        a' ← from_option SystemExit (find_flag opts flag);
        if (rest =? "")%string then Ok ([a], a', None)
        else '(l, last, e) ← cluster opts a' flag rest; Ok (a :: l, last, e)
  | EmptyString => Raise SystemExit
  end.

(** The loop of [_parse_known_args]. *)
Fixpoint consume (opts : list argument) (ws : list (reading * string)) (p : parsing)
    : result (option parsing) :=
  match ws with
  | [] => Ok (Some p)
  | (Optional (Some a) flag explicit, _) :: ws =>
      '(plains, last, explicit) ← match explicit with
                                  | Some e => cluster opts a flag e
                                  | None => Ok ([], a, None)
                                  end;
      match a_action last, explicit with
      | Store convert choices, Some e =>
          match act_plains plains p with
          | Some p => v ← get_value convert choices e; consume opts ws (put last v p)
          | None => Ok None
          end
      | Store convert choices, None =>
          match ws with
          | (Word, w) :: ws =>
              match act_plains plains p with
              | Some p => v ← get_value convert choices w; consume opts ws (put last v p)
              | None => Ok None
              end
          | _ => Raise SystemExit
          end
      | _, _ =>
          match act_plains (plains ++ [last]) p with
          | Some p => consume opts ws p
          | None => Ok None
          end
      end
  | (_, w) :: ws => consume opts ws (skip_word w p)
  end.

Definition defaults (opts : list argument) : namespace := list_to_map (map (λ a, (dest a, a_default a)) opts).

(** [parse_known_args] of a subcommand. *)
Definition parse_known_args (opts : list argument) (words : list string)
    : result (option (namespace * list string)) :=
  let all := help_argument :: opts in
  ws ← read_words all words;
  r ← consume all ws (mkParsing (defaults opts) [] []);
  match r with
  | None => Ok None
  | Some p =>
      assert_ (forallb (λ a, negb (a_required a) || mem (dest a) (p_seen p)) opts) SystemExit;;
      Ok (Some (p_names p, p_extras p))
  end.

(** [parse_args] of a parser whose only argument is the subcommand, not a required one:
    options before it are left over, and leftovers are an error at the end. *)
Section subcommands.
Variable parsers : list (string * list argument).
Variable sub_dest : string.

Definition parse_sub (name : string) (words : list string) : result (option (namespace * list string)) :=
  opts ← from_option SystemExit (dict_get name parsers);
  r ← parse_known_args opts words;
  Ok (match r with
      | Some (names, extras) => Some (names ∪ {[sub_dest := VStr name]}, extras)
      | None => None
      end).

Fixpoint parse_top (words : list string) : result (option (namespace * list string)) :=
  match words with
  | [] => Ok (Some ({[sub_dest := VNone]}, []))
  | w :: rest =>
      if (w =? "--")%string then Raise SystemExit
      else
        r ← parse_optional [] w;
        match r with
        | Optional _ _ _ =>
            r ← parse_top rest;
            Ok (match r with Some (names, extras) => Some (names, w :: extras) | None => None end)
        | _ => parse_sub w rest
        end
  end.

Definition parse_args (words : list string) : result (option namespace) :=
  r ← parse_top words;
  match r with
  | Some (names, []) => Ok (Some names)
  | Some (_, _ :: _) => Raise SystemExit
  | None => Ok None
  end.
End subcommands.

(** The converters the scripts use. *)
Definition to_str (s : string) : result cfg_value := Ok (VStr s).
Definition to_int (s : string) : result cfg_value := VInt <$> py_int s.

(** ** Reading back a command line *)

(** The ways the scripts write an option. *)
Inductive setting :=
  | Named (flag value : string)
  | Joined (flag value : string)
  | Switch (flag : string).

Definition setting_words (s : setting) : list string :=
  match s with
  | Named f v => [f; v]
  | Joined f v => [f +:+ "=" +:+ v]
  | Switch f => [f]
  end.
Definition command_words (l : list setting) : list string := l ≫= setting_words.

Definition setting_flag (s : setting) : string :=
  match s with Named f _ | Joined f _ | Switch f => f end.

(** The option the words of a setting are taken for, by its name or by an abbreviation. *)
Definition setting_option (opts : list argument) (s : setting) : option argument :=
  match s with
  | Named f _ | Switch f =>
      match parse_optional opts f with Ok (Optional (Some a) _ None) => Some a | _ => None end
  | Joined f v =>
      match parse_optional opts (f +:+ "=" +:+ v) with
      | Ok (Optional (Some a) _ (Some e)) => if (e =? v)%string then Some a else None
      | _ => None
      end
  end.

(** What a setting does to the namespace; [None]: it is no setting of this parser. *)
Definition setting_effect (opts : list argument) (s : setting) : option (argument * cfg_value) :=
  a ← setting_option opts s;
  match s, a_action a with
  | Named _ v, Store convert choices | Joined _ v, Store convert choices =>
      match get_value convert choices v with Ok x => Some (a, x) | Raise _ => None end
  | Switch _, StoreTrue => Some (a, VBool true)
  | _, _ => None
  end.

(** The value of a setting is not read as an option, nor its flag as the end of them. *)
Definition setting_plain (s : setting) : Prop :=
  setting_flag s ≠ "--" ∧ match s with Named _ v => startswith "-" v = false | _ => True end.

Definition apply_effects (l : list (argument * cfg_value)) (p : parsing) : parsing :=
  fold_left (λ p '(a, v), put a v p) l p.

(** What the words of a list of settings do: exactly their effects in order. *)
Definition settings_parse (opts : list argument) (l : list setting) (es : list (argument * cfg_value)) : Prop :=
  Forall2 (λ s e, setting_effect opts s = Some e ∧ setting_plain s) l es.

Lemma not_dashes s : startswith "-" s = false → s ≠ "--".
Proof. intros H ->. by vm_compute in H. Qed.

Lemma parse_optional_value opts v : startswith "-" v = false → parse_optional opts v = Ok Word.
Proof. intros H. unfold parse_optional. by rewrite H. Qed.

Lemma parse_optional_flag opts f a :
  startswith "-" f = true → find_flag opts f = Some a → parse_optional opts f = Ok (Optional (Some a) f None).
Proof. intros H E. unfold parse_optional. by rewrite H, E. Qed.

Lemma startswith_dash_app f s : startswith "-" f = true → startswith "-" (f +:+ s) = true.
Proof.
  unfold startswith. destruct f as [|c f]; [done|]. rewrite str_app_cons, !prefix_char. done.
Qed.

Lemma split_equals_app f v : without "=" f = true → split_equals (f +:+ "=" +:+ v) = Some (f, v).
Proof.
  intros H. unfold split_equals. rewrite str_app_cons, str_app_nil_l, str_find_char by done.
  cbn [mbind option_bind]. rewrite str_take_app. do 2 f_equal.
  replace (f +:+ String "=" v) with ((f +:+ "=") +:+ v) by (by rewrite str_app_assoc).
  replace (S (String.length f)) with (String.length (f +:+ "=")) by (rewrite str_length_app; cbn; lia).
  apply str_drop_app.
Qed.

Lemma parse_optional_joined opts f v a :
  startswith "-" f = true → without "=" f = true → find_flag opts f = Some a →
  find_flag opts (f +:+ "=" +:+ v) = None →
  parse_optional opts (f +:+ "=" +:+ v) = Ok (Optional (Some a) f (Some v)).
Proof.
  intros Hd He Ha Hn. unfold parse_optional. rewrite startswith_dash_app, Hn by done. cbn [negb].
  destruct (Nat.eqb_spec (String.length (f +:+ "=" +:+ v)) 1) as [E|_].
  - destruct f; [done|]. rewrite !str_length_app in E. cbn in E. lia.
  - rewrite split_equals_app by done. cbn [mbind option_bind]. by rewrite Ha.
Qed.

Lemma joined_not_dashes f v : f +:+ "=" +:+ v ≠ "--".
Proof.
  intros E. destruct f as [|c [|d f]]; [done| |].
  - by rewrite !str_app_cons, !str_app_nil_l in E.
  - rewrite !str_app_cons in E. injection E as _ _ E. by destruct f.
Qed.

(** An option written in full. *)
Lemma setting_option_exact opts f v a :
  startswith "-" f = true → find_flag opts f = Some a →
  setting_option opts (Named f v) = Some a ∧ setting_option opts (Switch f) = Some a.
Proof. intros Hd Ha. unfold setting_option. by rewrite (parse_optional_flag _ f a). Qed.
Lemma setting_option_joined opts f v a :
  startswith "-" f = true → without "=" f = true → find_flag opts f = Some a →
  find_flag opts (f +:+ "=" +:+ v) = None → setting_option opts (Joined f v) = Some a.
Proof.
  intros Hd He Ha Hn. unfold setting_option. rewrite (parse_optional_joined _ _ _ a) by done.
  by rewrite String.eqb_refl.
Qed.

(** However it is written, it is an option of the parser. *)
Lemma parse_optional_in opts s a f e :
  parse_optional opts s = Ok (Optional (Some a) f e) → (f, a) ∈ flag_table opts.
Proof.
  unfold parse_optional. destruct (negb _); [done|]. destruct (find_flag opts s) as [b|] eqn:Hs.
  { intros [= <- <- _]. by apply dict_get_in. }
  destruct (_ =? 1)%nat; [done|].
  destruct ('(k, v) ← split_equals s; a ← find_flag opts k; Some (a, k, v)) as [[[b k] v]|] eqn:Hk.
  { intros [= -> -> _]. destruct (split_equals s) as [[k v']|]; [|done]. cbn in Hk.
    destruct (find_flag opts k) eqn:Hf; [|done]. injection Hk as -> -> _. by apply dict_get_in. }
  assert (Hall : ∀ b g x, (b, g, x) ∈ option_tuples opts s → (g, b) ∈ flag_table opts).
  { intros b g x. unfold option_tuples.
    repeat case_match; rewrite list_elem_of_bind; intros ([g' b'] & Hin & Ht);
      repeat case_match; repeat (apply elem_of_cons in Hin as [[= -> -> ->]|Hin]); try by apply elem_of_nil in Hin.
    all: exact Ht. }
  destruct (option_tuples opts s) as [|[[b g] x] [|? ?]]; [by case_match| |done].
  intros [= <- <- _]. apply (Hall b g x). by left.
Qed.
Lemma setting_option_in opts s a : setting_option opts s = Some a → ∃ f, (f, a) ∈ flag_table opts.
Proof.
  unfold setting_option. intros H. repeat case_match; simplify_eq; eexists; eapply parse_optional_in; eassumption.
Qed.

(** The readings of a setting's words, and what acting on them does. *)
Lemma read_setting opts s e rest :
  setting_effect opts s = Some e → setting_plain s →
  ∃ rs, (∀ rs', read_words opts rest = Ok rs' → read_words opts (setting_words s ++ rest) = Ok (rs ++ rs'))
      ∧ ∀ ws p, consume opts (rs ++ ws) p = consume opts ws (put e.1 e.2 p).
Proof.
  unfold setting_effect, setting_plain. intros E (Hdd & Hs). apply String.eqb_neq in Hdd.
  destruct (setting_option opts s) as [a|] eqn:Ha; [|done]. cbn [mbind option_bind] in E.
  destruct s as [f v|f v|f]; cbn [setting_flag setting_words app read_words setting_option] in *.
  - destruct (parse_optional opts f) as [[| |[a'|] f' [|]]|] eqn:Hf; try done. injection Ha as ->.
    destruct (a_action a) as [conv ch| |] eqn:Hact; try done.
    destruct (get_value conv ch v) as [x|] eqn:Hv; [|done]. injection E as <-.
    exists [(Optional (Some a) f' None, f); (Word, v)]. split.
    + intros rs' Hr. pose proof (not_dashes v Hs) as Hvd. apply String.eqb_neq in Hvd.
      rewrite Hdd, Hvd, (parse_optional_value _ v) by done. cbn [mbind result_bind]. by rewrite Hr.
    + intros ws p. cbn. rewrite Hact, Hv. done.
  - destruct (parse_optional opts (f +:+ "=" +:+ v)) as [[| |[a'|] f' [e'|]]|] eqn:Hf; try done.
    destruct (String.eqb_spec e' v) as [->|]; [|done]. injection Ha as ->.
    destruct (a_action a) as [conv ch| |] eqn:Hact; try done.
    destruct (get_value conv ch v) as [x|] eqn:Hv; [|done]. injection E as <-.
    exists [(Optional (Some a) f' (Some v), f +:+ "=" +:+ v)]. split.
    + intros rs' Hr. pose proof (joined_not_dashes f v) as Hj. apply String.eqb_neq in Hj.
      rewrite Hj. cbn [mbind result_bind]. by rewrite Hr.
    + intros ws p. cbn [app consume].
      assert (cluster opts a f' v = Ok ([], a, Some v)) as ->.
      { destruct v; cbn; unfold takes_value; by rewrite Hact. }
      cbn. rewrite Hact, Hv. done.
  - destruct (parse_optional opts f) as [[| |[a'|] f' [|]]|] eqn:Hf; try done. injection Ha as ->.
    destruct (a_action a) as [conv ch| |] eqn:Hact; try done. injection E as <-.
    exists [(Optional (Some a) f' None, f)]. split.
    + intros rs' Hr. rewrite Hdd. cbn [mbind result_bind]. by rewrite Hr.
    + intros ws p. cbn. unfold act_plain. rewrite Hact. done.
Qed.

Lemma read_settings opts l es rest :
  settings_parse opts l es →
  ∃ rs, (∀ rs', read_words opts rest = Ok rs' → read_words opts (command_words l ++ rest) = Ok (rs ++ rs'))
      ∧ ∀ ws p, consume opts (rs ++ ws) p = consume opts ws (apply_effects es p).
Proof.
  intros H. revert rest. induction H as [|s e l es [Hs Hp] _ IH]; intros rest.
  { exists []. split; [intros rs' H; exact H|done]. }
  destruct (IH rest) as (rs & Hr & Hc).
  destruct (read_setting opts s e (command_words l ++ rest) Hs Hp) as (rs1 & Hr1 & Hc1).
  exists (rs1 ++ rs). split.
  - intros rs' Hrest. cbn [command_words mbind list_bind]. rewrite <- !app_assoc. by apply Hr1, Hr.
  - intros ws p. rewrite <- app_assoc, Hc1, Hc. destruct e. done.
Qed.

(** The words of settings are read back as the settings: the defaults with the values
    stored in order, and nothing is left over. *)
Theorem parse_settings opts l es :
  settings_parse (help_argument :: opts) l es →
  (∀ a, a ∈ opts → a_required a = true → dest a ∈ map (dest ∘ fst) es) →
  parse_known_args opts (command_words l)
  = Ok (Some (p_names (apply_effects es (mkParsing (defaults opts) [] [])), [])).
Proof.
  intros H Hreq. destruct (read_settings _ l es [] H) as (rs & Hr & Hc).
  unfold parse_known_args. specialize (Hr [] eq_refl). rewrite !app_nil_r in Hr.
  rewrite Hr. cbn [mbind result_bind]. specialize (Hc []). rewrite app_nil_r in Hc. rewrite Hc. clear Hr Hc.
  set (p0 := mkParsing (defaults opts) [] []). cbn [consume mbind result_bind].
  assert (Heff : ∀ es p, p_extras (apply_effects es p) = p_extras p
    ∧ ∀ d, d ∈ map (dest ∘ fst) es ∨ d ∈ p_seen p → d ∈ p_seen (apply_effects es p)).
  { clear. induction es as [|[a v] es IH]; intros p; [split; [done|]; intros d [Hd%elem_of_nil|Hd]; [done|exact Hd]|].
    destruct (IH (put a v p)) as [He Hs]. split; [exact He|]. intros d Hd. apply Hs.
    cbn in Hd |- *. rewrite elem_of_cons in Hd |- *. tauto. }
  destruct (Heff es p0) as [He Hs]. rewrite He.
  assert (forallb (λ a, negb (a_required a) || mem (dest a) (p_seen (apply_effects es p0))) opts = true) as ->.
  { apply forallb_forall. intros a Ha. apply list_elem_of_In in Ha.
    destruct (a_required a) eqn:Hr; [|done]. apply mem_spec, Hs. left. by apply Hreq. }
  done.
Qed.

(** ** Words that are not understood *)

Definition unknown (r : reading) : Prop := match r with Optional None _ _ => True | _ => False end.

Lemma act_plains_extras l p p' : act_plains l p = Some p' → p_extras p' = p_extras p.
Proof.
  revert p. induction l as [|a l IH]; intros p H; cbn in H; [by injection H as ->|].
  unfold act_plain in H. destruct (a_action a); try done; cbn in H; by apply IH in H.
Qed.

(** Leftovers only grow, and an option no parser knows becomes one. *)
Lemma consume_extras opts n ws p p' :
  (length ws ≤ n)%nat → consume opts ws p = Ok (Some p') →
  (∃ k, p_extras p' = p_extras p ++ k)
  ∧ ((∃ r w, (r, w) ∈ ws ∧ unknown r) → p_extras p' ≠ []).
Proof.
  assert (Hskip : ∀ w ws p p' (Q : Prop),
    (∃ k, p_extras p' = p_extras (skip_word w p) ++ k) ∧ Q →
    (∃ k, p_extras p' = p_extras p ++ k) ∧ (ws → p_extras p' ≠ [])).
  { intros w ws' q q' Q [[k E] _]. cbn in E. rewrite <- app_assoc in E. split; [by eexists|].
    intros _ E'. rewrite E' in E. by destruct (p_extras q). }
  revert ws p. induction n as [|n IH]; intros ws p Hn H.
  { destruct ws; [|cbn in Hn; lia]. injection H as ->. split; [exists []; by rewrite app_nil_r|].
    intros (r & w & Hin%elem_of_nil & _). done. }
  destruct ws as [|[r w] ws]; [apply (IH [] p); [cbn; lia|done]|]. cbn in Hn.
  assert (Hnext : ∀ ws' q, (length ws' ≤ n)%nat → p_extras q = p_extras p →
    (∀ r' w', (r', w') ∈ (r, w) :: ws → unknown r' → (r', w') ∈ ws') →
    consume opts ws' q = Ok (Some p') →
    (∃ k, p_extras p' = p_extras p ++ k)
    ∧ ((∃ r' w', (r', w') ∈ (r, w) :: ws ∧ unknown r') → p_extras p' ≠ [])).
  { intros ws' q Hl Hq Hsub Hc. destruct (IH ws' q Hl Hc) as [Hk Hu]. rewrite Hq in Hk.
    split; [exact Hk|]. intros (r' & w' & Hin & Hr'). apply Hu. eauto. }
  destruct r as [| |[a|] flag explicit]; cbn [consume] in H.
  1,2,4: eapply Hskip, (IH ws); [lia|exact H].
  inv_ok. destruct a0 as [[plains last] e].
  assert (Hval : ∀ ws' q v conv ch x, act_plains plains p = Some q → (length ws' ≤ n)%nat →
    (∀ r' w', (r', w') ∈ ws → unknown r' → (r', w') ∈ ws') →
    (v ← get_value conv ch v; consume opts ws' (put x v q)) = Ok (Some p') →
    (∃ k, p_extras p' = p_extras p ++ k)
    ∧ ((∃ r' w', (r', w') ∈ (Optional (Some a) flag explicit, w) :: ws ∧ unknown r') → p_extras p' ≠ [])).
  { intros ws' q v conv ch x Hq Hl Hsub Hc. inv_ok. apply (Hnext ws' (put x a0 q)); [done| | |done].
    - exact (act_plains_extras _ _ _ Hq).
    - intros r' w' [[= -> ->]|Hin]%elem_of_cons; [done|by apply Hsub]. }
  assert (Hplain : (match act_plains (plains ++ [last]) p with
                    | Some p => consume opts ws p | None => Ok None end) = Ok (Some p') →
    (∃ k, p_extras p' = p_extras p ++ k)
    ∧ ((∃ r' w', (r', w') ∈ (Optional (Some a) flag explicit, w) :: ws ∧ unknown r') → p_extras p' ≠ [])).
  { destruct (act_plains (plains ++ [last]) p) as [q|] eqn:Hq; [|done]. apply Hnext; [lia| |].
    - exact (act_plains_extras _ _ _ Hq).
    - intros r' w' [[= -> ->]|Hin]%elem_of_cons; done. }
  destruct (a_action last) as [conv ch| |], e as [e|]; try (by apply Hplain).
  - destruct (act_plains plains p) as [q|] eqn:Hq; [|done]. refine (Hval ws q e conv ch last eq_refl _ _ H); [lia|done].
  - destruct ws as [|[[| |] v] ws]; try done.
    destruct (act_plains plains p) as [q|] eqn:Hq; [|done]. cbn in Hn.
    refine (Hval ws q v conv ch last eq_refl _ _ H); [lia|].
    intros r' w' [[= -> ->]|Hin]%elem_of_cons; [done|]. by intros.
Qed.

Lemma read_words_elem opts pre w post r rs :
  read_words opts (pre ++ w :: post) = Ok rs → "--" ∉ pre → w ≠ "--" →
  parse_optional opts w = Ok r → (r, w) ∈ rs.
Proof.
  revert rs. induction pre as [|s pre IH]; intros rs H Hpre Hw Hr; cbn in H.
  - apply String.eqb_neq in Hw. rewrite Hw, Hr in H. cbn in H. inv_ok. by left.
  - apply not_elem_of_cons in Hpre as [Hs Hpre].
    destruct (String.eqb_spec s "--") as [->|_]; [done|]. inv_ok. right. by apply IH.
Qed.

(** A command line with an option its subcommand does not have never runs the program. *)
Theorem unknown_option_rejected parsers sub_dest name opts pre w post e names :
  dict_get name parsers = Some opts → startswith "-" name = false → "--" ∉ pre → w ≠ "--" →
  parse_optional (help_argument :: opts) w = Ok (Optional None w e) →
  parse_args parsers sub_dest (name :: pre ++ w :: post) ≠ Ok (Some names).
Proof.
  intros Hp Hn Hpre Hw Hr H. unfold parse_args in H. apply bind_Ok in H as (r & Htop & H).
  cbn [parse_top] in Htop. pose proof (not_dashes _ Hn) as Hnd. apply String.eqb_neq in Hnd.
  rewrite Hnd, parse_optional_value in Htop by done. cbn [mbind result_bind] in Htop.
  unfold parse_sub in Htop. rewrite Hp in Htop. cbn [from_option mbind result_bind] in Htop.
  apply bind_Ok in Htop as (k & Hk & [= <-]). destruct k as [[ns extras]|]; [|done].
  destruct extras as [|x extras]; [|done]. unfold parse_known_args in Hk.
  apply bind_Ok in Hk as (ws & Hread & Hk). apply bind_Ok in Hk as ([p|] & Hc & Hk); [|done].
  apply bind_Ok in Hk as (? & _ & Hk). injection Hk as _ He.
  apply (consume_extras _ (length ws)) in Hc; [|done]. destruct Hc as [_ Hu]. apply Hu; [|done].
  eexists _, w. split; [by eapply read_words_elem|done].
Qed.

(** ** The values of settings *)

(** The options a list of settings writes, the last of each name counting. *)
Definition written (es : list (argument * cfg_value)) : list (string * cfg_value) :=
  rev (map (λ e, (dest e.1, e.2)) es).

Lemma names_written es p d :
  p_names (apply_effects es p) !! d
  = match dict_get d (written es) with Some v => Some v | None => p_names p !! d end.
Proof.
  unfold written. revert p. induction es as [|[a v] es IH]; intros p; [done|].
  cbn [apply_effects fold_left map rev fst snd]. change (fold_left _ es ?q) with (apply_effects es q).
  rewrite IH. rewrite dict_get_app. destruct (dict_get d (rev _)) as [w|]; [done|].
  cbn [dict_get put p_names]. destruct (decide (dest a = d)) as [<-|Hne].
  - by rewrite lookup_insert_eq.
  - by rewrite lookup_insert_ne.
Qed.

Lemma setting_written opts s a v :
  setting_effect opts s = Some (a, v) → ∃ f, (f, a) ∈ flag_table opts.
Proof.
  unfold setting_effect. destruct (setting_option opts s) as [b|] eqn:Hb; [|done]. apply setting_option_in in Hb.
  cbn. intros H. destruct s, (a_action b); try done; try (destruct (get_value _ _ _); [|done]); by injection H as ->.
Qed.

(** A text and a number, written out and read back. *)
Lemma text_effect opts f v a :
  startswith "-" f = true → find_flag opts f = Some a → a_action a = Store to_str None → v ≠ "--" →
  setting_effect opts (Named f v) = Some (a, VStr v).
Proof.
  intros Hd Ha Hs Hv. apply String.eqb_neq in Hv. unfold setting_effect.
  rewrite (proj1 (setting_option_exact opts f v a Hd Ha)). cbn. rewrite Hs. unfold get_value. by rewrite Hv.
Qed.
Lemma joined_effect opts f v a :
  startswith "-" f = true → without "=" f = true → find_flag opts f = Some a →
  find_flag opts (f +:+ "=" +:+ v) = None → a_action a = Store to_str None → v ≠ "--" →
  setting_effect opts (Joined f v) = Some (a, VStr v).
Proof.
  intros Hd He Ha Hn Hs Hv. apply String.eqb_neq in Hv. unfold setting_effect.
  rewrite (setting_option_joined opts f v a) by done. cbn. rewrite Hs. unfold get_value. by rewrite Hv.
Qed.

Lemma number_effect opts f n a :
  startswith "-" f = true → find_flag opts f = Some a → a_action a = Store to_int None →
  setting_effect opts (Named f (str n)) = Some (a, VInt n).
Proof.
  intros Hd Ha Hs. unfold setting_effect.
  rewrite (proj1 (setting_option_exact opts f (str n) a Hd Ha)). cbn. rewrite Hs. unfold get_value.
  assert (str n =? "--" = false)%string as ->.
  { apply String.eqb_neq. intros E. pose proof (py_int_str n) as H. by rewrite E in H. }
  unfold to_int. by rewrite py_int_str.
Qed.

Lemma digits_not_dash s : str_forall is_digit s = true → startswith "-" s = false.
Proof.
  destruct s as [|c s]; [done|]. intros [Hc _]%andb_true_iff. unfold startswith. rewrite prefix_char.
  apply Ascii.eqb_neq. by intros ->.
Qed.
