(* ===== verification/Cli.v ===== *)
(** * Command line

    [main] of [src/src/cli.py]: the options of the two subcommands, how the parsed
    arguments and the configuration file become the configuration, the directories it
    makes and the job it starts. YAML is a library. *)

From S2P Require Import Prelude Isa Util Text Config ArgParse.

Open Scope Z_scope.

(** ** The options *)

(** Options of the usual kinds. *)
Definition text (flags : list string) (default : cfg_value) : argument :=
  mkArgument flags (Store to_str None) default false.
Definition number (flags : list string) (default : cfg_value) : argument :=
  mkArgument flags (Store to_int None) default false.
Definition switch (flags : list string) : argument := mkArgument flags StoreTrue (VBool false) false.
Definition required (a : argument) : argument := mkArgument (a_flags a) (a_action a) (a_default a) true.

(** [CONF.DOLMA_modes[value]]: no such name is a KeyError, which [argparse] does not catch. *)
Definition DOLMA_mode_of (name : string) : result cfg_value :=
  VMode <$> from_option KeyError (dict_get name [
    ("Baseline", Baseline); ("DOLMA_Default_MR", DOLMA_Default_MR);
    ("DOLMA_Conservative_MR", DOLMA_Conservative_MR); ("DOLMA_Default_M", DOLMA_Default_M);
    ("DOLMA_Conservative_M", DOLMA_Conservative_M); ("STT_Spectre_MR", STT_Spectre_MR);
    ("STT_Futuristic_MR", STT_Futuristic_MR); ("STT_Spectre_M", STT_Spectre_M);
    ("STT_Futuristic_M", STT_Futuristic_M)]).
Definition DOLMA_argument : argument :=
  mkArgument ["--DOLMA"] (Store DOLMA_mode_of None) (VBool false) false.

(** [parser_fuzz.add_argument(...)], in the order of the calls. *)
Definition fuzz_run_options : list argument := [
  required (text ["-s"; "--instruction-set"] VNone); text ["-c"; "--config"] VNone;
  text ["-g"; "--generator"] VNone; number ["-n"; "--num-test-cases"] (VInt 1);
  switch ["--dump-stats"]; number ["-i"; "--num-inputs"] (VInt 100);
  text ["-w"; "--working-directory"] (VStr ""); text ["-t"; "--testcase"] VNone;
  text ["-ic"; "--inputcase"] VNone; number ["--timeout"] (VInt 0); switch ["--nonstop"];
  text ["--name"] (VStr "one")].
Definition fuzz_gem5_options : list argument := [
  text ["--gem5-path"] VNone; text ["--gem5-output"] VNone; text ["--gem5-binary"] VNone;
  text ["--gem5-se"] VNone; text ["--cpu-type"] VNone; number ["--gem5-restore"] VNone;
  text ["--output-dir"] VNone; text ["--result-dir"] (VStr "./"); text ["-p"; "--process-run"] VNone;
  switch ["--ruby"]; number ["--gen-seed"] (VInt 0); number ["--entropy-bits"] (VInt 0);
  number ["--input-seed"] (VInt 0)].
Definition fuzz_defence_options : list argument := [
  switch ["--InvisiSpec"]; switch ["--InvisiSpec_UnsafeBaseline"];
  switch ["--InvisiSpec_FuturisticSpec"]; switch ["--STT"]; switch ["--STT_UnsafeBaseline"];
  switch ["--STT_FuturisticSpec"];
  mkArgument ["--protean"] (Store to_str (Some [VStr "Track"; VStr "Delay"; VStr "None"])) VNone false;
  text ["--protean-pred-mode"] VNone; text ["--protean-pred-size"] VNone;
  text ["--gem5-script-opts"] (VStr ""); DOLMA_argument; switch ["--SpecLFB"];
  switch ["--SpecLFB_UnsafeBaseline"]; switch ["--CleanupSpec"]; switch ["--CleanupSpec_UnsafeBaseline"]].
Definition fuzz_debug_options : list argument := [
  switch ["--ipc-persist-log"]; switch ["--ipc-show-output"]; switch ["--debug"];
  text ["--debug-flags"] (VStr ""); switch ["--no-save-stats"]; switch ["--measure-uarch-diversity"];
  switch ["--profile"]; switch ["--verbose"; "-v"]; switch ["--analysis_run"]].
Definition fuzz_options : list argument :=
  fuzz_run_options ++ fuzz_gem5_options ++ fuzz_defence_options ++ fuzz_debug_options.

(** [parser_mini.add_argument(...)] *)
Definition mini_run_options : list argument := [
  required (text ["--infile"; "-i"] VNone); text ["--inputcase"; "-ic"] VNone;
  text ["--outfile"; "-o"] VNone; text ["-c"; "--config"] VNone;
  number ["-n"; "--num-inputs"] (VInt 100); switch ["-f"; "--add-fences"];
  required (text ["-s"; "--instruction-set"] VNone); text ["--name"] (VStr "one");
  text ["--gem5-path"] VNone; text ["--gem5-output"] VNone; text ["--gem5-binary"] VNone;
  text ["--gem5-se"] VNone; number ["--gem5-restore"] VNone; text ["--output-dir"] VNone;
  text ["--result-dir"] (VStr "./"); text ["-p"; "--process-run"] VNone; switch ["--ruby"];
  number ["--gen-seed"] (VInt 0); number ["--entropy-bits"] (VInt 0); number ["--input-seed"] (VInt 0)].
Definition mini_defence_options : list argument := [
  switch ["--InvisiSpec"]; switch ["--InvisiSpec_UnsafeBaseline"];
  switch ["--InvisiSpec_FuturisticSpec"]; switch ["--STT"]; switch ["--CleanupSpec"];
  DOLMA_argument; switch ["--SpecLFB"]; switch ["--debug"]; text ["--debug-flags"] (VStr "");
  switch ["--ipc-persist-log"]; switch ["--ipc-show-output"]; switch ["--verbose"; "-v"];
  switch ["--no-save-stats"]; switch ["--measure-uarch-diversity"]].
Definition mini_options : list argument := mini_run_options ++ mini_defence_options.

(** [parser.parse_args()] *)
Definition parsers : list (string * list argument) := [("fuzz", fuzz_options); ("minimize", mini_options)].
Definition parse_command_line (words : list string) : result (option namespace) :=
  parse_args parsers "subparser_name" words.

(** What the namespace holds when no option is given. *)
Definition parser_fuzz : namespace := defaults fuzz_options.
Definition parser_mini : namespace := defaults mini_options.

(** ** Parsed arguments *)

(** [args.<name>] *)
Definition arg (args : namespace) (name : string) : result cfg_value :=
  from_option AttributeError (args !! name).

Definition truthy (v : cfg_value) : bool :=
  match v with
  | VNone => false
  | VBool b => b
  | VInt n => negb (n =? 0)
  | VStr s => negb (s =? "")%string
  | VList l => match l with [] => false | _ => true end
  | VDict d => match d with [] => false | _ => true end
  | VMode _ => true
  end.

(** [if args.<name>: CONF.set(option, args.<name>)] *)
Definition set_if (args : namespace) (name option : string) (c : conf) : result conf :=
  v ← arg args name; if truthy v then set option v c else Ok c.

(** [CONF.<option> = value] *)
Definition assign (option : string) (value : cfg_value) (c : conf) : conf := <[option := value]> c.

(** [CONF.<option> + suffix] *)
Definition plus (option suffix : string) (c : conf) : result cfg_value :=
  match c !! option with
  | Some (VStr s) => Ok (VStr (s +:+ suffix))
  | Some _ => Raise TypeError
  | None => Raise AttributeError
  end.

(** ** The steps of [main] *)

Section main.
(** [yaml.safe_load] of the file at a path: its items in order. *)
Context (safe_load : string → result (list (string * cfg_value))).
Variable args : namespace.

Definition load_config_file (c : conf) : result conf :=
  config ← arg args "config";
  if truthy config then
    match config with
    | VStr path =>
        let c := assign "config_path" config c in
        config_update ← safe_load path;
        for_each (λ '(var, value) c, set var value c) config_update c
    | _ => Raise TypeError
    end
  else Ok c.

(** The options named on the command line before the defences. *)
Definition set_general (c : conf) : result conf :=
  v ← arg args "verbose"; c ← (if truthy v then set "verbose" (VBool true) c else Ok c);
  v ← arg args "no_save_stats"; c ← (if truthy v then set "save_stats" (VBool false) c else Ok c);
  c ← set_if args "gen_seed" "test_case_generator_seed" c;
  c ← set_if args "entropy_bits" "input_gen_entropy_bits" c;
  c ← set_if args "input_seed" "input_gen_seed" c;
  c ← set_if args "gem5_path" "gem5_location" c;
  c ← set_if args "gem5_output" "gem5_output_location" c;
  c ← set_if args "gem5_binary" "gem5_binary" c;
  c ← set_if args "gem5_se" "gem5_se" c;
  c ← set_if args "output_dir" "debug_dir" c;
  set_if args "gem5_restore" "gem5_restore" c.

Definition set_process_run (c : conf) : result conf :=
  v ← arg args "process_run";
  if truthy v then
    match v with
    | VStr run =>
        c ← set "process_run" v c;
        let run := "-" +:+ run in
        out ← plus "gem5_output_location" run c; c ← set "gem5_output_location" out c;
        cpt ← plus "gem5_checkpoint" run c; c ← set "gem5_checkpoint" cpt c;
        dir ← plus "debug_dir" run c; set "debug_dir" dir c
    | _ => Raise TypeError
    end
  else Ok c.

Definition set_cpu (c : conf) : result conf :=
  v ← arg args "generator"; let c := if truthy v then assign "generator" v c else c in
  v ← arg args "cpu_type"; let c := if truthy v then assign "cpu_type" v c else c in
  v ← arg args "dump_stats"; Ok (assign "dump_stats" v c).

(** [if args.<name>:] set it and, when given, its refinements. *)
Definition set_family (name : string) (refinements : list string) (c : conf) : result conf :=
  v ← arg args name;
  if truthy v then
    c ← set name v c; for_each (λ r c, set_if args r r c) refinements c
  else Ok c.

Definition set_defences (c : conf) : result conf :=
  c ← set_family "InvisiSpec" ["InvisiSpec_UnsafeBaseline"; "InvisiSpec_FuturisticSpec"] c;
  c ← set_family "STT" ["STT_UnsafeBaseline"; "STT_FuturisticSpec"] c;
  v ← arg args "DOLMA";
  c ← (if truthy v then
         match v with
         | VMode _ => c ← set "DOLMA" (VBool true) c; set "DOLMA_mode" v c
         | _ => Raise AttributeError
         end
       else Ok c);
  c ← set_family "SpecLFB" ["SpecLFB_UnsafeBaseline"] c;
  c ← set_family "CleanupSpec" ["CleanupSpec_UnsafeBaseline"] c;
  c ← set_family "protean" ["protean_pred_mode"; "protean_pred_size"] c;
  v ← arg args "gem5_script_opts"; set "gem5_script_opts" v c.

(** [path.split('/')[1].split('.')[0]] *)
Definition base_name (path : cfg_value) : result string :=
  match path with
  | VStr p => part ← py_index (split "/" p) 1; py_index (split "." part) 0
  | _ => Raise AttributeError
  end.

Definition test_case_name : result cfg_value :=
  name ← arg args "name";
  if bool_decide (name ≠ VNone) then Ok name
  else
    config ← arg args "config";
    if bool_decide (config ≠ VNone) then
      testcase ← arg args "testcase"; t ← base_name testcase;
      f ← base_name config; Ok (VStr (t +:+ "_" +:+ f))
    else
      test_case ← arg args "test_case";
      if bool_decide (test_case ≠ VNone) then
        testcase ← arg args "testcase"; t ← base_name testcase; Ok (VStr t)
      else Ok (VStr "").

(** The assignments after [sanity_check]. *)
Definition set_debug (c : conf) : result conf :=
  debug ← arg args "debug";
  let c := assign "debug" debug c in
  v ← arg args "debug_flags";
  c ← (if truthy v then
         assert_ (truthy debug) AssertionError;;
         match v with
         | VStr s => Ok (assign "debug_flags" (VList (split "," s)) c)
         | _ => Raise AttributeError
         end
       else Ok c);
  v ← arg args "ruby"; let c := assign "ruby" v c in
  v ← arg args "result_dir"; let c := assign "result_dir" v c in
  let c := assign "profile" (default (VBool false) (args !! "profile")) c in
  v ← arg args "ipc_persist_log"; let c := assign "gem5_ipc_persist_log" v c in
  v ← arg args "ipc_show_output"; let c := assign "gem5_ipc_show_output" v c in
  v ← arg args "measure_uarch_diversity"; Ok (assign "measure_uarch_diversity" v c).

Definition set_save_checkpoints (c : conf) : result conf :=
  no_priming ← arg c "no_priming";
  orchestration ← arg c "gem5_orchestration";
  cross ← arg c "gem5_enable_cross_test_case_checkpoints";
  let save := if negb (truthy no_priming) && bool_decide (orchestration ≠ VStr "ipc")
              then VBool true else cross in
  Ok (assign "gem5_save_checkpoints" save c).

(** [main] up to the debug directory, and after it. *)
Definition configure_options (c : conf) : result conf :=
  sub ← arg args "subparser_name";
  c ← (if bool_decide (sub = VStr "fuzz") then
         v ← arg args "analysis_run";
         if truthy v then set "analysis_run" (VBool true) c else Ok c
       else Ok c);
  c ← load_config_file c;
  c ← set_general c;
  c ← set_process_run c;
  c ← set_cpu c;
  c ← set_defences c;
  name ← test_case_name;
  set "test_case" name c.
Definition configure_run (c : conf) : result conf :=
  c ← set_debug (sanity_check c);
  set_save_checkpoints c.

(** The configuration [main] runs the subcommand with. *)
Definition configure (c : conf) : result conf := c ← configure_options c; configure_run c.

(** ** The directories and the job *)

Inductive dir_op := RemoveTree (path : string) | MakeDirs (path : string).

Definition path_of (v : cfg_value) : result string :=
  match v with VStr s => Ok s | _ => Raise TypeError end.

(** The debug directory is emptied, and that of the test case made in it. *)
Definition debug_dirs (isdir : string → bool) (c : conf) : result (list dir_op) :=
  dir ← arg c "debug_dir"; dir ← path_of dir;
  name ← arg c "test_case"; name ← path_of name;
  Ok ((if isdir dir then [RemoveTree dir] else []) ++ [MakeDirs (dir +:+ "/" +:+ name)]).

Definition working_dirs (isdir : string → bool) : result (list dir_op) :=
  wd ← arg args "working_directory";
  if truthy wd then
    wd ← path_of wd; Ok (if isdir wd then [] else [MakeDirs wd])
  else Ok [].

(** The output file of the minimiser; [None]: it prints a message and stops. *)
Definition minimize_outfile : result (option cfg_value) :=
  outfile ← arg args "outfile";
  if bool_decide (outfile = VNone) then
    infile ← arg args "infile";
    match infile with
    | VStr f => if endswith ".asm" f then Ok (Some (VStr (drop_last 4 f +:+ "_minimized.asm"))) else Ok None
    | _ => Raise AttributeError
    end
  else Ok (Some outfile).

(** [Fuzzer(...).start(...)] and [Postprocessor(...).minimize(...)] with their arguments. *)
Inductive job :=
  | StartFuzzer (instruction_set working_directory testcase inputcase : cfg_value)
      (num_test_cases num_inputs timeout nonstop : cfg_value)
  | StartMinimizer (instruction_set infile inputcase outfile num_inputs add_fences : cfg_value)
  | NoJob.

Definition fuzz_job : result job :=
  s ← arg args "instruction_set"; w ← arg args "working_directory";
  t ← arg args "testcase"; ic ← arg args "inputcase";
  n ← arg args "num_test_cases"; i ← arg args "num_inputs";
  timeout ← arg args "timeout"; nonstop ← arg args "nonstop";
  Ok (StartFuzzer s w t ic n i timeout nonstop).

Definition minimize_job : result job :=
  s ← arg args "instruction_set";
  outfile ← minimize_outfile;
  match outfile with
  | Some out =>
      f ← arg args "infile"; ic ← arg args "inputcase";
      i ← arg args "num_inputs"; fences ← arg args "add_fences";
      Ok (StartMinimizer s f ic out i fences)
  | None => Ok NoJob
  end.

Record launch := mkLaunch { l_dirs : list dir_op; l_conf : conf; l_job : job }.

Definition run_main (isdir : string → bool) (c : conf) : result launch :=
  c ← configure_options c;
  dirs ← debug_dirs isdir c;
  c ← configure_run c;
  sub ← arg args "subparser_name";
  if bool_decide (sub = VStr "fuzz") then
    wds ← working_dirs isdir; job ← fuzz_job;
    Ok (mkLaunch (dirs ++ wds) c job)
  else if bool_decide (sub = VStr "minimize") then
    job ← minimize_job; Ok (mkLaunch dirs (assign "coverage_type" (VStr "none") c) job)
  else Raise PlainException.
End main.

(** [main]; [None]: the help text was asked for. *)
Definition main (safe_load : string → result (list (string * cfg_value))) (isdir : string → bool)
    (words : list string) (c : conf) : result (option launch) :=
  r ← parse_command_line words;
  match r with
  | Some args => Some <$> run_main safe_load args isdir c
  | None => Ok None
  end.

(** ** What a command line is read as *)

Notation fuzz_arguments := (help_argument :: fuzz_options).

Lemma fuzz_dests s a v : setting_effect fuzz_arguments s = Some (a, v) → dest a ≠ "subparser_name".
Proof.
  intros [f H]%setting_written.
  assert (Hall : forallb (λ fa, negb (dest fa.2 =? "subparser_name")%string) (flag_table fuzz_arguments) = true)
    by (vm_compute; reflexivity).
  rewrite forallb_forall in Hall. apply list_elem_of_In, Hall in H. cbn in H.
  by apply negb_true_iff, String.eqb_neq in H.
Qed.

(** A value behind an equals sign is never taken for the name of an option. *)
Lemma fuzz_joined f v : find_flag fuzz_arguments (f +:+ "=" +:+ v) = None.
Proof.
  apply dict_get_none. intros H.
  assert (Hall : forallb (without "=") (map fst (flag_table fuzz_arguments)) = true) by (vm_compute; reflexivity).
  rewrite forallb_forall in Hall. apply list_elem_of_In, Hall in H.
  rewrite !without_app in H. by rewrite andb_comm in H.
Qed.

(** The namespace of [cli.py fuzz] with a list of settings: every option has the value
    written last, or its default. *)
Lemma fuzz_words_read l es :
  settings_parse fuzz_arguments l es → "instruction_set" ∈ map (dest ∘ fst) es →
  ∃ names, parse_command_line ("fuzz" :: command_words l) = Ok (Some names)
    ∧ names !! "subparser_name" = Some (VStr "fuzz")
    ∧ ∀ d, d ≠ "subparser_name" →
        names !! d = match dict_get d (written es) with Some v => Some v | None => parser_fuzz !! d end.
Proof.
  intros H Hreq. set (p := apply_effects es (mkParsing parser_fuzz [] [])).
  exists (p_names p ∪ {["subparser_name" := VStr "fuzz"]}). split; [|split].
  - unfold parse_command_line, parse_args. cbn [parse_top].
    change ("fuzz" =? "--")%string with false. cbv iota.
    rewrite parse_optional_value by done. cbn [mbind result_bind]. unfold parse_sub.
    change (dict_get "fuzz" parsers) with (Some fuzz_options). cbn [from_option mbind result_bind].
    rewrite (parse_settings _ _ es); [done|done|].
    intros a Ha Hr. enough (dest a = "instruction_set") as -> by done.
    assert (Hall : forallb (λ a, negb (a_required a) || (dest a =? "instruction_set")%string) fuzz_options = true)
      by (vm_compute; reflexivity).
    rewrite forallb_forall in Hall. apply list_elem_of_In, Hall in Ha. rewrite Hr in Ha.
    by apply String.eqb_eq.
  - rewrite lookup_union_r; [apply lookup_singleton_eq|]. unfold p. rewrite names_written.
    assert (dict_get "subparser_name" (written es) = None) as ->; [|by vm_compute].
    apply dict_get_none. unfold written. rewrite map_rev, map_map.
    intros ((a & v) & He & Hin)%list_elem_of_In%in_rev%list_elem_of_In%list_elem_of_fmap.
    apply list_elem_of_lookup in Hin as [i Hi]. eapply Forall2_lookup_r in H as (s & _ & Hs & _); [|exact Hi].
    by apply fuzz_dests in Hs.
  - intros d Hd. rewrite lookup_union_l by (by apply lookup_singleton_ne).
    unfold p. by rewrite names_written.
Qed.

(** ** What a step of [main] changes *)

Lemma set_changes names name v c c' :
  set name v c = Ok c' → name ∈ names → "instruction_blocklist" ∈ names → changes names c c'.
Proof.
  intros (_ & _ & H)%set_Ok Hn Hb. eapply changes_weaken; [|done]. set_solver.
Qed.

Lemma set_if_changes args names name option c c' :
  set_if args name option c = Ok c' → option ∈ names → "instruction_blocklist" ∈ names →
  changes names c c'.
Proof.
  unfold set_if. intros H Hn Hb. inv_ok. destruct (truthy a).
  - eapply set_changes; eauto.
  - by injection H as ->.
Qed.

Lemma set_if_Ok args name option c c' v :
  set_if args name option c = Ok c' → args !! name = Some v →
  c' !! option = if truthy v then Some v else c !! option.
Proof.
  unfold set_if, arg. intros H Hv. rewrite Hv in H. cbn [from_option mbind result_bind] in H.
  destruct (truthy v); [|by injection H as ->]. by apply set_Ok in H as (_ & H & _).
Qed.

Lemma set_family_changes args names name refs c c' :
  set_family args name refs c = Ok c' → name ∈ names → refs ⊆ names →
  "instruction_blocklist" ∈ names → changes names c c'.
Proof.
  unfold set_family. intros H Hn Hr Hb. inv_ok. destruct (truthy a); [|by injection H as ->].
  inv_ok. transitivity a0; [by eapply set_changes|].
  refine (for_each_inv (λ x, changes names a0 x) _ _ _ _ _ _ H); [|reflexivity].
  intros r s s' Hin Hs Hset. etransitivity; [exact Hs|]. eapply set_if_changes; eauto.
Qed.

Lemma assign_changes names n v c : n ∈ names → changes names c (assign n v c).
Proof. apply changes_insert. Qed.
Ltac all_in_list :=
  let r := fresh in let Hr := fresh in intros r Hr;
  repeat (apply elem_of_cons in Hr as [->|Hr]; [in_list|]); by apply elem_of_nil in Hr.

(** [frame] splits a composed step and shows that each part changes only the listed options. *)
Ltac frame :=
  repeat match goal with
  | H : (if ?b then _ else _) = Ok _ |- _ => destruct b
  | H : match ?v with _ => _ end = Ok _ |- _ => destruct v; try discriminate H
  | _ => progress inv_ok
  end;
  repeat match goal with
  | H : set ?n _ ?c = Ok ?c' |- changes _ ?c _ =>
      transitivity c'; [eapply set_changes; [exact H|in_list|in_list]|]; clear H
  | H : set_if ?a ?n ?o ?c = Ok ?c' |- changes _ ?c _ =>
      transitivity c'; [eapply set_if_changes; [exact H|in_list|in_list]|]; clear H
  | H : set_family ?a ?n ?r ?c = Ok ?c' |- changes _ ?c _ =>
      transitivity c'; [eapply set_family_changes; [exact H|in_list|all_in_list|in_list]|]; clear H
  | |- changes _ ?c (assign ?n ?v ?d) =>
      transitivity d; [|apply assign_changes; in_list]
  | |- changes _ ?c ?c => reflexivity
  end.

(** [override H] follows an option back through the steps to the one that sets it. *)
Ltac override H :=
  repeat match goal with
  | E : set_if ?a ?n ?o ?c = Ok ?c', V : ?a !! ?n = Some _ |- ?c' !! ?o = _ =>
      rewrite (set_if_Ok _ _ _ _ _ _ E V); destruct (truthy _); [reflexivity|]; clear E
  | E : set_if ?a ?n ?o ?c = Ok ?c' |- ?c' !! ?x = _ =>
      rewrite (set_if_changes _ [o; "instruction_blocklist"] _ _ _ _ E); [clear E|in_list|in_list|in_notin]
  end; apply H; in_notin.

(** The options set after the process' suffix, and all that come after the general ones. *)
Definition final_options : list string :=
  ["generator"; "cpu_type"; "dump_stats"; "InvisiSpec"; "InvisiSpec_UnsafeBaseline";
   "InvisiSpec_FuturisticSpec"; "STT"; "STT_UnsafeBaseline"; "STT_FuturisticSpec"; "DOLMA";
   "DOLMA_mode"; "SpecLFB"; "SpecLFB_UnsafeBaseline"; "CleanupSpec"; "CleanupSpec_UnsafeBaseline";
   "protean"; "protean_pred_mode"; "protean_pred_size"; "gem5_script_opts"; "test_case";
   "feedback_driven_generator"; "debug"; "debug_flags"; "ruby"; "result_dir"; "profile";
   "gem5_ipc_persist_log"; "gem5_ipc_show_output"; "measure_uarch_diversity";
   "gem5_save_checkpoints"; "instruction_blocklist"].
Definition suffixed_options : list string := ["gem5_output_location"; "gem5_checkpoint"; "debug_dir"].
Definition later_options : list string := "process_run" :: suffixed_options ++ final_options.

Lemma final_later c c' : changes final_options c c' → changes later_options c c'.
Proof. apply changes_weaken. intros x Hx. unfold later_options. right. apply elem_of_app. by right. Qed.

Lemma set_process_run_changes args c c' :
  set_process_run args c = Ok c' → changes later_options c c'.
Proof. unfold set_process_run. intros H. frame. Qed.

Lemma set_defences_changes args c c' :
  set_defences args c = Ok c' → changes final_options c c'.
Proof. unfold set_defences. intros H. frame. Qed.

Lemma set_cpu_changes args c c' : set_cpu args c = Ok c' → changes final_options c c'.
Proof.
  unfold set_cpu. intros H. inv_ok.
  destruct (truthy a), (truthy a0); frame.
Qed.

Lemma set_debug_changes args c c' : set_debug args c = Ok c' → changes final_options c c'.
Proof. unfold set_debug. intros H. frame. Qed.

Lemma set_save_checkpoints_changes c c' :
  set_save_checkpoints c = Ok c' → changes final_options c c'.
Proof. unfold set_save_checkpoints. intros H. frame. Qed.

Lemma sanity_check_changes c : changes final_options c (sanity_check c).
Proof. unfold sanity_check. case_bool_decide; [apply changes_insert; in_list|reflexivity]. Qed.

Lemma configure_run_changes args c c' : configure_run args c = Ok c' → changes final_options c c'.
Proof.
  unfold configure_run. intros H. inv_ok. etransitivity; [apply sanity_check_changes|].
  etransitivity; [eapply set_debug_changes; eauto|]. eapply set_save_checkpoints_changes; eauto.
Qed.

(** After the general options only the later ones change; the last [CONF.set] is that
    of the test case, after which no size is assigned. *)
Lemma configure_steps safe_load args c c' :
  configure safe_load args c = Ok c' →
  ∃ c0 c1 c2 c3 c4 name,
    load_config_file safe_load args c0 = Ok c1 ∧ set_general args c1 = Ok c2
    ∧ changes later_options c2 c3 ∧ set "test_case" name c3 = Ok c4 ∧ changes later_options c4 c'.
Proof.
  unfold configure, configure_options. intros H. inv_ok.
  eexists _, _, _, _, _, _. split; [done|]. split; [done|]. split; [|split; [done|]].
  - etransitivity; [eapply set_process_run_changes; eauto|]. apply final_later.
    etransitivity; [eapply set_cpu_changes; eauto|]. eapply set_defences_changes; eauto.
  - eapply final_later, configure_run_changes; eauto.
Qed.

(** The suffix of a process stays on its directories. *)
Lemma set_process_run_suffix args c c' run option :
  set_process_run args c = Ok c' → args !! "process_run" = Some (VStr run) → run ≠ "" →
  option ∈ suffixed_options →
  ∃ base, c !! option = Some (VStr base) ∧ c' !! option = Some (VStr (base +:+ "-" +:+ run)).
Proof.
  intros Hset Hrun Hne Hin. unfold set_process_run, arg in Hset. rewrite Hrun in Hset.
  cbn [from_option mbind result_bind truthy] in Hset.
  apply String.eqb_neq in Hne. rewrite Hne in Hset. cbn [negb] in Hset.
  do 6 (apply bind_Ok in Hset as (? & ? & Hset)).
  assert (Hplus : ∀ o c v, plus o ("-" +:+ run) c = Ok v →
    ∃ base, c !! o = Some (VStr base) ∧ v = VStr (base +:+ "-" +:+ run)).
  { clear. unfold plus. intros o c v H. destruct (c !! o) as [[]|]; try done. injection H as <-. by eexists. }
  repeat match goal with H : plus _ _ _ = Ok _ |- _ => apply Hplus in H as (? & ? & ->) end.
  repeat match goal with H : set _ _ _ = Ok _ |- _ => apply set_Ok in H as (_ & ? & ?) end.
  unfold suffixed_options in Hin.
  repeat (apply elem_of_cons in Hin as [->|Hin];
    [eexists; split;
     repeat match goal with
     | H : changes _ ?d ?c, E : ?c !! ?o = Some _ |- _ !! ?o = _ => rewrite (H o) in E by in_notin
     | H : changes _ _ ?c |- context [?c !! _] => rewrite (H _) by in_notin
     | H : ?c !! _ = Some _ |- context [?c !! _] => rewrite H
     end; reflexivity|]).
  by apply elem_of_nil in Hin.
Qed.

Lemma suffixed_not_final option : option ∈ suffixed_options → option ∉ final_options.
Proof.
  unfold suffixed_options. intros Hin.
  repeat (apply elem_of_cons in Hin as [->|Hin]; [in_notin|]). by apply elem_of_nil in Hin.
Qed.

(** [main] up to the debug directory, as the steps that can reach the directories. *)
Lemma configure_options_steps safe_load args c c' :
  configure_options safe_load args c = Ok c' →
  ∃ c0 c1 c2 c3, changes ["analysis_run"; "instruction_blocklist"] c c0
    ∧ load_config_file safe_load args c0 = Ok c1 ∧ set_general args c1 = Ok c2
    ∧ set_process_run args c2 = Ok c3 ∧ changes final_options c3 c'.
Proof.
  intros H. unfold configure_options in H. do 8 (apply bind_Ok in H as (? & ? & H)).
  apply (set_changes final_options) in H; [|in_list|in_list].
  eexists _, _, _, _. split; [|split; [eassumption|split; [eassumption|split; [eassumption|]]]].
  - destruct (bool_decide _); frame.
  - etransitivity; [eapply set_cpu_changes; eassumption|].
    etransitivity; [eapply set_defences_changes; eassumption|exact H].
Qed.

(** ** The directories a run is configured with *)

(** The items of the configuration file; an empty name is no file. *)
Definition file_items (safe_load : string → result (list (string * cfg_value))) (args : namespace)
    : result (list (string * cfg_value)) :=
  config ← arg args "config";
  if truthy config then match config with VStr path => safe_load path | _ => Raise TypeError end else Ok [].

(** What the file leaves an option at: the last value it gives, or the one before. *)
Definition by_file (items : list (string * cfg_value)) (c : conf) (key : string) : option cfg_value :=
  match dict_get key (rev items) with Some v => Some v | None => c !! key end.

(** The arguments that name directories. *)
Definition directory_arguments : list (string * string) :=
  [("gem5_output_location", "gem5_output"); ("debug_dir", "output_dir")].

(** A directory before the suffix of the process is added. *)
Definition configured (args : namespace) (items : list (string * cfg_value)) (c : conf) (key : string)
    : option cfg_value :=
  match dict_get key directory_arguments with
  | Some name => v ← args !! name; if truthy v then Some v else by_file items c key
  | None => by_file items c key
  end.

Lemma set_items_by_file items c c' option :
  for_each (λ '(var, value) c, set var value c) items c = Ok c' → option ≠ "instruction_blocklist" →
  c' !! option = by_file items c option.
Proof.
  intros H Hno. unfold by_file. revert c H. induction items as [|[name v] items IH]; intros c H.
  { by injection H as ->. }
  cbn in H. apply bind_Ok in H as (d & Hset & H). apply set_Ok in Hset as (_ & Hv & Hc).
  rewrite (IH _ H). cbn [rev]. rewrite dict_get_app. destruct (dict_get option (rev items)) as [w|]; [done|].
  cbn [dict_get]. destruct (decide (name = option)) as [<-|Hne]; [done|].
  apply Hc. by rewrite !not_elem_of_cons; repeat split; [congruence| |apply not_elem_of_nil].
Qed.

Lemma load_config_by_file safe_load args c c' option :
  load_config_file safe_load args c = Ok c' → option ∉ ["config_path"; "instruction_blocklist"] →
  ∃ items, file_items safe_load args = Ok items ∧ c' !! option = by_file items c option.
Proof.
  unfold load_config_file, file_items. intros H Hno. apply bind_Ok in H as (v & -> & H). cbn [mbind result_bind].
  destruct (truthy v); [|injection H as <-; by exists []]. destruct v; try done.
  apply bind_Ok in H as (items & -> & H). exists items. split; [done|].
  apply not_elem_of_cons in Hno as [Hp Hb]. apply not_elem_of_cons in Hb as [Hb _].
  rewrite (set_items_by_file _ _ _ _ H Hb). unfold by_file, assign. by rewrite lookup_insert_ne.
Qed.

Lemma set_general_directories args c c' option :
  set_general args c = Ok c' → option ∈ suffixed_options →
  c' !! option = match dict_get option directory_arguments with
                 | Some name => v ← args !! name; if truthy v then Some v else c !! option
                 | None => c !! option
                 end.
Proof.
  unfold set_general. intros H Hin. inv_ok.
  assert (Hsave : changes ["verbose"; "save_stats"; "instruction_blocklist"] c a2).
  { destruct (truthy a), (truthy a1); frame. }
  clear H1 H3. unfold suffixed_options in Hin.
  assert (Hargs : ∀ name o c c', set_if args name o c = Ok c' → ∃ v, args !! name = Some v).
  { clear. unfold set_if, arg. intros name o c c' H. destruct (args !! name); [by eexists|done]. }
  destruct (Hargs "gem5_output" "gem5_output_location" _ _ ltac:(eassumption)) as [vo Eo].
  destruct (Hargs "output_dir" "debug_dir" _ _ ltac:(eassumption)) as [vd Ed]. clear Hargs.
  apply elem_of_cons in Hin as [->|Hin]; [change (dict_get _ directory_arguments) with (Some "gem5_output"); cbv iota beta; rewrite Eo; cbn [mbind option_bind]; override Hsave|].
  apply elem_of_cons in Hin as [->|Hin]; [cbn; override Hsave|].
  apply elem_of_cons in Hin as [->|Hin]; [change (dict_get _ directory_arguments) with (Some "output_dir"); cbv iota beta; rewrite Ed; cbn [mbind option_bind]; override Hsave|].
  by apply elem_of_nil in Hin.
Qed.

(** The directories of a process: those it is configured with, and its suffix. *)
Lemma configure_options_directories safe_load args c c' run option :
  configure_options safe_load args c = Ok c' → args !! "process_run" = Some (VStr run) → run ≠ "" →
  option ∈ suffixed_options →
  ∃ items base, file_items safe_load args = Ok items ∧ configured args items c option = Some (VStr base)
    ∧ c' !! option = Some (VStr (base +:+ "-" +:+ run)).
Proof.
  intros (c0 & c1 & c2 & c3 & Ha & Hl & Hg & Hp & Hf)%configure_options_steps Hrun Hne Hin.
  destruct (set_process_run_suffix _ _ _ _ _ Hp Hrun Hne Hin) as (base & E2 & E).
  assert (Hno : option ∉ ["config_path"; "instruction_blocklist"] ∧ option ∉ ["analysis_run"; "instruction_blocklist"]).
  { clear -Hin. unfold suffixed_options in Hin.
    repeat (apply elem_of_cons in Hin as [->|Hin]; [split; in_notin|]). by apply elem_of_nil in Hin. }
  destruct Hno as [Hno Hno0].
  destruct (load_config_by_file _ _ _ _ _ Hl Hno) as (items & Hi & E1).
  exists items, base. split; [done|]. split; [|by rewrite (Hf _ (suffixed_not_final _ Hin))].
  rewrite (set_general_directories _ _ _ _ Hg Hin) in E2. unfold configured.
  unfold by_file in *. rewrite (Ha _ Hno0) in E1. by rewrite E1 in E2.
Qed.

(** A debug directory that neither the file nor the command line sets keeps its name, with
    the suffix. *)
Lemma set_general_debug_dir args c c' :
  set_general args c = Ok c' → args !! "output_dir" = Some VNone → c' !! "debug_dir" = c !! "debug_dir".
Proof.
  unfold set_general. intros H Hv. inv_ok.
  assert (Hsave : changes ["verbose"; "save_stats"; "instruction_blocklist"] c a2).
  { destruct (truthy a), (truthy a1); frame. }
  clear H1 H3.
  match goal with E : set_if args "output_dir" "debug_dir" _ = Ok _ |- _ =>
    pose proof (set_if_Ok _ _ _ _ _ _ E Hv) as Eout; cbn [truthy] in Eout; clear E end.
  rewrite (set_if_changes _ ["gem5_restore"; "instruction_blocklist"] _ _ _ _ H), Eout by (in_list || in_notin).
  override Hsave.
Qed.

Lemma load_config_keeps safe_load args c c' option :
  load_config_file safe_load args c = Ok c' → option ∉ ["config_path"; "instruction_blocklist"] →
  (∀ path items, args !! "config" = Some (VStr path) → safe_load path = Ok items → option ∉ items.*1) →
  c' !! option = c !! option.
Proof.
  unfold load_config_file, arg. intros H Hno Hfile. apply bind_Ok in H as (v & Hv & H).
  apply from_option_Ok in Hv. destruct (truthy v); [|by injection H as ->]. destruct v; try done.
  apply bind_Ok in H as (items & Hl & H). specialize (Hfile _ _ Hv Hl).
  refine (for_each_inv (λ d, d !! option = c !! option) _ _ _ _ _ _ H).
  - intros [name v] d d' Hin Hd Hset. apply set_Ok in Hset as (_ & _ & Hc). rewrite <- Hd. apply Hc.
    intros [->|Hx]%elem_of_cons; [|apply Hno; by right]. apply Hfile. by apply (list_elem_of_fmap_2 fst _ (name, v)).
  - apply lookup_insert_ne. intros <-. apply Hno. by left.
Qed.

Lemma configure_options_debug_dir safe_load args c c' run base :
  configure_options safe_load args c = Ok c' → args !! "process_run" = Some (VStr run) → run ≠ "" →
  args !! "output_dir" = Some VNone →
  (∀ path items, args !! "config" = Some (VStr path) → safe_load path = Ok items → "debug_dir" ∉ items.*1) →
  c !! "debug_dir" = Some (VStr base) → c' !! "debug_dir" = Some (VStr (base +:+ "-" +:+ run)).
Proof.
  intros (c0 & c1 & c2 & c3 & Ha & Hl & Hg & Hp & Hf)%configure_options_steps Hrun Hne Hout Hfile Hc.
  destruct (set_process_run_suffix _ _ _ _ "debug_dir" Hp Hrun Hne ltac:(in_list)) as (base' & E2 & E3).
  rewrite (set_general_debug_dir _ _ _ Hg Hout) in E2.
  rewrite (load_config_keeps _ _ _ _ "debug_dir" Hl ltac:(in_notin) Hfile), (Ha "debug_dir") in E2 by in_notin.
  rewrite Hc in E2. injection E2 as <-. by rewrite (Hf "debug_dir") by in_notin.
Qed.

(** The directories of a process: those it is configured with, with its suffix, and the
    only one it empties is its debug directory. *)
Lemma run_main_suffix safe_load args isdir c l run :
  run_main safe_load args isdir c = Ok l → args !! "process_run" = Some (VStr run) → run ≠ "" →
  (∀ option, option ∈ suffixed_options →
     ∃ items base, file_items safe_load args = Ok items ∧ configured args items c option = Some (VStr base)
       ∧ l_conf l !! option = Some (VStr (base +:+ "-" +:+ run)))
  ∧ ∀ dir, RemoveTree dir ∈ l_dirs l → l_conf l !! "debug_dir" = Some (VStr dir).
Proof.
  unfold run_main. intros H Hrun Hne.
  apply bind_Ok in H as (c1 & H1 & H). apply bind_Ok in H as (dirs & Hd & H).
  apply bind_Ok in H as (c2 & H2 & H). apply bind_Ok in H as (sub & _ & H).
  apply configure_run_changes in H2.
  assert (Hdir : ∀ dir, RemoveTree dir ∈ dirs → c1 !! "debug_dir" = Some (VStr dir)).
  { unfold debug_dirs, arg in Hd. inv_ok. intros dir [Hin|Hin]%elem_of_app.
    - destruct a as [| | |d| | |]; try done. injection Hd1 as <-.
      destruct (isdir d); [|by apply elem_of_nil in Hin].
      apply list_elem_of_singleton in Hin. by injection Hin as ->.
    - apply list_elem_of_singleton in Hin. done. }
  assert (Hl : (∀ option, option ∈ suffixed_options → l_conf l !! option = c2 !! option)
    ∧ ∀ dir, RemoveTree dir ∈ l_dirs l → RemoveTree dir ∈ dirs).
  { destruct (bool_decide (sub = VStr "fuzz")).
    - apply bind_Ok in H as (wds & Hw & H). apply bind_Ok in H as (j & _ & [= <-]). cbn.
      split; [done|]. intros dir [Hin|Hin]%elem_of_app; [done|].
      unfold working_dirs in Hw. apply bind_Ok in Hw as (wd & _ & Hw). destruct (truthy wd).
      + apply bind_Ok in Hw as (d & _ & [= <-]).
        destruct (isdir d); [by apply elem_of_nil in Hin|]. by apply list_elem_of_singleton in Hin.
      + injection Hw as <-. by apply elem_of_nil in Hin.
    - destruct (bool_decide (sub = VStr "minimize")); [|done]. inv_ok. cbn. split; [|done].
      intros option Ho. apply lookup_insert_ne. intros <-. revert Ho. in_notin. }
  destruct Hl as [Hconf Hdirs]. split.
  - intros option Ho. rewrite Hconf, (H2 _ (suffixed_not_final _ Ho)) by done.
    by eapply configure_options_directories.
  - intros dir Hin. rewrite Hconf by in_list. rewrite (H2 "debug_dir") by in_notin. by apply Hdir, Hdirs.
Qed.

(** Where [main] makes the directory of a run, given its name and its process. *)
Lemma run_main_debug_dir safe_load args isdir c l run base name :
  run_main safe_load args isdir c = Ok l → args !! "process_run" = Some (VStr run) → run ≠ "" →
  args !! "output_dir" = Some VNone → args !! "name" = Some (VStr name) →
  (∀ path items, args !! "config" = Some (VStr path) → safe_load path = Ok items → "debug_dir" ∉ items.*1) →
  c !! "debug_dir" = Some (VStr base) →
  MakeDirs (base +:+ "-" +:+ run +:+ "/" +:+ name) ∈ l_dirs l.
Proof.
  unfold run_main. intros H Hrun Hne Hout Hname Hfile Hc.
  apply bind_Ok in H as (c1 & H1 & H). apply bind_Ok in H as (dirs & Hd & H).
  apply bind_Ok in H as (c2 & _ & H). apply bind_Ok in H as (sub & _ & H).
  pose proof (configure_options_debug_dir _ _ _ _ _ _ H1 Hrun Hne Hout Hfile Hc) as Edir.
  assert (c1 !! "test_case" = Some (VStr name)) as Etest.
  { unfold configure_options in H1. do 8 (apply bind_Ok in H1 as (? & ? & H1)).
    apply set_Ok in H1 as (_ & -> & _). f_equal.
    match goal with E : test_case_name _ = Ok _ |- _ => unfold test_case_name, arg in E; rewrite Hname in E;
      cbn in E; by injection E as <- end. }
  unfold debug_dirs, arg in Hd. rewrite Edir, Etest in Hd. cbn in Hd. injection Hd as <-.
  assert (Hin : ∀ extra, MakeDirs (base +:+ "-" +:+ run +:+ "/" +:+ name) ∈
    ((if isdir (base +:+ "-" +:+ run) then [RemoveTree (base +:+ "-" +:+ run)] else [])
       ++ [MakeDirs ((base +:+ "-" +:+ run) +:+ "/" +:+ name)]) ++ extra).
  { intros extra. apply elem_of_app. left. apply elem_of_app. right. rewrite !str_app_assoc. by left. }
  destruct (bool_decide (sub = VStr "fuzz")).
  - apply bind_Ok in H as (wds & _ & H). apply bind_Ok in H as (j & _ & [= <-]). apply Hin.
  - destruct (bool_decide (sub = VStr "minimize")); [|done].
    apply bind_Ok in H as (j & _ & [= <-]). cbn. specialize (Hin []). by rewrite app_nil_r in Hin.
Qed.

(** ** The configuration [main] ends with *)

(** Whatever the configuration file and the options say, when [main] reaches the
    subcommand both input regions are whole pages. The setter only looks at the
    sizes before its own assignment, but a setter call always follows: the last
    one is that of the test case. *)
Theorem configuration_aligned safe_load args c c' :
  configure safe_load args c = Ok c' → aligned c'.
Proof.
  intros (c0 & c1 & c2 & c3 & c4 & name & _ & _ & _ & Hset & Hlater)%configure_steps.
  apply set_Ok in Hset as (Ha & _ & Hc).
  eapply (aligned_changes later_options); [by in_notin|by in_notin|exact Hlater|].
  eapply aligned_changes; [| |exact Hc|exact Ha]; by in_notin.
Qed.

(** Options of the command line that replace those of the configuration file. *)
Definition overriding : list (string * string) :=
  [("gen_seed", "test_case_generator_seed"); ("entropy_bits", "input_gen_entropy_bits");
   ("input_seed", "input_gen_seed"); ("gem5_path", "gem5_location"); ("gem5_binary", "gem5_binary");
   ("gem5_se", "gem5_se"); ("gem5_restore", "gem5_restore")].

Lemma set_general_overrides args c c' name option v :
  set_general args c = Ok c' → (name, option) ∈ overriding → args !! name = Some v →
  c' !! option = if truthy v then Some v else c !! option.
Proof.
  unfold set_general. intros H Hin Hv. inv_ok.
  assert (Hsave : changes ["verbose"; "save_stats"; "instruction_blocklist"] c a2).
  { destruct (truthy a), (truthy a1); frame. }
  clear H1 H3. unfold overriding in Hin.
  repeat (apply elem_of_cons in Hin as [[= -> ->]|Hin]; [override Hsave|]).
  by apply elem_of_nil in Hin.
Qed.

(** A seed, size or path given on the command line is the one the run uses, whatever
    the configuration file says; an option that is absent, zero or empty leaves the
    file's value. *)
Theorem command_line_wins safe_load args c c' name option v :
  configure safe_load args c = Ok c' → (name, option) ∈ overriding → args !! name = Some v →
  ∃ c0 c1, load_config_file safe_load args c0 = Ok c1
         ∧ c' !! option = if truthy v then Some v else c1 !! option.
Proof.
  intros (c0 & c1 & c2 & c3 & c4 & test & Hf & Hg & H23 & Hset & Hlater)%configure_steps Hin Hv.
  exists c0, c1. split; [done|].
  assert (Hno : option ∉ later_options).
  { unfold overriding in Hin.
    repeat (apply elem_of_cons in Hin as [[= -> ->]|Hin]; [in_notin|]). by apply elem_of_nil in Hin. }
  apply (set_changes later_options) in Hset; [|in_list|in_list].
  rewrite (Hlater _ Hno), (Hset _ Hno), (H23 _ Hno). by eapply set_general_overrides.
Qed.

Lemma configure_reads_generator safe_load args c c' :
  configure safe_load args c = Ok c' → is_Some (args !! "generator").
Proof.
  unfold configure, configure_options. intros H. inv_ok. unfold set_cpu, arg in *. inv_ok. by eexists.
Qed.

(** The [minimize] subcommand never reaches the minimiser: its parser has no option
    [--generator] (nor [--cpu-type], [--dump-stats], [--protean] or
    [--gem5-script-opts]) and [main] reads [args.generator] for both subcommands. *)
Theorem minimize_raises safe_load args c :
  dom args = {["subparser_name"]} ∪ dom parser_mini → ∃ e, configure safe_load args c = Raise e.
Proof.
  intros Hdom. destruct (configure safe_load args c) as [c'|e] eqn:E; [|by exists e].
  apply configure_reads_generator, elem_of_dom in E. rewrite Hdom in E.
  apply elem_of_union in E as [E%elem_of_singleton|[v E]%elem_of_dom]; [done|by vm_compute in E].
Qed.

Module CliDemo.
Definition safe_load (path : string) : result (list (string * cfg_value)) :=
  Ok [("input_main_region_size", VInt 8192); ("input_gen_seed", VInt 3);
      ("test_case_generator_seed", VInt 4)].
Definition fuzz_args : namespace :=
  <["subparser_name" := VStr "fuzz"]> (<["config" := VStr "configs/a.yaml"]>
    (<["gen_seed" := VInt 7]> parser_fuzz)).
Definition minimize_args : namespace := <["subparser_name" := VStr "minimize"]> parser_mini.
End CliDemo.

Lemma minimize_raises_witness :
  let args := CliDemo.minimize_args in
  dom args = {["subparser_name"]} ∪ dom parser_mini
  ∧ ∃ e, configure CliDemo.safe_load args ConfCls = Raise e.
Proof.
  assert (H : dom CliDemo.minimize_args = {["subparser_name"]} ∪ dom parser_mini).
  { unfold CliDemo.minimize_args. apply dom_insert_L. }
  split; [exact H|]. apply (minimize_raises _ _ _ H).
Defined.

Lemma demo_configures :
  ∃ c', configure CliDemo.safe_load CliDemo.fuzz_args ConfCls = Ok c'.
Proof. apply succeeds_Ok. vm_compute. reflexivity. Qed.

Lemma configuration_aligned_witness :
  ∃ c', configure CliDemo.safe_load CliDemo.fuzz_args ConfCls = Ok c' ∧ aligned c'.
Proof.
  destruct demo_configures as [c' E]. exists c'. split; [exact E|].
  apply (configuration_aligned _ _ _ _ E).
Defined.

Lemma command_line_wins_witness :
  ∃ c', configure CliDemo.safe_load CliDemo.fuzz_args ConfCls = Ok c'
      ∧ c' !! "test_case_generator_seed" = Some (VInt 7)
      ∧ ∃ c0 c1, load_config_file CliDemo.safe_load CliDemo.fuzz_args c0 = Ok c1
               ∧ c' !! "test_case_generator_seed" = Some (VInt 7).
Proof.
  destruct demo_configures as [c' E]. exists c'. split; [exact E|].
  assert (Hin : ("gen_seed", "test_case_generator_seed") ∈ overriding) by (by left).
  assert (Hv : CliDemo.fuzz_args !! "gen_seed" = Some (VInt 7)) by (by vm_compute).
  pose proof (command_line_wins _ _ _ _ _ _ _ E Hin Hv) as H.
  split; [|exact H]. destruct H as (c0 & c1 & _ & H). exact H.
Defined.
