(* ===== verification/ExecData.v ===== *)
(** * The program the executor builds for an input

    [__init__], [generate_test_data] and [construct_program] of
    [src/src/executor.py]: the address layout, the preamble that loads an input
    into the registers and the assembly text around a test case. The preamble is
    a list of instructions, printed as the text the code writes; running it is
    stated over the emulator interface, as for the model's own start state. *)

From S2P Require Import Prelude Isa Text Input InputFacts Dataflow Registers Uc Model.

Open Scope Z_scope.

(** ** Addresses *)

Section layout.
Context (r : regions).

Definition WORKING_MEMORY_SIZE : Z := 0x10000000.
Definition exec_sandbox_base : Z := 0x502000 + WORKING_MEMORY_SIZE / 2.
Definition exec_main_region : Z := exec_sandbox_base + 4096.
Definition exec_assist_region_base : Z := exec_main_region + Z.of_nat (input_main_region_size r).
Definition exec_upper_overflow_base : Z :=
  exec_assist_region_base + Z.of_nat (input_assist_region_size r).
Definition exec_stack_base : Z := exec_main_region + Z.of_nat (input_main_region_size r) - 8.
Definition exec_code_base : Z := 0x401000.
Definition main_base : Z := 0x4010e7.

(** [read_base_addresses] *)
Definition read_base_addresses : Z * Z := (exec_sandbox_base, exec_code_base).

(** ** The preamble *)

Inductive init_insn :=
  | MovImm (reg : string) (v : Z)
  | MovLoad (reg base : string)
  | AndQ (reg reg2 : string)
  | OrQ (reg reg2 : string)
  | Push (reg : string)
  | Popf.

(** The line the code writes for each of them. *)
Definition print_insn (i : init_insn) : string :=
  match i with
  | MovImm reg v => "  MOV " +:+ reg +:+ ", " +:+ str v
  | MovLoad reg base => "  MOV " +:+ reg +:+ ", qword ptr [" +:+ base +:+ "]"
  | AndQ reg reg2 => "  ANDQ " +:+ reg +:+ ", " +:+ reg2
  | OrQ reg reg2 => "  ORQ " +:+ reg +:+ ", " +:+ reg2
  | Push reg => "  PUSH " +:+ reg
  | Popf => "  POPF"
  end +:+ newline.

(** [pad]: small values get a high bit that the mask removes again, so that every
    move has the same encoding. *)
Definition pad (n : Z) : Z * Z * bool :=
  if n <=? 2 ^ 51 - 1 then (n + 2 ^ 53, 2 ^ 53 - 1, true) else (n, n, false).

Definition register_lines (reg : string) (value : Z) : list init_insn :=
  let '(value, mask, and) := pad value in
  [MovImm reg value; MovImm "R8" mask; if and : bool then AndQ reg "R8" else OrQ reg "R8"].

Definition input_registers : list string := ["RAX"; "RBX"; "RCX"; "RDX"; "RSI"; "RDI"; "EFLAGS"].

Definition flag_lines (value : Z) : list init_insn :=
  let value := Z.lor (Z.land value 2263) 2 in
  let top := exec_upper_overflow_base + 4096 in
  [MovImm "RSP" top; MovImm "RBP" top; MovImm "R10" value; Push "R10"; Popf;
   MovImm "RSP" exec_stack_base; MovImm "RBP" exec_stack_base].

Definition others : list string := ["R8"; "R9"; "R10"; "R11"; "R12"; "R13"; "R15"].

(** The registers without a value from the input, R14 and the warm-up access. *)
Definition clear_lines (STT : bool) : list init_insn :=
  ((λ reg, MovImm reg 0) <$> others) ++ [MovImm "R14" exec_sandbox_base]
  ++ (if STT then [] else [MovLoad "R10" "R14"; MovImm "R10" 0]).

(** One turn of the loop over the register values: lines for [init_registers] and
    for [init_flags]. *)
Definition init_register (p : nat * Z) : result (list init_insn * list init_insn) :=
  let '(i, value) := p in
  reg ← from_option IndexError (input_registers !! i);
  if bool_decide (reg ≠ "EFLAGS") then
    Ok (register_lines reg value, [])
  else Ok ([], flag_lines value).

(** [init_registers] and [init_flags] as instructions. *)
Definition init_insns (STT : bool) (input_ : Input) : result (list init_insn * list init_insn) :=
  parts ← mapM init_register (imap pair (get_registers r input_));
  Ok (mjoin parts.*1 ++ clear_lines STT, mjoin parts.*2).

Definition hex_digit (n : Z) : string := String (default "0"%char
  (String.list_ascii_of_string "0123456789abcdef" !! Z.to_nat n)) EmptyString.
(** [bytes.hex] of one byte, after [0x]. *)
Definition byte_text (b : Z) : string := "0x" +:+ hex_digit (b / 16) +:+ hex_digit (b mod 16).

Definition generate_test_data (STT : bool) (input_ : Input) : result (string * string * string) :=
  let values := byte_text <$> tobytes input_ in
  let data_segment := "    .BYTE " +:+ str_join "," values +:+ newline in
  '(regs, flags) ← init_insns STT input_;
  Ok (str_join "" (print_insn <$> regs), data_segment, str_join "" (print_insn <$> flags)).
End layout.

(** ** The program text *)

Definition clean_up (code_segment : string) : string :=
  let c := replace ".intel_syntax noprefix" "" code_segment in
  let c := replace ".test_case_enter:" "" c in
  let c := replace ".test_case_main:" "" c in
  let c := replace ".test_case_main.entry:" "" c in
  let c := replace ".test_case_main.exit:" "" c in
  let c := replace ".test_case_exit:" "" c in
  replace ".test_case_main.exit" ".exit" c.

Definition construct_program (code_segment init_registers init_flags data_segment : string) : string :=
  ".intel_syntax noprefix" +:+ newline +:+
  ".globl _start" +:+ newline +:+
  ".section .text" +:+ newline +:+
  "_start:" +:+ newline +:+
  init_registers +:+ init_flags +:+ clean_up code_segment +:+
  ".exit:" +:+ newline +:+
  "    LFENCE" +:+ newline +:+
  "    MOV     RAX, 60" +:+ newline +:+
  "    XOR     RDI, RDI" +:+ newline +:+
  "    SYSCALL" +:+ newline +:+
  ".section .data" +:+ newline +:+
  data_segment +:+ newline.

(** ** Running the preamble *)

Section run.
Context {uc ctx : Type} `{!Uc uc ctx}.
(** The flags the processor sets for the result of a logical operation. *)
Context (logic_flags : Z → Z).

Definition push (v : Z) (u : uc) : uc :=
  let rsp := wrap64 (reg_read u "RSP" - 8) in
  mem_write (reg_write u "RSP" rsp) rsp (le_bytes 8 v).

Definition run_insn (u : uc) (i : init_insn) : uc :=
  match i with
  | MovImm reg v => reg_write u reg v
  | MovLoad reg base => reg_write u reg (le_value (mem_read u (reg_read u base) 8))
  | AndQ reg reg2 =>
      let v := Z.land (reg_read u reg) (reg_read u reg2) in
      reg_write (reg_write u reg v) "EFLAGS" (logic_flags v)
  | OrQ reg reg2 =>
      let v := Z.lor (reg_read u reg) (reg_read u reg2) in
      reg_write (reg_write u reg v) "EFLAGS" (logic_flags v)
  | Push reg => push (reg_read u reg) u
  | Popf =>
      let rsp := reg_read u "RSP" in
      reg_write (reg_write u "EFLAGS" (le_value (mem_read u rsp 8))) "RSP" (rsp + 8)
  end.

Definition run_insns (l : list init_insn) (u : uc) : uc := fold_left run_insn l u.

(** The loader: [link1.ld] places the data segment at the main region. *)
Definition load_data (input_ : Input) (u : uc) : uc := mem_write u exec_main_region (tobytes input_).
End run.

(** ** What the preamble leaves *)

Section agree.
Context {uc ctx : Type} `{UcLaws uc ctx}.
Context (logic_flags : Z → Z).

Lemma mem_read_written u a bs : mem_read (mem_write u a bs) a (Z.of_nat (length bs)) = bs.
Proof.
  apply list_eq. intros k. destruct (decide (k < length bs)%nat) as [Hk|Hk].
  - rewrite mem_read_lookup by lia. rewrite write_byte.
    replace (_ && _) with true by (symmetry; apply andb_true_iff; rewrite Z.leb_le, Z.ltb_lt; lia).
    rewrite Z.add_simpl_l, Nat2Z.id. by destruct (lookup_lt_is_Some_2 bs k Hk) as [b ->].
  - rewrite (proj2 (lookup_ge_None bs k)) by lia. apply lookup_ge_None.
    rewrite length_mem_read by lia. lia.
Qed.

Lemma pushed_value u a v : 0 ≤ v < 2 ^ 64 → le_value (mem_read (mem_write u a (le_bytes 8 v)) a 8) = v.
Proof.
  intros Hv. change 8 with (Z.of_nat 8). rewrite <- (length_le_bytes 8 v) at 2.
  rewrite mem_read_written, le_value_bytes. by rewrite Z.mod_small.
Qed.

(** The three lines of a register leave the value there. *)
Lemma padded_value n : 0 ≤ n < 2 ^ 64 →
  let '(value, mask, and) := pad n in (if and : bool then Z.land value mask else Z.lor value mask) = n.
Proof.
  intros Hn. unfold pad. destruct (Z.leb_spec n (2 ^ 51 - 1)).
  - change (2 ^ 53 - 1) with (Z.ones 53). rewrite Z.land_ones by lia.
    replace (n + 2 ^ 53) with (n + 1 * 2 ^ 53) by lia. rewrite Z_mod_plus_full.
    apply Z.mod_small. lia.
  - apply Z.lor_diag.
Qed.

Lemma pad_range n : 0 ≤ n < 2 ^ 64 → let '(value, mask, _) := pad n in 0 ≤ value < 2 ^ 64 ∧ 0 ≤ mask < 2 ^ 64.
Proof. intros Hn. unfold pad. destruct (Z.leb_spec n (2 ^ 51 - 1)); lia. Qed.

(** Running [init_register] for a register other than the flags. *)
Lemma run_register u reg n :
  0 ≤ n < 2 ^ 64 → is_full reg = true → reg ≠ "R8" → reg ≠ "EFLAGS" →
  let u' := run_insns logic_flags (register_lines reg n) u in
  reg_read u' reg = n
  ∧ (∀ q, base_of q ≠ reg → base_of q ≠ "R8" → base_of q ≠ "EFLAGS" → reg_read u' q = reg_read u q)
  ∧ (∀ x, mem_byte u' x = mem_byte u x).
Proof.
  intros Hn Hfull H8 Hf. pose proof (padded_value n Hn) as Hp. pose proof (pad_range n Hn) as Hr. unfold register_lines.
  destruct (pad n) as [[value mask] and]. destruct Hr as [Hr1 Hr2].
  pose proof (full_base reg Hfull) as Hb.
  assert (Hread : reg_read (reg_write (reg_write u reg value) "R8" mask) reg = value).
  { rewrite reg_write_ne, reg_write_eq by (done || by rewrite Hb). by apply norm_other. }
  assert (Hmask : reg_read (reg_write (reg_write u reg value) "R8" mask) "R8" = mask).
  { rewrite reg_write_eq by done. by apply norm_other. }
  unfold run_insns. cbn [fold_left run_insn].
  destruct and; cbn [run_insn]; rewrite Hread, Hmask, Hp; (split; [|split]).
  1, 4: rewrite reg_write_ne, reg_write_eq by (done || by rewrite Hb); by apply norm_other.
  1, 3: intros q H1 H2 H3; by rewrite !reg_write_ne.
  all: intros x; by rewrite !reg_write_mem.
Qed.

Lemma run_insns_app l k u : run_insns logic_flags (l ++ k) u = run_insns logic_flags k (run_insns logic_flags l u).
Proof. apply fold_left_app. Qed.

(** [settle] evaluates a register or a byte through the writes of a run. *)
Ltac settle :=
  cbn [run_insns fold_left run_insn]; unfold push;
  repeat first [rewrite reg_write_eq by reflexivity | rewrite write_regs
               | rewrite reg_write_ne by (reflexivity || other_register) | rewrite reg_write_mem].

(** The seven register values of an input. *)
Lemma get_registers_seven r inp :
  input_ok r inp → input_register_region_size r = 64%nat →
  ∃ a b c d si di fl, get_registers r inp = [a; b; c; d; si; di; fl]
    ∧ Forall (λ v, 0 ≤ v < 2 ^ 64) [a; b; c; d; si; di; fl].
Proof.
  intros [Hlen Hran] H64.
  assert (Hl : length (get_registers r inp) = 7%nat).
  { unfold get_registers. rewrite length_take, length_drop, Hlen.
    unfold aligned_size, register_start, data_size. rewrite H64. change (64 `div` 8)%nat with 8%nat.
    change ((4096 - Z.of_nat 64) / 8) with 504.
    assert (8 <= (input_main_region_size r + input_assist_region_size r + 64) `div` 8)%nat.
    { apply Nat.div_le_lower_bound; lia. }
    lia. }
  assert (Hf : Forall (λ v, 0 ≤ v < 2 ^ 64) (get_registers r inp)).
  { unfold get_registers. by apply Forall_take, Forall_drop. }
  destruct (get_registers r inp) as [|a [|b [|c [|d [|si [|di [|fl [|]]]]]]]]; try discriminate Hl.
  by exists a, b, c, d, si, di, fl.
Qed.

Lemma land_2263_range v : 0 ≤ Z.lor (Z.land v 2263) 2 < 2 ^ 64.
Proof.
  pose proof (land_nonneg_le v 2263 ltac:(lia)) as Hv.
  assert (0 ≤ Z.lor (Z.land v 2263) 2) by (apply Z.lor_nonneg; lia).
  split; [done|]. destruct (decide (Z.lor (Z.land v 2263) 2 = 0)) as [->|Hz]; [lia|].
  apply Z.log2_lt_pow2; [lia|]. rewrite Z.log2_lor by lia.
  assert (Z.log2 (Z.land v 2263) ≤ Z.log2 2263) by (apply Z.log2_le_mono; lia).
  change (Z.log2 2263) with 11 in *. change (Z.log2 2) with 1. lia.
Qed.

Lemma load_flags_norm v : norm "EFLAGS" (Z.lor (Z.land v 2263) 2) = Z.lor (Z.land v 2263) 2.
Proof.
  apply norm_flags; [|by rewrite Z.lor_spec, orb_true_r].
  pose proof (land_nonneg_le v 2263 ltac:(lia)) as Hv.
  assert (0 ≤ Z.lor (Z.land v 2263) 2) by (apply Z.lor_nonneg; lia).
  split; [done|]. destruct (decide (Z.lor (Z.land v 2263) 2 = 0)) as [->|Hz]; [lia|].
  apply Z.log2_lt_pow2; [lia|]. rewrite Z.log2_lor by lia.
  assert (Z.log2 (Z.land v 2263) ≤ Z.log2 2263) by (apply Z.log2_le_mono; lia).
  change (Z.log2 2263) with 11 in *. change (Z.log2 2) with 1. lia.
Qed.

Lemma run_clear STT u :
  let u' := run_insns logic_flags (clear_lines STT) u in
  (∀ reg, reg ∈ others → reg_read u' reg = 0)
  ∧ reg_read u' "R14" = exec_sandbox_base
  ∧ (∀ q, base_of q ∉ others → base_of q ≠ "R14" → reg_read u' q = reg_read u q)
  ∧ (∀ x, mem_byte u' x = mem_byte u x).
Proof.
  assert (Hbase : norm "R14" exec_sandbox_base = exec_sandbox_base) by reflexivity.
  unfold clear_lines, others.
  destruct STT; cbn [fmap list_fmap app]; split_and!.
  1, 5: intros reg Hr; repeat (apply elem_of_cons in Hr as [->|Hr]; [settle; reflexivity|]);
    by apply elem_of_nil in Hr.
  1, 4: settle; exact Hbase.
  1, 3: intros q Hq H14; rewrite !not_elem_of_cons in Hq; destruct_and? Hq; settle;
    rewrite ?reg_write_ne by done; done.
  all: intros x; by settle.
Qed.

Lemma run_flags r fl u :
  exec_upper_overflow_base r + 4096 < 2 ^ 64 →
  let v := Z.lor (Z.land fl 2263) 2 in
  let u' := run_insns logic_flags (flag_lines r fl) u in
  reg_read u' "EFLAGS" = v ∧ reg_read u' "R10" = v
  ∧ reg_read u' "RSP" = exec_stack_base r ∧ reg_read u' "RBP" = exec_stack_base r
  ∧ (∀ q, base_of q ∉ ["EFLAGS"; "R10"; "RSP"; "RBP"] → reg_read u' q = reg_read u q)
  ∧ (∀ x, ¬ (exec_upper_overflow_base r + 4088 ≤ x < exec_upper_overflow_base r + 4096) →
       mem_byte u' x = mem_byte u x).
Proof.
  intros Hfit. cbv zeta. unfold flag_lines. cbv zeta. pose proof (land_2263_range fl) as Hr.
  pose proof (load_flags_norm fl) as Hnf. set (v := Z.lor (Z.land fl 2263) 2) in *.
  assert (0 < exec_upper_overflow_base r ∧ 0 ≤ exec_stack_base r ≤ exec_upper_overflow_base r) as [Hpos Hstack].
  { unfold exec_upper_overflow_base, exec_stack_base, exec_assist_region_base, exec_main_region.
    change exec_sandbox_base with 139468800. lia. }
  set (top := exec_upper_overflow_base r + 4096) in *.
  assert (Htop : norm "RSP" top = top) by (apply norm_other; [done|lia]).
  assert (Hpush : wrap64 (top - 8) = top - 8) by (apply wrap64_small; lia).
  assert (Hpush' : norm "RSP" (top - 8) = top - 8) by (apply norm_other; [done|lia]).
  assert (H10 : norm "R10" v = v) by (by apply norm_other).
  assert (Hsp : ∀ q, q ≠ "EFLAGS" → norm q (exec_stack_base r) = exec_stack_base r) by (intros; apply norm_other; [done|lia]).
  split_and!.
  - settle. rewrite Htop, Hpush, Hpush', H10, pushed_value by done. exact Hnf.
  - settle. exact H10.
  - settle. by apply Hsp.
  - settle. by apply Hsp.
  - intros q Hq. rewrite !not_elem_of_cons in Hq. destruct_and? Hq. settle. rewrite ?reg_write_ne by done. settle.
    by rewrite !reg_write_ne by done.
  - intros x Hx. settle. rewrite Htop, Hpush. rewrite write_outside; [by settle|]. rewrite length_le_bytes. lia.
Qed.

(** The registers after the preamble of the executor. *)
Lemma preamble_registers r STT inp u :
  input_ok r inp → input_register_region_size r = 64%nat → exec_upper_overflow_base r + 4096 < 2 ^ 64 →
  ∃ regs flags, init_insns r STT inp = Ok (regs, flags)
  ∧ let u' := run_insns logic_flags (regs ++ flags) u in
    (∀ i reg v, input_registers !! i = Some reg → get_registers r inp !! i = Some v →
       reg_read u' reg = if bool_decide (reg = "EFLAGS") then Z.lor (Z.land v 2263) 2 else v)
    ∧ reg_read u' "RSP" = exec_stack_base r ∧ reg_read u' "RBP" = exec_stack_base r
    ∧ reg_read u' "R14" = exec_sandbox_base
    ∧ (∀ reg, reg ∈ others → reg ≠ "R10" → reg_read u' reg = 0)
    ∧ reg_read u' "R10" = reg_read u' "EFLAGS"
    ∧ (∀ x, ¬ (exec_upper_overflow_base r + 4088 ≤ x < exec_upper_overflow_base r + 4096) →
         mem_byte u' x = mem_byte u x).
Proof.
  intros Hok H64 Hfit. destruct (get_registers_seven r inp Hok H64) as (a & b & c & d & si & di & fl & E & Hr).
  rewrite !Forall_cons in Hr. destruct Hr as (Ha & Hb & Hc & Hd & Hsi & Hdi & _ & _).
  eexists _, _. split.
  { unfold init_insns. rewrite E. reflexivity. }
  rewrite E. cbn [mjoin list_join fmap list_fmap fst snd]. rewrite ?app_nil_r, <- ?app_assoc.
  rewrite !run_insns_app.
  destruct (run_register u "RAX" a) as (R1 & K1 & M1); [done..|]. set (u1 := run_insns _ _ u) in *.
  destruct (run_register u1 "RBX" b) as (R2 & K2 & M2); [done..|]. set (u2 := run_insns _ _ u1) in *.
  destruct (run_register u2 "RCX" c) as (R3 & K3 & M3); [done..|]. set (u3 := run_insns _ _ u2) in *.
  destruct (run_register u3 "RDX" d) as (R4 & K4 & M4); [done..|]. set (u4 := run_insns _ _ u3) in *.
  destruct (run_register u4 "RSI" si) as (R5 & K5 & M5); [done..|]. set (u5 := run_insns _ _ u4) in *.
  destruct (run_register u5 "RDI" di) as (R6 & K6 & M6); [done..|]. set (u6 := run_insns _ _ u5) in *.
  repeat change (run_insns logic_flags [] ?x) with x.
  destruct (run_clear STT u6) as (C0 & C14 & Ck & Cm). set (u7 := run_insns _ _ u6) in *.
  destruct (run_flags r fl u7 Hfit) as (Ff & F10 & Fsp & Fbp & Fk & Fm). set (u8 := run_insns _ _ u7) in *.
  assert (Hkeep : ∀ q, base_of q ∉ ["EFLAGS"; "R10"; "RSP"; "RBP"] → base_of q ∉ others → base_of q ≠ "R14" →
    reg_read u8 q = reg_read u6 q).
  { intros q H1 H2 H3. by rewrite Fk, Ck. }
  split_and!; try done.
  - intros i reg v Hi Hv.
    destruct i as [|[|[|[|[|[|[|i]]]]]]]; try discriminate Hi;
      injection Hi as <-; injection Hv as <-.
    7: exact Ff.
    all: rewrite bool_decide_false, Hkeep by (done || other_register).
    all: rewrite ?K6, ?K5, ?K4, ?K3, ?K2 by other_register; done.
  - rewrite Fk by other_register. done.
  - intros reg Hreg H10. rewrite Fk; [by apply C0|]. unfold others in Hreg.
    repeat (apply elem_of_cons in Hreg as [->|Hreg]; [done || other_register|]). by apply elem_of_nil in Hreg.
  - by rewrite Ff, F10.
  - intros x Hx. by rewrite Fm, Cm, M6, M5, M4, M3, M2, M1.
Qed.

(** The registers after [_load_input] of the model. *)
Lemma model_registers (cfg : settings) inp (m m' : model (uc := uc) (ctx := ctx)) :
  input_ok (s_regions cfg) inp → input_register_region_size (s_regions cfg) = 64%nat →
  _load_input cfg inp m = Ok m' →
  (∀ i reg v, input_registers !! i = Some reg → get_registers (s_regions cfg) inp !! i = Some v →
     reg_read (m_uc m') reg = if bool_decide (reg = "EFLAGS") then Z.lor (Z.land v 2263) 2 else v)
  ∧ reg_read (m_uc m') "RSP" = wrap64 (stack_base cfg) ∧ reg_read (m_uc m') "RBP" = wrap64 (stack_base cfg)
  ∧ reg_read (m_uc m') "R14" = wrap64 (s_sandbox_base cfg)
  ∧ ∀ x, mem_byte (m_uc m') x
       = mem_byte (mem_write (mem_write (mem_write (m_uc m) (lower_overflow_base cfg)
           (replicate (Z.to_nat OVERFLOW_REGION_SIZE) 0)) (upper_overflow_base cfg)
           (replicate (Z.to_nat OVERFLOW_REGION_SIZE) 0)) (s_sandbox_base cfg) (tobytes inp)) x.
Proof.
  intros Hok H64 Hload.
  destruct (get_registers_seven _ inp Hok H64) as (a & b & c & d & si & di & fl & E & Hran).
  rewrite !Forall_cons in Hran. destruct Hran as (Ha & Hb & Hc & Hd & Hsi & Hdi & _ & _).
  unfold _load_input in Hload. rewrite E in Hload. cbv zeta in Hload.
  set (u := mem_write (mem_write (mem_write _ _ _) _ _) _ _) in *. clearbody u.
  cbn in Hload. injection Hload as <-. cbn [m_uc set_uc]. rewrite E.
  split_and!; try (by settle); [|intros x; by settle].
  intros i reg v Hi Hv.
  destruct i as [|[|[|[|[|[|[|i]]]]]]]; try discriminate Hi;
    injection Hi as <-; injection Hv as <-; settle; (exact (load_flags_norm fl) || by apply norm_other).
Qed.

Lemma load_input_Ok (cfg : settings) inp (m : model (uc := uc) (ctx := ctx)) :
  input_ok (s_regions cfg) inp → input_register_region_size (s_regions cfg) = 64%nat →
  ∃ m', _load_input cfg inp m = Ok m'.
Proof.
  intros Hok H64.
  destruct (get_registers_seven _ inp Hok H64) as (a & b & c & d & si & di & fl & E & _).
  unfold _load_input. rewrite E. cbv zeta.
  set (u := mem_write (mem_write (mem_write _ _ _) _ _) _ _). clearbody u. cbn. by eexists.
Qed.

Lemma tobytes_covers r inp :
  input_ok r inp → input_register_region_size r = 64%nat →
  Z.of_nat (input_main_region_size r + input_assist_region_size r) ≤ Z.of_nat (length (tobytes inp)).
Proof.
  intros [Hlen _] H64. destruct inp as [ws seed]. rewrite length_tobytes. cbn in Hlen. rewrite Hlen.
  unfold aligned_size, data_size. rewrite H64. change ((4096 - Z.of_nat 64) / 8) with 504.
  pose proof (Nat.div_mod_eq (input_main_region_size r + input_assist_region_size r + 64) 8).
  pose proof (Nat.mod_upper_bound (input_main_region_size r + input_assist_region_size r + 64) 8). lia.
Qed.

(** C29: The executor, outside the IPC mode, and the model start a test case from the
    same input registers, flags and R14, for regions that fit the address space. But the executor's stack pointers are a page
    above the model's, R10 keeps the flags although the other unused registers are
    cleared, and the linker puts the input a page above R14 while the model writes
    it at R14: the bytes a test case finds at a given offset from R14 differ. *)
Theorem initial_states_agree STT (cfg : settings) inp (m m' : model (uc := uc) (ctx := ctx)) u :
  input_ok (s_regions cfg) inp → input_register_region_size (s_regions cfg) = 64%nat →
  exec_upper_overflow_base (s_regions cfg) + 4096 < 2 ^ 64 →
  s_sandbox_base cfg = (read_base_addresses).1 → _load_input cfg inp m = Ok m' →
  ∃ regs flags, init_insns (s_regions cfg) STT inp = Ok (regs, flags)
  ∧ let u' := run_insns logic_flags (regs ++ flags) (load_data inp u) in
    (∀ reg, reg ∈ "R14" :: input_registers → reg_read u' reg = reg_read (m_uc m') reg)
    ∧ (∀ reg, reg ∈ ["RSP"; "RBP"] → reg_read u' reg = reg_read (m_uc m') reg + 4096)
    ∧ reg_read u' "R10" = reg_read u' "EFLAGS"
    ∧ (∀ a, s_sandbox_base cfg ≤ a < s_sandbox_base cfg
              + Z.of_nat (input_main_region_size (s_regions cfg) + input_assist_region_size (s_regions cfg)) →
         mem_byte u' (a + 4096) = mem_byte (m_uc m') a).
Proof.
  intros Hok H64 Hfit Hbase Hload. cbn in Hbase.
  destruct (model_registers cfg inp m m' Hok H64 Hload) as (Mr & Msp & Mbp & M14 & Mm).
  destruct (preamble_registers (s_regions cfg) STT inp (load_data inp u) Hok H64 Hfit)
    as (regs & flags & Hi & Er & Esp & Ebp & E14 & _ & E10 & Em).
  destruct (get_registers_seven _ inp Hok H64) as (a & b & c & d & si & di & fl & E & _).
  exists regs, flags. split; [done|]. cbv zeta in *. rewrite E in *. split_and!; [| |done|].
  - intros reg Hreg. apply elem_of_cons in Hreg as [->|Hreg]; [by rewrite E14, M14, Hbase|].
    apply list_elem_of_lookup in Hreg as [i Hreg].
    destruct ([a; b; c; d; si; di; fl] !! i) as [v|] eqn:Ev.
    + by rewrite (Er i reg v Hreg Ev), (Mr i reg v Hreg Ev).
    + apply lookup_ge_None in Ev. apply lookup_lt_Some in Hreg. cbn in *. lia.
  - assert (Hstack : exec_stack_base (s_regions cfg) = stack_base cfg + 4096).
    { unfold exec_stack_base, exec_main_region, stack_base. rewrite Hbase. lia. }
    assert (Hwrap : wrap64 (stack_base cfg) = stack_base cfg).
    { apply wrap64_small. unfold exec_upper_overflow_base, exec_assist_region_base, exec_main_region in Hfit.
      unfold stack_base. rewrite Hbase. change exec_sandbox_base with 139468800 in *. lia. }
    rewrite Hwrap in Msp, Mbp.
    intros reg Hreg. repeat (apply elem_of_cons in Hreg as [->|Hreg]; [congruence|]).
    by apply elem_of_nil in Hreg.
  - intros x Hx. pose proof (tobytes_covers _ inp Hok H64) as Hc.
    rewrite Em, Mm.
    2:{ unfold exec_upper_overflow_base, exec_assist_region_base, exec_main_region. lia. }
    unfold load_data. rewrite !write_byte. unfold exec_main_region in *. rewrite <- Hbase.
    replace (x + 4096 - (s_sandbox_base cfg + 4096)) with (x - s_sandbox_base cfg) by lia.
    destruct (Z.leb_spec (s_sandbox_base cfg + 4096) (x + 4096)); [|lia].
    destruct (Z.ltb_spec (x + 4096) (s_sandbox_base cfg + 4096 + Z.of_nat (length (tobytes inp)))); [|lia].
    destruct (Z.leb_spec (s_sandbox_base cfg) x); [|lia].
    by destruct (Z.ltb_spec x (s_sandbox_base cfg + Z.of_nat (length (tobytes inp)))); [|lia].
Qed.
End agree.

Module ExecDemo.
Definition cfg : settings :=
  mkSettings CT Seq 5 250 exec_sandbox_base 0 default_regions ∅ false false.
Definition inp : Input := new_Input default_regions (λ i, Z.of_nat i * 2 ^ 50).
Definition start : model (uc := toy_uc) (ctx := gmap string Z) :=
  mkModel (mkToy ∅ ∅) (mkTracerState [] [] 0 [] 0 false clear_analysis) None None false 0 [] []
    (0, 0, [], 0) 0 0 false.
End ExecDemo.

Lemma initial_states_agree_witness :
  ∃ m' regs flags, _load_input ExecDemo.cfg ExecDemo.inp ExecDemo.start = Ok m'
  ∧ init_insns default_regions false ExecDemo.inp = Ok (regs, flags)
  ∧ let u' := run_insns (λ _, 0) (regs ++ flags) (load_data ExecDemo.inp (mkToy ∅ ∅)) in
    (∀ reg, reg ∈ "R14" :: input_registers → reg_read u' reg = reg_read (m_uc m') reg)
    ∧ (∀ reg, reg ∈ ["RSP"; "RBP"] → reg_read u' reg = reg_read (m_uc m') reg + 4096)
    ∧ reg_read u' "R10" = reg_read u' "EFLAGS"
    ∧ (∀ a, exec_sandbox_base ≤ a < exec_sandbox_base + Z.of_nat (4096 + 4096) →
         mem_byte u' (a + 4096) = mem_byte (m_uc m') a).
Proof.
  destruct (load_input_Ok ExecDemo.cfg ExecDemo.inp ExecDemo.start) as [m' E];
    [apply new_Input_ok|reflexivity|].
  destruct (initial_states_agree (λ _, 0) false ExecDemo.cfg ExecDemo.inp ExecDemo.start m' (mkToy ∅ ∅))
    as (regs & flags & Hi & H); [apply new_Input_ok|reflexivity|reflexivity|reflexivity|exact E|].
  exists m', regs, flags. split; [exact E|]. split; [exact Hi|]. exact H.
Defined.
