(* ===== verification/ModelLoad.v ===== *)
(** * Loading a test case into the model

    [X86UnicornModel.load_test_case] of [src/src/model.py] over the part of Unicorn that
    maps memory: the code and the working memory are mapped, the code is written and
    the hooks are set.  What the model writes afterwards (see [Model._load_input]) is
    inside the mapped memory, so those writes do not fault. *)

From S2P Require Import Prelude Isa Input InputFacts Taint Dataflow Registers Uc Model ExecData.

Open Scope Z_scope.

(** ** Unicorn's memory *)

Inductive hook := HookMemory | HookCode.

Class UcMemory (uc : Type) := {
  uc_new : uc;
  uc_map : Z → Z → uc → result uc;
  uc_write : Z → list Z → uc → result uc;
  uc_hook : hook → uc → result uc;
  uc_mapped : uc → Z → bool;
  uc_hooks : uc → list hook
}.

Definition within (address size x : Z) : bool := (address <=? x) && (x <? address + size).

(** Ranges of whole pages that are free can be mapped; a write needs every byte mapped. *)
Class UcMemoryLaws (uc : Type) `{UcMemory uc} := {
  new_mapped x : uc_mapped uc_new x = false;
  new_hooks : uc_hooks uc_new = [];
  map_ok u a n : a mod 4096 = 0 → n mod 4096 = 0 → 0 < n → (∀ x, within a n x = true → uc_mapped u x = false) →
    ∃ u', uc_map a n u = Ok u' ∧ (∀ x, uc_mapped u' x = within a n x || uc_mapped u x) ∧ uc_hooks u' = uc_hooks u;
  write_ok u a bs : (∀ x, within a (Z.of_nat (length bs)) x = true → uc_mapped u x = true) →
    ∃ u', uc_write a bs u = Ok u' ∧ (∀ x, uc_mapped u' x = uc_mapped u x) ∧ uc_hooks u' = uc_hooks u;
  write_fault u a bs x : within a (Z.of_nat (length bs)) x = true → uc_mapped u x = false →
    uc_write a bs u = Raise UcError;
  hook_ok u h :
    ∃ u', uc_hook h u = Ok u' ∧ (∀ x, uc_mapped u' x = uc_mapped u x) ∧ uc_hooks u' = uc_hooks u ++ [h]
}.

(** ** [load_test_case] *)

Section load.
Context {uc : Type} `{!UcMemory uc}.
Context (cfg : settings).

Definition CODE_SIZE : Z := 4 * 1024.
Definition WORKING_MEMORY : Z := 0x10000000.

Definition prepare_emulator (code : list Z) : result uc :=
  emulator ← uc_map (s_code_start cfg) CODE_SIZE uc_new;
  emulator ← uc_map (s_sandbox_base cfg - WORKING_MEMORY / 2) WORKING_MEMORY emulator;
  emulator ← uc_write (s_code_start cfg) code emulator;
  emulator ← uc_hook HookMemory emulator;
  uc_hook HookCode emulator.

(** The emulator and [code_end]; an error of Unicorn ends the program. *)
Definition load_test_case (code : list Z) : result (uc * Z) :=
  match prepare_emulator code with
  | Ok emulator => Ok (emulator, s_code_start cfg + Z.of_nat (length code))
  | Raise UcError => Raise SystemExit
  | Raise e => Raise e
  end.

(** ** The memory after loading *)

Context `{!UcMemoryLaws uc}.
Context (Hsandbox : s_sandbox_base cfg = (read_base_addresses).1).
Context (Hcode : s_code_start cfg = (read_base_addresses).2).

Lemma within_spec a n x : within a n x = true ↔ a ≤ x < a + n.
Proof. unfold within. rewrite andb_true_iff, Z.leb_le, Z.ltb_lt. done. Qed.

Definition code_range (x : Z) : bool := within (s_code_start cfg) CODE_SIZE x.
Definition working_range (x : Z) : bool := within (s_sandbox_base cfg - WORKING_MEMORY / 2) WORKING_MEMORY x.

Lemma ranges_disjoint x : working_range x = true → code_range x = false.
Proof.
  unfold working_range, code_range. rewrite Hsandbox, Hcode. intros H%within_spec.
  destruct (within _ CODE_SIZE x) eqn:E; [|done]. apply within_spec in E. cbn in *.
  unfold exec_sandbox_base, WORKING_MEMORY_SIZE, exec_code_base, CODE_SIZE, WORKING_MEMORY in *. cbn in *. lia.
Qed.

Lemma mapped_memory : ∃ u, (uc_map (s_code_start cfg) CODE_SIZE uc_new ≫=
    uc_map (s_sandbox_base cfg - WORKING_MEMORY / 2) WORKING_MEMORY) = Ok u ∧
  (∀ x, uc_mapped u x = working_range x || code_range x) ∧ uc_hooks u = [].
Proof.
  destruct (map_ok uc_new (s_code_start cfg) CODE_SIZE) as (u1 & E1 & M1 & K1).
  { by rewrite Hcode. } { done. } { done. } { intros. apply new_mapped. }
  destruct (map_ok u1 (s_sandbox_base cfg - WORKING_MEMORY / 2) WORKING_MEMORY) as (u2 & E2 & M2 & K2).
  { by rewrite Hsandbox. } { done. } { done. }
  { intros x Hx. rewrite M1, new_mapped, orb_false_r. by apply ranges_disjoint. }
  exists u2. rewrite E1. cbn. split; [done|]. split; [|by rewrite K2, K1, new_hooks].
  intros x. by rewrite M2, M1, new_mapped, orb_false_r.
Qed.

(** Code that fits its page is loaded: exactly the code page and the working memory are
    mapped and both hooks are set.  Longer code ends the program. *)
Lemma load_test_case_spec code :
  if Z.of_nat (length code) <=? CODE_SIZE then
    ∃ u, load_test_case code = Ok (u, s_code_start cfg + Z.of_nat (length code)) ∧
      (∀ x, uc_mapped u x = working_range x || code_range x) ∧ uc_hooks u = [HookMemory; HookCode]
  else load_test_case code = Raise SystemExit.
Proof.
  destruct mapped_memory as (u & E & M & K).
  assert (Hprep : prepare_emulator code =
    (u ← uc_write (s_code_start cfg) code u; u ← uc_hook HookMemory u; uc_hook HookCode u)).
  { unfold prepare_emulator. apply bind_Ok in E as (u1 & -> & E). cbn. by rewrite E. }
  unfold load_test_case. rewrite Hprep. clear Hprep E. destruct (Z.leb_spec (Z.of_nat (length code)) CODE_SIZE) as [Hfit|Hlong].
  - destruct (write_ok u (s_code_start cfg) code) as (u1 & -> & M1 & K1).
    { intros x Hx%within_spec. rewrite M. apply orb_true_iff. right. apply within_spec. lia. }
    destruct (hook_ok u1 HookMemory) as (u2 & E2 & M2 & K2), (hook_ok u2 HookCode) as (u3 & E3 & M3 & K3).
    cbn. rewrite E2. cbn. rewrite E3. exists u3. split; [done|]. split; [|by rewrite K3, K2, K1, K].
    intros x. by rewrite M3, M2, M1, M.
  - rewrite (write_fault u (s_code_start cfg) code (s_code_start cfg + CODE_SIZE)); [done|apply within_spec; unfold CODE_SIZE in *; lia|].
    rewrite M. apply orb_false_iff. unfold working_range, code_range.
    split; apply not_true_iff_false; rewrite within_spec, ?Hsandbox, Hcode; cbn; unfold exec_sandbox_base,
      WORKING_MEMORY_SIZE, exec_code_base, CODE_SIZE, WORKING_MEMORY in *; cbn in *; lia.
Qed.
End load.

(** *** Inputs are written into mapped memory *)

Section inputs.
Context {uc : Type} `{!UcMemory uc} `{!UcMemoryLaws uc}.
Context (cfg : settings).
Notation r := (s_regions cfg).

(** The addresses [Model._load_input] writes, and the word below the stack pointer. *)
Definition written_by (input_ : Input) (x : Z) : bool :=
  within (lower_overflow_base cfg) OVERFLOW_REGION_SIZE x
  || within (upper_overflow_base cfg) OVERFLOW_REGION_SIZE x
  || within (s_sandbox_base cfg) (Z.of_nat (length (tobytes input_))) x
  || within (stack_base cfg - 8) 8 x.

(** The regions the configuration chooses leave the upper half of the working memory. *)
Definition regions_fit : Prop :=
  16 ≤ Z.of_nat (Input.input_main_region_size r) ∧
  Z.of_nat (Input.input_main_region_size r) + Z.of_nat (input_assist_region_size r) + 2 * OVERFLOW_REGION_SIZE
    ≤ WORKING_MEMORY / 2.

(** Loading a test case.  From the addresses the executor reports, code that fits its
    page is loaded and both hooks are set, and every address that loading an input
    writes, and the top of the stack, is in mapped memory; longer code ends the program. *)
Theorem loading_maps_inputs code input_ :
  s_sandbox_base cfg = (read_base_addresses).1 → s_code_start cfg = (read_base_addresses).2 →
  regions_fit → Z.of_nat (length (tobytes input_)) ≤ WORKING_MEMORY / 2 →
  if Z.of_nat (length code) <=? CODE_SIZE then
    ∃ u : uc, load_test_case cfg code = Ok (u, s_code_start cfg + Z.of_nat (length code)) ∧
      uc_hooks u = [HookMemory; HookCode] ∧
      (∀ x, written_by input_ x = true → uc_mapped u x = true) ∧
      (∀ x, within (s_code_start cfg) (Z.of_nat (length code)) x = true → uc_mapped u x = true ∧ written_by input_ x = false)
  else load_test_case (uc := uc) cfg code = Raise SystemExit.
Proof.
  intros Hs Hc [Hmain Hfit] Hinput. pose proof (load_test_case_spec cfg Hs Hc code) as H.
  destruct (Z.leb_spec (Z.of_nat (length code)) CODE_SIZE) as [Hle|]; [|done].
  destruct H as (u & E & M & K). exists u. split; [done|]. split; [done|].
  assert (Hw : ∀ x, written_by input_ x = true → working_range cfg x = true).
  { intros x. unfold written_by, working_range, lower_overflow_base, upper_overflow_base, stack_base,
      assist_region_base, main_region, lower_overflow_base.
    rewrite !orb_true_iff, !within_spec. unfold OVERFLOW_REGION_SIZE, WORKING_MEMORY in *.
    change (0x10000000 / 2) with 0x8000000 in *. lia. }
  split.
  - intros x Hx. by rewrite M, (Hw x Hx).
  - intros x Hx. apply within_spec in Hx. assert (Hin : code_range cfg x = true) by (apply within_spec; lia).
    rewrite M, Hin, orb_true_r. split; [done|]. apply not_true_is_false. intros Hx'%Hw.
    apply (ranges_disjoint cfg Hs Hc) in Hx'. congruence.
Qed.
End inputs.

(** ** A concrete memory *)

Record toy_memory := mkToyMemory { t_maps : list (Z * Z); t_hooks : list hook }.
Definition toy_mapped (u : toy_memory) (x : Z) : bool := existsb (λ '(a, n), within a n x) (t_maps u).
Definition apart (a n : Z) (m : Z * Z) : bool := (m.2 <=? 0) || (a + n <=? m.1) || (m.1 + m.2 <=? a).

#[export] Instance toy_UcMemory : UcMemory toy_memory := {
  uc_new := mkToyMemory [] [];
  uc_map a n u :=
    if (a mod 4096 =? 0) && (n mod 4096 =? 0) && (0 <? n) && forallb (apart a n) (t_maps u)
    then Ok (mkToyMemory ((a, n) :: t_maps u) (t_hooks u)) else Raise UcError;
  uc_write a bs u :=
    if forallb (λ k, toy_mapped u (a + Z.of_nat k)) (seq 0 (length bs)) then Ok u else Raise UcError;
  uc_hook h u := Ok (mkToyMemory (t_maps u) (t_hooks u ++ [h]));
  uc_mapped := toy_mapped;
  uc_hooks := t_hooks
}.

#[export] Instance toy_UcMemoryLaws : UcMemoryLaws toy_memory.
Proof.
  split; cbn -[Z.modulo]; try done.
  - intros u a n Ha Hn Hpos Hfree. rewrite Ha, Hn, (proj2 (Z.ltb_lt 0 n) Hpos). cbn [andb Z.eqb].
    destruct (forallb (apart a n) (t_maps u)) eqn:E; [by eexists|]. exfalso.
    apply not_true_iff_false in E. apply E, forallb_forall. intros [b m] Hin. unfold apart. cbn.
    destruct (Z.leb_spec m 0), (Z.leb_spec (a + n) b), (Z.leb_spec (b + m) a); try done. exfalso.
    assert (Hx : within a n (Z.max a b) = true) by (apply within_spec; lia).
    apply Hfree in Hx. apply not_true_iff_false in Hx. apply Hx, existsb_exists. exists (b, m).
    split; [done|]. apply within_spec. lia.
  - intros u a bs Hall. eexists. rewrite (proj2 (forallb_forall _ _)); [done|].
    intros k [_ Hk]%in_seq. apply Hall, within_spec. lia.
  - intros u a bs x Hx%within_spec Hfree. destruct (forallb _ _) eqn:E; [|done]. exfalso.
    rewrite forallb_forall in E. specialize (E (Z.to_nat (x - a)) ltac:(apply in_seq; lia)).
    replace (a + Z.of_nat (Z.to_nat (x - a))) with x in E by lia. congruence.
  - intros u h. by eexists.
Qed.

Definition example_settings : settings := mkSettings CT Seq 5 250 exec_sandbox_base exec_code_base default_regions ∅ false false.

Lemma loading_maps_inputs_witness :
  ∃ u : toy_memory, load_test_case example_settings [0x90; 0xc3] = Ok (u, exec_code_base + 2) ∧
    uc_hooks u = [HookMemory; HookCode] ∧
    uc_mapped u (exec_sandbox_base + 8191) = true ∧ uc_mapped u (exec_code_base + 1) = true.
Proof.
  pose proof (loading_maps_inputs (uc := toy_memory) example_settings [0x90; 0xc3]
    (new_Input default_regions (λ i, Z.of_nat i)) eq_refl eq_refl
    ltac:(unfold regions_fit; vm_compute; split; intros H; discriminate)
    ltac:(vm_compute; intros H; discriminate)) as H.
  change (Z.of_nat (length [0x90; 0xc3]) <=? CODE_SIZE) with true in H.
  destruct H as (u & E & K & M & N). exists u. split; [exact E|]. split; [exact K|].
  split; [apply M; vm_compute; reflexivity|apply N; reflexivity].
Defined.

(** ** The model as the fuzzer's interface

    The object keeps its settings and the state of the emulator; a test case is its code
    and its address map. *)

Section interface.
Context {uc ctx : Type} `{!Uc uc ctx, !UcMemory uc}.
Context (emu_start : settings → Z → model (uc := uc) (ctx := ctx) → model (uc := uc) (ctx := ctx) * bool).
Context (xxh32 : string → Z) (fuel : nat).

Record test_program := mkTestProgram { tp_code : list Z; tp_address_map : gmap Z Instruction }.
Record unicorn_model := mkUnicornModel { um_settings : settings; um_state : model (uc := uc) (ctx := ctx) }.

Definition with_test_case (map : gmap Z Instruction) (c : settings) : settings :=
  mkSettings (s_observation c) (s_execution c) (s_nesting c) (s_max_spec_window c) (s_sandbox_base c)
    (s_code_start c) (s_regions c) map (s_tainting_enabled c) (s_execution_tracing_enabled c).
Definition with_run (nesting : Z) (tainting tracing : bool) (c : settings) : settings :=
  mkSettings (s_observation c) (s_execution c) nesting (s_max_spec_window c) (s_sandbox_base c)
    (s_code_start c) (s_regions c) (s_address_map c) tainting tracing.

Definition model_load_test_case (test_case : test_program) (u : unicorn_model) : result unicorn_model :=
  '(emulator, _) ← load_test_case (um_settings u) (tp_code test_case);
  Ok (mkUnicornModel (with_test_case (tp_address_map test_case) (um_settings u)) (set_uc emulator (um_state u))).

(** [trace_test_case] and [get_taints]: one flag is set during the run, and
    [_execute_test_case] gives the execution traces to the coverage object. *)
Definition run_inputs (tainting tracing : bool) (inputs : list Input) (nesting : Z) (u : unicorn_model)
    : result (list (Z * ExecutionTrace * option (list bool)) * unicorn_model) :=
  let c := with_run nesting tainting tracing (um_settings u) in
  '(m, rs) ← _execute_test_case c (emu_start c) xxh32 fuel inputs (um_state u);
  Ok (rs, mkUnicornModel (with_run nesting false false c) m).
Definition trace_test_case (inputs : list Input) (nesting : Z) (u : unicorn_model)
    : result (list Z * list ExecutionTrace * unicorn_model) :=
  '(rs, u) ← run_inputs false true inputs nesting u;
  Ok (rs.*1.*1, rs.*1.*2, u).
(** The dummy tracker answers [None], an array numpy did not initialise. *)
Definition get_taints (inputs : list Input) (nesting : Z) (u : unicorn_model)
    : result (list (option (list bool)) * list ExecutionTrace * unicorn_model) :=
  '(rs, u) ← run_inputs true false inputs nesting u;
  Ok (rs.*2, rs.*1.*2, u).

(** *** Every input gets its traces and its taint *)

(** The emulator only calls the hooks, which keep the tracker they are given. *)
Context (Hkeeps : ∀ c a m, is_Some (m_taint m) → is_Some (m_taint (emu_start c a m).1)).

Lemma rollback_keeps m m' a : rollback m = Ok (m', a) → is_Some (m_taint m) → is_Some (m_taint m').
Proof.
  unfold rollback. destruct (m_checkpoints m) as [|[[[]]] ?], (m_store_logs m); try done.
  intros H Ht. apply bind_Ok in H as (m1 & H & [= -> _]). unfold on_taint in H. cbn in H.
  destruct Ht as [t Ht]. rewrite Ht in H. apply bind_Ok in H as (t' & _ & [= <-]). by eexists.
Qed.

Lemma rollback_all_keeps c k m m' : rollback_all (emu_start c) k m = Ok m' → is_Some (m_taint m) → is_Some (m_taint m').
Proof.
  revert m. induction k as [|k IH]; intros m; cbn [rollback_all]; destruct (negb (m_in_speculation m)); try done;
    try by intros [= ->].
  intros H Ht. apply bind_Ok in H as ([m1 a] & H1 & H). eapply IH; [done|].
  apply Hkeeps. by eapply rollback_keeps.
Qed.

Lemma execute_input_taint c k input_ m m' t et taint :
  s_tainting_enabled c = true →
  execute_input c (emu_start c) xxh32 k input_ m = Ok (m', (t, et, taint)) → is_Some taint.
Proof.
  intros Hc H. unfold execute_input in H. apply bind_Ok in H as (m1 & H1 & H).
  destruct (emu_start c (s_code_start c) (reset_model c m1)) as [m2 e] eqn:E.
  apply bind_Ok in H as ([] & _ & H). apply bind_Ok in H as (m3 & H3 & H).
  apply bind_Ok in H as (ct & _ & H). apply bind_Ok in H as (ta & Hta & [= <- <- <- <-]).
  assert (is_Some (m_taint m3)) as [tr Htr].
  { eapply rollback_all_keeps; [done|]. change m2 with (m2, e).1. rewrite <- E. apply Hkeeps.
    unfold reset_model. rewrite Hc. destruct (s_execution c); by eexists. }
  unfold model_taint in Hta. rewrite Htr in Hta. apply bind_Ok in Hta as (v & _ & [= <-]). by eexists.
Qed.

Lemma run_inputs_spec tainting tracing inputs nesting u rs u' :
  run_inputs tainting tracing inputs nesting u = Ok (rs, u') →
  length rs = length inputs ∧ (tainting = true → Forall (λ r, is_Some r.2) rs).
Proof.
  unfold run_inputs. intros H. apply bind_Ok in H as ([m rs'] & H & [= -> _]). unfold _execute_test_case in H.
  set (c := with_run _ _ _ _) in H.
  assert (Hgen : ∀ inputs st st', for_each (λ input_ st, '(m, r) ← execute_input c (emu_start c) xxh32 fuel input_ st.1; Ok (m, st.2 ++ [r])) inputs st = Ok st' →
    ∃ new, st'.2 = st.2 ++ new ∧ length new = length inputs ∧ (tainting = true → Forall (λ r, is_Some r.2) new)).
  { clear H inputs. intros inputs. induction inputs as [|i inputs IH]; intros st st'; cbn [for_each].
    - intros [= <-]. exists []. rewrite app_nil_r. split; [done|]. by split; [|constructor].
    - intros H. apply bind_Ok in H as (st1 & H1 & H). apply bind_Ok in H1 as ([m1 r] & H1 & [= <-]).
      destruct (IH _ _ H) as (new & E & Hl & Ht). exists (r :: new). cbn in E. rewrite E, <- (app_assoc st.2).
      split; [done|]. split; [cbn; by rewrite Hl|]. intros Htn. constructor; [|by apply Ht].
      destruct r as [[t et] taint]. cbn. eapply execute_input_taint; [|exact H1]. cbn. exact Htn. }
  destruct (Hgen _ _ _ H) as (new & E & Hl & Ht). cbn in E. by subst.
Qed.

(** One contract trace and one execution trace per input, and one taint that the tracker
    computed: the uninitialised array of the dummy tracker is never handed out. *)
Lemma get_taints_computed inputs nesting u taints ets u' :
  get_taints inputs nesting u = Ok (taints, ets, u') →
  length taints = length inputs ∧ length ets = length inputs ∧ Forall is_Some taints.
Proof.
  unfold get_taints. intros H. apply bind_Ok in H as ([rs u1] & H & [= <- <- _]).
  apply run_inputs_spec in H as [Hl Ht]. rewrite !length_fmap, Hl. split; [done|]. split; [done|].
  apply Forall_fmap. by apply Ht.
Qed.
Lemma trace_test_case_length inputs nesting u ctraces ets u' :
  trace_test_case inputs nesting u = Ok (ctraces, ets, u') →
  length ctraces = length inputs ∧ length ets = length inputs.
Proof.
  unfold trace_test_case. intros H. apply bind_Ok in H as ([rs u1] & H & [= <- <- _]).
  apply run_inputs_spec in H as [Hl _]. by rewrite !length_fmap.
Qed.
End interface.
