(* ===== verification/Alike.v ===== *)
(** * Models that look alike

    The hooks of [src/src/model.py] see the emulator only through its registers and its
    memory, and much of the model's state only under some clauses.  Two models that agree
    on what the clauses read are related by [alike]; every hook, checkpoint and rollback
    maps models that are alike to models that are alike, or raises the same exception on
    both.  An index says which fields that no reset touches are known to agree: an
    instruction hook outside speculation writes each of them before it is read. *)

From S2P Require Import Prelude Isa Input Taint Dataflow Registers Uc Model SpecFacts HookFacts.

Open Scope Z_scope.

(** ** Related results *)

Inductive result_rel {A B} (R : A → B → Prop) : result A → result B → Prop :=
  | rel_ok a b : R a b → result_rel R (Ok a) (Ok b)
  | rel_raise e : result_rel R (Raise e) (Raise e).

Lemma rel_bind {A B C D} (R : A → B → Prop) (S : C → D → Prop) x y f g :
  result_rel R x y → (∀ a b, R a b → result_rel S (f a) (g b)) →
  result_rel S (x ≫= f) (y ≫= g).
Proof. intros [a b H|e] Hf; cbn; [by apply Hf|constructor]. Qed.

(** The same computation, then related ones. *)
Lemma rel_bind_same {A C D} (S : C → D → Prop) (x y : result A) f g :
  x = y → (∀ a, result_rel S (f a) (g a)) → result_rel S (x ≫= f) (y ≫= g).
Proof. intros -> Hf. destruct y; cbn; [apply Hf|constructor]. Qed.

Lemma rel_eq {A} (x y : result A) : result_rel (=) x y ↔ x = y.
Proof. split; [by intros [? ? ->|]|intros ->; destruct y; by constructor]. Qed.

Lemma rel_for_each {A S T} (R : S → T → Prop) (f : A → S → result S) (g : A → T → result T) l s t :
  (∀ x s t, R s t → result_rel R (f x s) (g x t)) → R s t →
  result_rel R (for_each f l s) (for_each g l t).
Proof.
  intros Hf. revert s t. induction l as [|x l IH]; intros s t H; cbn; [by constructor|].
  eapply rel_bind; [by apply Hf|]. intros. by apply IH.
Qed.

Section alike.
Context {uc ctx : Type} `{!Uc uc ctx, !UcLaws uc ctx}.
Abbreviation model := (@model uc ctx).
Context (disasm_one : list Z → Z → option cs_insn) (disasm : list Z → Z → list cs_insn).
Context (cfg : settings).

(** ** The emulator *)

Definition uc_alike (u u' : uc) : Prop := (∀ r, reg_read u r = reg_read u' r) ∧ same_mem u u'.

#[export] Instance uc_alike_equiv : Equivalence uc_alike.
Proof.
  split.
  - intros u. by split.
  - intros u v [H1 H2]. split; [by intros r|by symmetry].
  - intros u v w [H1 H2] [H3 H4]. split; [intros r; by rewrite H1|by etrans].
Qed.

#[export] Instance reg_read_proper : Proper (uc_alike ==> (=) ==> (=)) (reg_read (uc := uc)).
Proof. intros u u' [H _] r ? <-. apply H. Qed.
#[export] Instance mem_byte_proper : Proper (uc_alike ==> (=) ==> (=)) (mem_byte (uc := uc)).
Proof. intros u u' [_ H] x ? <-. apply H. Qed.
#[export] Instance mem_read_proper : Proper (uc_alike ==> (=) ==> (=) ==> (=)) (mem_read (uc := uc)).
Proof.
  intros u u' H a ? <- n ? <-. unfold mem_read. apply list_fmap_ext. intros _ k _.
  by rewrite H.
Qed.
#[export] Instance reg_write_proper :
  Proper (uc_alike ==> (=) ==> (=) ==> uc_alike) (reg_write (uc := uc)).
Proof.
  intros u u' [H1 H2] r ? <- v ? <-. split.
  - by apply reg_write_cong.
  - intros x. by rewrite !reg_write_mem.
Qed.
#[export] Instance mem_write_alike :
  Proper (uc_alike ==> (=) ==> (=) ==> uc_alike) (mem_write (uc := uc)).
Proof.
  intros u u' [H1 H2] a ? <- bs ? <-. split; [intros r; by rewrite !write_regs|by apply mem_write_same].
Qed.
#[export] Instance undo_changes_alike log : Proper (uc_alike ==> uc_alike) (undo_changes log).
Proof. intros u u' [H1 H2]. split; [intros r; by rewrite !undo_regs|by apply undo_same]. Qed.

(** Contexts that restore the same registers. *)
Definition ctx_alike (c c' : ctx) : Prop :=
  ∀ (u u' : uc) r, reg_read (context_restore u c) r = reg_read (context_restore u' c') r.

Lemma context_save_alike u u' : uc_alike u u' → ctx_alike (context_save u) (context_save u').
Proof. intros [H _] v v' r. by rewrite !restore_regs. Qed.
Lemma context_restore_alike u u' c c' :
  uc_alike u u' → ctx_alike c c' → uc_alike (context_restore u c) (context_restore u' c').
Proof. intros [_ H] Hc. split; [intros r; apply Hc|intros x; by rewrite !restore_mem]. Qed.

(** ** The model *)

Definition entry_alike (e e' : ctx * Z * Z * Z) : Prop :=
  ctx_alike e.1.1.1 e'.1.1.1 ∧ e.1.1.2 = e'.1.1.2 ∧ e.1.2 = e'.1.2 ∧ e.2 = e'.2.

(** Which of the fields that are not reset between inputs are known to agree. *)
Record known := Known { k_current : bool; k_id : bool; k_pc : bool; k_at : bool }.
Definition nothing : known := Known false false false false.
Definition everything : known := Known true true true true.

Definition bypasses_stores : bool :=
  match s_execution cfg with Bpas | CondBpas => true | _ => false end.

(** A field is compared when the clauses of the configuration read it. *)
Record alike (K : known) (m m' : model) : Prop := {
  al_uc : uc_alike (m_uc m) (m_uc m');
  al_trace : tr_trace (m_tracer m) = tr_trace (m_tracer m');
  al_exec : tr_execution_trace (m_tracer m) = tr_execution_trace (m_tracer m');
  al_id : s_execution_tracing_enabled cfg = true → k_id K = true →
    tr_instruction_id (m_tracer m) = tr_instruction_id (m_tracer m');
  al_unprot : s_observation cfg = Prot → tr_unprot_regs (m_tracer m) = tr_unprot_regs (m_tracer m');
  al_pc : s_observation cfg = Prot → k_pc K = true → tr_last_pc (m_tracer m) = tr_last_pc (m_tracer m');
  al_analyzed : s_observation cfg = CTS → tr_analyzed (m_tracer m) = tr_analyzed (m_tracer m');
  al_analysis : s_observation cfg = CTS → tr_analysis (m_tracer m) = tr_analysis (m_tracer m');
  al_taint : m_taint m = m_taint m';
  al_current : k_current K = true → m_current_instruction m = m_current_instruction m';
  al_spec : m_in_speculation m = m_in_speculation m';
  al_fresh : k_id K = false → m_in_speculation m = false;
  al_window : m_speculation_window m = m_speculation_window m';
  al_checkpoints : Forall2 entry_alike (m_checkpoints m) (m_checkpoints m');
  al_logs : m_store_logs m = m_store_logs m';
  al_previous : bypasses_stores = true → m_previous_store m = m_previous_store m';
  al_rollback : s_execution cfg = Null → m_latest_rollback_address m = m_latest_rollback_address m';
  al_at : s_execution cfg = Null → k_at K = true → m_instruction_address m = m_instruction_address m';
  al_stopped : m_stopped m = m_stopped m'
}.

Ltac fields H := destruct H; constructor; cbn in *; eauto with congruence.

Lemma alike_set_uc K u u' (m m' : model) :
  alike K m m' → uc_alike u u' → alike K (set_uc u m) (set_uc u' m').
Proof. intros H Hu. fields H. Qed.
Lemma alike_set_trace K l (m m' : model) : alike K m m' → alike K (set_trace l m) (set_trace l m').
Proof. intros H. fields H. Qed.
Lemma alike_set_taint K t (m m' : model) : alike K m m' → alike K (set_taint t m) (set_taint t m').
Proof. intros H. fields H. Qed.
Lemma alike_set_previous K p (m m' : model) :
  alike K m m' → alike K (set_previous_store p m) (set_previous_store p m').
Proof. intros H. fields H. Qed.
Lemma alike_stop K (m m' : model) : alike K m m' → alike K (emu_stop m) (emu_stop m').
Proof. intros H. fields H. Qed.
Lemma alike_set_execution_trace K l k (m m' : model) :
  alike K m m' → alike K (set_execution_trace l k m) (set_execution_trace l k m').
Proof. intros H. fields H. Qed.

Lemma alike_depth K (m m' : model) : alike K m m' → length (m_checkpoints m) = length (m_checkpoints m').
Proof. intros H. apply Forall2_length with entry_alike, H. Qed.
Lemma alike_append K x (m m' : model) : alike K m m' → alike K (append_trace x m) (append_trace x m').
Proof. intros H. unfold append_trace. rewrite (al_trace _ _ _ H). by apply alike_set_trace. Qed.

Lemma alike_reg K r (m m' : model) : alike K m m' → reg_read (m_uc m) r = reg_read (m_uc m') r.
Proof. intros H. apply (al_uc _ _ _ H). Qed.
Lemma alike_bytes K a n (m m' : model) : alike K m m' → mem_read (m_uc m) a n = mem_read (m_uc m') a n.
Proof. intros H. by rewrite (al_uc _ _ _ H). Qed.

(** ** The tracker *)

Lemma alike_on_taint K f (m m' : model) :
  alike K m m' → result_rel (alike K) (on_taint f m) (on_taint f m').
Proof.
  intros H. unfold on_taint. rewrite (al_taint _ _ _ H). destruct (m_taint m') as [t|]; [|by constructor].
  eapply rel_bind_same; [done|]. intros t'. constructor. by apply alike_set_taint.
Qed.

(** ** Observation *)

Lemma alike_add_mem K a (m m' : model) :
  alike K m m' → result_rel (alike K) (add_mem_address_to_trace cfg a m) (add_mem_address_to_trace cfg a m').
Proof.
  intros H. unfold add_mem_address_to_trace. eapply (rel_bind (alike K)); [|intros; by apply alike_on_taint].
  destruct (s_observation cfg); try (constructor; by apply alike_append).
  rewrite <- (al_trace _ _ _ H), <- (al_spec _ _ _ H).
  destruct (tr_trace (m_tracer m)) as [|t0 [|t1 rest]]; [constructor..|].
  destruct (m_in_speculation m); constructor; by apply alike_set_trace.
Qed.

Lemma alike_base_mem K st a n v (m m' : model) :
  k_id K = true → alike K m m' →
  result_rel (alike K) (base_observe_mem_access cfg st a n v m) (base_observe_mem_access cfg st a n v m').
Proof.
  intros HK H. unfold base_observe_mem_access. rewrite <- (al_spec _ _ _ H), <- (al_exec _ _ _ H).
  destruct (m_in_speculation m); [by constructor|].
  destruct (s_execution_tracing_enabled cfg) eqn:E; [|by constructor].
  rewrite <- (al_id _ _ _ H E HK). eapply rel_bind_same; [done|]. intros t. constructor.
  rewrite (al_uc _ _ _ H). by apply alike_set_execution_trace.
Qed.

(** Observing an instruction outside speculation sets the number of the instruction. *)
Definition learn_id (K : known) : known := Known (k_current K) true (k_pc K) (k_at K).

Lemma alike_base_instruction K a (m m' : model) :
  alike K m m' →
  result_rel (alike (learn_id K)) (base_observe_instruction cfg a m) (base_observe_instruction cfg a m').
Proof.
  intros H. unfold base_observe_instruction. eapply rel_bind_same; [done|]. intros _.
  rewrite <- (al_spec _ _ _ H), <- (al_exec _ _ _ H).
  destruct (m_in_speculation m) eqn:Es.
  { constructor. destruct (k_id K) eqn:EK; [|by rewrite (al_fresh _ _ _ H EK) in Es]. fields H. }
  destruct (s_execution_tracing_enabled cfg) eqn:E; constructor; fields H.
Qed.

Lemma alike_disasm K (m m' : model) :
  alike K m m' → disasm_instruction disasm_one m = disasm_instruction disasm_one m'.
Proof. intros H. unfold disasm_instruction. by rewrite (al_uc _ _ _ H). Qed.

Lemma alike_expose_reg K r (m m' : model) :
  alike K m m' → result_rel (alike K) (expose_reg r m) (expose_reg r m').
Proof.
  intros H. unfold expose_reg, read_cs_reg. rewrite (al_uc _ _ _ H). by apply alike_on_taint, alike_append.
Qed.
Lemma alike_expose_regs K rs (m m' : model) :
  alike K m m' → result_rel (alike K) (for_each expose_reg rs m) (for_each expose_reg rs m').
Proof. apply rel_for_each. intros. by apply alike_expose_reg. Qed.
Lemma alike_expose_mem K a n (m m' : model) :
  alike K m m' → result_rel (alike K) (expose_mem a n m) (expose_mem a n m').
Proof.
  intros H. unfold expose_mem. rewrite (al_uc _ _ _ H). by apply alike_on_taint, alike_append.
Qed.
Lemma alike_protected K pc (m m' : model) :
  alike K m m' → check_protected_pc pc m = check_protected_pc pc m'.
Proof. intros H. unfold check_protected_pc. by rewrite (al_uc _ _ _ H). Qed.

Lemma alike_pc K a (m m' : model) :
  alike K m m' → result_rel (alike (learn_id K)) (pc_observe_instruction cfg a m) (pc_observe_instruction cfg a m').
Proof.
  intros H. unfold pc_observe_instruction, add_pc_to_trace.
  eapply (rel_bind (alike K)); [by apply alike_on_taint, alike_append|].
  intros. by apply alike_base_instruction.
Qed.
Lemma alike_ctx K a (m m' : model) :
  alike K m m' →
  result_rel (alike (learn_id K)) (ctx_observe_instruction disasm_one cfg a m) (ctx_observe_instruction disasm_one cfg a m').
Proof.
  intros H. unfold ctx_observe_instruction. eapply rel_bind; [by apply alike_pc|]. intros m1 m1' H1.
  eapply rel_bind_same; [by eapply alike_disasm|]. intros i. by apply alike_expose_regs.
Qed.

Definition learn_pc (K : known) : known := Known (k_current K) (k_id K) true (k_at K).

Lemma alike_no_pc K (m m' : model) : s_observation cfg ≠ Prot → alike K m m' → alike (learn_pc K) m m'.
Proof. intros Hp H. fields H. Qed.
Lemma alike_set_prot K rs a (m m' : model) :
  alike K m m' → alike (learn_pc K) (set_prot rs a m) (set_prot rs a m').
Proof. intros H. fields H. Qed.
Lemma alike_set_analysis K b a (m m' : model) :
  alike K m m' → alike K (set_analysis b a m) (set_analysis b a m').
Proof. intros H. fields H. Qed.

Lemma alike_prot K a (m m' : model) :
  s_observation cfg = Prot → alike K m m' →
  result_rel (alike (learn_pc (learn_id K))) (prot_observe_instruction disasm_one cfg a m)
    (prot_observe_instruction disasm_one cfg a m').
Proof.
  intros Hp H. unfold prot_observe_instruction. eapply rel_bind; [by apply alike_pc|]. intros m1 m1' H1.
  eapply rel_bind_same; [by eapply alike_disasm|]. intros i. cbv zeta. rewrite <- (al_unprot _ _ _ H1) by done.
  eapply rel_bind; [by apply alike_expose_regs, alike_set_prot|]. intros m2 m2' H2.
  eapply rel_bind; [by apply alike_expose_regs, alike_set_prot|]. intros m3 m3' H3.
  rewrite (alike_protected _ _ _ _ H3). destruct (negb _); constructor; [done|by apply (alike_set_prot (learn_pc (learn_id K)))].
Qed.

Lemma alike_cts K a (m m' : model) :
  s_observation cfg = CTS → alike K m m' →
  result_rel (alike (learn_id K)) (cts_observe_instruction disasm_one disasm cfg a m)
    (cts_observe_instruction disasm_one disasm cfg a m').
Proof.
  intros Hc H. unfold cts_observe_instruction. eapply (rel_bind (alike K)).
  { rewrite <- (al_analyzed _ _ _ H), <- (al_analysis _ _ _ H) by done.
    destruct (tr_analyzed (m_tracer m)); [by constructor|]. cbv zeta. rewrite (al_uc _ _ _ H).
    eapply rel_bind_same; [done|]. intros an. constructor. by apply alike_set_analysis. }
  intros m1 m1' H1. eapply rel_bind; [by apply alike_ctx|]. intros m2 m2' H2.
  rewrite <- (al_analysis _ _ _ H2) by done. destruct (_ !! a); [by apply alike_expose_regs|by constructor].
Qed.

(** An instruction that was observed: its number and its address are known. *)
Lemma alike_observe_instruction K a (m m' : model) :
  alike K m m' →
  result_rel (alike (learn_pc (learn_id K))) (observe_instruction disasm_one disasm cfg a m)
    (observe_instruction disasm_one disasm cfg a m').
Proof.
  intros H.
  assert (∀ x y : result model, s_observation cfg ≠ Prot → result_rel (alike (learn_id K)) x y →
    result_rel (alike (learn_pc (learn_id K))) x y) as Hnp.
  { intros x y Hp [m1 m1' H1|e]; constructor. by apply alike_no_pc. }
  unfold observe_instruction. destruct (s_observation cfg) eqn:E; [..|by apply alike_prot| |];
    apply Hnp; try done; try (by apply alike_base_instruction); try (by apply alike_pc);
    [by apply alike_ctx|by apply alike_cts].
Qed.

Lemma alike_ct_mem K st a n v (m m' : model) :
  k_id K = true → alike K m m' →
  result_rel (alike K) (ct_observe_mem_access cfg st a n v m) (ct_observe_mem_access cfg st a n v m').
Proof.
  intros HK H. unfold ct_observe_mem_access. eapply rel_bind; [by apply alike_add_mem|].
  intros. by apply alike_base_mem.
Qed.

Lemma alike_observe_mem K st a n v (m m' : model) :
  k_id K = true → k_pc K = true → alike K m m' →
  result_rel (alike K) (observe_mem_access disasm_one cfg st a n v m)
    (observe_mem_access disasm_one cfg st a n v m').
Proof.
  intros HK Hpc H.
  assert (result_rel (alike K) (m ← ct_observe_mem_access cfg st a n v m; _ ← disasm_instruction disasm_one m; Ok m)
    (m ← ct_observe_mem_access cfg st a n v m'; _ ← disasm_instruction disasm_one m; Ok m)) as Hctx.
  { eapply rel_bind; [by apply alike_ct_mem|]. intros m1 m1' H1.
    eapply rel_bind_same; [by eapply alike_disasm|]. intros _. by constructor. }
  unfold observe_mem_access. destruct (s_observation cfg) eqn:E;
    try (by apply alike_ct_mem); try (by apply alike_base_mem); try exact Hctx.
  - eapply (rel_bind (alike K)); [|intros; by apply alike_base_mem].
    rewrite (al_spec _ _ _ H). destruct (_ || _); [by apply alike_add_mem|by constructor].
  - eapply rel_bind; [by apply alike_ct_mem|]. intros m1 m1' H1. destruct st; [by constructor|]. cbv zeta.
    rewrite (alike_reg _ _ _ _ H1), (al_pc _ _ _ H1 E Hpc). eapply rel_bind_same; [done|]. intros _.
    rewrite (alike_protected _ _ _ _ H1). destruct (check_protected_pc _ m1'); [by constructor|by apply alike_expose_mem].
  - eapply (rel_bind (alike K)); [destruct st; [by constructor|by apply alike_expose_mem]|].
    intros m1 m1' H1. eapply rel_bind; [by apply alike_add_mem|]. intros. by apply alike_ct_mem.
Qed.

(** ** Speculation *)

Lemma alike_checkpoint K next (m m' : model) :
  k_id K = true → alike K m m' → result_rel (alike K) (checkpoint next m) (checkpoint next m').
Proof.
  intros HK H. unfold checkpoint. apply alike_on_taint. rewrite (alike_reg _ _ _ _ H), <- (al_window _ _ _ H).
  pose proof (al_uc _ _ _ H) as Hu. destruct H; constructor; cbn in *; try done.
  - by rewrite HK.
  - constructor; [|done]. split; [|done]. by apply context_save_alike.
  - congruence.
Qed.

Lemma alike_log_change K e (m m' : model) :
  alike K m m' → result_rel (alike K) (log_change e m) (log_change e m').
Proof.
  intros H. unfold log_change. rewrite <- (al_logs _ _ _ H), <- (al_spec _ _ _ H), <- (al_window _ _ _ H).
  destruct (m_store_logs m); constructor. destruct H; constructor; cbn in *; done.
Qed.

Lemma alike_rollback K (m m' : model) :
  alike K m m' →
  result_rel (λ p p', alike K p.1 p'.1 ∧ p.2 = p'.2) (rollback m) (rollback m').
Proof.
  intros H. unfold rollback. rewrite <- (al_logs _ _ _ H).
  destruct (al_checkpoints _ _ _ H) as [|[[[c nx] fl] w] [[[c' nx'] fl'] w'] cps cps' He Hcps]; [constructor|].
  destruct He as (Hc & E1 & E2 & E3). cbn in Hc, E1, E2, E3. subst nx' fl' w'.
  destruct (m_store_logs m) as [|log logs]; [constructor|]. cbv zeta.
  eapply rel_bind; [apply alike_on_taint|intros m1 m1' H1; by constructor].
  assert (uc_alike (reg_write (undo_changes log (context_restore (m_uc m) c)) "EFLAGS" fl)
    (reg_write (undo_changes log (context_restore (m_uc m') c')) "EFLAGS" fl)) as Hu.
  { by rewrite (context_restore_alike _ _ _ _ (al_uc _ _ _ H) Hc). }
  assert (match cps with [] => false | _ => m_in_speculation m end =
    match cps' with [] => false | _ => m_in_speculation m' end) as Es.
  { rewrite <- (al_spec _ _ _ H). by destruct Hcps. }
  assert (k_id K = false → match cps with [] => false | _ => m_in_speculation m end = false) as Hf.
  { intros HK. rewrite (al_fresh _ _ _ H HK). by destruct cps. }
  destruct H; constructor; cbn in *; done.
Qed.

Lemma alike_cond K a n (m m' : model) :
  k_id K = true → alike K m m' →
  result_rel (alike K) (cond_speculate_instruction cfg a n m) (cond_speculate_instruction cfg a n m').
Proof.
  intros HK H. unfold cond_speculate_instruction. rewrite (alike_depth _ _ _ H).
  destruct (_ <=? _); [by constructor|]. rewrite (al_uc _ _ _ H). eapply rel_bind_same; [done|].
  intros [[t j] l]. destruct (t =? 0); [by constructor|]. cbv zeta.
  eapply (rel_bind (alike K)).
  - apply alike_checkpoint; [done|]. destruct l; [|done]. apply alike_set_uc; [done|]. by rewrite (al_uc _ _ _ H).
  - intros m1 m1' H1. constructor. apply alike_set_uc; [done|]. by rewrite (al_uc _ _ _ H1).
Qed.

Lemma alike_bpas K a (m m' : model) :
  bypasses_stores = true → k_id K = true → alike K m m' →
  result_rel (alike K) (bpas_speculate_instruction cfg a m) (bpas_speculate_instruction cfg a m').
Proof.
  intros Hb HK H. unfold bpas_speculate_instruction. rewrite (alike_depth _ _ _ H).
  destruct (_ <=? _); [by constructor|]. rewrite <- (al_previous _ _ _ H) by done.
  destruct (m_previous_store m) as [[[sa ss] ov] v].
  eapply (rel_bind (alike K)); [|intros; constructor; by apply alike_set_previous].
  destruct (sa =? 0); [by constructor|]. eapply rel_bind_same; [done|]. intros nv.
  eapply (rel_bind (alike K)); [by apply alike_checkpoint|]. intros m1 m1' H1.
  apply alike_log_change, alike_set_uc; [done|]. by rewrite (al_uc _ _ _ H1).
Qed.

Lemma alike_bpas_mem K st a n v (m m' : model) :
  alike K m m' →
  result_rel (alike K) (bpas_speculate_mem_access st a n v m) (bpas_speculate_mem_access st a n v m').
Proof.
  intros H. unfold bpas_speculate_mem_access. destruct st; [|by constructor]. cbv zeta.
  rewrite (alike_bytes _ _ _ _ _ H), (alike_reg _ _ _ _ H), (al_uc _ _ _ H). destruct (mem _ _); constructor; [done|]. by apply alike_set_previous.
Qed.

Lemma alike_null_mem K st a n (m m' : model) :
  s_execution cfg = Null → k_id K = true → k_at K = true → alike K m m' →
  result_rel (alike K) (null_speculate_mem_access cfg st a n m) (null_speculate_mem_access cfg st a n m').
Proof.
  intros Hn HK Hat H. unfold null_speculate_mem_access. rewrite (alike_depth _ _ _ H).
  destruct (_ <=? _); [by constructor|]. destruct st; [by constructor|].
  rewrite <- (al_at _ _ _ H), <- (al_rollback _ _ _ H) by done.
  destruct (_ =? _); [by constructor|]. eapply (rel_bind (alike K)); [by apply alike_checkpoint|].
  intros m1 m1' H1. rewrite (al_uc _ _ _ H1).
  eapply (rel_bind (alike K)); [by apply alike_log_change|]. intros m2 m2' H2. constructor.
  apply alike_set_uc; [done|]. by rewrite (al_uc _ _ _ H2).
Qed.

Definition learn_at (K : known) : known := Known (k_current K) (k_id K) (k_pc K) true.

Lemma alike_no_at K (m m' : model) : s_execution cfg ≠ Null → alike K m m' → alike (learn_at K) m m'.
Proof. intros Hp H. fields H. Qed.

Lemma alike_speculate_instruction K a n (m m' : model) :
  k_id K = true → alike K m m' →
  result_rel (alike (learn_at K)) (speculate_instruction cfg a n m) (speculate_instruction cfg a n m').
Proof.
  intros HK H.
  assert (∀ x y : result model, s_execution cfg ≠ Null → result_rel (alike K) x y →
    result_rel (alike (learn_at K)) x y) as Hnn.
  { intros x y Hp [m1 m1' H1|e]; constructor. by apply alike_no_at. }
  unfold speculate_instruction. pose proof (eq_refl : bypasses_stores = bypasses_stores) as Hb.
  unfold bypasses_stores in Hb at 1. destruct (s_execution cfg) eqn:E.
  - apply Hnn; [done|by constructor].
  - apply Hnn; [done|by apply alike_cond].
  - apply Hnn; [done|by apply alike_bpas].
  - constructor. fields H.
  - apply Hnn; [done|]. eapply rel_bind; [by apply alike_cond|]. intros. by apply alike_bpas.
Qed.

Lemma alike_speculate_mem K st a n v (m m' : model) :
  k_id K = true → k_at K = true → alike K m m' →
  result_rel (alike K) (speculate_mem_access cfg st a n v m) (speculate_mem_access cfg st a n v m').
Proof.
  intros HK Hat H. unfold speculate_mem_access.
  destruct (s_execution cfg) eqn:E; try (by constructor); try (by apply alike_bpas_mem); by apply alike_null_mem.
Qed.

(** ** The hooks *)

Lemma alike_seq_instruction K a (m m' : model) :
  k_current K = true → alike K m m' →
  result_rel (alike (learn_pc (learn_id K))) (seq_trace_instruction disasm_one disasm cfg a m)
    (seq_trace_instruction disasm_one disasm cfg a m').
Proof.
  intros Hc H. unfold seq_trace_instruction. rewrite <- (al_current _ _ _ H Hc).
  eapply (rel_bind (alike K)); [|intros; by apply alike_observe_instruction].
  destruct (m_current_instruction m); [by apply alike_on_taint|constructor].
Qed.

Lemma alike_seq_mem K st a n v (m m' : model) :
  k_id K = true → k_pc K = true → alike K m m' →
  result_rel (alike K) (seq_trace_mem_access disasm_one cfg st a n v m) (seq_trace_mem_access disasm_one cfg st a n v m').
Proof.
  intros HK Hpc H. unfold seq_trace_mem_access. eapply rel_bind; [by apply alike_on_taint|].
  intros. by apply alike_observe_mem.
Qed.

Lemma alike_window K w (m m' : model) :
  k_id K = true → alike K m m' →
  alike K (set_speculation true w (m_checkpoints m) (m_store_logs m) m)
    (set_speculation true w (m_checkpoints m') (m_store_logs m') m').
Proof. intros HK H. destruct H; constructor; cbn in *; congruence || done. Qed.

Lemma alike_spec_instruction K a n (m m' : model) :
  k_current K = true → alike K m m' →
  result_rel (alike (learn_at (learn_pc (learn_id K)))) (spec_trace_instruction disasm_one disasm cfg a n m)
    (spec_trace_instruction disasm_one disasm cfg a n m').
Proof.
  intros Hc H. unfold spec_trace_instruction. eapply (rel_bind (alike K)).
  - rewrite <- (al_spec _ _ _ H). destruct (m_in_speculation m) eqn:Es; [|by constructor].
    assert (k_id K = true) as HK.
    { destruct (k_id K) eqn:E; [done|]. by rewrite (al_fresh _ _ _ H E) in Es. }
    cbv zeta. cbn [m_current_instruction set_speculation]. rewrite <- (al_current _ _ _ H Hc).
    eapply rel_bind_same; [done|]. intros name.
    rewrite <- (al_window _ _ _ H). pose proof (alike_window K (m_speculation_window m + 1) _ _ HK H) as H1.
    set (w := _ + 1) in *. clearbody w.
    destruct (mem name _); cbn [m_speculation_window set_speculation emu_stop];
      destruct (_ <? _); constructor; repeat apply alike_stop; done.
  - intros m1 m1' H1. eapply rel_bind; [by apply alike_seq_instruction|]. intros.
    by apply alike_speculate_instruction.
Qed.

Lemma alike_spec_mem K st a n v (m m' : model) :
  k_id K = true → k_pc K = true → k_at K = true → alike K m m' →
  result_rel (alike K) (spec_trace_mem_access disasm_one cfg st a n v m) (spec_trace_mem_access disasm_one cfg st a n v m').
Proof.
  intros HK Hpc Hat H. unfold spec_trace_mem_access. eapply (rel_bind (alike K)).
  - rewrite <- (al_logs _ _ _ H). destruct (st && _); [|by constructor].
    rewrite (al_uc _ _ _ H). by apply alike_log_change.
  - intros m1 m1' H1. eapply rel_bind; [by apply alike_seq_mem|]. intros. by apply alike_speculate_mem.
Qed.

(** The hook of an instruction, after which everything is known, and the hook of an access. *)
Lemma alike_instruction_hook K a n (m m' : model) :
  alike K m m' →
  result_rel (alike everything) (instruction_hook disasm_one disasm cfg a n m)
    (instruction_hook disasm_one disasm cfg a n m').
Proof.
  intros H. unfold instruction_hook. eapply rel_bind_same; [done|]. intros i.
  assert (alike (Known true (k_id K) (k_pc K) (k_at K)) (set_current i m) (set_current i m')) as H1 by fields H.
  unfold trace_instruction.
  assert (s_execution cfg = Seq ∨ s_execution cfg ≠ Seq) as [Ex|Ex] by (destruct (s_execution cfg); auto).
  - rewrite Ex. destruct (alike_seq_instruction (Known true (k_id K) (k_pc K) (k_at K)) a _ _ eq_refl H1) as [m2 m2' H2|e]; constructor.
    apply (alike_no_at (Known true true true (k_at K))); [by rewrite Ex|done].
  - pose proof (alike_spec_instruction (Known true (k_id K) (k_pc K) (k_at K)) a n _ _ eq_refl H1) as H2. by destruct (s_execution cfg).
Qed.

Lemma alike_trace_mem st a n v (m m' : model) :
  alike everything m m' →
  result_rel (alike everything) (trace_mem_access disasm_one cfg st a n v m) (trace_mem_access disasm_one cfg st a n v m').
Proof.
  intros H. unfold trace_mem_access.
  destruct (s_execution cfg); [by apply alike_seq_mem|by apply alike_spec_mem..].
Qed.
End alike.
