(* ===== verification/Purity.v ===== *)
(** * Contract traces belong to inputs

    [_execute_test_case] of [src/src/model.py] runs a batch of inputs on one model object.
    The fuzzer compares the traces of a batch, of its boosted batches and of the pairs it
    primes with, so the trace of an input must not depend on the inputs executed before.
    The emulator is a parameter with two documented properties: it acts on the model only
    through the hooks, and it is determined by its registers and its memory.  When the test
    case stays inside the registers and the memory that [_load_input] writes, every
    input of a batch gets the result it gets alone.  What [reset_model] does not reset
    appears as a premise, and a run whose last instruction stores shows that it is needed. *)

From S2P Require Import Prelude Isa Input InputFacts Taint Dataflow Registers Uc Model SpecFacts HookFacts SpeculationEnds ExecData Alike.

Open Scope Z_scope.

(** ** The emulator *)

Section emulator.
Context {uc ctx : Type} `{!Uc uc ctx}.
Abbreviation model := (@model uc ctx).
Abbreviation code_hook := (Z → Z → model → result model).
Abbreviation mem_hook := (bool → Z → Z → Z → model → result model).

(** [emu_start(begin, end)] sets the program counter and clears a stop request. *)
Definition start_at (begin : Z) (m : model) : model :=
  mkModel (reg_write (m_uc m) "RIP" begin) (m_tracer m) (m_taint m) (m_current_instruction m)
    (m_in_speculation m) (m_speculation_window m) (m_checkpoints m) (m_store_logs m)
    (m_previous_store m) (m_latest_rollback_address m) (m_instruction_address m) false.

(** Unicorn with a hook on every instruction and one on every access.  A run is
    determined by registers and memory, and touches the rest of the model in the hooks
    only: what relates two models whose emulators agree, and is kept by the hooks and by
    any step of the machine, relates the models after the run.  The Boolean of the relation
    says whether an instruction hook was called; accesses only occur after one. *)
Class Emulator (emu : code_hook → mem_hook → Z → model → model * bool) : Prop :=
  emu_relates (code : code_hook) (access : mem_hook) (R : bool → model → model → Prop) b begin m m' :
    (∀ b m m', R b m m' → uc_alike (m_uc m) (m_uc m') ∧ m_stopped m = m_stopped m') →
    (∀ b m m' u u', R b m m' → uc_alike u u' → R b (set_uc u m) (set_uc u' m')) →
    (∀ b p n m m', R b m m' → result_rel (R true) (code p n m) (code p n m')) →
    (∀ st a n v m m', R true m m' → result_rel (R true) (access st a n v m) (access st a n v m')) →
    R b (start_at begin m) (start_at begin m') →
    (emu code access begin m).2 = (emu code access begin m').2 ∧
    ∃ b', R b' (emu code access begin m).1 (emu code access begin m').1.
End emulator.

(** ** What loading an input sets *)

Definition reset_regs : list string := input_regs ++ ["RSP"; "RBP"; "R14"].

Section purity.
Context {uc ctx : Type} `{!Uc uc ctx, !UcLaws uc ctx}.
Abbreviation model := (@model uc ctx).
Context (disasm_one : list Z → Z → option cs_insn) (disasm : list Z → Z → list cs_insn).
Context (cfg : settings).
Context (emu : (Z → Z → model → result model) → (bool → Z → Z → Z → model → result model) →
  Z → model → model * bool).
Context (xxh32 : string → Z).

Definition emu_start : Z → model → model * bool :=
  emu (instruction_hook disasm_one disasm cfg) (trace_mem_access disasm_one cfg).

(** The memory [_load_input] writes: the overflow regions and the bytes of an input. *)
Definition resets (x : Z) : bool :=
  ((lower_overflow_base cfg <=? x) && (x <? lower_overflow_base cfg + OVERFLOW_REGION_SIZE))
  || ((upper_overflow_base cfg <=? x) && (x <? upper_overflow_base cfg + OVERFLOW_REGION_SIZE))
  || ((s_sandbox_base cfg <=? x) && (x <? s_sandbox_base cfg + 8 * Z.of_nat (aligned_size (s_regions cfg)))).

(** Two emulators agree on what loading does not set: the names of other registers, and
    the other memory. *)
Definition same_outside (u0 u : uc) : Prop :=
  (∀ r, base_of r ≠ "RIP" → base_of r ∉ reset_regs → reg_read u r = reg_read u0 r) ∧
  (∀ x, resets x = false → mem_byte u x = mem_byte u0 x).

Lemma same_outside_refl u : same_outside u u.
Proof. by split. Qed.
Lemma same_outside_trans u v w : same_outside u v → same_outside v w → same_outside u w.
Proof. intros [H1 H2] [H3 H4]. split; intros; [rewrite H3, H1|rewrite H4, H2]; done. Qed.

Lemma reset_full r : r = "RIP" ∨ r ∈ reset_regs → is_full r = true.
Proof.
  intros [->|Hr]; [done|]. revert r Hr. apply Forall_forall. repeat (constructor; [reflexivity|]). constructor.
Qed.
Lemma same_outside_reg u r v : r = "RIP" ∨ r ∈ reset_regs → same_outside u (reg_write u r v).
Proof.
  intros Hr. split; [|intros x _; by rewrite reg_write_mem].
  intros r' H1 H2. rewrite reg_write_ne; [done|by apply reset_full|]. intros E. rewrite E in H1, H2. by destruct Hr.
Qed.
(** Bytes that are the old ones outside the reset memory can be written. *)
Definition harmless (u0 : uc) (a : Z) (bs : list Z) : Prop :=
  ∀ k b, bs !! k = Some b → resets (a + Z.of_nat k) = false → b = mem_byte u0 (a + Z.of_nat k).

Lemma same_outside_write u0 u a bs :
  harmless u0 a bs → same_outside u0 u → same_outside u0 (mem_write u a bs).
Proof.
  intros Hh [H1 H2]. split; [intros r H3 H4; rewrite write_regs; by apply H1|].
  intros x Hx. rewrite write_byte. destruct ((a <=? x) && _) eqn:E; [|by apply H2].
  apply andb_true_iff in E as [Ha%Z.leb_le Hb%Z.ltb_lt].
  destruct (lookup_lt_is_Some_2 bs (Z.to_nat (x - a))) as [b Eb]; [lia|]. rewrite Eb. cbn.
  specialize (Hh _ _ Eb). rewrite Z2Nat.id in Hh by lia. replace (a + (x - a)) with x in Hh by lia. auto.
Qed.

Lemma harmless_read u0 u a n : same_outside u0 u → harmless u0 a (mem_read u a n).
Proof.
  intros [_ H] k b Hk Hx. pose proof (lookup_lt_Some _ _ _ Hk) as Hl.
  unfold mem_read in Hl. rewrite length_fmap, length_seq in Hl.
  rewrite mem_read_lookup in Hk by done. injection Hk as <-. by apply H.
Qed.
Lemma harmless_inside u0 a bs n :
  Z.of_nat (length bs) ≤ n → (∀ x, a ≤ x < a + n → resets x = true) → harmless u0 a bs.
Proof.
  intros Hn Hr k b Hk Hx. apply lookup_lt_Some in Hk. rewrite Hr in Hx by lia. done.
Qed.

(** ** A run that stays in the reset memory *)

(** From which address and with which registers the test case stays inside: from its
    start, and from any point where a clause returns to it, with the registers the code
    before that point leaves, such as a masked offset, the base of the sandbox and the
    stack pointer. *)
Context (safe : Z → (string → Z) → Prop).

(** A checkpoint that can be returned to: its address, registers and flags. *)
Definition resumable (e : ctx * Z * Z * Z) : Prop :=
  ∀ u : uc, safe e.1.1.2 (reg_read (reg_write (context_restore u e.1.1.1) "EFLAGS" e.1.2)).
Definition resumes (m m1 : model) : Prop :=
  ∀ e, e ∈ m_checkpoints m1 → e ∈ m_checkpoints m ∨ resumable e.

(** The machine changes what loading sets, accesses stay in the memory loading sets, and
    the checkpoints a hook takes can be returned to. *)
Inductive confined_run : model → model → Prop :=
  | run_end m : confined_run m m
  | run_machine u m m' :
      same_outside (m_uc m) u → confined_run (set_uc u m) m' → confined_run m m'
  | run_code p n m m1 m' :
      instruction_hook disasm_one disasm cfg p n m = Ok m1 → resumes m m1 →
      confined_run m1 m' → confined_run m m'
  | run_access st a n v m m1 m' :
      0 ≤ n → (∀ x, a ≤ x < a + n → resets x = true) →
      trace_mem_access disasm_one cfg st a n v m = Ok m1 → resumes m m1 →
      confined_run m1 m' → confined_run m m'.

(** What such a run keeps: the emulator, and what a rollback or a bypassed store can put
    into it, are the old ones outside. *)
Record kept (u0 : uc) (m : model) : Prop := {
  kp_uc : same_outside u0 (m_uc m);
  kp_logs : ∀ log e, log ∈ m_store_logs m → e ∈ log → harmless u0 e.1 e.2;
  kp_checkpoints : ∀ e u r, e ∈ m_checkpoints m → base_of r ≠ "RIP" → base_of r ∉ reset_regs →
    reg_read (context_restore u e.1.1.1) r = reg_read u0 r;
  kp_previous : bypasses_stores cfg = true → let '(sa, ss, old, _) := m_previous_store m in
    sa ≠ 0 → (∀ x, sa ≤ x < sa + ss → resets x = true) ∧ (length old ≤ Z.to_nat ss)%nat ∧ 0 ≤ ss;
  kp_taint : s_tainting_enabled cfg = true → is_Some (m_taint m)
}.

(** The parts of a hook before its clause touch the trace, the tracker and the window. *)
Lemma kept_core u0 (m m' : model) : core m' = core m → kept u0 m → kept u0 m'.
Proof.
  unfold core. intros [= E1 E2 E3 _ _ E4 _ _ E5] []. constructor; try by rewrite ?E1, ?E2, ?E3, ?E4.
  intros Ht. unfold taint_depth in E5. destruct (m_taint m'); [by eexists|].
  by destruct (kp_taint0 Ht) as [t Et]; rewrite Et in E5.
Qed.

Lemma kept_on_taint f (m m' : model) : on_taint f m = Ok m' → is_Some (m_taint m) → is_Some (m_taint m').
Proof.
  unfold on_taint. intros H [t Et]. rewrite Et in H. apply bind_Ok in H as (t' & _ & [= <-]). by eexists.
Qed.

Lemma kept_checkpoint u0 next (m m' : model) : checkpoint next m = Ok m' → kept u0 m → kept u0 m'.
Proof.
  intros H [K1 K2 K3 K4 Kt]. pose proof (checkpoint_spec _ _ _ H) as (Eu & El & Ec & _ & _).
  assert (s_tainting_enabled cfg = true → is_Some (m_taint m')) as Kt' by (intros Ht; eapply kept_on_taint; [exact H|by apply Kt]).
  apply (checkpoint_opens (λ _, True)) in H as (_ & Ep & _); [|done]. constructor.
  - by rewrite Eu.
  - rewrite El. intros log e [->|Hl]%elem_of_cons; [by intros ?%elem_of_nil|by apply K2].
  - rewrite Ec. intros e u r [->|He]%elem_of_cons H1 H2; [|by apply K3]. cbn. rewrite restore_regs. by apply K1.
  - by rewrite Ep.
  - done.
Qed.

Lemma kept_log u0 e (m m' : model) :
  log_change e m = Ok m' → harmless u0 e.1 e.2 → kept u0 m → kept u0 m'.
Proof.
  intros H He [K1 K2 K3 K4 Kt]. assert (m_taint m' = m_taint m) as Et.
  { unfold log_change in H. by destruct (m_store_logs m); [|injection H as <-]. }
  apply log_change_same in H as (Ec & _ & _ & Eu & Ep & lg & lgs & E1 & E2).
  constructor; rewrite ?Eu, ?Ec, ?Ep, ?Et; try done. rewrite E2. rewrite E1 in K2.
  intros log x [->|Hl]%elem_of_cons Hx; [|by eapply K2; [right|]].
  apply elem_of_cons in Hx as [->|Hx]; [done|]. by eapply K2; [left|].
Qed.

Lemma kept_uc u0 u (m : model) :
  same_outside u0 u → kept u0 m → kept u0 (set_uc u m).
Proof. intros Hu []. by constructor. Qed.
Lemma kept_no_store u0 (m : model) : kept u0 m → kept u0 (set_previous_store (0, 0, [], 0) m).
Proof. intros []. by constructor. Qed.

Lemma kept_cond u0 a n (m m' : model) :
  cond_speculate_instruction cfg a n m = Ok m' → kept u0 m → kept u0 m'.
Proof.
  intros H K. unfold cond_speculate_instruction in H. destruct (_ <=? _); [by injection H as <-|].
  apply bind_Ok in H as ([[t j] l] & _ & H). destruct (t =? 0); [by injection H as <-|].
  apply bind_Ok in H as (m1 & H1 & [= <-]). cbv zeta in H1.
  assert (kept u0 m1) as K1.
  { eapply kept_checkpoint; [exact H1|]. destruct l; [|done]. apply kept_uc; [|done].
    eapply same_outside_trans; [apply K|]. apply same_outside_reg. right. in_list. }
  apply kept_uc; [|done].
  eapply same_outside_trans; [apply K1|]. apply same_outside_reg. by left.
Qed.

Lemma kept_bpas u0 a (m m' : model) :
  bypasses_stores cfg = true → bpas_speculate_instruction cfg a m = Ok m' → kept u0 m → kept u0 m'.
Proof.
  intros Hbp H K. unfold bpas_speculate_instruction in H. destruct (_ <=? _); [by injection H as <-|].
  pose proof (kp_previous _ _ K Hbp) as Kp. destruct (m_previous_store m) as [[[sa ss] ov] v] eqn:Ep.
  apply bind_Ok in H as (m1 & H1 & [= <-]). apply kept_no_store.
  destruct (Z.eqb_spec sa 0) as [|Hsa]; [by injection H1 as <-|].
  destruct (Kp Hsa) as (Hr & Hov & Hss). apply bind_Ok in H1 as (nv & Hnv & H1).
  apply bind_Ok in H1 as (m2 & H2 & H1). assert (K2 := kept_checkpoint _ _ _ _ H2 K).
  eapply kept_log; [exact H1| |].
  - apply (harmless_inside _ _ _ ss); [|done]. cbn. unfold to_bytes in Hnv.
    repeat case_match; simplify_eq; rewrite length_le_bytes; lia.
  - apply kept_uc; [|done]. apply same_outside_write; [|apply K2]. apply (harmless_inside _ _ _ ss); [lia|done].
Qed.

Lemma kept_speculate_instruction u0 a n (m m' : model) :
  speculate_instruction cfg a n m = Ok m' → kept u0 m → kept u0 m'.
Proof.
  unfold speculate_instruction. destruct (s_execution cfg) eqn:E;
    (assert (Hb : bypasses_stores cfg = match s_execution cfg with Bpas | CondBpas => true | _ => false end) by done; rewrite E in Hb).
  - by intros [= <-].
  - apply kept_cond.
  - by apply kept_bpas.
  - intros [= <-] []. by constructor.
  - intros H K. apply bind_Ok in H as (m1 & H1 & H). eapply kept_bpas; [done|exact H|]. by eapply kept_cond.
Qed.

Lemma kept_speculate_mem u0 st a n v (m m' : model) :
  0 ≤ n → (∀ x, a ≤ x < a + n → resets x = true) →
  speculate_mem_access cfg st a n v m = Ok m' → kept u0 m → kept u0 m'.
Proof.
  intros Hn Hr. assert (∀ m' : model, bpas_speculate_mem_access st a n v m = Ok m' → kept u0 m → kept u0 m') as Hb.
  { unfold bpas_speculate_mem_access. intros m1 H K. destruct st; [|by injection H as <-].
    destruct (mem _ _); injection H as <-; [done|]. destruct K as [K1 K2 K3 K4 Kt].
    constructor; [done..| |done]. cbn. intros _ _. rewrite length_mem_read by done.
    by split_and!. }
  unfold speculate_mem_access. destruct (s_execution cfg); try (by intros [= <-]); try apply Hb.
  unfold null_speculate_mem_access. intros H K. destruct (_ <=? _); [by injection H as <-|].
  destruct st; [by injection H as <-|]. destruct (_ =? _); [by injection H as <-|].
  apply bind_Ok in H as (m1 & H1 & H). apply bind_Ok in H as (m2 & H2 & [= <-]).
  assert (K1 := kept_checkpoint _ _ _ _ H1 K).
  assert (K2 : kept u0 m2) by (eapply kept_log; [exact H2|by apply harmless_read, K1|done]).
  apply kept_uc; [|done]. apply same_outside_write; [|apply K2].
  intros k b Hk Hx. apply lookup_replicate in Hk as [_ Hk]. rewrite Hr in Hx by lia. done.
Qed.

Lemma kept_instruction_hook u0 a n (m m' : model) :
  instruction_hook disasm_one disasm cfg a n m = Ok m' → kept u0 m → kept u0 m'.
Proof.
  intros H K. unfold instruction_hook in H. apply bind_Ok in H as (i & _ & H).
  assert (kept u0 (set_current i m)) as K1 by (destruct K; by constructor).
  revert H K1. generalize (set_current i m). clear m K. intros m H K.
  assert (∀ m1 m2 : model, seq_trace_instruction disasm_one disasm cfg a m1 = Ok m2 → kept u0 m1 → kept u0 m2) as Hseq.
  { intros m1 m2 H1%seq_instruction_core. by apply kept_core. }
  unfold trace_instruction, spec_trace_instruction in H.
  assert (s_execution cfg = Seq ∨ (m ← (if m_in_speculation m then
      name ← from_option AttributeError (i_name <$> m_current_instruction m);
      let m := set_speculation true (m_speculation_window m + 1) (m_checkpoints m) (m_store_logs m) m in
      let m := if mem name ["LFENCE"; "MFENCE"] then emu_stop m else m in
      Ok (if s_max_spec_window cfg <? m_speculation_window m then emu_stop m else m) else Ok m);
    m ← seq_trace_instruction disasm_one disasm cfg a m; speculate_instruction cfg a n m) = Ok m') as [Ex|H1]
    by (destruct (s_execution cfg); by auto).
  { rewrite Ex in H. by eapply Hseq. }
  clear H. apply bind_Ok in H1 as (m1 & H1 & H). apply bind_Ok in H as (m2 & H2 & H).
  eapply kept_speculate_instruction; [exact H|]. eapply Hseq; [exact H2|].
  destruct (m_in_speculation m); [|by injection H1 as <-]. apply bind_Ok in H1 as (nm & _ & [= <-]).
  destruct K. destruct (mem nm _), (s_max_spec_window cfg <? _); by constructor.
Qed.

Lemma kept_trace_mem u0 st a n v (m m' : model) :
  0 ≤ n → (∀ x, a ≤ x < a + n → resets x = true) →
  trace_mem_access disasm_one cfg st a n v m = Ok m' → kept u0 m → kept u0 m'.
Proof.
  intros Hn Hr H K. unfold trace_mem_access in H.
  assert (s_execution cfg = Seq ∨ spec_trace_mem_access disasm_one cfg st a n v m = Ok m') as [Ex|H1]
    by (destruct (s_execution cfg); by auto).
  { rewrite Ex in H. apply seq_mem_core in H. by eapply kept_core. }
  clear H. unfold spec_trace_mem_access in H1. apply bind_Ok in H1 as (m1 & H1 & H).
  apply bind_Ok in H as (m2 & H2%seq_mem_core & H). eapply kept_speculate_mem; [done..|exact H|].
  eapply kept_core; [exact H2|]. destruct (st && _); [|by injection H1 as <-].
  eapply kept_log; [exact H1|by apply harmless_read, K|done].
Qed.

Lemma confined_kept u0 (m m' : model) : confined_run m m' → kept u0 m → kept u0 m'.
Proof.
  induction 1 as [m|u m m' Hu _ IH|p n m m1 m' H _ _ IH|st a n v m m1 m' Hn Hr H _ _ IH]; intros K; [done|..]; apply IH.
  - apply kept_uc; [|done]. eapply same_outside_trans; [apply K|done].
  - by eapply kept_instruction_hook.
  - by eapply kept_trace_mem.
Qed.

Lemma confined_resumes (m m' : model) :
  confined_run m m' → (∀ e, e ∈ m_checkpoints m → resumable e) → ∀ e, e ∈ m_checkpoints m' → resumable e.
Proof.
  induction 1 as [m|u m m' Hu _ IH|p n m m1 m' H Hr _ IH|st a n v m m1 m' Hn Hx H Hr _ IH]; intros K; [done|..];
    apply IH; [done|..]; intros e [He|He]%Hr; auto.
Qed.

Lemma confined_within (m m' : model) : confined_run m m' → speculation_ok m → within cfg m m'.
Proof.
  induction 1 as [m|u m m' Hu _ IH|p n m m1 m' H _ _ IH|st a n v m m1 m' Hn Hr H _ _ IH]; intros Hok.
  - by apply within_eq.
  - by apply IH.
  - apply (instruction_hook_within disasm_one disasm cfg) in H; [|done].
    eapply within_trans; [exact H|]. apply IH, H.
  - apply (trace_mem_access_within disasm_one cfg) in H; [|done].
    eapply within_trans; [exact H|]. apply IH, H.
Qed.

(** A rollback restores registers and bytes that were saved. *)
Lemma undo_harmless u0 log u :
  (∀ e, e ∈ log → harmless u0 e.1 e.2) → same_outside u0 u → same_outside u0 (undo_changes log u).
Proof.
  revert u. induction log as [|e log IH]; intros u He Hu; [done|]. cbn. apply IH.
  - intros e' Hin. apply He. by right.
  - apply same_outside_write; [|done]. apply He. by left.
Qed.

Lemma kept_rollback u0 (m m' : model) next :
  rollback m = Ok (m', next) → kept u0 m → kept u0 m'.
Proof.
  intros H [K1 K2 K3 K4 Kt]. assert (is_Some (m_taint m) → is_Some (m_taint m')) as Kt'.
  { unfold rollback in H. destruct (m_checkpoints m) as [|[[[]]] ?], (m_store_logs m); try done.
    apply bind_Ok in H as (m1 & H & [= <- _]). intros Ht. eapply kept_on_taint; [exact H|done]. }
  apply rollback_spec in H as (st & fl & w & cps & log & logs & E1 & E2 & E3 & E4 & _ & _ & E5 & E6).
  rewrite E1 in K3. rewrite E2 in K2. constructor.
  - rewrite E5. eapply same_outside_trans; [|apply same_outside_reg; right; in_list].
    apply undo_harmless; [intros e He; by eapply K2; [left|]|]. split.
    + intros r H1 H2. by apply (K3 (st, next, fl, w) (m_uc m) r); [left|..].
    + intros x Hx. rewrite restore_mem. by apply K1.
  - rewrite E4. intros lg e Hl. apply K2. by right.
  - rewrite E3. intros e u r He. apply K3. by right.
  - by rewrite E6.
  - auto.
Qed.

Lemma rollback_ok (m m' : model) next :
  rollback m = Ok (m', next) → speculation_ok m → speculation_ok m'.
Proof.
  intros (st & fl & w & cps & log & logs & E1 & E2 & E3 & E4 & _ & Es & _)%rollback_spec [H1 H2].
  unfold speculation_ok. rewrite E3, E4, Es, H1, E1. rewrite E1, E2 in H2. cbn in H2. injection H2 as H2.
  split; [by destruct cps|done].
Qed.

(** ** Two models that are ready for the next input *)

(** What the clauses read of the previous input: a store that may be bypassed, the outputs
    of a protected instruction. *)
Definition settled (m : model) : Prop :=
  (bypasses_stores cfg = true → m_previous_store m = (0, 0, [], 0)) ∧
  (s_observation cfg = Prot → tr_unprot_regs (m_tracer m) = []).

Definition ready (u0 : uc) (m : model) : Prop :=
  same_outside u0 (m_uc m) ∧ m_store_logs m = [] ∧ settled m.

Context (H64 : input_register_region_size (s_regions cfg) = 64%nat).

Lemma reset_uc (m : model) : m_uc (reset_model cfg m) = m_uc m.
Proof. unfold reset_model, reset_trace. by destruct (s_execution cfg), (s_observation cfg). Qed.

Lemma reset_settled (m : model) : settled m → settled (reset_model cfg m).
Proof.
  unfold settled, reset_model, reset_trace. by destruct (s_execution cfg), (s_observation cfg).
Qed.

Lemma load_set_uc input_ (m m' : model) :
  _load_input cfg input_ m = Ok m' → ∃ u, m' = set_uc u m.
Proof. unfold _load_input. intros H. apply bind_Ok in H as (u & _ & [= <-]). by eexists. Qed.

Lemma load_settled input_ (m m' : model) : _load_input cfg input_ m = Ok m' → settled m → settled m'.
Proof. by intros (u & ->)%load_set_uc. Qed.

Lemma length_bytes input_ : input_ok (s_regions cfg) input_ →
  Z.of_nat (length (tobytes input_)) = 8 * Z.of_nat (aligned_size (s_regions cfg)).
Proof. intros [Hl _]. destruct input_ as [ws sd]. cbn in Hl. rewrite length_tobytes, Hl. lia. Qed.

(** Loading changes what it resets only. *)
Lemma load_outside input_ (m m' : model) :
  input_ok (s_regions cfg) input_ → _load_input cfg input_ m = Ok m' → same_outside (m_uc m) (m_uc m').
Proof.
  intros Hok H. pose proof (model_registers cfg input_ m m' Hok H64 H) as (_ & _ & _ & _ & Hm).
  unfold _load_input in H. apply bind_Ok in H as (u & H & [= <-]). split.
  - intros r Hrip Hr. cbn.
    rewrite !reg_write_ne; [|reflexivity || (intros E; rewrite E in Hr; apply Hr; in_list)..].
    apply (for_each_inv (λ x, reg_read x r = reg_read (m_uc m) r)) in H; [done| |by rewrite !write_regs].
    intros [k v] x x' _ Hx H1. unfold write_input_reg in H1. apply bind_Ok in H1 as (q & Hq%from_option_Ok & [= <-]).
    assert (Hin : q ∈ reset_regs) by (apply elem_of_app; left; by eapply list_elem_of_lookup_2).
    rewrite reg_write_ne; [done|by apply reset_full; right|]. intros E. by rewrite E in Hr.
  - intros x Hx. rewrite Hm, !write_byte, !length_replicate. rewrite (length_bytes _ Hok).
    unfold resets in Hx. apply orb_false_iff in Hx as [[Hx1 Hx2]%orb_false_iff Hx3].
    change (Z.of_nat (Z.to_nat OVERFLOW_REGION_SIZE)) with OVERFLOW_REGION_SIZE. by rewrite Hx1, Hx2, Hx3.
Qed.

(** ... and sets it to what the input says. *)
Lemma load_inside input_ (m n m' n' : model) :
  input_ok (s_regions cfg) input_ → _load_input cfg input_ m = Ok m' → _load_input cfg input_ n = Ok n' →
  (∀ r, base_of r ∈ reset_regs → reg_read (m_uc m') r = reg_read (m_uc n') r) ∧
  (∀ x, resets x = true → mem_byte (m_uc m') x = mem_byte (m_uc n') x).
Proof.
  intros Hok Hm Hn. destruct (model_registers cfg input_ m m' Hok H64 Hm) as (Mr & Msp & Mbp & M14 & Mm).
  destruct (model_registers cfg input_ n n' Hok H64 Hn) as (Nr & Nsp & Nbp & N14 & Nm). split.
  - enough (∀ r, r ∈ reset_regs → reg_read (m_uc m') r = reg_read (m_uc n') r) as Hfull.
    { intros r Hr. by rewrite (reg_view (m_uc m')), (reg_view (m_uc n')), Hfull. }
    intros r [Hr|Hr]%elem_of_app.
    + change input_regs with input_registers in Hr. apply list_elem_of_lookup in Hr as [i Hi].
      destruct (get_registers_seven _ input_ Hok H64) as (a & b & c & d & si & di & fl & E & _).
      destruct (lookup_lt_is_Some_2 (get_registers (s_regions cfg) input_) i) as [v Hv].
      { rewrite E. by apply lookup_lt_Some in Hi. }
      by rewrite (Mr i r v Hi Hv), (Nr i r v Hi Hv).
    + repeat (apply elem_of_cons in Hr as [->|Hr]; [congruence|]). by apply elem_of_nil in Hr.
  - intros x Hx. rewrite Mm, Nm, !write_byte, !length_replicate. rewrite (length_bytes _ Hok).
    unfold resets in Hx. change (Z.of_nat (Z.to_nat OVERFLOW_REGION_SIZE)) with OVERFLOW_REGION_SIZE.
    destruct ((s_sandbox_base cfg <=? x) && _); [done|].
    destruct ((upper_overflow_base cfg <=? x) && _); [done|].
    destruct ((lower_overflow_base cfg <=? x) && _); [done|]. done.
Qed.

Lemma loaded_uc_alike u0 input_ (m n m' n' : model) begin :
  input_ok (s_regions cfg) input_ → same_outside u0 (m_uc m) → same_outside u0 (m_uc n) →
  _load_input cfg input_ m = Ok m' → _load_input cfg input_ n = Ok n' →
  uc_alike (reg_write (m_uc m') "RIP" begin) (reg_write (m_uc n') "RIP" begin) ∧
  (∀ r, base_of r ≠ "RIP" → reg_read (m_uc m') r = reg_read (m_uc n') r).
Proof.
  intros Hok Hm Hn Lm Ln. destruct (load_inside _ _ _ _ _ Hok Lm Ln) as [Hr Hx].
  destruct (same_outside_trans _ _ _ Hm (load_outside _ _ _ Hok Lm)) as [Om1 Om2].
  destruct (same_outside_trans _ _ _ Hn (load_outside _ _ _ Hok Ln)) as [On1 On2].
  assert (∀ r, base_of r ≠ "RIP" → reg_read (m_uc m') r = reg_read (m_uc n') r) as Hregs.
  { intros r Hrip. destruct (decide (base_of r ∈ reset_regs)) as [Hin|Hin]; [by apply Hr|]. by rewrite Om1, On1. }
  split; [|done]. split.
  - intros r. rewrite !reg_write_read by done. destruct (decide (base_of r = "RIP")) as [|Hrip]; [done|].
    by apply Hregs.
  - intros x. rewrite !reg_write_mem. destruct (resets x) eqn:E; [by apply Hx|]. by rewrite Om2, On2.
Qed.

Lemma reset_trace_set (m : model) : reset_trace cfg m = set_tracer (m_tracer (reset_trace cfg m)) m.
Proof. unfold reset_trace. by destruct (s_observation cfg). Qed.

(** Resetting the tracer of models with the same registers. *)
Lemma reset_trace_alike (m n : model) :
  (∀ r, base_of r ≠ "RIP" → reg_read (m_uc m) r = reg_read (m_uc n) r) →
  let t := m_tracer (reset_trace cfg m) in let t' := m_tracer (reset_trace cfg n) in
  tr_trace t = tr_trace t' ∧ tr_execution_trace t = [] ∧ tr_execution_trace t' = [] ∧
  tr_unprot_regs t = tr_unprot_regs (m_tracer m) ∧ tr_unprot_regs t' = tr_unprot_regs (m_tracer n) ∧
  (s_observation cfg = CTS → tr_analyzed t = tr_analyzed t' ∧ tr_analysis t = tr_analysis t').
Proof.
  intros Hr. assert (reg_read (m_uc m) <$> input_regs = reg_read (m_uc n) <$> input_regs) as Hregs.
  { apply list_fmap_ext. intros i r Hi%list_elem_of_lookup_2. apply Hr. revert r Hi. apply Forall_forall.
    repeat (constructor; [other_register|]). constructor. }
  assert (reg_read (m_uc m) "RBP" = reg_read (m_uc n) "RBP") as Hbp by (apply Hr; other_register).
  assert (reg_read (m_uc m) "RSP" = reg_read (m_uc n) "RSP") as Hsp by (apply Hr; other_register).
  unfold reset_trace. destruct (s_observation cfg); cbn [m_tracer set_tracer tr_trace tr_execution_trace
    tr_unprot_regs tr_analyzed tr_analysis]; rewrite ?Hregs, ?Hbp, ?Hsp; done.
Qed.

(** Loaded and reset, two ready models look alike from the start of the code on. *)
Lemma ready_alike u0 input_ (m n m' n' : model) begin :
  input_ok (s_regions cfg) input_ → ready u0 m → ready u0 n →
  _load_input cfg input_ (reset_model cfg m) = Ok m' → _load_input cfg input_ (reset_model cfg n) = Ok n' →
  alike cfg nothing (start_at begin (reset_model cfg m')) (start_at begin (reset_model cfg n')).
Proof.
  intros Hok (Um & Lm & Sm) (Un & Ln & Sn) Hm Hn.
  destruct (loaded_uc_alike u0 input_ (reset_model cfg m) (reset_model cfg n) m' n' begin Hok) as [Hu Hr];
    [by rewrite reset_uc|by rewrite reset_uc|done|done|].
  apply load_settled in Hm as Hsm; [|by apply reset_settled]. apply load_settled in Hn as Hsn; [|by apply reset_settled].
  apply load_input_logs in Hm as Hlm. apply load_input_logs in Hn as Hln. rewrite reset_logs in Hlm, Hln.
  destruct Hsm as [Pm Qm], Hsn as [Pn Qn].
  destruct (reset_trace_alike (set_speculation false 0 [] (m_store_logs m') m')
    (set_speculation false 0 [] (m_store_logs n') n') Hr) as (T1 & T2 & T3 & T4 & T5 & T6).
  assert (m_store_logs m' = m_store_logs n') as Hlogs by congruence.
  cbn [m_tracer set_speculation] in T4, T5. unfold reset_model. cbv zeta. rewrite Hlogs in *.
  set (x := set_speculation _ _ _ _ m') in *. set (x' := set_speculation _ _ _ _ n') in *.
  rewrite (reset_trace_set x), (reset_trace_set x').
  generalize dependent (m_tracer (reset_trace cfg x)). generalize dependent (m_tracer (reset_trace cfg x')).
  intros t' T3 T5 t T1 T2 T4 T6.
  destruct (s_execution cfg) eqn:Ex; constructor; cbn; try done; try congruence;
    try (by intros []%T6); try (intros Hb; by rewrite Pm, Pn); intros Ho; by rewrite T4, T5, Qm, Qn.
Qed.

(** ** One input *)

Context `{!Emulator emu}.

Definition known_after (b : bool) : known := if b then everything else nothing.

Lemma emu_alike b begin (m m' : model) :
  alike cfg (known_after b) (start_at begin m) (start_at begin m') →
  (emu_start begin m).2 = (emu_start begin m').2 ∧
  ∃ b', alike cfg (known_after b') (emu_start begin m).1 (emu_start begin m').1.
Proof.
  apply (emu_relates _ _ (λ b, alike cfg (known_after b))).
  - intros b' x x' H. split; apply H.
  - intros b' x x' u u'. apply alike_set_uc.
  - intros b' p n x x'. apply alike_instruction_hook.
  - intros st a n v x x'. apply alike_trace_mem.
Qed.

Lemma alike_start_at K begin (m m' : model) :
  alike cfg K m m' → alike cfg K (start_at begin m) (start_at begin m').
Proof.
  intros H. pose proof (reg_write_proper _ _ (al_uc _ _ _ _ H) "RIP" _ eq_refl begin _ eq_refl) as Hu.
  destruct H; by constructor.
Qed.

Lemma alike_rollback_all fuel b (m m' : model) :
  alike cfg (known_after b) m m' →
  result_rel (λ m m', ∃ b, alike cfg (known_after b) m m') (rollback_all emu_start fuel m) (rollback_all emu_start fuel m').
Proof.
  revert b m m'. induction fuel as [|fuel IH]; intros b m m' H; cbn [rollback_all];
    rewrite <- (al_spec _ _ _ _ H).
  { destruct (negb _); constructor. by exists b. }
  destruct (negb _); [constructor; by exists b|].
  eapply rel_bind; [by apply alike_rollback|]. intros [m1 nx] [m1' nx'] [H1 E]. cbn in H1, E. subst nx'.
  destruct (emu_alike b nx m1 m1') as (_ & b' & H2); [by apply alike_start_at|]. by eapply IH.
Qed.

Lemma alike_results K (m m' : model) :
  alike cfg K m m' → get_contract_trace cfg xxh32 m = get_contract_trace cfg xxh32 m' ∧
  model_taint cfg m = model_taint cfg m' ∧ tr_execution_trace (m_tracer m) = tr_execution_trace (m_tracer m').
Proof.
  intros H. unfold get_contract_trace, model_taint. by rewrite (al_trace _ _ _ _ H), (al_taint _ _ _ _ H), (al_exec _ _ _ _ H).
Qed.

(** On ready models, an input has one result, or raises one exception. *)
Lemma execute_input_alike u0 fuel input_ (m n : model) :
  input_ok (s_regions cfg) input_ → ready u0 m → ready u0 n →
  result_rel (λ p q, p.2 = q.2) (execute_input cfg emu_start xxh32 fuel input_ m)
    (execute_input cfg emu_start xxh32 fuel input_ n).
Proof.
  intros Hok Hm Hn. unfold execute_input. cbv zeta.
  destruct (load_input_Ok cfg input_ (reset_model cfg m) Hok H64) as (m1 & Em).
  destruct (load_input_Ok cfg input_ (reset_model cfg n) Hok H64) as (n1 & En).
  rewrite Em, En. cbn [mbind result_bind].
  destruct (emu_alike false (s_code_start cfg) (reset_model cfg m1) (reset_model cfg n1)) as (Ee & b & H).
  { eapply ready_alike; [exact Hok|exact Hm|exact Hn|exact Em|exact En]. }
  destruct (emu_start _ (reset_model cfg m1)) as [m2 e], (emu_start _ (reset_model cfg n1)) as [n2 e'].
  cbn in Ee, H. subst e'. rewrite <- (al_spec _ _ _ _ H). eapply rel_bind_same; [done|]. intros _.
  eapply rel_bind; [by apply (alike_rollback_all _ b)|]. intros m3 n3 (b' & H3).
  destruct (alike_results _ _ _ H3) as (E1 & E2 & E3). rewrite E1, E2, E3.
  eapply rel_bind_same; [done|]. intros ct. eapply rel_bind_same; [done|]. intros t. by constructor.
Qed.

(** ** After an input *)

Context (u0 : uc).
Definition sound (m : model) : Prop :=
  kept u0 m ∧ speculation_ok m ∧ ∀ e, e ∈ m_checkpoints m → resumable e.

(** The test case stays in the registers and the memory that loading an input sets. *)
Context (safe_ext : ∀ pc f g, (∀ r, f r = g r) → safe pc f → safe pc g).
Context (Hconfined : ∀ begin m, sound m → safe begin (reg_read (m_uc m)) →
  confined_run (start_at begin m) (emu_start begin m).1).
Context (safe_loaded : ∀ u, same_outside u0 u → reg_read u "RSP" = wrap64 (stack_base cfg) →
  reg_read u "RBP" = wrap64 (stack_base cfg) → reg_read u "R14" = wrap64 (s_sandbox_base cfg) →
  safe (s_code_start cfg) (reg_read u)).

Lemma emu_sound begin (m : model) :
  sound m → safe begin (reg_read (m_uc m)) → sound (emu_start begin m).1.
Proof.
  intros Hsound Hsafe. pose proof (Hconfined begin m Hsound Hsafe) as Hrun.
  destruct Hsound as (K & Hok & Hr). split_and!.
  - eapply confined_kept; [exact Hrun|]. destruct K as [K1 K2 K3 K4 Kt]. constructor; [|done..].
    eapply same_outside_trans; [exact K1|]. apply same_outside_reg. by left.
  - apply (confined_within _ _ Hrun), Hok.
  - eapply confined_resumes; [exact Hrun|done].
Qed.

Lemma rollback_sound (m m1 : model) nx :
  rollback m = Ok (m1, nx) → sound m → sound m1 ∧ safe nx (reg_read (m_uc m1)).
Proof.
  intros H (K & Hok & Hr). split; [split_and!; [by eapply kept_rollback|by eapply rollback_ok|]|];
    apply rollback_spec in H as (st & fl & w & cps & log & logs & E1 & _ & E3 & _ & _ & _ & E5 & _).
  - intros e He. apply Hr. rewrite E1. right. by rewrite <- E3.
  - rewrite E5. assert (Hres : resumable (st, nx, fl, w)) by (apply Hr; rewrite E1; by left).
    eapply safe_ext; [|exact (Hres (m_uc m))]. apply reg_write_cong. intros q. by rewrite undo_regs.
Qed.

Lemma rollback_all_sound fuel (m m' : model) :
  rollback_all emu_start fuel m = Ok m' → sound m → sound m' ∧ m_in_speculation m' = false.
Proof.
  revert m. induction fuel as [|fuel IH]; intros m; cbn [rollback_all];
    destruct (m_in_speculation m) eqn:E; cbn [negb]; try done; try (by intros [= <-]).
  intros H Hs. apply bind_Ok in H as ([m1 nx] & H1 & H). destruct (rollback_sound _ _ _ H1 Hs) as [Hs1 Hnx].
  by apply (IH _ H), emu_sound.
Qed.

Lemma reset_sound (m : model) :
  same_outside u0 (m_uc m) → m_store_logs m = [] → settled m →
  sound (reset_model cfg m).
Proof.
  intros Hu Hl [Hp _].
  assert (m_checkpoints (reset_model cfg m) = []) as Ec.
  { unfold reset_model, reset_trace. by destruct (s_execution cfg), (s_observation cfg). } split_and!;
    [|by apply reset_balanced|rewrite Ec; by intros e ?%elem_of_nil]. constructor.
  - by rewrite reset_uc.
  - rewrite reset_logs, Hl. by intros log e ?%elem_of_nil.
  - rewrite Ec. by intros e u r ?%elem_of_nil.
  - intros Hb. unfold reset_model, reset_trace.
    assert (∀ x : model, m_previous_store x = m_previous_store m → let '(sa, ss, old, _) := m_previous_store x in
      sa ≠ 0 → (∀ x, sa ≤ x < sa + ss → resets x = true) ∧ (length old ≤ Z.to_nat ss)%nat ∧ 0 ≤ ss) as Hx.
    { intros x ->. by rewrite (Hp Hb). }
    apply Hx. by destruct (s_execution cfg), (s_observation cfg).
  - intros Ht. unfold reset_model. rewrite Ht. destruct (s_execution cfg); by eexists.
Qed.

(** The model is ready again, up to what its clause left; a tracker has computed the taint. *)
Lemma execute_input_after fuel input_ (m m' : model) t et taint :
  input_ok (s_regions cfg) input_ → ready u0 m →
  execute_input cfg emu_start xxh32 fuel input_ m = Ok (m', (t, et, taint)) →
  (settled m' → ready u0 m') ∧
  (s_tainting_enabled cfg = true → ∃ v, taint = Some v ∧ length v = taint_size (s_regions cfg)).
Proof.
  intros Hok (Hu & Hl & Hs) H. unfold execute_input in H. cbv zeta in H. apply bind_Ok in H as (m1 & Hload & H).
  assert (same_outside u0 (m_uc m1)) as Hu1.
  { eapply same_outside_trans; [|eapply load_outside; [exact Hok|exact Hload]]. by rewrite reset_uc. }
  assert (safe (s_code_start cfg) (reg_read (m_uc (reset_model cfg m1)))) as Hsafe.
  { rewrite reset_uc. destruct (model_registers cfg input_ _ m1 Hok H64 Hload) as (_ & ? & ? & ? & _).
    by apply safe_loaded. }
  assert (sound (reset_model cfg m1)) as Hs1.
  { apply reset_sound; [done|..].
    - apply load_input_logs in Hload. by rewrite Hload, reset_logs.
    - eapply load_settled; [exact Hload|]. by apply reset_settled. }
  pose proof (emu_sound (s_code_start cfg) _ Hs1 Hsafe) as Hs2. destruct (emu_start _ (reset_model cfg m1)) as [m2 e].
  apply bind_Ok in H as (? & _ & H). apply bind_Ok in H as (m3 & H3 & H).
  apply bind_Ok in H as (ct & _ & H). apply bind_Ok in H as (v & Hv & [= <- _ _ <-]).
  destruct (rollback_all_sound _ _ _ H3 Hs2) as [(K & [H1 H2] & _) Hns]. split.
  - intros Hs'. split; [apply K|]. split; [|done].
    rewrite Hns in H1. symmetry in H1. apply negb_false_iff, bool_decide_eq_true in H1.
    rewrite H1 in H2. by destruct (m_store_logs m3).
  - intros Ht. destruct (kp_taint _ _ K Ht) as [tr Etr]. unfold model_taint in Hv. rewrite Etr in Hv.
    apply bind_Ok in Hv as (v' & Hv & [= <-]). exists v'. split; [done|]. unfold get_taint, taint_vector in Hv.
    apply bind_Ok in Hv as (? & _ & [= <-]). by rewrite length_fmap, length_seq.
Qed.

(** ** The batch *)

Context (fuel : nat) (Hsettles : ∀ input_ m m' r, input_ok (s_regions cfg) input_ → ready u0 m →
  execute_input cfg emu_start xxh32 fuel input_ m = Ok (m', r) → settled m').

Lemma execute_input_ready input_ (m m' : model) r :
  input_ok (s_regions cfg) input_ → ready u0 m →
  execute_input cfg emu_start xxh32 fuel input_ m = Ok (m', r) → ready u0 m'.
Proof.
  destruct r as [[t et] taint]. intros Hok Hm H. apply (execute_input_after _ _ _ _ _ _ _ Hok Hm H).
  by eapply Hsettles.
Qed.

Abbreviation run_batch := (for_each (λ input_ (st : model * list (Z * ExecutionTrace * option (list bool))),
  '(m, r) ← execute_input cfg emu_start xxh32 fuel input_ st.1; Ok (m, st.2 ++ [r]))).

Lemma batch_results inputs m0 st :
  Forall (input_ok (s_regions cfg)) inputs → ready u0 m0 → ready u0 st.1 →
  snd <$> run_batch inputs st =
  app st.2 <$> mapM (λ input_, snd <$> execute_input cfg emu_start xxh32 fuel input_ m0) inputs.
Proof.
  intros Hin Hm0 Hst. revert st Hst. induction Hin as [|i inputs Hi _ IH]; intros [m rs] Hst.
  { cbn. by rewrite app_nil_r. }
  cbn in Hst. cbn [for_each mapM fst snd].
  pose proof (execute_input_alike u0 fuel i m m0 Hi Hst Hm0) as Hr.
  destruct (execute_input cfg emu_start xxh32 fuel i m) as [[m1 r]|e] eqn:E1; inversion Hr as [? [n1 r'] E|]; subst.
  - cbn in E. subst r'. cbn [mbind result_bind fmap result_fmap]. rewrite IH.
    + cbn. destruct (mapM _ inputs); cbn; [by rewrite <- app_assoc|done].
    + cbn. by eapply execute_input_ready.
  - done.
Qed.

Lemma batch_ready inputs st st' :
  Forall (input_ok (s_regions cfg)) inputs → ready u0 st.1 → run_batch inputs st = Ok st' → ready u0 st'.1.
Proof.
  intros Hin. rewrite Forall_forall in Hin.
  apply (for_each_inv (λ st, ready u0 st.1)). intros i s1 s2 Hi Hs H.
  apply bind_Ok in H as ([m r] & H & [= <-]). eapply execute_input_ready; [by apply Hin|exact Hs|exact H].
Qed.
End purity.

(** C3: Contract traces belong to inputs.  Take an emulator that is determined by its
    registers and memory, and say from which addresses and with which registers the test
    case is [safe]: with a stack and a sandbox base as [_load_input] sets them it is so at
    its start, and from any such point it changes only registers that inputs set, with
    their parts, and the program counter, only accesses the memory that inputs set, and is
    safe wherever a clause takes a checkpoint, as code whose accesses are masked is.  If
    every input leaves no store to bypass and no outputs of a protected instruction behind,
    running a batch of inputs one after the other gives each input the contract trace,
    execution trace and taint (or raises the exception) it gives when it is the only input:
    order, number and content of the other inputs do not matter. *)
Theorem traces_belong_to_inputs {uc ctx} `{!Uc uc ctx, !UcLaws uc ctx} disasm_one disasm cfg
    emu xxh32 (safe : Z → (string → Z) → Prop) fuel inputs (m0 : @Model.model uc ctx) :
  Emulator emu →
  let start := emu_start disasm_one disasm cfg emu in
  (∀ pc f g, (∀ r, f r = g r) → safe pc f → safe pc g) →
  (∀ begin m, sound cfg safe (m_uc m0) m → safe begin (reg_read (m_uc m)) →
     confined_run disasm_one disasm cfg safe (start_at begin m) (start begin m).1) →
  (∀ u, same_outside cfg (m_uc m0) u → reg_read u "RSP" = wrap64 (stack_base cfg) →
     reg_read u "RBP" = wrap64 (stack_base cfg) → reg_read u "R14" = wrap64 (s_sandbox_base cfg) →
     safe (s_code_start cfg) (reg_read u)) →
  (∀ input m m' r, input_ok (s_regions cfg) input → ready cfg (m_uc m0) m →
     execute_input cfg start xxh32 fuel input m = Ok (m', r) → settled cfg m') →
  input_register_region_size (s_regions cfg) = 64%nat →
  Forall (input_ok (s_regions cfg)) inputs → m_store_logs m0 = [] → settled cfg m0 →
  snd <$> _execute_test_case cfg start xxh32 fuel inputs m0 =
  mapM (λ input, snd <$> execute_input cfg start xxh32 fuel input m0) inputs.
Proof.
  intros Hemu start Hext Hconf Hload Hset H64 Hin Hl Hs.
  assert (ready cfg (m_uc m0) m0) as Hr by (split; [apply same_outside_refl|done]).
  unfold _execute_test_case, start. rewrite (batch_results disasm_one disasm cfg emu xxh32 safe H64 (m_uc m0)
    Hext Hconf Hload fuel Hset inputs m0 (m0, []) Hin Hr Hr). cbn.
  by destruct (mapM _ inputs).
Qed.

(** ** A concrete emulator

    One-byte instructions: no operation, a mask of RBX to the first 64 bytes of the
    sandbox, a store and a load of AL that mask the address themselves, and a store of AL
    at the sandbox base plus RBX as it is. *)
Module PurityDemo.
Definition base : Z := 0x10000.
Definition ops : list Z := [0x90; 0x20; 0x88; 0x8A; 0x89].

Section run.
Abbreviation model := (@Model.model toy_uc (gmap string Z)).
Context (code : Z → Z → model → result model) (access : bool → Z → Z → Z → model → result model).

Definition next_pc (pc : Z) (m : model) : model := set_uc (reg_write (m_uc m) "RIP" (pc + 1)) m.
Definition offset (u : toy_uc) : Z := Z.land (reg_read u "RBX") 63.
Definition operand (op : Z) (u : toy_uc) : Z := base + if op =? 0x89 then reg_read u "RBX" else offset u.
Definition mask (u : toy_uc) : toy_uc := reg_write u "RBX" (offset u).
Definition is_store (op : Z) : bool := negb (op =? 0x8A).
(** What the machine does with the operand: the load extends the byte to RAX. *)
Definition move (op a : Z) (u : toy_uc) : toy_uc :=
  if is_store op then mem_write u a [reg_read u "AL"] else reg_write u "RAX" (mem_byte u a).

(** The fuel is the time-out of [emu_start]. *)
Fixpoint run (fuel : nat) (m : model) : model * bool :=
  match fuel with
  | O => (m, false)
  | S fuel =>
      let pc := reg_read (m_uc m) "RIP" in
      let op := mem_byte (m_uc m) pc in
      if m_stopped m || negb (mem op ops) then (m, false)
      else match code pc 1 m with
      | Raise _ => (m, true)
      | Ok m =>
          if op =? 0x90 then run fuel (next_pc pc m)
          else if op =? 0x20 then run fuel (next_pc pc (set_uc (mask (m_uc m)) m))
          else match access (is_store op) (operand op (m_uc m)) 1 (reg_read (m_uc m) "AL") m with
          | Raise _ => (m, true)
          | Ok m => run fuel (next_pc pc (set_uc (move op (operand op (m_uc m)) (m_uc m)) m))
          end
      end
  end.
End run.

Definition emu code access (begin : Z) (m : @Model.model toy_uc (gmap string Z)) :=
  run code access 8 (start_at begin m).

#[export] Instance offset_proper : Proper (uc_alike ==> (=)) offset.
Proof. intros u u' H. unfold offset. f_equal. apply H. Qed.
#[export] Instance operand_proper : Proper ((=) ==> uc_alike ==> (=)) operand.
Proof. intros op ? <- u u' H. unfold operand. destruct (op =? 0x89); f_equal; [apply H|by apply offset_proper]. Qed.
#[export] Instance mask_proper : Proper (uc_alike ==> uc_alike) mask.
Proof. intros u u' H. unfold mask. by rewrite H. Qed.
#[export] Instance move_proper : Proper ((=) ==> (=) ==> uc_alike ==> uc_alike) move.
Proof. intros op ? <- a ? <- u u' H. unfold move. destruct (is_store op); by rewrite H. Qed.

#[export] Instance emu_Emulator : Emulator emu.
Proof.
  intros code access R b begin m m' Hview Hset Hcode Haccess H. unfold emu.
  revert H. generalize (start_at begin m) (start_at begin m'). clear m m' begin. generalize 8%nat.
  intros fuel. revert b. induction fuel as [|fuel IH]; intros b m m' H; cbn [run]; [by split; [|exists b]|].
  destruct (Hview _ _ _ H) as [Hu Hs]. rewrite Hs. cbv zeta.
  assert (reg_read (m_uc m) "RIP" = reg_read (m_uc m') "RIP") as -> by apply Hu.
  generalize (reg_read (m_uc m') "RIP"). intros pc.
  assert (mem_byte (m_uc m) pc = mem_byte (m_uc m') pc) as -> by apply Hu.
  generalize (mem_byte (m_uc m') pc). intros op.
  destruct (m_stopped m' || _); [by split; [|exists b]|].
  destruct (Hcode b pc 1 m m' H) as [m1 m1' H1|e]; [|by split; [|exists b]].
  destruct (Hview _ _ _ H1) as [Hu1 _].
  assert (Hnext : ∀ u u' x x', R true x x' → uc_alike u u' →
    R true (next_pc pc (set_uc u x)) (next_pc pc (set_uc u' x'))).
  { intros u u' x x' Hx Huu. unfold next_pc. cbn [m_uc set_uc].
    apply (Hset true (set_uc u x) (set_uc u' x')); [by apply Hset|by rewrite Huu]. }
  destruct (op =? 0x90).
  { apply (IH true). apply Hset; [done|]. by rewrite Hu1. }
  destruct (op =? 0x20).
  { apply (IH true). apply Hnext; [done|by rewrite Hu1]. }
  assert (operand op (m_uc m1) = operand op (m_uc m1')) as -> by (by rewrite Hu1).
  assert (reg_read (m_uc m1) "AL" = reg_read (m_uc m1') "AL") as -> by apply Hu1.
  destruct (Haccess (is_store op) (operand op (m_uc m1')) 1 (reg_read (m_uc m1') "AL") m1 m1' H1) as [m2 m2' H2|e];
    [|by split; [|exists true]].
  destruct (Hview _ _ _ H2) as [Hu2 _]. apply (IH true).
  assert (operand op (m_uc m2) = operand op (m_uc m2')) as -> by (by rewrite Hu2).
  apply Hnext; [done|by rewrite Hu2].
Qed.

Definition instructions (n : nat) : gmap Z Instruction :=
  list_to_map ((λ k : nat, (Z.of_nat k, new_Instruction "MOV" false "BASE-DATAXFER" false)) <$> seq 0 n).
Definition cfg (e : execution_clause) (program : list Z) : settings :=
  mkSettings CT e 2 250 base 0x100 (mkRegions 64 64 64) (instructions (length program)) false true.
Definition no_page : list Z → Z → list cs_insn := λ _ _, [].
Definition hash (s : string) : Z := Z.of_nat (String.length s).

(** The program in memory; R14 and the other registers hold nothing yet. *)
Definition loaded (program : list Z) : toy_uc := mem_write (mkToy ∅ ∅) 0x100 program.
Definition start (program : list Z) : @Model.model toy_uc (gmap string Z) :=
  mkModel (loaded program) (mkTracerState [] [] 0 [] 0 false clear_analysis) None None
    false 0 [] [] (0, 0, [], 0) 0 0 false.
Definition word_input (v : Z) : Input := mkInput (replicate (aligned_size (mkRegions 64 64 64)) v) 1.

Lemma word_input_ok v : 0 ≤ v < 2 ^ 64 → input_ok (mkRegions 64 64 64) (word_input v).
Proof. intros Hv. split; [vm_compute; reflexivity|by apply Forall_replicate]. Qed.

(** *** The programs that stay in the sandbox *)

(** A store that does not mask its address has the mask in front of it. *)
Definition masked (program : list Z) : bool :=
  forallb (λ k, negb (bool_decide (program !! k = Some 0x89)) || mem 0x20 (take k program)) (seq 0 (length program)).
(** At an address of the program, behind the mask with RBX below 64. *)
Definition safe (program : list Z) (pc : Z) (f : string → Z) : Prop :=
  0x100 ≤ pc ≤ 0x100 + Z.of_nat (length program) ∧
  (0x20 ∈ take (Z.to_nat (pc - 0x100)) program → 0 ≤ f "RBX" < 64).

Lemma offset_range u : 0 ≤ offset u < 64.
Proof. unfold offset. pose proof (land_ones_bound (reg_read u "RBX") 6). change (Z.ones 6) with 63 in *. lia. Qed.

Lemma inside_sandbox c a x : s_sandbox_base c = base → 0 ≤ a < 64 → base + a ≤ x < base + a + 1 → resets c x = true.
Proof.
  intros Hc Ha Hx. unfold resets. apply orb_true_iff. left. apply orb_true_iff. left. unfold base in *.
  apply andb_true_iff. rewrite Z.leb_le, Z.ltb_lt. unfold lower_overflow_base, OVERFLOW_REGION_SIZE.
  rewrite Hc. lia.
Qed.

(** Clauses without speculation, and zero injection: what their hooks do to the machine. *)
Section hooks.
Context (c : settings) (Hc : s_execution c = Seq ∨ s_execution c = Null).
Abbreviation model := (@Model.model toy_uc (gmap string Z)).

Lemma code_hook_keeps p n (m m' : model) :
  instruction_hook HookFacts.Demo.no_insn no_page c p n m = Ok m' →
  m_uc m' = m_uc m ∧ m_checkpoints m' = m_checkpoints m ∧ (s_execution c = Null → m_instruction_address m' = p).
Proof.
  unfold instruction_hook, trace_instruction, spec_trace_instruction, speculate_instruction. intros H.
  apply bind_Ok in H as (i & _ & H).
  destruct Hc as [E|E]; rewrite E in H.
  { apply seq_instruction_core, core_stacks in H as (-> & _ & ->). by rewrite E. }
  apply bind_Ok in H as (m1 & H1 & H). apply bind_Ok in H as (m2 & H2 & [= <-]).
  apply seq_instruction_core, core_stacks in H2 as (Eu & _ & Ec). cbn [m_uc m_checkpoints m_instruction_address set_instruction_address]. rewrite Eu, Ec.
  assert (m_uc m1 = m_uc m ∧ m_checkpoints m1 = m_checkpoints m) as [-> ->]; [|done].
  destruct (m_in_speculation _); [|by injection H1 as <-]. apply bind_Ok in H1 as (nm & _ & [= <-]).
  by destruct (mem nm _), (_ <? _).
Qed.

Lemma access_keeps st a v (m m' : model) :
  trace_mem_access HookFacts.Demo.no_insn c st a 1 v m = Ok m' →
  (m_uc m' = m_uc m ∨ m_uc m' = mem_write (m_uc m) a [0]) ∧
  ∀ e, e ∈ m_checkpoints m' → e ∈ m_checkpoints m ∨
    s_execution c = Null ∧ e.1.1.1 = context_save (m_uc m) ∧ e.1.1.2 = m_instruction_address m
    ∧ e.1.2 = reg_read (m_uc m) "EFLAGS".
Proof.
  unfold trace_mem_access, spec_trace_mem_access, speculate_mem_access. intros H.
  destruct Hc as [E|E]; rewrite E in H.
  { apply seq_mem_core, core_stacks in H as (-> & _ & ->). auto. }
  apply bind_Ok in H as (m1 & H1 & H). apply bind_Ok in H as (m2 & H2 & H).
  assert (m_uc m1 = m_uc m ∧ m_checkpoints m1 = m_checkpoints m ∧ m_instruction_address m1 = m_instruction_address m)
    as (Eu1 & Ec1 & Ea1).
  { destruct (st && _); [|by injection H1 as <-]. unfold log_change in H1. by destruct (m_store_logs m); [|injection H1 as <-]. }
  apply seq_mem_core in H2. pose proof (core_stacks _ _ H2) as (Eu2 & _ & Ec2).
  assert (m_instruction_address m2 = m_instruction_address m1) as Ea2 by (revert H2; unfold core; congruence).
  unfold null_speculate_mem_access in H.
  destruct (_ <=? _); [injection H as <-; rewrite Eu2, Eu1, Ec2, Ec1; auto|].
  destruct st; [injection H as <-; rewrite Eu2, Eu1, Ec2, Ec1; auto|].
  destruct (_ =? _); [injection H as <-; rewrite Eu2, Eu1, Ec2, Ec1; auto|].
  apply bind_Ok in H as (m3 & H3 & H). apply bind_Ok in H as (m4 & H4 & [= <-]).
  apply checkpoint_spec in H3 as (Eu3 & _ & Ec3 & _ & _). apply log_change_same in H4 as (Ec4 & _ & _ & Eu4 & _).
  cbn [m_uc set_uc m_checkpoints]. rewrite Eu4, Eu3, Eu2, Eu1, Ec4, Ec3, Ec2, Ec1. split; [by right|].
  intros e [->|He]%elem_of_cons; [|by left]. right. cbn. by rewrite Eu2, Eu1, Ea2, Ea1.
Qed.
End hooks.

(** *** Such a program stays inside *)

Section confined.
Context (program : list Z) (c : settings).
Context (Hbase : s_sandbox_base c = base) (Hexec : s_execution c = Seq ∨ s_execution c = Null).
Context (Hmasked : masked program = true) (Hshort : Z.of_nat (length program) < 0x1000).
Context (Hsize : s_regions c = mkRegions 64 64 64).
Abbreviation model := (@Model.model toy_uc (gmap string Z)).
Abbreviation confined := (confined_run HookFacts.Demo.no_insn no_page c (safe program)).

Lemma masked_at k : program !! k = Some 0x89 → 0x20 ∈ take k program.
Proof.
  intros Hk. unfold masked in Hmasked. rewrite forallb_forall in Hmasked.
  specialize (Hmasked k). rewrite bool_decide_true in Hmasked by done.
  apply mem_spec, Hmasked, in_seq. apply lookup_lt_Some in Hk. lia.
Qed.

(** The code is outside the memory that inputs set. *)
Lemma code_byte u k : same_outside c (loaded program) u → (k ≤ length program)%nat →
  mem_byte u (0x100 + Z.of_nat k) = default 0 (program !! k).
Proof.
  intros [_ H] Hk. rewrite H.
  - unfold loaded. rewrite write_byte. destruct (Z.leb_spec 0x100 (0x100 + Z.of_nat k)); [|lia]. cbn [andb].
    replace (0x100 + Z.of_nat k - 0x100) with (Z.of_nat k) by lia. rewrite Nat2Z.id.
    destruct (Z.ltb_spec (0x100 + Z.of_nat k) (0x100 + Z.of_nat (length program))); [done|].
    rewrite lookup_ge_None_2 by lia. done.
  - unfold resets, upper_overflow_base, assist_region_base, main_region, lower_overflow_base, OVERFLOW_REGION_SIZE. rewrite Hbase, Hsize. unfold base.
    cbn [input_main_region_size input_assist_region_size].
    repeat (apply orb_false_iff; split); apply andb_false_iff; left; apply Z.leb_gt; lia.
Qed.

Lemma safe_ext pc f g : (∀ r, f r = g r) → safe program pc f → safe program pc g.
Proof. unfold safe. intros H. by rewrite H. Qed.

(** The next address, whether or not this instruction is the mask. *)
Lemma safe_next k op f g :
  program !! k = Some op → safe program (0x100 + Z.of_nat k) f →
  g "RBX" = f "RBX" ∧ op ≠ 0x20 ∨ 0 ≤ g "RBX" < 64 → safe program (0x100 + Z.of_nat k + 1) g.
Proof.
  intros Hk [_ Hf] Hg. apply lookup_lt_Some in Hk as Hlt. split; [lia|].
  replace (0x100 + Z.of_nat k - 0x100) with (Z.of_nat k) in Hf by lia. rewrite Nat2Z.id in Hf.
  replace (0x100 + Z.of_nat k + 1 - 0x100) with (Z.of_nat (S k)) by lia. rewrite Nat2Z.id.
  rewrite (take_S_r _ _ op) by done. intros [Hin|Hin]%elem_of_app; destruct Hg as [[-> Hop]|Hg]; auto.
  by apply list_elem_of_singleton in Hin.
Qed.

Lemma operand_inside k op u :
  program !! k = Some op → safe program (0x100 + Z.of_nat k) (reg_read u) →
  ∃ a, operand op u = base + a ∧ 0 ≤ a < 64.
Proof.
  intros Hk [_ Hs]. unfold operand. destruct (Z.eqb_spec op 0x89) as [->|_].
  - eexists. split; [done|]. apply Hs. replace (0x100 + Z.of_nat k - 0x100) with (Z.of_nat k) by lia.
    rewrite Nat2Z.id. by apply masked_at.
  - exists (offset u). split; [done|apply offset_range].
Qed.

Lemma next_outside u pc : same_outside c u (reg_write u "RIP" pc).
Proof. apply same_outside_reg. by left. Qed.

(** One step further: the machine moves on from [m] with the registers [u]. *)
Lemma confined_next (m m' : model) u pc :
  same_outside c (m_uc m) u → confined (next_pc pc (set_uc u m)) m' → confined m m'.
Proof.
  intros Hu Hrun. eapply run_machine; [exact Hu|]. eapply run_machine; [|exact Hrun]. apply next_outside.
Qed.

Lemma rip_next u pc : 0 ≤ pc + 1 < 2 ^ 64 → reg_read (reg_write u "RIP" (pc + 1)) "RIP" = pc + 1.
Proof. intros Hpc. rewrite reg_write_eq by done. by apply norm_other. Qed.
Lemma rbx_next (u : toy_uc) pc : reg_read (reg_write u "RIP" pc) "RBX" = reg_read u "RBX".
Proof. apply reg_write_ne; [done|other_register]. Qed.

Lemma run_confined fuel (m : model) k :
  same_outside c (loaded program) (m_uc m) → (k ≤ length program)%nat →
  reg_read (m_uc m) "RIP" = 0x100 + Z.of_nat k → safe program (0x100 + Z.of_nat k) (reg_read (m_uc m)) →
  confined m (run (instruction_hook HookFacts.Demo.no_insn no_page c)
                  (trace_mem_access HookFacts.Demo.no_insn c) fuel m).1.
Proof.
  revert m k. induction fuel as [|fuel IH]; intros m k Hu Hk Hpc Hs; cbn [run]; [constructor|]. cbv zeta.
  rewrite Hpc, (code_byte _ k Hu Hk). destruct (m_stopped m || negb _) eqn:Eop; [constructor|].
  apply orb_false_iff in Eop as [_ Eop%negb_false_iff].
  assert (∃ op, program !! k = Some op ∧ default 0 (program !! k) = op) as (op & Hop & ->).
  { destruct (program !! k) as [op|] eqn:E; [by exists op|]. by vm_compute in Eop. }
  apply lookup_lt_Some in Hop as Hlt. set (pc := 0x100 + Z.of_nat k) in *.
  assert (Hnext : ∀ (x : model) u, same_outside c (loaded program) u →
    reg_read u "RBX" = reg_read (m_uc m) "RBX" ∧ op ≠ 0x20 ∨ 0 ≤ reg_read u "RBX" < 64 →
    same_outside c (m_uc x) u →
    confined x (run (instruction_hook HookFacts.Demo.no_insn no_page c)
                 (trace_mem_access HookFacts.Demo.no_insn c) fuel (next_pc pc (set_uc u x))).1).
  { intros x u Hou Hrbx Hx. eapply confined_next; [exact Hx|]. apply (IH _ (S k)).
    - eapply same_outside_trans; [exact Hou|]. apply next_outside.
    - lia.
    - cbn [next_pc m_uc set_uc]. rewrite rip_next by lia. lia.
    - replace (0x100 + Z.of_nat (S k)) with (pc + 1) by lia. cbn [next_pc m_uc set_uc].
      eapply safe_next; [exact Hop|exact Hs|]. by rewrite rbx_next. }
  destruct (instruction_hook _ _ _ pc 1 m) as [m1|] eqn:E1; [|constructor].
  destruct (code_hook_keeps c Hexec _ _ _ _ E1) as (Eu & Ec & Ea).
  eapply run_code; [exact E1|intros e He; left; by rewrite <- Ec|].
  destruct (Z.eqb_spec op 0x90) as [->|Hnop].
  { change (next_pc pc m1) with (next_pc pc (set_uc (m_uc m1) m1)).
    apply Hnext; rewrite Eu; [done|by left|apply same_outside_refl]. }
  assert (Hrbx : ∀ x v, reg_read (reg_write x "RBX" v) "RBX" = wrap64 v) by (intros; by apply reg_write_eq).
  destruct (Z.eqb_spec op 0x20) as [->|Hmask].
  { assert (same_outside c (m_uc m1) (mask (m_uc m1))) as Hsame by (apply same_outside_reg; right; in_list).
    apply Hnext; [eapply same_outside_trans; [|exact Hsame]; by rewrite Eu| |exact Hsame].
    right. unfold mask. rewrite Hrbx. pose proof (offset_range (m_uc m1)). rewrite wrap64_small by lia. done. }
  destruct (operand_inside k op (m_uc m) Hop Hs) as (a & Eoperand & Ha). rewrite Eu, Eoperand.
  destruct (trace_mem_access _ _ _ _ _ _ m1) as [m2|] eqn:E2; [|constructor].
  destruct (access_keeps c Hexec _ _ _ _ _ E2) as [Eu2 Ec2]. rewrite Eu in Eu2, Ec2.
  assert (Hinside : ∀ x, base + a ≤ x < base + a + 1 → resets c x = true) by (intros x; by apply inside_sandbox).
  assert (Hwrite : ∀ (u : toy_uc) b, same_outside c u (mem_write u (base + a) [b])).
  { intros u b. apply same_outside_write; [|apply same_outside_refl]. by apply (harmless_inside _ _ _ _ 1). }
  assert (Hsame2 : same_outside c (loaded program) (m_uc m2)).
  { destruct Eu2 as [->| ->]; [done|]. eapply same_outside_trans; [exact Hu|apply Hwrite]. }
  assert (Hregs2 : ∀ r, reg_read (m_uc m2) r = reg_read (m_uc m) r).
  { intros r. by destruct Eu2 as [->| ->]; [|rewrite write_regs]. }
  eapply run_access; [|exact Hinside|exact E2| |]; [done| |].
  { intros e He. destruct (Ec2 e He) as [Hin|(Hnull & Hctx & Hnx & Hfl)]; [by left|]. right. intros u.
    rewrite Hctx, Hnx, Hfl, Ea by done. eapply safe_ext; [|exact Hs]. intros q.
    rewrite reg_write_read by done. destruct (decide (base_of q = "EFLAGS")) as [Eq|_]; [|by rewrite restore_regs].
    rewrite reg_range by done. rewrite (reg_view (m_uc m) q). by rewrite Eq. }
  assert (operand op (m_uc m2) = base + a) as ->.
  { rewrite <- Eoperand. unfold operand, offset. by rewrite Hregs2. }
  assert (Hmove : same_outside c (m_uc m2) (move op (base + a) (m_uc m2))).
  { unfold move. destruct (is_store op); [apply Hwrite|]. apply same_outside_reg. right. in_list. }
  apply Hnext; [eapply same_outside_trans; [exact Hsame2|exact Hmove]| |exact Hmove].
  left. split; [|done]. unfold move. destruct (is_store op); [by rewrite write_regs, Hregs2|].
  rewrite reg_write_ne; [apply Hregs2|done|other_register].
Qed.

Lemma emu_confined begin (m : model) :
  same_outside c (loaded program) (m_uc m) → safe program begin (reg_read (m_uc m)) →
  confined (start_at begin m) (emu_start HookFacts.Demo.no_insn no_page c emu begin m).1.
Proof.
  intros Hu Hs. unfold emu_start, emu. destruct (proj1 Hs) as [H1 H2].
  assert (begin = 0x100 + Z.of_nat (Z.to_nat (begin - 0x100))) as Eb by lia.
  apply (run_confined 8 _ (Z.to_nat (begin - 0x100))); rewrite <- ?Eb.
  - eapply same_outside_trans; [exact Hu|]. apply next_outside.
  - lia.
  - cbn [start_at m_uc]. rewrite reg_write_eq by done. apply norm_other; [done|lia].
  - destruct Hs as [Hs1 Hs2]. split; [done|]. cbn [start_at m_uc]. by rewrite rbx_next.
Qed.
End confined.


(** Under a clause that does not bypass stores, nothing is left behind. *)
Lemma always_settled c (m : @Model.model toy_uc (gmap string Z)) :
  s_execution c ≠ Bpas → s_execution c ≠ CondBpas → s_observation c ≠ Prot → settled c m.
Proof. intros H1 H2 H3. split; [|done]. unfold bypasses_stores. by destruct (s_execution c). Qed.
End PurityDemo.

(** The mask, a load whose value is speculated on, then a store to a masked address. *)
Lemma traces_belong_to_inputs_witness :
  let program := [0x20; 0x8A; 0x89; 0x90] in
  let cfg := PurityDemo.cfg Null program in
  let start := emu_start HookFacts.Demo.no_insn PurityDemo.no_page cfg PurityDemo.emu in
  let m0 := PurityDemo.start program in
  let inputs := [PurityDemo.word_input 5; PurityDemo.word_input 0x1008; PurityDemo.word_input 5] in
  snd <$> _execute_test_case cfg start PurityDemo.hash 54 inputs m0 =
  mapM (λ input, snd <$> execute_input cfg start PurityDemo.hash 54 input m0) inputs.
Proof.
  apply (traces_belong_to_inputs HookFacts.Demo.no_insn PurityDemo.no_page (PurityDemo.cfg Null [0x20; 0x8A; 0x89; 0x90])
    PurityDemo.emu PurityDemo.hash (PurityDemo.safe [0x20; 0x8A; 0x89; 0x90]) 54
    [PurityDemo.word_input 5; PurityDemo.word_input 0x1008; PurityDemo.word_input 5]
    (PurityDemo.start [0x20; 0x8A; 0x89; 0x90])).
  - apply PurityDemo.emu_Emulator.
  - apply PurityDemo.safe_ext.
  - intros begin m [Hk _] Hs. apply PurityDemo.emu_confined; [reflexivity|by right|reflexivity|done|reflexivity| |exact Hs].
    apply (kp_uc _ _ _ Hk).
  - intros u _ _ _ _. split; [done|]. by intros ?%elem_of_nil.
  - intros input m m' r _ _ _. by apply PurityDemo.always_settled.
  - reflexivity.
  - repeat (constructor; [apply PurityDemo.word_input_ok; lia|]). constructor.
  - reflexivity.
  - by apply PurityDemo.always_settled.
Defined.

(** ** A store that is left over

    [reset_model] keeps [previous_store].  Under the store-bypass clause, a test case whose
    last instruction stores leaves its store to the next input, whose first instruction
    bypasses it: the same input has two traces in one batch. *)
Section leftover.
Abbreviation model := (@Model.model toy_uc (gmap string Z)).
Context (run : model → result (model * (Z * ExecutionTrace * option (list bool)))).

Definition changes_trace (m0 : model) : bool :=
  match run m0 with
  | Ok (m1, (t1, _, _)) =>
      match run m1 with
      | Ok (_, (t2, _, _)) => bool_decide (m_store_logs m1 = []) &&
          negb (bool_decide (m_previous_store m1 = (0, 0, [], 0))) && negb (t1 =? t2)
      | _ => false
      end
  | _ => false
  end.

Lemma changes_trace_spec m0 : changes_trace m0 = true →
  ∃ m1 m2 r1 r2, run m0 = Ok (m1, r1) ∧ run m1 = Ok (m2, r2) ∧
    m_store_logs m1 = [] ∧ m_previous_store m1 ≠ (0, 0, [], 0) ∧ r1.1.1 ≠ r2.1.1.
Proof.
  unfold changes_trace. destruct (run m0) as [[m1 [[t1 et1] o1]]|]; [|done].
  destruct (run m1) as [[m2 [[t2 et2] o2]]|] eqn:E; [|done].
  intros [[H1%bool_decide_eq_true H2]%andb_true_iff H3%negb_true_iff%Z.eqb_neq]%andb_true_iff.
  apply negb_true_iff, bool_decide_eq_false in H2. by exists m1, m2, (t1, et1, o1), (t2, et2, o2).
Qed.
End leftover.

Lemma leftover_store_changes_trace :
  let cfg := PurityDemo.cfg Bpas [0x88] in
  let run := execute_input cfg (emu_start HookFacts.Demo.no_insn PurityDemo.no_page cfg PurityDemo.emu)
    PurityDemo.hash 54 (PurityDemo.word_input 5) in
  ∃ m1 m2 r1 r2, run (PurityDemo.start [0x88]) = Ok (m1, r1) ∧ run m1 = Ok (m2, r2) ∧
    m_store_logs m1 = [] ∧ m_previous_store m1 ≠ (0, 0, [], 0) ∧ r1.1.1 ≠ r2.1.1.
Proof. apply changes_trace_spec. vm_compute. reflexivity. Qed.
