(* ===== verification/Compose.v ===== *)
(** * The fuzzer over the contract model

    [FuzzerFacts] proves the fuzzing round against what it asks of a contract model
    ([ContractLaws]).  Here the model of [src/src/model.py], as the object that
    [load_test_case], [trace_test_case] and [get_taints] use, discharges these laws for a
    test case that stays in its sandbox: its contract trace of an input is the one the
    input has alone, by [Purity].  A round over this model then reports counterexamples to
    the contract and finds the leaks among its inputs. *)

From S2P Require Import Prelude Isa Input InputFacts Taint Dataflow Registers Uc Model SpecFacts HookFacts Util Analyser Fuzzer FuzzerFacts ExecData ModelLoad Alike Purity.

Open Scope Z_scope.

(** A map of computations that all succeed. *)
Lemma mapM_all {A B} (f : A → result B) (P : A → B → Prop) l :
  Forall (λ x, ∃ y, f x = Ok y ∧ P x y) l → ∃ k, mapM f l = Ok k ∧ Forall2 P l k.
Proof.
  induction 1 as [|x l (y & E & Hy) _ (k & Ek & IH)]; [by exists []|].
  exists (y :: k). cbn. rewrite E. cbn. rewrite Ek. split; [done|by constructor].
Qed.

Section compose.
Context {uc ctx : Type} `{!Uc uc ctx, !UcLaws uc ctx, !UcMemory uc}.
Abbreviation model := (@Model.model uc ctx).
Abbreviation object := (unicorn_model (uc := uc) (ctx := ctx)).
Context (disasm_one : list Z → Z → option cs_insn) (disasm : list Z → Z → list cs_insn).
Context (emu : (Z → Z → model → result model) → (bool → Z → Z → Z → model → result model) →
  Z → model → model * bool) `{!Emulator emu}.
Context (xxh32 : string → Z) (fuel : nat).

Definition emu_of (c : settings) : Z → model → model * bool := emu_start disasm_one disasm c emu.

(** The object as the fuzzer's contract model.  [get_taints] only answers [None] without a
    tracker, and a tracker is there when taints are asked for. *)
Definition unicorn_contract : ContractModel test_program ExecutionTrace object := {|
  model_load := model_load_test_case;
  model_trace := trace_test_case emu_of xxh32 fuel;
  model_taints inputs nesting u :=
    '(ts, ets, u) ← get_taints emu_of xxh32 fuel inputs nesting u;
    ts ← mapM (from_option RuntimeError) ts;
    Ok (ts, ets, u)
|}.
#[local] Existing Instance unicorn_contract.

(** *** One test case *)

Context (t : test_program) (base : settings) (u0 : uc) (code_end : Z).
Abbreviation r := (s_regions base).
(** The settings of a run: the address map of the test case, a nesting, the two flags. *)
Definition run_settings (nesting : Z) (tainting tracing : bool) : settings :=
  with_run nesting tainting tracing (with_test_case (tp_address_map t) base).
Definition execute (nesting : Z) (tainting tracing : bool) (input_ : Input) (m : model) :=
  execute_input (run_settings nesting tainting tracing) (emu_of (run_settings nesting tainting tracing))
    xxh32 fuel input_ m.

(** A model object whose emulator holds the test case and nothing else happened. *)
Definition fresh_model : model :=
  mkModel u0 (mkTracerState [] [] 0 [] 0 false clear_analysis) None None false 0 [] [] (0, 0, [], 0) 0 0 false.

(** The contract trace of an input, executed alone. *)
Definition contract_trace (nesting : Z) (input_ : Input) : Z :=
  match execute nesting false true input_ fresh_model with
  | Ok (_, (trace, _, _)) => trace
  | Raise _ => 0
  end.

(** What the test case is assumed to do: fit its page; stay in the registers and the memory
    that inputs set, from its start and from where a clause returns to it, as code whose
    accesses are masked does; leave nothing behind; and run to its end on every input. *)
Context (safe : Z → (string → Z) → Prop).
Record sandboxed_test_case : Prop := {
  tc_loads : load_test_case base (tp_code t) = Ok (u0, code_end);
  tc_registers : input_register_region_size r = 64%nat;
  tc_safe_ext pc f g : (∀ x, f x = g x) → safe pc f → safe pc g;
  tc_safe_loaded u : same_outside base u0 u → reg_read u "RSP" = wrap64 (stack_base base) →
    reg_read u "RBP" = wrap64 (stack_base base) → reg_read u "R14" = wrap64 (s_sandbox_base base) →
    safe (s_code_start base) (reg_read u);
  tc_confined n ta tr begin m : sound (run_settings n ta tr) safe u0 m → safe begin (reg_read (m_uc m)) →
    confined_run disasm_one disasm (run_settings n ta tr) safe (start_at begin m)
      (emu_of (run_settings n ta tr) begin m).1;
  tc_settles n ta tr input_ m m' res : input_ok r input_ → ready base u0 m →
    execute n ta tr input_ m = Ok (m', res) → settled base m';
  tc_ends n ta tr input_ : input_ok r input_ → succeeds (execute n ta tr input_ fresh_model) = true
}.

(** The settings without what a test case or a run sets. *)
Definition own_settings (c : settings) : settings := with_run 0 false false (with_test_case ∅ c).

Definition object_idle (u : object) : Prop :=
  own_settings (um_settings u) = own_settings base ∧
  m_store_logs (um_state u) = [] ∧ settled base (um_state u).
Definition object_ready (u : object) : Prop :=
  with_run 0 false false (um_settings u) = run_settings 0 false false ∧ ready base u0 (um_state u).

Lemma ready_idle u : object_ready u → object_idle u.
Proof.
  intros (Hs & _ & Hl & Hset). split; [|done]. exact (f_equal (with_test_case ∅) Hs).
Qed.

Lemma settings_of_run c n ta tr :
  with_run 0 false false c = run_settings 0 false false → with_run n ta tr c = run_settings n ta tr.
Proof. intros H. exact (f_equal (with_run n ta tr) H). Qed.

Context (Htc : sandboxed_test_case).

Lemma fresh_ready : ready base u0 fresh_model.
Proof. by split; [apply same_outside_refl|]. Qed.

(** A batch on a ready object: one result per input, the one it has alone. *)
Lemma run_inputs_alone ta tr inputs n (u : object) :
  Forall (input_ok r) inputs → object_ready u →
  ∃ rs u', run_inputs emu_of xxh32 fuel ta tr inputs n u = Ok (rs, u') ∧ object_ready u' ∧
    Forall2 (λ i res, ∃ m', execute n ta tr i fresh_model = Ok (m', res)) inputs rs.
Proof.
  intros Hin [Hs Hr]. unfold run_inputs. rewrite (settings_of_run _ n ta tr Hs).
  set (c := run_settings n ta tr). unfold _execute_test_case.
  pose proof (batch_results disasm_one disasm c emu xxh32 safe (tc_registers Htc) u0
    (tc_safe_ext Htc) (tc_confined Htc n ta tr) (tc_safe_loaded Htc) fuel (tc_settles Htc n ta tr)
    inputs fresh_model (um_state u, []) Hin fresh_ready Hr) as Hbatch.
  pose proof (batch_ready disasm_one disasm c emu xxh32 safe (tc_registers Htc) u0
    (tc_safe_ext Htc) (tc_confined Htc n ta tr) (tc_safe_loaded Htc) fuel (tc_settles Htc n ta tr) inputs (um_state u, [])) as Hready.
  assert (∃ rs, mapM (λ i, snd <$> execute n ta tr i fresh_model) inputs = Ok rs ∧
    Forall2 (λ i res, ∃ m', execute n ta tr i fresh_model = Ok (m', res)) inputs rs) as (rs & Ers & Hrs).
  { apply mapM_all. eapply Forall_impl; [exact Hin|]. intros i Hi.
    destruct (succeeds_Ok _ (tc_ends Htc n ta tr i Hi)) as [[m' res] E]. exists res. rewrite E.
    split; [done|by exists m']. }
  unfold execute in Ers. fold c in Ers. unfold emu_of in *. fold c in Ers. rewrite Ers in Hbatch. cbn in Hbatch.
  destruct (for_each _ inputs (um_state u, [])) as [[m' rs']|] eqn:E; [|done]. cbn in Hbatch. injection Hbatch as ->.
  exists rs. eexists. split; [done|]. split; [|done]. by split; [|apply (Hready (m', rs) Hin Hr)].
Qed.

(** The taints of a run with the tracker. *)
Lemma taint_computed n tr input_ m' ct et taint :
  input_ok r input_ → execute n true tr input_ fresh_model = Ok (m', (ct, et, taint)) →
  ∃ v, taint = Some v ∧ length v = taint_size r.
Proof.
  intros Hok H.
  apply (execute_input_after disasm_one disasm (run_settings n true tr) emu xxh32 safe
    (tc_registers Htc) u0 (tc_safe_ext Htc) (tc_confined Htc n true tr) (tc_safe_loaded Htc) fuel input_ _ _ _ _ _ Hok fresh_ready H).
  done.
Qed.

#[local] Instance unicorn_contract_laws :
  ContractLaws r t object_idle object_ready contract_trace.
Proof.
  constructor.
  - intros u (Hs & Hl & Hset). cbn. unfold model_load_test_case.
    assert (load_test_case (um_settings u) (tp_code t) = load_test_case base (tp_code t)) as ->.
    { unfold load_test_case, prepare_emulator. change (s_code_start ?c) with (s_code_start (own_settings c)).
      change (s_sandbox_base ?c) with (s_sandbox_base (own_settings c)). by rewrite Hs. }
    rewrite (tc_loads Htc). cbn. eexists. split; [done|]. split.
    + exact (f_equal (with_test_case (tp_address_map t)) Hs).
    + by split; [apply same_outside_refl|].
  - intros inputs n u Hin Hu. destruct (run_inputs_alone false true inputs n u Hin Hu) as (rs & u' & E & Hu' & Hrs).
    exists (rs.*1.*2), u'. cbn. unfold trace_test_case. rewrite E. cbn. split; [|done]. f_equal. f_equal. f_equal.
    clear E. induction Hrs as [|i [[ct et] v] inputs rs (m' & Ei) _ IH]; [done|].
    inversion_clear Hin as [|? ? Hi Hin']. cbn. f_equal; [|by apply IH]. unfold contract_trace. by rewrite Ei.
  - intros inputs n u Hin Hu. destruct (run_inputs_alone true false inputs n u Hin Hu) as (rs & u' & E & Hu' & Hrs).
    assert (∃ ts, mapM (from_option RuntimeError) rs.*2 = Ok ts ∧ length ts = length inputs ∧
      Forall (λ v, length v = taint_size r) ts) as (ts & Ets & Hlen & Hts).
    { clear E. induction Hrs as [|i [[ct et] v] inputs rs (m' & Ei) _ IH]; [by exists []|].
      inversion_clear Hin as [|? ? Hi Hin']. destruct (IH Hin') as (ts & Ets & Hlen & Hts).
      destruct (taint_computed _ _ _ _ _ _ _ Hi Ei) as (w & -> & Hw). exists (w :: ts). cbn. rewrite Ets. cbn.
      split; [done|]. split; [by f_equal|by constructor]. }
    exists ts, (rs.*1.*2), u'. cbn. unfold get_taints. rewrite E. cbn. by rewrite Ets.
Qed.

(** *** The round *)

Context {exe cov : Type} `{!HardwareExecutor test_program exe, !Coverage test_program ExecutionTrace cov}.
Context (conf : fuzz_conf) (alloc : nat → nat → nat → Z) (elapsed : nat → Z).
Context (exec_idle exec_ready : exe → Prop) (obs : list Input → Input → Z).
Context `{!HardwareLaws r t exec_idle exec_ready obs, !CoverageLaws test_program ExecutionTrace cov}.
Context (Hregions : input_regions conf = r) (Hnew : existing_input_case conf = false).
Context (Hsign : analyser_permit_subsets conf = true → ∀ p i, 0 ≤ obs p i).
Abbreviation fw := (fworld (mdl := object) (exe := exe) (cov := cov)).
Abbreviation round inputs timeout := (fuzzing_round (tc := test_program) (et := ExecutionTrace)
  conf alloc elapsed t inputs timeout).

Lemma round_over_model inputs timeout (w : fw) :
  boostable conf inputs → no_priming conf = false → object_idle (fw_model w) → exec_idle (fw_exec w) →
  runs object_ready exec_ready (round inputs timeout) w (λ res _,
    ∀ ec, res = Some ec → ∃ n a b, n ∈ [1; model_max_nesting conf] ∧
      counterexample contract_trace obs n (ec_ctrace ec) a b ∧
      a ∈ me_input <$> measurements ec ∧ b ∈ me_input <$> measurements ec).
Proof.
  intros Hb Hp Hm He. pose proof unicorn_contract_laws as Hlaws. rewrite <- Hregions in Hlaws.
  assert (HardwareLaws (input_regions conf) t exec_idle exec_ready obs) by (by rewrite Hregions).
  eapply round_reports; [exact Hlaws|done|done|exact Hnew|exact Hsign|done|done|by split].
Qed.

Lemma round_over_model_finds inputs a b (w : fw) :
  boostable conf inputs → object_idle (fw_model w) → exec_idle (fw_exec w) →
  (∀ p i, obs p i = obs [] i) → a ∈ inputs → b ∈ inputs → leak conf contract_trace obs a b →
  runs object_ready exec_ready (round inputs 0) w (λ res _, is_Some res).
Proof.
  intros Hb Hm He Hfree Ha Hbi Hleak. pose proof unicorn_contract_laws as Hlaws. rewrite <- Hregions in Hlaws.
  assert (HardwareLaws (input_regions conf) t exec_idle exec_ready obs) by (by rewrite Hregions).
  eapply round_finds; [exact Hlaws|done|done|exact Hnew|exact Hsign|done|by split|done|exact Ha|exact Hbi|exact Hleak].
Qed.
End compose.


(** ** A round over a one-instruction test case

    The test case stores AL at an address that RBX chooses, masked to the sandbox; hardware shows the first word
    of the input. *)
Module ComposeDemo.
(** The emulator of [PurityDemo], with every address mapped. *)
#[local] Instance mapped_toy : UcMemory toy_uc := {
  uc_new := mkToy ∅ ∅;
  uc_map _ _ u := Ok u;
  uc_write a bs u := Ok (mem_write u a bs);
  uc_hook _ u := Ok u;
  uc_mapped _ _ := true;
  uc_hooks _ := []
}.
Abbreviation model := (@Model.model toy_uc (gmap string Z)).
Definition base : settings := PurityDemo.cfg Seq [0x88].
Definition t : test_program := mkTestProgram [0x88] (PurityDemo.instructions 1).
Definition u0 : toy_uc := mem_write (mkToy ∅ ∅) 0x100 [0x88].
Abbreviation no_insn := HookFacts.Demo.no_insn.
Abbreviation no_page := PurityDemo.no_page.
Abbreviation settings_of n ta tr := (run_settings t base n ta tr).
Abbreviation exec n ta tr := (execute no_insn no_page PurityDemo.emu PurityDemo.hash 0 t base n ta tr).

(** The run ends at a byte that is no instruction; a store is one step. *)
Lemma run_stops code access fuel (m : model) :
  mem (mem_byte (m_uc m) (reg_read (m_uc m) "RIP")) PurityDemo.ops = false →
  PurityDemo.run code access fuel m = (m, false).
Proof. intros H. destruct fuel; [done|]. cbn [PurityDemo.run]. cbv zeta. by rewrite H, orb_true_r. Qed.

Lemma run_stores code access fuel (m m1 m2 : model) pc :
  m_stopped m = false → reg_read (m_uc m) "RIP" = pc → mem_byte (m_uc m) pc = 0x88 →
  code pc 1 m = Ok m1 → access true (PurityDemo.operand 0x88 (m_uc m1)) 1 (reg_read (m_uc m1) "AL") m1 = Ok m2 →
  PurityDemo.run code access (S fuel) m = PurityDemo.run code access fuel (PurityDemo.next_pc pc
    (set_uc (mem_write (m_uc m2) (PurityDemo.operand 0x88 (m_uc m2)) [reg_read (m_uc m2) "AL"]) m2)).
Proof.
  intros Hs Hpc Hop H1 H2. cbn [PurityDemo.run]. cbv zeta. rewrite Hs, Hpc, Hop.
  change (mem 0x88 PurityDemo.ops) with true. cbn [orb negb]. rewrite H1.
  change (0x88 =? 0x90) with false. change (0x88 =? 0x20) with false. cbv iota.
  change (PurityDemo.is_store 0x88) with true. by rewrite H2.
Qed.

(** A model in front of the instruction. *)
Definition at_start (u : toy_uc) (ta : bool) id un pc an al cur w lo pr la ia : model :=
  mkModel u (mkTracerState [] [] id un pc an al) (if ta then Some (new_tracker [] 0x10000) else None) cur
    false w [] lo pr la ia false.

(** The tracker has nothing to mark. *)
Definition untainted (m : model) : Prop :=
  ∀ x, m_taint m = Some x → t_pending_taint x = [] ∧ t_mem_address_regs x = [] ∧ t_tainted_labels x = ∅.

Lemma untainted_answer c m : untainted m → ∃ v, model_taint c m = Ok v.
Proof.
  intros H. unfold model_taint. destruct (m_taint m) as [x|] eqn:E; [|by eexists].
  destruct (H x E) as (Hp & _ & Hl).
  assert (t_tainted_labels (finalize_pending x) = ∅) as Hlabels.
  { unfold finalize_pending. destruct (t_instruction x); [|done]. unfold _finalize_instruction.
    cbn [t_tainted_labels]. by rewrite Hp. }
  unfold get_taint. rewrite Hlabels. unfold taint_vector. rewrite elements_empty. cbn. by eexists.
Qed.

Lemma instruction_of_store n (ta tr : bool) u id un pc an al cur w lo pr la ia :
  ∃ m1, instruction_hook no_insn no_page (settings_of n ta tr) 0x100 1 (at_start u ta id un pc an al cur w lo pr la ia) = Ok m1 ∧
    m_stopped m1 = false ∧ m_in_speculation m1 = false ∧ m_uc m1 = u ∧ untainted m1 ∧
    (tr = true → is_Some (tr_execution_trace (m_tracer m1) !! tr_instruction_id (m_tracer m1))).
Proof.
  destruct ta, tr; eexists; (split; [reflexivity|]); (split; [reflexivity|]); (split; [reflexivity|]);
    (split; [reflexivity|]); (split; [|intros H; (discriminate H || by eexists)]);
    intros x Hx; (discriminate Hx || injection Hx as <-); split_and!; reflexivity.
Qed.

Lemma access_of_store n (ta tr : bool) a v (m1 : model) :
  m_in_speculation m1 = false → untainted m1 →
  (tr = true → is_Some (tr_execution_trace (m_tracer m1) !! tr_instruction_id (m_tracer m1))) →
  ∃ m2, trace_mem_access no_insn (settings_of n ta tr) true a 1 v m1 = Ok m2 ∧ m_uc m2 = m_uc m1 ∧
    m_stopped m2 = m_stopped m1 ∧ m_in_speculation m2 = false ∧ untainted m2.
Proof.
  intros Hs Hu Htr. unfold trace_mem_access, seq_trace_mem_access, observe_mem_access, ct_observe_mem_access,
    add_mem_address_to_trace, base_observe_mem_access, on_taint_, on_taint.
  change (s_execution (settings_of n ta tr)) with Seq. change (s_observation (settings_of n ta tr)) with CT.
  change (s_execution_tracing_enabled (settings_of n ta tr)) with tr. cbv iota zeta.
  unfold untainted in *. destruct (m_taint m1) as [x|] eqn:Et.
  - destruct (Hu x eq_refl) as (Hp & Hm & Hl).
    cbn [mbind result_bind m_taint set_taint append_trace set_trace set_tracer m_in_speculation m_tracer
      tr_execution_trace tr_instruction_id]. rewrite Hs.
    assert (∀ x', Some (taint_memory_access_address (track_memory_access a 1 true x)) = Some x' →
      t_pending_taint x' = [] ∧ t_mem_address_regs x' = [] ∧ t_tainted_labels x' = ∅) as Hx.
    { intros x' [= <-]. cbn. by rewrite Hp, Hm. }
    destruct tr; [destruct (Htr eq_refl) as [e ->]|]; eexists; (split; [reflexivity|]); by split_and!.
  - cbn [mbind result_bind m_taint set_taint append_trace set_trace set_tracer m_in_speculation m_tracer
      tr_execution_trace tr_instruction_id]. rewrite Et. cbn [mbind result_bind append_trace set_trace set_tracer m_in_speculation
      m_tracer tr_execution_trace tr_instruction_id]. rewrite Hs.
    destruct tr; [destruct (Htr eq_refl) as [e ->]|]; eexists; (split; [reflexivity|]); split_and!; try done;
      cbn; by rewrite Et.
Qed.

Lemma run_store n (ta tr : bool) u id un pc an al cur w lo pr la ia :
  reg_read u "RIP" = 0x100 → mem_byte u 0x100 = 0x88 → mem_byte u 0x101 = 0 →
  ∃ m', PurityDemo.run (instruction_hook no_insn no_page (settings_of n ta tr))
      (trace_mem_access no_insn (settings_of n ta tr)) 8 (at_start u ta id un pc an al cur w lo pr la ia) = (m', false) ∧
    m_in_speculation m' = false ∧ ∃ v, model_taint (settings_of n ta tr) m' = Ok v.
Proof.
  intros Hrip Hop Hend. destruct (instruction_of_store n ta tr u id un pc an al cur w lo pr la ia)
    as (m1 & E1 & Est1 & Es1 & Eu1 & Hu1 & Htr1).
  destruct (access_of_store n ta tr (PurityDemo.operand 0x88 (m_uc m1)) (reg_read (m_uc m1) "AL") m1 Es1 Hu1 Htr1)
    as (m2 & E2 & Eu2 & Est & Esp & Hu2). rewrite Eu1 in Eu2.
  rewrite (run_stores _ _ 7 _ m1 m2 0x100); [|reflexivity|exact Hrip|exact Hop|exact E1|exact E2].
  rewrite Eu2. set (u2 := mem_write u _ _).
  rewrite run_stops; [eexists; split; [reflexivity|]; split; [exact Esp|by apply untainted_answer]|].
  unfold PurityDemo.next_pc. cbn [m_uc set_uc]. rewrite (reg_write_eq u2 "RIP"), reg_write_mem by done.
  change (norm "RIP" (0x100 + 1)) with (0x100 + 1).
  assert (mem_byte u2 (0x100 + 1) = 0) as ->; [|reflexivity].
  unfold u2. rewrite write_outside; [exact Hend|]. intros Hx.
  pose proof (PurityDemo.offset_range u) as Ho.
  change (PurityDemo.operand 0x88 u) with (PurityDemo.base + PurityDemo.offset u) in Hx.
  unfold PurityDemo.base in Hx. cbn [length] in Hx. lia.
Qed.

Lemma store_ends n ta tr input_ : input_ok (s_regions base) input_ →
  succeeds (exec n ta tr input_ (fresh_model u0)) = true.
Proof.
  intros Hok. unfold execute, execute_input. cbv zeta. set (c := settings_of n ta tr).
  destruct (load_input_Ok c input_ (reset_model c (fresh_model u0)) Hok eq_refl) as (m1 & E).
  rewrite E. cbn [mbind result_bind].
  destruct (load_outside c eq_refl _ _ _ Hok E) as [_ Hbytes]. rewrite reset_uc in Hbytes.
  destruct (run_store n ta tr (reg_write (m_uc m1) "RIP" 0x100) (tr_instruction_id (m_tracer m1))
    (tr_unprot_regs (m_tracer m1)) (tr_last_pc (m_tracer m1)) (tr_analyzed (m_tracer m1)) (tr_analysis (m_tracer m1))
    (m_current_instruction m1) 0 (m_store_logs m1) (m_previous_store m1) (m_latest_rollback_address m1)
    (m_instruction_address m1)) as (m2 & Er & Es & v & Ev).
  { by rewrite reg_write_eq. } { rewrite reg_write_mem, Hbytes; reflexivity. } { rewrite reg_write_mem, Hbytes; reflexivity. }
  unfold emu_of, emu_start, PurityDemo.emu. fold c in Er.
  assert (start_at (s_code_start c) (reset_model c m1) = at_start (reg_write (m_uc m1) "RIP" 0x100) ta
    (tr_instruction_id (m_tracer m1)) (tr_unprot_regs (m_tracer m1)) (tr_last_pc (m_tracer m1)) (tr_analyzed (m_tracer m1))
    (tr_analysis (m_tracer m1)) (m_current_instruction m1) 0 (m_store_logs m1) (m_previous_store m1)
    (m_latest_rollback_address m1) (m_instruction_address m1)) as -> by reflexivity.
  rewrite Er. cbn [andb negb assert_ mbind result_bind]. cbn [rollback_all]. rewrite Es. cbn [negb mbind result_bind].
  fold c in Ev. rewrite Ev. reflexivity.
Qed.

Lemma store_sandboxed :
  sandboxed_test_case no_insn no_page PurityDemo.emu PurityDemo.hash 0 t base u0 0x101 (PurityDemo.safe [0x88]).
Proof.
  constructor; try done.
  - apply PurityDemo.safe_ext.
  - intros u _ _ _ _. split; [done|]. by intros ?%elem_of_nil.
  - intros n ta tr begin m [Hk _] Hs. apply PurityDemo.emu_confined; [reflexivity|by left|reflexivity|done|reflexivity| |exact Hs].
    apply (kp_uc _ _ _ Hk).
  - intros. by apply store_ends.
Qed.

(** Hardware that shows the first word of an input. *)
#[global] Instance toy_executor : HardwareExecutor test_program unit := {|
  exec_load _ _ := Ok tt;
  exec_trace inputs _ := Ok (trace_of FuzzerFacts.Demo.obs inputs, tt);
  exec_start_priming e := e; exec_stop_priming e := e; exec_bugged _ := false |}.
#[global] Instance toy_executor_laws : HardwareLaws (s_regions base) t FuzzerFacts.Demo.anything
  FuzzerFacts.Demo.anything FuzzerFacts.Demo.obs.
Proof. constructor; try done; by intros; eexists. Qed.

Definition conf : fuzz_conf := mkFuzzConf 2 1 false false ["seq"] false false 3 (s_regions base).
Definition object : unicorn_model := mkUnicornModel base (PurityDemo.start []).
Definition world : fworld (mdl := unicorn_model (uc := toy_uc) (ctx := gmap string Z)) (exe := unit) (cov := unit) :=
  mkFWorld object tt tt (mkStat 0 0) 0 0 0 0.
Definition inputs : list Input := [PurityDemo.word_input 5; PurityDemo.word_input 9].

Lemma demo_inputs_boostable : boostable conf inputs.
Proof.
  split; [vm_compute; discriminate|]. split; [unfold padded; vm_compute; lia|]. split; [done|].
  repeat (constructor; [apply PurityDemo.word_input_ok; lia|]). constructor.
Qed.

Lemma object_is_idle : object_idle base object.
Proof. split; [reflexivity|]. split; [reflexivity|]. by apply PurityDemo.always_settled. Qed.
End ComposeDemo.

