(* ===== verification/DebugFiles.v ===== *)
(** * The debug files of the executor

    [open_debug_file], [copy_debug_file] and [write_debug_files] of
    [src/src/executor.py]: files kept in memory until a violation is found. A file
    is its contents; every handle is written once and closed by its [with] block or
    by its finaliser. Directories are assumed to exist. *)

From S2P Require Import Prelude.

Open Scope Z_scope.

(** ** State and operations *)

(** The disk and [self.debug_files]. *)
Record files := mkFiles { disk : gmap string string; debug_files : gmap string string }.

Section operations.
(** [CONF.debug] *)
Variable debug : bool.

(** [open_debug_file(filename, 'r').read()]; a missing file raises on [open]. *)
Definition read_debug_file (filename : string) (fs : files) : result string :=
  if debug || bool_decide (debug_files fs !! filename = None)
  then from_option IOError (disk fs !! filename)
  else from_option KeyError (debug_files fs !! filename).

(** [open_debug_file(filename, 'w')], the contents written, and the file closed. *)
Definition write_debug_file (filename contents : string) (fs : files) : files :=
  if debug then mkFiles (<[filename := contents]> (disk fs)) (debug_files fs)
  else mkFiles (disk fs) (<[filename := contents]> (debug_files fs)).

Definition copy_debug_file (source destination : string) (error_if_not_found : bool) (fs : files)
    : result files :=
  match read_debug_file source fs with
  | Ok contents => Ok (write_debug_file destination contents fs)
  | Raise IOError => if error_if_not_found then Raise IOError else Ok fs
  | Raise e => Raise e
  end.

Definition write_debug_files (fs : files) : files := mkFiles (debug_files fs ∪ disk fs) ∅.

(** ** What the operations promise: one plain file system *)

Inductive file_op :=
  | OWrite (filename contents : string)
  | OCopy (source destination : string) (error_if_not_found : bool)
  | OFlush.

Definition run_op (op : file_op) (fs : files) : result files :=
  match op with
  | OWrite f c => Ok (write_debug_file f c fs)
  | OCopy s d e => copy_debug_file s d e fs
  | OFlush => Ok (write_debug_files fs)
  end.

(** The same operations with every file on the disk. *)
Definition plain_op (op : file_op) (fs : gmap string string) : result (gmap string string) :=
  match op with
  | OWrite f c => Ok (<[f := c]> fs)
  | OCopy s d e =>
      match fs !! s with
      | Some c => Ok (<[d := c]> fs)
      | None => if e : bool then Raise IOError else Ok fs
      end
  | OFlush => Ok fs
  end.

(** The contents seen through [open_debug_file]. *)
Definition view (fs : files) : gmap string string := debug_files fs ∪ disk fs.

Definition consistent (fs : files) : Prop := debug = true → debug_files fs = ∅.

Lemma read_view fs filename :
  consistent fs → read_debug_file filename fs = from_option IOError (view fs !! filename).
Proof.
  intros Hc. unfold read_debug_file, view.
  destruct debug eqn:Ed; cbn [orb].
  - by rewrite (Hc Ed), (left_id_L ∅ _).
  - case_bool_decide as E; [by rewrite lookup_union_r|].
    destruct (debug_files fs !! filename) as [c|] eqn:E'; [|done].
    by rewrite (lookup_union_Some_l _ _ _ c).
Qed.

Lemma write_view fs filename contents :
  consistent fs →
  view (write_debug_file filename contents fs) = <[filename := contents]> (view fs)
  ∧ consistent (write_debug_file filename contents fs).
Proof.
  intros Hc. unfold view, write_debug_file, consistent in *. destruct debug; cbn.
  - rewrite Hc by done. by rewrite !(left_id_L ∅ _).
  - by rewrite insert_union_l.
Qed.

Lemma run_op_view op fs :
  consistent fs →
  match run_op op fs with
  | Ok fs' => plain_op op (view fs) = Ok (view fs') ∧ consistent fs'
  | Raise e => plain_op op (view fs) = Raise e
  end.
Proof.
  intros Hc. destruct op as [f c|s d e|]; cbn [run_op plain_op].
  - destruct (write_view fs f c Hc) as [-> ?]. done.
  - unfold copy_debug_file. rewrite read_view by done.
    destruct (view fs !! s) as [c|]; cbn [from_option].
    + destruct (write_view fs d c Hc) as [-> ?]. done.
    + by destruct e.
  - unfold write_debug_files, view, consistent; cbn. rewrite (left_id_L ∅ _). done.
Qed.

(** C35: Keeping the files in memory is invisible: after any sequence of writes, copies
    and flushes, every file reads as it would had all of them been written to the
    disk at once, and a sequence fails exactly when it would have failed there. *)
Theorem debug_files_refine ops fs :
  consistent fs →
  match for_each run_op ops fs with
  | Ok fs' => for_each plain_op ops (view fs) = Ok (view fs')
              ∧ ∀ f, read_debug_file f fs' = from_option IOError (view fs' !! f)
  | Raise e => for_each plain_op ops (view fs) = Raise e
  end.
Proof.
  revert fs. induction ops as [|op ops IH]; intros fs Hc; cbn [for_each].
  - split; [done|]. intros f. by apply read_view.
  - pose proof (run_op_view op fs Hc) as H.
    destruct (run_op op fs) as [fs'|e]; cbn [mbind result_bind]; [|by rewrite H].
    destruct H as [-> Hc']. cbn [mbind result_bind]. by apply IH.
Qed.
End operations.

Lemma debug_files_refine_witness :
  let fs := mkFiles {["m5.tag" := "tags"]} ∅ in
  let ops := [OCopy "m5.tag" "debug/tags" true; OWrite "m5.tag" "new"; OFlush] in
  consistent false fs
  ∧ match for_each (run_op false) ops fs with
    | Ok fs' => for_each plain_op ops (view fs) = Ok (view fs')
                ∧ ∀ f, read_debug_file false f fs' = from_option IOError (view fs' !! f)
    | Raise e => for_each plain_op ops (view fs) = Raise e
    end.
Proof. split; [done|]. by apply debug_files_refine. Defined.
