(* ===== verification/Reports.v ===== *)
(** * Reports of violations

    [copy_debug_files] and [input_dump] of [src/src/fuzzer.py]: the directory of a report,
    found by creating it, and the files copied into it.  Several fuzzers share the
    directory of the results; its state is the set of names in it.  A file is the string
    of its bytes; the pickle of an input, its printed form and the disassembler are parameters. *)

From S2P Require Import Prelude Text Service DebugFiles.

Open Scope Z_scope.

(** ** The name of the directory *)

(** The elapsed time, a [timedelta] in microseconds. *)
Definition td_microseconds (delta : Z) : Z := delta mod 1000000.
Definition elapsed_name (delta : Z) : string :=
  let '(hrs, mins, secs) := elapsed delta in
  str hrs +:+ "hrs-" +:+ zfill 2 (str mins) +:+ "mins-" +:+ zfill 2 (str secs) +:+ "secs".
Definition report_name (process_run : string) (single_run : bool) (delta : Z) : string :=
  if single_run then process_run else elapsed_name delta.

(** The name to try when [name] exists. *)
Definition next_name (us : Z) (name : string) : string :=
  if endswith "us" name then name +:+ "_" else name +:+ "-" +:+ zfill 6 (str us) +:+ "us".

(** A process in the loop, or behind it.  One turn is one call of [mkdir], which creates
    the directory or raises, and is atomic. *)
Inductive phase :=
  | Trying (us : Z) (name : string)
  | Created (name : string).
Definition mkdir_turn (ph : phase) (entries : gset string) : phase * gset string :=
  match ph with
  | Trying us name =>
      if decide (name ∈ entries) then (Trying us (next_name us name), entries)
      else (Created name, {[name]} ∪ entries)
  | Created name => (ph, entries)
  end.

(** The loop of one process that runs alone. *)
Fixpoint find_report_dir (fuel : nat) (ph : phase) (entries : gset string) : result (string * gset string) :=
  match fuel with
  | O => Raise OutOfFuel
  | S fuel =>
      match mkdir_turn ph entries with
      | (Created name, entries) => Ok (name, entries)
      | (ph, entries) => find_report_dir fuel ph entries
      end
  end.

(** Several processes, one of which takes a turn. *)
Record shared := mkShared { sh_entries : gset string; sh_phases : list phase }.
Definition take_turn (st : shared) (i : nat) : shared :=
  match sh_phases st !! i with
  | Some ph => let '(ph, entries) := mkdir_turn ph (sh_entries st) in
               mkShared entries (<[i := ph]> (sh_phases st))
  | None => st
  end.
Definition run_turns (turns : list nat) (st : shared) : shared := fold_left take_turn turns st.

(** ** Candidates never repeat *)

Definition candidate (us : Z) (name : string) (k : nat) : string := Nat.iter k (next_name us) name.

Lemma next_name_longer us name : (String.length name < String.length (next_name us name))%nat.
Proof. unfold next_name. destruct (endswith _ _); rewrite !str_length_app; cbn; lia. Qed.
Lemma next_name_extends us name : ∃ s, next_name us name = name +:+ s.
Proof. unfold next_name. destruct (endswith _ _); by eexists. Qed.

Lemma candidate_S us name k : candidate us name (S k) = next_name us (candidate us name k).
Proof. reflexivity. Qed.
Lemma candidate_longer us name j k :
  (j < k)%nat → (String.length (candidate us name j) < String.length (candidate us name k))%nat.
Proof.
  induction 1 as [|k _ IH]; rewrite candidate_S; [apply next_name_longer|].
  etrans; [exact IH|apply next_name_longer].
Qed.
#[export] Instance candidate_inj us name : Inj (=) (=) (candidate us name).
Proof.
  intros j k E. destruct (lt_eq_lt_dec j k) as [[H|H]|H]; [|done|];
    pose proof (candidate_longer us name _ _ H); rewrite E in *; lia.
Qed.
Lemma candidate_extends us name k : ∃ s, candidate us name k = name +:+ s.
Proof.
  induction k as [|k [s IH]]; [exists ""; by rewrite str_app_nil|].
  rewrite candidate_S. destruct (next_name_extends us (candidate us name k)) as [t ->].
  exists (s +:+ t). by rewrite IH, str_app_assoc.
Qed.

(** As many candidates as one likes exist only in a directory with that many entries. *)
Lemma candidates_exist us name k (entries : gset string) :
  (∀ j, (j < k)%nat → candidate us name j ∈ entries) → (k ≤ size entries)%nat.
Proof.
  intros H. set (l := candidate us name <$> seq 0 k).
  assert (NoDup l) as Hl by (apply NoDup_fmap_2; [apply _|apply NoDup_seq]).
  replace k with (size (list_to_set l : gset string)).
  - apply subseteq_size. intros x Hx. apply elem_of_list_to_set, list_elem_of_fmap in Hx as (j & -> & Hj).
    apply H. apply elem_of_seq in Hj. lia.
  - rewrite size_list_to_set by done. unfold l. by rewrite length_fmap, length_seq.
Qed.

Lemma find_report_dir_from fuel us name k (entries : gset string) :
  (∀ j, (j < k)%nat → candidate us name j ∈ entries) → (size entries < fuel + k)%nat →
  ∃ n, find_report_dir fuel (Trying us (candidate us name k)) entries = Ok (candidate us name n, {[candidate us name n]} ∪ entries)
    ∧ candidate us name n ∉ entries.
Proof.
  induction fuel as [|fuel IH] in k |- *; intros Hk Hf; [apply candidates_exist in Hk; lia|].
  cbn [find_report_dir mkdir_turn]. destruct (decide (candidate us name k ∈ entries)) as [Hin|Hin]; [|by exists k].
  rewrite <- candidate_S. apply IH; [|lia]. intros j Hj. destruct (decide (j = k)) as [->|]; [done|]. apply Hk. lia.
Qed.

(** A process that runs alone ends with a new directory. *)
Lemma find_report_dir_returns us name (entries : gset string) :
  ∃ n s, find_report_dir (S (size entries)) (Trying us name) entries = Ok (n, {[n]} ∪ entries)
    ∧ n ∉ entries ∧ n = name +:+ s.
Proof.
  destruct (find_report_dir_from (S (size entries)) us name 0 entries) as (k & E & Hk); [lia|lia|].
  destruct (candidate_extends us name k) as [s Hs]. by exists (candidate us name k), s.
Qed.

(** ** The shared directory *)

Definition created_name (ph : phase) : option string :=
  match ph with Created name => Some name | Trying _ _ => None end.
Definition created (phases : list phase) : list string := omap created_name phases.

Lemma created_insert phases i ph name :
  phases !! i = Some ph → created_name ph = None →
  created (<[i := Created name]> phases) ≡ₚ name :: created phases.
Proof.
  intros Hi Hph. apply take_drop_middle in Hi as E. rewrite <- E at 2. rewrite insert_take_drop by (by eapply lookup_lt_Some).
  unfold created. rewrite !omap_app. cbn. rewrite Hph. cbn. symmetry. apply Permutation_middle.
Qed.
Lemma created_insert_trying phases i ph us name :
  phases !! i = Some ph → created_name ph = None → created (<[i := Trying us name]> phases) = created phases.
Proof.
  intros Hi Hph. apply take_drop_middle in Hi as E. rewrite <- E at 2. rewrite insert_take_drop by (by eapply lookup_lt_Some).
  unfold created. rewrite !omap_app. cbn. by rewrite Hph.
Qed.
Lemma created_length phases : (length (created phases) ≤ length phases)%nat.
Proof. unfold created. induction phases as [|[us n|n] phases IH]; cbn; lia. Qed.
Lemma created_length_trying phases i us name :
  phases !! i = Some (Trying us name) → (length (created phases) < length phases)%nat.
Proof.
  intros Hi. apply take_drop_middle in Hi as <-. unfold created. rewrite omap_app, !length_app. cbn.
  pose proof (created_length (take i phases)). pose proof (created_length (drop (S i) phases)). unfold created in *. lia.
Qed.
Lemma created_lookup phases i name : phases !! i = Some (Created name) → name ∈ created phases.
Proof. intros Hi. apply list_elem_of_omap. exists (Created name). split; [by eapply list_elem_of_lookup_2|done]. Qed.
Lemma created_once phases i j name :
  NoDup (created phases) → phases !! i = Some (Created name) → phases !! j = Some (Created name) → i = j.
Proof.
  intros Hnd Hi Hj. apply take_drop_middle in Hi as E. unfold created in Hnd. rewrite <- E, omap_app in Hnd.
  cbn in Hnd. apply NoDup_app in Hnd as (_ & Hl & Hr). apply NoDup_cons in Hr as [Hr _].
  destruct (lt_eq_lt_dec i j) as [[H|H]|H]; [|done|]; exfalso.
  - apply Hr. apply (created_lookup _ (j - S i)). rewrite lookup_drop. by replace (S i + (j - S i))%nat with j by lia.
  - apply (Hl name); [|by left]. apply (created_lookup _ j). by rewrite lookup_take_lt.
Qed.

(** What is in the directory: what was there, and one directory per process that is done. *)
Record shared_ok (entries0 : gset string) (starts : list (Z * string)) (st : shared) : Prop := {
  so_entries : sh_entries st = entries0 ∪ list_to_set (created (sh_phases st));
  so_distinct : NoDup (created (sh_phases st));
  so_fresh : ∀ name, name ∈ created (sh_phases st) → name ∉ entries0;
  so_length : length (sh_phases st) = length starts }.

Lemma take_turn_ok entries0 starts st i : shared_ok entries0 starts st → shared_ok entries0 starts (take_turn st i).
Proof.
  intros [He Hd Hf Hl]. unfold take_turn. destruct (sh_phases st !! i) as [ph|] eqn:Ei; [|by constructor].
  destruct ph as [us name|name]; cbn [mkdir_turn].
  - destruct (decide (name ∈ sh_entries st)) as [Hin|Hin].
    + pose proof (created_insert_trying _ _ _ us (next_name us name) Ei eq_refl) as E.
      constructor; cbn [sh_entries sh_phases]; rewrite ?E; [done..|by rewrite length_insert].
    + pose proof (created_insert _ _ _ name Ei eq_refl) as E.
      constructor; cbn [sh_entries sh_phases].
      * rewrite He, (list_to_set_perm_L _ _ E). set_solver.
      * rewrite E. constructor; [|done]. rewrite He in Hin. set_solver.
      * intros n. rewrite E. intros [->|Hn]%elem_of_cons; [rewrite He in Hin; set_solver|by apply Hf].
      * by rewrite length_insert.
  - rewrite list_insert_id by done. by constructor.
Qed.

(** Where process [i], which started with [name], is after [k] turns. *)
Definition progress_of (us : Z) (name : string) (entries : gset string) (k : nat) (ph : phase) : Prop :=
  match ph with
  | Trying us' name' => us' = us ∧ name' = candidate us name k ∧ ∀ j, (j < k)%nat → candidate us name j ∈ entries
  | Created name' => ∃ j, name' = candidate us name j
  end.

Lemma take_turn_progress us name st i j k ph :
  sh_phases st !! i = Some ph → progress_of us name (sh_entries st) k ph →
  ∃ ph', sh_phases (take_turn st j) !! i = Some ph' ∧
    progress_of us name (sh_entries (take_turn st j)) (if decide (j = i) then S k else k) ph'.
Proof.
  intros Hi Hp. unfold take_turn. destruct (decide (j = i)) as [->|Hne].
  - rewrite Hi. pose proof (lookup_lt_Some _ _ _ Hi) as Hlt. destruct ph as [us' name'|name']; cbn [mkdir_turn].
    + destruct Hp as (-> & -> & Hp). destruct (decide (candidate us name k ∈ sh_entries st)) as [Hin|Hin];
        cbn [sh_phases sh_entries]; rewrite list_lookup_insert_eq by done; eexists; (split; [done|]); cbn [progress_of].
      * split; [done|]. split; [done|]. intros j Hj. destruct (decide (j = k)) as [->|]; [done|]. apply Hp. lia.
      * by exists k.
    + cbn [sh_phases]. rewrite list_lookup_insert_eq by done. by eexists.
  - destruct (sh_phases st !! j) as [ph'|] eqn:Ej; [|by eexists].
    destruct (mkdir_turn ph' (sh_entries st)) as [ph'' entries] eqn:E. cbn [sh_phases sh_entries].
    rewrite list_lookup_insert_ne by done. exists ph. split; [done|].
    destruct ph as [us' name'|name']; [|done]. destruct Hp as (-> & -> & Hp). split; [done|]. split; [done|].
    intros l Hl. specialize (Hp l Hl). unfold mkdir_turn in E. destruct ph'; [destruct (decide _)|]; injection E as <- <-; set_solver.
Qed.

Definition turns_of (i : nat) (turns : list nat) : nat := length (List.filter (Nat.eqb i) turns).
Definition starting (starts : list (Z * string)) : list phase := map (λ '(us, name), Trying us name) starts.

Lemma run_turns_ok entries0 starts turns st :
  shared_ok entries0 starts st → shared_ok entries0 starts (run_turns turns st).
Proof. revert st. induction turns as [|i turns IH]; intros st H; [done|]. by apply IH, take_turn_ok. Qed.

Lemma run_turns_progress us name turns i k ph st :
  sh_phases st !! i = Some ph → progress_of us name (sh_entries st) k ph →
  ∃ ph', sh_phases (run_turns turns st) !! i = Some ph' ∧
    progress_of us name (sh_entries (run_turns turns st)) (turns_of i turns + k) ph'.
Proof.
  revert k ph st. induction turns as [|j turns IH]; intros k ph st Hi Hp; [by eexists|].
  destruct (take_turn_progress us name st i j k ph Hi Hp) as (ph1 & Hi1 & Hp1).
  destruct (IH _ _ _ Hi1 Hp1) as (ph2 & Hi2 & Hp2). exists ph2. split; [done|]. cbn [run_turns fold_left].
  replace (turns_of i (j :: turns) + k)%nat with (turns_of i turns + (if decide (j = i) then S k else k))%nat; [done|].
  unfold turns_of. cbn [List.filter]. destruct (decide (j = i)) as [->|Hne].
  - rewrite Nat.eqb_refl. cbn. lia.
  - assert (Nat.eqb i j = false) as -> by (apply Nat.eqb_neq; congruence). done.
Qed.

(** C26: Every report gets a directory of its own, however the processes that share the results are
    interleaved: directories that are created are new, pairwise distinct and named after
    the start name of their process, and a process that had as many turns as there were
    entries and processes has its directory. *)
Theorem reports_get_their_own_directory entries0 starts turns :
  let st := run_turns turns (mkShared entries0 (starting starts)) in
  (∀ i j n m, sh_phases st !! i = Some (Created n) → sh_phases st !! j = Some (Created m) → i ≠ j → n ≠ m) ∧
  (∀ i n, sh_phases st !! i = Some (Created n) → n ∉ entries0 ∧ n ∈ sh_entries st ∧
     ∃ us name s, starts !! i = Some (us, name) ∧ n = name +:+ s) ∧
  (∀ i, (i < length starts)%nat → (size entries0 + length starts ≤ turns_of i turns)%nat →
     ∃ n, sh_phases st !! i = Some (Created n)).
Proof.
  intros st. assert (Hok : shared_ok entries0 starts st).
  { apply run_turns_ok. assert (created (starting starts) = []) as E by (unfold created; induction starts as [|[] ? IH]; done).
    constructor; cbn [sh_entries sh_phases]; rewrite ?E; [set_solver|constructor|by intros ? ?%elem_of_nil|by apply length_map]. }
  assert (Hprog : ∀ i us name, starts !! i = Some (us, name) → ∃ ph, sh_phases st !! i = Some ph ∧
            progress_of us name (sh_entries st) (turns_of i turns) ph).
  { intros i us name Hi.
    destruct (run_turns_progress us name turns i 0 (Trying us name) (mkShared entries0 (starting starts)))
      as (ph & Hph & Hp); [|repeat split; lia|by rewrite Nat.add_0_r in Hp; exists ph].
    cbn [sh_phases]. unfold starting. change map with (@fmap list _). by rewrite list_lookup_fmap, Hi. }
  destruct Hok as [He Hd Hf Hl]. split; [|split].
  - intros i j n m Hi Hj Hij ->. by destruct Hij; eapply created_once.
  - intros i n Hi. pose proof (created_lookup _ _ _ Hi) as Hn.
    split; [by apply Hf|]. split; [rewrite He; set_solver|].
    destruct (lookup_lt_is_Some_2 starts i) as [[us name] Hs]; [rewrite <- Hl; by eapply lookup_lt_Some|].
    destruct (Hprog _ _ _ Hs) as (ph & Hph & Hp). rewrite Hi in Hph. injection Hph as <-. destruct Hp as [k ->].
    destruct (candidate_extends us name k) as [s ->]. by exists us, name, s.
  - intros i Hlt Hturns. destruct (lookup_lt_is_Some_2 starts i Hlt) as [[us name] Hs].
    destruct (Hprog _ _ _ Hs) as (ph & Hph & Hp). destruct ph as [us' name'|n]; [|by exists n].
    destruct Hp as (_ & _ & Hp). apply candidates_exist in Hp. exfalso.
    apply created_length_trying in Hph. rewrite He, size_union, size_list_to_set in Hp by (done || set_solver). lia.
Qed.

(** ** The files of a report *)

Notation files_of := (gmap string string).

(** One step: [run] of [cp], of [cp -r] and of [objdump] into a file, which ignore a failure;
    [shutil.copyfile] and the assertions, which do not; and the blank log. *)
Inductive report_op :=
  | Cp (source destination : string)
  | CpTree (source destination : string)
  | Objdump (source destination : string)
  | CopyFile (source destination : string)
  | AssertFile (name : string)
  | BlankLog (name message : string).

(** The part of a path below a directory. *)
Definition below (dir path : string) : option string := match_lit (dir +:+ "/") path.

Section reports.
Context (objdump : option string → string).

Definition run_report_op (op : report_op) (fs : files_of) : result files_of :=
  match op with
  | Cp source destination =>
      Ok (match fs !! source with Some text => <[destination := text]> fs | None => fs end)
  | CpTree source destination =>
      Ok (list_to_map (omap (λ '(path, text), rest ← below source path; Some (destination +:+ "/" +:+ rest, text))
                         (map_to_list fs)) ∪ fs)
  | Objdump source destination => Ok (<[destination := objdump (fs !! source)]> fs)
  | CopyFile source destination =>
      text ← from_option IOError (fs !! source); Ok (<[destination := text]> fs)
  | AssertFile name => assert_ (bool_decide (is_Some (fs !! name))) AssertionError;; Ok fs
  | BlankLog name message =>
      Ok (match fs !! name with Some _ => fs | None => <[name := message +:+ newline]> fs end)
  end.

(** The configuration, and what the report is about. *)
Record report_conf := mkReportConf {
  rc_debug_dir : string; rc_test_case : string; rc_result_dir : string; rc_process_run : string; rc_config_path : string;
  rc_no_priming : bool; rc_debug : bool; rc_save_checkpoints : bool; rc_cross_test_case : bool; rc_ipc : bool }.
Record report_case := mkReportCase {
  rp_test_input : string; rp_base_input : string; rp_ref_input : string; rp_executor_base_input : string;
  rp_round : Z; rp_head_input : bool; rp_single_run : bool }.

Definition debug_file (c : report_conf) (name : string) : string :=
  rc_debug_dir c +:+ "/" +:+ rc_test_case c +:+ "/" +:+ name.
Definition of_input (name : string) (round : Z) (input suffix : string) : string :=
  name +:+ "_" +:+ str round +:+ "_" +:+ input +:+ suffix.

(** The file of input 1 (the tested one) and of input 2 (the reference), of their rounds. *)
Definition cp_pair (c : report_conf) (p : report_case) (loc name suffix : string) (round1 round2 : Z) (dst suffix' : string)
    : list report_op :=
  [Cp (debug_file c (of_input name round1 (rp_test_input p) suffix)) (loc +:+ "/" +:+ dst +:+ "1" +:+ suffix');
   Cp (debug_file c (of_input name round2 (rp_ref_input p) suffix)) (loc +:+ "/" +:+ dst +:+ "2" +:+ suffix')].

(** Primed runs have the round -1. *)
Definition ref_round (c : report_conf) (p : report_case) : Z :=
  if negb (rp_single_run p) && negb (rc_no_priming c) then -1 else rp_round p.

Definition input_ops (c : report_conf) (p : report_case) (loc : string) : list report_op :=
  if negb (rp_single_run p) && negb (rc_no_priming c) then
    map (λ name, CopyFile (debug_file c ("inputpickle_" +:+ name +:+ ".pkl")) (loc +:+ "/inputpickle_" +:+ name +:+ ".pkl"))
      ["primer"; "reference"]
  else if negb (rp_single_run p) then
    [AssertFile (debug_file c (of_input "inputpickle" (rp_round p) (rp_test_input p) ".pkl"));
     AssertFile (debug_file c (of_input "inputpickle" (rp_round p) (rp_ref_input p) ".pkl"))]
    ++ cp_pair c p loc "inputpickle" ".pkl" (rp_round p) (rp_round p) "inputpickle_input" ".pkl"
  else [].

Definition checkpoint_ops (c : report_conf) (p : report_case) (loc : string) : list report_op :=
  if rc_save_checkpoints c && negb (rp_head_input p)
  then [Cp (debug_file c (of_input "checkpoint" (rp_round p) (rp_base_input p) "")) (loc +:+ "/cpt_base")]
  else if rc_cross_test_case c && (1 <? rp_round p)
  then [Cp (debug_file c (of_input "checkpoint" (rp_round p - 1) (rp_executor_base_input p) "")) (loc +:+ "/cpt_base")]
  else [].

Definition log_ops (c : report_conf) (p : report_case) (loc : string) : list report_op :=
  let log1 := debug_file c (of_input "log" (rp_round p) (rp_test_input p) ".out") in
  let log2 := debug_file c (of_input "log" (ref_round c p) (rp_ref_input p) ".out") in
  let blank input := "Blank log file from test case " +:+ rc_test_case c +:+ ", input pair " +:+ str (rp_round p)
                       +:+ "_" +:+ input in
  [BlankLog log1 (blank (rp_test_input p)); BlankLog log2 (blank (rp_ref_input p));
   Cp log1 (loc +:+ "/log_input1.out"); Cp log2 (loc +:+ "/log_input2.out")].

Definition test_case_ops (c : report_conf) (p : report_case) (loc : string) : list report_op :=
  let round := rp_round p in
  if rc_ipc c then
    map (λ n, Cp (debug_file c "test_case.asm") (loc +:+ "/test_case_rvzr_input" +:+ n +:+ ".asm")) ["1"; "2"]
  else
    cp_pair c p loc "test_case_rvzr" ".asm" round round "test_case_rvzr_input" ".asm"
    ++ cp_pair c p loc "test_case" ".asm" round round "test_case_input" ".asm"
    ++ cp_pair c p loc "test_case" ".out" round round "test_case_input" ".out"
    ++ map (λ n, Objdump (loc +:+ "/test_case_input" +:+ n +:+ ".out") (loc +:+ "/test_case_input" +:+ n +:+ ".dump"))
         ["1"; "2"].

Definition report_ops (c : report_conf) (p : report_case) (loc : string) : list report_op :=
  let round := rp_round p in
  [CpTree (rc_debug_dir c +:+ "/bugs") (loc +:+ "_bugs")]
  ++ input_ops c p loc
  ++ (if rc_debug c then cp_pair c p loc "CTrace" ".out" round round "CTrace_input" ".out" else [])
  ++ checkpoint_ops c p loc
  ++ log_ops c p loc
  ++ cp_pair c p loc "config" ".ini" round (ref_round c p) "config_input" ".ini"
  ++ cp_pair c p loc "gem5out" ".out" round (ref_round c p) "gem5out_input" ".out"
  ++ cp_pair c p loc "stats" ".txt" round (ref_round c p) "stats_input" ".txt"
  ++ test_case_ops c p loc
  ++ cp_pair c p loc "cache_tags" "" round (ref_round c p) "cache_tags_" ""
  ++ [Cp (rc_config_path c) (loc +:+ "/configuration.yaml")].

(** [copy_debug_files]: the elapsed time, the names in the directory of the results and the files;
    the executor first writes the files it keeps in memory. *)
Definition copy_debug_files (c : report_conf) (p : report_case) (delta : Z) (entries : gset string) (fs : files)
    : result (string * gset string * files) :=
  '(name, entries) ← find_report_dir (S (size entries))
      (Trying (td_microseconds delta) (report_name (rc_process_run c) (rp_single_run p) delta)) entries;
  let report_dir := (rc_result_dir c +:+ "results/") +:+ name in
  fs ← for_each run_report_op (report_ops c p report_dir) (disk (write_debug_files fs));
  Ok (report_dir, entries, mkFiles fs ∅).

(** ** [input_dump], and the dump of a primed violation *)

Context {Input : Type} (printed : Input → string) (pickle : list Input → string).

Definition input_dump (c : report_conf) (inputs : list Input) (round : Z) (fs : files_of) : files_of :=
  fold_left (λ fs input, <[debug_file c (of_input "inputpickle" round (printed input) ".pkl") := pickle [input]]> fs)
    inputs fs.
Definition priming_dump (c : report_conf) (primer reference : list Input) (fs : files_of) : files_of :=
  <[debug_file c "inputpickle_reference.pkl" := pickle reference]>
    (<[debug_file c "inputpickle_primer.pkl" := pickle primer]> fs).
End reports.

(** ** Reports do not fail *)

Section report_facts.
Context (objdump : option string → string).

(** The files a step cannot do without, the file it writes, and the log it may fill. *)
Definition needs (op : report_op) : list string :=
  match op with CopyFile source _ => [source] | AssertFile name => [name] | _ => [] end.
Definition written (op : report_op) : option string :=
  match op with
  | Cp _ destination | Objdump _ destination | CopyFile _ destination => Some destination
  | CpTree _ _ | AssertFile _ | BlankLog _ _ => None
  end.
Definition in_tree (op : report_op) (f : string) : Prop :=
  match op with CpTree _ destination => ∃ rest, f = destination +:+ "/" +:+ rest | _ => False end.
Definition blanked (op : report_op) : option string := match op with BlankLog name _ => Some name | _ => None end.

Lemma tree_lookup source destination (fs : files_of) f :
  ¬ in_tree (CpTree source destination) f →
  (list_to_map (omap (λ '(path, text), rest ← below source path; Some (destination +:+ "/" +:+ rest, text))
                  (map_to_list fs)) ∪ fs : files_of) !! f = fs !! f.
Proof.
  intros Hf. apply lookup_union_r, not_elem_of_list_to_map. intros ([f' text] & -> & Hin)%list_elem_of_fmap.
  apply list_elem_of_omap in Hin as ([path text'] & _ & E). destruct (below source path) as [rest|]; [|done].
  injection E as <- <-. apply Hf. by exists rest.
Qed.

(** A step leaves alone a file it does not write, if the file exists or is no log. *)
Lemma run_op_other op fs fs' f :
  run_report_op objdump op fs = Ok fs' → written op ≠ Some f → ¬ in_tree op f →
  blanked op ≠ Some f ∨ is_Some (fs !! f) → fs' !! f = fs !! f.
Proof.
  intros H Hw Ht Hb. destruct op; cbn in H, Hw, Ht, Hb; inv_ok; simplify_eq/=.
  - destruct (fs !! source); [|done]. apply lookup_insert_ne. congruence.
  - by apply (tree_lookup source destination).
  - apply lookup_insert_ne. congruence.
  - apply lookup_insert_ne. congruence.
  - done.
  - destruct (fs !! name) eqn:E; [done|]. destruct (decide (name = f)) as [->|]; [|by apply lookup_insert_ne].
    destruct Hb as [Hb|[t Ht']]; congruence.
Qed.

Lemma run_op_exists op fs fs' f :
  run_report_op objdump op fs = Ok fs' → is_Some (fs !! f) → is_Some (fs' !! f).
Proof.
  intros H Hf. destruct op; unfold run_report_op in H; inv_ok; simplify_eq; try done.
  - destruct (fs !! source); [apply lookup_insert_is_Some'; by right|done].
  - apply lookup_union_is_Some. by right.
  - apply lookup_insert_is_Some'. by right.
  - apply lookup_insert_is_Some'. by right.
  - destruct (fs !! name); [done|]. apply lookup_insert_is_Some'. by right.
Qed.

Lemma run_ops_succeed ops fs :
  (∀ op f, op ∈ ops → f ∈ needs op → is_Some (fs !! f)) → ∃ fs', for_each (run_report_op objdump) ops fs = Ok fs'.
Proof.
  induction ops as [|op ops IH] in fs |- *; intros Hn; [by eexists|]. cbn [for_each].
  assert (∃ fs', run_report_op objdump op fs = Ok fs') as [fs1 E].
  { destruct op; cbn; try by eexists.
    - destruct (Hn _ source (list_elem_of_here _ _)) as [t ->]; [by left|]. by eexists.
    - rewrite bool_decide_true; [by eexists|]. apply (Hn (AssertFile name)); by left. }
  rewrite E. cbn. apply IH. intros op' f Hop Hf. eapply run_op_exists; [done|]. eapply Hn; [by right|done].
Qed.

Lemma run_ops_other ops fs fs' f :
  for_each (run_report_op objdump) ops fs = Ok fs' →
  (∀ op, op ∈ ops → written op ≠ Some f ∧ ¬ in_tree op f) →
  (∀ op, op ∈ ops → blanked op ≠ Some f) ∨ is_Some (fs !! f) → fs' !! f = fs !! f.
Proof.
  induction ops as [|op ops IH] in fs |- *; intros H Hw Hb; cbn in H; inv_ok; [done|].
  destruct (Hw op (list_elem_of_here _ _)) as [Hw1 Ht1].
  assert (E : a !! f = fs !! f).
  { eapply run_op_other; eauto. destruct Hb as [Hb|Hb]; [left; apply Hb; by left|by right]. }
  rewrite <- E. apply IH; [done| |].
  - intros op' Hop. apply Hw. by right.
  - destruct Hb as [Hb|Hb]; [left; intros op' Hop; apply Hb; by right|right; by rewrite E].
Qed.

(** A file that is copied once, and from a file that is not written, arrives. *)
Lemma run_ops_copy ops fs fs' source destination text :
  for_each (run_report_op objdump) ops fs = Ok fs' → Cp source destination ∈ ops →
  NoDup (omap written ops) → (∀ op, op ∈ ops → written op ≠ Some source) →
  (∀ op, op ∈ ops → ¬ in_tree op source ∧ ¬ in_tree op destination) →
  (∀ op, op ∈ ops → blanked op ≠ Some destination) →
  fs !! source = Some text → fs' !! destination = Some text.
Proof.
  intros H Hin Hnd Hw Ht Hb Hs. apply list_elem_of_split in Hin as (pre & post & ->).
  rewrite for_each_app in H. apply bind_Ok in H as (fs1 & H1 & H). cbn [for_each] in H.
  apply bind_Ok in H as (fs2 & H2 & H). unfold run_report_op in H2. injection H2 as <-.
  assert (E : fs1 !! source = Some text).
  { rewrite <- Hs. eapply run_ops_other; [done| |right; by eexists].
    intros op Hop. split; [apply Hw|apply Ht]; apply elem_of_app; by left. }
  rewrite E in H. rewrite omap_app in Hnd. cbn in Hnd. apply NoDup_app in Hnd as (_ & _ & Hnd).
  apply NoDup_cons in Hnd as [Hnd _].
  rewrite (run_ops_other post _ _ destination H); [by rewrite lookup_insert_eq| |left].
  - intros op Hop. split; [|apply Ht; apply elem_of_app; right; by right].
    intros Hop'. apply Hnd. apply list_elem_of_omap. by exists op.
  - intros op Hop. apply Hb. apply elem_of_app. right. by right.
Qed.
End report_facts.

(** ** What a report holds *)

Section contents.
Context (objdump : option string → string) (c : report_conf) (p : report_case).

Lemma report_ops_places loc op :
  op ∈ report_ops c p loc →
  (∀ f, written op = Some f → ∃ s, f = loc +:+ s) ∧ (∀ f, in_tree op f → ∃ s, f = loc +:+ String "_" s) ∧
  (∀ f, blanked op = Some f → ∃ a, f = debug_file c a).
Proof.
  revert op. apply Forall_forall. unfold report_ops, input_ops, checkpoint_ops, log_ops, test_case_ops, cp_pair.
  repeat apply Forall_app_2; repeat case_match; repeat apply Forall_cons_2; try apply Forall_nil_2; cbn [written in_tree blanked];
    (split; [|split]); try done; try (intros f [= <-]; by eexists).
  intros f [rest ->]. exists ("bugs/" +:+ rest). by rewrite str_app_assoc.
Qed.

Lemma report_ops_destinations loc :
  omap written (report_ops c p loc) = map (String.append loc) (omap written (report_ops c p "")).
Proof.
  unfold report_ops, input_ops, checkpoint_ops, log_ops, test_case_ops.
  destruct (negb (rp_single_run p) && negb (rc_no_priming c)), (negb (rp_single_run p)), (rc_debug c),
    (rc_save_checkpoints c && negb (rp_head_input p)), (rc_cross_test_case c && (1 <? rp_round p)), (rc_ipc c); reflexivity.
Qed.

Lemma report_destinations_NoDup : NoDup (omap written (report_ops c p "")).
Proof.
  unfold report_ops, input_ops, checkpoint_ops, log_ops, test_case_ops.
  destruct (negb (rp_single_run p) && negb (rc_no_priming c)), (negb (rp_single_run p)), (rc_debug c),
    (rc_save_checkpoints c && negb (rp_head_input p)), (rc_cross_test_case c && (1 <? rp_round p)), (rc_ipc c);
    apply (bool_decide_unpack _); vm_compute; exact I.
Qed.

(** The files of both inputs a report always has: their name, its end, the name in the report. *)
Definition report_kinds : list (string * string * string * string) :=
  [("log", ".out", "log_input", ".out"); ("config", ".ini", "config_input", ".ini");
   ("gem5out", ".out", "gem5out_input", ".out"); ("stats", ".txt", "stats_input", ".txt");
   ("cache_tags", "", "cache_tags_", "")].

Lemma report_kinds_copied loc name suffix dst suffix' :
  (name, suffix, dst, suffix') ∈ report_kinds →
  ∀ op, op ∈ cp_pair c p loc name suffix (rp_round p) (ref_round c p) dst suffix' → op ∈ report_ops c p loc.
Proof.
  intros Hk op Hop. unfold report_ops, log_ops. rewrite !elem_of_app.
  repeat (apply elem_of_cons in Hk as [[= -> -> -> ->]|Hk]; [|]); [| | | | |by apply elem_of_nil in Hk]; try tauto.
  do 4 right. left. apply elem_of_cons in Hop as [->|Hop]; [do 2 right; by left|].
  apply list_elem_of_singleton in Hop as ->. do 3 right. by left.
Qed.

(** The files a report cannot do without: the pickles of the inputs. *)
Definition pickles_written (fs : files_of) : Prop :=
  rp_single_run p = true ∨
  if rc_no_priming c
  then is_Some (fs !! debug_file c (of_input "inputpickle" (rp_round p) (rp_test_input p) ".pkl")) ∧
       is_Some (fs !! debug_file c (of_input "inputpickle" (rp_round p) (rp_ref_input p) ".pkl"))
  else is_Some (fs !! debug_file c "inputpickle_primer.pkl") ∧ is_Some (fs !! debug_file c "inputpickle_reference.pkl").

Lemma report_needs loc fs op f :
  pickles_written fs → op ∈ report_ops c p loc → f ∈ needs op → is_Some (fs !! f).
Proof.
  intros Hp. revert op. apply (proj1 (Forall_forall (λ op, f ∈ needs op → is_Some (fs !! f)) _)).
  unfold report_ops. repeat apply Forall_app_2.
  2: { unfold input_ops, pickles_written in *.
       destruct (rp_single_run p), (rc_no_priming c); cbn [negb andb map app cp_pair];
         repeat apply Forall_cons_2; try apply Forall_nil_2; cbn [needs]; try (by intros ?%elem_of_nil);
         destruct Hp as [|[? ?]]; try done; by intros ->%list_elem_of_singleton. }
  all: unfold checkpoint_ops, log_ops, test_case_ops, cp_pair; repeat case_match; repeat apply Forall_app_2;
    repeat apply Forall_cons_2; try apply Forall_nil_2; cbn [needs]; by intros ?%elem_of_nil.
Qed.

Lemma report_copies loc fs fs' a b text :
  for_each (run_report_op objdump) (report_ops c p loc) fs = Ok fs' →
  (∀ a b, debug_file c a ≠ loc +:+ b) → Cp (debug_file c a) (loc +:+ "/" +:+ b) ∈ report_ops c p loc →
  fs !! debug_file c a = Some text → fs' !! (loc +:+ "/" +:+ b) = Some text.
Proof.
  intros E Hsep Hin Ha. eapply run_ops_copy; [exact E|exact Hin| | | | |exact Ha].
  - rewrite report_ops_destinations. change map with (@fmap list _).
    apply NoDup_fmap_2; [intros x y; apply str_app_inj_l|apply report_destinations_NoDup].
  - intros op Hop Hw. apply (report_ops_places loc op Hop) in Hw as [d Hd]. by apply (Hsep a d).
  - intros op Hop. destruct (report_ops_places loc op Hop) as (_ & Ht & _). split.
    + intros [d Hd]%Ht. by apply (Hsep a (String "_" d)).
    + intros [d Hd%str_app_inj_l]%Ht. discriminate.
  - intros op Hop Hb. apply (report_ops_places loc op Hop) in Hb as [d Hd]. by apply (Hsep d ("/" +:+ b)).
Qed.

Lemma report_keeps loc fs fs' a text :
  for_each (run_report_op objdump) (report_ops c p loc) fs = Ok fs' →
  (∀ a b, debug_file c a ≠ loc +:+ b) → fs !! debug_file c a = Some text → fs' !! debug_file c a = Some text.
Proof.
  intros E Hsep Ha. rewrite <- Ha. eapply run_ops_other; [exact E| |right; by eexists].
  intros op Hop. destruct (report_ops_places loc op Hop) as (Hw & Ht & _). split.
  - intros [b Hb]%Hw. by apply (Hsep a b).
  - intros [b Hb]%Ht. by apply (Hsep a (String "_" b)).
Qed.

(** The directory of the report is new; what it needs being written, the report does not
    fail; and the report has, for every kind of file, the file of the tested input under the number 1
    and the file of the reference under the number 2, where they exist, and the debug files
    are as they were.  The directory of the debug files is not below the report. *)
Lemma report_has_the_files delta entries fs :
  (∀ a b, debug_file c a ≠ (rc_result_dir c +:+ "results/") +:+ b) →
  pickles_written (view fs) →
  ∃ name fs', let loc := (rc_result_dir c +:+ "results/") +:+ name in
    copy_debug_files objdump c p delta entries fs = Ok (loc, {[name]} ∪ entries, mkFiles fs' ∅) ∧ name ∉ entries ∧
    (∀ a text, view fs !! debug_file c a = Some text → fs' !! debug_file c a = Some text) ∧
    ∀ kind suffix dst suffix' text, (kind, suffix, dst, suffix') ∈ report_kinds →
      (view fs !! debug_file c (of_input kind (rp_round p) (rp_test_input p) suffix) = Some text →
       fs' !! (loc +:+ "/" +:+ dst +:+ "1" +:+ suffix') = Some text) ∧
      (view fs !! debug_file c (of_input kind (ref_round c p) (rp_ref_input p) suffix) = Some text →
       fs' !! (loc +:+ "/" +:+ dst +:+ "2" +:+ suffix') = Some text).
Proof.
  intros Hsep Hp. unfold copy_debug_files.
  destruct (find_report_dir_returns (td_microseconds delta)
              (report_name (rc_process_run c) (rp_single_run p) delta) entries) as (name & s & -> & Hnew & _).
  cbn [mbind result_bind]. set (loc := (rc_result_dir c +:+ "results/") +:+ name).
  change (disk (write_debug_files fs)) with (view fs).
  assert (Hsep' : ∀ a b, debug_file c a ≠ loc +:+ b) by (intros a b; unfold loc; rewrite str_app_assoc; apply Hsep).
  destruct (run_ops_succeed objdump (report_ops c p loc) (view fs)) as [fs' E].
  { intros op f. by apply report_needs. }
  exists name, fs'. fold loc. cbv zeta. rewrite E. split; [done|]. split; [done|]. split.
  { intros a text. by eapply report_keeps. }
  intros kind suffix dst suffix' text Hk.
  pose proof (report_kinds_copied loc kind suffix dst suffix' Hk) as Hops.
  split; intros Ha; (eapply report_copies; [exact E|exact Hsep'| |exact Ha]); apply Hops; [by left|right; by left].
Qed.
End contents.

(** What is dumped before a report is what the report needs. *)
Section dumps.
Context {Input : Type} (printed : Input → string) (pickle : list Input → string) (c : report_conf).

Lemma input_dump_writes inputs round fs input :
  input ∈ inputs ∨ is_Some (fs !! debug_file c (of_input "inputpickle" round (printed input) ".pkl")) →
  is_Some (input_dump printed pickle c inputs round fs !! debug_file c (of_input "inputpickle" round (printed input) ".pkl")).
Proof.
  unfold input_dump. induction inputs as [|i inputs IH] in fs |- *; cbn [fold_left].
  - by intros [?%elem_of_nil|?].
  - intros [[->|Hi]%elem_of_cons|Hs]; apply IH; [right|by left|right].
    + by rewrite lookup_insert_eq.
    + apply lookup_insert_is_Some'. by right.
Qed.

Lemma dumps_suffice p inputs primer reference test_input ref_input fs :
  rp_test_input p = printed test_input → rp_ref_input p = printed ref_input →
  test_input ∈ inputs → ref_input ∈ inputs →
  pickles_written c p
    (if rc_no_priming c then input_dump printed pickle c inputs (rp_round p) fs
     else priming_dump pickle c primer reference fs).
Proof.
  intros Ht Hr Hit Hir. right. rewrite Ht, Hr. destruct (rc_no_priming c).
  - split; apply input_dump_writes; by left.
  - unfold priming_dump. split; [apply lookup_insert_is_Some'; right|]; by rewrite lookup_insert_eq.
Qed.
End dumps.

(** ** Two fuzzers that report in the same second, and the report of one of them *)
Module ReportDemo.
Definition starts : list (Z * string) := [(7, "0hrs-00mins-05secs"); (7, "0hrs-00mins-05secs"); (9, "0hrs-00mins-05secs")].
Definition turns : list nat := [0; 1; 2; 1; 2; 1; 2; 1; 2]%nat.
Definition st : shared := run_turns turns (mkShared ∅ (starting starts)).
Definition conf : report_conf := mkReportConf "debug" "one" "out/" "" "conf.yaml" false false false false true.
Definition case : report_case := mkReportCase "5" "6" "6" "" 3 true false.
Definition disk : gmap string string :=
  list_to_map [("debug/one/inputpickle_primer.pkl", "P"); ("debug/one/inputpickle_reference.pkl", "R");
               ("debug/one/log_3_5.out", "tested"); ("debug/one/log_-1_6.out", "reference")].
End ReportDemo.

Example names_created :
  sh_phases ReportDemo.st = [Created "0hrs-00mins-05secs"; Created "0hrs-00mins-05secs-000007us";
                             Created "0hrs-00mins-05secs-000009us"].
Proof. by vm_compute. Qed.

(** Names of the third attempt and the fourth: the test for the end of the name matches every second time. *)
Example candidate_names :
  map (candidate 7 "t") (seq 0 5) = ["t"; "t-000007us"; "t-000007us_"; "t-000007us_-000007us"; "t-000007us_-000007us_"].
Proof. by vm_compute. Qed.

Lemma reports_get_their_own_directory_witness :
  (∃ n, sh_phases ReportDemo.st !! 1%nat = Some (Created n)) ∧
  (∀ i j n m, sh_phases ReportDemo.st !! i = Some (Created n) → sh_phases ReportDemo.st !! j = Some (Created m) →
     i ≠ j → n ≠ m).
Proof.
  destruct (reports_get_their_own_directory ∅ ReportDemo.starts ReportDemo.turns) as (H1 & _ & H3).
  split; [|exact H1]. apply H3; vm_compute; lia.
Defined.

Lemma report_has_the_files_witness :
  ∃ name fs', let loc := "out/results/" +:+ name in
    copy_debug_files (λ _, "") ReportDemo.conf ReportDemo.case 5000000 {["0hrs-00mins-05secs"]} (mkFiles ReportDemo.disk ∅)
      = Ok (loc, {[name; "0hrs-00mins-05secs"]}, mkFiles fs' ∅) ∧
    name ≠ "0hrs-00mins-05secs" ∧
    fs' !! (loc +:+ "/log_input1.out") = Some "tested" ∧ fs' !! (loc +:+ "/log_input2.out") = Some "reference".
Proof.
  destruct (report_has_the_files (λ _, "") ReportDemo.conf ReportDemo.case 5000000 {["0hrs-00mins-05secs"]}
              (mkFiles ReportDemo.disk ∅)) as (name & fs' & E & Hn & _ & H).
  - intros a b Hab. discriminate.
  - right. unfold view. cbn [DebugFiles.disk debug_files]. rewrite (left_id_L ∅ _). vm_compute. split; by eexists.
  - exists name, fs'. cbv zeta in *. split; [exact E|]. split; [intros ->; by apply Hn, elem_of_singleton|].
    destruct (H "log" ".out" "log_input" ".out" "tested" ltac:(by left)) as [H1 _].
    destruct (H "log" ".out" "log_input" ".out" "reference" ltac:(by left)) as [_ H2].
    split; [apply H1|apply H2]; vm_compute; reflexivity.
Defined.
