(* ===== verification/CacheTrace.v ===== *)
(** * Hardware traces

    [get_raw_trace] and [get_trace] of [src/src/executor.py]: the microarchitectural
    state gem5 reports for a run, read from its TOML file, becomes the list that is
    hashed into the hardware trace. Parsing TOML and the hash are libraries. *)

From S2P Require Import Prelude Util Text Config.

Open Scope Z_scope.

(** ** The tags file *)

(** A parsed TOML value; a table keeps the order of its keys. *)
Inductive toml :=
  | TStr (s : string)
  | TTable (entries : list (string * toml)).

(** [t[key]] and [key in t.keys()] *)
Definition toml_get (t : toml) (key : string) : result toml :=
  match t with
  | TTable es => from_option KeyError (dict_get key es)
  | TStr _ => Raise TypeError
  end.
Definition toml_path (t : toml) (path : list string) : result toml :=
  for_each (λ key t, toml_get t key) path t.
Definition toml_has (t : toml) (path : list string) : bool := succeeds (toml_path t path).

(** [[int(x) for x in t[...].split()]] *)
Definition int_list (t : toml) (path : list string) : result (list Z) :=
  v ← toml_path t path;
  match v with TStr s => mapM py_int (words s) | TTable _ => Raise AttributeError end.

(** ** One source *)

(** What the trace of a run consists of. *)
Inductive trace_item := TInt (n : Z) | TData (t : toml).

(** The options the traces depend on. *)
Record trace_conf := mkTraceConf {
  tc_ipc : bool;
  tc_main_region_size : Z;
  tc_l1d_size : Z;
  tc_l1d_assoc : Z
}.

Section traces.
Variable cfg : trace_conf.

Definition SANDBOX_BASE_PADDR : Z := 0x3000.

(** [process]: a tag of the sandbox keeps its offset; any other keeps the bits that
    select its set, with a marker. *)
Definition process (tag : Z) : Z :=
  let tag := tag - SANDBOX_BASE_PADDR in
  if (0 <=? tag) && (tag <? tc_main_region_size cfg) then tag
  else
    let set_identifier := Z.land tag (tc_l1d_size cfg / tc_l1d_assoc cfg - 1) in
    Z.lor set_identifier (tc_main_region_size cfg).

Definition in_sandbox (tag : Z) : bool :=
  (SANDBOX_BASE_PADDR <=? tag) && (tag <? SANDBOX_BASE_PADDR + tc_main_region_size cfg).

(** A cache's tags: the classic hierarchy, or Ruby's controller. The replacement
    state is asked for with [getattr] on a dict, which never has it. *)
Definition cache_tags (cpu ruby : string) (tags : toml) : result (list Z) :=
  if toml_has tags ["system"; "cpu"; cpu] then int_list tags ["system"; "cpu"; cpu; "addresses"]
  else if toml_has tags ["system"; "ruby"; "l1_cntrl0"; ruby]
  then int_list tags ["system"; "ruby"; "l1_cntrl0"; ruby; "addresses"]
  else Raise SystemExit.

Definition tlb_entries (tags : toml) : result (list Z) :=
  tlb ← toml_path tags ["system"; "cpu"; "dtb"];
  match tlb with
  | TTable es =>
      mapM (λ '(_, e), v ← toml_get e "paddr";
                       match v with TStr s => py_int s | TTable _ => Raise TypeError end)
        (List.filter (λ '(name, _), startswith "Entry" name) es)
  | TStr _ => Raise TypeError
  end.

(** [str.join] over the predictor's entries needs every one to be text. *)
Definition branch_pred_state (tags : toml) : result toml :=
  pred ← toml_path tags ["system"; "cpu"; "branchPred"];
  match pred with
  | TTable es =>
      assert_ (forallb (λ '(_, v), match v with TStr _ => true | TTable _ => false end) es) TypeError;;
      Ok pred
  | TStr _ => Raise AttributeError
  end.

(** [state.sort()] *)
Definition sort_state : list Z → list Z := merge_sort Z.le.

Definition source_trace (tags : toml) (src : string) : result (list trace_item) :=
  if (src =? "data_cache")%string then
    state ← cache_tags "dcache" "L1Dcache" tags;
    let state := if tc_ipc cfg then process <$> state else state in
    Ok (TInt <$> sort_state state)
  else if (src =? "instr_cache")%string then
    state ← cache_tags "icache" "L1Icache" tags; Ok (TInt <$> sort_state state)
  else if (src =? "dtlb")%string then
    state ← tlb_entries tags;
    let state := if tc_ipc cfg then List.filter in_sandbox state else state in
    Ok (TInt <$> sort_state state)
  else if (src =? "branch_pred_state")%string then s ← branch_pred_state tags; Ok [TData s]
  else if mem src ["branch_predictions"; "branch_predictions_timing"] then
    s ← toml_path tags ["branchPredictionLog"; "log"]; Ok [TData s]
  else if mem src ["access_timing"; "access_order"] then
    s ← toml_path tags ["accessLog"; "log"]; Ok [TData s]
  else if (src =? "commit")%string then
    s ← toml_path tags ["commit"; "log"]; Ok [TData s]
  else Raise SystemExit.

(** [get_raw_trace]: the sources of the attacker mode in order, [None] when it names none. *)
Definition get_raw_trace (sources : option (list string)) (tags : toml) : result (list trace_item) :=
  sources ← from_option SystemExit sources;
  parts ← mapM (source_trace tags) sources; Ok (mjoin parts).

(** [get_trace]: [digest] is the 64-bit xxhash of the printed list. *)
Definition get_trace (digest : list trace_item → Z) (sources : option (list string)) (tags : toml)
    : result Z :=
  trace ← get_raw_trace sources tags; Ok (digest trace mod (Z.shiftl 2 64 - 1)).
End traces.

(** ** What two equal traces mean *)

#[export] Instance Zle_total : Total Z.le.
Proof. intros x y. lia. Qed.
#[export] Instance Zle_antisymm : AntiSymm (=) Z.le.
Proof. intros x y. lia. Qed.
#[export] Instance Zle_trans : Transitive Z.le.
Proof. intros x y z. lia. Qed.

(** Sorting forgets the order and nothing else. *)
Lemma sort_state_eq l k : sort_state l = sort_state k ↔ l ≡ₚ k.
Proof.
  unfold sort_state. split.
  - intros H. by rewrite <- (merge_sort_Permutation Z.le l), H, merge_sort_Permutation.
  - intros H. apply (Sorted_unique Z.le).
    + apply Sorted_merge_sort, _.
    + apply Sorted_merge_sort, _.
    + by rewrite !merge_sort_Permutation.
Qed.

#[export] Instance TInt_inj : Inj (=) (=) TInt.
Proof. by intros x y [= ->]. Qed.

Lemma lor_ge a b : 0 ≤ a → 0 ≤ b → b ≤ Z.lor a b.
Proof.
  intros Ha Hb.
  assert (H : Z.lor b a = b + Z.ldiff a b).
  { rewrite <- lor_disjoint_add.
    - apply Z.bits_inj'. intros i Hi. rewrite !Z.lor_spec, Z.ldiff_spec.
      by destruct (Z.testbit a i), (Z.testbit b i).
    - apply Z.bits_inj'. intros i Hi. rewrite Z.land_spec, Z.ldiff_spec, Z.bits_0.
      by destruct (Z.testbit a i), (Z.testbit b i). }
  rewrite Z.lor_comm, H. assert (0 ≤ Z.ldiff a b) by (apply Z.ldiff_nonneg; lia). lia.
Qed.

Section equal.
Variable cfg : trace_conf.
Hypothesis Hsize : 0 < tc_main_region_size cfg.
Hypothesis Hways : 0 < tc_l1d_assoc cfg ≤ tc_l1d_size cfg.

(** The physical addresses of the sandbox's main region. *)
Definition inside (tag : Z) : Prop :=
  SANDBOX_BASE_PADDR ≤ tag < SANDBOX_BASE_PADDR + tc_main_region_size cfg.
#[export] Instance inside_dec tag : Decision (inside tag).
Proof. unfold inside. apply _. Defined.

(** The bits of an address that choose its cache set. *)
Definition set_bits (tag : Z) : Z :=
  Z.land (tag - SANDBOX_BASE_PADDR) (tc_l1d_size cfg / tc_l1d_assoc cfg - 1).

Lemma process_inside tag : inside tag → process cfg tag = tag - SANDBOX_BASE_PADDR.
Proof.
  unfold inside, process. intros H. cbv zeta.
  destruct (Z.leb_spec 0 (tag - SANDBOX_BASE_PADDR)); [|lia].
  by destruct (Z.ltb_spec (tag - SANDBOX_BASE_PADDR) (tc_main_region_size cfg)); [|lia].
Qed.

Lemma process_outside tag : ¬ inside tag → process cfg tag = Z.lor (set_bits tag) (tc_main_region_size cfg).
Proof.
  unfold inside, process. intros H. cbv zeta.
  destruct (Z.leb_spec 0 (tag - SANDBOX_BASE_PADDR)); [|done].
  by destruct (Z.ltb_spec (tag - SANDBOX_BASE_PADDR) (tc_main_region_size cfg)); [lia|].
Qed.

Lemma set_bits_nonneg tag : 0 ≤ set_bits tag.
Proof.
  assert (1 ≤ tc_l1d_size cfg / tc_l1d_assoc cfg) by (apply Z.div_le_lower_bound; lia).
  pose proof (land_nonneg_le (tag - SANDBOX_BASE_PADDR) (tc_l1d_size cfg / tc_l1d_assoc cfg - 1)).
  unfold set_bits. lia.
Qed.

(** Processed tags below the marker are exactly those of the sandbox. *)
Lemma process_small tag : process cfg tag < tc_main_region_size cfg ↔ inside tag.
Proof.
  destruct (decide (inside tag)) as [H|H].
  - rewrite process_inside by done. unfold inside in *. split; [done|lia].
  - rewrite process_outside by done. split; [|done].
    pose proof (lor_ge (set_bits tag) (tc_main_region_size cfg) (set_bits_nonneg tag)). lia.
Qed.

Lemma process_filter (l : list Z) :
  filter (λ x, x < tc_main_region_size cfg) (fmap (M := list) (process cfg) l)
    = (λ tag, tag - SANDBOX_BASE_PADDR) <$> filter inside l
  ∧ filter (λ x, ¬ x < tc_main_region_size cfg) (fmap (M := list) (process cfg) l)
    = (λ tag, Z.lor (set_bits tag) (tc_main_region_size cfg)) <$> filter (λ tag, ¬ inside tag) l.
Proof.
  induction l as [|tag l [IH1 IH2]]; [done|]. rewrite fmap_cons, !filter_cons.
  destruct (decide (inside tag)) as [H|H]; pose proof (process_small tag) as Hs.
  - rewrite !decide_True, !decide_False by tauto. rewrite fmap_cons, IH1, IH2, process_inside by done. done.
  - rewrite !decide_False, !decide_True by tauto. rewrite fmap_cons, IH1, IH2, process_outside by done. done.
Qed.

Lemma processed_permutation (l k : list Z) :
  process cfg <$> l ≡ₚ process cfg <$> k ↔
    filter inside l ≡ₚ filter inside k
    ∧ (λ tag, Z.lor (set_bits tag) (tc_main_region_size cfg)) <$> filter (λ tag, ¬ inside tag) l
      ≡ₚ (λ tag, Z.lor (set_bits tag) (tc_main_region_size cfg)) <$> filter (λ tag, ¬ inside tag) k.
Proof.
  destruct (process_filter l) as [L1 L2], (process_filter k) as [K1 K2]. split.
  - intros H. rewrite <- L2, <- K2. split; [|by rewrite H].
    assert (Hback : ∀ x : list Z,
      (λ y, y + SANDBOX_BASE_PADDR) <$> ((λ tag, tag - SANDBOX_BASE_PADDR) <$> x) = x).
    { intros x. rewrite <- list_fmap_compose. rewrite <- (list_fmap_id x) at 2.
      apply list_fmap_ext. intros i y _. unfold compose. cbn. lia. }
    rewrite <- (Hback (filter inside l)), <- (Hback (filter inside k)), <- L1, <- K1. by rewrite H.
  - intros [Hi Ho].
    rewrite <- (filter_app_complement (λ x, x < tc_main_region_size cfg) (fmap (M := list) (process cfg) l)).
    rewrite <- (filter_app_complement (λ x, x < tc_main_region_size cfg) (fmap (M := list) (process cfg) k)).
    by rewrite L1, L2, K1, K2, Hi, Ho.
Qed.

(** C32: In the IPC mode two runs have equal data-cache traces exactly when the same
    lines of the sandbox are cached and the lines outside it fill the same sets,
    marked: neither the order in which gem5 lists the ways, nor which line outside
    the sandbox was replaced, is observed; a line of the sandbox is never taken for
    one outside. *)
Theorem data_cache_trace_equal tags1 tags2 l1 l2 :
  tc_ipc cfg = true →
  cache_tags "dcache" "L1Dcache" tags1 = Ok l1 → cache_tags "dcache" "L1Dcache" tags2 = Ok l2 →
  get_raw_trace cfg (Some ["data_cache"]) tags1 = get_raw_trace cfg (Some ["data_cache"]) tags2 ↔
    filter inside l1 ≡ₚ filter inside l2
    ∧ (λ tag, Z.lor (set_bits tag) (tc_main_region_size cfg)) <$> filter (λ tag, ¬ inside tag) l1
      ≡ₚ (λ tag, Z.lor (set_bits tag) (tc_main_region_size cfg)) <$> filter (λ tag, ¬ inside tag) l2.
Proof.
  intros Hipc H1 H2. rewrite <- processed_permutation, <- sort_state_eq.
  unfold get_raw_trace. cbn. unfold source_trace. cbn. rewrite H1, H2, Hipc. cbn.
  rewrite !app_nil_r. split; [|by intros ->]. intros [= H]. by apply (inj (fmap TInt)) in H.
Qed.
End equal.

(** The hash is reduced modulo a number above 2^64: nothing is lost. *)
Theorem get_trace_digest cfg digest sources tags :
  (∀ t, 0 ≤ digest t < 2 ^ 64) →
  get_trace cfg digest sources tags = (digest <$> get_raw_trace cfg sources tags).
Proof.
  intros Hd. unfold get_trace. destruct (get_raw_trace cfg sources tags) as [t|]; cbn; [|done].
  f_equal. apply Z.mod_small. specialize (Hd t). rewrite Z.shiftl_mul_pow2 by lia. lia.
Qed.

(** ** A two-line cache *)

Module TraceDemo.
Definition cfg : trace_conf := mkTraceConf true 4096 32768 8.
Definition tags (addresses : string) : toml :=
  TTable [("system", TTable [("cpu", TTable [("dcache", TTable [("addresses", TStr addresses)])])])].
End TraceDemo.

Lemma data_cache_trace_equal_witness :
  let cfg := TraceDemo.cfg in
  let t1 := TraceDemo.tags "12352 98304 12288" in let t2 := TraceDemo.tags "12288 12352 131072" in
  let l1 := [12352; 98304; 12288] in let l2 := [12288; 12352; 131072] in
  get_raw_trace cfg (Some ["data_cache"]) t1 = get_raw_trace cfg (Some ["data_cache"]) t2 ↔
    filter (inside cfg) l1 ≡ₚ filter (inside cfg) l2
    ∧ (λ tag, Z.lor (set_bits cfg tag) 4096) <$> filter (λ tag, ¬ inside cfg tag) l1
      ≡ₚ (λ tag, Z.lor (set_bits cfg tag) 4096) <$> filter (λ tag, ¬ inside cfg tag) l2.
Proof.
  apply (data_cache_trace_equal TraceDemo.cfg); [cbn; lia|cbn; lia|reflexivity|vm_compute; reflexivity..].
Defined.

Lemma get_trace_digest_witness :
  get_trace TraceDemo.cfg (λ t, Z.of_nat (length t) mod 2 ^ 64) (Some ["data_cache"]) (TraceDemo.tags "12352")
  = ((λ t, Z.of_nat (length t) mod 2 ^ 64) <$> get_raw_trace TraceDemo.cfg (Some ["data_cache"]) (TraceDemo.tags "12352")).
Proof. apply get_trace_digest. intros t. apply Z.mod_pos_bound. lia. Defined.
