(* ===== verification/Ipc.v ===== *)
(** * The connection to gem5

    [Gem5IPCOrchestration] of [src/src/ipc_orchestration.py]: the pool of gem5
    processes, the framing of the messages and the three exchanges (initialisation,
    loading a test case, running an input). gem5, the sockets and the process
    table are a class of operations on the world; what arrives on the connection is
    a list of events. *)

From S2P Require Import Prelude Text.

Open Scope Z_scope.

(** ** Messages *)

Definition OP_INIT : Z := 0xd09e95bc2c73ad66.
Definition OP_ACK_INIT : Z := 0xc4f991d25774a0ac.
Definition OP_LOAD_TEST_CASE : Z := 0xf06e27858611c27a.
Definition OP_ACK_TEST_CASE : Z := 0x847431e37076fb26.
Definition OP_TRACE_TEST_CASE : Z := 0x9ca711a73355bea.
Definition OP_ACK_TRACE_TEST_CASE : Z := 0xc1f8bc29862ef946.
Definition OP_RESET_LOG : Z := 0x7e310c4276780c9b.
Definition OP_GET_BRANCH_PREDICTOR_STATE : Z := 0x98df1da695dd7afe.
Definition OP_ACK_BRANCH_PREDICTOR_STATE : Z := 0x7d5cc0725ba80cf4.
Definition OP_RESET_BRANCH_PREDICTOR : Z := 0xcd0b48f441b827af.
Definition OP_ENABLE_BRANCH_PREDICTION_LOG : Z := 0x3604820624f5dd0a.
Definition OP_GET_BRANCH_PREDICTION_LOG : Z := 0xa0ce930078391e8d.
Definition OP_ACK_BRANCH_PREDICTION_LOG : Z := 0xfccf2948b05f1841.
Definition OP_ENABLE_ACCESS_LOG : Z := 0x705c94b0572c79e2.
Definition OP_GET_ACCESS_LOG : Z := 0x6cedeb82908d6957.
Definition OP_ACK_ACCESS_LOG : Z := 0xa0e9b9ce1b96279d.
Definition OP_RESET_COMMIT_LOG : Z := 0xdeadbeefbaddecaf.
Definition OP_GET_COMMIT_LOG : Z := 0xfeedfacefeedface.
Definition CODE_ADDR_START : Z := 0x402000.
Definition CODE_ADDR_END : Z := 0x402200.

(** [struct.pack('QQ...', ...)] and [struct.unpack], little-endian words. *)
Definition pack (ws : list Z) : list Z := mjoin (le_bytes 8 <$> ws).
Fixpoint unpack (n : nat) (bs : list Z) : list Z :=
  match n with
  | O => []
  | S n => le_value (take 8 bs) :: unpack n (drop 8 bs)
  end.

(** One byte of [hash_bytes]. *)
Definition hash_step (h byte : Z) : Z :=
  Z.land ((h + byte) * 0x21f782547ea34f3d) 0xffffffffffffffff.
Definition hash_bytes (bytes_ : list Z) : Z := fold_left hash_step bytes_ 0xbb7524eafb93804b.

(** [hash_input]: [data] is the input without its padding. *)
Definition hash_input (input_main_region_size : Z) (data : list Z) : Z :=
  if input_main_region_size <=? 32768 then hash_bytes data else 0.

(** [bytes.decode()] of ASCII text. *)
Fixpoint decode (bs : list Z) : result string :=
  match bs with
  | [] => Ok EmptyString
  | b :: bs =>
      if (0 <=? b) && (b <? 128) then s ← decode bs; Ok (String (ascii_of_N (Z.to_N b)) s)
      else Raise ValueError
  end.

(** ** Receiving *)

(** What the connection reports: a second without data, bytes, or its end. *)
Inductive event := Tick | Segment (b : Z) (bs : list Z) | Closed.

(** The loop of [recv]; after the last event nothing ever arrives. *)
Fixpoint recv_from (events : list event) (time_spent count : Z) (data : list Z)
    : result (list Z * list event) :=
  if time_spent <? 120 then
    match events with
    | [] => Raise Gem5Crash
    | Tick :: events => recv_from events (time_spent + 1) count data
    | Closed :: _ => Raise Gem5Crash
    | Segment b bs :: events =>
        let buf := take (Z.to_nat count) (b :: bs) in
        if (length buf =? 0)%nat then Raise Gem5Crash
        else
          let data := data ++ buf in
          let count' := count - Z.of_nat (length buf) in
          if count' =? 0 then
            Ok (data, match drop (Z.to_nat count) (b :: bs) with
                      | [] => events | b :: bs => Segment b bs :: events end)
          else recv_from events time_spent count' data
    end
  else Raise Gem5Crash.

(** ** The world of processes and sockets *)

Class Gem5 (W : Type) := {
  (** [Popen(cmd)]: the new process, which connects to its socket *)
  popen : list string → W → Z * W;
  (** [kill()] and [wait()] *)
  kill : Z → W → W;
  (** select over the listening sockets and [accept]; [None] after 60 seconds *)
  accept : list Z → W → option W;
  (** [conn.sendall] *)
  sendall : list Z → W → W;
  (** what will arrive on the connection, and its replacement by what is left *)
  incoming : W → list event;
  set_incoming : list event → W → W
}.

Section ipc.
Context {W : Type} `{!Gem5 W}.

(** The configuration the class reads. *)
Record ipc_conf := mkIpcConf {
  gem5_ipc_parallelism : Z;
  analysis_run : bool;
  ic_main_region_size : Z;
  ic_assist : bool
}.
Variable conf : ipc_conf.

(** The object, with the keys of its two dicts in order. A test case is the
    contents of its binary. *)
Record ipc := mkIpc {
  processes : list Z;
  sockets : list Z;
  active_process : Z;
  last_case : option (list Z);
  world : W
}.
Definition with_world (w : W) (s : ipc) : ipc :=
  mkIpc (processes s) (sockets s) (active_process s) (last_case s) w.

Definition P (A : Type) : Type := ipc → result (A * ipc).
#[global] Instance P_ret : MRet P := λ A a s, Ok (a, s).
#[global] Instance P_bind : MBind P := λ A B f m s, '(a, s) ← m s; f a s.
Definition praise {A} (e : exn) : P A := λ _, Raise e.
Definition pcheck (b : bool) (e : exn) : P unit := λ s, if b then Ok (tt, s) else Raise e.

(** [__init__]; an analysis run uses one process. *)
Definition new_Gem5IPC (w : W) : result ipc :=
  assert_ (0 <? gem5_ipc_parallelism conf) AssertionError;;
  assert_ (ic_assist conf) AssertionError;;
  Ok (mkIpc [] [] 0 None w).
Definition parallelism : Z := if analysis_run conf then 1 else gem5_ipc_parallelism conf.

Definition send (data : list Z) : P unit := λ s, Ok (tt, with_world (sendall data (world s)) s).
Definition recv (count : Z) : P (list Z) := λ s,
  '(data, rest) ← recv_from (incoming (world s)) 0 count [];
  Ok (data, with_world (set_incoming rest (world s)) s).

(** [struct.unpack('Q' * n, self.recv(8 * n))] *)
Definition recv_words (n : nat) : P (list Z) :=
  bs ← recv (8 * Z.of_nat n); mret (unpack n bs).

(** ** The pool *)

(** [cmd[cmd.index('SOCKET')] = socket_name]; the name is a hash of the time. *)
Definition start_new_gem5_process (socket_name : string) (cmd : list string) : P unit := λ s,
  assert_ (negb (analysis_run conf && (1 <? parallelism))) AssertionError;;
  i ← from_option ValueError (fst <$> list_find (λ a, a = "SOCKET") cmd);
  let '(pid, w) := popen (<[i := socket_name]> cmd) (world s) in
  Ok (tt, mkIpc (if mem pid (processes s) then processes s else processes s ++ [pid])
                (if mem pid (sockets s) then sockets s else sockets s ++ [pid])
                (active_process s) (last_case s) w).

(** [while len(self.processes) < parallelism]; every turn adds a process. *)
Fixpoint fill_pool (fuel : nat) (name : string) (cmd : list string) : P unit := λ s,
  if Z.of_nat (length (processes s)) <? parallelism then
    match fuel with
    | O => Raise OutOfFuel
    | S fuel => '(_, s) ← start_new_gem5_process name cmd s; fill_pool fuel name cmd s
    end
  else Ok (tt, s).

(** The active process is killed and leaves both dicts. *)
Definition retire_active : P unit := λ s,
  if active_process s =? 0 then Ok (tt, s)
  else
    assert_ (mem (active_process s) (processes s)) KeyError;;
    let w := kill (active_process s) (world s) in
    assert_ (mem (active_process s) (sockets s)) KeyError;;
    Ok (tt, mkIpc (List.filter (λ p, negb (p =? active_process s)) (processes s))
                  (List.filter (λ p, negb (p =? active_process s)) (sockets s))
                  0 (last_case s) w).

Definition load_test_case (test_case : list Z) : P unit := λ s,
  let s := mkIpc (processes s) (sockets s) (active_process s) (Some test_case) (world s) in
  if active_process s =? 0 then Ok (tt, s)
  else
    (send (pack [OP_LOAD_TEST_CASE; Z.of_nat (length test_case)] ++ test_case);;
     reply ← recv_words 2;
     pcheck (nth 0 reply 0 =? OP_ACK_TEST_CASE) ValueError;;
     pcheck (nth 1 reply 0 =? hash_bytes test_case) ValueError) s.

Definition accept_connection : P unit := λ s,
  match accept (sockets s) (world s) with
  | Some w => Ok (tt, with_world w s)
  | None => Raise TimeoutError
  end.
Definition set_active (pid : Z) : P unit := λ s,
  assert_ (mem pid (processes s)) AssertionError;;
  Ok (tt, mkIpc (processes s) (sockets s) pid (last_case s) (world s)).

(** The handshake with the process that connected first. *)
Definition connect : P unit :=
  accept_connection;;
  send (pack [OP_INIT]);;
  reply ← recv_words 2;
  pcheck (nth 0 reply 0 =? OP_ACK_INIT) ValueError;;
  set_active (nth 1 reply 0).

Definition reload_last_case : P unit := λ s,
  match last_case s with
  | Some case => load_test_case case s
  | None => Ok (tt, s)
  end.

Definition restart_gem5 (name : string) (cmd : list string) : P unit :=
  retire_active;;
  fill_pool (Z.to_nat parallelism) name cmd;;
  connect;;
  reload_last_case.

(** ** Running an input *)

Definition hex_char (c : ascii) : bool :=
  let n := N_of_ascii c in ((48 <=? n) && (n <=? 57) || (97 <=? n) && (n <=? 102))%N.
Fixpoint hex_prefix (s : string) : string :=
  match s with
  | String c s => if hex_char c then String c (hex_prefix s) else EmptyString
  | EmptyString => EmptyString
  end.
(** [pc_pattern.search(entry).group(1)]: the first [pc:0x] followed by hexadecimal digits. *)
Fixpoint pc_search (s : string) : option string :=
  let here := hex_prefix (str_drop 5 s) in
  if String.prefix "pc:0x" s && negb (here =? "")%string then Some ("0x" +:+ here)
  else match s with EmptyString => None | String _ s => pc_search s end.

(** One entry of a log: [None] when its instruction is not the test case's. *)
Definition filter_entry (timing : bool) (entry : string) : result (option string) :=
  pc ← from_option AttributeError (pc_search entry);
  entry ← (if timing then Ok entry
           else assert_ (startswith "tick:" entry) AssertionError;;
                i ← str_index "," entry; Ok (str_drop i entry));
  Ok (if (CODE_ADDR_START <=? int16 pc) && (int16 pc <? CODE_ADDR_END) then Some entry else None).

Definition filter_log (timing : bool) (log : string) : result string :=
  entries ← mapM (filter_entry timing) (List.filter (λ e, negb (e =? "")%string) (split ";" log));
  Ok (str_join ";" (omap id entries)).

(** A request for a log and its reply: a length and that many bytes. *)
Definition get_log (request ack : Z) : P (list Z) :=
  send (pack [request]);;
  reply ← recv_words 2;
  pcheck (nth 0 reply 0 =? ack) ValueError;;
  recv (nth 1 reply 0).

Definition lift {A} (r : result A) : P A := λ s, a ← r; Ok (a, s).

Definition when (b : bool) (m : P unit) : P unit := if b then m else mret tt.
Definition section (b : bool) (m : P string) : P string := if b then m else mret EmptyString.

Definition get_text_log (request ack : Z) (name : string) (timing : bool) : P string :=
  bs ← get_log request ack;
  log ← lift (decode bs);
  log ← lift (filter_log timing log);
  mret (newline +:+ "[" +:+ name +:+ "]" +:+ newline +:+ "log = " +:+ log +:+ newline).

(** [trace_test_case]: the tags of the run and the logs the sources ask for. *)
Definition trace_test_case (data : list Z) (register_start : Z) (sources : list string) : P string :=
  let src_bp_state := mem "branch_pred_state" sources in
  let src_predictions := mem "branch_predictions" sources in
  let src_predictions_timing := mem "branch_predictions_timing" sources in
  let src_access_timing := mem "access_timing" sources in
  let src_access_order := mem "access_order" sources in
  let src_commit := mem "commit" sources in
  when (src_bp_state || src_predictions || src_predictions_timing)
    (send (pack [OP_RESET_BRANCH_PREDICTOR]));;
  when (src_predictions || src_predictions_timing) (send (pack [OP_ENABLE_BRANCH_PREDICTION_LOG]));;
  when (src_access_timing || src_access_order) (send (pack [OP_ENABLE_ACCESS_LOG]));;
  when src_commit (send (pack [OP_RESET_COMMIT_LOG]));;
  let input_hash := hash_input (ic_main_region_size conf) data in
  send (pack [OP_TRACE_TEST_CASE; Z.of_nat (length data); register_start * 8; input_hash] ++ data);;
  reply ← recv_words 3;
  pcheck (nth 0 reply 0 =? OP_ACK_TRACE_TEST_CASE) ValueError;;
  pcheck (nth 1 reply 0 =? input_hash) ValueError;;
  bs ← recv (nth 2 reply 0);
  trace ← lift (decode bs);
  bp ← section src_bp_state
    (bs ← get_log OP_GET_BRANCH_PREDICTOR_STATE OP_ACK_BRANCH_PREDICTOR_STATE;
     state ← lift (decode bs); mret (newline +:+ state +:+ newline));
  predictions ← section (src_predictions || src_predictions_timing)
    (get_text_log OP_GET_BRANCH_PREDICTION_LOG OP_ACK_BRANCH_PREDICTION_LOG "branchPredictionLog"
       src_predictions_timing);
  accesses ← section (src_access_order || src_access_timing)
    (get_text_log OP_GET_ACCESS_LOG OP_ACK_ACCESS_LOG "accessLog" src_access_timing);
  commits ← section src_commit
    (bs ← get_log OP_GET_COMMIT_LOG OP_GET_COMMIT_LOG;
     pcheck (length bs =? 8)%nat ValueError;;
     mret (newline +:+ "[commit]" +:+ newline +:+ "log = " +:+ str (le_value bs) +:+ newline));
  mret (trace +:+ bp +:+ predictions +:+ accesses +:+ commits).

Definition reset_log : P unit := send (pack [OP_RESET_LOG]).
End ipc.
