(* ===== verification/IpcFacts.v ===== *)
(** * The connection to gem5: facts

    Receiving gives back the bytes sent whatever the segments they come in, the
    hash notices a changed byte, and the pool of processes stays consistent. *)

From S2P Require Import Prelude Text Ipc.

Open Scope Z_scope.

(** ** Receiving *)

(** The bytes that arrive before the connection closes. *)
Fixpoint stream (events : list event) : list Z :=
  match events with
  | [] => []
  | Tick :: events => stream events
  | Segment b bs :: events => (b :: bs) ++ stream events
  | Closed :: _ => []
  end.

(** Those that arrive within [n] idle seconds. *)
Fixpoint within (n : nat) (events : list event) : list Z :=
  match n with
  | O => []
  | S n' =>
      match events with
      | [] => []
      | Tick :: events => within n' events
      | Segment b bs :: events => (b :: bs) ++ within n events
      | Closed :: _ => []
      end
  end.

Definition is_segment (e : event) : Prop := match e with Segment _ _ => True | _ => False end.

Lemma within_prefix n events : ∃ later, stream events = within n events ++ later.
Proof.
  revert n. induction events as [|[|b bs|] events IH]; intros [|n]; cbn; try by eexists.
  - apply IH.
  - destruct (IH (S n)) as [later E]. exists later. by rewrite <- app_assoc, <- E.
Qed.

Lemma within_segments n events : Forall is_segment events → within (S n) events = stream events.
Proof. induction 1 as [|[|b bs|] events He _ IH]; cbn in *; try done. by rewrite IH. Qed.

Lemma recv_from_spec events t count data :
  0 ≤ t ≤ 120 → 0 < count →
  let arrived := within (Z.to_nat (120 - t)) events in
  if count <=? Z.of_nat (length arrived)
  then ∃ rest, recv_from events t count data = Ok (data ++ take (Z.to_nat count) arrived, rest)
             ∧ stream events = take (Z.to_nat count) arrived ++ stream rest
             ∧ (Forall is_segment events → Forall is_segment rest)
  else recv_from events t count data = Raise Gem5Crash.
Proof.
  revert t count data. induction events as [|e events IH]; intros t count data Ht Hc; cbv zeta.
  { replace (within _ []) with (@nil Z) by (by destruct (Z.to_nat (120 - t))).
    destruct (Z.leb_spec count (Z.of_nat (length (@nil Z)))); [cbn in *; lia|].
    cbn [recv_from]. by destruct (t <? 120). }
  cbn [recv_from]. destruct (Z.ltb_spec t 120) as [Hlt|Hge].
  2:{ replace (Z.to_nat (120 - t)) with O by lia. cbn [within length].
      by destruct (Z.leb_spec count (Z.of_nat 0)); [lia|]. }
  destruct (Z.to_nat (120 - t)) as [|k] eqn:Ek; [lia|].
  destruct e as [|b bs|]; cbn [within].
  - specialize (IH (t + 1) count data ltac:(lia) Hc). cbv zeta in IH.
    replace (Z.to_nat (120 - (t + 1))) with k in IH by lia.
    destruct (count <=? _); [|done]. destruct IH as (rest & H1 & H2 & _). exists rest.
    split; [done|]. split; [done|]. intros Hs. by inversion Hs.
  - rewrite length_take. set (seg := b :: bs).
    destruct (Nat.eqb_spec (Z.to_nat count `min` length seg) 0) as [E|_]; [cbn in E; lia|].
    destruct (Z.eqb_spec (count - Z.of_nat (Z.to_nat count `min` length seg)) 0) as [E|E].
    + rewrite length_app. destruct (Z.leb_spec count (Z.of_nat (length seg + length (within (S k) events)))); [|lia].
      rewrite take_app_le by lia.
      eexists. split; [done|]. cbn [stream]. fold seg. split.
      * rewrite <- (take_drop (Z.to_nat count) seg) at 1. rewrite <- app_assoc. f_equal.
        by destruct (drop (Z.to_nat count) seg).
      * intros Hs. inversion Hs. destruct (drop (Z.to_nat count) seg); [done|]. by constructor.
    + assert (Hlong : (length seg < Z.to_nat count)%nat) by lia.
      rewrite (Nat.min_r _ (length seg)), (take_ge seg) by lia.
      specialize (IH t (count - Z.of_nat (length seg)) (data ++ seg) Ht ltac:(lia)). cbv zeta in IH.
      rewrite Ek in IH. rewrite length_app.
      destruct (Z.leb_spec (count - Z.of_nat (length seg)) (Z.of_nat (length (within (S k) events)))),
        (Z.leb_spec count (Z.of_nat (length seg + length (within (S k) events)))); try lia; [|done].
      destruct IH as (rest & H1 & H2 & H3). exists rest. rewrite H1, <- app_assoc.
      rewrite take_app_ge by lia.
      replace (Z.to_nat count - length seg)%nat with (Z.to_nat (count - Z.of_nat (length seg))) by lia.
      split; [done|]. cbn [stream]. fold seg. rewrite H2, <- app_assoc. split; [done|].
      intros Hs. inversion Hs. by apply H3.
  - by destruct (Z.leb_spec count (Z.of_nat (length (@nil Z)))); [cbn in *; lia|].
Qed.

(** [recv] returns the next [count] bytes of the stream, however they are cut into
    segments and delayed, and leaves the rest of the stream for the next call,
    provided they all arrive within two minutes of idle time; otherwise it raises
    [Gem5Crash], and so it does when the connection closes first. *)
Theorem recv_reassembles events count :
  0 < count →
  if count <=? Z.of_nat (length (within 120 events))
  then ∃ rest, recv_from events 0 count [] = Ok (take (Z.to_nat count) (stream events), rest)
             ∧ stream events = take (Z.to_nat count) (stream events) ++ stream rest
  else recv_from events 0 count [] = Raise Gem5Crash.
Proof.
  intros Hc. pose proof (recv_from_spec events 0 count [] ltac:(lia) Hc) as H. cbv zeta in H.
  change (Z.to_nat (120 - 0)) with 120%nat in H.
  destruct (Z.leb_spec count (Z.of_nat (length (within 120 events)))) as [Hl|]; [|done].
  destruct H as (rest & H1 & H2 & _). exists rest. destruct (within_prefix 120 events) as [later E].
  assert (Ht : take (Z.to_nat count) (stream events) = take (Z.to_nat count) (within 120 events)).
  { rewrite E, take_app_le by lia. done. }
  by rewrite Ht.
Qed.

Lemma recv_reassembles_witness :
  let events := [Segment 1 [2; 3]; Tick; Segment 4 [5; 6]; Closed] in
  0 < 5 ∧ ∃ rest, recv_from events 0 5 [] = Ok (take (Z.to_nat 5) (stream events), rest)
                ∧ stream events = take (Z.to_nat 5) (stream events) ++ stream rest.
Proof.
  split; [lia|]. apply (recv_reassembles [Segment 1 [2; 3]; Tick; Segment 4 [5; 6]; Closed] 5). lia.
Defined.

(** ** The hash *)

Definition multiplier : Z := 0x21f782547ea34f3d.
Definition inverse : Z := 0x36c57e8d18ac8015.

Lemma hash_step_mod h b : hash_step h b = ((h + b) * multiplier) mod 2 ^ 64.
Proof. unfold hash_step. change 0xffffffffffffffff with (Z.ones 64). by rewrite Z.land_ones by lia. Qed.

(** The multiplier is odd, so that a step can be undone. *)
Lemma hash_step_undo h b : (hash_step h b * inverse) mod 2 ^ 64 = (h + b) mod 2 ^ 64.
Proof.
  rewrite hash_step_mod, Zmult_mod_idemp_l, <- Z.mul_assoc.
  rewrite <- Zmult_mod_idemp_r. change ((multiplier * inverse) mod 2 ^ 64) with 1. by rewrite Z.mul_1_r.
Qed.

Lemma hash_step_range h b : 0 ≤ hash_step h b < 2 ^ 64.
Proof. rewrite hash_step_mod. apply Z.mod_pos_bound. lia. Qed.

Lemma hash_step_inj_byte h b b' :
  0 ≤ b < 256 → 0 ≤ b' < 256 → hash_step h b = hash_step h b' → b = b'.
Proof.
  intros Hb Hb' H. pose proof (hash_step_undo h b) as E. rewrite H, hash_step_undo in E.
  assert (Hd : (b' - b) mod 2 ^ 64 = 0).
  { replace (b' - b) with ((h + b') - (h + b)) by lia. rewrite Zminus_mod, E, Z.sub_diag. done. }
  apply Z.mod_divide in Hd as [q Hq]; [|lia]. nia.
Qed.

Lemma hash_step_inj h h' b :
  0 ≤ h < 2 ^ 64 → 0 ≤ h' < 2 ^ 64 → hash_step h b = hash_step h' b → h = h'.
Proof.
  intros Hh Hh' H. pose proof (hash_step_undo h b) as E. rewrite H, hash_step_undo in E.
  assert (Hd : (h' - h) mod 2 ^ 64 = 0).
  { replace (h' - h) with ((h' + b) - (h + b)) by lia. rewrite Zminus_mod, E, Z.sub_diag. done. }
  apply Z.mod_divide in Hd as [q Hq]; [|lia]. nia.
Qed.

Lemma hash_fold_inj bs h h' :
  0 ≤ h < 2 ^ 64 → 0 ≤ h' < 2 ^ 64 → fold_left hash_step bs h = fold_left hash_step bs h' → h = h'.
Proof.
  revert h h'. induction bs as [|b bs IH]; intros h h' Hh Hh' H; cbn in H; [done|].
  apply IH in H; [|apply hash_step_range..]. by eapply hash_step_inj.
Qed.

Lemma hash_changes xs b b' ys :
  0 ≤ b < 256 → 0 ≤ b' < 256 → b ≠ b' → hash_bytes (xs ++ b :: ys) ≠ hash_bytes (xs ++ b' :: ys).
Proof.
  intros Hb Hb' Hne H. unfold hash_bytes in H. rewrite !fold_left_app in H. cbn in H.
  apply hash_fold_inj in H; [|apply hash_step_range..]. by apply hash_step_inj_byte in H.
Qed.

(** ** Exchanges *)

(** What is documented of processes and sockets: a new process has a pid that no
    process of the system has, a killed one gives its pid back, and the bytes left
    unread are read next. *)
Class Gem5Laws (W : Type) `{!Gem5 W} := {
  live : W → list Z;
  popen_fresh cmd w : (popen cmd w).1 ∉ live w ∧ (popen cmd w).1 ≠ 0;
  popen_live cmd w : live (popen cmd w).2 = (popen cmd w).1 :: live w;
  kill_live p w : live (kill p w) = List.filter (λ q, negb (q =? p)) (live w);
  accept_live socks w w' : accept socks w = Some w' → live w' = live w;
  send_live d w : live (sendall d w) = live w;
  set_incoming_live es w : live (set_incoming es w) = live w;
  incoming_set es w : incoming (set_incoming es w) = es
}.

(** [triple Pre m Post]: from [Pre], [m] ends in [Post] or raises an exception of the code. *)
Definition triple {W A} (Pre : @ipc W → Prop) (m : @P W A) (Post : A → @ipc W → Prop) : Prop :=
  ∀ s, Pre s → match m s with Ok (a, s') => Post a s' | Raise e => e ≠ OutOfFuel end.

Section facts.
Context {W : Type} `{!Gem5 W, !Gem5Laws W}.
Variable conf : ipc_conf.
Implicit Types s : @ipc W.

Lemma triple_bind {A B} Pre (m : @P W A) Mid (f : A → @P W B) Post :
  triple Pre m Mid → (∀ a, triple (Mid a) (f a) Post) → triple Pre (m ≫= f) Post.
Proof.
  intros Hm Hf s Hs. specialize (Hm s Hs). unfold mbind, P_bind.
  destruct (m s) as [[a s']|e]; cbn [mbind result_bind]; [|done]. by apply Hf.
Qed.

Lemma triple_weaken {A} (Pre Pre' : @ipc W → Prop) (m : @P W A) (Post Post' : A → @ipc W → Prop) :
  triple Pre' m Post' → (∀ s, Pre s → Pre' s) → (∀ a s, Post' a s → Post a s) → triple Pre m Post.
Proof.
  intros Hm Hpre Hpost s Hs. specialize (Hm s (Hpre s Hs)). destruct (m s) as [[a s']|]; auto.
Qed.

(** The parts of the object that an exchange with gem5 leaves alone. *)
Definition pool (s : @ipc W) : list Z * list Z * list Z :=
  (processes s, sockets s, live (world s)).
Definition keeps {A} (m : @P W A) : Prop :=
  ∀ p a, triple (λ s, pool s = p ∧ active_process s = a) m (λ _ s, pool s = p ∧ active_process s = a).

Lemma keeps_bind {A B} (m : @P W A) (f : A → @P W B) :
  keeps m → (∀ a, keeps (f a)) → keeps (m ≫= f).
Proof. intros Hm Hf p a. eapply triple_bind; [apply Hm|]. intros x. apply Hf. Qed.
Lemma keeps_ret {A} (x : A) : keeps (mret x).
Proof. by intros p a s Hs. Qed.
Lemma keeps_check b e : e ≠ OutOfFuel → keeps (pcheck b e).
Proof. intros He p a s Hs. unfold pcheck. by destruct b. Qed.
Lemma keeps_send d : keeps (send d).
Proof. intros p a s [<- <-]. cbn. unfold pool; cbn. by rewrite send_live. Qed.

Lemma recv_from_raises events t count data e :
  recv_from events t count data = Raise e → e = Gem5Crash.
Proof.
  revert t count data. induction events as [|[|b bs|] events IH]; intros t count data; cbn [recv_from];
    destruct (t <? 120); try congruence; [apply IH|].
  destruct (_ =? 0)%nat; [congruence|]. destruct (_ =? 0); [done|]. apply IH.
Qed.

Lemma keeps_recv n : keeps (recv n).
Proof.
  intros p a s [<- <-]. unfold recv. destruct (recv_from _ _ _ _) as [[d rest]|e] eqn:E; cbn.
  - unfold pool; cbn. by rewrite set_incoming_live.
  - by rewrite (recv_from_raises _ _ _ _ _ E).
Qed.
Lemma keeps_recv_words n : keeps (recv_words n).
Proof. apply keeps_bind; [apply keeps_recv|]. intros. apply keeps_ret. Qed.

Ltac keep_steps :=
  repeat first [apply keeps_send | apply keeps_recv_words | apply keeps_recv | apply keeps_ret
               | apply keeps_check; discriminate | apply keeps_bind; [|intros ?]].

Lemma keeps_load case : keeps (load_test_case case).
Proof.
  intros p a s [<- <-]. unfold load_test_case. cbv zeta.
  destruct (active_process _ =? 0); [done|].
  match goal with |- context [?m (mkIpc ?x ?y ?z ?c ?w)] =>
    assert (Hk : keeps m) end.
  { keep_steps. }
  by apply Hk.
Qed.

(** The pool: the dicts agree, the processes exist, and the active one is among them. *)
Definition pool_ok (s : @ipc W) : Prop :=
  NoDup (processes s) ∧ sockets s = processes s
  ∧ (∀ p, p ∈ processes s → p ∈ live (world s) ∧ p ≠ 0)
  ∧ (active_process s = 0 ∨ active_process s ∈ processes s)
  ∧ Z.of_nat (length (processes s)) ≤ parallelism conf.

Lemma elem_of_Lfilter {A} (p : A → bool) l x : x ∈ List.filter p l ↔ x ∈ l ∧ p x = true.
Proof. rewrite !list_elem_of_In. apply filter_In. Qed.

Lemma retire_ok :
  triple pool_ok retire_active (λ _ s, pool_ok s ∧ active_process s = 0).
Proof.
  intros s Hs. unfold retire_active. destruct (Z.eqb_spec (active_process s) 0) as [E|E]; [done|].
  destruct Hs as (Hnd & Hsock & Hlive & [Ha|Ha] & Hlen); [done|].
  rewrite Hsock. rewrite (proj2 (mem_spec _ _) Ha). cbn. split; [|done].
  repeat split; cbn.
  - apply NoDup_ListNoDup, List.NoDup_filter. by apply NoDup_ListNoDup.
  - rewrite kill_live. apply elem_of_Lfilter in H as [Hp Hne]. apply elem_of_Lfilter.
    split; [by apply Hlive|done].
  - apply elem_of_Lfilter in H as [Hp _]. by apply Hlive.
  - by left.
  - pose proof (filter_length_le (λ p, negb (p =? active_process s)) (processes s)). lia.
Qed.

Lemma start_ok name cmd n :
  triple (λ s, pool_ok s ∧ active_process s = 0 ∧ length (processes s) = n ∧ Z.of_nat n < parallelism conf)
    (start_new_gem5_process conf name cmd)
    (λ _ s, pool_ok s ∧ active_process s = 0 ∧ length (processes s) = S n).
Proof.
  intros s ((Hnd & Hsock & Hlive & Ha' & Hlen) & Ha & Hn & Hlt). unfold start_new_gem5_process.
  destruct (assert_ _ _) as [[]|] eqn:E; cbn [mbind result_bind].
  2:{ unfold assert_ in E. destruct (negb _); [done|]. by injection E as <-. }
  destruct (list_find _ cmd) as [[i a]|]; cbn; [|done].
  destruct (popen_fresh (<[i:=name]> cmd) (world s)) as [Hfresh Hne].
  pose proof (popen_live (<[i:=name]> cmd) (world s)) as Hl.
  destruct (popen _ _) as [pid w]. cbn in *.
  assert (Hnot : pid ∉ processes s) by (intros H; by apply Hlive in H as [? _]).
  rewrite Hsock, (proj2 (mem_false _ _) Hnot). unfold pool_ok. cbn.
  rewrite length_app. cbn. split_and!; try done; try lia.
  - apply NoDup_app. split; [done|]. split; [|apply NoDup_singleton].
    intros x Hx ->%list_elem_of_singleton. done.
  - intros p [Hp| ->%list_elem_of_singleton]%elem_of_app; rewrite Hl; [|split; [by left|done]].
    destruct (Hlive p Hp). split; [by right|done].
Qed.

Lemma fill_ok name cmd fuel n :
  triple (λ s, pool_ok s ∧ active_process s = 0 ∧ length (processes s) = n
               ∧ parallelism conf ≤ Z.of_nat (n + fuel))
    (fill_pool conf fuel name cmd)
    (λ _ s, pool_ok s ∧ active_process s = 0 ∧ Z.of_nat (length (processes s)) = parallelism conf).
Proof.
  revert n. induction fuel as [|fuel IH]; intros n s (Hs & Ha & Hn & Hf); cbn [fill_pool];
    destruct (Z.ltb_spec (Z.of_nat (length (processes s))) (parallelism conf)) as [Hlt|Hge]; try lia.
  1, 3: destruct Hs as (? & ? & ? & ? & ?); split_and!; try done; lia.
  assert (Hlt' : Z.of_nat n < parallelism conf) by lia.
  pose proof (start_ok name cmd n s (conj Hs (conj Ha (conj Hn Hlt')))) as H.
  destruct (start_new_gem5_process conf name cmd s) as [[u s1]|e]; cbn [mbind result_bind]; [|done].
  destruct H as (H1 & H2 & H3). apply (IH (S n)). split_and!; try done. lia.
Qed.

Lemma accept_keeps : keeps accept_connection.
Proof.
  intros p a s [<- <-]. unfold accept_connection. destruct (accept _ _) as [w|] eqn:E; cbn; [|done].
  unfold pool; cbn. by rewrite (accept_live _ _ _ E).
Qed.

(** The handshake makes one of the pool's processes the active one. *)
Lemma connect_ok p :
  triple (λ s, pool s = p ∧ active_process s = 0) connect
    (λ _ s, pool s = p ∧ active_process s ∈ processes s).
Proof.
  unfold connect. eapply triple_bind; [apply accept_keeps|intros ?].
  eapply triple_bind; [apply keeps_send|intros ?].
  eapply triple_bind; [apply keeps_recv_words|intros reply].
  eapply triple_bind; [by apply keeps_check|intros ?].
  intros s [Hp _]. unfold set_active. destruct (mem _ _) eqn:E; cbn; [|done].
  split; [done|]. by apply mem_spec.
Qed.

Lemma reload_keeps : keeps reload_last_case.
Proof.
  intros p a s Hs. unfold reload_last_case. destruct (last_case s) as [case|]; [|done].
  by apply keeps_load.
Qed.

(** C34: Restarting gem5 keeps the pool: the two dicts have the same processes, each once
    and all of them children that exist; afterwards there are exactly as many as
    configured and the active one is among them. The loop that starts them ends. *)
Theorem restart_keeps_pool name cmd s :
  pool_ok s →
  match restart_gem5 conf name cmd s with
  | Ok (_, s') => pool_ok s' ∧ Z.of_nat (length (processes s')) = parallelism conf
                  ∧ active_process s' ∈ processes s'
  | Raise e => e ≠ OutOfFuel
  end.
Proof.
  intros Hs.
  refine (triple_bind pool_ok _ _ _ (λ _ s', pool_ok s' ∧ Z.of_nat (length (processes s')) = parallelism conf
                  ∧ active_process s' ∈ processes s') retire_ok _ s Hs).
  intros ? s1 [H1 Ha1].
  refine (triple_bind _ _ _ _ _ (fill_ok name cmd (Z.to_nat (parallelism conf)) (length (processes s1))) _ s1 _);
    [|split_and!; try done; lia].
  intros ? s2 (H2 & Ha2 & Hn2).
  refine (triple_bind _ _ _ _ _ (connect_ok (pool s2)) _ s2 (conj eq_refl Ha2)).
  intros ? s3 [H3 Ha3].
  pose proof (reload_keeps (pool s3) (active_process s3) s3 (conj eq_refl eq_refl)) as H4.
  destruct (reload_last_case s3) as [[u s4]|]; [|done]. destruct H4 as [H4 Ha4].
  assert (E : pool s4 = pool s2) by congruence. injection E as Ep Es El. injection H4 as Ep' _ _.
  destruct H2 as (? & ? & Hlive & _ & ?). unfold pool_ok. rewrite Ha4, El, Ep, Es.
  rewrite <- Ep', Ep in Ha3. split_and!; try done. by right.
Qed.

(** ** Loading and running *)

Lemma length_pack ws : length (pack ws) = (8 * length ws)%nat.
Proof.
  induction ws as [|w ws IH]; [done|].
  change (pack (w :: ws)) with (le_bytes 8 w ++ pack ws). rewrite length_app, length_le_bytes, IH. cbn. lia.
Qed.

Lemma unpack_pack ws : Forall (λ w, 0 ≤ w < 2 ^ 64) ws → unpack (length ws) (pack ws) = ws.
Proof.
  induction 1 as [|w ws Hw _ IH]; [done|].
  change (pack (w :: ws)) with (le_bytes 8 w ++ pack ws). cbn [unpack length].
  rewrite <- (length_le_bytes 8 w) at 1 3. rewrite take_app_length, drop_app_length, IH.
  rewrite le_value_bytes. by rewrite Z.mod_small.
Qed.

Lemma hash_range bs : 0 ≤ hash_bytes bs < 2 ^ 64.
Proof.
  unfold hash_bytes. assert (H : 0 ≤ 0xbb7524eafb93804b < 2 ^ 64) by lia. revert H.
  generalize 0xbb7524eafb93804b. induction bs as [|b bs IH]; intros h Hh; [done|]. cbn.
  apply IH, hash_step_range.
Qed.

(** The next bytes, when they are on their way. *)
Lemma recv_now s bs more n :
  Forall is_segment (incoming (world s)) → stream (incoming (world s)) = bs ++ more →
  n = Z.of_nat (length bs) → bs ≠ [] →
  ∃ es, recv n s = Ok (bs, with_world (set_incoming es (world s)) s)
      ∧ stream es = more ∧ Forall is_segment es.
Proof.
  intros Hseg Hst -> Hne. unfold recv.
  pose proof (recv_from_spec (incoming (world s)) 0 (Z.of_nat (length bs)) []) as H. cbv zeta in H.
  change (Z.to_nat (120 - 0)) with 120%nat in H. rewrite within_segments, Hst, length_app in H by done.
  assert (0 < Z.of_nat (length bs)) by (destruct bs; [done|cbn; lia]).
  destruct (Z.leb_spec (Z.of_nat (length bs)) (Z.of_nat (length bs + length more))); [|lia].
  destruct H as (rest & -> & H2 & H3); [lia|done|]. rewrite Nat2Z.id, take_app_length in *.
  apply app_inv_head in H2. exists rest. split; [done|]. split; [done|]. by apply H3.
Qed.

Lemma recv_words_now s ws more :
  Forall is_segment (incoming (world s)) → stream (incoming (world s)) = pack ws ++ more →
  Forall (λ w, 0 ≤ w < 2 ^ 64) ws → ws ≠ [] →
  ∃ es, recv_words (length ws) s = Ok (ws, with_world (set_incoming es (world s)) s)
      ∧ stream es = more ∧ Forall is_segment es.
Proof.
  intros Hseg Hst Hws Hne.
  destruct (recv_now s (pack ws) more (8 * Z.of_nat (length ws)) Hseg Hst) as (es & E & H); [| |].
  - rewrite length_pack. lia.
  - intros H. apply (f_equal length) in H. rewrite length_pack in H. by destruct ws.
  - exists es. unfold recv_words, mbind, P_bind. rewrite E. cbn. by rewrite unpack_pack.
Qed.

(** What gem5 is sent for a test case. *)
Definition load_message (case : list Z) : list Z :=
  pack [OP_LOAD_TEST_CASE; Z.of_nat (length case)] ++ case.

Lemma load_compares case received more s :
  active_process s ≠ 0 →
  let w := sendall (load_message case) (world s) in
  Forall is_segment (incoming w) →
  stream (incoming w) = pack [OP_ACK_TEST_CASE; hash_bytes received] ++ more →
  match load_test_case case s with
  | Ok _ => hash_bytes received = hash_bytes case
  | Raise e => e = ValueError ∧ hash_bytes received ≠ hash_bytes case
  end.
Proof.
  intros Ha w Hseg Hst. unfold load_test_case. cbv zeta. cbn [active_process].
  destruct (Z.eqb_spec (active_process s) 0); [done|].
  set (s0 := mkIpc _ _ _ _ _). unfold mbind, P_bind.
  destruct (recv_words_now (with_world w s0) [OP_ACK_TEST_CASE; hash_bytes received] more)
    as (es & E & _); [done|done| |done|].
  { repeat constructor; try done; apply hash_range. }
  cbn [length] in E. fold (load_message case).
  change (send (load_message case) s0) with (Ok (tt, with_world w s0)). cbn [mbind result_bind].
  rewrite E. cbn [mbind result_bind nth]. unfold pcheck at 1. rewrite Z.eqb_refl. cbn [mbind result_bind].
  unfold pcheck. by destruct (Z.eqb_spec (hash_bytes received) (hash_bytes case)).
Qed.

(** C33: A test case that gem5 received as it was sent is acknowledged and the call returns;
    one in which a byte changed on the way makes it raise [ValueError]: the
    acknowledged hash differs whatever the byte and its position. *)
Theorem load_detects_corruption xs b b' ys received more s :
  active_process s ≠ 0 → 0 ≤ b < 256 → 0 ≤ b' < 256 →
  let case := xs ++ b :: ys in
  let w := sendall (load_message case) (world s) in
  Forall is_segment (incoming w) →
  stream (incoming w) = pack [OP_ACK_TEST_CASE; hash_bytes received] ++ more →
  (received = case → ∃ s', load_test_case case s = Ok (tt, s'))
  ∧ (received = xs ++ b' :: ys → b ≠ b' → load_test_case case s = Raise ValueError).
Proof.
  intros Ha Hb Hb' case w Hseg Hst. pose proof (load_compares case received more s Ha Hseg Hst) as H.
  destruct (load_test_case case s) as [[[] s']|e]; split.
  - by exists s'.
  - intros -> Hne. by apply hash_changes in H.
  - intros ->. by destruct H.
  - intros _ _. by destruct H as [-> _].
Qed.

(** The sources that need a log besides the tags. *)
Definition log_sources : list string :=
  ["branch_pred_state"; "branch_predictions"; "branch_predictions_timing"; "access_timing";
   "access_order"; "commit"].

Definition trace_message (data : list Z) (register_start : Z) : list Z :=
  pack [OP_TRACE_TEST_CASE; Z.of_nat (length data); register_start * 8;
        hash_input (ic_main_region_size conf) data] ++ data.

(** C39: For sources without logs, the trace of an input is the text gem5 answers with, however
    the answer is cut into segments, once gem5 confirms the hash of the input. An
    answer without any tag is taken for a crash: [recv(0)] reads nothing and [recv]
    takes that for the end of the connection. *)
Theorem trace_returns_tags data register_start sources tags text more s :
  (∀ src, src ∈ log_sources → src ∉ sources) →
  let w := sendall (trace_message data register_start) (world s) in
  let hash := hash_input (ic_main_region_size conf) data in
  Forall is_segment (incoming w) → Z.of_nat (length tags) < 2 ^ 64 → decode tags = Ok text →
  stream (incoming w) = pack [OP_ACK_TRACE_TEST_CASE; hash; Z.of_nat (length tags)] ++ tags ++ more →
  if bool_decide (tags = []) then trace_test_case conf data register_start sources s = Raise Gem5Crash
  else ∃ s', trace_test_case conf data register_start sources s = Ok (text, s').
Proof.
  intros Hsrc w hash Hseg Hlen Hdec Hst. unfold trace_test_case. cbv zeta.
  assert (Hmem : ∀ src, src ∈ log_sources → mem src sources = false).
  { intros src Hs. by apply mem_false, Hsrc. }
  rewrite !Hmem by in_list. unfold when, section. cbn [orb].
  fold hash.
  assert (Hh : 0 ≤ hash < 2 ^ 64).
  { unfold hash, hash_input. destruct (_ <=? _); [apply hash_range|lia]. }
  destruct (recv_words_now (with_world w s) [OP_ACK_TRACE_TEST_CASE; hash; Z.of_nat (length tags)] (tags ++ more))
    as (es & E & Hes & Hess); [done|done| |done|].
  { repeat constructor; try done; lia. }
  cbn [length] in E.
  unfold mbind, P_bind, mret, P_ret. cbn [mbind result_bind].
  match goal with |- context [send ?d s] => change (send d s) with (Ok (tt, with_world w s)) end.
  cbn [mbind result_bind]. rewrite E. cbn [mbind result_bind nth]. unfold pcheck. rewrite !Z.eqb_refl. cbn [mbind result_bind].
  set (s1 := with_world _ _).
  case_bool_decide as Ht.
  - subst tags. unfold recv. cbn [length Z.of_nat].
    replace (recv_from (incoming (world s1)) 0 0 []) with (@Raise (list Z * list event) Gem5Crash); [done|].
    cbn. rewrite incoming_set. destruct es as [|e es]; [done|]. inversion Hess. by destruct e.
  - destruct (recv_now s1 tags more (Z.of_nat (length tags))) as (es' & E' & _); try done.
    + cbn. by rewrite incoming_set.
    + cbn. by rewrite incoming_set.
    + rewrite E'. cbn [mbind result_bind]. unfold lift. rewrite Hdec. cbn [mbind result_bind].
      eexists. by rewrite !str_app_nil.
Qed.
End facts.

(** ** Logs without their times *)

(** The text of a log whose entries are a tick and the fields after it. *)
Definition log_text (es : list (string * string)) : string :=
  str_join ";" ((λ '(t, rest), "tick:" +:+ t +:+ String "," rest) <$> es).

Lemma pc_search_skip c s : Ascii.eqb c "p" = false → pc_search (String c s) = pc_search s.
Proof.
  intros Hc. cbn [pc_search]. destruct (String.prefix "pc:0x" (String c s)) eqn:E; [|done].
  exfalso. change (String.prefix "pc:0x" (String c s)) with (if ascii_dec "p" c then String.prefix "c:0x" s else false) in E.
  destruct (ascii_dec "p" c) as [<-|]; [by rewrite Ascii.eqb_refl in Hc|done].
Qed.

Lemma pc_search_digits t s : str_forall is_digit t = true → pc_search (t +:+ s) = pc_search s.
Proof.
  induction t as [|c t IH]; intros Ht; [done|]. apply andb_true_iff in Ht as [Hc Ht].
  rewrite str_app_cons, pc_search_skip; [by apply IH|].
  apply not_true_is_false. intros ->%Ascii.eqb_eq. done.
Qed.

(** Without timing sources an entry is reduced to the fields after its tick, and only
    entries of the test case's instructions stay: the log of a run does not depend on
    when its events happened. *)
Theorem filter_log_ignores_ticks es :
  Forall (λ '(t, rest), str_forall is_digit t = true ∧ without ";" rest = true) es →
  filter_log false (log_text es)
  = (kept ← mapM (λ '(_, rest),
       pc ← from_option AttributeError (pc_search rest);
       Ok (if (CODE_ADDR_START <=? int16 pc) && (int16 pc <? CODE_ADDR_END)
           then Some (String "," rest) else None)) es;
     Ok (str_join ";" (omap id kept))).
Proof.
  intros Hes. unfold filter_log.
  assert (Hsplit : List.filter (λ e, negb (e =? "")%string) (split ";" (log_text es))
                   = (λ '(t, rest), "tick:" +:+ t +:+ String "," rest) <$> es).
  { destruct es as [|e es]; [done|]. unfold log_text. rewrite split_join; [|done|].
    - apply List_filter_all. intros x Hx. apply list_elem_of_fmap in Hx as ([t rest] & -> & _). done.
    - apply Forall_fmap. eapply Forall_impl; [exact Hes|]. intros [t rest] [Ht Hr]. cbn.
      change (without ";" ("tick:" +:+ t +:+ String "," rest) = true).
      unfold without. rewrite !str_forall_app. fold (without ";" t).
      rewrite without_digits by done. exact Hr. }
  rewrite Hsplit. f_equal. clear Hsplit. induction Hes as [|[t rest] es [Ht Hr] _ IH]; [done|].
  cbn [fmap list_fmap mapM]. rewrite IH. f_equal. unfold filter_entry.
  replace (pc_search ("tick:" +:+ t +:+ String "," rest)) with (pc_search rest).
  2:{ change ("tick:" +:+ t +:+ String "," rest)
        with (String "t" (String "i" (String "c" (String "k" (String ":" (t +:+ String "," rest)))))).
      rewrite !pc_search_skip by done. by rewrite pc_search_digits, pc_search_skip. }
  destruct (pc_search rest) as [pc|]; cbn [Prelude.from_option mbind result_bind]; [|done].
  change (startswith "tick:" ("tick:" +:+ t +:+ String "," rest)) with (String.prefix "" (t +:+ String "," rest)).
  replace (String.prefix "" (t +:+ String "," rest)) with true by (by destruct (t +:+ String "," rest)).
  cbn [assert_ mbind result_bind]. unfold str_index.
  replace ("tick:" +:+ t +:+ String "," rest) with (("tick:" +:+ t) +:+ String "," rest) by (by rewrite str_app_assoc).
  rewrite str_find_char.
  2:{ unfold without. rewrite str_forall_app. fold (without "," t). by rewrite without_digits. }
  cbn [Prelude.from_option mbind result_bind]. by rewrite str_drop_app.
Qed.

Lemma filter_log_ignores_ticks_witness :
  let es := [("10", "pc:0x402010,taken"); ("25", "pc:0x500000,taken"); ("31", "pc:0x402004,not")] in
  Forall (λ '(t, rest), str_forall is_digit t = true ∧ without ";" rest = true) es
  ∧ filter_log false (log_text es) = Ok ",pc:0x402010,taken;,pc:0x402004,not".
Proof.
  assert (H : Forall (λ '(t, rest), str_forall is_digit t = true ∧ without ";" rest = true)
    [("10", "pc:0x402010,taken"); ("25", "pc:0x500000,taken"); ("31", "pc:0x402004,not")])
    by (repeat constructor).
  split; [exact H|]. rewrite (filter_log_ignores_ticks _ H). reflexivity.
Defined.

(** ** A small gem5 that answers each message in one-byte segments *)

Module IpcDemo.
Record toy := mkToy { pids : list Z; inbox : list event }.
Definition next_pid (w : toy) : Z := 1 + foldr Z.max 0 (pids w).

Definition segments (bs : list Z) : list event := (λ b, Segment b []) <$> bs.
Definition reply (pids message : list Z) : list Z :=
  let op := le_value (take 8 message) in
  if op =? OP_INIT then pack [OP_ACK_INIT; hd 0 pids]
  else if op =? OP_LOAD_TEST_CASE then pack [OP_ACK_TEST_CASE; hash_bytes (drop 16 message)]
  else if op =? OP_TRACE_TEST_CASE
  then pack [OP_ACK_TRACE_TEST_CASE; hash_bytes (drop 32 message); 3] ++ [52; 48; 57]
  else [].

#[global] Instance toy_gem5 : Gem5 toy := {
  popen _ w := (next_pid w, mkToy (next_pid w :: pids w) (inbox w));
  kill p w := mkToy (List.filter (λ q, negb (q =? p)) (pids w)) (inbox w);
  accept _ w := Some w;
  sendall d w := mkToy (pids w) (inbox w ++ segments (reply (pids w) d));
  incoming := inbox;
  set_incoming es w := mkToy (pids w) es
}.

Lemma max_bound (l : list Z) p : p ∈ l → p ≤ foldr Z.max 0 l.
Proof.
  induction l as [|q l IH]; [by intros ?%elem_of_nil|].
  intros [->|H]%elem_of_cons; cbn; [lia|]. specialize (IH H). lia.
Qed.
#[global] Instance toy_laws : Gem5Laws toy.
Proof.
  refine {| live := pids |}; cbn; try done.
  - intros _ w. unfold next_pid. split.
    + intros H%max_bound. lia.
    + assert (H : ∀ l, 0 ≤ foldr Z.max 0 l) by (induction l; cbn; lia). specialize (H (pids w)). lia.
  - by intros _ w w' [= <-].
Defined.

Definition conf : ipc_conf := mkIpcConf 2 false 4096 true.
Definition start : @ipc toy := mkIpc [7] [7] 7 (Some [1; 2; 3]) (mkToy [7] []).
Definition case : list Z := [0x90; 0x90; 0xc3].
End IpcDemo.

Lemma load_detects_corruption_witness :
  let w := sendall (load_message IpcDemo.case) (world IpcDemo.start) in
  (Forall is_segment (incoming w)
   ∧ stream (incoming w) = pack [OP_ACK_TEST_CASE; hash_bytes IpcDemo.case] ++ [])
  ∧ (IpcDemo.case = [0x90; 0x90; 0xc3] → ∃ s', load_test_case [0x90; 0x90; 0xc3] IpcDemo.start = Ok (tt, s'))
  ∧ (IpcDemo.case = [0x90; 0x91; 0xc3] → 0x90 ≠ 0x91 →
     load_test_case [0x90; 0x90; 0xc3] IpcDemo.start = Raise ValueError).
Proof.
  assert (H1 : Forall is_segment (incoming (sendall (load_message IpcDemo.case) (world IpcDemo.start))))
    by (cbn; repeat constructor).
  assert (H2 : stream (incoming (sendall (load_message IpcDemo.case) (world IpcDemo.start)))
               = pack [OP_ACK_TEST_CASE; hash_bytes IpcDemo.case] ++ []) by reflexivity.
  split; [split; [exact H1|exact H2]|].
  apply (load_detects_corruption [0x90] 0x90 0x91 [0xc3] IpcDemo.case [] IpcDemo.start);
    [discriminate|lia|lia|exact H1|exact H2].
Defined.

Lemma trace_returns_tags_witness :
  let w := sendall (trace_message IpcDemo.conf [1; 2] 0) (world IpcDemo.start) in
  (Forall is_segment (incoming w)
   ∧ stream (incoming w)
     = pack [OP_ACK_TRACE_TEST_CASE; hash_input 4096 [1; 2]; Z.of_nat 3] ++ [52; 48; 57] ++ [])
  ∧ ∃ s', trace_test_case IpcDemo.conf [1; 2] 0 ["data_cache"] IpcDemo.start = Ok ("409", s').
Proof.
  assert (H1 : Forall is_segment (incoming (sendall (trace_message IpcDemo.conf [1; 2] 0) (world IpcDemo.start))))
    by (cbn; repeat constructor).
  assert (H2 : stream (incoming (sendall (trace_message IpcDemo.conf [1; 2] 0) (world IpcDemo.start)))
    = pack [OP_ACK_TRACE_TEST_CASE; hash_input 4096 [1; 2]; Z.of_nat 3] ++ [52; 48; 57] ++ []) by reflexivity.
  split; [split; [exact H1|exact H2]|].
  apply (trace_returns_tags IpcDemo.conf [1; 2] 0 ["data_cache"] [52; 48; 57] "409" [] IpcDemo.start);
    [|exact H1|cbn; lia|reflexivity|exact H2].
  intros src Hs ->%list_elem_of_singleton. revert Hs. in_notin.
Defined.

Lemma restart_keeps_pool_witness :
  pool_ok IpcDemo.conf IpcDemo.start
  ∧ ∃ s', restart_gem5 IpcDemo.conf "amulet" ["gem5"; "SOCKET"] IpcDemo.start = Ok (tt, s')
        ∧ pool_ok IpcDemo.conf s' ∧ Z.of_nat (length (processes s')) = parallelism IpcDemo.conf
        ∧ active_process s' ∈ processes s'.
Proof.
  assert (H : pool_ok IpcDemo.conf IpcDemo.start).
  { unfold pool_ok. cbn. split_and!; [apply NoDup_singleton|done| |right; by left|lia].
    intros p ->%list_elem_of_singleton. split; [by apply list_elem_of_singleton|done]. }
  split; [exact H|].
  pose proof (restart_keeps_pool IpcDemo.conf "amulet" ["gem5"; "SOCKET"] IpcDemo.start H) as Hr.
  destruct (succeeds_Ok (restart_gem5 IpcDemo.conf "amulet" ["gem5"; "SOCKET"] IpcDemo.start))
    as [[[] s'] E]; [vm_compute; reflexivity|].
  rewrite E in Hr. exists s'. split; [exact E|exact Hr].
Defined.
