(* ===== verification/Protolib.v ===== *)
(** * Length-prefixed messages

    The varint framing of [src/src/protolib.py] and the stream of messages it
    carries. A file is the list of its bytes; serialising and parsing a message
    is the protobuf library's, a class of two functions and their law. *)

From S2P Require Import Prelude Util.

Open Scope Z_scope.

(** ** Varints *)

(** The end of the varint: 32 bits are kept; a value of 64 bits with its top bit
    set becomes negative. *)
Definition varint_result (result : Z) : Z :=
  let mask := 0xffffffff in
  if 0x7fffffffffffffff <? result
  then Z.lor (result - Z.shiftl 1 64) (Z.lnot mask)
  else Z.land result mask.

(** [_DecodeVarint32]: at the end of the file (0, 0); the fuel is the ten bytes
    after which the shift reaches 64. *)
Fixpoint decode_varint (fuel : nat) (result : Z) (shift : Z) (pos : Z) (in_file : list Z)
    : Prelude.result (Z * Z * list Z) :=
  match in_file with
  | [] => Ok (0, 0, [])
  | b :: in_file =>
      let result := Z.lor result (Z.shiftl (Z.land b 0x7f) shift) in
      let pos := pos + 1 in
      if Z.land b 0x80 =? 0 then
        Ok (varint_result result, pos, in_file)
      else match fuel with
           | O => Raise IOError
           | S fuel => decode_varint fuel result (shift + 7) pos in_file
           end
  end.
Definition _DecodeVarint32 (in_file : list Z) : Prelude.result (Z * Z * list Z) :=
  decode_varint 9 0 0 0 in_file.

(** [_EncodeVarint32] for a value that is not negative; the fuel bounds its 7-bit digits. *)
Fixpoint encode_varint (fuel : nat) (bits value : Z) : Prelude.result (list Z) :=
  if value =? 0 then Ok [bits]
  else match fuel with
       | O => Raise OutOfFuel
       | S fuel =>
           rest ← encode_varint fuel (Z.land value 0x7f) (Z.shiftr value 7);
           Ok (Z.lor 0x80 bits :: rest)
       end.
Definition _EncodeVarint32 (value : Z) : Prelude.result (list Z) :=
  encode_varint (Z.to_nat (Z.log2 value)) (Z.land value 0x7f) (Z.shiftr value 7).

(** [in_file.read(size)]: a negative size reads everything. *)
Definition read (size : Z) (in_file : list Z) : list Z * list Z :=
  if size <? 0 then (in_file, []) else (take (Z.to_nat size) in_file, drop (Z.to_nat size) in_file).

(** ** Messages *)

(** [message.SerializeToString()] and [message.ParseFromString(buf)]. *)
Class Message (message : Type) := {
  SerializeToString : message → list Z;
  ParseFromString : list Z → Prelude.result message }.

(** What protobuf documents: parsing the serialised message gives it back. *)
Class MessageLaw (message : Type) `{!Message message} :=
  parse_serialize : ∀ m : message, ParseFromString (SerializeToString m) = Ok m.

Section messages.
Context {message : Type} `{!Message message}.

(** [decodeMessage]: [None] when no message could be read. *)
Definition decodeMessage (in_file : list Z) : Prelude.result (option message * list Z) :=
  match _DecodeVarint32 in_file with
  | Raise IOError => Ok (None, in_file)
  | Raise e => Raise e
  | Ok (size, pos, in_file) =>
      if size =? 0 then Ok (None, in_file)
      else
        let '(buf, in_file) := read size in_file in
        m ← ParseFromString buf; Ok (Some m, in_file)
  end.

(** [encodeMessage]: the bytes appended to the file. *)
Definition encodeMessage (m : message) : Prelude.result (list Z) :=
  let out := SerializeToString m in
  prefix ← _EncodeVarint32 (Z.of_nat (length out)); Ok (prefix ++ out).

(** [while protolib.decodeMessage(proto_in, packet)]; every turn reads a byte. *)
Fixpoint decode_all (fuel : nat) (in_file : list Z) : Prelude.result (list message) :=
  match fuel with
  | O => Raise OutOfFuel
  | S fuel =>
      '(m, in_file) ← decodeMessage in_file;
      match m with
      | None => Ok []
      | Some m => ms ← decode_all fuel in_file; Ok (m :: ms)
      end
  end.
End messages.

(** ** Varints round trip *)

Lemma continuation_byte bits :
  0 ≤ bits < 128 →
  Z.land (Z.lor 0x80 bits) 0x7f = bits ∧ Z.land (Z.lor 0x80 bits) 0x80 = 0x80 ∧ Z.land bits 0x80 = 0
  ∧ Z.land bits 0x7f = bits.
Proof.
  intros H.
  assert (Hall : forallb (λ n, let b := Z.of_nat n in
    (Z.land (Z.lor 0x80 b) 0x7f =? b) && (Z.land (Z.lor 0x80 b) 0x80 =? 0x80) &&
    (Z.land b 0x80 =? 0) && (Z.land b 0x7f =? b)) (seq 0 128) = true) by reflexivity.
  rewrite forallb_forall in Hall. specialize (Hall (Z.to_nat bits)).
  rewrite in_seq, Z2Nat.id in Hall by lia. cbv zeta in Hall.
  rewrite !andb_true_iff, !Z.eqb_eq in Hall. naive_solver lia.
Qed.

Lemma low_digit v : 0 ≤ v →
  0 ≤ Z.land v 0x7f < 128 ∧ 0 ≤ Z.shiftr v 7 ∧ v = Z.land v 0x7f + 128 * Z.shiftr v 7.
Proof.
  intros Hv. change 0x7f with (Z.ones 7). rewrite Z.land_ones, Z.shiftr_div_pow2 by lia.
  pose proof (Z.div_mod v (2 ^ 7)). pose proof (Z.mod_pos_bound v (2 ^ 7)).
  pose proof (Z.div_pos v (2 ^ 7)). lia.
Qed.

Lemma encode_varint_runs fuel bits value n :
  (n ≤ fuel)%nat → 0 ≤ value < 2 ^ (7 * Z.of_nat n) →
  ∃ bs, encode_varint fuel bits value = Ok bs ∧ (1 ≤ length bs ≤ S n)%nat.
Proof.
  revert fuel bits value. induction n as [|n IH]; intros fuel bits value Hn Hv.
  { assert (value = 0) as -> by lia. exists [bits]. by destruct fuel. }
  destruct fuel as [|fuel]; [lia|]. cbn [encode_varint].
  destruct (Z.eqb_spec value 0) as [->|Hv0]; [exists [bits]; cbn; split; [done|lia]|].
  destruct (low_digit value) as (Hl & Hs & Heq); [lia|].
  destruct (IH fuel (Z.land value 0x7f) (Z.shiftr value 7)) as (bs & -> & Hb); [lia| |].
  { split; [lia|]. rewrite Nat2Z.inj_succ, Z.mul_succ_r, Z.pow_add_r in Hv by lia. lia. }
  eexists. split; [done|]. cbn. lia.
Qed.

Lemma decode_encode fuel_e bits value bs fuel acc shift pos rest :
  0 ≤ bits < 128 → 0 ≤ value → 0 ≤ shift → 0 ≤ acc < 2 ^ shift →
  encode_varint fuel_e bits value = Ok bs → (length bs ≤ S fuel)%nat →
  decode_varint fuel acc shift pos (bs ++ rest)
  = Ok (varint_result (acc + (bits + 128 * value) * 2 ^ shift), pos + Z.of_nat (length bs), rest).
Proof.
  revert bits value bs fuel acc shift pos.
  induction fuel_e as [|fuel_e IH]; intros bits value bs fuel acc shift pos Hb Hv Hs Ha He Hl;
    cbn [encode_varint] in He; destruct (continuation_byte bits Hb) as (E1 & E2 & E3 & E4);
    destruct (Z.eqb_spec value 0) as [->|Hv0].
  1, 3: injection He as <-; cbn [app length];
    destruct fuel; cbn -[Z.land Z.shiftl Z.lor Z.mul Z.add varint_result];
    rewrite E3, E4, lor_shift_add by lia; cbn [Z.eqb]; rewrite Z.mul_0_r, Z.add_0_r; reflexivity.
  { done. }
  inv_ok. destruct (low_digit value) as (Hl' & Hs' & Heq); [lia|]. cbn in Hl.
  assert (Hne : (1 ≤ length a)%nat).
  { destruct fuel_e; cbn in He0; destruct (_ =? 0); inv_ok; cbn; lia. }
  destruct fuel as [|fuel]; [lia|]. cbn -[Z.land Z.shiftl Z.lor Z.mul Z.add].
  rewrite E1, E2, lor_shift_add by lia. cbn -[Z.land Z.shiftl Z.lor Z.mul Z.add].
  rewrite (IH (Z.land value 0x7f) (Z.shiftr value 7) a); try done; try lia.
  - rewrite Z.pow_add_r by lia. rewrite <- Heq. do 2 f_equal. f_equal; [|cbn; lia].
    f_equal. change (2 ^ 7) with 128. ring.
  - rewrite Z.pow_add_r by lia. nia.
Qed.

(** [varint_result] of a 64-bit value keeps its low 32 bits. *)
Lemma varint_result_spec v : 0 ≤ v < 2 ^ 64 →
  varint_result v = if v <? 2 ^ 63 then v mod 2 ^ 32 else v mod 2 ^ 32 - 2 ^ 32.
Proof.
  intros Hv. unfold varint_result. cbv zeta. change 0xffffffff with (Z.ones 32).
  destruct (Z.ltb_spec 0x7fffffffffffffff v), (Z.ltb_spec v (2 ^ 63)); try lia; cycle 1.
  { by rewrite Z.land_ones. }
  rewrite Z.shiftl_1_l. apply Z.bits_inj'. intros i Hi.
  rewrite Z.lor_spec, Z.lnot_spec by lia.
  replace (v mod 2 ^ 32 - 2 ^ 32) with (v mod 2 ^ 32 + (-1) * 2 ^ 32) by lia.
  replace (v - 2 ^ 64) with (v + (-1) * 2 ^ 32 * 2 ^ 32) by lia.
  destruct (decide (i < 32)).
  - rewrite Z.ones_spec_low, orb_false_r by lia.
    rewrite <- (Z.mod_pow2_bits_low (v + _) 32 i) by lia.
    rewrite <- (Z.mod_pow2_bits_low (v mod 2 ^ 32 + _) 32 i) by lia.
    by rewrite !Z_mod_plus_full, Zmod_mod.
  - rewrite Z.ones_spec_high, orb_true_r by lia. symmetry.
    replace i with (i - 32 + 32) by lia. rewrite <- Z.shiftr_spec by lia.
    rewrite Z.shiftr_div_pow2, Z.div_add by lia.
    rewrite Z.div_small by (apply Z.mod_pos_bound; lia). apply Z.bits_m1. lia.
Qed.

Lemma varint_decodes v : 0 ≤ v < 2 ^ 64 →
  ∃ bs, _EncodeVarint32 v = Ok bs ∧ (1 ≤ length bs ≤ 10)%nat
      ∧ ∀ rest, _DecodeVarint32 (bs ++ rest) = Ok (varint_result v, Z.of_nat (length bs), rest).
Proof.
  intros Hv. unfold _EncodeVarint32, _DecodeVarint32.
  destruct (low_digit v) as (Hl & Hs & Heq); [lia|].
  destruct (encode_varint_runs (Z.to_nat (Z.log2 v)) (Z.land v 0x7f) (Z.shiftr v 7)
    (Z.to_nat (Z.log2 v) `min` 9)) as (bs & He & Hb); [lia| |].
  { split; [done|]. pose proof (Z.log2_nonneg v).
    destruct (decide (v = 0)) as [->|Hv0]; [done|].
    destruct (Z.log2_spec v) as [_ Hlog]; [lia|].
    destruct (decide (Z.log2 v <= 9)).
    - destruct (decide (Z.log2 v = 0)) as [E|]; [rewrite E in *; cbn in *; lia|].
      eapply Z.lt_le_trans; [|apply Z.pow_le_mono_r with (b := Z.log2 v); lia].
      rewrite Z.pow_succ_r in Hlog by lia. lia.
    - replace (7 * _) with 63 by lia. lia. }
  exists bs. split; [done|]. split; [lia|]. intros rest.
  rewrite (decode_encode _ _ _ bs) with (1 := Hl) (5 := He); try lia.
  by rewrite Z.mul_1_r, <- Heq.
Qed.

(** What [_EncodeVarint32] writes, [_DecodeVarint32] reads back, whatever follows it
    in the file, and it stops at the byte after it: below 2^32 the value itself. Above,
    the low 32 bits remain, and a 64-bit value with its top bit set reads as a negative
    number. At most ten bytes are written, so that the decoder never gives up. *)
Theorem varint_roundtrip v : 0 ≤ v < 2 ^ 64 →
  ∃ bs, _EncodeVarint32 v = Ok bs ∧ (1 ≤ length bs ≤ 10)%nat
      ∧ ∀ rest, _DecodeVarint32 (bs ++ rest)
          = Ok (if v <? 2 ^ 63 then v mod 2 ^ 32 else v mod 2 ^ 32 - 2 ^ 32,
                Z.of_nat (length bs), rest).
Proof.
  intros Hv. destruct (varint_decodes v Hv) as (bs & He & Hl & Hd).
  exists bs. split; [done|]. split; [done|]. intros rest. by rewrite Hd, varint_result_spec.
Qed.

Lemma varint_roundtrip_witness :
  0 ≤ 0xFFFFFFFF00000005 < 2 ^ 64
  ∧ ∃ bs, _EncodeVarint32 0xFFFFFFFF00000005 = Ok bs ∧ (1 ≤ length bs ≤ 10)%nat
      ∧ ∀ rest, _DecodeVarint32 (bs ++ rest)
          = Ok (if 0xFFFFFFFF00000005 <? 2 ^ 63 then 0xFFFFFFFF00000005 mod 2 ^ 32
                else 0xFFFFFFFF00000005 mod 2 ^ 32 - 2 ^ 32, Z.of_nat (length bs), rest).
Proof. split; [lia|]. apply varint_roundtrip. lia. Defined.

(** ** Streams round trip *)

Section stream.
Context {message : Type} `{!Message message, !MessageLaw message}.
Implicit Types m : message.

Lemma encodeMessage_decodes m rest :
  Z.of_nat (length (SerializeToString m)) < 2 ^ 32 →
  ∃ bs, encodeMessage m = Ok bs ∧ (1 ≤ length bs)%nat
      ∧ ((SerializeToString m = [] ∧ decodeMessage (message := message) (bs ++ rest) = Ok (None, rest))
         ∨ (SerializeToString m ≠ [] ∧ decodeMessage (bs ++ rest) = Ok (Some m, rest))).
Proof.
  intros Hlen. set (out := SerializeToString m) in *.
  destruct (varint_decodes (Z.of_nat (length out))) as (prefix & He & Hp & Hd); [lia|].
  exists (prefix ++ out). unfold encodeMessage. fold out. rewrite He. cbn [mbind result_bind].
  split; [done|]. rewrite length_app. split; [lia|].
  unfold decodeMessage. rewrite <- app_assoc, Hd, varint_result_spec by lia.
  rewrite (proj2 (Z.ltb_lt _ (2 ^ 63))), Z.mod_small by lia.
  destruct (decide (out = [])) as [E|E]; [left|right]; (split; [done|]).
  - rewrite E. done.
  - rewrite (proj2 (Z.eqb_neq (Z.of_nat (length out)) 0)) by (destruct out; [done|cbn; lia]).
    unfold read. rewrite (proj2 (Z.ltb_ge _ 0)), Nat2Z.id by lia.
    rewrite take_app_length, drop_app_length. unfold out. by rewrite parse_serialize.
Qed.

Lemma decode_all_enough fuel fuel' bs :
  (fuel' ≤ fuel)%nat → (∃ ms, decode_all (message := message) fuel' bs = Ok ms) →
  decode_all (message := message) fuel bs = decode_all fuel' bs.
Proof.
  revert fuel bs. induction fuel' as [|fuel' IH]; intros fuel bs Hle [ms Hok]; [done|].
  destruct fuel as [|fuel]; [lia|]. cbn [decode_all] in *.
  destruct (decodeMessage bs) as [[[m|] rest]|]; cbn [mbind result_bind] in *; try done.
  inv_ok. rewrite (IH fuel) by (eauto with lia). done.
Qed.

(** The messages before the first one that serialises to nothing. *)
Fixpoint until_empty (ms : list message) : list message :=
  match ms with
  | [] => []
  | m :: ms => if bool_decide (SerializeToString m = []) then [] else m :: until_empty ms
  end.

(** Messages shorter than 2^32 bytes written one after the other with
    [encodeMessage] are what the reading loop over [decodeMessage] returns, up to
    the first message that serialises to no bytes: its size of zero reads as the
    end of the file. *)
Theorem message_stream_roundtrip ms :
  (∀ m, m ∈ ms → Z.of_nat (length (SerializeToString m)) < 2 ^ 32) →
  ∃ body, mapM encodeMessage ms = Ok body
        ∧ decode_all (S (length (mjoin body))) (mjoin body) = Ok (until_empty ms).
Proof.
  induction ms as [|m ms IH]; intros Hlen; [by exists []|].
  destruct IH as (body & Hb & Hd); [intros; apply Hlen; by right|].
  destruct (encodeMessage_decodes m (mjoin body)) as (bs & He & Hne & Hdm); [apply Hlen; by left|].
  exists (bs :: body). cbn [mapM]. rewrite He. cbn [mbind result_bind]. rewrite Hb. split; [done|].
  change (mjoin (bs :: body)) with (bs ++ mjoin body). cbn [until_empty decode_all].
  destruct Hdm as [[E ->]|[E ->]]; cbn [mbind result_bind].
  - by rewrite bool_decide_true.
  - rewrite bool_decide_false by done.
    rewrite (decode_all_enough _ (S (length (mjoin body)))); [by rewrite Hd| |eauto].
    rewrite length_app. lia.
Qed.
End stream.

(** Messages of one small number, serialised to that many zero bytes. *)
Module MessageDemo.
Definition message := nat.
#[global] Instance message_message : Message message := {
  SerializeToString n := repeat 0 n;
  ParseFromString bs := Ok (length bs) }.
#[global] Instance message_law : MessageLaw message.
Proof. intros n. cbn. by rewrite repeat_length. Qed.
Definition sent : list message := [200; 3; 0; 7]%nat.
End MessageDemo.

Lemma message_stream_roundtrip_witness :
  let ms := MessageDemo.sent in
  (∀ m, m ∈ ms → Z.of_nat (length (SerializeToString m)) < 2 ^ 32)
  ∧ until_empty ms = [200; 3]%nat
  ∧ ∃ body, mapM encodeMessage ms = Ok body
          ∧ decode_all (S (length (mjoin body))) (mjoin body) = Ok (until_empty ms).
Proof.
  assert (H : ∀ m, m ∈ MessageDemo.sent → Z.of_nat (length (SerializeToString m)) < 2 ^ 32).
  { intros m Hm. cbn -[Z.pow]. rewrite repeat_length.
    repeat (apply elem_of_cons in Hm as [->|Hm]; [lia|]). by apply elem_of_nil in Hm. }
  split; [exact H|]. split; [reflexivity|]. apply (message_stream_roundtrip _ H).
Defined.
