(* ===== verification/Packets.v ===== *)
(** * Packet traces

    [read_packets] and [write_packets] of [src/src/executor.py] over the message streams of
    [Protolib].  Their entries are instances of a class [TraceEntry] that is defined
    nowhere, so that building one, or naming its type, raises NameError.  gzip and [make] are
    not modelled: a file is the list of its bytes. *)

From S2P Require Import Prelude Protolib.

Open Scope Z_scope.

(** The fields of a packet the code reads. *)
Record packet_fields := mkPacketFields {
  pk_tick : Z; pk_cmd : Z; pk_addr : Z; pk_size : Z; pk_pc : Z; pk_sq : Z }.

(** The arguments of the constructor. *)
Record trace_entry := mkTraceEntry {
  te_tick : Z; te_raw_cmd : Z; te_cmd : string; te_raw_addr : Z; te_addr : Z; te_size : Z; te_pc : Z; te_sq : Z }.

(** The name [TraceEntry]. *)
Definition TraceEntry {A} : result A := Raise NameError.

Section packets.
Context (OVERFLOW_REGION_SIZE CACHELINE_SIZE : Z).
Context {header packet : Type} `{Mh : !Message header, Mp : !Message packet} (fields : packet → packet_fields).
(** A message as it is created. *)
Context (new_header : header).

Definition relative_addr (p : packet_fields) : Z :=
  (pk_addr p - OVERFLOW_REGION_SIZE) / CACHELINE_SIZE * CACHELINE_SIZE.
Definition relative_cmd (p : packet_fields) : string :=
  if pk_cmd p =? 1 then "r" else if pk_cmd p =? 4 then "w" else "u".
Definition entry_arguments (p : packet_fields) : trace_entry :=
  mkTraceEntry (pk_tick p) (pk_cmd p) (relative_cmd p) (pk_addr p) (relative_addr p) (pk_size p) (pk_pc p) (pk_sq p).

(** The loop; every turn reads a byte. *)
Fixpoint read_entries (fuel : nat) (in_file : list Z) : result (list trace_entry) :=
  match fuel with
  | O => Raise OutOfFuel
  | S fuel =>
      '(m, in_file) ← decodeMessage (message := packet) in_file;
      match m with
      | None => Ok []
      | Some m =>
          new ← TraceEntry (A := trace_entry → trace_entry);
          rest ← read_entries fuel in_file;
          Ok (new (entry_arguments (fields m)) :: rest)
      end
  end.

(** "gem5" *)
Definition magic_number : list Z := [103; 101; 109; 53].

(** The header stays as it was created when it cannot be read. *)
Definition read_packets (in_file : list Z) : result (list trace_entry * header) :=
  let '(magic, in_file) := read 4 in_file in
  if negb (bool_decide (magic = magic_number)) then Raise SystemExit
  else
    '(h, in_file) ← decodeMessage (message := header) in_file;
    packets ← read_entries (S (length in_file)) in_file;
    Ok (packets, default new_header h).

(** The bytes of the file; the first [assert] names the class. *)
Definition write_packets {entry} (packets : list entry) (h : header) (to_packet : entry → packet) : result (list Z) :=
  hs ← encodeMessage h;
  ps ← mapM (λ e, isinstance ← TraceEntry (A := entry → bool);
                  assert_ (isinstance e) AssertionError;; encodeMessage (to_packet e)) packets;
  Ok (magic_number ++ hs ++ mjoin ps).

(** ** Only empty traces are read and written *)

Lemma read_entries_nothing fuel in_file packets :
  read_entries fuel in_file = Ok packets → packets = [] ∧ ∃ rest, decodeMessage (message := packet) in_file = Ok (None, rest).
Proof.
  destruct fuel as [|fuel]; [done|]. cbn [read_entries]. intros H.
  apply bind_Ok in H as ([[m|] rest] & E & H); [done|]. injection H as <-. split; [done|by exists rest].
Qed.

Lemma read_packets_nothing in_file packets h : read_packets in_file = Ok (packets, h) → packets = [].
Proof.
  unfold read_packets. destruct (read 4 in_file) as [magic rest]. case_match; [done|]. intros HR.
  apply bind_Ok in HR as ([h' rest'] & _ & HR). apply bind_Ok in HR as (ps & Hps & [= <- _]).
  by apply read_entries_nothing in Hps as [-> _].
Qed.

Lemma read_packets_fails (p : packet) (h : header) hs ps rest :
  MessageLaw header → MessageLaw packet →
  Z.of_nat (length (SerializeToString h)) < 2 ^ 32 → Z.of_nat (length (SerializeToString p)) < 2 ^ 32 →
  SerializeToString h ≠ [] → SerializeToString p ≠ [] →
  encodeMessage h = Ok hs → encodeMessage p = Ok ps →
  read_packets (magic_number ++ hs ++ ps ++ rest) = Raise NameError.
Proof.
  intros Hh Hp Hlh Hlp Hnh Hnp Eh Ep. unfold read_packets. change 4 with (Z.of_nat (length magic_number)).
  unfold read. rewrite (proj2 (Z.ltb_ge _ 0)), Nat2Z.id, take_app_length, drop_app_length by lia.
  rewrite bool_decide_true by done. cbn [negb].
  destruct (encodeMessage_decodes h (ps ++ rest) Hlh) as (bs & E & _ & Hd). rewrite Eh in E. injection E as <-.
  destruct Hd as [[? _]|[_ ->]]; [done|]. cbn [mbind result_bind read_entries].
  destruct (encodeMessage_decodes p rest Hlp) as (bs & E & _ & Hd). rewrite Ep in E. injection E as <-.
  destruct Hd as [[? _]|[_ ->]]; [done|]. done.
Qed.

Lemma write_packets_empty {entry} (packets : list entry) (h : header) to_packet :
  ∀ hs, encodeMessage h = Ok hs →
  write_packets packets h to_packet = if bool_decide (packets = []) then Ok (magic_number ++ hs) else Raise NameError.
Proof.
  intros hs Eh. unfold write_packets. rewrite Eh. destruct packets; [|done]. cbn. by rewrite app_nil_r.
Qed.
End packets.

(** A trace of one packet, written by another program, is not read; an empty one is. *)
Example read_one_packet :
  read_packets 4096 64 (header := MessageDemo.message) (packet := MessageDemo.message) (λ _, mkPacketFields 0 0 0 0 0 0) 0%nat
    (magic_number ++ [1; 0] ++ [2; 0; 0]) = Raise NameError.
Proof. by vm_compute. Qed.
Example read_no_packet :
  read_packets 4096 64 (header := MessageDemo.message) (packet := MessageDemo.message) (λ _, mkPacketFields 0 0 0 0 0 0) 0%nat
    (magic_number ++ [1; 0]) = Ok ([], 1%nat).
Proof. by vm_compute. Qed.
