(* ===== verification/Parser.v ===== *)
(** * The assembly parser

    [parse_existing_test_case] and [_parse_instruction] of [X86Generator] in
    [src/src/generator.py]: how a test case printed earlier (or written by hand)
    becomes functions, blocks and instructions again.  The parser makes two
    passes over the lines of the file and a third one over the blocks; it
    allocates in the stores of the [world] and draws the implicit operands. *)

From S2P Require Import Prelude.
From S2P Require Import Isa.
From S2P Require Import Text.
From S2P Require Import BasicBlock.
From S2P Require Import Generator.
From S2P Require Import Passes.

Open Scope Z_scope.

(** ** Tables of the class *)

Definition memory_sizes (s : string) : option Z :=
  if bool_decide (s = "byte") then Some 8 else if bool_decide (s = "word") then Some 16
  else if bool_decide (s = "dword") then Some 32 else if bool_decide (s = "qword") then Some 64
  else None.

Definition asm_prefixes : list string := ["LOCK"; "REX"; "REP"; "REPE"; "REPNE"].

Definition asm_synonyms : gmap string string := list_to_map
  [("JE", "JZ"); ("JNE", "JNZ"); ("JNAE", "JB"); ("JC", "JB"); ("JAE", "JNB"); ("JNC", "JNB");
   ("JNA", "JBE"); ("JA", "JNBE"); ("JNGE", "JL"); ("JGE", "JNL"); ("JNG", "JLE");
   ("JG", "JNLE"); ("JPE", "JP"); ("JPO", "JNP");
   ("CMOVE", "CMOVZ"); ("CMOVNE", "CMOVNZ"); ("CMOVNAE", "CMOVB"); ("CMOVC", "CMOVB");
   ("CMOVAE", "CMOVNB"); ("CMOVNC", "CMOVNB"); ("CMOVNA", "CMOVBE"); ("CMOVA", "CMOVNBE");
   ("CMOVNGE", "CMOVL"); ("CMOVGE", "CMOVNL"); ("CMOVNG", "CMOVLE"); ("CMOVG", "CMOVNLE");
   ("CMOVPE", "CMOVP"); ("CMOVPO", "CMOVNP")].

(** ** Text of a line *)

(** [line[0] in ["", "#", "/"]], and the empty line. *)
Definition trivial_line (line : string) : bool :=
  match line with
  | EmptyString => true
  | String c _ => Ascii.eqb c "#" || Ascii.eqb c "/"
  end.

Fixpoint drop_while (p : ascii → bool) (s : string) : string :=
  match s with
  | String c s' => if p c then drop_while p s' else s
  | EmptyString => EmptyString
  end.

(** The group of the comment pattern: what stands before the last [c]. *)
Fixpoint before_last (c : ascii) (s : string) : option string :=
  match s with
  | EmptyString => None
  | String a s =>
      match before_last c s with
      | Some t => Some (String a t)
      | None => if Ascii.eqb a c then Some EmptyString else None
      end
  end.
Fixpoint after_first (c : ascii) (s : string) : option string :=
  match s with
  | EmptyString => None
  | String a s => if Ascii.eqb a c then Some s else after_first c s
  end.
(** The group of the address pattern: between the first opening bracket and the
    last closing one. *)
Definition between_brackets (s : string) : option string := after_first "[" s ≫= before_last "]".

Definition is_hex_digit (c : ascii) : bool :=
  let n := N_of_ascii c in is_digit c || ((97 <=? n) && (n <=? 102))%N.
Definition is_bit (c : ascii) : bool := Ascii.eqb c "0" || Ascii.eqb c "1".
Definition some_of (p : ascii → bool) (s : string) : bool := negb (s =? "")%string && str_forall p s.

(** The four patterns of an immediate; each may follow one minus sign. *)
Definition is_immediate (op_raw : string) : bool :=
  let s := match op_raw with String "-" s => s | _ => op_raw end in
  isdigit s ||
  (startswith "0x" s && some_of is_hex_digit (str_drop 2 s)) ||
  (startswith "0b" s && some_of is_bit (str_drop 2 s)) ||
  match s with
  | String c s =>
      is_digit c &&
      match drop_while (Ascii.eqb " ") (drop_while is_digit s) with
      | String c s =>
          (Ascii.eqb c "+" || Ascii.eqb c "-") && isdigit (drop_while (Ascii.eqb " ") s)
      | EmptyString => false
      end
  | EmptyString => false
  end.

(** ** [_parse_instruction] *)

(** The dictionary of the second pass: specifications by name, in order. *)
Definition add_spec (m : gmap string (list InstructionSpec)) (spec : InstructionSpec)
    : gmap string (list InstructionSpec) :=
  match m !! is_name spec with
  | Some l => <[is_name spec := l ++ [spec]]> m
  | None => <[is_name spec := [spec]]> m
  end.
Definition instruction_map (isa : list InstructionSpec) : gmap string (list InstructionSpec) :=
  fold_left add_spec isa ∅.

(** The loop over the words: the name as written and the key it is looked up by. *)
Fixpoint parse_name (name : string) (ws : list string) : option (string * string) :=
  match ws with
  | [] => None
  | word :: ws =>
      if mem word asm_prefixes then parse_name (name +:+ word +:+ " ") ws
      else
        Some (name +:+ word,
              match asm_synonyms !! upper word with
              | Some synonym => upper name +:+ synonym
              | None => upper (name +:+ word)
              end)
  end.

(** [remove_prefix(line, name).split(",")], cleaned. *)
Definition operands_of_line (line name : string) : list string :=
  let operands_raw := split "," (remove_prefix line name) in
  if bool_decide (operands_raw = [""]) then [] else strip <$> operands_raw.

Section instruction.
Context (draws : nat → Z) (conf : gen_conf).

(** One operand against its specification. *)
Definition match_operand (op_raw : string) (op_spec : OperandSpec) : result bool :=
  c ← from_option IndexError (String.get 0 op_raw);
  if Ascii.eqb c "." then Ok (bool_decide (os_type op_spec = LABEL))
  else if str_in "[" op_raw then
    if negb (mem (os_type op_spec) [AGEN; MEM]) then Ok false
    else
      access_size ← from_option IndexError (head (words op_raw));
      size ← from_option AsmParserException (memory_sizes access_size);
      Ok (os_width op_spec =? size)
  else if is_immediate op_raw then Ok (bool_decide (os_type op_spec = IMM))
  else if bool_decide (os_type op_spec = REG) then
    regs ← from_option KeyError (register_set conf !! os_width op_spec);
    Ok (mem (upper op_raw) regs)
  else Ok false.

(** Does the last branch of the loop body apply, the one that does not [break]? *)
Definition keeps_looking (op_raw : string) (op_spec : OperandSpec) : bool :=
  negb (startswith "." op_raw) && negb (str_in "[" op_raw) && negb (is_immediate op_raw) &&
  negb (bool_decide (os_type op_spec = REG)).

Fixpoint match_operands (ops : list (string * OperandSpec)) (so_far : bool) : result bool :=
  match ops with
  | [] => Ok so_far
  | (op_raw, op_spec) :: ops =>
      b ← match_operand op_raw op_spec;
      if (b : bool) then match_operands ops so_far
      else if keeps_looking op_raw op_spec then match_operands ops false
      else Ok false
  end.

Fixpoint matching_specs (specs : list InstructionSpec) (operands_raw : list string)
    : result (list InstructionSpec) :=
  match specs with
  | [] => Ok []
  | spec :: specs =>
      b ← (if bool_decide (length (is_operands spec) = length operands_raw)
           then match_operands (zip operands_raw (is_operands spec)) true else Ok false);
      l ← matching_specs specs operands_raw;
      Ok (if (b : bool) then spec :: l else l)
  end.

(** Specifications with a magic value win; then the first one does. *)
Definition prefer_magic (l : list InstructionSpec) : list InstructionSpec :=
  if (1 <? length l)%nat then
    match select is_has_magic_value l with [] => l | magic => magic end
  else l.

Definition make_operand (spec : InstructionSpec) (op_raw : string) (op_spec : OperandSpec)
    : result Operand :=
  match os_type op_spec with
  | REG => Ok (new_RegisterOperand op_raw (os_width op_spec) (os_src op_spec) (os_dest op_spec))
  | MEM =>
      address ← from_option AsmParserException (between_brackets op_raw);
      Ok (new_MemoryOperand address (os_width op_spec) (os_src op_spec) (os_dest op_spec))
  | IMM => Ok (new_ImmediateOperand op_raw (os_width op_spec))
  | LABEL => assert_ (is_control_flow spec) AssertionError;; Ok (new_LabelOperand op_raw)
  | _ => Ok (new_AgenOperand op_raw (os_width op_spec))
  end.

Fixpoint make_operands (spec : InstructionSpec) (ops : list (string * OperandSpec))
    : result (list Operand) :=
  match ops with
  | [] => Ok []
  | (op_raw, op_spec) :: ops =>
      op ← make_operand spec op_raw op_spec;
      l ← make_operands spec ops;
      Ok (op :: l)
  end.

Definition strip_comment (line : string) : string :=
  match before_last "#" line with Some l => strip l | None => line end.

(** The explicit part of an instruction: its specification, whether the line
    carries the instrumentation mark, and its operands. *)
Definition parse_explicit (imap : gmap string (list InstructionSpec)) (line : string)
    : result (InstructionSpec * Instruction) :=
  '(name, key) ← from_option AsmParserException (parse_name "" (words line));
  let specs := default [] (imap !! key) in
  assert_ (negb (bool_decide (specs = []))) AsmParserException;;
  let operands_raw := operands_of_line (strip_comment line) name in
  l ← matching_specs specs operands_raw;
  spec ← from_option AsmParserException (head (prefer_magic l));
  ops ← make_operands spec (zip operands_raw (is_operands spec));
  Ok (spec, set_operands (from_spec spec (endswith "# instrumentation" line)) ops).

(** The pattern of the protection prefix: [.byte], white space, [0x36]. *)
Definition is_prot_prefix (line : string) : bool :=
  let line := Text.lstrip line in
  startswith ".byte" line &&
  match str_drop 5 line with
  | String c s => is_space c && startswith "0x36" (Text.lstrip s)
  | EmptyString => false
  end.

(** The closing loop: the implicit operands are generated afresh. *)
Definition add_implicit_operands (spec : InstructionSpec) : Instruction → M Instruction :=
  for_m (λ op_spec inst,
           '(op, inst) ← generate_operand draws conf op_spec inst;
           mret (add_op inst op true))
    (is_implicit_operands spec).

Definition _parse_instruction (imap : gmap string (list InstructionSpec)) (line : string)
    : M Instruction :=
  if is_prot_prefix line then mret (new_Instruction ".byte 0x36" false "" false)
  else
    '(spec, inst) ← lift (parse_explicit imap line);
    add_implicit_operands spec inst.

(** ** First pass: functions and blocks *)

Definition make_function (name : string) : M Function :=
  entry ← new_bb (entry_name name);
  exit ← new_bb (exit_name name);
  mret (new_Function name entry exit).

Record scan := mkScan {
  sc_started : bool;
  sc_prologue : nat;
  sc_functions : list Function
}.

(** [current_function.insert(bb)]: the current function is the last one appended. *)
Definition insert_in_last (bb : nat) (fs : list Function) : list Function :=
  match last fs with
  | Some f => removelast fs ++ [Func.insert f bb]
  | None => fs
  end.

(** A line of the body that starts with a dot. *)
Definition scan_label (line : string) (fs : list Function) : M (list Function) :=
  let name := drop_last 1 line in
  if startswith ".byte" line then mret fs
  else if startswith ".function_" line then
    if bool_decide (name = ".function_main") then mret fs
    else f ← make_function name; mret (fs ++ [f])
  else if endswith "entry" name || endswith "exit" name then mret fs
  else bb ← new_bb name; mret (insert_in_last bb fs).

Fixpoint scan_lines (lines : list string) (st : scan) : M scan :=
  match lines with
  | [] => mret st
  | raw :: lines =>
      let line := strip raw in
      if trivial_line line then scan_lines lines st
      else if negb (sc_started st) then
        scan_lines lines
          (mkScan (bool_decide (line = ".test_case_enter:"))
             (if startswith "." line then sc_prologue st else S (sc_prologue st))
             (sc_functions st))
      else if bool_decide (line = ".test_case_exit:") then mret st
      else if negb (startswith "." line) then scan_lines lines st
      else
        fs ← scan_label line (sc_functions st);
        scan_lines lines (mkScan true (sc_prologue st) fs)
  end.

Definition first_pass (lines : list string) : M scan :=
  main ← make_function ".function_main";
  st ← scan_lines lines (mkScan false 0 [main]);
  lift (assert_ (sc_started st) AsmParserException);;
  mret st.

(** ** Second pass: instructions *)

(** [[bb for func in test_case for bb in func]] *)
Definition all_blocks (fs : list Function) : list nat := fs ≫= f_all_bb.

(** [{bb.name: bb ...}]: a later block of the same name replaces an earlier one. *)
Definition collect_names (bbs : list nat) : M (gmap string nat) :=
  for_m (λ bb m, b ← the_bb bb; mret (<[bb_name b := bb]> m)) bbs ∅.

Record cursor := mkCursor { cu_bb : nat; cu_terminators_started : bool }.

(** [.bb_<name>.entry] of a function line. *)
Definition function_entry (line : string) : string :=
  ".bb_" +:+ lstrip ".function_" (drop_last 1 line) +:+ ".entry".

Definition add_parsed (inst : Instruction) (cu : cursor) : M cursor :=
  b ← the_bb (cu_bb cu);
  if i_control_flow inst && negb (bool_decide (i_category inst = "BASE-CALL")) then
    put_bb (cu_bb cu) (BB.insert_terminator b inst);;
    mret (mkCursor (cu_bb cu) true)
  else
    lift (assert_ (negb (cu_terminators_started cu)) AsmParserException);;
    x ← new_inst inst;
    insert_after_m (cu_bb cu) (BB.get_last b) x;;
    mret cu.

Definition parse_line (imap : gmap string (list InstructionSpec)) (names : gmap string nat)
    (line : string) (cu : cursor) : M cursor :=
  if startswith ".function_" line then
    bb ← lift (from_option KeyError (names !! function_entry line));
    mret (mkCursor bb false)
  else if startswith "." line && negb (startswith ".byte" line) then
    bb ← lift (from_option KeyError (names !! drop_last 1 line));
    mret (mkCursor bb false)
  else
    inst ← _parse_instruction imap line;
    add_parsed inst cu.

Fixpoint parse_lines (imap : gmap string (list InstructionSpec)) (names : gmap string nat)
    (lines : list string) (started : bool) (cu : cursor) : M cursor :=
  match lines with
  | [] => mret cu
  | raw :: lines =>
      let line := strip raw in
      if negb started then
        parse_lines imap names lines (bool_decide (line = ".test_case_enter:")) cu
      else if bool_decide (line = ".test_case_exit:") then mret cu
      else if trivial_line line then parse_lines imap names lines started cu
      else cu ← parse_line imap names line cu; parse_lines imap names lines started cu
  end.
End instruction.

(** ** Third pass: the edges of the graph *)

(** [if previous_bb:] asks [__len__]; a block whose last terminator is a direct
    jump does not fall through. *)
Definition falls_through (h : heap) (b : BasicBlock) : bool :=
  negb (BB.bb_len h b =? 0)%nat &&
  match last (bb_terminators b) with
  | Some t => negb (bool_decide (i_category t = "BASE-UNCOND_BR"))
  | None => true
  end.

Definition connect_fallthrough (previous : option nat) (bb : nat) : M unit :=
  match previous with
  | None => mret tt
  | Some p =>
      b ← the_bb p;
      h ← get w_heap;
      if falls_through h b then append_successor p bb else mret tt
  end.

(** The labels of the terminators, in order. *)
Definition branch_targets (ts : list Instruction) : list string :=
  ts ≫= λ t, omap (λ op, match op with LabelOperand v => Some v | _ => None end) (i_operands t).

Definition connect_block (names : gmap string nat) (bb : nat) (previous : option nat)
    : M (option nat) :=
  connect_fallthrough previous bb;;
  b ← the_bb bb;
  for_m (λ label _,
           successor ← lift (from_option KeyError (names !! label));
           append_successor bb successor)
    (branch_targets (bb_terminators b)) tt;;
  mret (Some bb).

Definition connect_blocks (names : gmap string nat) (bbs : list nat) : M unit :=
  for_m (connect_block names) bbs None;; mret tt.

(** ** The parser; [address_list] is what the decoder finds in the assembled file. *)

Definition parse_structure (draws : nat → Z) (conf : gen_conf) (isa : list InstructionSpec)
    (lines : list string) : M scan :=
  st ← first_pass lines;
  let bbs := all_blocks (sc_functions st) in
  names ← collect_names bbs;
  main ← lift (from_option IndexError (head (sc_functions st)));
  parse_lines draws conf (instruction_map isa) names lines false (mkCursor (f_entry main) false);;
  connect_blocks names bbs;;
  mret st.

Definition parse_existing_test_case (draws : nat → Z) (conf : gen_conf) (isa : InstructionSet)
    (address_list : list Z) (lines : list string) : M TestCase :=
  st ← parse_structure draws conf (instructions isa) lines;
  map_addresses address_list (mkTestCase (sc_functions st) (sc_prologue st) ∅ 0).
