(* ===== verification/ParserFacts.v ===== *)
(** * The parser reads what the printer writes

    An instruction printed by [X86Printer] and read back by
    [_parse_instruction] is the instruction, up to the choice among
    specifications the text cannot tell apart; address operands ([LEA]) do not
    survive.  The third pass gives a block its branch targets and a
    fall-through edge, unless the block is empty. *)

From S2P Require Import Prelude.
From S2P Require Import Isa.
From S2P Require Import Text.
From S2P Require Import BasicBlock.
From S2P Require Import Generator.
From S2P Require Import GeneratorFacts.
From S2P Require Import Passes.
From S2P Require Import PassesFacts.
From S2P Require Import Parser.

Open Scope Z_scope.

(** ** The dictionary of specifications *)

Definition named (k : string) (s : InstructionSpec) : bool := bool_decide (is_name s = k).

Lemma instruction_map_from isa : ∀ m k,
  default [] (fold_left add_spec isa m !! k) = default [] (m !! k) ++ select (named k) isa.
Proof.
  induction isa as [|s isa IH]; intros m k; cbn [fold_left select List.filter].
  - by rewrite app_nil_r.
  - rewrite IH. clear IH. unfold add_spec, named at 2.
    destruct (bool_decide_reflect (is_name s = k)) as [<-|Hne].
    + destruct (m !! is_name s) as [l|] eqn:E; rewrite lookup_insert_eq; cbn [default]; [|done].
      unfold id. by rewrite <- app_assoc.
    + by destruct (m !! is_name s) as [l|] eqn:E; rewrite lookup_insert_ne.
Qed.

(** A lookup finds the specifications of the name, in the order of the list. *)
Lemma instruction_map_lookup isa k :
  default [] (instruction_map isa !! k) = select (named k) isa.
Proof. unfold instruction_map. by rewrite instruction_map_from, lookup_empty. Qed.

(** ** Stripping *)

(** A text without white space at its ends. *)
Definition tight (s : string) : bool :=
  negb (s =? "")%string && (Text.lstrip s =? s)%string && (rstrip s =? s)%string.

Lemma tight_spec s : tight s = true ↔ s ≠ "" ∧ Text.lstrip s = s ∧ rstrip s = s.
Proof.
  unfold tight. rewrite !andb_true_iff, negb_true_iff, !String.eqb_eq, String.eqb_neq. tauto.
Qed.

Lemma lstrip_app s t : s ≠ "" → Text.lstrip s = s → Text.lstrip (s +:+ t) = s +:+ t.
Proof.
  destruct s as [|c s]; [done|]. intros _ H. rewrite str_app_cons. cbn in *.
  destruct (is_space c) eqn:E; [|done]. exfalso.
  assert (Hl : ∀ u, (String.length (Text.lstrip u) ≤ String.length u)%nat).
  { induction u as [|a u IH]; cbn; [lia|]. destruct (is_space a); cbn; lia. }
  specialize (Hl s). rewrite H in Hl. cbn in Hl. lia.
Qed.

Lemma rstrip_app s t : rstrip t ≠ "" → rstrip (s +:+ t) = s +:+ rstrip t.
Proof.
  intros Ht. induction s as [|c s IH]; [done|]. rewrite !str_app_cons. cbn [rstrip]. rewrite IH.
  destruct (s +:+ rstrip t) eqn:E; [|done]. destruct s; [|done]. by rewrite str_app_nil_l in E.
Qed.

Lemma rstrip_app_blank s t : rstrip t = "" → rstrip (s +:+ t) = rstrip s.
Proof.
  intros Ht. induction s as [|c s IH]; [done|]. rewrite str_app_cons. cbn [rstrip]. by rewrite IH.
Qed.

Lemma tight_app a m b : tight a = true → tight b = true → tight (a +:+ m +:+ b) = true.
Proof.
  rewrite !tight_spec. intros (Ha & Hla & _) (Hb & _ & Hrb). split_and!.
  - destruct a; [done|]. by rewrite str_app_cons.
  - by apply lstrip_app.
  - assert (rstrip (m +:+ b) = m +:+ b) as Hm by (rewrite rstrip_app; by rewrite Hrb).
    rewrite rstrip_app; rewrite Hm; [done|]. by destruct m.
Qed.

Lemma strip_tight s : tight s = true → strip s = s.
Proof. intros (_ & Hl & Hr)%tight_spec. unfold strip. by rewrite Hl. Qed.

Lemma strip_tight_blank s t : tight s = true → rstrip t = "" → strip (s +:+ t) = s.
Proof.
  intros (Hne & Hl & Hr)%tight_spec Ht. unfold strip. rewrite lstrip_app by done.
  by rewrite rstrip_app_blank.
Qed.

Lemma strip_space s : tight s = true → strip (" " +:+ s) = s.
Proof.
  intros (Hne & Hl & Hr)%tight_spec.
  change (strip (" " +:+ s)) with (rstrip (Text.lstrip s)). by rewrite Hl.
Qed.

Lemma tight_no_space s : s ≠ "" → str_forall (λ c, negb (is_space c)) s = true → tight s = true.
Proof. intros Hne Hs. apply tight_spec. by rewrite lstrip_id, rstrip_id. Qed.

(** ** Words *)

Lemma words_from_app acc s t :
  words_from acc (s +:+ " " +:+ t) = words_from acc s ++ words t.
Proof.
  revert acc. induction s as [|c s IH]; intros acc.
  - rewrite str_app_nil_l, str_app_cons. cbn. by destruct acc.
  - rewrite str_app_cons. cbn [words_from]. destruct (is_space c); [|apply IH].
    rewrite <- app_assoc. f_equal. apply IH.
Qed.

(** A space ends the words on its left. *)
Lemma words_app s t : words (s +:+ " " +:+ t) = words s ++ words t.
Proof. apply words_from_app. Qed.

Lemma parse_name_app ws ws' r : ∀ name, parse_name name ws = Some r → parse_name name (ws ++ ws') = Some r.
Proof.
  induction ws as [|w ws IH]; intros name; cbn [parse_name app]; [done|].
  destruct (mem w asm_prefixes); [apply IH|done].
Qed.

(** ** Comments *)

Lemma before_last_none c s : without c s = true → before_last c s = None.
Proof.
  induction s as [|a s IH]; [done|]. intros [Ha Hs]%andb_true_iff. cbn.
  rewrite IH by done. apply negb_true_iff in Ha. by rewrite Ha.
Qed.

Lemma before_last_app c s t : without c t = true → before_last c (s +:+ String c t) = Some s.
Proof.
  intros Ht. induction s as [|a s IH].
  - rewrite str_app_nil_l. cbn. by rewrite before_last_none, Ascii.eqb_refl.
  - rewrite str_app_cons. cbn. by rewrite IH.
Qed.

Lemma after_first_app c s t : without c s = true → after_first c (s +:+ String c t) = Some t.
Proof.
  induction s as [|a s IH].
  - intros _. rewrite str_app_nil_l. cbn. by rewrite Ascii.eqb_refl.
  - intros [Ha Hs]%andb_true_iff. rewrite str_app_cons. cbn. apply negb_true_iff in Ha.
    rewrite Ha. by apply IH.
Qed.

Definition mark : string := "# instrumentation".

Lemma no_mark s : without "#" s = true → endswith mark s = false.
Proof.
  intros Hs. destruct (endswith mark s) eqn:E; [|done].
  apply endswith_spec in E as [t ->]. rewrite without_app in Hs.
  apply andb_true_iff in Hs as [_ Hs]. by vm_compute in Hs.
Qed.

Lemma has_mark s : endswith mark (s +:+ mark) = true.
Proof. apply endswith_spec. by exists s. Qed.

Lemma remove_prefix_app s t : remove_prefix (s +:+ t) s = t.
Proof.
  unfold remove_prefix. assert (String.prefix s (s +:+ t) = true) as ->.
  { induction s as [|c s IH]; [by destruct t|]. rewrite str_app_cons. cbn. by destruct (ascii_dec c c). }
  assert (Hsub : ∀ n m, String.substring (String.length s + n) m (s +:+ t) = String.substring n m t).
  { intros n m. induction s as [|c s IH]; [done|]. rewrite str_app_cons. cbn. apply IH. }
  specialize (Hsub O (String.length (s +:+ t))). rewrite Nat.add_0_r in Hsub. rewrite Hsub.
  apply substring_full. rewrite str_length_app. lia.
Qed.

(** ** The line the printer writes *)

(** The text of an operand that survives: nothing at its ends is stripped, and
    it holds neither a comma nor a comment. *)
Definition plain (s : string) : bool := tight s && without "," s && without "#" s.

Lemma plain_spec s : plain s = true ↔ tight s = true ∧ without "," s = true ∧ without "#" s = true.
Proof. unfold plain. rewrite !andb_true_iff. tauto. Qed.

(** A name the parser takes as it is: no synonym, upper case, no comment. *)
Record canonical_name (n : string) : Prop := {
  name_parses : parse_name "" (words n) = Some (n, n);
  name_tight : tight n = true;
  name_plain : without "#" n = true;
  name_no_dot : startswith "." n = false;
  name_no_slash : startswith "/" n = false
}.

(** What follows the name. *)
Definition operand_text (ops : list string) : string :=
  match ops with [] => "" | _ => " " +:+ str_join ", " ops end.

Lemma str_join_plain ops :
  ops ≠ [] → Forall (λ s, plain s = true) ops →
  tight (str_join ", " ops) = true ∧ without "#" (str_join ", " ops) = true.
Proof.
  induction ops as [|s ops IH]; [done|]. intros _ (Hs & Hops)%Forall_cons.
  apply plain_spec in Hs as (Ht & _ & Hw). destruct ops as [|s' ops]; [done|].
  destruct IH as [IHt IHw]; [done|done|].
  change (str_join ", " (s :: s' :: ops)) with (s +:+ ", " +:+ str_join ", " (s' :: ops)).
  split; [by apply tight_app|]. rewrite !without_app, Hw, IHw. done.
Qed.

(** [", "] between operands is [","] between operands with a space before them. *)
Lemma operand_text_commas ops :
  ops ≠ [] → operand_text ops = str_join "," ((λ s, " " +:+ s) <$> ops).
Proof.
  induction ops as [|s ops IH]; [done|]. intros _. destruct ops as [|s' ops]; [done|].
  specialize (IH ltac:(done)).
  change (operand_text (s :: s' :: ops)) with (" " +:+ (s +:+ ("," +:+ (" " +:+ str_join ", " (s' :: ops))))).
  change (" " +:+ str_join ", " (s' :: ops)) with (operand_text (s' :: ops)). rewrite IH.
  change (str_join "," ((λ s, " " +:+ s) <$> (s :: s' :: ops)))
    with ((" " +:+ s) +:+ "," +:+ str_join "," ((λ s, " " +:+ s) <$> (s' :: ops))).
  by rewrite str_app_assoc.
Qed.

(** The operands of a line are the operands written on it. *)
Lemma operands_of_line_text n ops :
  Forall (λ s, plain s = true) ops → operands_of_line (n +:+ operand_text ops) n = ops.
Proof.
  intros Hops. unfold operands_of_line. rewrite remove_prefix_app.
  destruct ops as [|s ops]; [done|]. rewrite operand_text_commas by done.
  rewrite (split_join "," ((λ s, " " +:+ s) <$> (s :: ops))); [|done|].
  - rewrite bool_decide_false by (by destruct ops). rewrite <- list_fmap_compose.
    rewrite <- (list_fmap_id (s :: ops)) at 2. apply Forall_fmap_ext_1.
    eapply Forall_impl; [exact Hops|]. intros t (Ht & _)%plain_spec. by apply strip_space.
  - apply Forall_fmap. eapply Forall_impl; [exact Hops|].
    intros t (_ & Ht & _)%plain_spec. unfold compose. by rewrite without_app, Ht.
Qed.

Lemma operand_text_tight n ops :
  tight n = true → Forall (λ s, plain s = true) ops → tight (n +:+ operand_text ops) = true.
Proof.
  intros Hn Hops. destruct ops as [|s ops]; [by rewrite str_app_nil|].
  apply (tight_app n " "); [done|]. by apply str_join_plain.
Qed.

Lemma operand_text_no_comment n ops :
  without "#" n = true → Forall (λ s, plain s = true) ops → without "#" (n +:+ operand_text ops) = true.
Proof.
  intros Hn Hops. rewrite without_app, Hn. destruct ops as [|s ops]; [done|].
  change (operand_text (s :: ops)) with (" " +:+ str_join ", " (s :: ops)).
  rewrite without_app. by destruct (str_join_plain (s :: ops)) as [_ ->].
Qed.

(** The part before the comment, stripped, is the name and the operands. *)
Lemma strip_body n ops :
  tight n = true → Forall (λ s, plain s = true) ops →
  strip (n +:+ " " +:+ str_join ", " ops +:+ " ") = n +:+ operand_text ops.
Proof.
  intros Hn Hops. destruct ops as [|s ops].
  - rewrite str_app_nil. by apply strip_tight_blank.
  - replace (n +:+ " " +:+ str_join ", " (s :: ops) +:+ " ")
      with ((n +:+ operand_text (s :: ops)) +:+ " ") by (cbn [operand_text]; by rewrite !str_app_assoc).
    apply strip_tight_blank; [by apply operand_text_tight|done].
Qed.

Lemma words_operand_text n ops : ∃ ws, words (n +:+ operand_text ops) = words n ++ ws.
Proof.
  destruct ops as [|s ops]; [exists []; by rewrite str_app_nil, app_nil_r|].
  eexists. apply (words_app n).
Qed.

Lemma not_prot_prefix n t :
  tight n = true → startswith "." n = false → is_prot_prefix (n +:+ t) = false.
Proof.
  intros (Hne & Hl & _)%tight_spec Hd. unfold is_prot_prefix. rewrite lstrip_app by done.
  apply andb_false_iff. left. destruct n as [|c n]; [done|]. rewrite str_app_cons.
  unfold startswith in *. rewrite prefix_char in Hd. cbn [String.prefix].
  destruct (ascii_dec "." c) as [<-|]; done.
Qed.

(** What the parser finds on a printed line. *)
Lemma printed_line n ops m :
  canonical_name n → Forall (λ s, plain s = true) ops →
  let line := strip (n +:+ " " +:+ str_join ", " ops +:+ " " +:+ (if m : bool then mark else "")) in
  is_prot_prefix line = false ∧ parse_name "" (words line) = Some (n, n) ∧
  operands_of_line (strip_comment line) n = ops ∧ endswith mark line = m.
Proof.
  intros [Hp Ht Hw Hd _] Hops line.
  assert (line = if m then n +:+ " " +:+ str_join ", " ops +:+ " " +:+ mark
                 else n +:+ operand_text ops) as ->.
  { subst line. destruct m.
    - apply strip_tight. rewrite <- (str_app_assoc (str_join ", " ops)), <- (str_app_assoc " ").
      by apply tight_app.
    - rewrite str_app_nil. by apply strip_body. }
  unfold strip_comment. destruct m; split_and!.
  - by apply not_prot_prefix.
  - rewrite words_app. by apply parse_name_app.
  - rewrite <- (str_app_assoc (str_join ", " ops)), <- (str_app_assoc " "), <- (str_app_assoc n).
    unfold mark. rewrite before_last_app by done. rewrite strip_body by done.
    by apply operands_of_line_text.
  - rewrite <- (str_app_assoc (str_join ", " ops)), <- (str_app_assoc " "), <- (str_app_assoc n).
    apply has_mark.
  - by apply not_prot_prefix.
  - destruct (words_operand_text n ops) as [ws ->]. by apply parse_name_app.
  - rewrite before_last_none by (by apply operand_text_no_comment). by apply operands_of_line_text.
  - by apply no_mark, operand_text_no_comment.
Qed.

(** ** Printed operands *)

(** Facts about every ASCII character, by enumeration. *)
Lemma all_ascii (p : ascii → bool) :
  forallb (λ n, p (ascii_of_nat n)) (seq 0 256) = true → ∀ c, p c = true.
Proof.
  intros H c. rewrite forallb_forall in H. rewrite <- (ascii_nat_embedding c). apply H.
  apply in_seq. split; [lia|]. apply nat_ascii_bounded.
Qed.

Lemma str_forall_impl (p q : ascii → bool) s :
  forallb (λ n, implb (p (ascii_of_nat n)) (q (ascii_of_nat n))) (seq 0 256) = true →
  str_forall p s = true → str_forall q s = true.
Proof.
  intros H. pose proof (all_ascii (λ c, implb (p c) (q c)) H) as Hpq. clear H.
  induction s as [|c s IH]; [done|]. intros [Hc Hs]%andb_true_iff. cbn.
  rewrite IH by done. specialize (Hpq c). cbv beta in Hpq. rewrite Hc in Hpq. cbn in Hpq. by rewrite Hpq.
Qed.

Lemma str_in_char c s : str_in (String c "") s = negb (without c s).
Proof.
  induction s as [|a s IH]; [done|]. cbn [str_in without str_forall]. rewrite prefix_char, IH.
  unfold without. by destruct (Ascii.eqb a c).
Qed.

Definition imm_char (c : ascii) : bool :=
  is_hex_digit c || Ascii.eqb c "x" || Ascii.eqb c "-" || Ascii.eqb c "+" || Ascii.eqb c " ".

Lemma str_forall_drop_while p q s :
  forallb (λ n, implb (p (ascii_of_nat n)) (q (ascii_of_nat n))) (seq 0 256) = true →
  str_forall q (drop_while p s) = true → str_forall q s = true.
Proof.
  intros H. pose proof (all_ascii (λ c, implb (p c) (q c)) H) as Hpq. clear H.
  induction s as [|c s IH]; [done|]. cbn [drop_while]. destruct (p c) eqn:E; [|done].
  intros Hs. specialize (Hpq c). cbv beta in Hpq. rewrite E in Hpq. cbn in Hpq.
  cbn. by rewrite Hpq, IH.
Qed.

Lemma prefix2 a b s :
  startswith (String a (String b "")) s = true → ∃ t, s = String a (String b t).
Proof.
  unfold startswith. destruct s as [|c [|d s]]; cbn; [done|by destruct (ascii_dec a c)|].
  destruct (ascii_dec a c) as [<-|]; [|done]. destruct (ascii_dec b d) as [<-|]; [|done]. eauto.
Qed.

(** The patterns of an immediate use hexadecimal digits, signs and spaces. *)
Lemma is_immediate_chars v : is_immediate v = true → v ≠ "" ∧ str_forall imm_char v = true.
Proof.
  assert (Hdig : ∀ s, isdigit s = true → str_forall imm_char s = true).
  { intros s [_ Hs]%andb_true_iff. rewrite all_digits_forall in Hs.
    by apply (str_forall_impl is_digit). }
  assert (Hs : ∀ s, 
    (isdigit s || (startswith "0x" s && some_of is_hex_digit (str_drop 2 s)) ||
     (startswith "0b" s && some_of is_bit (str_drop 2 s)) ||
     match s with
     | String c s => is_digit c &&
         match drop_while (Ascii.eqb " ") (drop_while is_digit s) with
         | String c s => (Ascii.eqb c "+" || Ascii.eqb c "-") && isdigit (drop_while (Ascii.eqb " ") s)
         | EmptyString => false
         end
     | EmptyString => false
     end) = true → s ≠ "" ∧ str_forall imm_char s = true).
  { intros s [[[H|H]%orb_true_iff|H]%orb_true_iff|H]%orb_true_iff.
    - split; [by intros ->|auto].
    - apply andb_true_iff in H as [Hp Hx]. apply andb_true_iff in Hx as [_ Hx].
      apply prefix2 in Hp as [t ->]. split; [done|].
      cbn. by apply (str_forall_impl is_hex_digit).
    - apply andb_true_iff in H as [Hp Hx]. apply andb_true_iff in Hx as [_ Hx].
      apply prefix2 in Hp as [t ->]. split; [done|].
      cbn. by apply (str_forall_impl is_bit).
    - destruct s as [|c s]; [done|]. split; [done|]. apply andb_true_iff in H as [Hc H].
      apply (str_forall_drop_while is_digit); [done|]. cbn [drop_while]. rewrite Hc.
      apply (str_forall_drop_while (Ascii.eqb " ")); [done|].
      destruct (drop_while (Ascii.eqb " ") _) as [|d t]; [done|].
      apply andb_true_iff in H as [Hd Ht]. cbn. apply andb_true_iff. split.
      + unfold imm_char. apply orb_true_iff in Hd as [Hd|Hd]; by rewrite Hd, ?orb_true_r.
      + apply (str_forall_drop_while (Ascii.eqb " ")); [done|]. by apply Hdig. }
  intros Hv. unfold is_immediate in Hv. destruct v as [|c v]; [by apply Hs in Hv|].
  split; [done|]. destruct (Ascii.eqb_spec c "-") as [->|Hne].
  - cbn. by apply Hs.
  - apply Hs. destruct c as [[] [] [] [] [] [] [] []]; done.
Qed.

Lemma forallb_elem {A} (p : A → bool) l x : forallb p l = true → x ∈ l → p x = true.
Proof. rewrite forallb_forall. intros H Hx. apply H. by apply list_elem_of_In. Qed.

(** The register tables: every name is printed and read as it is, and belongs to one width. *)
Definition register_text (v : string) : bool :=
  plain v && negb (startswith "." v) && without "[" v && negb (is_immediate v) && (upper v =? v)%string.

Definition register_widths : list Z := [8; 16; 32; 64].

Lemma registers_dom w : is_Some (registers !! w) → w ∈ register_widths.
Proof.
  intros [l Hl]. apply elem_of_map_to_list in Hl. apply (mem_spec w).
  apply (forallb_elem (λ p : Z * list string, mem p.1 register_widths) (map_to_list registers) (w, l));
    [by vm_compute|done].
Qed.

Lemma register_names_text :
  forallb (λ w, forallb register_text (default [] (registers !! w))) register_widths = true.
Proof. by vm_compute. Qed.

Lemma register_names_disjoint :
  forallb (λ w, forallb (λ w', (w =? w') ||
    forallb (λ v, negb (mem v (default [] (registers !! w')))) (default [] (registers !! w)))
    register_widths) register_widths = true.
Proof. by vm_compute. Qed.

Lemma register_set_registers conf w regs v :
  register_set conf !! w = Some regs → v ∈ regs →
  ∃ all, registers !! w = Some all ∧ v ∈ all.
Proof.
  unfold register_set, filtered_decoding. rewrite lookup_fmap.
  intros (all & Hall & ->)%fmap_Some Hv. exists all. split; [done|].
  cbv beta in Hv. rewrite select_elem in Hv. tauto.
Qed.

Lemma register_text_ok conf w regs v :
  register_set conf !! w = Some regs → v ∈ regs → register_text v = true.
Proof.
  intros Hr Hv. destruct (register_set_registers _ _ _ _ Hr Hv) as (all & Hall & Hin).
  assert (w ∈ register_widths) as Hw by (apply registers_dom; eauto).
  pose proof (forallb_elem _ _ w register_names_text Hw) as H. cbv beta in H. rewrite Hall in H.
  by apply (forallb_elem _ _ v H).
Qed.

Lemma register_width_unique conf w w' regs regs' v :
  register_set conf !! w = Some regs → v ∈ regs →
  register_set conf !! w' = Some regs' → v ∈ regs' → w' = w.
Proof.
  intros Hr Hv Hr' Hv'.
  destruct (register_set_registers _ _ _ _ Hr Hv) as (all & Hall & Hin).
  destruct (register_set_registers _ _ _ _ Hr' Hv') as (all' & Hall' & Hin').
  assert (w ∈ register_widths) as Hw by (apply registers_dom; eauto).
  assert (w' ∈ register_widths) as Hw' by (apply registers_dom; eauto).
  pose proof (forallb_elem _ _ w register_names_disjoint Hw) as H. cbv beta in H.
  apply (forallb_elem _ _ w') in H; [|done]. apply orb_true_iff in H as [H|H]; [lia|].
  rewrite Hall, Hall' in H. apply (forallb_elem _ _ v) in H; [|done].
  cbn [default] in H. by apply negb_true_iff, mem_false in H.
Qed.

(** *** Which operands print to what reads back *)

Definition printable (conf : gen_conf) (o : Operand) : Prop :=
  match o with
  | RegisterOperand v w _ _ => ∃ regs, register_set conf !! w = Some regs ∧ v ∈ regs
  | MemoryOperand v w _ _ =>
      w ∈ register_widths ∧ upper v = v ∧ without "," v = true ∧ without "#" v = true
  | ImmediateOperand v _ => is_immediate v = true ∧ without " " v = true
  | LabelOperand v => startswith "." v = true ∧ plain v = true
  | _ => False
  end.

(** The specifications the text of an operand is accepted by. *)
Definition accepts (o : Operand) (os : OperandSpec) : bool :=
  match o with
  | RegisterOperand _ w _ _ => bool_decide (os_type os = REG) && (os_width os =? w)
  | MemoryOperand _ w _ _ => bool_decide (os_type os = MEM) && (os_width os =? w)
  | ImmediateOperand _ _ => bool_decide (os_type os = IMM)
  | LabelOperand _ => bool_decide (os_type os = LABEL)
  | _ => false
  end.

(** Specifications of the kinds the parser can read. *)
Definition readable (conf : gen_conf) (os : OperandSpec) : Prop :=
  os_type os ≠ AGEN ∧ (os_type os = REG → is_Some (register_set conf !! os_width os)).

Definition memory_word (w : Z) : string :=
  if w =? 8 then "byte" else if w =? 16 then "word" else if w =? 32 then "dword" else "qword".

Lemma memory_text v w s d :
  w ∈ register_widths →
  operand_to_str (MemoryOperand v w s d) = Ok (memory_word w +:+ " " +:+ "ptr [" +:+ v +:+ "]") ∧
  memory_sizes (memory_word w) = Some w ∧ words (memory_word w) = [memory_word w] ∧
  plain (memory_word w) = true ∧ startswith "." (memory_word w) = false.
Proof.
  unfold register_widths. rewrite !elem_of_cons, elem_of_nil.
  intros [->|[->|[->|[->|[]]]]]; by vm_compute.
Qed.

Lemma imm_text v : is_immediate v = true → without " " v = true →
  plain v = true ∧ startswith "." v = false ∧ without "[" v = true ∧ lower v = v.
Proof.
  intros (Hne & Hc)%is_immediate_chars Hs.
  assert (Hcs : str_forall (λ c, imm_char c && negb (Ascii.eqb c " ")) v = true).
  { clear Hne. induction v as [|c v IH]; [done|]. cbn in *.
    apply andb_true_iff in Hc as [-> Hc]. apply andb_true_iff in Hs as [-> Hs]. by apply IH. }
  split_and!.
  - apply plain_spec. split_and!.
    + apply tight_no_space; [done|]. revert Hcs. by apply str_forall_impl.
    + revert Hcs. by apply str_forall_impl.
    + revert Hcs. by apply str_forall_impl.
  - destruct v as [|c v]; [done|]. unfold startswith. rewrite prefix_char.
    cbn in Hcs. apply andb_true_iff in Hcs as [Hcc _]. destruct (Ascii.eqb_spec c "."); [|done].
    subst. by vm_compute in Hcc.
  - revert Hcs. by apply str_forall_impl.
  - clear Hne Hc Hs. induction v as [|c v IH]; [done|]. cbn in Hcs.
    apply andb_true_iff in Hcs as [Hcc Hcs].
    change (lower (String c v)) with (String (ascii_lower c) (lower v)). rewrite IH by done. f_equal.
    assert (implb (imm_char c && negb (Ascii.eqb c " ")) (Ascii.eqb (ascii_lower c) c) = true) as H.
    { revert c Hcc. intros c _. revert c. by apply all_ascii. }
    rewrite Hcc in H. by apply Ascii.eqb_eq in H.
Qed.

Lemma first_char t : t ≠ "" →
  ∃ c, String.get 0 t = Some c ∧ Ascii.eqb c "." = startswith "." t.
Proof.
  destruct t as [|c t]; [done|]. intros _. exists c. split; [done|].
  unfold startswith. by rewrite prefix_char.
Qed.

Lemma plain_nonempty t : plain t = true → t ≠ "".
Proof. intros (H & _)%plain_spec. by apply tight_spec in H as [? _]. Qed.

Lemma register_text_spec v : register_text v = true →
  plain v = true ∧ startswith "." v = false ∧ str_in "[" v = false ∧ is_immediate v = false ∧ upper v = v.
Proof.
  unfold register_text. rewrite str_in_char, !andb_true_iff, !negb_true_iff, negb_false_iff, String.eqb_eq.
  tauto.
Qed.

Lemma printed_plain conf o t : printable conf o → operand_to_str o = Ok t → plain t = true.
Proof.
  destruct o as [v w s d|v w s d|v w|v|v w|fv]; cbn [printable]; try done.
  - intros (regs & Hr & Hv) [= <-]. by apply (register_text_ok _ _ _ _ Hr), register_text_spec in Hv as [? _].
  - intros (Hw & _ & Hc & Hh) Ht. destruct (memory_text v w s d Hw) as (Hm & _ & _ & Hp & _).
    rewrite Hm in Ht. injection Ht as <-. apply plain_spec in Hp as (H1 & H2 & H3). apply plain_spec.
    rewrite !without_app, H2, H3, Hc, Hh. split_and!; [|done|done].
    rewrite <- (str_app_assoc "ptr ["), <- (str_app_assoc " "). by apply tight_app.
  - intros [Hi Hs] [= <-]. by apply imm_text.
  - intros [_ Hp] [= <-]. done.
Qed.

Lemma match_printed conf o t os :
  printable conf o → operand_to_str o = Ok t → readable conf os →
  match_operand conf t os = Ok (accepts o os).
Proof.
  intros Ho Ht [Hag Hreg]. pose proof (plain_nonempty _ (printed_plain _ _ _ Ho Ht)) as Hne.
  destruct (first_char t Hne) as (c & Hc & Hdot). unfold match_operand. rewrite Hc. cbn [from_option mbind result_bind].
  rewrite Hdot. clear c Hc Hdot. destruct o as [v w s d|v w s d|v w|v|v w|fv]; cbn [printable] in Ho; try done.
  - injection Ht as <-. destruct Ho as (regs & Hr & Hv).
    pose proof (register_text_ok _ _ _ _ Hr Hv) as (_ & -> & -> & -> & ->)%register_text_spec.
    cbn [accepts]. case_bool_decide as Hty; [|done]. destruct (Hreg Hty) as [regs' Hr'].
    rewrite Hr'. cbn. f_equal. destruct (Z.eqb_spec (os_width os) w) as [Hw|Hw].
    + rewrite Hw, Hr in Hr'. injection Hr' as <-. by apply mem_spec.
    + apply mem_false. intros Hv'. apply Hw. by eapply register_width_unique.
  - destruct Ho as (Hw & _). destruct (memory_text v w s d Hw) as (Hm & Hsz & Hws & Hp & Hd).
    rewrite Hm in Ht. injection Ht as <-.
    assert (startswith "." (memory_word w +:+ " " +:+ "ptr [" +:+ v +:+ "]") = false) as ->.
    { apply plain_nonempty in Hp. destruct (memory_word w) as [|c m]; [done|].
      rewrite str_app_cons. unfold startswith in *. by rewrite prefix_char in *. }
    rewrite str_in_char, !without_app, andb_false_r.
    cbn [accepts negb]. case_bool_decide as Hty.
    + rewrite (proj2 (mem_spec _ _)) by (rewrite Hty; right; left).
      cbn [negb]. rewrite words_app, Hws. cbn. by rewrite Hsz.
    + rewrite (proj2 (mem_false _ _)); [done|]. rewrite !elem_of_cons, elem_of_nil. tauto.
  - injection Ht as <-. destruct Ho as [Hi Hs]. destruct (imm_text v Hi Hs) as (_ & -> & Hb & _).
    rewrite str_in_char, Hb, Hi. done.
  - injection Ht as <-. destruct Ho as [-> _]. done.
Qed.

(** ** Choosing a specification *)

Definition accepts_all (ops : list Operand) (specs : list OperandSpec) : bool :=
  forallb (λ p : Operand * OperandSpec, accepts p.1 p.2) (zip ops specs).

(** The text of [ops] cannot tell this specification from the one they were made for. *)
Definition twin (ops : list Operand) (s : InstructionSpec) : bool :=
  bool_decide (length (is_operands s) = length ops) && accepts_all ops (is_operands s).

Record readable_spec (conf : gen_conf) (s : InstructionSpec) : Prop := {
  readable_operands : Forall (readable conf) (is_operands s);
  readable_labels : ∀ os, os ∈ is_operands s → os_type os = LABEL → is_control_flow s = true
}.

(** The specification the parser settles on. *)
Definition chosen (isa : list InstructionSpec) (i : Instruction) : option InstructionSpec :=
  head (prefer_magic (select (twin (i_operands i)) (select (named (i_name i)) isa))).

(** An operand takes its width and its roles from the specification. *)
Definition retype (o : Operand) (os : OperandSpec) : Operand :=
  match o with
  | RegisterOperand v _ _ _ => RegisterOperand v (os_width os) (os_src os) (os_dest os)
  | MemoryOperand v _ _ _ => MemoryOperand v (os_width os) (os_src os) (os_dest os)
  | ImmediateOperand v _ => ImmediateOperand v (os_width os)
  | _ => o
  end.

Lemma match_operands_printed conf ops : ∀ ts specs b,
  Forall (printable conf) ops → mapM operand_to_str ops = Ok ts → Forall (readable conf) specs →
  match_operands conf (zip ts specs) b = Ok (b && accepts_all ops specs).
Proof.
  unfold accepts_all. induction ops as [|o ops IH]; intros ts specs b Hp Ht Hr; cbn in Ht; inv_ok.
  { cbn. by rewrite andb_true_r. }
  apply Forall_cons in Hp as [Ho Hp]. destruct specs as [|os specs]; [cbn; by rewrite andb_true_r|].
  apply Forall_cons in Hr as [Hos Hr]. cbn [zip zip_with match_operands forallb fst snd].
  rewrite (match_printed _ _ _ _ Ho Ht0 Hos). cbn [mbind result_bind].
  destruct (accepts o os); [by apply IH|]. cbn [andb]. rewrite andb_false_r.
  destruct (keeps_looking _ _); [|done]. by rewrite (IH _ _ false Hp Ht1 Hr).
Qed.

Lemma matching_specs_printed conf ops ts specs :
  Forall (printable conf) ops → mapM operand_to_str ops = Ok ts →
  Forall (readable_spec conf) specs →
  matching_specs conf specs ts = Ok (select (twin ops) specs).
Proof.
  intros Hp Ht. induction 1 as [|s specs Hs Hspecs IH]; [done|].
  cbn [matching_specs select List.filter]. rewrite IH, (mapM_length _ _ _ Ht).
  assert ((if bool_decide (length (is_operands s) = length ops)
           then match_operands conf (zip ts (is_operands s)) true else Ok false) = Ok (twin ops s)) as ->.
  { unfold twin. case_bool_decide; [|done].
    rewrite (match_operands_printed conf ops); [done|done|done|apply Hs]. }
  cbn. by destruct (twin ops s).
Qed.

Lemma make_printed conf s o t os :
  printable conf o → operand_to_str o = Ok t → accepts o os = true →
  (os_type os = LABEL → is_control_flow s = true) →
  make_operand s t os = Ok (retype o os).
Proof.
  intros Ho Ht Ha Hcf. unfold make_operand.
  destruct o as [v w r d|v w r d|v w|v|v w|fv]; cbn [accepts printable] in *; try done.
  - apply andb_true_iff in Ha as [->%bool_decide_eq_true _]. injection Ht as <-.
    destruct Ho as (regs & Hr & Hv). pose proof (register_text_ok _ _ _ _ Hr Hv) as H.
    apply register_text_spec in H as (_ & _ & _ & _ & Hu). unfold new_RegisterOperand. by rewrite Hu.
  - apply andb_true_iff in Ha as [->%bool_decide_eq_true _]. destruct Ho as (Hw & Hu & _).
    destruct (memory_text v w r d Hw) as (Hm & _). rewrite Hm in Ht. injection Ht as <-.
    assert (between_brackets (memory_word w +:+ " " +:+ "ptr [" +:+ v +:+ "]") = Some v) as ->.
    { unfold between_brackets.
      replace (memory_word w +:+ " " +:+ "ptr [" +:+ v +:+ "]")
        with ((memory_word w +:+ " ptr ") +:+ String "[" (v +:+ "]")) by (by rewrite str_app_assoc).
      rewrite after_first_app; [cbn; by apply before_last_app|].
      rewrite without_app. unfold register_widths in Hw.
      rewrite !elem_of_cons, elem_of_nil in Hw. by destruct Hw as [->|[->|[->|[->|[]]]]]. }
    cbn. unfold new_MemoryOperand. by rewrite Hu.
  - apply bool_decide_eq_true in Ha as ->. injection Ht as <-. destruct Ho as [Hi Hs].
    unfold new_ImmediateOperand. by destruct (imm_text v Hi Hs) as (_ & _ & _ & ->).
  - apply bool_decide_eq_true in Ha as Hl. rewrite Hl, (Hcf Hl). by injection Ht as <-.
Qed.

Lemma make_operands_printed conf s ops : ∀ ts specs,
  Forall (printable conf) ops → mapM operand_to_str ops = Ok ts → accepts_all ops specs = true →
  (∀ os, os ∈ specs → os_type os = LABEL → is_control_flow s = true) →
  make_operands s (zip ts specs) = Ok (zip_with retype ops specs).
Proof.
  unfold accepts_all. induction ops as [|o ops IH]; intros ts specs Hp Ht Ha Hcf; cbn in Ht; inv_ok; [done|].
  apply Forall_cons in Hp as [Ho Hp]. destruct specs as [|os specs]; [done|].
  cbn [zip zip_with forallb fst snd] in Ha. apply andb_true_iff in Ha as [Ho' Ha].
  cbn [zip zip_with make_operands].
  rewrite (make_printed conf s o _ os); [|done|done|done|apply Hcf; by left].
  cbn [mbind result_bind]. rewrite (IH a0 specs); [done|done|done|done|].
  intros os' Hin. apply Hcf. by right.
Qed.

Lemma prefer_magic_elem l s : head (prefer_magic l) = Some s → s ∈ l.
Proof.
  assert (Hh : ∀ k : list InstructionSpec, head k = Some s → s ∈ k).
  { intros [|x k] [= ->]. by left. }
  unfold prefer_magic. destruct (1 <? length l)%nat; [|apply Hh].
  destruct (select is_has_magic_value l) as [|x k] eqn:E; [apply Hh|].
  intros Hin%Hh. rewrite <- E in Hin. rewrite select_elem in Hin. tauto.
Qed.

Lemma mapM_plain conf ops ts :
  Forall (printable conf) ops → mapM operand_to_str ops = Ok ts → Forall (λ t, plain t = true) ts.
Proof.
  intros Hp Ht. apply Forall_forall. intros t Hin.
  destruct (mapM_elem _ _ _ Ht t Hin) as (o & Ho & Hot). rewrite Forall_forall in Hp.
  eapply printed_plain; eauto.
Qed.

(** The operands of an instruction made for the specification keep their roles. *)
Definition reads_as (os : OperandSpec) (o : Operand) : Prop :=
  matches os o ∨ ∃ v, o = LabelOperand v.

Lemma retype_same specs ops : Forall2 reads_as specs ops → zip_with retype ops specs = ops.
Proof.
  induction 1 as [|os o specs ops Ho _ IH]; [done|]. cbn. f_equal; [|done].
  destruct Ho as [[_ H]|[v ->]]; [|done]. destruct o; cbn in *; [| | |done|done|done].
  - by destruct H as (-> & -> & ->).
  - by destruct H as (-> & -> & ->).
  - by rewrite H.
Qed.

Lemma parse_explicit_printed conf isa i spec line :
  canonical_name (i_name i) →
  Forall (readable_spec conf) (select (named (i_name i)) isa) →
  Forall (printable conf) (i_operands i) →
  chosen isa i = Some spec →
  instruction_to_str i = Ok line →
  is_prot_prefix (strip line) = false ∧
  parse_explicit conf (instruction_map isa) (strip line) =
    Ok (spec, set_operands (from_spec spec (i_is_instrumentation i))
                (zip_with retype (i_operands i) (is_operands spec))).
Proof.
  intros Hn Hrs Hp Hch Hline. unfold instruction_to_str in Hline. inv_ok.
  pose proof (mapM_plain _ _ _ Hp Hline0) as Hpl.
  pose proof (printed_line (i_name i) a (i_is_instrumentation i) Hn Hpl) as (H1 & H2 & H3 & H4).
  fold mark. split; [exact H1|]. clear H1.
  unfold parse_explicit. fold mark. rewrite H2. cbn [from_option mbind result_bind].
  rewrite instruction_map_lookup.
  pose proof (prefer_magic_elem _ _ Hch) as Hin. rewrite !select_elem in Hin.
  destruct Hin as (Htw & Hnm & Hin).
  assert (spec ∈ select (named (i_name i)) isa) as Hsel by (by apply select_elem).
  assert (select (named (i_name i)) isa ≠ []) as Hne.
  { intros E. rewrite E in Hsel. by apply elem_of_nil in Hsel. }
  rewrite bool_decide_false by done.
  rewrite H3, H4, (matching_specs_printed conf (i_operands i)) by done.
  unfold chosen in Hch. cbn [assert_ negb mbind result_bind]. rewrite Hch.
  rewrite Forall_forall in Hrs. destruct (Hrs spec Hsel) as [Hro Hrl].
  unfold twin in Htw. apply andb_true_iff in Htw as [_ Hacc].
  cbn [from_option mbind result_bind]. by rewrite (make_operands_printed conf spec (i_operands i) a).
Qed.

(** C18: An instruction line is read back, for the instructions the text format can carry.
    The conditions on the instruction: its name is one the parser takes as it is (upper
    case, no synonym, no comment character, not starting with a dot or a slash); each of its
    operands is a register of the generator's register set (so not a blocked one), memory of
    8, 16, 32 or 64 bits at an upper-case address without commas and [#], an immediate as
    the parser's pattern accepts it and without blanks, or a label that starts with a dot.
    The conditions on the instruction set: the specifications of that name have no address
    operand, name only register widths the register set has, and labels only for control
    flow; one of them accepts the operands.  Left out are therefore the address operand of
    [LEA] and the [ADD reg, R14] of the sandbox, which do not read back
    ([agen_operand_nested], [sandbox_base_unreadable]).  Then the parser takes the
    specification the text selects (the first that accepts the operands, those with a magic
    value preferred) and builds the same name, the same operand texts with the widths and
    roles of that specification, and the same instrumentation mark, and goes on to generate
    the implicit operands; when the operands match that specification, the explicit operands
    are the instruction's own. *)
Theorem print_parse_instruction draws conf isa i spec line w :
  canonical_name (i_name i) →
  Forall (readable_spec conf) (select (named (i_name i)) isa) →
  Forall (printable conf) (i_operands i) →
  chosen isa i = Some spec →
  instruction_to_str i = Ok line →
  _parse_instruction draws conf (instruction_map isa) (strip line) w =
    add_implicit_operands draws conf spec
      (set_operands (from_spec spec (i_is_instrumentation i))
         (zip_with retype (i_operands i) (is_operands spec))) w ∧
  (Forall2 reads_as (is_operands spec) (i_operands i) →
   zip_with retype (i_operands i) (is_operands spec) = i_operands i).
Proof.
  intros Hn Hrs Hp Hch Hline. split; [|apply retype_same].
  destruct (parse_explicit_printed _ _ _ _ _ Hn Hrs Hp Hch Hline) as [H1 H2].
  unfold _parse_instruction. by rewrite H1, H2.
Qed.

(** ** The edges of a parsed test case *)

Definition more (b : BasicBlock) (l : list nat) : BasicBlock :=
  BB.set_successors b (bb_successors b ++ l).

Lemma more_nil b : more b [] = b.
Proof. destruct b. unfold more, BB.set_successors. cbn. by rewrite app_nil_r. Qed.
Lemma more_more b l k : more (more b l) k = more b (l ++ k).
Proof. unfold more, BB.set_successors. cbn. by rewrite app_assoc. Qed.

Definition update (x : nat) (b : BasicBlock) (w : world) : world := set_bbs (<[x := b]> (w_bbs w)) w.

Lemma update_id x b w : w_bbs w !! x = Some b → update x b w = w.
Proof. intros H. unfold update, set_bbs. rewrite insert_id by done. by destruct w. Qed.

Lemma append_successor_run x s w b :
  w_bbs w !! x = Some b → append_successor x s w = Ok (tt, update x (more b [s]) w).
Proof.
  intros Hb. unfold append_successor. erewrite bindM_eq by (by apply the_bb_Ok). done.
Qed.

(** The blocks the terminators of [b] branch to. *)
Definition targets (names : gmap string nat) (b : BasicBlock) : option (list nat) :=
  mapM (λ label, names !! label) (branch_targets (bb_terminators b)).

Lemma append_labels (names : gmap string nat) x labels : ∀ ts w b,
  mapM (λ label, names !! label) labels = Some ts → w_bbs w !! x = Some b →
  for_m (λ label _, successor ← lift (from_option KeyError (names !! label));
                    append_successor x successor) labels tt w
  = Ok (tt, update x (more b ts) w).
Proof.
  induction labels as [|label labels IH]; intros ts w b Hts Hb.
  - injection Hts as <-. rewrite more_nil, update_id by done. done.
  - cbn in Hts. apply bind_Some in Hts as (t & Ht & Hts). apply bind_Some in Hts as (ts' & Hts & [= <-]).
    cbn [for_m]. erewrite bindM_eq.
    2:{ erewrite bindM_eq by (by rewrite Ht). by apply append_successor_run. }
    rewrite (IH ts' _ (more b [t])) by (done || by apply lookup_insert_eq).
    rewrite more_more. unfold update, set_bbs. cbn. by rewrite insert_insert_eq.
Qed.

(** The edge to the next block of the layout. *)
Definition fallthrough (h : heap) (b : BasicBlock) (next : option nat) : list nat :=
  match next with
  | Some y => if falls_through h b then [y] else []
  | None => []
  end.

Lemma connect_fallthrough_run p x w b :
  w_bbs w !! p = Some b →
  connect_fallthrough (Some p) x w = Ok (tt, update p (more b (fallthrough (w_heap w) b (Some x))) w).
Proof.
  intros Hb. unfold connect_fallthrough. erewrite bindM_eq by (by apply the_bb_Ok).
  erewrite bindM_eq by reflexivity. cbn [fallthrough].
  destruct (falls_through (w_heap w) b); [by apply append_successor_run|].
  by rewrite more_nil, update_id.
Qed.

Lemma connect_block_run names prev x w w1 b ts :
  connect_fallthrough prev x w = Ok (tt, w1) → w_bbs w1 !! x = Some b → targets names b = Some ts →
  connect_block names x prev w = Ok (Some x, update x (more b ts) w1).
Proof.
  intros H1 Hb Hts. unfold connect_block. erewrite bindM_eq by exact H1.
  erewrite bindM_eq by (by apply the_bb_Ok).
  erewrite bindM_eq by (by apply append_labels). done.
Qed.

Lemma connect_loop names bbs : ∀ prev w,
  NoDup bbs →
  (∀ p, prev = Some p → p ∉ bbs ∧ is_Some (w_bbs w !! p)) →
  (∀ x, x ∈ bbs → ∃ b ts, w_bbs w !! x = Some b ∧ targets names b = Some ts) →
  ∃ last w', for_m (connect_block names) bbs prev w = Ok (last, w') ∧ w_heap w' = w_heap w ∧
    (∀ x, x ∉ bbs → prev ≠ Some x → w_bbs w' !! x = w_bbs w !! x) ∧
    (∀ p b, prev = Some p → w_bbs w !! p = Some b →
       w_bbs w' !! p = Some (more b (fallthrough (w_heap w) b (head bbs)))) ∧
    (∀ k x b, bbs !! k = Some x → w_bbs w !! x = Some b → ∃ ts, targets names b = Some ts ∧
       w_bbs w' !! x = Some (more b (ts ++ fallthrough (w_heap w) b (bbs !! S k)))).
Proof.
  induction bbs as [|x bbs IH]; intros prev w Hnd Hprev Hbbs.
  - exists prev, w. split_and!; try done. intros p b _ Hb. cbn. by rewrite more_nil.
  - apply NoDup_cons in Hnd as [Hx Hnd]. destruct (Hbbs x) as (b & ts & Hb & Hts); [by left|].
    assert (∃ w1, connect_fallthrough prev x w = Ok (tt, w1) ∧ w_heap w1 = w_heap w ∧
      (∀ y, prev ≠ Some y → w_bbs w1 !! y = w_bbs w !! y) ∧
      (∀ p bp, prev = Some p → w_bbs w !! p = Some bp →
         w_bbs w1 !! p = Some (more bp (fallthrough (w_heap w) bp (Some x))))) as (w1 & H1 & Hh1 & Hf1 & Hp1).
    { destruct prev as [p|]; [|exists w; split_and!; done].
      destruct (Hprev p) as [_ [bp Hbp]]; [done|]. eexists. split; [by apply connect_fallthrough_run|].
      split_and!; [done| |].
      - intros y Hy. cbn. rewrite lookup_insert_ne by congruence. done.
      - intros q bq [= <-] Hq. cbn. rewrite lookup_insert_eq. rewrite Hbp in Hq. by injection Hq as <-. }
    assert (prev ≠ Some x) as Hpx.
    { intros ->. destruct (Hprev x) as [Hn _]; [done|]. apply Hn. by left. }
    assert (w_bbs w1 !! x = Some b) as Hb1 by (by rewrite Hf1).
    pose (w2 := update x (more b ts) w1).
    destruct (IH (Some x) w2 Hnd) as (l & w' & Hrun & Hh & Hframe & Hpv & Hall).
    { intros p [= <-]. split; [done|]. unfold w2, update. cbn. rewrite lookup_insert_eq. eauto. }
    { intros y Hy. destruct (Hbbs y) as (by_ & ty & Hy1 & Hy2); [by right|].
      destruct (decide (prev = Some y)) as [->|Hpy].
      { destruct (Hprev y) as [Hn _]; [done|]. exfalso. apply Hn. by right. }
      exists by_, ty. split; [|done]. unfold w2, update. cbn.
      rewrite lookup_insert_ne by (intros ->; done). by rewrite Hf1. }
    exists l, w'. split_and!.
    + cbn [for_m]. erewrite bindM_eq by (by eapply connect_block_run). exact Hrun.
    + by rewrite Hh.
    + intros y [Hyx Hy]%not_elem_of_cons Hpy. rewrite Hframe by (done || congruence). unfold w2, update. cbn.
      rewrite lookup_insert_ne by done. by apply Hf1.
    + intros p bp -> Hbp. destruct (Hprev p eq_refl) as [Hn _]. apply not_elem_of_cons in Hn as [Hnx Hn].
      rewrite Hframe by (done || congruence). unfold w2, update. cbn. rewrite lookup_insert_ne by done. by apply Hp1.
    + intros [|k] y by_ Hk Hy.
      * cbn in Hk. injection Hk as <-. assert (by_ = b) as -> by congruence. exists ts. split; [done|].
        rewrite (Hpv x (more b ts)); [|done|unfold w2, update; cbn; by rewrite lookup_insert_eq].
        rewrite more_more. cbn [lookup list_lookup]. rewrite head_lookup. by cbn; rewrite Hh1.
      * cbn in Hk. assert (y ∈ bbs) as Hin by (by eapply list_elem_of_lookup_2).
        destruct (decide (prev = Some y)) as [->|Hpy].
        { destruct (Hprev y) as [Hn _]; [done|]. exfalso. apply Hn. by right. }
        destruct (Hall k y by_ Hk) as (ty & Hty & Hres).
        { unfold w2, update. cbn. rewrite lookup_insert_ne by (intros ->; done). by rewrite Hf1. }
        exists ty. split; [done|]. rewrite Hres. cbn. by rewrite Hh1.
Qed.

Lemma connect_blocks_run names bbs w :
  NoDup bbs →
  (∀ x, x ∈ bbs → ∃ b ts, w_bbs w !! x = Some b ∧ targets names b = Some ts) →
  ∃ w', connect_blocks names bbs w = Ok (tt, w') ∧ w_heap w' = w_heap w ∧
    (∀ x, x ∉ bbs → w_bbs w' !! x = w_bbs w !! x) ∧
    (∀ k x b, bbs !! k = Some x → w_bbs w !! x = Some b → ∃ ts, targets names b = Some ts ∧
       w_bbs w' !! x = Some (more b (ts ++ fallthrough (w_heap w) b (bbs !! S k)))).
Proof.
  intros Hnd Hbbs.
  destruct (connect_loop names bbs None w Hnd) as (l & w' & Hrun & Hh & Hframe & _ & Hall); [done|done|].
  exists w'. split_and!; [|done|intros x Hx; by apply Hframe|done].
  unfold connect_blocks. by erewrite bindM_eq by exact Hrun.
Qed.

(** C27: The edges the parser derives.  When the labels of all terminators are known,
    every block ends up with the targets of its terminators, in order, followed
    by the next block of the layout if the block is not empty and does not end in
    a direct jump; the rest of the block, blocks outside the list and all
    instructions are untouched. *)
Theorem connect_blocks_spec names bbs w :
  NoDup bbs →
  (∀ x, x ∈ bbs → ∃ b ts, w_bbs w !! x = Some b ∧ targets names b = Some ts) →
  ∃ w', connect_blocks names bbs w = Ok (tt, w') ∧ w_heap w' = w_heap w ∧
    (∀ x, x ∉ bbs → w_bbs w' !! x = w_bbs w !! x) ∧
    (∀ k x b, bbs !! k = Some x → w_bbs w !! x = Some b → ∃ ts, targets names b = Some ts ∧
       w_bbs w' !! x = Some (BB.set_successors b
         (bb_successors b ++ ts ++ fallthrough (w_heap w) b (bbs !! S k)))).
Proof. apply connect_blocks_run. Qed.

(** ** Examples *)

Module Demo.

Definition conf : gen_conf := mkConf 1 1 1 1 false false ["R14"] 4096 6 false.
Definition gpr (src dest : bool) : OperandSpec := mkOperandSpec ["GPR"] REG 64 src dest false.
Definition imm (w : Z) : OperandSpec := mkOperandSpec [] IMM w true false false.
Definition label : OperandSpec := mkOperandSpec [] LABEL 0 true false false.
Definition flags : OperandSpec :=
  mkOperandSpec ["w"; "w"; "undef"; "w"; "w"; ""; ""; ""; "w"] FLAGS 0 false false false.
Definition mem (src dest : bool) : OperandSpec := mkOperandSpec [] MEM 64 src dest false.
Definition address : OperandSpec := mkOperandSpec [] AGEN 64 true false false.

Definition add_reg : InstructionSpec :=
  mkInstructionSpec "ADD" [gpr true true; gpr true false] [flags] "BASE-BINARY" false false false false.
Definition add_imm8 : InstructionSpec :=
  mkInstructionSpec "ADD" [gpr true true; imm 8] [flags] "BASE-BINARY" false false false false.
Definition add_imm32 : InstructionSpec :=
  mkInstructionSpec "ADD" [gpr true true; imm 32] [flags] "BASE-BINARY" false false false false.
Definition mov_load : InstructionSpec :=
  mkInstructionSpec "MOV" [gpr false true; mem true false] [] "BASE-DATAXFER" false true false false.
Definition lea : InstructionSpec :=
  mkInstructionSpec "LEA" [gpr false true; address] [] "BASE-MISC" false false false false.
Definition zero_flag : OperandSpec :=
  mkOperandSpec [""; ""; ""; "r"; ""; ""; ""; ""; ""] FLAGS 0 false false false.
Definition rip : OperandSpec := mkOperandSpec ["RIP"] REG 64 true true false.
Definition jz : InstructionSpec :=
  mkInstructionSpec "JZ" [label] [rip; zero_flag] "BASE-COND_BR" true false false false.
Definition jmp : InstructionSpec :=
  mkInstructionSpec "JMP" [label] [] "BASE-UNCOND_BR" true false false false.
Definition isa : list InstructionSpec := [add_reg; add_imm8; add_imm32; mov_load; lea; jz; jmp].
Definition imap : gmap string (list InstructionSpec) := instruction_map isa.

Definition load : Instruction :=
  set_operands (from_spec mov_load true)
    [RegisterOperand "RAX" 64 false true; MemoryOperand "R14 + RBX" 64 true false].
Definition empty_world : world := mkWorld ∅ ∅ 0 0 0 false.

End Demo.

Lemma print_parse_instruction_witness :
  _parse_instruction (λ _, 0) Demo.conf (instruction_map Demo.isa)
    (strip "MOV RAX, qword ptr [R14 + RBX] # instrumentation") Demo.empty_world
  = Ok (Demo.load, Demo.empty_world).
Proof.
  unshelve refine (let H := print_parse_instruction (λ _, 0) Demo.conf Demo.isa Demo.load Demo.mov_load
            "MOV RAX, qword ptr [R14 + RBX] # instrumentation" Demo.empty_world _ _ _ _ _ in _).
  - split; by vm_compute.
  - constructor; [|constructor]. split.
    + apply Forall_forall. intros os [->|[->|Hos%elem_of_nil]%elem_of_cons]%elem_of_cons; try done;
        (split; [done|]); intros _; eexists; vm_compute; reflexivity.
    + intros os [->|[->|Hos%elem_of_nil]%elem_of_cons]%elem_of_cons; done.
  - apply Forall_cons. split; [eexists; split; [vm_compute; reflexivity|in_list]|].
    apply Forall_cons. split; [|done]. split_and!; [in_list|done|done|done].
  - by vm_compute.
  - by vm_compute.
  - rewrite (proj1 H). by vm_compute.
Defined.

(** Print an instruction and read the line. *)
Definition reread (i : Instruction) : result (InstructionSpec * Instruction) :=
  line ← instruction_to_str i; parse_explicit Demo.conf Demo.imap (strip line).

(** An immediate reads back under the first specification that takes one. *)
Theorem immediate_width_lost :
  let i := set_operands (from_spec Demo.add_imm32 false)
             [RegisterOperand "RAX" 64 true true; ImmediateOperand "70000" 32] in
  i_operands ∘ snd <$> reread i = Ok [RegisterOperand "RAX" 64 true true; ImmediateOperand "70000" 8].
Proof. vm_compute. reflexivity. Qed.

(** The address operand of [LEA] keeps its size prefix and its brackets, and
    prints with a second pair. *)
Theorem agen_operand_nested :
  let i := set_operands (from_spec Demo.lea false)
             [RegisterOperand "RAX" 64 false true; AgenOperand "RBX + 5" 64] in
  reread i ≫= (λ r, instruction_to_str r.2) = Ok "LEA RAX, qword ptr [QWORD PTR [RBX + 5]] ".
Proof. vm_compute. reflexivity. Qed.

(** The base register of the sandbox is on the blocklist, so the instrumentation
    [ADD reg, R14] of an implicit memory access cannot be read back. *)
Theorem sandbox_base_unreadable :
  reread (add_base (MemoryOperand "RDI" 64 true true)) = Raise AsmParserException.
Proof. vm_compute. reflexivity. Qed.

(** Two blocks: the first holds an instruction and branches to the second. *)
Definition branching : world :=
  let jump := set_operands (from_spec Demo.jz false) [LabelOperand ".bb_main.1"] in
  mkWorld {[ 0%nat := mkNode Demo.load None None ]}
    (<[0%nat := mkBB ".bb_main.0" [] [jump] (Some 0%nat) (Some 0%nat)]>
      (<[1%nat := BB.new_BasicBlock ".bb_main.1"]> ∅)) 1 2 0 false.

Lemma connect_blocks_spec_witness :
  let names : gmap string nat := {[ ".bb_main.1" := 1%nat ]} in
  ∃ w' b', connect_blocks names [0%nat; 1%nat] branching = Ok (tt, w') ∧
    w_bbs w' !! 0%nat = Some b' ∧ bb_successors b' = [1%nat; 1%nat].
Proof.
  intros names.
  destruct (connect_blocks_spec names [0%nat; 1%nat] branching) as (w' & H & _ & _ & Hall).
  - apply (bool_decide_unpack _). vm_compute. exact I.
  - intros x [->|[->|Hx%elem_of_nil]%elem_of_cons]%elem_of_cons; [..|done];
      do 2 eexists; (split; vm_compute; reflexivity).
  - destruct (Hall 0%nat 0%nat _ eq_refl eq_refl) as (ts & Hts & Hb').
    do 2 eexists. split_and!; [exact H|exact Hb'|]. vm_compute in Hts. injection Hts as <-.
    vm_compute. reflexivity.
Defined.

(** An empty block has no successor, although execution falls through it. *)
Theorem empty_block_disconnected :
  let w := mkWorld ∅ (<[0%nat := BB.new_BasicBlock ".bb_main.entry"]>
                       (<[1%nat := BB.new_BasicBlock ".bb_main.0"]> ∅)) 0 2 0 false in
  match connect_blocks ∅ [0%nat; 1%nat] w with
  | Ok (_, w') => bb_successors <$> w_bbs w' !! 0%nat = Some []
  | Raise _ => False
  end.
Proof. by vm_compute. Qed.
