(* ===== verification/ParserProgram.v ===== *)
(** * Parsing a printed program

    The composition of the printer and the parser: the file written for a
    test case of one function is read back as a function with the same blocks,
    in the same order, holding the same instructions and terminators, and the
    count of prologue instructions the printer left is the one the parser finds. *)

From S2P Require Import Prelude.
From S2P Require Import Isa.
From S2P Require Import Text.
From S2P Require Import BasicBlock.
From S2P Require Import Generator.
From S2P Require Import GeneratorFacts.
From S2P Require Import Passes.
From S2P Require Import PassesFacts.
From S2P Require Import LayoutFacts.
From S2P Require Import Parser.
From S2P Require Import ParserFacts.

Open Scope Z_scope.

(** ** The contents of a block, as data *)

Record section := mkSection {
  s_name : string;
  s_body : list Instruction;
  s_terms : list Instruction
}.

(** Block [bb] is the section [s], held in the nodes [l]. *)
Definition holds (w : world) (bb : nat) (s : section) (l : list nat) : Prop :=
  contents w bb l (s_body s) ∧
  ∃ b, w_bbs w !! bb = Some b ∧ bb_name b = s_name s ∧ bb_terminators b = s_terms s.

(** ** Lines *)

(** A line both passes leave to [_parse_instruction]. *)
Record instruction_line (line : string) : Prop := {
  il_trivial : trivial_line line = false;
  il_exit : line ≠ ".test_case_exit:";
  il_function : startswith ".function_" line = false;
  il_label : startswith "." line && negb (startswith ".byte" line) = false
}.

Lemma startswith_first c p s : startswith (String c p) s = true → startswith (String c "") s = true.
Proof.
  unfold startswith. destruct s as [|a s]; [done|]. rewrite prefix_char. cbn.
  destruct (ascii_dec c a) as [->|]; [|done]. intros _. by apply Ascii.eqb_refl.
Qed.

Lemma first_of n t c : n ≠ "" → startswith (String c "") (n +:+ t) = startswith (String c "") n.
Proof. destruct n as [|a n]; [done|]. intros _. rewrite str_app_cons. unfold startswith. by rewrite !prefix_char. Qed.

Lemma name_line_ok n t : canonical_name n → instruction_line (n +:+ t).
Proof.
  intros [_ Ht Hh Hd Hs]. apply tight_spec in Ht as (Hne & _ & _).
  assert (Hd' : startswith "." (n +:+ t) = false) by (by rewrite first_of).
  assert (Hs' : startswith "/" (n +:+ t) = false) by (by rewrite first_of).
  destruct n as [|c n]; [done|]. rewrite str_app_cons in *. split.
  - cbn. cbn in Hh. apply andb_true_iff in Hh as [Hh _]. apply negb_true_iff in Hh. rewrite Hh.
    unfold startswith in Hs'. by rewrite prefix_char in Hs'.
  - intros E. rewrite E in Hd'. by vm_compute in Hd'.
  - destruct (startswith ".function_" _) eqn:E; [|done]. apply startswith_first in E. congruence.
  - by rewrite Hd'.
Qed.

(** The printed line of an instruction starts with its name. *)
Lemma printed_starts i line :
  canonical_name (i_name i) → instruction_to_str i = Ok line →
  ∃ t, strip line = i_name i +:+ t.
Proof.
  intros Hn H. destruct Hn as [_ (Hne & Hl & Hr)%tight_spec _ _ _]. unfold instruction_to_str in H. inv_ok.
  unfold strip. rewrite lstrip_app by done.
  match goal with |- ∃ t, rstrip (_ +:+ ?u) = _ => destruct (decide (rstrip u = "")) as [E|E] end.
  - exists "". by rewrite rstrip_app_blank, str_app_nil.
  - eexists. by apply rstrip_app.
Qed.

(** A label the printer writes for a block. *)
Record label_name (n : string) : Prop := {
  ln_tight : tight n = true;
  ln_dot : startswith "." n = true;
  ln_function : startswith ".function_" (n +:+ ":") = false;
  ln_byte : startswith ".byte" (n +:+ ":") = false;
  ln_exit : n ≠ ".test_case_exit"
}.

Lemma label_line n : label_name n →
  strip (n +:+ ":") = n +:+ ":" ∧ trivial_line (n +:+ ":") = false ∧
  n +:+ ":" ≠ ".test_case_exit:" ∧ startswith "." (n +:+ ":") = true ∧ drop_last 1 (n +:+ ":") = n.
Proof.
  intros [Ht Hd _ _ Hx]. pose proof Ht as (Hne & _ & _)%tight_spec. split_and!.
  - apply strip_tight. by apply (tight_app n "" ":").
  - destruct n as [|c n]; [done|]. rewrite str_app_cons. unfold startswith in Hd. rewrite prefix_char in Hd.
    apply Ascii.eqb_eq in Hd as ->. done.
  - intros E. change ".test_case_exit:" with (".test_case_exit" +:+ ":") in E.
    by apply str_app_snoc_inj in E as [E _].
  - by rewrite first_of.
  - apply (drop_last_app n ":").
Qed.

(** ** Instructions that read back *)

Definition prefix_byte : Instruction := new_Instruction ".byte 0x36" false "" false.

(** The implicit operand the parser generates, where the specification leaves it no choice. *)
Definition fixed_operand (os : OperandSpec) : option Operand :=
  match os_type os, os_values os with
  | FLAGS, modes => if bool_decide (length modes = length _flag_names) then Some (FlagsOperand modes) else None
  | REG, [r] =>
      if mem r ["GPR"; "SIMD"] then None else Some (new_RegisterOperand r (os_width os) (os_src os) (os_dest os))
  | MEM, [r] => Some (new_MemoryOperand r (os_width os) (os_src os) (os_dest os))
  | IMM, v :: _ => Some (new_ImmediateOperand v (os_width os))
  | _, _ => None
  end.
Definition fixed_implicits (spec : InstructionSpec) : Prop :=
  Forall (λ os, is_Some (fixed_operand os)) (is_implicit_operands spec).

Definition reparsed (spec : InstructionSpec) (i : Instruction) : Instruction :=
  set_implicit_operands
    (set_operands (from_spec spec (i_is_instrumentation i))
       (zip_with retype (i_operands i) (is_operands spec)))
    (omap fixed_operand (is_implicit_operands spec)).

Section program.
Context (draws : nat → Z) (conf : gen_conf) (isa : list InstructionSpec).

(** [i] is printed on a line that reads as [j]: the protection prefix, or an
    instruction whose implicit operands its specification fixes. *)
Inductive rereads (i : Instruction) : Instruction → Prop :=
  | rereads_prefix : i = prefix_byte → rereads i prefix_byte
  | rereads_spec spec :
      canonical_name (i_name i) →
      Forall (readable_spec conf) (select (named (i_name i)) isa) →
      Forall (printable conf) (i_operands i) →
      chosen isa i = Some spec → fixed_implicits spec → avoid_data_dependencies conf = false →
      rereads i (reparsed spec i).

Let imap := instruction_map isa.

Lemma choice_one (x : string) w : ∃ w', choice draws (sorted [x]) w = Ok (x, w') ∧ drawn w w'.
Proof.
  destruct (choice_ok draws (sorted [x]) w) as (y & w' & H & Hy & Hd); [done|].
  apply list_elem_of_singleton in Hy as ->. by exists w'.
Qed.

Lemma generate_fixed os op inst w : avoid_data_dependencies conf = false → fixed_operand os = Some op →
  ∃ w', generate_operand draws conf os inst w = Ok ((op, inst), w') ∧ drawn w w'.
Proof.
  intros Hdep H. unfold fixed_operand in H. unfold generate_operand.
  destruct (os_type os); destruct (os_values os) as [|v vs] eqn:Ev; try done.
  - destruct vs; [|done]. destruct (mem v ["GPR"; "SIMD"]) eqn:Em; [done|]. injection H as <-.
    apply mem_false in Em. rewrite !elem_of_cons in Em. destruct (choice_one v w) as (w' & Hc & Hd). exists w'.
    split; [|done]. unfold generate_reg_operand. rewrite Ev, Hdep. cbn [head from_option negb].
    rewrite (bindM_eq _ _ w v w) by done. rewrite !bool_decide_false by tauto.
    rewrite (bindM_eq _ _ w [v] w) by done. by rewrite (bindM_eq _ _ w v w' Hc).
  - destruct vs; [|done]. injection H as <-. destruct (choice_one v w) as (w' & Hc & Hd). exists w'.
    split; [|done]. unfold generate_mem_operand. rewrite Ev, bool_decide_false by done.
    erewrite bindM_eq; [reflexivity|]. by rewrite (bindM_eq _ _ w v w' Hc).
  - injection H as <-. exists w. split; [|done]. unfold generate_imm_operand. rewrite Ev.
    erewrite bindM_eq; [reflexivity|]. by rewrite (bindM_eq _ _ w v w).
  - case_bool_decide as Hl; [|done]. injection H as <-. exists w. split; [|done].
    unfold generate_flags_operand, new_FlagsOperand. rewrite Ev, Hl. done.
Qed.

Lemma add_fixed specs : avoid_data_dependencies conf = false → Forall (λ os, is_Some (fixed_operand os)) specs →
  ∀ inst w, ∃ w',
  for_m (λ op_spec inst,
           '(op, inst) ← generate_operand draws conf op_spec inst;
           mret (add_op inst op true)) specs inst w
  = Ok (set_implicit_operands inst (i_implicit_operands inst ++ omap fixed_operand specs), w') ∧ drawn w w'.
Proof.
  intros Hdep H. induction H as [|os specs [op Hop] _ IH]; intros inst w.
  { exists w. cbn. rewrite app_nil_r. by destruct inst. }
  destruct (generate_fixed os op inst w Hdep Hop) as (w1 & H1 & Hd1).
  destruct (IH (add_op inst op true) w1) as (w' & H2 & Hd2).
  exists w'. split; [|by etransitivity]. cbn [for_m].
  rewrite (bindM_eq _ _ w (add_op inst op true) w1) by (by rewrite (bindM_eq _ _ w _ w1 H1)).
  rewrite H2. cbn [omap list_omap]. rewrite Hop. cbn. by rewrite <- app_assoc.
Qed.

(** An instruction line reads as its instruction; only draws may be spent. *)
Lemma rereads_line i j line :
  rereads i j → instruction_to_str i = Ok line →
  instruction_line (strip line) ∧
  ∀ w, ∃ w', _parse_instruction draws conf imap (strip line) w = Ok (j, w') ∧ drawn w w'.
Proof.
  intros [->|spec Hn Hrs Hp Hch Hfix Hdep] Hline.
  - injection Hline as <-. split; [by split|]. intros w. by exists w.
  - destruct (printed_starts i line Hn Hline) as [t Ht]. split; [rewrite Ht; by apply name_line_ok|].
    intros w. destruct (parse_explicit_printed conf isa i spec line) as [H1 H2]; [done..|].
    unfold _parse_instruction. rewrite H1. unfold imap. rewrite H2.
    destruct (add_fixed (is_implicit_operands spec) Hdep Hfix
      (set_operands (from_spec spec (i_is_instrumentation i)) (zip_with retype (i_operands i) (is_operands spec))) w)
      as (w' & H & Hd).
    exists w'. split; [|done]. erewrite bindM_eq by reflexivity. exact H.
Qed.
End program.

(** ** First pass *)

Definition alloc_bb (name : string) (w : world) : world :=
  mkWorld (w_heap w) (<[w_next_bb w := BB.new_BasicBlock name]> (w_bbs w)) (w_next_inst w)
    (S (w_next_bb w)) (w_draw w) (w_recent w).
Definition alloc_bbs (names : list string) (w : world) : world := fold_left (λ w n, alloc_bb n w) names w.

Lemma alloc_bbs_app l k w : alloc_bbs (l ++ k) w = alloc_bbs k (alloc_bbs l w).
Proof. apply fold_left_app. Qed.

Lemma alloc_bbs_frame names : ∀ w,
  w_heap (alloc_bbs names w) = w_heap w ∧ w_next_inst (alloc_bbs names w) = w_next_inst w ∧
  w_next_bb (alloc_bbs names w) = (w_next_bb w + length names)%nat ∧
  (∀ k n, names !! k = Some n → w_bbs (alloc_bbs names w) !! (w_next_bb w + k)%nat = Some (BB.new_BasicBlock n)) ∧
  (∀ x, (x < w_next_bb w)%nat → w_bbs (alloc_bbs names w) !! x = w_bbs w !! x).
Proof.
  induction names as [|n names IH]; intros w.
  { cbn. rewrite Nat.add_0_r. split_and!; done. }
  cbn [alloc_bbs fold_left]. fold (alloc_bbs names (alloc_bb n w)).
  destruct (IH (alloc_bb n w)) as (H1 & H2 & H3 & H4 & H5). cbn in H1, H2, H3.
  split_and!; [done|done|cbn; lia| |].
  - intros [|k] m Hk; cbn in Hk.
    + injection Hk as <-. rewrite Nat.add_0_r, H5 by (cbn; lia). cbn. by rewrite lookup_insert_eq.
    + rewrite <- Nat.add_succ_comm. by apply H4.
  - intros x Hx. rewrite H5 by (cbn; lia). cbn. by rewrite lookup_insert_ne by lia.
Qed.

(** A printed block: its label and the lines of its instructions. *)
Definition block_lines (b : string * list string) : list string := (b.1 +:+ ":") :: b.2.

Record printed_block (b : string * list string) : Prop := {
  pb_label : label_name b.1;
  pb_lines : Forall (λ l, instruction_line (strip l)) b.2
}.

Definition is_end (n : string) : bool := endswith "entry" n || endswith "exit" n.

Lemma scan_instruction_lines ls : ∀ rest p fs w,
  Forall (λ l, instruction_line (strip l)) ls →
  scan_lines (ls ++ rest) (mkScan true p fs) w = scan_lines rest (mkScan true p fs) w.
Proof.
  induction ls as [|l ls IH]; intros rest p fs w H; [done|].
  apply Forall_cons in H as [[H1 H2 _ H4] H]. cbn [app scan_lines]. rewrite H1. cbn [sc_started negb].
  rewrite bool_decide_false by done. destruct (startswith "." (strip l)) eqn:E; cbn [negb]; [|by apply IH].
  cbn [andb] in H4. apply negb_false_iff in H4. unfold scan_label. rewrite H4.
  unfold mbind at 1, M_bind. cbn [mret M_ret sc_functions sc_prologue]. by apply IH.
Qed.

Lemma scan_block b rest p fs w :
  printed_block b →
  scan_lines (block_lines b ++ rest) (mkScan true p fs) w =
  if is_end b.1 then scan_lines rest (mkScan true p fs) w
  else scan_lines rest (mkScan true p (insert_in_last (w_next_bb w) fs)) (alloc_bb b.1 w).
Proof.
  intros [Hl Hls]. destruct (label_line _ Hl) as (H1 & H2 & H3 & H4 & H5).
  destruct b as [n ls]. cbn [fst snd block_lines app scan_lines] in *. rewrite H1, H2.
  cbn [sc_started negb]. rewrite bool_decide_false by done. rewrite H4. cbn [negb].
  unfold scan_label. rewrite (ln_byte _ Hl), (ln_function _ Hl), H5. fold (is_end n).
  destruct (is_end n); unfold mbind at 1, M_bind; cbn [mret M_ret sc_functions sc_prologue];
    [by apply scan_instruction_lines|].
  unfold mbind at 1, M_bind. unfold new_bb. cbn [mret M_ret]. by apply scan_instruction_lines.
Qed.

Lemma scan_blocks e x nm blocks : ∀ l rest p w,
  Forall printed_block blocks → Forall (λ b, is_end b.1 = false) blocks →
  scan_lines ((blocks ≫= block_lines) ++ rest) (mkScan true p [mkFunction nm (e :: l ++ [x]) e x]) w =
  scan_lines rest (mkScan true p [mkFunction nm (e :: (l ++ seq (w_next_bb w) (length blocks)) ++ [x]) e x])
    (alloc_bbs blocks.*1 w).
Proof.
  induction blocks as [|b blocks IH]; intros l rest p w Hb He; [by rewrite app_nil_r|].
  apply Forall_cons in Hb as [Hb1 Hb]. apply Forall_cons in He as [He1 He].
  cbn [mbind list_bind length seq]. rewrite <- app_assoc, scan_block, He1 by done.
  assert (insert_in_last (w_next_bb w) [mkFunction nm (e :: l ++ [x]) e x] =
          [mkFunction nm (e :: (l ++ [w_next_bb w]) ++ [x]) e x]) as ->.
  { unfold insert_in_last, Func.insert. cbn [last f_name f_all_bb f_exit f_entry].
    rewrite (app_comm_cons l [x] e), removelast_last. cbn. by rewrite <- app_assoc. }
  rewrite IH by done. by rewrite <- (app_assoc l).
Qed.

(** The file of a printed program. *)
Definition file_lines (offset : Z) (blocks : list (string * list string)) : list string :=
  prologue_template offset ++ (".function_main:" :: (blocks ≫= block_lines)) ++ epilogue_template offset.

Lemma strip_cons c s : is_space c = false → ∃ t, strip (String c s) = String c t.
Proof.
  intros Hc. unfold strip. cbn. rewrite Hc. cbn. destruct (rstrip s); [rewrite Hc|]; eauto.
Qed.

Lemma scan_prologue offset rest fs w :
  scan_lines (prologue_template offset ++ rest) (mkScan false 0 fs) w =
  scan_lines rest (mkScan true 2 fs) w.
Proof.
  unfold prologue_template. rewrite (str_app_cons "L" "EA R14, [R14 + ").
  destruct (strip_cons "L" ("EA R14, [R14 + " +:+ str offset +:+ "] # instrumentation")) as [t Ht]; [done|].
  cbn [app scan_lines]. rewrite Ht. reflexivity.
Qed.

Lemma scan_exit offset st w :
  sc_started st = true → scan_lines (epilogue_template offset) st w = Ok (st, w).
Proof. intros H. cbn. by rewrite H. Qed.

Lemma scan_file offset entry mids exit base w :
  Forall printed_block (entry :: mids ++ [exit]) →
  is_end entry.1 = true → is_end exit.1 = true → Forall (λ b, is_end b.1 = false) mids →
  scan_lines (file_lines offset (entry :: mids ++ [exit]))
    (mkScan false 0 [mkFunction ".function_main" [base; S base] base (S base)]) w =
  Ok (mkScan true 2 [mkFunction ".function_main" (base :: seq (w_next_bb w) (length mids) ++ [S base]) base (S base)],
      alloc_bbs mids.*1 w).
Proof.
  intros Hb He Hx Hm. apply Forall_cons in Hb as [Hbe Hb]. apply Forall_app in Hb as [Hbm Hbx].
  apply Forall_cons in Hbx as [Hbx _].
  unfold file_lines. rewrite scan_prologue. cbn [app scan_lines].
  change (strip ".function_main:") with ".function_main:".
  transitivity (scan_lines (((entry :: mids ++ [exit]) ≫= block_lines) ++ epilogue_template offset)
    (mkScan true 2 [mkFunction ".function_main" [base; S base] base (S base)]) w); [reflexivity|].
  change ((entry :: mids ++ [exit]) ≫= block_lines) with (block_lines entry ++ ((mids ++ [exit]) ≫= block_lines)).
  rewrite bind_app, <- !app_assoc, scan_block, He by done.
  rewrite (scan_blocks base (S base) ".function_main" mids []) by done. cbn [mbind list_bind app].
  by rewrite app_nil_r, scan_block, Hx by done.
Qed.

(** The first pass over a printed file: the blocks in layout order, empty. *)
Lemma first_pass_file offset entry mids exit w :
  Forall printed_block (entry :: mids ++ [exit]) →
  entry.1 = ".bb_main.entry" → exit.1 = ".bb_main.exit" → Forall (λ b, is_end b.1 = false) mids →
  let base := w_next_bb w in
  first_pass (file_lines offset (entry :: mids ++ [exit])) w =
  Ok (mkScan true 2 [mkFunction ".function_main" (base :: seq (2 + base) (length mids) ++ [S base]) base (S base)],
      alloc_bbs (entry.1 :: exit.1 :: mids.*1) w).
Proof.
  intros Hb He Hx Hm base. unfold first_pass.
  rewrite (bindM_eq _ _ w (mkFunction ".function_main" [base; S base] base (S base))
             (alloc_bbs [entry.1; exit.1] w)) by (rewrite He, Hx; reflexivity).
  erewrite bindM_eq by (apply scan_file; [done|by rewrite He|by rewrite Hx|done]).
  reflexivity.
Qed.

(** ** The dictionary of block names *)

Definition named_block (w : world) (x : nat) (n : string) : Prop :=
  ∃ b, w_bbs w !! x = Some b ∧ bb_name b = n.

Lemma collect_from bbs ns w : ∀ m0 : gmap string nat,
  Forall2 (named_block w) bbs ns → NoDup ns →
  ∃ m : gmap string nat, for_m (λ bb (m : gmap string nat), b ← the_bb bb; mret (<[bb_name b := bb]> m)) bbs m0 w = Ok (m, w) ∧
    (∀ n, n ∉ ns → m !! n = m0 !! n) ∧
    (∀ k x n, bbs !! k = Some x → ns !! k = Some n → m !! n = Some x).
Proof.
  intros m0 H. revert m0. induction H as [|x n bbs ns (b & Hb & Hbn) _ IH]; intros m0 Hnd.
  { exists m0. split_and!; done. }
  apply NoDup_cons in Hnd as [Hn Hnd]. destruct (IH (<[n := x]> m0) Hnd) as (m & Hrun & Hout & Hin).
  exists m. split_and!.
  - cbn [for_m]. rewrite (bindM_eq _ _ w (<[n := x]> m0) w); [exact Hrun|].
    erewrite bindM_eq by (by apply the_bb_Ok). by rewrite Hbn.
  - intros n' [Hne Hn']%not_elem_of_cons. rewrite Hout by done. by rewrite lookup_insert_ne.
  - intros [|k] y n' Hk Hn'; cbn in Hk, Hn'; [|by eapply Hin].
    injection Hk as <-. injection Hn' as <-. rewrite Hout by done. by rewrite lookup_insert_eq.
Qed.

Lemma collect_names_ok bbs ns w :
  Forall2 (named_block w) bbs ns → NoDup ns →
  ∃ m, collect_names bbs w = Ok (m, w) ∧
    (∀ k x n, bbs !! k = Some x → ns !! k = Some n → m !! n = Some x).
Proof. intros H Hnd. destruct (collect_from bbs ns w ∅ H Hnd) as (m & H1 & _ & H2). by exists m. Qed.

(** ** Second pass *)

Definition is_terminator (j : Instruction) : bool :=
  i_control_flow j && negb (bool_decide (i_category j = "BASE-CALL")).

(** Only the blocks [bbs] and nodes at or after [lo] changed. *)
Record grows (bbs : list nat) (lo : nat) (w w' : world) : Prop := {
  gr_ok : heap_ok w';
  gr_next : (w_next_inst w ≤ w_next_inst w')%nat;
  gr_heap : ∀ y, (y < lo)%nat → w_heap w' !! y = w_heap w !! y;
  gr_bbs : ∀ y, y ∉ bbs → w_bbs w' !! y = w_bbs w !! y;
  gr_succ : ∀ y, successors_of w' y = successors_of w y
}.

Lemma grows_refl bbs lo w : heap_ok w → grows bbs lo w w.
Proof. by split. Qed.

Lemma grows_trans bs bs' lo lo' bs'' w1 w2 w3 :
  grows bs lo w1 w2 → grows bs' lo' w2 w3 → (lo ≤ lo')%nat → bs ⊆ bs'' → bs' ⊆ bs'' →
  grows bs'' lo w1 w3.
Proof.
  intros [A1 A2 A3 A4 A5] [B1 B2 B3 B4 B5] Hlo Hs Hs'. split; [done|lia| | |].
  - intros y Hy. by rewrite B3, A3 by lia.
  - intros y Hy. rewrite B4, A4; [done|set_solver..].
  - intros y. by rewrite B5.
Qed.

Lemma extends_grows bb l lo w w' :
  is_Some (w_bbs w !! bb) →
  (∀ x, x ∈ l → (lo ≤ x)%nat) → (lo ≤ w_next_inst w)%nat → extends bb l w w' → grows [bb] lo w w'.
Proof.
  intros [b Hb] Hl Hlo [E1 E2 E3 E4 E5]. split; [done|done| | |].
  - intros y Hy. apply E3; [|lia]. intros Hin. specialize (Hl y Hin). lia.
  - intros y Hy. apply E4. set_solver.
  - intros y. unfold successors_of. destruct (decide (y = bb)) as [->|Hy]; [|by rewrite E4].
    destruct (E5 b Hb) as (b' & Hb' & _ & Hs & _). rewrite Hb, Hb'. cbn. by rewrite Hs.
Qed.

(** Draws change nothing a block holds. *)
Lemma drawn_holds w w' bb s l : drawn w w' → holds w bb s l → holds w' bb s l.
Proof.
  intros Hd [Hc (b & Hb & Hs)]. split; [by apply (drawn_contents w)|]. exists b.
  destruct Hd as (_ & Eb & _). by rewrite Eb.
Qed.
Lemma drawn_grows bbs lo w w' : drawn w w' → heap_ok w → grows bbs lo w w'.
Proof.
  intros Hd Hok. pose proof (drawn_heap_ok _ _ Hd Hok) as Hok'. destruct Hd as (Hh & Hb & Hn & _).
  split; [done|lia|intros; by rewrite Hh|intros; by rewrite Hb|]. intros y. unfold successors_of. by rewrite Hb.
Qed.

(** What another block holds is untouched. *)
Lemma grows_holds bbs lo w w' b2 s l :
  grows bbs lo w w' → b2 ∉ bbs → (∀ x, x ∈ l → (x < lo)%nat) → holds w b2 s l → holds w' b2 s l.
Proof.
  intros [_ _ Hh Hb _] Hne Hl [[(b & Hbb & Hr) HF] (b' & Hb' & Hn & Ht)]. split.
  - split.
    + exists b. rewrite Hb by done. split; [done|]. destruct Hr as [Hs He Hnd Hseg]. split; [done..|].
      eapply seg_frame; [|exact Hseg]. intros y Hy. by apply Hh, Hl.
    + eapply Forall2_impl_in; [exact HF|]. intros y i Hy Hi. by rewrite Hh by (by apply Hl).
  - exists b'. by rewrite Hb.
Qed.

(** Appending to the end of a block, empty or not. *)
Lemma append_inst_ok w bb b l is_ j :
  heap_ok w → contents w bb l is_ → w_bbs w !! bb = Some b →
  ∃ w', (x ← new_inst j; insert_after_m bb (BB.get_last b) x) w = Ok (tt, w') ∧
    contents w' bb (l ++ [w_next_inst w]) (is_ ++ [j]) ∧ extends bb l w w'.
Proof.
  intros Hok Hc Hb. pose proof Hc as [(b' & Hb' & Hr) HF]. rewrite Hb in Hb'. injection Hb' as <-.
  unfold BB.get_last. rewrite (rep_end _ _ _ Hr).
  destruct l as [|x l _] using rev_ind.
  - apply Forall2_nil_inv_l in HF as ->. destruct (new_inst_ok w j Hok) as (w1 & H1 & Hok1 & Hn1 & Hb1 & Hd1 & Hh1).
    rewrite (bindM_eq _ _ w _ w1 H1). unfold insert_after_m, block_op. rewrite Hb1, Hb.
    cbn [last from_option mbind result_bind BB.insert_after]. rewrite (represents_start _ _ _ Hr). cbn [head].
    eexists. split; [reflexivity|]. split.
    + split; cbn.
      * eexists. rewrite lookup_insert_eq. split; [reflexivity|]. apply represents_empty_insert.
        -- rewrite Hh1. apply represents_alloc; [by intros ?%elem_of_nil|done].
        -- exists j. by rewrite Hh1, lookup_insert_eq.
      * constructor; [|constructor]. by rewrite Hh1, lookup_insert_eq.
    + split; cbn; [done|lia| | |].
      * intros y _ Hy. by rewrite Hh1, lookup_insert_ne by lia.
      * intros y Hy. by rewrite lookup_insert_ne by done.
      * intros b2 Hb2. rewrite Hb in Hb2. injection Hb2 as <-. eexists. by rewrite lookup_insert_eq.
  - rewrite last_snoc. apply Forall2_app_inv_l in HF as (is1 & is2 & HF1 & HF2 & ->).
    apply Forall2_cons_inv_l in HF2 as (i & is3 & Hi & HF3 & ->). apply Forall2_nil_inv_l in HF3 as ->.
    pose proof (instrument_after_ok w bb l x [] is1 i [] j Hok Hc (Forall2_length _ _ _ HF1))
      as (w' & H & Hc' & He & _).
    exists w'. split; [exact H|]. rewrite <- !app_assoc. split; [exact Hc'|exact He].
Qed.

Lemma add_parsed_plain w bb lo n is_ l j :
  heap_ok w → holds w bb (mkSection n is_ []) l → (∀ x, x ∈ l → (lo ≤ x)%nat) →
  (lo ≤ w_next_inst w)%nat → is_terminator j = false →
  ∃ w', add_parsed j (mkCursor bb false) w = Ok (mkCursor bb false, w') ∧ grows [bb] lo w w' ∧
    holds w' bb (mkSection n (is_ ++ [j]) []) (l ++ [w_next_inst w]).
Proof.
  intros Hok [Hc (b & Hb & Hn & Ht)] Hl Hlo Hj.
  destruct (append_inst_ok w bb b l is_ j Hok Hc Hb) as (w' & H & Hc' & He).
  exists w'. split_and!.
  - unfold add_parsed. cbn [cu_bb cu_terminators_started].
    erewrite bindM_eq by (by apply the_bb_Ok). fold (is_terminator j). rewrite Hj.
    erewrite bindM_eq by reflexivity. apply bindM_Ok in H as (x & w1 & Hx & H).
    rewrite (bindM_eq _ _ w x w1 Hx). by rewrite (bindM_eq _ _ w1 tt w' H).
  - eapply extends_grows; eauto.
  - split; [exact Hc'|]. destruct (ext_names _ _ _ _ He b Hb) as (b' & Hb' & Hn' & _ & Ht').
    exists b'. cbn in *. split_and!; congruence.
Qed.

Lemma add_parsed_terminator w bb lo n is_ ts l j t :
  heap_ok w → holds w bb (mkSection n is_ ts) l → is_terminator j = true →
  ∃ w', add_parsed j (mkCursor bb t) w = Ok (mkCursor bb true, w') ∧ grows [bb] lo w w' ∧
    w_next_inst w' = w_next_inst w ∧ holds w' bb (mkSection n is_ (ts ++ [j])) l.
Proof.
  intros Hok [[(b & Hb & Hr) HF] (b' & Hb' & Hn & Ht)] Hj.
  rewrite Hb in Hb'. injection Hb' as <-.
  exists (set_bbs (<[bb := BB.insert_terminator b j]> (w_bbs w)) w). split_and!.
  - unfold add_parsed. cbn [cu_bb]. erewrite bindM_eq by (by apply the_bb_Ok).
    fold (is_terminator j). rewrite Hj. by erewrite bindM_eq by reflexivity.
  - split; [done|done|done| |].
    + intros y Hy. cbn. rewrite lookup_insert_ne by set_solver. done.
    + intros y. unfold successors_of. cbn. destruct (decide (y = bb)) as [->|Hy].
      * by rewrite lookup_insert_eq, Hb.
      * by rewrite lookup_insert_ne.
  - done.
  - split; [split; [|done]|].
    + exists (BB.insert_terminator b j). cbn. rewrite lookup_insert_eq. split; [done|].
      by destruct Hr; split.
    + exists (BB.insert_terminator b j). cbn in *. rewrite lookup_insert_eq. by rewrite Ht.
Qed.

Lemma mapM_app_Ok {A B} (f : A → result B) l k r :
  mapM f (l ++ k) = Ok r → ∃ r1 r2, mapM f l = Ok r1 ∧ mapM f k = Ok r2 ∧ r = r1 ++ r2.
Proof.
  revert r. induction l as [|x l IH]; intros r H; cbn in H; [by exists [], r|]. inv_ok.
  destruct (IH _ H1) as (r1 & r2 & E1 & E2 & ->). exists (a :: r1), r2. cbn. by rewrite H0, E1.
Qed.

Section second_pass.
Context (draws : nat → Z) (conf : gen_conf) (isa : list InstructionSpec) (names : gmap string nat).
Let parse := parse_lines draws conf (instruction_map isa) names.

(** What is read from a printed section. *)
Record reads (s s' : section) : Prop := {
  rd_name : s_name s' = s_name s;
  rd_body : Forall2 (rereads conf isa) (s_body s) (s_body s');
  rd_terms : Forall2 (rereads conf isa) (s_terms s) (s_terms s');
  rd_plain : Forall (λ j, is_terminator j = false) (s_body s');
  rd_branch : Forall (λ j, is_terminator j = true) (s_terms s')
}.

Definition section_text (s : section) : result (string * list string) :=
  ls ← mapM instruction_to_str (s_body s ++ s_terms s); Ok (s_name s, ls).

Lemma parse_instruction_step i j raw w :
  rereads conf isa i j → instruction_to_str i = Ok raw →
  ∃ w0, drawn w w0 ∧ ∀ rest cu cu' w', add_parsed j cu w0 = Ok (cu', w') →
    parse (raw :: rest) true cu w = parse rest true cu' w'.
Proof.
  intros Hij Hraw. destruct (rereads_line draws conf isa i j raw Hij Hraw) as [[H1 H2 H3 H4] Hp].
  destruct (Hp w) as (w0 & Hp0 & Hd). exists w0. split; [done|]. intros rest cu cu' w' Hadd.
  unfold parse. cbn [parse_lines negb]. rewrite bool_decide_false, H1 by done.
  rewrite (bindM_eq _ _ w cu' w'); [done|]. unfold parse_line. rewrite H3, H4.
  by rewrite (bindM_eq _ _ w j w0).
Qed.

Lemma parse_label_step n bb rest cu w :
  label_name n → names !! n = Some bb →
  parse ((n +:+ ":") :: rest) true cu w = parse rest true (mkCursor bb false) w.
Proof.
  intros Hn Hbb. destruct (label_line n Hn) as (H1 & H2 & H3 & H4 & H5).
  unfold parse. cbn [parse_lines negb]. rewrite H1, bool_decide_false, H2 by done.
  rewrite (bindM_eq _ _ w (mkCursor bb false) w); [done|]. unfold parse_line.
  rewrite (ln_function _ Hn), H4, (ln_byte _ Hn), H5. cbn [negb andb].
  by rewrite (bindM_eq _ _ w bb w) by (by rewrite Hbb).
Qed.

Lemma parse_body bb n lo js : ∀ is_ ls done_ l w,
  Forall2 (rereads conf isa) is_ js → mapM instruction_to_str is_ = Ok ls →
  Forall (λ j, is_terminator j = false) js →
  heap_ok w → holds w bb (mkSection n done_ []) l → (∀ x, x ∈ l → (lo ≤ x)%nat) →
  (lo ≤ w_next_inst w)%nat →
  ∃ w' l', (∀ rest, parse (ls ++ rest) true (mkCursor bb false) w = parse rest true (mkCursor bb false) w') ∧
    grows [bb] lo w w' ∧ holds w' bb (mkSection n (done_ ++ js) []) l' ∧ (∀ x, x ∈ l' → (lo ≤ x)%nat).
Proof.
  induction js as [|j js IH]; intros is_ ls done_ l w HF Hls Hpl Hok Hh Hl Hlo.
  { apply Forall2_nil_inv_r in HF as ->. injection Hls as <-. exists w, l. rewrite app_nil_r.
    split_and!; [done|by apply grows_refl|done|done]. }
  apply Forall2_cons_inv_r in HF as (i & is' & Hij & HF & ->). cbn in Hls. inv_ok.
  apply Forall_cons in Hpl as [Hj Hpl].
  destruct (parse_instruction_step i j a w Hij Hls0) as (w0 & Hd & Hstep).
  pose proof (drawn_grows [bb] lo _ _ Hd Hok) as Hg0. pose proof (gr_ok _ _ _ _ Hg0) as Hok0.
  apply (drawn_holds _ _ _ _ _ Hd) in Hh. assert (lo ≤ w_next_inst w0)%nat as Hlo0 by (pose proof (gr_next _ _ _ _ Hg0); lia).
  destruct (add_parsed_plain w0 bb lo n done_ l j Hok0 Hh Hl Hlo0 Hj) as (w1 & Hadd & Hg & Hh1).
  destruct (IH is' a0 (done_ ++ [j]) (l ++ [w_next_inst w0]) w1) as (w' & l' & Hrun & Hg' & Hh' & Hl');
    [done|done|done|apply (gr_ok _ _ _ _ Hg)|done| |pose proof (gr_next _ _ _ _ Hg); lia|].
  { intros x [Hx|Hx%list_elem_of_singleton]%elem_of_app; [by apply Hl|lia]. }
  exists w', l'. split_and!; [| |by rewrite <- app_assoc in Hh'|done].
  - intros rest. cbn [app]. by rewrite (Hstep _ _ _ _ Hadd).
  - eapply (grows_trans [bb] [bb] lo lo); [exact Hg0|by eapply grows_trans|done..].
Qed.

Lemma parse_terms bb n lo is_ l js : ∀ ts ls done_ w t,
  Forall2 (rereads conf isa) ts js → mapM instruction_to_str ts = Ok ls →
  Forall (λ j, is_terminator j = true) js →
  heap_ok w → holds w bb (mkSection n is_ done_) l →
  ∃ w' t', (∀ rest, parse (ls ++ rest) true (mkCursor bb t) w = parse rest true (mkCursor bb t') w') ∧
    grows [bb] lo w w' ∧ holds w' bb (mkSection n is_ (done_ ++ js)) l.
Proof.
  induction js as [|j js IH]; intros ts ls done_ w t HF Hls Hpl Hok Hh.
  { apply Forall2_nil_inv_r in HF as ->. injection Hls as <-. exists w, t. rewrite app_nil_r.
    split_and!; [done|by apply grows_refl|done]. }
  apply Forall2_cons_inv_r in HF as (i & ts' & Hij & HF & ->). cbn in Hls. inv_ok.
  apply Forall_cons in Hpl as [Hj Hpl].
  destruct (parse_instruction_step i j a w Hij Hls0) as (w0 & Hd & Hstep).
  pose proof (drawn_grows [bb] lo _ _ Hd Hok) as Hg0. pose proof (gr_ok _ _ _ _ Hg0) as Hok0.
  apply (drawn_holds _ _ _ _ _ Hd) in Hh.
  destruct (add_parsed_terminator w0 bb lo n is_ done_ l j t Hok0 Hh Hj) as (w1 & Hadd & Hg & _ & Hh1).
  destruct (IH ts' a0 (done_ ++ [j]) w1 true) as (w' & t' & Hrun & Hg' & Hh');
    [done|done|done|apply (gr_ok _ _ _ _ Hg)|done|].
  exists w', t'. split_and!; [| |by rewrite <- app_assoc in Hh'].
  - intros rest. cbn [app]. by rewrite (Hstep _ _ _ _ Hadd).
  - eapply (grows_trans [bb] [bb] lo lo); [exact Hg0|by eapply grows_trans|done..].
Qed.

Lemma parse_section s s' text bb cu w :
  reads s s' → section_text s = Ok text → label_name (s_name s) → names !! s_name s = Some bb →
  heap_ok w → holds w bb (mkSection (s_name s) [] []) [] →
  ∃ w' cu' l, (∀ rest, parse (block_lines text ++ rest) true cu w = parse rest true cu' w') ∧
    grows [bb] (w_next_inst w) w w' ∧ holds w' bb s' l ∧ (∀ x, x ∈ l → (w_next_inst w ≤ x)%nat).
Proof.
  intros [Hn Hb Ht Hpl Hbr] Htext Hlab Hbb Hok Hh. unfold section_text in Htext. inv_ok.
  apply mapM_app_Ok in Htext0 as (l1 & l2 & H1 & H2 & ->).
  destruct (parse_body bb (s_name s) (w_next_inst w) (s_body s') (s_body s) l1 [] [] w)
    as (w1 & l & Hrun1 & Hg1 & Hh1 & Hl1); [done..|by intros x ?%elem_of_nil|done|].
  destruct (parse_terms bb (s_name s) (w_next_inst w) ([] ++ s_body s') l (s_terms s') (s_terms s) l2 [] w1 false)
    as (w' & t' & Hrun2 & Hg2 & Hh2); [done|done|done|apply (gr_ok _ _ _ _ Hg1)|done|].
  exists w', (mkCursor bb t'), l. split_and!; [|by eapply grows_trans| |done].
  - intros rest. cbn [block_lines fst snd app]. rewrite (parse_label_step _ bb) by done.
    by rewrite <- app_assoc, Hrun1, Hrun2.
  - rewrite <- Hn in Hh2. by destruct s'.
Qed.

Lemma parse_sections ss ss' : ∀ texts bbs cu w,
  Forall2 reads ss ss' → mapM section_text ss = Ok texts → Forall (λ s, label_name (s_name s)) ss →
  Forall2 (λ bb s, names !! s_name s = Some bb) bbs ss → NoDup bbs → heap_ok w →
  Forall2 (λ bb s, holds w bb (mkSection (s_name s) [] []) []) bbs ss →
  ∃ w' cu', (∀ rest, parse ((texts ≫= block_lines) ++ rest) true cu w = parse rest true cu' w') ∧
    grows bbs (w_next_inst w) w w' ∧ Forall2 (λ bb s', ∃ l, holds w' bb s' l) bbs ss'.
Proof.
  intros texts bbs cu w H. revert texts bbs cu w.
  induction H as [|s s' ss ss' Hs _ IH]; intros texts bbs cu w Htexts Hlab Hnm Hnd Hok Hh.
  { injection Htexts as <-. apply Forall2_nil_inv_r in Hnm as ->. exists w, cu.
    split_and!; [done|by apply grows_refl|constructor]. }
  cbn in Htexts. inv_ok. apply Forall_cons in Hlab as [Hlab1 Hlab].
  apply Forall2_cons_inv_r in Hnm as (bb & bbs' & Hbb & Hnm & ->).
  apply Forall2_cons in Hh as [Hh1 Hh]. apply NoDup_cons in Hnd as [Hnin Hnd].
  destruct (parse_section s s' a bb cu w Hs Htexts0 Hlab1 Hbb Hok Hh1) as (w1 & cu1 & l & Hrun1 & Hg1 & Hs1 & Hl1).
  pose proof (gr_ok _ _ _ _ Hg1) as Hok1. pose proof (gr_next _ _ _ _ Hg1) as Hnx1.
  destruct (IH a0 bbs' cu1 w1) as (w' & cu' & Hrun2 & Hg2 & Hs2); [done..| |].
  { eapply Forall2_impl_in; [exact Hh|]. intros b2 s2 Hb2 H2.
    eapply grows_holds; [exact Hg1| |by intros ? ?%elem_of_nil|exact H2]. set_solver. }
  exists w', cu'. split_and!.
  - intros rest. cbn [mbind list_bind]. by rewrite <- app_assoc, Hrun1, Hrun2.
  - eapply grows_trans; [exact Hg1|exact Hg2|done|set_solver..].
  - constructor; [|done]. exists l. eapply grows_holds; [exact Hg2|done| |exact Hs1].
    intros x Hx. eapply contents_lt; [done|apply Hs1|done].
Qed.
End second_pass.

(** ** The printer *)

Lemma snd_zip {A B} (l : list A) (k : list B) : length l = length k → snd <$> zip l k = k.
Proof. revert k. induction l as [|x l IH]; intros [|y k] H; cbn in *; [done|done|done|]. by rewrite IH by lia. Qed.

Lemma print_basic_block_text w bb s l :
  holds w bb s l →
  print_basic_block bb w = (text ← section_text s; Ok (block_lines text, w)).
Proof.
  intros [Hc (b & Hb & Hn & Ht)]. unfold print_basic_block.
  rewrite (bindM_eq _ _ w b w) by (by apply the_bb_Ok).
  rewrite (bindM_eq _ _ w (zip l (s_body s)) w) by (by apply collect_contents).
  rewrite snd_zip by (destruct Hc as [_ HF]; by eapply Forall2_length).
  unfold section_text. rewrite Hn, Ht. unfold mbind, M_bind, lift, result_bind, mret, M_ret.
  by destruct (mapM _ _).
Qed.

Lemma print_blocks_text w bbs ss : ∀ acc,
  Forall2 (λ bb s, ∃ l, holds w bb s l) bbs ss →
  for_m (λ bb acc, l ← print_basic_block bb; mret (acc ++ l)) bbs acc w =
  (texts ← mapM section_text ss; Ok (acc ++ (texts ≫= block_lines), w)).
Proof.
  intros acc H. revert acc. induction H as [|bb s bbs ss [l Hl] _ IH]; intros acc; [cbn; by rewrite app_nil_r|].
  cbn [for_m mapM]. pose proof (print_basic_block_text _ _ _ _ Hl) as Hp.
  destruct (section_text s) as [text|e]; cbn in Hp |- *.
  - rewrite (bindM_eq _ _ w (acc ++ block_lines text) w) by (by rewrite (bindM_eq _ _ w _ w Hp)).
    rewrite IH. destruct (mapM section_text ss); cbn; [|done]. by rewrite <- app_assoc.
  - unfold mbind, M_bind. by rewrite Hp.
Qed.

(** What the printer wrote for a test case of one function. *)
Lemma print_file draws conf f w ss lines tc w1 :
  f_name f = ".function_main" →
  Forall2 (λ bb s, ∃ l, holds w bb s l) (f_all_bb f) ss →
  print draws conf (mkTestCase [f] 0 ∅ 0) w = Ok ((lines, tc), w1) →
  ∃ offset texts, mapM section_text ss = Ok texts ∧ lines = file_lines offset texts ∧
    tc_num_prologue_instructions tc = 2%nat.
Proof.
  intros Hf Hh H. unfold print in H.
  apply bindM_Ok in H as (offset & w' & Hoff & H). 
  assert (drawn w w') as Hd.
  { destruct (randomized_mem_alignment conf); [apply randint_inv in Hoff; tauto|].
    apply ret_Ok in Hoff as [_ ->]. reflexivity. }
  assert (Forall2 (λ bb s, ∃ l, holds w' bb s l) (f_all_bb f) ss) as Hh'.
  { destruct Hd as (E1 & E2 & _). eapply Forall2_impl; [exact Hh|]. intros bb s [l Hl].
    exists l. unfold holds, contents in *. by rewrite E1, E2. }
  apply bindM_Ok in H as (body & w2 & Hbody & H). cbn [tc_functions for_m] in Hbody.
  apply bindM_Ok in Hbody as (b1 & w3 & Hb1 & Hbody). apply ret_Ok in Hbody as [-> ->].
  apply bindM_Ok in Hb1 as (ls & w4 & Hls & Hb1). apply ret_Ok in Hb1 as [-> ->].
  rewrite (print_blocks_text w' _ _ [] Hh') in Hls.
  apply bind_Ok in Hls as (texts & Htexts & Hls). injection Hls as <- <-.
  apply ret_Ok in H as [H _]. injection H as -> ->.
  exists (offset * 4), texts. split; [done|]. split.
  - unfold file_lines. by rewrite Hf.
  - cbn. reflexivity.
Qed.

(** ** The whole program *)

(** The blocks of a generated function: entry, numbered blocks, exit. *)
Record well_named (entry : section) (mids : list section) (exit : section) : Prop := {
  wn_entry : s_name entry = ".bb_main.entry";
  wn_exit : s_name exit = ".bb_main.exit";
  wn_mids : Forall (λ s, is_end (s_name s) = false) mids;
  wn_labels : Forall (λ s, label_name (s_name s)) (entry :: mids ++ [exit]);
  wn_unique : NoDup (s_name <$> entry :: mids ++ [exit])
}.

Definition layout (base n : nat) : list nat := base :: seq (2 + base) n ++ [S base].

Lemma layout_NoDup base n : NoDup (layout base n).
Proof.
  unfold layout. apply NoDup_cons. split.
  - rewrite elem_of_app, elem_of_seq, list_elem_of_singleton. lia.
  - apply NoDup_app. split_and!; [apply NoDup_seq| |repeat constructor; set_solver].
    intros x. rewrite elem_of_seq, list_elem_of_singleton. lia.
Qed.

(** The first pass left the blocks of the layout, empty and under their names. *)
Lemma alloc_layout entry mids exit w :
  Forall2 (λ bb s, w_bbs (alloc_bbs (s_name entry :: s_name exit :: (s_name <$> mids)) w) !! bb
                   = Some (BB.new_BasicBlock (s_name s)))
    (layout (w_next_bb w) (length mids)) (entry :: mids ++ [exit]).
Proof.
  destruct (alloc_bbs_frame (s_name entry :: s_name exit :: (s_name <$> mids)) w) as (_ & _ & _ & H & _).
  unfold layout. constructor; [|apply Forall2_app; [|constructor; [|constructor]]].
  - by rewrite <- (H 0%nat _ eq_refl), Nat.add_0_r.
  - apply Forall2_same_length_lookup_2; [by rewrite length_seq|].
    intros i x s Hx Hs. apply lookup_seq in Hx as [-> Hi].
    rewrite <- (H (S (S i)) (s_name s)); [f_equal; lia|].
    change ((s_name <$> mids) !! i = Some (s_name s)). by rewrite list_lookup_fmap, Hs.
  - rewrite <- (H 1%nat _ eq_refl). f_equal. lia.
Qed.

Lemma holds_new w bb n :
  w_bbs w !! bb = Some (BB.new_BasicBlock n) → holds w bb (mkSection n [] []) [].
Proof.
  intros H. split; [split; [|constructor]|]; exists (BB.new_BasicBlock n); (split; [done|]); [|done].
  by split; [| |constructor|].
Qed.

(** Does control fall from a block to the next, for the parser? *)
Definition falls (s : section) : bool :=
  negb (length (s_body s) =? 0)%nat &&
  match last (s_terms s) with
  | Some t => negb (bool_decide (i_category t = "BASE-UNCOND_BR"))
  | None => true
  end.

(** The names of the successors the parser gives to the [k]-th of the blocks. *)
Definition successor_names (ss : list section) (k : nat) : list string :=
  match ss !! k with
  | None => []
  | Some s =>
      branch_targets (s_terms s) ++
      match ss !! S k with Some nxt => if falls s then [s_name nxt] else [] | None => [] end
  end.

Lemma falls_through_holds w bb s l b :
  holds w bb s l → w_bbs w !! bb = Some b → falls_through (w_heap w) b = falls s.
Proof.
  intros [[(b1 & Hb1 & Hr) HF] (b2 & Hb2 & _ & Ht)] Hb. unfold falls_through, falls.
  assert (b1 = b ∧ b2 = b) as [-> ->] by (split; congruence).
  rewrite (len_represents _ _ _ Hr), Ht. by rewrite (Forall2_length _ _ _ HF).
Qed.

Lemma holds_more w w' bb s l b k :
  holds w bb s l → w_bbs w !! bb = Some b → w_heap w' = w_heap w → w_bbs w' !! bb = Some (more b k) →
  holds w' bb s l.
Proof.
  intros [[(b1 & Hb1 & Hr) HF] (b2 & Hb2 & Hn & Ht)] Hb Hh Hb'.
  assert (b1 = b ∧ b2 = b) as [-> ->] by (split; congruence).
  split; [split; [|by rewrite Hh]|]; exists (more b k); split; try done.
  rewrite Hh. by destruct Hr; split.
Qed.

Section connect.
Context (names : gmap string nat) (bbs : list nat) (ss : list section).
Context (Hnd : NoDup bbs).
Context (Hnames : Forall2 (λ bb s, names !! s_name s = Some bb) bbs ss).
Context (Hlabels : ∀ s n, s ∈ ss → n ∈ branch_targets (s_terms s) → n ∈ s_name <$> ss).

Lemma known_name n : n ∈ s_name <$> ss →
  ∃ k bb s, bbs !! k = Some bb ∧ ss !! k = Some s ∧ s_name s = n ∧ names !! n = Some bb.
Proof using Hnames.
  intros (s & -> & Hs)%list_elem_of_fmap. apply list_elem_of_lookup in Hs as [k Hk].
  destruct (Forall2_lookup_r _ _ _ _ _ Hnames Hk) as (bb & Hbb & Hn). by exists k, bb, s.
Qed.

(** The labels of a section resolve to the blocks of those names. *)
Lemma resolve_labels w l :
  Forall2 (λ bb s, ∃ l, holds w bb s l) bbs ss → (∀ n, n ∈ l → n ∈ s_name <$> ss) →
  ∃ ts, mapM (λ label, names !! label) l = Some ts ∧ Forall2 (named_block w) ts l.
Proof using Hnames.
  intros Hh. induction l as [|n l IH]; intros Hl; [by exists []|].
  destruct IH as (ts & Hts & HF); [intros; apply Hl; by right|].
  destruct (known_name n) as (k & bb & s & Hbb & Hs & <- & Hn); [apply Hl; by left|].
  exists (bb :: ts). cbn. rewrite Hn. cbn. rewrite Hts. split; [done|]. constructor; [|done].
  destruct (Forall2_lookup_lr _ _ _ _ _ _ Hh Hbb Hs) as (l' & _ & b & Hb & Hbn & _). by exists b.
Qed.

Lemma connect_sections w :
  Forall2 (λ bb s, ∃ l, holds w bb s l) bbs ss →
  (∀ bb, bb ∈ bbs → successors_of w bb = Some []) →
  ∃ w', connect_blocks names bbs w = Ok (tt, w') ∧
    Forall2 (λ bb s, ∃ l, holds w' bb s l) bbs ss ∧
    (∀ k bb, bbs !! k = Some bb → ∃ su, successors_of w' bb = Some su ∧
       Forall2 (named_block w') su (successor_names ss k)).
Proof using Hnd Hnames Hlabels.
  intros Hh Hsucc.
  assert (Hblock : ∀ k bb, bbs !! k = Some bb → ∃ s l b ts, ss !! k = Some s ∧ holds w bb s l ∧
    w_bbs w !! bb = Some b ∧ bb_successors b = [] ∧ targets names b = Some ts ∧
    Forall2 (named_block w) ts (branch_targets (s_terms s))).
  { intros k bb Hbb. destruct (Forall2_lookup_l _ _ _ _ _ Hh Hbb) as (s & Hs & l & Hl).
    assert (bb ∈ bbs) as Hin by (by eapply list_elem_of_lookup_2).
    pose proof (Hsucc bb Hin) as H0. apply fmap_Some in H0 as (b & Hb & Hb0).
    pose proof Hl as [_ (b2 & Hb2 & _ & Ht)]. assert (b2 = b) as -> by congruence.
    destruct (resolve_labels w (branch_targets (s_terms s)) Hh) as (ts & Hts & HF).
    { intros n. apply Hlabels. by eapply list_elem_of_lookup_2. }
    exists s, l, b, ts. unfold targets. by rewrite Ht. }
  destruct (connect_blocks_run names bbs w Hnd) as (w' & Hrun & Hheap & _ & Hall).
  { intros bb [k Hk]%list_elem_of_lookup.
    destruct (Hblock k bb Hk) as (s & l & b & ts & _ & _ & ? & _ & ? & _). by exists b, ts. }
  assert (Hnamed : ∀ x n, x ∈ bbs → named_block w x n → named_block w' x n).
  { intros x n [k Hk]%list_elem_of_lookup (b & Hb & Hn).
    destruct (Hall k x b Hk Hb) as (ts & _ & Hb'). by eexists. }
  exists w'. split_and!; [done| |].
  - apply Forall2_same_length_lookup_2; [by eapply Forall2_length|]. intros k bb s Hk Hs.
    destruct (Hblock k bb Hk) as (s' & l & b & ts & Hs' & Hl & Hb & _).
    assert (s' = s) as -> by congruence. destruct (Hall k bb b Hk Hb) as (ts' & _ & Hb').
    exists l. by eapply holds_more.
  - intros k bb Hk. destruct (Hblock k bb Hk) as (s & l & b & ts & Hs & Hl & Hb & Hb0 & Hts & HF).
    destruct (Hall k bb b Hk Hb) as (ts' & Hts' & Hb'). assert (ts' = ts) as -> by congruence.
    exists (ts ++ fallthrough (w_heap w) b (bbs !! S k)). split.
    { unfold successors_of. rewrite Hb'. cbn. by rewrite Hb0. }
    unfold successor_names. rewrite Hs. apply Forall2_app.
    + eapply Forall2_impl_in; [exact HF|]. intros x n Hx. apply Hnamed.
      unfold targets in Hts. apply mapM_Some in Hts.
      apply list_elem_of_lookup in Hx as [j Hj].
      destruct (Forall2_lookup_r _ _ _ _ _ Hts Hj) as (lb & Hlb & Hx).
      pose proof Hl as [_ (b2 & Hb2 & _ & Ht)]. assert (b2 = b) as -> by congruence.
      rewrite Ht in Hlb.
      destruct (known_name lb) as (k' & bb' & s' & Hbb' & _ & _ & Hn').
      { eapply Hlabels; by eapply list_elem_of_lookup_2. }
      assert (x = bb') as -> by congruence. by eapply list_elem_of_lookup_2.
    + rewrite <- (falls_through_holds _ _ _ _ _ Hl Hb).
      destruct (bbs !! S k) as [y|] eqn:Ey; cbn [fallthrough].
      * destruct (Forall2_lookup_l _ _ _ _ _ Hh Ey) as (nxt & Hnxt & ly & _ & by_ & Hby & Hbn & _).
        rewrite Hnxt. destruct (falls_through _ b); [|done]. constructor; [|done].
        apply Hnamed; [by eapply list_elem_of_lookup_2|by exists by_].
      * apply lookup_ge_None in Ey. rewrite (Forall2_length _ _ _ Hh) in Ey.
        by rewrite (proj2 (lookup_ge_None ss (S k)) Ey).
Qed.
End connect.

(** The printed text of a section is a printed block. *)
Lemma section_text_printed conf isa s s' text :
  reads conf isa s s' → section_text s = Ok text → label_name (s_name s) →
  printed_block text ∧ text.1 = s_name s.
Proof.
  intros [_ Hb Ht _ _] Htext Hl. unfold section_text in Htext. inv_ok. split; [|done].
  split; [done|]. apply Forall_forall. intros l Hin.
  destruct (mapM_elem _ _ _ Htext0 l Hin) as (i & Hi & Hil).
  assert (∃ j, rereads conf isa i j) as [j Hj].
  { apply elem_of_app in Hi as [Hi|Hi]; apply list_elem_of_lookup in Hi as [k Hk];
      [destruct (Forall2_lookup_l _ _ _ _ _ Hb Hk) as (j & _ & ?)
      |destruct (Forall2_lookup_l _ _ _ _ _ Ht Hk) as (j & _ & ?)]; by exists j. }
  by apply (rereads_line (λ _, 0) conf isa i j).
Qed.

Lemma sections_text_printed conf isa ss ss' texts :
  Forall2 (reads conf isa) ss ss' → mapM section_text ss = Ok texts →
  Forall (λ s, label_name (s_name s)) ss →
  Forall printed_block texts ∧ texts.*1 = s_name <$> ss.
Proof.
  intros H. revert texts. induction H as [|s s' ss ss' Hs _ IH]; intros texts Ht Hl; cbn in Ht; inv_ok; [done|].
  apply Forall_cons in Hl as [Hl1 Hl]. destruct (section_text_printed _ _ _ _ _ Hs Ht0 Hl1) as [H1 H2].
  destruct (IH _ Ht1 Hl) as [H3 H4]. split; [by constructor|]. cbn. by rewrite H2, H4.
Qed.

(** The first pass over the text of a program, stated on its sections. *)
Lemma first_pass_sections conf isa entry mids exit ss' texts offset w :
  well_named entry mids exit → Forall2 (reads conf isa) (entry :: mids ++ [exit]) ss' →
  mapM section_text (entry :: mids ++ [exit]) = Ok texts →
  let base := w_next_bb w in
  first_pass (file_lines offset texts) w =
  Ok (mkScan true 2 [mkFunction ".function_main" (layout base (length mids)) base (S base)],
      alloc_bbs (s_name entry :: s_name exit :: (s_name <$> mids)) w).
Proof.
  intros [He Hx Hm Hl _] Hr Ht base.
  destruct (sections_text_printed _ _ _ _ _ Hr Ht Hl) as [Hp Hn].
  destruct texts as [|te texts]; [done|]. cbn [fmap list_fmap] in Hn. injection Hn as Hne Hn.
  rewrite fmap_app in Hn. cbn [fmap list_fmap] in Hn.
  destruct texts as [|tx tm _] using rev_ind; [by destruct (s_name <$> mids)|].
  rewrite fmap_app in Hn. cbn [fmap list_fmap] in Hn. apply app_inj_tail in Hn as [Hnm Hnx].
  assert (length tm = length mids) as Hlen.
  { rewrite <- (length_fmap fst tm), <- (length_fmap s_name mids). by f_equal. }
  rewrite <- Hne, <- Hnx, <- Hnm. rewrite first_pass_file; [|done|by rewrite Hne|by rewrite Hnx|].
  - unfold layout. by rewrite Hlen.
  - apply Forall_forall. intros t Ht'. rewrite Forall_forall in Hm.
    assert (t.1 ∈ s_name <$> mids) as Hin by (rewrite <- Hnm; by apply list_elem_of_fmap_2).
    apply list_elem_of_fmap in Hin as (s & -> & Hs). by apply Hm.
Qed.

Lemma parse_header draws conf isa names offset rest bb cu w :
  names !! ".bb_main.entry" = Some bb →
  parse_lines draws conf (instruction_map isa) names
    (prologue_template offset ++ ".function_main:" :: rest) false cu w =
  parse_lines draws conf (instruction_map isa) names rest true (mkCursor bb false) w.
Proof.
  intros Hbb. unfold prologue_template. rewrite (str_app_cons "L" "EA R14, [R14 + ").
  destruct (strip_cons "L" ("EA R14, [R14 + " +:+ str offset +:+ "] # instrumentation")) as [t Ht]; [done|].
  cbn [app parse_lines negb]. rewrite Ht.
  change (strip ".function_main:") with ".function_main:". unfold parse_line.
  change (startswith ".function_" ".function_main:") with true.
  change (function_entry ".function_main:") with ".bb_main.entry". rewrite Hbb. reflexivity.
Qed.

Lemma parse_footer draws conf isa names offset cu w :
  parse_lines draws conf (instruction_map isa) names (epilogue_template offset) true cu w = Ok (cu, w).
Proof. reflexivity. Qed.

(** C12: A printed test case is parsed back, for the programs the text format can carry.
    The conditions: the test case has one function, [.function_main], whose blocks are in
    order [.bb_main.entry], blocks whose labels do not end in [entry] or [exit], and
    [.bb_main.exit]; the labels are distinct, start with a dot (not as [.function_], [.byte]
    or [.test_case_exit]) and have no blanks at their ends; every instruction
    [rereads], which is the condition of the line-by-line theorem (a name the parser takes as
    it is; registers of the register set, memory, immediates or labels as operands, so no
    [LEA] and no [ADD reg, R14] of the sandbox; a specification that accepts the operands)
    together with implicit operands that the specification fixes and operands not chosen
    for their data dependencies, or is the protection prefix; terminators read as direct
    branches of the parser and body instructions do not; and every label branched to is the
    name of a block.  Then the parser, run on the printed lines, finds one function with the
    printed name and the same blocks in the same order under the same names, each holding the
    instructions and terminators as they are read back (with the implicit operands of their
    specifications, such as RIP for a branch); the successors of each block are the targets
    of its terminators followed by the next block where control falls through; and the
    number of prologue instructions is the one the printer recorded. *)
Theorem print_parse_program draws conf draws' conf' isa f w entry mids exit ss' lines tc w1 w2 :
  let ss := entry :: mids ++ [exit] in
  f_name f = ".function_main" →
  Forall2 (λ bb s, ∃ l, holds w bb s l) (f_all_bb f) ss →
  well_named entry mids exit →
  Forall2 (reads conf' isa) ss ss' →
  (∀ s n, s ∈ ss' → n ∈ branch_targets (s_terms s) → n ∈ s_name <$> ss') →
  print draws conf (mkTestCase [f] 0 ∅ 0) w = Ok ((lines, tc), w1) →
  heap_ok w2 →
  ∃ f' w', parse_structure draws' conf' isa lines w2 =
      Ok (mkScan true (tc_num_prologue_instructions tc) [f'], w') ∧
    f_name f' = f_name f ∧
    Forall2 (λ bb s, ∃ l, holds w' bb s l) (f_all_bb f') ss' ∧
    ∀ k bb, f_all_bb f' !! k = Some bb → ∃ su, successors_of w' bb = Some su ∧
      Forall2 (named_block w') su (successor_names ss' k).
Proof.
  intros ss Hf Hh Hwn Hr Hlab Hprint Hok.
  destruct (print_file _ _ _ _ _ _ _ _ Hf Hh Hprint) as (offset & texts & Htexts & -> & Hpro).
  pose proof (first_pass_sections _ _ _ _ _ _ _ offset w2 Hwn Hr Htexts) as Hfirst. cbv zeta in Hfirst.
  set (base := w_next_bb w2) in *. set (bbs := layout base (length mids)) in *.
  set (f' := mkFunction ".function_main" bbs base (S base)) in *.
  set (w3 := alloc_bbs _ w2) in *.
  destruct (alloc_bbs_frame (s_name entry :: s_name exit :: (s_name <$> mids)) w2) as (Hh3 & Hn3 & _).
  fold w3 in Hh3, Hn3.
  pose proof (alloc_layout entry mids exit w2) as Hal. fold w3 base bbs ss in Hal.
  assert (heap_ok w3) as Hok3 by (intros x Hx; rewrite Hh3; apply Hok; lia).
  pose proof (layout_NoDup base (length mids)) as Hnd. fold bbs in Hnd.
  assert (Hss : s_name <$> ss' = s_name <$> ss).
  { clear -Hr. induction Hr as [|s s' l l' [Hn _ _ _ _] _ IH]; [done|]. cbn. by rewrite Hn, IH. }
  destruct (collect_names_ok bbs (s_name <$> ss) w3) as (names & Hcol & Hnm).
  { apply Forall2_fmap_r. eapply Forall2_impl; [exact Hal|]. intros bb s Hb. by exists (BB.new_BasicBlock (s_name s)). }
  { apply Hwn. }
  assert (Hnames : Forall2 (λ bb s, names !! s_name s = Some bb) bbs ss).
  { apply Forall2_same_length_lookup_2; [by eapply Forall2_length|]. intros k bb s Hk Hs.
    eapply Hnm; [exact Hk|]. by rewrite list_lookup_fmap, Hs. }
  destruct (parse_sections draws' conf' isa names ss ss' texts bbs (mkCursor base false) w3)
    as (w4 & cu & Hrun & Hg & Hh4); [done|done|apply Hwn|done|done|done| |].
  { eapply Forall2_impl; [exact Hal|]. intros bb s Hb. by apply holds_new. }
  destruct (connect_sections names bbs ss' Hnd) with (w := w4) as (w5 & Hcon & Hh5 & Hs5); [| |done| |].
  { apply Forall2_same_length_lookup_2; [by rewrite (Forall2_length _ _ _ Hh4)|]. intros k bb s Hk Hs.
    eapply Hnm; [exact Hk|]. rewrite <- Hss. by rewrite list_lookup_fmap, Hs. }
  { intros s n Hs Hn. by apply (Hlab s). }
  { intros bb [k Hk]%list_elem_of_lookup. rewrite (gr_succ _ _ _ _ Hg).
    destruct (Forall2_lookup_l _ _ _ _ _ Hal Hk) as (s & _ & Hb). unfold successors_of. by rewrite Hb. }
  exists f', w5. split_and!; [|by rewrite Hf|exact Hh5|exact Hs5].
  unfold parse_structure. rewrite (bindM_eq _ _ _ _ _ Hfirst). cbn [sc_functions all_blocks mbind list_bind].
  rewrite app_nil_r. cbn [f_all_bb]. rewrite (bindM_eq _ _ w3 names w3 Hcol).
  rewrite (bindM_eq _ _ w3 f' w3) by done.
  rewrite (bindM_eq _ _ w3 cu w4).
  - rewrite (bindM_eq _ _ w4 tt w5 Hcon). by rewrite Hpro.
  - unfold file_lines. apply Forall2_cons in Hnames as [He _]. rewrite (wn_entry _ _ _ Hwn) in He.
    cbn [app]. rewrite (parse_header _ _ _ _ _ _ base) by done. by rewrite Hrun.
Qed.

Module ProgramDemo.

Definition add : Instruction :=
  set_implicit_operands
    (set_operands (from_spec Demo.add_reg false)
       [RegisterOperand "RAX" 64 true true; RegisterOperand "RBX" 64 true false])
    [FlagsOperand (os_values Demo.flags)].
(** The branch as the generator writes it, without RIP, and as it is read. *)
Definition jump : Instruction :=
  set_implicit_operands (set_operands (from_spec Demo.jz false) [LabelOperand ".bb_main.exit"])
    [FlagsOperand (os_values Demo.zero_flag)].
Definition jump_read : Instruction :=
  set_implicit_operands jump [RegisterOperand "RIP" 64 true true; FlagsOperand (os_values Demo.zero_flag)].

Definition entry : section := mkSection ".bb_main.entry" [] [].
Definition middle : section := mkSection ".bb_main.0" [add; prefix_byte; Demo.load] [jump].
Definition middle_read : section := mkSection ".bb_main.0" [add; prefix_byte; Demo.load] [jump_read].
Definition exit : section := mkSection ".bb_main.exit" [] [].

Definition start : world :=
  mkWorld
    (<[0%nat := mkNode add None (Some 1%nat)]>
      (<[1%nat := mkNode prefix_byte (Some 0%nat) (Some 2%nat)]>
        {[2%nat := mkNode Demo.load (Some 1%nat) None]}))
    (<[0%nat := mkBB ".bb_main.entry" [2%nat] [] None None]>
      (<[1%nat := mkBB ".bb_main.exit" [] [] None None]>
        {[2%nat := mkBB ".bb_main.0" [1%nat; 1%nat] [jump] (Some 0%nat) (Some 2%nat)]}))
    3 3 0 false.
Definition func : Function := mkFunction ".function_main" [0%nat; 2%nat; 1%nat] 0 1.

Lemma holds_empty w bb s b :
  w_bbs w !! bb = Some b → b = mkBB (s_name s) (bb_successors b) (s_terms s) None None →
  s_body s = [] → holds w bb s [].
Proof.
  intros Hb Eb Es. split.
  - split; [|by rewrite Es]. exists b. split; [done|]. rewrite Eb. by split; [| |constructor|].
  - exists b. rewrite Eb at 2 3. done.
Qed.

Lemma start_holds :
  Forall2 (λ bb s, ∃ l, holds start bb s l) (f_all_bb func) [entry; middle; exit].
Proof.
  constructor; [|constructor; [|constructor; [|constructor]]].
  - exists []. by eapply holds_empty.
  - exists [0%nat; 1%nat; 2%nat]. split; [split|].
    + eexists. split; [reflexivity|]. split; [done|done| |].
      * apply (bool_decide_unpack _). vm_compute. exact I.
      * cbn. split_and!; eexists; reflexivity.
    + by repeat constructor.
    + eexists. split; [reflexivity|done].
  - exists []. by eapply holds_empty.
Qed.

Lemma demo_named : well_named entry [middle] exit.
Proof.
  split; [done|done| | |].
  - by repeat constructor.
  - by repeat constructor.
  - apply (bool_decide_unpack _). vm_compute. exact I.
Qed.

Lemma gpr_readable src dest : readable Demo.conf (Demo.gpr src dest).
Proof. split; [done|]. intros _. eexists. vm_compute. reflexivity. Qed.

Lemma not_reg_readable os : os_type os ≠ AGEN → os_type os ≠ REG → readable Demo.conf os.
Proof. by split. Qed.

Lemma rereads_add : rereads Demo.conf Demo.isa add add.
Proof.
  apply (rereads_spec Demo.conf Demo.isa add Demo.add_reg).
  - by split; vm_compute.
  - repeat (apply Forall_cons; split); [..|done]; (split;
      [repeat (apply Forall_cons; split); try apply gpr_readable; try done; by apply not_reg_readable
      |intros os Hos; cbn in Hos; rewrite !elem_of_cons, elem_of_nil in Hos; by destruct Hos as [->|[->|[]]]]).
  - repeat (apply Forall_cons; split); [..|done]; (eexists; split; [vm_compute; reflexivity|in_list]).
  - by vm_compute.
  - repeat constructor; by eexists.
  - done.
Qed.

Lemma rereads_load : rereads Demo.conf Demo.isa Demo.load Demo.load.
Proof.
  apply (rereads_spec Demo.conf Demo.isa Demo.load Demo.mov_load).
  - by split; vm_compute.
  - repeat (apply Forall_cons; split); [..|done]; (split;
      [repeat (apply Forall_cons; split); try apply gpr_readable; try done; by apply not_reg_readable
      |intros os Hos; cbn in Hos; rewrite !elem_of_cons, elem_of_nil in Hos; by destruct Hos as [->|[->|[]]]]).
  - apply Forall_cons. split; [eexists; split; [vm_compute; reflexivity|in_list]|].
    apply Forall_cons. split; [|done]. split_and!; [in_list|done|done|done].
  - by vm_compute.
  - repeat constructor; by eexists.
  - done.
Qed.

Lemma rereads_jump : rereads Demo.conf Demo.isa jump jump_read.
Proof.
  apply (rereads_spec Demo.conf Demo.isa jump Demo.jz).
  - by split; vm_compute.
  - repeat (apply Forall_cons; split); [..|done]. split.
    + repeat (apply Forall_cons; split); [by apply not_reg_readable|done].
    + done.
  - repeat (apply Forall_cons; split); done.
  - by vm_compute.
  - repeat constructor; by eexists.
  - done.
Qed.

Lemma demo_reads :
  Forall2 (reads Demo.conf Demo.isa) [entry; middle; exit] [entry; middle_read; exit].
Proof.
  apply Forall2_cons; split; [by split|]. apply Forall2_cons; split; [|apply Forall2_cons; split; [by split|done]].
  assert (rereads Demo.conf Demo.isa prefix_byte prefix_byte) as Hpre by (by apply rereads_prefix).
  split; [done| | |by repeat constructor|by repeat constructor].
  - apply Forall2_cons; split; [apply rereads_add|]. apply Forall2_cons; split; [done|].
    apply Forall2_cons; split; [apply rereads_load|done].
  - apply Forall2_cons; split; [apply rereads_jump|done].
Qed.

End ProgramDemo.

(** The printed three-block program is read back with its edges. *)
Lemma print_parse_program_witness :
  ∃ lines tc w1 f' w',
    print (λ _, 0) Demo.conf (mkTestCase [ProgramDemo.func] 0 ∅ 0) ProgramDemo.start = Ok ((lines, tc), w1) ∧
    parse_structure (λ _, 0) Demo.conf Demo.isa lines Demo.empty_world
      = Ok (mkScan true (tc_num_prologue_instructions tc) [f'], w') ∧
    Forall2 (λ bb s, ∃ l, holds w' bb s l) (f_all_bb f')
      [ProgramDemo.entry; ProgramDemo.middle_read; ProgramDemo.exit].
Proof.
  destruct (succeeds_Ok (print (λ _, 0) Demo.conf (mkTestCase [ProgramDemo.func] 0 ∅ 0) ProgramDemo.start))
    as [[[lines tc] w1] Hp]; [vm_compute; reflexivity|].
  destruct (print_parse_program (λ _, 0) Demo.conf (λ _, 0) Demo.conf Demo.isa ProgramDemo.func
    ProgramDemo.start ProgramDemo.entry [ProgramDemo.middle] ProgramDemo.exit
    [ProgramDemo.entry; ProgramDemo.middle_read; ProgramDemo.exit] lines tc w1 Demo.empty_world
    eq_refl ProgramDemo.start_holds ProgramDemo.demo_named ProgramDemo.demo_reads)
    as (f' & w' & Hparse & _ & Hh & _).
  - intros s n Hs Hn. cbn [app] in Hs. rewrite !elem_of_cons, elem_of_nil in Hs.
    destruct Hs as [->|[->|[->|[]]]]; vm_compute in Hn.
    + by apply elem_of_nil in Hn.
    + apply list_elem_of_singleton in Hn as ->. in_list.
    + by apply elem_of_nil in Hn.
  - exact Hp.
  - intros x _. apply lookup_empty.
  - exists lines, tc, w1, f', w'. split_and!; [exact Hp|exact Hparse|exact Hh].
Defined.
