(* ===== verification/Gem5Cmd.v ===== *)
(** * The command line of gem5

    [set_cmd] and [get_cmd] of [src/src/executor.py]: the arguments gem5 is
    started with, from the configuration.  [get_cmd] extends the debug flags in
    place, and in debug mode that list is the configuration's own. *)

From S2P Require Import Prelude Util Text Config Cli Ipc IpcFacts.

Open Scope Z_scope.

(** ** Reading the configuration *)

(** [CONF.<name>] *)
Definition attr (name : string) (c : conf) : result cfg_value := from_option AttributeError (c !! name).

(** [if CONF.<name>:] *)
Definition flag (name : string) (c : conf) : result bool := truthy <$> attr name c.

(** [f"{v}"] of the values that occur in an argument. *)
Definition fmt (v : cfg_value) : result string :=
  match v with
  | VNone => Ok "None"
  | VBool b => Ok (if b then "True" else "False")
  | VInt n => Ok (str n)
  | VStr s => Ok s
  | _ => Raise NotSupportedException
  end.

(** [f"--option={CONF.<name>}"] *)
Definition option_of (option name : string) (c : conf) : result (list string) :=
  v ← attr name c; s ← fmt v; Ok [option +:+ "=" +:+ s].
Definition options_of (l : list (string * string)) (c : conf) : result (list string) :=
  mjoin <$> mapM (λ '(o, n), option_of o n c) l.

(** [f"--option={CONF.<name>}"] when the value is set *)
Definition option_if (option name : string) (c : conf) : result (list string) :=
  b ← flag name c; if b : bool then option_of option name c else Ok [].

(** [cmd.remove(x)] *)
Fixpoint list_remove (x : string) (cmd : list string) : result (list string) :=
  match cmd with
  | [] => Raise ValueError
  | y :: cmd => if (y =? x)%string then Ok cmd else cmd ← list_remove x cmd; Ok (y :: cmd)
  end.

(** ** [set_cmd], part by part *)

Section command.
Variable c : conf.

Definition cpu_args : result (list string) :=
  l ← options_of [("--cpu-type", "cpu_type"); ("--cpu-clock", "cpu_clock"); ("--sys-clock", "sys_clock")] c;
  Ok ("--num-cpu=1" :: l).

Definition cache_args : result (list string) :=
  ruby ← flag "ruby" c;
  if ruby : bool then
    l ← options_of [("--L1_TBEs", "tbe_count"); ("--L2_TBEs", "tbe_count"); ("--DC_TBEs", "tbe_count")] c;
    Ok ("--ruby" :: l)
  else Ok ["--caches"; "--l2cache"].

(** [CONF.parse_size_as_bytes(CONF.cacheline_size)] *)
Definition cacheline : result Z :=
  v ← attr "cacheline_size" c;
  match v with
  | VInt n => parse_size_as_bytes (inr n)
  | VStr s => parse_size_as_bytes (inl s)
  | _ => Raise AttributeError
  end.

Definition geometry_args : result (list string) :=
  l1 ← options_of [("--l1d_size", "l1d_size"); ("--l1d_assoc", "l1d_assoc");
                   ("--l1i_size", "l1i_size"); ("--l1i_assoc", "l1i_assoc")] c;
  line ← cacheline;
  l2 ← options_of [("--l2_size", "l2_size"); ("--l2_assoc", "l2_assoc"); ("--DTB_entries", "dtb_entries")] c;
  Ok (l1 ++ ["--cacheline_size=" +:+ str line] ++ l2).

Definition is_ipc : result bool :=
  v ← attr "gem5_orchestration" c; Ok (bool_decide (v = VStr "ipc")).

Definition dump_args : result (list string) :=
  ipc ← is_ipc; Ok (if ipc : bool then [] else ["--dump-caches"]).

Definition stt_args (cmd : list string) : result (list string) :=
  stt ← flag "STT" c;
  if negb stt then Ok cmd
  else
    let cmd := cmd ++ ["--needsTSO=1"; "--STT=1"; "--implicit_channel=1"] in
    unsafe ← flag "STT_UnsafeBaseline" c;
    if unsafe : bool then
      cmd ← list_remove "--STT=1" cmd;
      cmd ← list_remove "--implicit_channel=1" cmd;
      Ok (cmd ++ ["--STT=0"; "--implicit_channel=0"; "--threat_model=UnsafeBaseline"])
    else
      futuristic ← flag "STT_FuturisticSpec" c;
      Ok (cmd ++ [if futuristic : bool then "--threat_model=Futuristic" else "--threat_model=Spectre"]).

Definition protean_args : result (list string) :=
  protean ← flag "protean" c;
  if negb protean then Ok []
  else
    p ← option_of "--protean" "protean" c;
    mode ← option_if "--protean-pred-mode" "protean_pred_mode" c;
    size ← option_if "--protean-pred-size" "protean_pred_size" c;
    Ok (p ++ ["--speculation-model=AtRet"] ++ mode ++ size).

(** [CONF.gem5_script_opts.split()] *)
Definition script_args : result (list string) :=
  v ← attr "gem5_script_opts" c;
  match v with VStr s => Ok (words s) | _ => Raise AttributeError end.

Definition dolma_mode_args (m : cfg_value) : result (list string) :=
  match m with
  | VMode Baseline => Ok ["--mode=0"]
  | VMode DOLMA_Default_MR => Ok ["--mode=1"]
  | VMode STT_Spectre_MR => Ok ["--mode=1"; "--stt=1"]
  | VMode DOLMA_Conservative_MR => Ok ["--mode=2"]
  | VMode STT_Futuristic_MR => Ok ["--mode=2"; "--stt=1"]
  | VMode DOLMA_Default_M => Ok ["--mode=3"]
  | VMode STT_Spectre_M => Ok ["--mode=3"; "--stt=1"]
  | VMode DOLMA_Conservative_M => Ok ["--mode=4"]
  | VMode STT_Futuristic_M => Ok ["--mode=4"; "--stt=1"]
  | _ => Raise RuntimeError
  end.
Definition dolma_args : result (list string) :=
  dolma ← flag "DOLMA" c;
  if negb dolma then Ok []
  else m ← attr "DOLMA_mode" c; l ← dolma_mode_args m; Ok ("--mem-type=SimpleMemory" :: l).

Definition speclfb_args : result (list string) :=
  speclfb ← flag "SpecLFB" c;
  if negb speclfb then Ok []
  else
    unsafe ← flag "SpecLFB_UnsafeBaseline" c;
    Ok ["--bp-type=BiModeBP"; if unsafe : bool then "--scheme=unsafebaseline" else "--scheme=Speclfb"].

Definition cleanupspec_args (cmd : list string) : result (list string) :=
  cleanup ← flag "CleanupSpec" c;
  if negb cleanup then Ok cmd
  else
    let cmd := cmd ++ ["--needsTSO=0"; "--scheme_invisispec=UnsafeBaseline";
                       "--scheme_cleanupcache=Cleanup_FOR_L1L2"] in
    unsafe ← flag "CleanupSpec_UnsafeBaseline" c;
    if unsafe : bool then
      cmd ← list_remove "--scheme_cleanupcache=Cleanup_FOR_L1L2" cmd;
      Ok (cmd ++ ["--scheme_cleanupcache=UnsafeBaseline"])
    else Ok cmd.

Definition invisispec_args (cmd : list string) : result (list string) :=
  invisi ← flag "InvisiSpec" c;
  if negb invisi then Ok cmd
  else
    let scheme := "--scheme=SpectreSafeInvisibleSpec" in
    let cmd := cmd ++ ["--needsTSO=0"; scheme] in
    unsafe ← flag "InvisiSpec_UnsafeBaseline" c;
    cmd ← (if unsafe : bool then
             cmd ← list_remove scheme cmd; Ok (cmd ++ ["--scheme=UnsafeBaseline"])
           else
             futuristic ← flag "InvisiSpec_FuturisticSpec" c;
             if futuristic : bool
             then cmd ← list_remove scheme cmd; Ok (cmd ++ ["--scheme=FuturisticSafeInvisibleSpec"])
             else Ok cmd);
    patch ← flag "InvisiSpec_apply_spec_eviction_patch" c;
    Ok (if patch : bool then cmd ++ ["--apply-spec-eviction-patch"] else cmd).

(** [self.cmd], for [self.MAX_TICKS] *)
Definition set_cmd (max_ticks : Z) : result (list string) :=
  build ← attr "gem5_binary" c; build ← fmt build;
  outdir ← option_of "--outdir" "gem5_output_location" c;
  se ← attr "gem5_se" c; se ← fmt se;
  cpu ← cpu_args;
  cache ← cache_args;
  geometry ← geometry_args;
  dump ← dump_args;
  let cmd := [build; ""; ""] ++ outdir ++ [se; "-c"; ""] ++ cpu ++ cache ++ geometry ++ dump in
  cmd ← stt_args cmd;
  protean ← protean_args;
  script ← script_args;
  dolma ← dolma_args;
  speclfb ← speclfb_args;
  cmd ← cleanupspec_args (cmd ++ protean ++ script ++ dolma ++ speclfb);
  cmd ← invisispec_args cmd;
  checkpoint ← option_of "--checkpoint-dir" "gem5_checkpoint" c;
  Ok (cmd ++ ["--rel-max-tick=" +:+ str max_ticks] ++ checkpoint).

(** ** [get_cmd] *)

(** The attacker mode's sources. *)
Definition attacker_sources : result (list string) :=
  v ← attr "gem5_attacker_mode" c;
  match v with VDict d => from_option KeyError (dict_get "sources" d) | _ => Raise TypeError end.

(** The debug flags asked for; [getenv] is the process environment. *)
Definition debug_flags_of (getenv : string → option string) : result (list string) :=
  debug ← flag "debug" c;
  flags ← (if debug : bool then
             v ← attr "debug_flags" c;
             match v with VList l => Ok l | _ => Raise AttributeError end
           else Ok []);
  sources ← attacker_sources;
  let flags := if mem "dtlb" sources && negb (mem "DumpTLBWithCaches" flags)
               then flags ++ ["DumpTLBWithCaches"] else flags in
  ipc ← is_ipc;
  let env := default "" (getenv "GEM5_DEBUG_FLAGS") in
  Ok (if (ipc : bool) && negb (env =? "")%string then flags ++ split "," env else flags).

(** The list [CONF.debug_flags] is extended in place when it is the one used. *)
Definition keep_flags (flags : list string) : result conf :=
  debug ← flag "debug" c; Ok (if debug : bool then <["debug_flags" := VList flags]> c else c).

Definition debug_args (getenv : string → option string) (flags : list string) : option (string * string) :=
  if bool_decide (flags = []) then None
  else
    Some ("--debug-flags=" +:+ str_join "," flags,
          match getenv "GEM5_DEBUG_FILE" with
          | Some file => if (file =? "")%string then "--debug-file=log.out" else "--debug-file=" +:+ file
          | None => "--debug-file=log.out"
          end).

(** The assignments to [cmd[1]] … [cmd[6]]; the script only changes in the IPC mode. *)
Definition fill_placeholders (cmd : list string) (script : option string) (debug : option (string * string))
    (tc_path : string) : result (list string) :=
  match cmd with
  | build :: flags :: file :: outdir :: se :: c_option :: _ :: rest =>
      let '(flags, file) := default (flags, file) debug in
      let '(se, c_option) := match script with Some s => (s, "") | None => (se, c_option) end in
      Ok (build :: flags :: file :: outdir :: se :: c_option :: tc_path :: rest)
  | _ => Raise IndexError
  end.

Definition get_cmd (getenv : string → option string) (cmd : list string) (main_region_size : Z)
    (tc_path : string) (restore priming : bool) : result (list string * conf) :=
  ipc ← is_ipc;
  script ← (if ipc : bool then s ← gem5_config_ipc c; Ok (Some s) else Ok None);
  debug_flags ← debug_flags_of getenv;
  cmd ← fill_placeholders cmd script (debug_args getenv debug_flags) tc_path;
  save ← flag "gem5_save_checkpoints" c;
  debug ← flag "debug" c;
  stats ← flag "dump_stats" c;
  profile ← flag "profile" c;
  let cmd := cmd
    ++ (if negb priming && (save : bool) then ["--checkpoint-at-end"] else [])
    ++ (if (debug : bool) || stats then ["--dump-stats"] else [])
    ++ (if restore then ["--restore-with-cpu=DerivO3CPU"; "-r 1"] else [])
    ++ (if (ipc : bool) then ["--socket"; "SOCKET"; "--sandbox-size"; str main_region_size] else [])
    ++ (if profile : bool then ["--profile"] else []) in
  c ← keep_flags debug_flags;
  Ok (List.filter (λ a, negb (a =? "")%string) cmd, c).
End command.

(** ** What the command consists of *)

Notation nonblank := (λ a : string, negb (a =? "")%string).

Lemma words_nonblank cmd : Forall (λ a, a ≠ EmptyString) (List.filter nonblank cmd).
Proof.
  apply Forall_forall. intros a Ha%list_elem_of_In. apply filter_In in Ha as [_ Ha].
  intros ->. done.
Qed.

Lemma filter_notin (x : string) cmd : x ∉ cmd → x ∉ List.filter nonblank cmd.
Proof. rewrite !list_elem_of_In, filter_In. tauto. Qed.

(** The debug arguments are options, never a bare word. *)
Lemma debug_args_options getenv flags f g :
  debug_args getenv flags = Some (f, g) → f ≠ "SOCKET" ∧ g ≠ "SOCKET".
Proof.
  unfold debug_args. case_bool_decide; [done|]. intros [= <- <-]. split; [done|].
  destruct (getenv "GEM5_DEBUG_FILE") as [file|]; [by destruct (file =? "")%string|done].
Qed.

Lemma fill_placeholders_free cmd script flags tc_path filled x :
  fill_placeholders cmd (Some script) flags tc_path = Ok filled →
  x ∉ cmd → (∀ f g, flags = Some (f, g) → f ≠ x ∧ g ≠ x) → script ≠ x → x ≠ "" → tc_path ≠ x →
  x ∉ filled.
Proof.
  destruct cmd as [|a0 [|a1 [|a2 [|a3 [|a4 [|a5 [|a6 rest]]]]]]]; try done. cbn.
  destruct flags as [[f g]|]; cbn; intros [= <-] Hx Hf ?? ?.
  - destruct (Hf f g eq_refl). set_solver.
  - set_solver.
Qed.

(** Everything in front of the socket option. *)
Lemma get_cmd_ipc c getenv cmd size tc restore priming cmd' c' :
  is_ipc c = Ok true →
  get_cmd c getenv cmd size tc restore priming = Ok (cmd', c') →
  ∃ script flags filled p q,
    gem5_config_ipc c = Ok script
    ∧ fill_placeholders cmd (Some script) (debug_args getenv flags) tc = Ok filled
    ∧ "SOCKET" ∉ p
    ∧ cmd' = List.filter nonblank (filled ++ p) ++ ["--socket"; "SOCKET"; "--sandbox-size"; str size]
             ++ List.filter nonblank q.
Proof.
  intros Hi. unfold get_cmd. rewrite Hi. cbn [mbind result_bind].
  destruct (gem5_config_ipc c) as [script|] eqn:Es; [|done]. cbn [mbind result_bind].
  destruct (debug_flags_of c getenv) as [flags|]; [|done]. cbn [mbind result_bind].
  destruct (fill_placeholders _ _ _ tc) as [filled|] eqn:Ef; [|done]. cbn [mbind result_bind].
  destruct (flag "gem5_save_checkpoints" c) as [save|]; [|done].
  destruct (flag "debug" c) as [debug|]; [|done].
  destruct (flag "dump_stats" c) as [stats|]; [|done].
  destruct (flag "profile" c) as [profile|]; [|done]. cbn [mbind result_bind].
  destruct (keep_flags c flags) as [c1|]; [|done]. cbn [mbind result_bind].
  intros [= <- <-].
  set (p1 := if negb priming && save then _ else _).
  set (p2 := if debug || stats then _ else _).
  set (p3 := if restore then _ else _).
  exists script, flags, filled, (p1 ++ p2 ++ p3), (if profile then ["--profile"] else []).
  split_and!; try done.
  - subst p1 p2 p3. destruct (negb priming && save), (debug || stats), restore; set_solver.
  - rewrite !List.filter_app, <- !app_assoc. do 4 f_equal.
    cbn. pose proof (str_nonempty size) as Hs. apply String.eqb_neq in Hs. by rewrite Hs.
Qed.

(** Starting a process puts its socket's name where the placeholder is. *)
Lemma start_at_socket {W} `{!Gem5 W} (conf : ipc_conf) name front back (s : @ipc W) :
  "SOCKET" ∉ front →
  start_new_gem5_process conf name (front ++ "SOCKET" :: back) s
  = let '(pid, w) := popen (front ++ name :: back) (world s) in
    Ok (tt, mkIpc (if mem pid (processes s) then processes s else processes s ++ [pid])
                  (if mem pid (sockets s) then sockets s else sockets s ++ [pid])
                  (active_process s) (last_case s) w).
Proof.
  intros Hf. unfold start_new_gem5_process.
  replace (negb (analysis_run conf && (1 <? parallelism conf))) with true
    by (unfold parallelism; by destruct (analysis_run conf)).
  cbn [assert_ mbind result_bind].
  rewrite list_find_app_r.
  - assert (Hl : list_find (λ a, a = "SOCKET") ("SOCKET" :: back) = Some (0%nat, "SOCKET")) by done.
    rewrite Hl. cbn [fmap option_fmap option_map prod_map fst from_option mbind result_bind id].
    rewrite Nat.add_0_l, insert_app_r_alt, Nat.sub_diag by lia. done.
  - apply list_find_None, Forall_forall. intros x Hx ->. done.
Qed.

(** The command built for the IPC mode is one the orchestration can start: no
    argument is blank, and the placeholder it replaces by the socket's name is the
    word after --socket, followed by the size of the sandbox, as long as no path of
    the configuration is itself that word. *)
Theorem ipc_command_names_socket {W} `{!Gem5 W} (conf : ipc_conf) name (s : @ipc W)
    c getenv cmd size tc restore priming cmd' c' :
  is_ipc c = Ok true → "SOCKET" ∉ cmd → tc ≠ "SOCKET" → gem5_config_ipc c ≠ Ok "SOCKET" →
  get_cmd c getenv cmd size tc restore priming = Ok (cmd', c') →
  Forall (λ a, a ≠ EmptyString) cmd' ∧
  ∃ front back,
    cmd' = front ++ "--socket" :: "SOCKET" :: "--sandbox-size" :: str size :: back
    ∧ start_new_gem5_process conf name cmd' s
      = let '(pid, w) := popen (front ++ "--socket" :: name :: "--sandbox-size" :: str size :: back) (world s) in
        Ok (tt, mkIpc (if mem pid (processes s) then processes s else processes s ++ [pid])
                      (if mem pid (sockets s) then sockets s else sockets s ++ [pid])
                      (active_process s) (last_case s) w).
Proof.
  intros Hi Hcmd Htc Hscript H.
  destruct (get_cmd_ipc _ _ _ _ _ _ _ _ _ Hi H) as (script & flags & filled & p & q & Es & Ef & Hp & ->).
  assert (Hn : "SOCKET" ∉ filled).
  { eapply fill_placeholders_free; [done|done|apply debug_args_options|congruence|done|done]. }
  split.
  - apply Forall_app. split; [apply words_nonblank|]. apply Forall_app.
    split; [|apply words_nonblank]. repeat constructor; try done. apply str_nonempty.
  - exists (List.filter nonblank (filled ++ p)), (List.filter nonblank q). split; [done|].
    set (front := List.filter nonblank (filled ++ p)).
    set (back := List.filter nonblank q).
    pose proof (start_at_socket conf name (front ++ ["--socket"]) ("--sandbox-size" :: str size :: back) s) as S.
    rewrite <- !app_assoc in S. apply S.
    rewrite not_elem_of_app. split; [|set_solver]. apply filter_notin. set_solver.
Qed.

(** ** The flags of the environment pile up *)

Lemma flag_of name c v : c !! name = Some v → flag name c = Ok (truthy v).
Proof. intros H. unfold flag, attr. by rewrite H. Qed.

(** The whole command only depends on the debug flags through [debug_flags_of]. *)
Lemma get_cmd_keeps c getenv cmd size tc restore priming cmd' c' :
  get_cmd c getenv cmd size tc restore priming = Ok (cmd', c') →
  ∃ flags, debug_flags_of c getenv = Ok flags ∧ keep_flags c flags = Ok c'.
Proof.
  unfold get_cmd. destruct (is_ipc c) as [ipc|]; [|done]. cbn [mbind result_bind].
  destruct (if ipc : bool then s ← gem5_config_ipc c; _ else _) as [script|]; [|done]. cbn [mbind result_bind].
  destruct (debug_flags_of c getenv) as [flags|]; [|done]. cbn [mbind result_bind].
  destruct (fill_placeholders _ _ _ tc) as [filled|]; [|done]. cbn [mbind result_bind].
  destruct (flag "gem5_save_checkpoints" c), (flag "debug" c), (flag "dump_stats" c), (flag "profile" c);
    try done. cbn [mbind result_bind].
  destruct (keep_flags c flags) as [c1|] eqn:E; [|done]. intros [= <- <-]. eauto.
Qed.

(** In debug mode the flags of GEM5_DEBUG_FLAGS are appended to the configuration's own
    list: every command built (one per restart of gem5) makes it longer. *)
Theorem debug_flags_accumulate c getenv env l sources cmd size tc restore priming cmd' c' :
  is_ipc c = Ok true → flag "debug" c = Ok true → c !! "debug_flags" = Some (VList l) →
  attacker_sources c = Ok sources → "dtlb" ∉ sources →
  getenv "GEM5_DEBUG_FLAGS" = Some env → env ≠ "" →
  get_cmd c getenv cmd size tc restore priming = Ok (cmd', c') →
  c' = <["debug_flags" := VList (l ++ split "," env)]> c.
Proof.
  intros Hi Hd Hl Hs Hn He Hne H.
  apply get_cmd_keeps in H as (flags & Hf & Hk).
  unfold debug_flags_of, keep_flags, attr in *. rewrite Hd, Hl, Hs, Hi, He in *.
  cbn [mbind result_bind from_option default id] in *.
  replace (mem "dtlb" sources) with false in Hf.
  - cbn [andb] in Hf. apply String.eqb_neq in Hne. rewrite Hne in Hf. cbn in Hf. congruence.
  - symmetry. by apply mem_false.
Qed.

(** ** On a concrete configuration *)

Module CmdDemo.
(** STT's unsafe baseline, run over a socket in debug mode. *)
Definition config : conf :=
  <["gem5_orchestration" := VStr "ipc"]> (<["gem5_attacker_mode" := VDict [("sources", ["data_cache"])]]>
  (<["STT" := VBool true]> (<["STT_UnsafeBaseline" := VBool true]> (<["debug" := VBool true]>
  (<["ruby" := VBool false]> ConfCls))))).
Definition getenv (name : string) : option string :=
  if (name =? "GEM5_DEBUG_FLAGS")%string then Some "Exec,Cache" else None.

Definition self_cmd : list string :=
  Eval vm_compute in match set_cmd config 1000000000 with Ok cmd => cmd | Raise _ => [] end.
Definition config' : conf := <["debug_flags" := VList ["Exec"; "Cache"]]> config.
End CmdDemo.

Example set_cmd_demo : set_cmd CmdDemo.config 1000000000 = Ok CmdDemo.self_cmd.
Proof. vm_compute. reflexivity. Qed.

Lemma ipc_command_names_socket_witness :
  match get_cmd CmdDemo.config CmdDemo.getenv CmdDemo.self_cmd 4096 "" false false with
  | Ok (cmd, _) =>
      ∃ front back,
        cmd = front ++ "--socket" :: "SOCKET" :: "--sandbox-size" :: str 4096 :: back
        ∧ start_new_gem5_process IpcDemo.conf "gem5_a1" cmd IpcDemo.start
          = Ok (tt, mkIpc [7; 8] [7; 8] 7 (Some [1; 2; 3]) (IpcDemo.mkToy [8; 7] []))
  | Raise _ => False
  end.
Proof.
  assert (Hok : succeeds (get_cmd CmdDemo.config CmdDemo.getenv CmdDemo.self_cmd 4096 "" false false) = true)
    by (vm_compute; reflexivity).
  assert (Hi : is_ipc CmdDemo.config = Ok true) by (vm_compute; reflexivity).
  assert (Hs : "SOCKET" ∉ CmdDemo.self_cmd) by (apply mem_false; vm_compute; reflexivity).
  assert (Hg : gem5_config_ipc CmdDemo.config ≠ Ok "SOCKET") by (vm_compute; done).
  assert (Ht : EmptyString ≠ "SOCKET") by done.
  destruct (get_cmd CmdDemo.config CmdDemo.getenv CmdDemo.self_cmd 4096 "" false false) as [[cmd c']|e] eqn:H;
    [|exact (False_ind _ (diff_false_true Hok))].
  destruct (ipc_command_names_socket IpcDemo.conf "gem5_a1" IpcDemo.start _ _ _ _ _ _ _ _ _ Hi Hs Ht Hg H)
    as [_ (front & back & E & S)].
  exists front, back. split; [exact E|]. rewrite S. vm_compute. reflexivity.
Defined.

Example debug_flags_grow :
  get_cmd CmdDemo.config' CmdDemo.getenv CmdDemo.self_cmd 4096 "" false false ≫= (λ '(_, c), attr "debug_flags" c)
  = Ok (VList ["Exec"; "Cache"; "Exec"; "Cache"]).
Proof. vm_compute. reflexivity. Qed.
