(* ===== verification/Gem5Exec.v ===== *)
(** * The executor over a connection to gem5

    [load_test_case], [ipc_trace_test_case], [trace_test_case], [trace_priming] and
    the files they leave, of [src/src/executor.py], in the mode the fuzzer is run in:
    [gem5_orchestration] is "ipc", [gem5_save_checkpoints],
    [gem5_enable_cross_test_case_checkpoints] and [profile] are off (so nothing is
    restored).  The state is a core (the connection, the configuration and the fields
    of the object) and the debug files.  Parsing TOML and the hash of a trace are
    parameters; bug reports only copy files. *)

From S2P Require Import Prelude Input Util Text Config Ipc DebugFiles CacheTrace Gem5Cmd.

Open Scope Z_scope.

(** ** The tags file as TOML *)

(** [for line in f]: every line keeps its newline. *)
Fixpoint lines_from (line s : string) : list string :=
  match s with
  | EmptyString => match line with EmptyString => [] | _ => [line] end
  | String c s =>
      if Ascii.eqb c "010" then (line +:+ newline) :: lines_from EmptyString s
      else lines_from (line +:+ String c EmptyString) s
  end.
Definition toml_lines : string → list string := lines_from EmptyString.

Definition quote : string := String "034" EmptyString.

Definition format_line (line : string) : string :=
  if str_in "=" line then
    let spl := split "=" line in
    nth 0 spl "" +:+ "=" +:+ quote +:+ replace newline "" (nth 1 spl "") +:+ quote
  else if str_in "[" line then
    let id_ := drop_last 1 (str_drop 1 (strip line)) in
    "[" +:+ replace "]" "--" (replace "[" "--" id_) +:+ "]"
  else line.

Definition format_checkpoint (text : string) : string :=
  str_join newline (format_line <$> toml_lines text).

(** The same for a trace of states: a header [State_x] is remembered and put in front of the
    headers that follow; the parts of the text before the first one are an error. *)
Definition header_name (line : string) : string := drop_last 1 (str_drop 1 (strip line)).
Definition format_trace_line (line : string) (st : option string * list string)
    : result (option string * list string) :=
  let '(currentState, lines) := st in
  if negb (str_in "=" line) && str_in "[" line then
    let id_ := header_name line in
    if str_in "State_" id_ then Ok (Some (replace "State_" "" id_), lines ++ ["[" +:+ id_ +:+ "]"])
    else
      state ← from_option TypeError currentState;
      Ok (currentState,
          lines ++ ["[State_" +:+ state +:+ "." +:+ replace "]" "--" (replace "[" "--" id_) +:+ "]"])
  else Ok (currentState, lines ++ [format_line line]).
Definition format_checkpoint_trace (text : string) : result string :=
  '(_, lines) ← for_each format_trace_line (toml_lines text) (None, []);
  Ok (str_join newline lines).

(** ** State *)

(** What the executor reads of the configuration; [ec_dir] is the debug directory of
    the test case, [ec_output_exists] and [ec_dir_exists] are about directories. *)
Record exec_conf := mkExecConf {
  ec_debug : bool;
  ec_persist_log : bool;
  ec_show_output : bool;
  ec_save_stats : bool;
  ec_dir : string;
  ec_dir_exists : bool;
  ec_output_location : string;
  ec_output_exists : bool;
  ec_checkpoint : string;
  ec_sources : list string;
  ec_trace : trace_conf;
  ec_ipc : ipc_conf;
  ec_regions : regions
}.

(** The standard output of a gem5 process: its lines until the end of the stream. *)
Class Gem5Output (W : Type) := {
  output : Z → W → list (list Z);
  set_output : Z → list (list Z) → W → W
}.

(** ** Files and a core

    The executor's methods act on the files and on the other fields of the object,
    its core; the core depends on how gem5 is run. *)

Record with_files (K : Type) := mkGem5Exec { x_core : K; x_files : files }.
Arguments mkGem5Exec {K} _ _.
Arguments x_core {K} _.
Arguments x_files {K} _.

(** Computations that do not touch the files, and those that do. *)
Definition C (K A : Type) : Type := K → result (A * K).
#[global] Instance C_ret {K} : MRet (C K) := λ A a k, Ok (a, k).
#[global] Instance C_bind {K} : MBind (C K) := λ A B f m k, '(a, k) ← m k; f a k.
Definition X (K A : Type) : Type := with_files K → result (A * with_files K).
#[global] Instance X_ret {K} : MRet (X K) := λ A a s, Ok (a, s).
#[global] Instance X_bind {K} : MBind (X K) := λ A B f m s, '(a, s) ← m s; f a s.

Section executor.
Variable cfg : exec_conf.
(** [toml.load] and the hash of a printed trace. *)
Variable parse_toml : string → result toml.
Variable digest : list trace_item → Z.

Section files.
Context {K : Type}.

Definition on_core {A} (m : C K A) : X K A := λ s,
  '(a, k) ← m (x_core s); Ok (a, mkGem5Exec k (x_files s)).
Definition on_files (f : files → result files) : X K unit := λ s,
  fs ← f (x_files s); Ok (tt, mkGem5Exec (x_core s) fs).
Definition read_file (name : string) : X K string := λ s,
  text ← read_debug_file (ec_debug cfg) name (x_files s); Ok (text, s).
Definition write_file (name text : string) : X K unit :=
  on_files (λ fs, Ok (write_debug_file (ec_debug cfg) name text fs)).
Definition copy_file (source destination : string) : X K unit :=
  on_files (copy_debug_file (ec_debug cfg) source destination false).

Definition craise {A} (e : exn) : C K A := λ _, Raise e.
Definition ccheck (b : bool) (e : exn) : C K unit := λ k, assert_ b e;; Ok (tt, k).
Definition clift {A} (r : result A) : C K A := λ k, a ← r; Ok (a, k).

(** ** Files of a run *)

Definition debug_file (name : string) : string := ec_dir cfg +:+ "/" +:+ name.
Definition run_name (kind : string) (id_ : Z) (input_ : Input) (ext : string) : string :=
  debug_file (kind +:+ "_" +:+ str id_ +:+ "_" +:+ str (in_seed input_) +:+ ext).
Definition tags_name (id_ : Z) (input_ : Input) : string := run_name "cache_tags" id_ input_ "".

Definition format_checkpoint_file (source_file_name destination_file_name : string) : X K unit :=
  text ← read_file source_file_name;
  write_file destination_file_name (format_checkpoint text).

Definition format_checkpoint_trace_file (source_file_name destination_file_name : string) : X K unit :=
  text ← read_file source_file_name;
  lines ← on_core (clift (format_checkpoint_trace text));
  write_file destination_file_name lines.

(** [section.field] of a file; an empty or missing section is an empty text. *)
Definition get_checkpoint_field (file_name prop : string) : X K toml :=
  section ← on_core (clift (from_option IndexError (split "." prop !! 0%nat)));
  field ← on_core (clift (from_option IndexError (split "." prop !! 1%nat)));
  text ← read_file file_name;
  t ← on_core (clift (parse_toml text));
  match toml_get t section with
  | Raise _ | Ok (TTable []) | Ok (TStr "") => mret (TStr "")
  | Ok res => on_core (clift (toml_get res field))
  end.

(** [get_trace]: the tags are formatted into a file of their own and read back. *)
Definition exec_get_trace (id_ : Z) (input_ : Input) : X K Z :=
  let tags_file := run_name "cache_tags" id_ input_ ".toml" in
  format_checkpoint_file (tags_name id_ input_) tags_file;;
  text ← read_file tags_file;
  on_core (clift (tags ← parse_toml text; get_trace (ec_trace cfg) digest (Some (ec_sources cfg)) tags)).

(** [rmtree_if_exists(dir)] *)
Definition under (dir name : string) : bool := String.prefix (dir +:+ "/") name.
Definition rmtree (dir : string) (fs : files) : files :=
  mkFiles (filter (λ '(name, _), under dir name = false) (disk fs)) (debug_files fs).

(** [gem5_output.split('because')[-1].split('\n')[0] == ' simulate() limit reached'] *)
Definition limit_reached (gem5_output : string) : bool :=
  let reason := List.last (split "because" gem5_output) "" in
  (nth 0 (split newline reason) "" =? " simulate() limit reached")%string.

(** The run and the files it leaves; [on_bug] is what a run without an end does. *)
Definition save_outputs (input_ : Input) (id_ : Z) (gem5_output : string) : X K unit :=
  write_file (run_name "gem5out" id_ input_ ".out") gem5_output;;
  let copy file kind ext := copy_file (ec_output_location cfg +:+ file) (run_name kind id_ input_ ext) in
  copy "/log.out" "log" ".out";;
  copy "/config.ini" "config" ".ini";;
  if ec_save_stats cfg then copy "/stats.txt" "stats" ".txt" else mret tt.
End files.

(** ** The connection to gem5 *)

Context {W : Type} `{!Gem5 W, !Gem5Output W}.
(** The environment and the names of sockets. *)
Variable getenv : string → option string.
Variable socket_names : nat → string.

Record exec_core := mkCore {
  k_ipc : @ipc W;
  k_conf : conf;
  k_cmd : list string;
  k_code : string;
  k_priming : bool;
  k_bugged : bool;
  k_last_tick : Z;
  k_last_input : option Input;
  k_base_input : option Input;
  k_restarts : nat
}.
Definition gem5exec : Type := with_files exec_core.
Notation C := (C exec_core).
Notation X := (X exec_core).

Definition with_ipc (i : @ipc W) (k : exec_core) : exec_core :=
  mkCore i (k_conf k) (k_cmd k) (k_code k) (k_priming k) (k_bugged k) (k_last_tick k)
         (k_last_input k) (k_base_input k) (k_restarts k).
Definition on_ipc {A} (m : @P W A) : C A := λ k, '(a, i) ← m (k_ipc k); Ok (a, with_ipc i k).

Definition cleanup : X unit :=
  on_files (λ fs, Ok (if ec_debug cfg then rmtree (ec_checkpoint cfg) fs else fs)).

(** [open(f'{self.gem5_output_location}/log.out', 'w').close()] *)
Definition truncate_log (fs : files) : files :=
  if ec_output_exists cfg
  then mkFiles (<[ec_output_location cfg +:+ "/log.out" := EmptyString]> (disk fs)) (debug_files fs)
  else fs.

(** ** One input *)

(** [input_[:input_.data_size].tobytes()] *)
Definition input_bytes (input_ : Input) : list Z :=
  tobytes (mkInput (take (data_size (ec_regions cfg)) (in_words input_)) (in_seed input_)).

(** [exit(1)] in the handler of [Gem5Crash] *)
Definition crash_exits {A} (m : @P W A) : @P W A := λ s,
  match m s with Raise Gem5Crash => Raise SystemExit | r => r end.

Definition reset_logs : X unit :=
  if ec_persist_log cfg then mret tt
  else on_core (on_ipc (crash_exits reset_log));; on_files (λ fs, Ok (truncate_log fs)).

Definition run_on_gem5 (input_ : Input) : C string :=
  on_ipc (crash_exits (Ipc.trace_test_case (ec_ipc cfg) (input_bytes input_)
    (Z.of_nat (register_start (ec_regions cfg))) (ec_sources cfg))).

Definition ipc_trace_test_case (input_ : Input) (id_ : Z) : X unit :=
  reset_logs;;
  tags ← on_core (run_on_gem5 input_);
  write_file (tags_name id_ input_) tags.

Definition reset_marker : list Z := (λ a, Z.of_N (N_of_ascii a)) <$>
  String.list_ascii_of_string ("--- RESET ---" +:+ newline).

(** The lines up to the marker; at the end of the stream [readline] returns an empty
    line for ever. *)
Fixpoint until_reset (lines : list (list Z)) : option (list Z * list (list Z)) :=
  match lines with
  | [] => None
  | line :: lines =>
      if bool_decide (line = reset_marker) then Some ([], lines)
      else '(bytes_, rest) ← until_reset lines; Some (line ++ bytes_, rest)
  end.
Definition get_gem5_output : @P W string := λ s,
  if ec_show_output cfg then Ok (EmptyString, s)
  else
    assert_ (mem (active_process s) (processes s)) KeyError;;
    '(bytes_, rest) ← from_option OutOfFuel (until_reset (output (active_process s) (world s)));
    text ← decode bytes_;
    Ok (text, with_world (set_output (active_process s) rest (world s)) s).

Definition run_input (on_bug : exn) (input_ : Input) (id_ : Z) : X unit :=
  ipc_trace_test_case input_ id_;;
  gem5_output ← on_core (on_ipc get_gem5_output);
  if limit_reached gem5_output : bool then on_core (craise on_bug)
  else save_outputs input_ id_ gem5_output.

(** ** The operations of the executor *)

Definition load_test_case (code : string) (binary : list Z) : X unit :=
  on_core (λ k,
    on_ipc (Ipc.load_test_case binary)
      (mkCore (k_ipc k) (k_conf k) (k_cmd k) code (k_priming k) (k_bugged k) (k_last_tick k)
              (k_last_input k) (k_base_input k) (k_restarts k))).

(** [self.ipc.restart_gem5(self.get_cmd("", self.priming))] *)
Definition restart : C unit := λ k,
  '(cmd, c) ← get_cmd (k_conf k) getenv (k_cmd k) (tc_main_region_size (ec_trace cfg)) "" (k_priming k) false;
  '(_, i) ← restart_gem5 (ec_ipc cfg) (socket_names (k_restarts k)) cmd (k_ipc k);
  Ok (tt, mkCore i c (k_cmd k) (k_code k) (k_priming k) (k_bugged k) (k_last_tick k)
                 (k_last_input k) (k_base_input k) (S (k_restarts k))).

Definition check_code : C unit := λ k, ccheck (negb (k_code k =? "")%string) SystemExit k.

(** [self.base_input = self.last_input]; the attribute is first set at the end of a call. *)
Definition save_base_input (id_ : Z) : C unit := λ k,
  if 0 <? id_ then
    input_ ← from_option AttributeError (k_last_input k);
    Ok (tt, mkCore (k_ipc k) (k_conf k) (k_cmd k) (k_code k) (k_priming k) (k_bugged k) (k_last_tick k)
                   (k_last_input k) (Some input_) (k_restarts k))
  else Ok (tt, k).

(** [self.last_tick = int(tick); self.last_input = inputs[-1]] *)
Definition save_last_input (inputs : list Input) : C unit := λ k,
  input_ ← from_option IndexError (last inputs);
  Ok (tt, mkCore (k_ipc k) (k_conf k) (k_cmd k) (k_code k) (k_priming k) (k_bugged k) 0
                 (Some input_) (k_base_input k) (k_restarts k)).

Definition trace_input (id_ : Z) (input_ : Input) : X Z :=
  run_input SystemExit input_ id_;;
  cleanup;;
  exec_get_trace id_ input_.

Fixpoint trace_inputs (id_ : Z) (inputs : list Input) : X (list Z) :=
  match inputs with
  | [] => mret []
  | input_ :: inputs =>
      trace ← trace_input id_ input_;
      traces ← trace_inputs id_ inputs;
      mret (trace :: traces)
  end.

Definition save_program : X unit := λ s, write_file (debug_file "test_case.asm") (k_code (x_core s)) s.

Definition trace_test_case (inputs : list Input) (id_ : Z) : X (list Z) :=
  on_core restart;;
  on_core check_code;;
  on_core (ccheck (ec_dir_exists cfg) AssertionError);;
  on_core (save_base_input id_);;
  save_program;;
  traces ← trace_inputs id_ inputs;
  on_core (save_last_input inputs);;
  mret traces.

(** In this one the branch for a run without an end names variables it does not have. *)
Definition trace_priming (test_input : Input) (round : Z) : X Z :=
  on_core check_code;;
  run_input NameError test_input (round + 1);;
  trace ← exec_get_trace (round + 1) test_input;
  cleanup;;
  mret trace.

Definition set_priming (b : bool) : C unit := λ k,
  Ok (tt, mkCore (k_ipc k) (k_conf k) (k_cmd k) (k_code k) b (k_bugged k) (k_last_tick k)
                 (k_last_input k) (k_base_input k) (k_restarts k)).
Definition start_priming : X unit := on_core (set_priming true).
Definition stop_priming : X unit := on_core (set_priming false).

(** The directory is emptied in debug mode only. *)
Definition delete_debug_files : X unit :=
  on_files (λ fs, let fs := if ec_debug cfg then rmtree (ec_dir cfg) fs else fs in
                  Ok (mkFiles (disk fs) ∅)).

(** ** The same without any file *)

(** A run gives the tags gem5 sends for the input. *)
Definition spec_run (on_bug : exn) (input_ : Input) : C string :=
  (if ec_persist_log cfg then mret tt else on_ipc (crash_exits reset_log));;
  tags ← run_on_gem5 input_;
  gem5_output ← on_ipc get_gem5_output;
  if limit_reached gem5_output : bool then craise on_bug else mret tags.

(** They are formatted, parsed and hashed at once. *)
Definition spec_trace (tags : string) : C Z :=
  clift (t ← parse_toml (format_checkpoint tags); get_trace (ec_trace cfg) digest (Some (ec_sources cfg)) t).

Fixpoint spec_trace_inputs (inputs : list Input) : C (list Z) :=
  match inputs with
  | [] => mret []
  | input_ :: inputs =>
      tags ← spec_run SystemExit input_;
      trace ← spec_trace tags;
      traces ← spec_trace_inputs inputs;
      mret (trace :: traces)
  end.

Definition spec_trace_test_case (inputs : list Input) (id_ : Z) : C (list Z) :=
  restart;;
  check_code;;
  ccheck (ec_dir_exists cfg) AssertionError;;
  save_base_input id_;;
  traces ← spec_trace_inputs inputs;
  save_last_input inputs;;
  mret traces.

Definition spec_trace_priming (test_input : Input) : C Z :=
  check_code;;
  tags ← spec_run NameError test_input;
  spec_trace tags.
End executor.

(** A bind that succeeds. *)
Lemma X_bind_Ok {K A B} (m : X K A) (f : A → X K B) s r :
  (m ≫= f) s = Ok r → ∃ a s', m s = Ok (a, s') ∧ f a s' = Ok r.
Proof. unfold mbind, X_bind. unfold mbind, result_bind. destruct (m s) as [[a s']|]; [|done]. eauto. Qed.
