(* ===== verification/Gem5ExecFacts.v ===== *)
(** * The executor does what its specification says

    Every operation of the executor is compared with one that keeps no files: both
    compute the same and raise the same, whatever the files hold before, in memory
    or on disk.  The comparison is a relation closed under bind, so that the proof
    follows the text of the operations. *)

From S2P Require Import Prelude Input Util Text Config Cli Ipc IpcFacts DebugFiles CacheTrace Gem5Cmd Gem5Exec.

Open Scope Z_scope.

Section facts.
Context {W : Type} `{!Gem5 W, !Gem5Output W}.
Context (cfg : exec_conf) (parse_toml : string → result toml) (digest : list trace_item → Z)
  (getenv : string → option string) (socket_names : nat → string).
Notation state := (@gem5exec W).
Notation X := (X (@exec_core W)).
Notation C := (C (@exec_core W)).
Notation debug := (ec_debug cfg).

(** ** Agreement of two computations *)

(** Both do the same to the core and raise the same; [P] holds of the files before,
    [Q] of the results and the files after. *)
Definition agrees {A B} (P : files → Prop) (m : X A) (n : C B) (Q : A → B → files → Prop) : Prop :=
  ∀ k fs, P fs →
  match m (mkGem5Exec k fs) with
  | Ok (a, s) => ∃ b, n k = Ok (b, x_core s) ∧ Q a b (x_files s)
  | Raise e => n k = Raise e
  end.
(** The same with equal results. *)
Notation same P := (λ a b fs, a = b ∧ P fs).

Lemma agrees_bind {A B A' B'} P (m : X A) (n : C B) Q (f : A → X A') (g : B → C B') R :
  agrees P m n Q → (∀ a b, agrees (Q a b) (f a) (g b) R) → agrees P (m ≫= f) (n ≫= g) R.
Proof.
  intros Hm Hf k fs HP. specialize (Hm k fs HP).
  unfold mbind, X_bind, C_bind. unfold mbind, result_bind.
  destruct (m (mkGem5Exec k fs)) as [[a [k' fs']]|e]; [|by rewrite Hm].
  destruct Hm as (b & -> & HQ). by apply Hf.
Qed.

(** The bind of two computations with equal results. *)
Lemma agrees_step {A A' B'} P (m : X A) n Q (f : A → X A') (g : A → C B') R :
  agrees P m n (same Q) → (∀ a, agrees Q (f a) (g a) R) → agrees P (m ≫= f) (n ≫= g) R.
Proof.
  intros Hm Hf. apply (agrees_bind _ _ _ _ _ _ _ Hm).
  intros a b k fs [-> HQ]. by apply Hf.
Qed.

(** A step that only touches files agrees with nothing. *)
Lemma agrees_files {A B} P (m : X unit) (f : X A) (n : C B) Q R :
  agrees P m (mret tt) (same Q) → agrees Q f n R → agrees P (m;; f) n R.
Proof. intros Hm Hf. apply (agrees_step P m (mret tt) Q (λ _, f) (λ _, n) R Hm). by intros _. Qed.

Lemma agrees_ret {A B} P (a : A) (b : B) (Q : A → B → files → Prop) :
  (∀ fs, P fs → Q a b fs) → agrees P (mret a) (mret b) Q.
Proof. intros HQ k fs HP. exists b. split; [done|]. by apply HQ. Qed.

Lemma agrees_core {A} P (n : C A) : agrees P (on_core n) n (same P).
Proof.
  intros k fs HP. unfold on_core. cbn [x_core x_files]. unfold mbind, result_bind.
  destruct (n k) as [[a k']|e]; [by exists a|done].
Qed.

Lemma agrees_on_files (P Q : files → Prop) f :
  (∀ fs, P fs → ∃ fs', f fs = Ok fs' ∧ Q fs') → agrees P (on_files (K := @exec_core W) f) (mret tt) (same Q).
Proof.
  intros Hf k fs HP. unfold on_files. cbn [x_core x_files].
  destruct (Hf fs HP) as (fs' & -> & HQ). by exists tt.
Qed.

Lemma agrees_weaken {A B} (P P' : files → Prop) (m : X A) (n : C B) Q :
  (∀ fs, P fs → P' fs) → agrees P' m n Q → agrees P m n Q.
Proof. intros HP Hm k fs H. apply Hm. by apply HP. Qed.

Lemma agrees_assoc {A B D E} P (m : X A) (f : A → X B) (g : B → X D) (n : C E) R :
  agrees P (x ← m; f x ≫= g) n R → agrees P ((m ≫= f) ≫= g) n R.
Proof.
  intros H k fs HP. specialize (H k fs HP). revert H.
  unfold mbind, X_bind. unfold mbind, result_bind. by destruct (m _) as [[]|].
Qed.

Lemma agrees_spec_assoc {A B D E} P (m : X E) (n : C A) (f : A → C B) (g : B → C D) R :
  agrees P m ((n ≫= f) ≫= g) R → agrees P m (x ← n; f x ≫= g) R.
Proof.
  intros H k fs HP. specialize (H k fs HP). revert H.
  replace ((x ← n; f x ≫= g) k) with (((n ≫= f) ≫= g) k); [done|].
  unfold mbind, C_bind. unfold mbind, result_bind. by destruct (n k) as [[]|].
Qed.

Lemma agrees_spec_ret {A B} P (m : X A) (n : C B) R :
  agrees P m (x ← n; mret x) R → agrees P m n R.
Proof.
  intros H k fs HP. specialize (H k fs HP). revert H.
  replace ((x ← n; mret x) k) with (n k); [done|].
  unfold mbind, C_bind. unfold mbind, result_bind. by destruct (n k) as [[]|].
Qed.

Lemma C_bind_ret (n : C unit) k : (n;; mret tt) k = n k.
Proof. unfold mbind, C_bind. unfold mbind, result_bind. by destruct (n k) as [[[]]|]. Qed.

(** ** What the files must keep *)

(** The checkpoint directory, emptied after every run in debug mode, is not the one
    the debug files are in. *)
Definition apart : Prop := ∀ name, under (ec_checkpoint cfg) (debug_file cfg name) = false.
Notation good := (consistent debug).
(** [name] can be read and holds [text]. *)
Definition holds (name text : string) (fs : files) : Prop := good fs ∧ view fs !! name = Some text.

Lemma write_agrees P name text :
  (∀ fs, P fs → good fs) → agrees P (write_file cfg name text) (mret tt) (same (holds name text)).
Proof.
  intros HP. apply agrees_on_files. intros fs Hfs. eexists; split; [done|].
  destruct (write_view debug fs name text (HP fs Hfs)) as [Hv Hc]. split; [done|].
  rewrite Hv. apply lookup_insert_eq.
Qed.

Lemma write_other_agrees name text other t :
  other ≠ name → agrees (holds name text) (write_file cfg other t) (mret tt) (same (holds name text)).
Proof.
  intros Hne. apply agrees_on_files. intros fs [Hc Hv]. eexists; split; [done|].
  destruct (write_view debug fs other t Hc) as [Hv' Hc']. split; [done|].
  by rewrite Hv', lookup_insert_ne.
Qed.

Lemma copy_other_agrees name text source other :
  other ≠ name → agrees (holds name text) (copy_file cfg source other) (mret tt) (same (holds name text)).
Proof.
  intros Hne. apply agrees_on_files. intros fs [Hc Hv]. unfold copy_debug_file.
  rewrite read_view by done. destruct (view fs !! source) as [t|]; cbn [from_option].
  - eexists; split; [done|]. destruct (write_view debug fs other t Hc) as [Hv' Hc'].
    split; [done|]. by rewrite Hv', lookup_insert_ne.
  - by exists fs.
Qed.

Lemma rmtree_lookup dir fs name :
  under dir name = false → view (rmtree dir fs) !! name = view fs !! name.
Proof.
  intros Hu. unfold view, rmtree. cbn. rewrite !lookup_union. f_equal.
  destruct (disk fs !! name) as [t|] eqn:E.
  - by apply map_lookup_filter_Some.
  - apply map_lookup_filter_None. by left.
Qed.

Lemma cleanup_agrees name text :
  apart → agrees (holds (debug_file cfg name) text) (cleanup cfg) (mret tt) (same (holds (debug_file cfg name) text)).
Proof.
  intros Hap. apply agrees_on_files. intros fs [Hc Hv]. eexists; split; [done|].
  set (fs' := if debug then _ else fs).
  assert (debug_files fs' = debug_files fs ∧ view fs' !! debug_file cfg name = view fs !! debug_file cfg name)
    as [Hd Hl].
  { subst fs'. destruct debug; [|done]. split; [done|]. by apply rmtree_lookup, Hap. }
  split; [|by rewrite Hl]. intros Ht. rewrite Hd. by apply Hc.
Qed.

Lemma truncate_agrees :
  agrees good (on_files (K := @exec_core W) (λ fs, Ok (truncate_log cfg fs))) (mret tt) (same good).
Proof.
  apply agrees_on_files. intros fs Hc. eexists; split; [done|].
  intros Ht. unfold truncate_log. destruct (ec_output_exists cfg); by apply Hc.
Qed.

Lemma cleanup_keeps : agrees good (cleanup cfg) (mret tt) (same good).
Proof.
  apply agrees_on_files. intros fs Hc. eexists; split; [done|].
  intros Ht. destruct (ec_debug cfg); by apply Hc.
Qed.

Lemma save_program_agrees : agrees good (save_program cfg) (mret tt) (same good).
Proof.
  intros k fs Hc. exists tt. split_and!; [done|done|]. by apply write_view.
Qed.

Lemma read_holds_agrees {A B} name text (f : string → X A) (n : C B) R :
  agrees (holds name text) (f text) n R → agrees (holds name text) (t ← read_file cfg name; f t) n R.
Proof.
  intros Hf k fs [Hc Hv].
  replace ((t ← read_file cfg name; f t) (mkGem5Exec k fs)) with (f text (mkGem5Exec k fs)).
  - by apply Hf.
  - unfold mbind, X_bind, read_file. unfold mbind, result_bind. cbn [x_files].
    by rewrite (read_view debug fs name Hc), Hv.
Qed.

(** ** The files of a run have different names *)

Lemma debug_file_inj a b : debug_file cfg a = debug_file cfg b → a = b.
Proof.
  unfold debug_file. rewrite <- !str_app_assoc. intros H.
  by rewrite <- (str_drop_app (ec_dir cfg +:+ "/") a), H, str_drop_app.
Qed.

(** The other kinds of file differ from the tags in their first two characters. *)
Lemma run_name_other kind id_ i ext :
  kind ∈ ["gem5out"; "log"; "config"; "stats"] → run_name cfg kind id_ i ext ≠ tags_name cfg id_ i.
Proof.
  intros Hk H%debug_file_inj. rewrite !elem_of_cons, elem_of_nil in Hk.
  destruct_or! Hk; subst; try discriminate H; done.
Qed.

(** ** Operation by operation *)

Lemma reset_logs_agrees :
  agrees good (reset_logs cfg)
    (if ec_persist_log cfg then mret tt else on_ipc (crash_exits reset_log)) (same good).
Proof.
  unfold reset_logs. destruct (ec_persist_log cfg); [by apply agrees_ret|].
  intros k fs Hc.
  pose proof (agrees_step good (on_core (on_ipc (crash_exits reset_log))) _ good
    (λ _, on_files (λ fs, Ok (truncate_log cfg fs))) (λ _, mret tt) _ (agrees_core _ _)
    (λ _, truncate_agrees) k fs Hc) as H.
  by rewrite C_bind_ret in H.
Qed.

Lemma save_outputs_agrees i id_ out tags :
  agrees (holds (tags_name cfg id_ i) tags) (save_outputs cfg i id_ out) (mret tt)
    (same (holds (tags_name cfg id_ i) tags)).
Proof.
  unfold save_outputs.
  eapply agrees_files; [apply write_other_agrees, run_name_other; set_solver|].
  eapply agrees_files; [apply copy_other_agrees, run_name_other; set_solver|].
  eapply agrees_files; [apply copy_other_agrees, run_name_other; set_solver|].
  destruct (ec_save_stats cfg); [apply copy_other_agrees, run_name_other; set_solver|by apply agrees_ret].
Qed.

Lemma get_trace_agrees i id_ tags :
  agrees (holds (tags_name cfg id_ i) tags) (exec_get_trace cfg parse_toml digest id_ i)
    (spec_trace cfg parse_toml digest tags) (same good).
Proof.
  unfold exec_get_trace, format_checkpoint_file. cbv zeta.
  eapply agrees_files with (Q := holds (run_name cfg "cache_tags" id_ i ".toml") (format_checkpoint tags)).
  - apply read_holds_agrees. apply write_agrees. by intros fs [Hc _].
  - apply read_holds_agrees. eapply agrees_weaken; [|apply agrees_core]. by intros fs [Hc _].
Qed.

(** After a run its tags can be read. *)
Lemma run_input_agrees on_bug i id_ :
  agrees good (run_input cfg on_bug i id_) (spec_run cfg on_bug i)
    (λ _ tags, holds (tags_name cfg id_ i) tags).
Proof.
  unfold run_input, ipc_trace_test_case, spec_run. apply agrees_assoc.
  apply (agrees_step _ _ _ _ _ _ _ reset_logs_agrees). intros _. apply agrees_assoc.
  apply (agrees_step _ _ _ _ _ _ _ (agrees_core _ _)). intros tags.
  eapply agrees_files; [by apply write_agrees|].
  apply (agrees_step _ _ _ _ _ _ _ (agrees_core _ _)). intros out.
  destruct (limit_reached out).
  - by intros k fs _.
  - intros k fs H. pose proof (save_outputs_agrees i id_ out tags k fs H) as Hs.
    destruct (save_outputs _ _ _ _ _) as [[[] s]|e]; [|discriminate Hs].
    destruct Hs as ([] & E & _ & HQ). injection E as E. exists tags. by rewrite E.
Qed.

Hypothesis Hap : apart.

Lemma trace_input_agrees i id_ :
  agrees good (trace_input cfg parse_toml digest id_ i)
    (tags ← spec_run cfg SystemExit i; spec_trace cfg parse_toml digest tags) (same good).
Proof.
  unfold trace_input. apply (agrees_bind _ _ _ _ _ _ _ (run_input_agrees _ _ _)). intros _ tags.
  eapply agrees_files; [by apply cleanup_agrees|]. apply get_trace_agrees.
Qed.

Lemma trace_inputs_agrees inputs id_ :
  agrees good (trace_inputs cfg parse_toml digest id_ inputs)
    (spec_trace_inputs cfg parse_toml digest inputs) (same good).
Proof.
  induction inputs as [|i inputs IH]; cbn [trace_inputs spec_trace_inputs]; [by apply agrees_ret|].
  apply agrees_spec_assoc, (agrees_step _ _ _ _ _ _ _ (trace_input_agrees i id_)). intros t.
  apply (agrees_step _ _ _ _ _ _ _ IH). intros ts. by apply agrees_ret.
Qed.

Lemma spec_trace_inputs_length inputs k ts k' :
  spec_trace_inputs cfg parse_toml digest inputs k = Ok (ts, k') → length ts = length inputs.
Proof.
  revert k ts k'. induction inputs as [|i inputs IH]; intros k ts k'; [by intros [= <- <-]|].
  cbn [spec_trace_inputs]. unfold mbind, C_bind. unfold mbind, result_bind.
  destruct (spec_run cfg SystemExit i k) as [[tags k1]|]; [|done].
  destruct (spec_trace cfg parse_toml digest tags k1) as [[t k2]|]; [|done].
  destruct (spec_trace_inputs cfg parse_toml digest inputs k2) as [[ts' k3]|] eqn:E; [|done].
  intros [= <- <-]. cbn. by rewrite (IH _ _ _ E).
Qed.

Lemma trace_test_case_agrees inputs id_ :
  agrees good (trace_test_case cfg parse_toml digest getenv socket_names inputs id_)
    (spec_trace_test_case cfg parse_toml digest getenv socket_names inputs id_)
    (λ ts ts' fs, ts = ts' ∧ length ts = length inputs ∧ good fs).
Proof.
  unfold trace_test_case, spec_trace_test_case.
  do 4 (apply (agrees_step _ _ _ _ _ _ _ (agrees_core _ _)); intros _).
  eapply agrees_files; [by apply save_program_agrees|].
  apply agrees_bind with (Q := λ ts ts' fs, ts = ts' ∧ length ts = length inputs ∧ good fs).
  - intros k fs Hc. pose proof (trace_inputs_agrees inputs id_ k fs Hc) as H.
    destruct (trace_inputs _ _ _ _ _ _) as [[ts s]|e]; [|done].
    destruct H as (b & H & -> & Hg). exists b. split_and!; try done. by eapply spec_trace_inputs_length.
  - intros ts ts'. apply (agrees_step _ _ _ _ _ _ _ (agrees_core _ _)). intros _. by apply agrees_ret.
Qed.

Lemma trace_priming_agrees i round :
  agrees good (trace_priming cfg parse_toml digest i round) (spec_trace_priming cfg parse_toml digest i)
    (same good).
Proof.
  unfold trace_priming, spec_trace_priming.
  apply (agrees_step _ _ _ _ _ _ _ (agrees_core _ _)). intros _.
  apply (agrees_bind _ _ _ _ _ _ _ (run_input_agrees _ _ _)). intros _ tags.
  apply agrees_spec_ret, (agrees_step _ _ _ _ _ _ _ (get_trace_agrees _ _ _)). intros t.
  eapply agrees_files; [apply cleanup_keeps|]. by apply agrees_ret.
Qed.

(** C30: The files the executor keeps do not show: tracing the inputs of a test case, and
    a single input when priming, gives the traces of the tags gem5 sent for each input,
    in order, leaves the connection in the same state and raises the same as if
    nothing were written or read in between, whatever the debug files hold before and
    whether they are kept in memory or on disk, as long as the directory emptied after
    a run is not the one they are in. *)
Theorem trace_refines_spec k fs :
  consistent debug fs →
  (∀ inputs id_,
     match trace_test_case cfg parse_toml digest getenv socket_names inputs id_ (mkGem5Exec k fs) with
     | Ok (traces, s) =>
         spec_trace_test_case cfg parse_toml digest getenv socket_names inputs id_ k = Ok (traces, x_core s)
         ∧ length traces = length inputs ∧ consistent debug (x_files s)
     | Raise e => spec_trace_test_case cfg parse_toml digest getenv socket_names inputs id_ k = Raise e
     end)
  ∧ (∀ i round,
       match trace_priming cfg parse_toml digest i round (mkGem5Exec k fs) with
       | Ok (trace, s) =>
           spec_trace_priming cfg parse_toml digest i k = Ok (trace, x_core s)
           ∧ consistent debug (x_files s)
       | Raise e => spec_trace_priming cfg parse_toml digest i k = Raise e
       end).
Proof.
  intros Hc. split.
  - intros inputs id_. pose proof (trace_test_case_agrees inputs id_ k fs Hc) as H.
    destruct (trace_test_case _ _ _ _ _ _ _ _) as [[ts s]|e]; [|done].
    destruct H as (b & H & -> & Hl & Hg). done.
  - intros i round. pose proof (trace_priming_agrees i round k fs Hc) as H.
    destruct (trace_priming _ _ _ _ _ _) as [[t s]|e]; [|done].
    destruct H as (b & H & -> & Hg). done.
Qed.

(** Without inputs the call always raises: the last input is looked up at the end. *)
Lemma trace_no_inputs id_ s : ¬ ∃ r, trace_test_case cfg parse_toml digest getenv socket_names [] id_ s = Ok r.
Proof.
  intros [r H]. unfold trace_test_case in H.
  do 5 (match type of H with (?m ≫= _) ?x = _ => apply (X_bind_Ok m) in H as (? & ? & _ & H) end).
  cbn [trace_inputs] in H. discriminate H.
Qed.
End facts.

(** ** A run over the small gem5 *)

Module ExecDemo.
#[global] Instance toy_output : Gem5Output IpcDemo.toy := {
  output _ _ := [reset_marker];
  set_output _ _ w := w
}.
Definition config (in_debug : bool) : exec_conf :=
  mkExecConf in_debug false false true "debug/tc" true "/m5out" false "/checkpoint" ["data_cache"]
    (mkTraceConf true 4096 32768 8) IpcDemo.conf default_regions.
(** The answers of the small gem5 are the addresses alone. *)
Definition parse_toml (text : string) : result toml :=
  Ok (TTable [("system", TTable [("cpu", TTable [("dcache", TTable [("addresses", TStr text)])])])]).
Definition digest (trace : list trace_item) : Z :=
  foldr (λ item h, match item with TInt n => 31 * h + n | TData _ => h end) 7 trace.
Definition start (in_debug : bool) : exec_core :=
  mkCore IpcDemo.start CmdDemo.config CmdDemo.self_cmd "NOP" false false (-1) None None 0.
Definition inputs : list Input := [mkInput (replicate 8 1) 5; mkInput (replicate 8 2) 6].
Definition stale : files := mkFiles {["debug/tc/cache_tags_0_5" := "old"]} ∅.
End ExecDemo.

Lemma trace_refines_spec_witness :
  apart (ExecDemo.config false) ∧ consistent false ExecDemo.stale ∧
  match Gem5Exec.trace_test_case (ExecDemo.config false) ExecDemo.parse_toml ExecDemo.digest CmdDemo.getenv
          (λ _, "amulet") ExecDemo.inputs 0 (mkGem5Exec (ExecDemo.start false) ExecDemo.stale) with
  | Ok (traces, s) =>
      traces = [4722; 4722]
      ∧ spec_trace_test_case (ExecDemo.config false) ExecDemo.parse_toml ExecDemo.digest CmdDemo.getenv
          (λ _, "amulet") ExecDemo.inputs 0 (ExecDemo.start false) = Ok (traces, x_core s)
  | Raise _ => False
  end.
Proof.
  assert (Ha : apart (ExecDemo.config false)) by (intros name; reflexivity).
  assert (Hc : consistent false ExecDemo.stale) by done.
  split; [exact Ha|]. split; [exact Hc|].
  assert (Ht : (fst <$> Gem5Exec.trace_test_case (ExecDemo.config false) ExecDemo.parse_toml ExecDemo.digest
    CmdDemo.getenv (λ _, "amulet") ExecDemo.inputs 0 (mkGem5Exec (ExecDemo.start false) ExecDemo.stale))
    = Ok [4722; 4722]) by (vm_compute; reflexivity).
  destruct (trace_refines_spec (ExecDemo.config false) ExecDemo.parse_toml ExecDemo.digest CmdDemo.getenv
    (λ _, "amulet") Ha (ExecDemo.start false) ExecDemo.stale Hc) as [H _].
  specialize (H ExecDemo.inputs 0).
  destruct (Gem5Exec.trace_test_case _ _ _ _ _ _ _ _) as [[ts s]|e]; [|discriminate Ht].
  injection Ht as Ht. destruct H as (H & _ & _). split; [exact Ht|exact H].
Defined.
