(* ===== verification/Gem5Proc.v ===== *)
(** * The executor with a gem5 process per input

    [trace_test_case] and [trace_priming] of [src/src/executor.py] when
    [gem5_orchestration] is not "ipc": every input is assembled into a program of
    its own, gem5 is started on it, optionally from a checkpoint of the run before,
    and leaves its tags and checkpoints as files.  [profile] is off.  The processes
    are a class, whose programs may change the disk in any way; a directory exists
    when a file is in it.  The theorem says what the option to restore comes to. *)

From S2P Require Import Prelude Input Text Config Ipc IpcFacts ExecData DebugFiles CacheTrace Gem5Cmd Gem5Exec.

Open Scope Z_scope.

(** ** Processes and directories *)

(** [subprocess.run] of a shell line and of a command: the effect on the disk, what
    it prints, the return code. *)
Class Processes (V : Type) := {
  shell : string → V → gmap string string → V * gmap string string * Z;
  execute : list string → V → gmap string string → V * gmap string string * list Z * Z
}.

Fixpoint first_component (path : string) : string :=
  match path with
  | String c path => if Ascii.eqb c "/" then "" else String c (first_component path)
  | EmptyString => ""
  end.

(** The names in a directory, and those among them a pattern accepts, as paths. *)
Definition entries (dir : string) (disk : gmap string string) : list string :=
  remove_dups (omap (λ p : string * string,
    if under dir p.1 then Some (first_component (str_drop (String.length dir + 1) p.1)) else None)
    (map_to_list disk)).
Definition glob (dir : string) (pattern : string → bool) (disk : gmap string string) : list string :=
  (λ e, dir +:+ "/" +:+ e) <$> List.filter pattern (entries dir disk).

(** [cpt*], [tags*] and [cpt.[0-9]*] *)
Definition starts (p : string) : string → bool := String.prefix p.
Definition numbered_checkpoint (e : string) : bool :=
  starts "cpt." e &&
  match str_drop 4 e with String c _ => bool_decide (is_Some (digit_value c)) | EmptyString => false end.

(** [shutil.copyfile] on the disk. *)
Definition copyfile (source destination : string) (fs : files) : result files :=
  text ← from_option IOError (disk fs !! source);
  Ok (mkFiles (<[destination := text]> (disk fs)) (debug_files fs)).

(** ** State *)

(** The options of this mode; [pc_test_case_path] is the stem of a program's files,
    [pc_src] the directory of the source files. *)
Record proc_conf := mkProcConf {
  pc_restore : bool;
  pc_save_checkpoints : bool;
  pc_cross_checkpoints : bool;
  pc_STT : bool;
  pc_test_case_path : string;
  pc_src : string
}.

Section process_mode.
Context {V : Type} `{!Processes V}.
Variable cfg : exec_conf.
Variable pc : proc_conf.
Variable parse_toml : string → result toml.
Variable digest : list trace_item → Z.
Variable getenv : string → option string.

Record proc_core := mkProc {
  q_world : V;
  q_conf : conf;
  q_cmd : list string;
  q_code : string;
  q_last_tick : Z;
  q_last_input : option Input;
  q_base_input : option Input;
  q_ticks : list string
}.
Notation C := (C proc_core).
Notation X := (X proc_core).

Definition with_world (v : V) (k : proc_core) : proc_core :=
  mkProc v (q_conf k) (q_cmd k) (q_code k) (q_last_tick k) (q_last_input k) (q_base_input k) (q_ticks k).
Definition with_ticks (ticks : list string) (k : proc_core) : proc_core :=
  mkProc (q_world k) (q_conf k) (q_cmd k) (q_code k) (q_last_tick k) (q_last_input k) (q_base_input k) ticks.

(** ** Running programs *)

(** [run(line, shell=True, check=True)] *)
Definition run_shell (line : string) : X unit := λ s,
  let '(v, d, code) := shell line (q_world (x_core s)) (disk (x_files s)) in
  assert_ (code =? 0) CalledProcessError;;
  Ok (tt, mkGem5Exec (with_world v (x_core s)) (mkFiles d (debug_files (x_files s)))).

Definition assemble_and_link (infile tmpfile outfile : string) : X unit :=
  run_shell ("as -g -mmnemonic=intel -msyntax=intel " +:+ infile +:+ " -o " +:+ tmpfile);;
  run_shell ("objcopy --remove-section .note.gnu.property " +:+ tmpfile);;
  run_shell ("ld " +:+ tmpfile +:+ " -o " +:+ outfile +:+ "  -T" +:+ pc_src pc +:+ "/link1.ld").

(** [run(cmd, capture_output=True)]; [on_failure] is what a return code other than 0 does. *)
Definition run_gem5 (on_failure : C unit) (cmd : list string) : X string := λ s,
  let '(v, d, stdout, code) := execute cmd (q_world (x_core s)) (disk (x_files s)) in
  let s := mkGem5Exec (with_world v (x_core s)) (mkFiles d (debug_files (x_files s))) in
  '(_, s) ← (if code =? 0 then Ok (tt, s) else on_core on_failure s);
  text ← decode stdout;
  Ok (text, s).

(** [self.get_cmd(process, restore, priming)] *)
Definition command (process : string) (restore priming : bool) : C (list string) := λ k,
  '(cmd, c) ← get_cmd (q_conf k) getenv (q_cmd k) (tc_main_region_size (ec_trace cfg)) process restore priming;
  Ok (cmd, mkProc (q_world k) c (q_cmd k) (q_code k) (q_last_tick k) (q_last_input k) (q_base_input k) (q_ticks k)).

(** The steps that turn an input into a program. *)
Definition program_stem (id_ : Z) (input_ : Input) : string :=
  run_name cfg (pc_test_case_path pc) id_ input_ "".
Definition save_bare_program (id_ : Z) (input_ : Input) : X unit := λ s,
  write_file cfg (run_name cfg "test_case_rvzr" id_ input_ ".asm") (q_code (x_core s)) s.
Definition build_program (input_ : Input) : C string := λ k,
  '(init_registers, data_segment, init_flags) ← generate_test_data (ec_regions cfg) (pc_STT pc) input_;
  Ok (construct_program (q_code k) init_registers init_flags data_segment, k).
Definition write_disk (name text : string) : X unit :=
  on_files (λ fs, Ok (mkFiles (<[name := text]> (disk fs)) (debug_files fs))).
Definition assemble_program (stem program : string) : X string :=
  write_disk (stem +:+ ".asm") program;;
  assemble_and_link (stem +:+ ".asm") (stem +:+ ".o") (stem +:+ ".out");;
  mret (stem +:+ ".out").

(** ** Checkpoints, tags and cleaning up *)

Definition glob_checkpoint (pattern : string → bool) : X (list string) := λ s,
  Ok (glob (ec_checkpoint cfg) pattern (disk (x_files s)), s).

(** May the run of the input number [outer_counter] restore, and does it? *)
Definition may_restore (outer_counter : nat) (id_ last_tick : Z) : bool :=
  pc_restore pc && (negb (outer_counter =? 0)%nat || (0 <? id_) && pc_cross_checkpoints pc && (0 <? last_tick)).
Definition choose_restore (id_ : Z) (outer_counter : nat) : X bool := λ s,
  if may_restore outer_counter id_ (q_last_tick (x_core s)) then
    '(cpts, s) ← glob_checkpoint (starts "cpt") s;
    Ok ((length cpts =? 1)%nat, s)
  else Ok (false, s).

(** The checkpoint of the run, if it left one, and its tick. *)
Definition save_checkpoint (id_ : Z) (input_ : Input) (tick : string) : X string :=
  if pc_save_checkpoints pc then
    cpts ← glob_checkpoint numbered_checkpoint;
    match cpts with
    | [] => mret tick
    | [cpt] =>
        let tick := List.last (split "." cpt) "" in
        on_core (λ k, Ok (tt, with_ticks (q_ticks k ++ [tick]) k));;
        on_files (copy_debug_file (ec_debug cfg) (cpt +:+ "/m5.cpt") (run_name cfg "checkpoint" id_ input_ "") true);;
        mret tick
    | _ => on_core (craise AssertionError)
    end
  else mret tick.

(** The only tags directory of a run. *)
Definition the_tags : X string :=
  tags ← glob_checkpoint (starts "tags");
  match tags with [t] => mret t | _ => on_core (craise AssertionError) end.
Definition save_tags (tags : string) (id_ : Z) (input_ : Input) : X unit :=
  on_files (copy_debug_file (ec_debug cfg) (tags +:+ "/m5.tag") (tags_name cfg id_ input_) true);;
  on_files (λ fs, Ok (rmtree tags fs)).

(** [cleanup]: in this mode both directories are removed, the second made again. *)
Definition cleanup_process : X unit :=
  on_files (λ fs, Ok (rmtree (ec_checkpoint cfg) (rmtree (ec_output_location cfg) fs))).

(** ** One input *)

Definition run_process_input (restore : bool) (id_ : Z) (input_ : Input) (tick : string) : X (Z * string) :=
  save_bare_program id_ input_;;
  program ← on_core (build_program input_);
  process ← assemble_program (program_stem id_ input_) program;
  cmd ← on_core (command process restore false);
  gem5_output ← run_gem5 (craise SystemExit) cmd;
  if limit_reached gem5_output : bool then on_core (craise SystemExit)
  else
    tick ← save_checkpoint id_ input_ tick;
    tags ← the_tags;
    save_tags tags id_ input_;;
    save_outputs cfg input_ id_ gem5_output;;
    cleanup_process;;
    trace ← exec_get_trace cfg parse_toml digest id_ input_;
    mret (trace, tick).

(** The loop over the inputs, from the input number [n]; [choose] decides which run
    restores. *)
Fixpoint process_inputs (choose : nat → X bool) (id_ : Z) (n : nat) (tick : string) (inputs : list Input)
    : X (list Z * string) :=
  match inputs with
  | [] => mret ([], tick)
  | input_ :: inputs =>
      restore ← choose n;
      r ← run_process_input restore id_ input_ tick;
      rest ← process_inputs choose id_ (S n) r.2 inputs;
      mret (r.1 :: rest.1, rest.2)
  end.

(** ** A call *)

Definition check_process_code : C unit := λ k, ccheck (negb (q_code k =? "")%string) SystemExit k.

(** The checkpoint of the previous round, put where gem5 looks for it; the
    [rm -rf] of a pattern before it is not expanded by a shell and removes nothing. *)
Definition previous_checkpoint (id_ : Z) : X unit := λ s,
  if 0 <? id_ then
    '(_, s) ← (if pc_cross_checkpoints pc && (0 <? q_last_tick (x_core s)) then
      last_input ← from_option AttributeError (q_last_input (x_core s));
      let saved := run_name cfg "checkpoint" (id_ - 1) last_input "" in
      let used := ec_checkpoint cfg +:+ "/cpt." +:+ str (q_last_tick (x_core s)) +:+ "/m5.cpt" in
      (on_files (copyfile saved used);; on_files (copyfile used saved)) s
     else Ok (tt, s));
    last_input ← from_option AttributeError (q_last_input (x_core s));
    let k := x_core s in
    Ok (tt, mkGem5Exec (mkProc (q_world k) (q_conf k) (q_cmd k) (q_code k) (q_last_tick k) (q_last_input k)
                          (Some last_input) (q_ticks k)) (x_files s))
  else Ok (tt, s).

(** [set_checkpoint]: the only checkpoint left is the one to start from, the last of the
    previous round for the first input of a round. *)
Definition set_checkpoint (id_ : Z) (base_input : Input) (head_input : bool) (input_id : Z) : X unit :=
  cpts ← glob_checkpoint (starts "cpt");
  on_files (λ fs, Ok (foldr rmtree fs cpts));;
  let start_from (saved tick : string) : X unit :=
    on_files (copyfile saved (ec_checkpoint cfg +:+ "/cpt." +:+ tick +:+ "/m5.cpt")) in
  if head_input && (id_ =? 0) then mret tt
  else if head_input then
    k ← on_core (λ k, Ok (k, k));
    base ← on_core (clift (from_option AttributeError (q_base_input k)));
    start_from (run_name cfg "checkpoint" (id_ - 1) base "") (str (q_last_tick k))
  else
    k ← on_core (λ k, Ok (k, k));
    tick ← on_core (clift (py_index (q_ticks k) input_id));
    start_from (run_name cfg "checkpoint" id_ base_input "") tick.

(** [self.last_tick = int(tick); self.last_input = inputs[-1]] *)
Definition save_last (tick : string) (inputs : list Input) : C unit := λ k,
  t ← py_int tick;
  input_ ← from_option IndexError (last inputs);
  Ok (tt, mkProc (q_world k) (q_conf k) (q_cmd k) (q_code k) t (Some input_) (q_base_input k) (q_ticks k)).

Definition process_trace_with (choose : nat → X bool) (inputs : list Input) (id_ : Z) : X (list Z) :=
  on_core check_process_code;;
  on_core (λ k, Ok (tt, with_ticks [] k));;
  on_core (ccheck (ec_dir_exists cfg) AssertionError);;
  previous_checkpoint id_;;
  r ← process_inputs choose id_ 0 "0" inputs;
  on_core (save_last r.2 inputs);;
  mret r.1.

Definition process_trace_test_case (inputs : list Input) (id_ : Z) : X (list Z) :=
  process_trace_with (choose_restore id_) inputs id_.

(** [trace_priming]: whether it restores does not depend on the checkpoints there
    are; a failure of gem5 is only printed; the branch for a run that hit the
    limit names variables the method does not have. *)
Definition print_tags (tags : string) : X unit := λ s,
  text ← from_option IOError (disk (x_files s) !! (tags +:+ "/m5.tag"));
  assert_ (8 <=? length (toml_lines text))%nat IndexError;;
  Ok (tt, s).

Definition process_trace_priming (test_input : Input) (round : Z) (head_input : bool) : X Z :=
  on_core check_process_code;;
  program ← on_core (build_program test_input);
  save_bare_program (round + 1) test_input;;
  process ← assemble_program (program_stem round test_input) program;
  let restore := negb head_input || negb (round =? 0) && pc_cross_checkpoints pc in
  cmd ← on_core (command process restore true);
  gem5_output ← run_gem5 (mret tt) cmd;
  if limit_reached gem5_output : bool then on_core (craise NameError)
  else
    save_outputs cfg test_input (round + 1) gem5_output;;
    tags ← the_tags;
    print_tags tags;;
    save_tags tags (round + 1) test_input;;
    trace ← exec_get_trace cfg parse_toml digest (round + 1) test_input;
    cleanup_process;;
    mret trace.

(** ** What the option to restore comes to *)

(** No file is in the directory. *)
Definition empty_dir (dir : string) (d : gmap string string) : Prop :=
  ∀ name text, d !! name = Some text → under dir name = false.

Lemma glob_empty dir pattern d : empty_dir dir d → glob dir pattern d = [].
Proof.
  intros H. unfold glob, entries.
  assert (∀ p, p ∈ map_to_list d → under dir p.1 = false) as Hl
    by (intros [name text] Hin%elem_of_map_to_list; by eapply H).
  enough (omap (λ p : string * string, if under dir p.1
    then Some (first_component (str_drop (String.length dir + 1) p.1)) else None) (map_to_list d) = [])
    as -> by done.
  induction (map_to_list d) as [|p l IH]; [done|]. cbn. rewrite Hl by (by left).
  apply IH. intros q Hq. apply Hl. by right.
Qed.

Lemma rmtree_empty dir fs : empty_dir dir (disk (rmtree dir fs)).
Proof. intros name text [_ H]%map_lookup_filter_Some. exact H. Qed.

(** The debug files are not in the checkpoint directory. *)
Definition checkpoints_apart : Prop := ∀ name, under (ec_checkpoint cfg) (debug_file cfg name) = false.

Notation no_checkpoints s := (empty_dir (ec_checkpoint cfg) (disk (x_files s))).

Lemma write_file_no_checkpoints name text (s s' : with_files proc_core) u :
  checkpoints_apart → no_checkpoints s →
  write_file cfg (debug_file cfg name) text s = Ok (u, s') → no_checkpoints s'.
Proof.
  intros Ha Hs. unfold write_file, on_files. intros [= <- <-]. cbn. unfold write_debug_file.
  destruct (ec_debug cfg); [|done]. cbn. intros n t [[<- _]|[_ H]]%lookup_insert_Some; [apply Ha|by eapply Hs].
Qed.

Lemma on_core_files {A} (m : C A) s a s' : on_core m s = Ok (a, s') → x_files s' = x_files s.
Proof. unfold on_core. intros H. by apply bind_Ok in H as ([b k] & _ & [= _ <-]). Qed.

Lemma read_file_state name (s : with_files proc_core) a s' : read_file cfg (K := proc_core) name s = Ok (a, s') → s' = s.
Proof. unfold read_file. intros H. by apply bind_Ok in H as (t & _ & [= _ <-]). Qed.

Lemma get_trace_no_checkpoints id_ input_ (s : with_files proc_core) t s' :
  checkpoints_apart → no_checkpoints s →
  exec_get_trace cfg parse_toml digest id_ input_ s = Ok (t, s') → no_checkpoints s'.
Proof.
  intros Ha Hs H. unfold exec_get_trace, format_checkpoint_file in H.
  apply X_bind_Ok in H as (u1 & s1 & H1 & H). apply X_bind_Ok in H1 as (x & s0 & H0 & H1).
  apply read_file_state in H0 as ->. eapply (write_file_no_checkpoints _ _ s) in H1; [|done..].
  apply X_bind_Ok in H as (y & s2 & H2 & H). apply read_file_state in H2 as ->.
  apply on_core_files in H. by rewrite H.
Qed.

(** A run leaves the checkpoint directory empty. *)
Lemma run_leaves_no_checkpoints restore id_ input_ tick (s : with_files proc_core) r s' :
  checkpoints_apart → run_process_input restore id_ input_ tick s = Ok (r, s') → no_checkpoints s'.
Proof.
  intros Ha H. unfold run_process_input in H.
  do 5 (apply X_bind_Ok in H as (? & ? & _ & H)).
  destruct (limit_reached _); [discriminate H|].
  do 4 (apply X_bind_Ok in H as (? & ? & _ & H)).
  apply X_bind_Ok in H as (u & s1 & Hc & H). apply X_bind_Ok in H as (t & s2 & Ht & H).
  injection H as _ <-. eapply get_trace_no_checkpoints; [done| |exact Ht].
  injection Hc as _ <-. apply rmtree_empty.
Qed.

(** Restoring where the first run of a call does, and nowhere else. *)
Definition first_only (id_ : Z) (n : nat) : X bool :=
  if (n =? 0)%nat then choose_restore id_ 0 else mret false.

Lemma X_bind_agree {A B} (m m' : X A) (f g : A → X B) s :
  m s = m' s → (∀ a s', m s = Ok (a, s') → f a s' = g a s') → (m ≫= f) s = (m' ≫= g) s.
Proof.
  intros Hm H. unfold mbind, X_bind. unfold mbind, result_bind. rewrite <- Hm.
  destruct (m s) as [[a s']|]; [|done]. by apply H.
Qed.

Lemma process_inputs_choose choose id_ inputs n tick (s : with_files proc_core) :
  checkpoints_apart →
  (∀ s, choose 0%nat s = choose_restore id_ 0 s) → (∀ n s, choose (S n) s = Ok (false, s)) →
  n = 0%nat ∨ no_checkpoints s →
  process_inputs (choose_restore id_) id_ n tick inputs s = process_inputs choose id_ n tick inputs s.
Proof.
  intros Ha H0 HS. revert n tick s. induction inputs as [|i inputs IH]; intros n tick s Hn; [done|].
  cbn [process_inputs].
  assert (choose_restore id_ n s = choose n s) as Hc.
  { destruct n as [|n]; [by rewrite H0|]. destruct Hn as [|Hs]; [done|]. rewrite HS.
    unfold choose_restore, glob_checkpoint. destruct (may_restore _ _ _); [|done].
    by rewrite glob_empty. }
  apply X_bind_agree; [exact Hc|]. intros restore s1 _.
  apply X_bind_agree; [done|]. intros r s2 Hr. apply run_leaves_no_checkpoints in Hr; [|done].
  apply X_bind_agree; [|done]. apply IH. by right.
Qed.
End process_mode.

(** Carrying a checkpoint over needs the debug mode: it is looked for on the disk, and
    outside that mode it was kept in memory. *)
Lemma carried_checkpoint_missing {V} `{!Processes V} cfg pc id_ i (s : with_files (@proc_core V)) :
  0 < id_ → pc_cross_checkpoints pc = true → 0 < q_last_tick (x_core s) → q_last_input (x_core s) = Some i →
  disk (x_files s) !! run_name cfg "checkpoint" (id_ - 1) i "" = None →
  previous_checkpoint cfg pc id_ s = Raise IOError.
Proof.
  intros Hid Hc Ht Hi Hd. unfold previous_checkpoint. rewrite (proj2 (Z.ltb_lt _ _) Hid), Hc.
  rewrite (proj2 (Z.ltb_lt _ _) Ht), Hi. cbn [andb from_option mbind result_bind].
  match goal with |- (_ ← (?m ≫= _) _; _) = _ => assert (m s = Raise IOError) as Hm end.
  { unfold on_files, copyfile. by rewrite Hd. }
  unfold mbind, X_bind. unfold mbind, result_bind. by rewrite Hm.
Qed.

(** C31: restoring does not happen.  With a process per input, the runs of a call behave
    as if only the first of them looked for a checkpoint to restore, whatever the
    option [gem5_restore] says and whatever checkpoints the runs save: each run ends by
    emptying the directory the next one looks in.  Without checkpoints carried over
    from the previous round, no run of the call restores and every input starts
    from a fresh simulation. *)
Theorem process_mode_never_restores {V} `{!Processes V} cfg pc parse_toml digest getenv inputs id_
    (s : with_files (@proc_core V)) :
  checkpoints_apart cfg →
  process_trace_test_case cfg pc parse_toml digest getenv inputs id_ s =
    process_trace_with cfg pc parse_toml digest getenv (first_only cfg pc id_) inputs id_ s
  ∧ (pc_cross_checkpoints pc = false ∨ id_ ≤ 0 →
     process_trace_test_case cfg pc parse_toml digest getenv inputs id_ s =
     process_trace_with cfg pc parse_toml digest getenv (λ _, mret false) inputs id_ s).
Proof.
  intros Ha. assert (∀ choose : nat → X (@proc_core V) bool,
    (∀ s, process_inputs cfg pc parse_toml digest getenv (choose_restore cfg pc id_) id_ 0 "0" inputs s =
          process_inputs cfg pc parse_toml digest getenv choose id_ 0 "0" inputs s) →
    process_trace_test_case cfg pc parse_toml digest getenv inputs id_ s =
    process_trace_with cfg pc parse_toml digest getenv choose inputs id_ s) as Hcall.
  { intros choose Hall. unfold process_trace_test_case, process_trace_with.
    do 4 (apply X_bind_agree; [done|]; intros [] ? _). by apply X_bind_agree. }
  split; [|intros Hno]; apply Hcall; intros s'; (apply process_inputs_choose; [done| |done|by left]);
    [done|].
  intros s1. unfold choose_restore, may_restore. cbn [negb Nat.eqb orb].
  destruct Hno as [->|Hid]; [by rewrite !andb_false_r|].
  rewrite (proj2 (Z.ltb_ge 0 id_)) by lia. by rewrite andb_false_r.
Qed.

(** ** Two inputs: every run leaves a checkpoint and its tags *)

Module ProcDemo.
(** What gem5 leaves behind; the shell lines succeed and do nothing. *)
#[global] Instance toy_processes : Processes (list (list string)) := {
  shell _ v d := (v, d, 0);
  execute cmd v d :=
    (cmd :: v, <["/checkpoint/cpt.7/m5.cpt" := "state"]> (<["/checkpoint/tags.7/m5.tag" := "addresses=64"]> d),
     [], 0)
}.
Definition config : exec_conf :=
  mkExecConf false false false true "debug/tc" true "/m5out" false "/checkpoint" ["data_cache"]
    (mkTraceConf false 4096 32768 8) IpcDemo.conf (mkRegions 64 64 64).
Definition options : proc_conf := mkProcConf true true true false "prog" "src".
Definition parse_toml (text : string) : result toml :=
  Ok (TTable [("system", TTable [("cpu", TTable [("dcache", TTable [("addresses", TStr "64")])])])]).
Definition digest (trace : list trace_item) : Z :=
  foldr (λ item h, match item with TInt n => 31 * h + n | TData _ => h end) 7 trace.
Definition conf : Config.conf :=
  <["gem5_orchestration" := VStr "process"]> (<["debug" := VBool false]> CmdDemo.config).
Definition start : with_files (@proc_core (list (list string))) :=
  mkGem5Exec (mkProc [] conf CmdDemo.self_cmd "NOP" (-1) None None []) (mkFiles ∅ ∅).
Definition inputs : list Input := [mkInput (replicate 24 1) 5; mkInput (replicate 24 2) 6].
Definition run : result (list Z * with_files (@proc_core (list (list string)))) :=
  process_trace_test_case config options parse_toml digest (λ _, None) inputs 0 start.
Definition restoring (cmd : list string) : bool := mem "-r 1" cmd.
End ProcDemo.

Lemma process_mode_never_restores_witness :
  (r ← ProcDemo.run; Ok (r.1, map ProcDemo.restoring (q_world (x_core r.2)), q_ticks (x_core r.2)))
    = Ok ([281; 281], [false; false], ["7"; "7"])
  ∧ process_trace_test_case ProcDemo.config ProcDemo.options ProcDemo.parse_toml ProcDemo.digest (λ _, None)
      ProcDemo.inputs 0 ProcDemo.start =
    process_trace_with ProcDemo.config ProcDemo.options ProcDemo.parse_toml ProcDemo.digest (λ _, None)
      (λ _, mret false) ProcDemo.inputs 0 ProcDemo.start.
Proof.
  split; [vm_compute; reflexivity|].
  destruct (process_mode_never_restores ProcDemo.config ProcDemo.options ProcDemo.parse_toml ProcDemo.digest
    (λ _, None) ProcDemo.inputs 0 ProcDemo.start) as [_ H]; [by intros name|].
  apply H. by right.
Defined.
