(* ===== verification/Patterns.v ===== *)
(** * Regular expressions of the log readers

    Each expression is a list of pieces.  In the expressions of the program the character
    after a run of digits or spaces is never of the same class, so taking the longest
    run is what the expression engine ends up with. *)

From S2P Require Import Prelude Text.

Inductive piece :=
  | PLit (s : string)          (* a literal *)
  | PAny                       (* any character but a newline *)
  | PDec                       (* [([0-9]+)] *)
  | PHex                       (* [([0-9a-f]+)] *)
  | PAddr                      (* [(0x[0-9a-f]+)] *)
  | PSpaces                    (* [\s*] *)
  | PKind.                     (* [(Load|Store)] *)

Definition is_dec (c : ascii) : bool := bool_decide (is_Some (digit_value c)).
Definition is_hex (c : ascii) : bool :=
  is_dec c || ((97 <=? N_of_ascii c) && (N_of_ascii c <=? 102))%N.

(** A match at the start of the text: its groups, and what follows it. *)
Fixpoint match_pieces (ps : list piece) (s : string) : option (list string * string) :=
  match ps with
  | [] => Some ([], s)
  | PLit l :: ps => s ← match_lit l s; match_pieces ps s
  | PAny :: ps =>
      match s with
      | String c s => if Ascii.eqb c "010" then None else match_pieces ps s
      | EmptyString => None
      end
  | PSpaces :: ps => match_pieces ps (span is_space s).2
  | PDec :: ps => '(g, s) ← match_run is_dec s; '(gs, s) ← match_pieces ps s; Some (g :: gs, s)
  | PHex :: ps => '(g, s) ← match_run is_hex s; '(gs, s) ← match_pieces ps s; Some (g :: gs, s)
  | PAddr :: ps =>
      s ← match_lit "0x" s; '(g, s) ← match_run is_hex s; '(gs, s) ← match_pieces ps s;
      Some (("0x" +:+ g) :: gs, s)
  | PKind :: ps =>
      let kind k := s ← match_lit k s; '(gs, s) ← match_pieces ps s; Some (k :: gs, s) in
      match kind "Load" with Some r => Some r | None => kind "Store" end
  end.

(** [.*] takes as much of the line as the rest of the pattern allows. *)
Fixpoint match_last (ps : list piece) (s : string) : option (list string) :=
  match s with
  | String _ s' =>
      match match_last ps s' with Some gs => Some gs | None => fst <$> match_pieces ps s end
  | EmptyString => fst <$> match_pieces ps s
  end.

(** Anywhere in the text, one match after the other; every step takes a character. *)
Fixpoint find_all_fuel (fuel : nat) (ps : list piece) (s : string) : list (list string) :=
  match fuel with
  | O => []
  | S fuel =>
      match match_pieces ps s, s with
      | Some (gs, rest), _ => gs :: find_all_fuel fuel ps rest
      | None, String _ s => find_all_fuel fuel ps s
      | None, EmptyString => []
      end
  end.
Definition find_all (ps : list piece) (s : string) : list (list string) :=
  find_all_fuel (S (String.length s)) ps s.

(** ** The numbers a pattern finds *)

Lemma span_run p s : str_forall p (span p s).1 = true.
Proof.
  induction s as [|c s IH]; [done|]. cbn [span]. destruct (p c) eqn:Hc; [|done].
  destruct (span p s) as [a b]. cbn in *. by rewrite Hc.
Qed.
Lemma match_run_spec p s run rest : match_run p s = Some (run, rest) → run ≠ "" ∧ str_forall p run = true.
Proof.
  unfold match_run. pose proof (span_run p s) as H. destruct (span p s) as [a b].
  destruct (String.eqb_spec a ""); [done|]. intros [= <- <-]. done.
Qed.

Lemma int_digits_ok s acc start : str_forall is_dec s = true → (start = true → s ≠ "") →
  ∃ z, int_digits acc start s = Some z.
Proof.
  revert acc start. induction s as [|c s IH]; intros acc start Hs Hne.
  - destruct start; [by destruct (Hne eq_refl)|by eexists].
  - apply andb_true_iff in Hs as [[d Hd]%bool_decide_eq_true Hs]. cbn. rewrite Hd. by apply IH.
Qed.

(** A digit is not a space and not a sign. *)
Lemma dec_plain c : is_dec c = true → is_space c = false ∧ c ≠ "+"%char ∧ c ≠ "-"%char.
Proof. by destruct c as [[] [] [] [] [] [] [] []]; vm_compute. Qed.

Lemma py_int_digits s : s ≠ "" → str_forall is_dec s = true → ∃ z, py_int s = Ok z.
Proof.
  intros Hne Hs. unfold py_int. rewrite strip_id.
  - destruct s as [|c s]; [done|]. pose proof Hs as [Hc _]%andb_true_iff.
    destruct (dec_plain c Hc) as (_ & Hp & Hm).
    destruct (int_digits_ok (String c s) 0 true Hs) as [z Hz]; [done|].
    exists z. destruct c as [[] [] [] [] [] [] [] []]; by rewrite ?Hz.
  - clear Hne. induction s as [|c s IH]; [done|]. apply andb_true_iff in Hs as [Hc Hs]. cbn.
    destruct (dec_plain c Hc) as (-> & _ & _). by apply IH.
Qed.

(** The groups of a pattern that ends with a number. *)
Definition number_groups (gs : list string) : Prop := ∃ g, gs = [g] ∧ g ≠ "" ∧ str_forall is_dec g = true.

Lemma find_all_ok (P : list string → Prop) ps s :
  (∀ s gs rest, match_pieces ps s = Some (gs, rest) → P gs) → Forall P (find_all ps s).
Proof.
  intros HP. unfold find_all. generalize (S (String.length s)). intros fuel. revert s.
  induction fuel as [|fuel IH]; intros s; [constructor|]. cbn.
  destruct (match_pieces ps s) as [[gs rest]|] eqn:E; [constructor; [by eapply HP|apply IH]|].
  destruct s; [constructor|apply IH].
Qed.
Lemma match_dec_groups s gs rest : match_pieces [PDec] s = Some (gs, rest) → number_groups gs.
Proof.
  cbn. intros H. destruct (match_run is_dec s) as [[g r]|] eqn:E; [|done].
  injection H as <- <-. apply match_run_spec in E as [? ?]. by exists g.
Qed.
