(* ===== verification/GenExternal.v ===== *)
(** * Test cases from outside

    [src/src/generator_llvm.py] and [src/src/generator_const.py]: a test case that
    llvm-stress draws and LLVM compiles, accepted after a number of checks, and a test
    case copied from a file.  The programs that are run, the assembler and the
    disassembler libraries are parameters; a file is the string of its bytes. *)

From S2P Require Import Prelude Isa Text Patterns Passes.

Open Scope Z_scope.

(** What the code asks of an instruction that Capstone decoded. *)
Record decoded := mkDecoded { d_ret : bool; d_jmp : bool; d_jump_group : bool }.

(** Programs: the arguments, the world and the files; a return code and the error output. *)
Class Tools (W : Type) := {
  execute : list string → W → gmap string string → W * gmap string string * Z * string;
  sh : string → W → gmap string string → W * gmap string string * Z
}.

Section llvm.
Context {W : Type} `{!Tools W}.
(** [Ks.asm], [Cs.disasm], the addresses iced finds, and [random.randint(0, 2 ** 32 - 1)]. *)
Context (ks_asm : string → string) (cs_disasm : string → list decoded).
Context (iced_addresses : string → list Z) (randint : nat → Z).
Context (input_main_region_size : Z) (ptex_mode : string).

Record gen_state := mkGenState { g_world : W; g_files : gmap string string; g_draws : nat }.
Definition G (A : Type) : Type := gen_state → result (A * gen_state).
#[export] Instance G_ret : MRet G := λ A a s, Ok (a, s).
#[export] Instance G_bind : MBind G := λ A B f m s, '(a, s) ← m s; f a s.

Definition glift {A} (r : result A) : G A := λ s, a ← r; Ok (a, s).

(** ** Running programs and files *)

Definition run_program (args : list string) : G (Z * string) := λ s,
  let '(w, fs, code, err) := execute args (g_world s) (g_files s) in
  Ok ((code, err), mkGenState w fs (g_draws s)).
Definition run_checked (args : list string) : G unit :=
  r ← run_program args : G (Z * string);
  glift (assert_ (r.1 =? 0) CalledProcessError).
Definition sh_checked (line : string) : G unit := λ s,
  let '(w, fs, code) := sh line (g_world s) (g_files s) in
  assert_ (code =? 0) CalledProcessError;; Ok (tt, mkGenState w fs (g_draws s)).
Definition read_file (name : string) : G string := λ s,
  text ← from_option IOError (g_files s !! name); Ok (text, s).
Definition write_file (name text : string) : G unit := λ s,
  Ok (tt, mkGenState (g_world s) (<[name := text]> (g_files s)) (g_draws s)).
Definition move_file (source destination : string) : G unit := λ s,
  text ← from_option IOError (g_files s !! source);
  Ok (tt, mkGenState (g_world s) (<[destination := text]> (delete source (g_files s))) (g_draws s)).
Definition next_seed : G Z := λ s, Ok (randint (g_draws s), mkGenState (g_world s) (g_files s) (S (g_draws s))).

(** ** [compile_llc] *)

Definition llvm_dir : string := "../llvm/build/bin".

(** The first expression, [\s*], matches at the start of any line; the parentheses of the
    second are a group and not characters. *)
Definition sse_pieces : list piece :=
  [PLit "error: <unknown>:0:0: in function autogen_SD"; PDec;
   PLit " void ptr, ptr, ptr, i32, i64, i8: SSE register return with SSE disabled"].
Definition check_line (line : string) : bool :=
  if match_pieces [PSpaces] line then true else if match_pieces sse_pieces line then true else false.
Definition compile_llc (ll_file obj_file : string) : G bool :=
  r ← run_program [llvm_dir +:+ "/llc"; "--x86-ptex=" +:+ ptex_mode; ll_file; "-o"; obj_file; "--filetype=obj";
                   "-mattr=-sse,-sse2,-ssse3,-sse4.1,-sse4.2"];
  if r.1 =? 0 then mret true
  else if forallb check_line (split newline r.2) then mret false
  else glift (Raise AttributeError).

(** ** [patch_bin] *)

Definition prologue : list string :=
  ["mov rdi, r14"; "mov rsi, " +:+ str (Z.land (input_main_region_size - 1) (Z.lnot 7)); "mov rbx, 0";
   "lea rsp, [rdi+rsi]"; ".byte 0x36; mov rdx, rdx"; ".byte 0x36; mov rcx, rcx"]
  ++ map (λ reg, "mov " +:+ reg +:+ ", 0") ["r8"; "r9"; "r10"; "r11"; "r12"; "r13"; "r14"; "r15"; "rbp"].

Definition ret_byte : ascii := "195".

(** The code to store, or nothing when the program is refused. *)
Definition patch (compiled : string) : result (option string) :=
  let code := ks_asm (str_join "; " prologue) +:+ compiled in
  let insns := cs_disasm code in
  final ← from_option IndexError (last insns);
  if negb (d_ret final) then Ok None
  else if existsb d_ret (removelast insns) then Ok None
  else
    assert_ (endswith (String ret_byte "") code) AssertionError;;
    if existsb (λ i, d_jump_group i && negb (d_jmp i)) insns then Ok (Some (drop_last 1 code)) else Ok None.
Definition patch_bin (bin_file : string) : G bool :=
  compiled ← read_file bin_file;
  patched ← glift (patch compiled);
  match patched with Some code => write_file bin_file code;; mret true | None => mret false end.

(** ** [make_dummy_asm] *)

Definition byte_line (c : ascii) : string := "    .byte " +:+ hex (Z.of_N (N_of_ascii c)) +:+ newline.
Definition dummy_asm (code : string) : string := str_join "" (map byte_line (String.list_ascii_of_string code)).
Definition make_dummy_asm (bin_file asm_file : string) : G unit :=
  code ← read_file bin_file; write_file asm_file (dummy_asm code).

(** ** [create_test_case] *)

Record external_case := mkExternalCase {
  x_asm_path : string; x_bin_path : string; x_address_map : gmap Z Instruction; x_last_address : Z }.

(** [map_addresses] for a test case without functions. *)
Definition external_addresses (asm_path bin_path : string) (code : string) : result external_case :=
  '(m, last_address) ← address_map_of (iced_addresses code) [] 0;
  Ok (mkExternalCase asm_path bin_path m last_address).

Definition max_code_size : nat := 512.
Definition removesuffix (s p : string) : string := if endswith p s then drop_last (String.length p) s else s.

Definition draw_and_compile (stem_file : string) : G bool :=
  seed ← next_seed;
  run_checked [llvm_dir +:+ "/llvm-stress"; "-o"; stem_file +:+ ".in.ll"; "--seed=" +:+ str seed];;
  run_checked [llvm_dir +:+ "/opt"; "-S"; "--passes=loop-unroll"; "--unroll-count=2"; stem_file +:+ ".in.ll";
               "-o"; stem_file +:+ ".peel.ll"];;
  run_checked [llvm_dir +:+ "/opt"; "-S"; "--load-pass-plugin=build/libSandboxPass.so"; "--passes=SandboxPass";
               stem_file +:+ ".peel.ll"; "-o"; stem_file +:+ ".out.ll"];;
  move_file (stem_file +:+ ".out.ll") (stem_file +:+ ".unopt.ll");;
  run_checked [llvm_dir +:+ "/opt"; "-S"; "--O1"; stem_file +:+ ".unopt.ll"; "-o"; stem_file +:+ ".out.ll"];;
  compile_llc (stem_file +:+ ".out.ll") (stem_file +:+ ".o").

Definition check_harness (bin_file : string) : G bool :=
  r ← run_program ["./harness"; bin_file]; mret (r.1 =? 0).

Definition try_create_test_case (asm_file : string) : G (option external_case) :=
  let stem_file := removesuffix asm_file ".asm" in
  let bin_file := stem_file +:+ ".bin" in
  compiled ← draw_and_compile stem_file;
  if negb (compiled : bool) then mret None
  else
    sh_checked ("objcopy -O binary -j .text " +:+ stem_file +:+ ".o " +:+ bin_file);;
    patched ← patch_bin bin_file;
    if negb (patched : bool) then mret None
    else
      data ← read_file bin_file;
      if (max_code_size <? String.length data)%nat then mret None
      else
        test_case ← glift (external_addresses asm_file bin_file data);
        make_dummy_asm bin_file asm_file;;
        ok ← check_harness bin_file;
        if ok : bool then mret (Some test_case) else mret None.

(** One attempt after the other, until one is accepted. *)
Fixpoint create_test_case (fuel : nat) (asm_file : string) : G external_case :=
  match fuel with
  | O => glift (Raise OutOfFuel)
  | S fuel =>
      t ← try_create_test_case asm_file;
      match t with Some t => mret t | None => create_test_case fuel asm_file end
  end.

(** ** Assembling a file; a failure of the assembler is explained and raised again *)

Definition assemble (asm_file bin_file : string) : G unit :=
  sh_checked ("as " +:+ asm_file +:+ " -o " +:+ bin_file);;
  sh_checked ("strip --remove-section=.note.gnu.property " +:+ bin_file);;
  sh_checked ("objcopy " +:+ bin_file +:+ " -O binary " +:+ bin_file).
Definition parse_existing_test_case (asm_file : string) : G external_case :=
  let bin_file := removesuffix asm_file ".asm" +:+ ".bin" in
  assemble asm_file bin_file;;
  code ← read_file bin_file;
  glift (external_addresses asm_file bin_file code).

(** [X86ConstGenerator.create_test_case]: the same after copying the source. *)
Definition const_create_test_case (asm_src asm_file : string) : G external_case :=
  source ← read_file asm_src;
  write_file asm_file source;;
  let bin_file := removesuffix asm_file ".asm" +:+ ".bin" in
  assemble asm_file bin_file;;
  code ← read_file bin_file;
  glift (external_addresses asm_file bin_file code).

(** ** What is accepted *)

Lemma G_bind_Ok {A B} (m : G A) (f : A → G B) s b s' :
  (m ≫= f) s = Ok (b, s') → ∃ a s1, m s = Ok (a, s1) ∧ f a s1 = Ok (b, s').
Proof. intros H. unfold mbind, G_bind in H. by apply bind_Ok in H as ([a s1] & ? & ?); exists a, s1. Qed.

(** A compilation that fails is always taken for the known error of LLVM. *)
Lemma check_line_always line : check_line line = true.
Proof. reflexivity. Qed.
Lemma compile_llc_returns ll_file obj_file s : ∃ ok s', compile_llc ll_file obj_file s = Ok (ok, s').
Proof.
  unfold compile_llc, run_program, mbind, G_bind, mret, G_ret. cbn [mbind result_bind].
  destruct (execute _ (g_world s) (g_files s)) as [[[w fs] code] err]. cbn [mbind result_bind fst snd].
  destruct (code =? 0); [by exists true, (mkGenState w fs (g_draws s))|].
  rewrite (proj2 (forallb_forall check_line _)) by done. by exists false, (mkGenState w fs (g_draws s)).
Qed.

(** The checks on a program: it ends with its only return, which is taken off, and it has a
    conditional jump. *)
Definition acceptable (compiled code : string) : Prop :=
  code +:+ String ret_byte "" = ks_asm (str_join "; " prologue) +:+ compiled ∧
  let insns := cs_disasm (code +:+ String ret_byte "") in
  (∃ front final, insns = front ++ [final] ∧ d_ret final = true ∧ Forall (λ i, d_ret i = false) front) ∧
  ∃ i, i ∈ insns ∧ d_jump_group i = true ∧ d_jmp i = false.

Lemma patch_spec compiled code : patch compiled = Ok (Some code) → acceptable compiled code.
Proof.
  unfold patch. set (whole := ks_asm _ +:+ compiled). intros H. apply bind_Ok in H as (final & Hl & H).
  destruct (last (cs_disasm whole)) as [final'|] eqn:El; [|done]. injection Hl as ->.
  destruct (d_ret final) eqn:Er; cbn [negb] in H; [|done].
  destruct (existsb d_ret (removelast (cs_disasm whole))) eqn:Ein; [done|].
  apply bind_Ok in H as ([] & Hend & H). unfold assert_ in Hend.
  destruct (endswith (String ret_byte "") whole) eqn:Ee; [|done]. apply endswith_spec in Ee as [t Et].
  destruct (existsb _ (cs_disasm whole)) eqn:Ej in H; [|done]. injection H as <-.
  assert (drop_last 1 whole = t) as -> by (rewrite Et; exact (drop_last_app t (String ret_byte ""))).
  unfold acceptable. fold whole. rewrite <- Et.
  split; [done|]. split.
  - destruct (exists_last (l := cs_disasm whole)) as (front & x & Ex); [by intros E; rewrite E in El|].
    rewrite Ex in El, Ein |- *. rewrite last_snoc in El. injection El as ->. rewrite removelast_last in Ein.
    exists front, final. split; [done|]. split; [done|]. apply Forall_forall. intros i Hi.
    apply not_true_is_false. intros Hr. apply not_true_iff_false in Ein. apply Ein, existsb_exists.
    exists i. by rewrite <- list_elem_of_In.
  - apply existsb_exists in Ej as (i & Hi & Hj). apply andb_true_iff in Hj as [Hj Hn%negb_true_iff].
    exists i. by rewrite list_elem_of_In.
Qed.

Definition bin_of (asm_file : string) : string := removesuffix asm_file ".asm" +:+ ".bin".

Lemma bin_of_ne asm_file : bin_of asm_file ≠ asm_file.
Proof.
  unfold bin_of, removesuffix. destruct (endswith ".asm" asm_file) eqn:E.
  - apply endswith_spec in E as [t ->]. change (String.length ".asm") with 4%nat.
    assert (drop_last 4 (t +:+ ".asm") = t) as -> by exact (drop_last_app t ".asm").
    intros H%(f_equal (str_drop (String.length t))). by rewrite !str_drop_app in H.
  - intros H%(f_equal String.length). rewrite str_length_app in H. cbn in H. lia.
Qed.

(** An accepted test case: its binary passed the checks, fits the code region and ran in
    the harness; the assembly file lists its bytes; every address is mapped. *)
Lemma accepted_test_case asm_file s t s' :
  try_create_test_case asm_file s = Ok (Some t, s') →
  ∃ compiled code fs w err,
    acceptable compiled code ∧ (String.length code ≤ max_code_size)%nat ∧
    fs !! bin_of asm_file = Some code ∧ fs !! asm_file = Some (dummy_asm code) ∧
    execute ["./harness"; bin_of asm_file] w fs = (g_world s', g_files s', 0, err) ∧
    external_addresses asm_file (bin_of asm_file) code = Ok t.
Proof.
  unfold try_create_test_case. fold (bin_of asm_file). intros H.
  apply G_bind_Ok in H as (compiled & s1 & _ & H). destruct compiled; cbn [negb] in H; [|done].
  apply G_bind_Ok in H as ([] & s2 & _ & H). apply G_bind_Ok in H as (patched & s3 & Hp & H).
  destruct patched; cbn [negb] in H; [|done].
  apply G_bind_Ok in H as (data & s4 & Hd & H). unfold read_file in Hd. apply bind_Ok in Hd as (data' & Hd & [= -> <-]).
  destruct (Nat.ltb_spec max_code_size (String.length data)) as [|Hlen]; [done|].
  apply G_bind_Ok in H as (tc & s5 & Ht & H). unfold glift in Ht. apply bind_Ok in Ht as (t' & Ht & [= -> <-]).
  apply G_bind_Ok in H as ([] & s6 & Hm & H). apply G_bind_Ok in H as (ok & s7 & Hh & H).
  destruct ok; [|done]. injection H as -> ->.
  (* the patch *)
  unfold patch_bin in Hp. apply G_bind_Ok in Hp as (raw & p1 & Hr & Hp). apply G_bind_Ok in Hp as (patched & p2 & Hpatch & Hp).
  unfold glift in Hpatch. apply bind_Ok in Hpatch as (pt & Hpatch & [= -> <-]). destruct patched as [code|]; [|done].
  unfold write_file, mbind, G_bind, mret, G_ret in Hp. cbn in Hp. injection Hp as <-. cbn in Hd.
  rewrite lookup_insert_eq in Hd. injection Hd as <-.
  (* the listing *)
  unfold make_dummy_asm in Hm. apply G_bind_Ok in Hm as (code' & m1 & Hc & Hm).
  unfold read_file in Hc. cbn in Hc. rewrite lookup_insert_eq in Hc. cbn in Hc. injection Hc as <- <-.
  unfold write_file in Hm. injection Hm as <-.
  (* the harness *)
  unfold check_harness, run_program, mbind, G_bind, mret, G_ret in Hh. cbn -[execute] in Hh.
  destruct (execute _ _ _) as [[[w fs] rc] err] eqn:Ex in Hh. cbn in Hh. injection Hh as Hrc <-.
  apply Z.eqb_eq in Hrc as ->.
  eexists raw, code, _, _, err. split; [by apply patch_spec|]. split; [done|]. split; [|split; [|split; [exact Ex|done]]].
  - rewrite lookup_insert_ne by (intros E; by apply (bin_of_ne asm_file)). apply lookup_insert_eq.
  - apply lookup_insert_eq.
Qed.

(** The search ends with the first attempt that is accepted. *)
Inductive attempts (asm_file : string) : nat → gen_state → external_case → gen_state → Prop :=
  | AcceptedAt s t s' : try_create_test_case asm_file s = Ok (Some t, s') → attempts asm_file 1 s t s'
  | Refused s s1 n t s' :
      try_create_test_case asm_file s = Ok (None, s1) → attempts asm_file n s1 t s' → attempts asm_file (S n) s t s'.

Lemma create_test_case_attempts asm_file fuel s t s' :
  create_test_case fuel asm_file s = Ok (t, s') ↔ ∃ n, (n ≤ fuel)%nat ∧ attempts asm_file n s t s'.
Proof.
  split.
  - revert s. induction fuel as [|fuel IH]; intros s H; cbn [create_test_case] in H; [done|].
    apply G_bind_Ok in H as ([t1|] & s1 & H1 & H).
    + injection H as -> ->. exists 1%nat. split; [lia|by constructor].
    + destruct (IH s1 H) as (n & Hn & Ha). exists (S n). split; [lia|by econstructor].
  - intros (n & Hn & Ha). revert fuel Hn. induction Ha as [s t s' H|s s1 n t s' H Ha IH]; intros [|fuel] Hn; try lia;
      cbn [create_test_case]; unfold mbind, G_bind; rewrite H; cbn; [done|]. apply IH. lia.
Qed.
End llvm.

(** *** The listing can be read back *)

Definition listed_byte (line : string) : ascii := ascii_of_N (Z.to_N (int16 (str_drop 10 line))).
Definition listed_bytes (text : string) : list ascii := map listed_byte (removelast (split newline text)).

Definition listed_line (c : ascii) : string := "    .byte " +:+ hex (Z.of_N (N_of_ascii c)).
Lemma byte_text_one_line c : without "010" (listed_line c) = true.
Proof. by destruct c as [[] [] [] [] [] [] [] []]; vm_compute. Qed.

Lemma dummy_asm_lines l :
  str_join "" (map byte_line l) = str_join newline (map listed_line l ++ [""]).
Proof.
  induction l as [|c l IH]; [done|]. cbn [map].
  assert (str_join "" (byte_line c :: map byte_line l) = byte_line c +:+ str_join "" (map byte_line l)) as ->.
  { destruct l; cbn [map]; [cbn [str_join]; by rewrite str_app_nil|done]. }
  rewrite IH. destruct (map listed_line l ++ [""]) as [|x xs] eqn:E; [by apply app_nil in E as [_ ?]|].
  change ((listed_line c :: map listed_line l) ++ [""]) with (listed_line c :: (map listed_line l ++ [""])). rewrite E.
  unfold byte_line, listed_line. by rewrite !str_app_assoc.
Qed.

Lemma dummy_asm_roundtrip code : listed_bytes (dummy_asm code) = String.list_ascii_of_string code.
Proof.
  unfold listed_bytes, dummy_asm. rewrite dummy_asm_lines. unfold newline at 1 2. rewrite split_join.
  - rewrite removelast_last, map_map. rewrite <- (map_id (String.list_ascii_of_string code)) at 2. apply map_ext.
    intros c. unfold listed_byte, listed_line. change 10%nat with (String.length "    .byte ").
    by rewrite str_drop_app, int16_hex, N2Z.id, ascii_N_embedding.
  - by intros [_ ?]%app_nil.
  - apply Forall_app. split; [|by repeat constructor]. apply Forall_map, Forall_true. intros c. apply byte_text_one_line.
Qed.
