(* ===== verification/CacheLog.v ===== *)
(** * The cache states of a log

    [parse_basicCache_logs] of [src/src/executor.py] rebuilds the states a cache went
    through from the messages of gem5.  A state is a dictionary from sets to
    dictionaries from ways to tags, and a new state is a shallow copy of the last: the
    inner dictionaries are shared.  They live in a store here. *)

From S2P Require Import Prelude Text Util.

Open Scope Z_scope.

(** ** The messages *)

Definition alphanumeric (c : ascii) : bool :=
  let n := N_of_ascii c in
  ((48 <=? n) && (n <=? 57) || (65 <=? n) && (n <=? 90) || (97 <=? n) && (n <=? 122))%N.

(** [re.findall(label + "([0-9A-Za-z]+)" + suffix, block)[0]] *)
Definition word_field (label suffix block : string) : result string :=
  from_option IndexError (search (λ s,
    s ← match_lit label s; '(run, s) ← match_run alphanumeric s; _ ← match_lit suffix s; Some run) block).
(** The same with one digit. *)
Definition digit_field (label block : string) : result string :=
  from_option IndexError (search (λ s,
    s ← match_lit label s;
    match s with
    | String c s => if bool_decide (is_Some (digit_value c)) then _ ← match_lit " " s; Some (String c "") else None
    | EmptyString => None
    end) block).

Record block := mkBlock { b_set : string; b_way : string; b_tag : string; b_status : string }.

Definition parseBlock (text : string) : result block :=
  cset ← word_field "set: " " " text;
  way ← word_field "way: " "" text;
  tag ← word_field "tag: " " " text;
  writable ← digit_field "writable: " text;
  readable ← digit_field "readable: " text;
  dirty ← digit_field "dirty: " text;
  prefetched ← digit_field "prefetched: " text;
  secure ← digit_field "secure: " text;
  valid ← digit_field "valid: " text;
  Ok (mkBlock cset way tag (writable +:+ readable +:+ dirty +:+ prefetched +:+ secure +:+ valid)).

(** The lines of the cache, and those of them that tell a state. *)
Definition cache_logs (keyword log : string) : list string :=
  map strip (List.filter (str_in (keyword +:+ ":")) (split (String "010" "") log)).
Definition state_lines (keyword log : string) : list string :=
  List.filter (str_in "state:") (cache_logs keyword log).

(** The tick and the message of a line. *)
Definition split_event (line : string) : result (string * string) :=
  let tmp := split ": " line in
  tick ← from_option IndexError (tmp !! 0%nat);
  _ ← from_option IndexError (tmp !! 1%nat);
  Ok (tick, str_join ": " (drop 2 tmp)).

Definition after_separator (sep msg : string) : result string :=
  from_option IndexError (split sep msg !! 1%nat).
(** The block a message sets; an invalidation clears its tag and its status. *)
Definition new_block (msg : string) : result (option block) :=
  if startswith "Replacement victim:" msg then Ok None
  else if startswith "Block addr" msg then
    text ← after_separator "to state: " msg; b ← parseBlock text; Ok (Some b)
  else if startswith "access for CleanInvalidReq" msg then
    text ← after_separator "PoC hit state: " msg; b ← parseBlock text;
    Ok (Some (mkBlock (b_set b) (b_way b) "0xffffffffffffffff" "000000"))
  else Raise SystemExit.

(** ** The states *)

(** The ways of a set; a state maps a set to the place of its ways in the store. *)
Abbreviation ways := (list (string * (string * string))).
Abbreviation cache_state := (list (string * nat)).

Record log_state := mkLogState {
  l_store : list ways;
  l_states : list cache_state;
  l_new : cache_state;              (* [newCacheState] *)
  l_tick : option string            (* [currentTick]; -1 at the start is no text *)
}.

Definition new_tick (tick : string) (st : log_state) : log_state :=
  if bool_decide (l_tick st = Some tick) then st
  else mkLogState (l_store st) (l_states st ++ [l_new st]) (l_new st) (Some tick).

Definition set_way (b : block) : ways → ways := dict_set (b_way b) (b_tag b, b_status b).
Definition put_block (b : block) (st : log_state) : log_state :=
  match dict_get (b_set b) (l_new st) with
  | Some place => mkLogState (alter (set_way b) place (l_store st)) (l_states st) (l_new st) (l_tick st)
  | None => mkLogState (l_store st ++ [set_way b []]) (l_states st)
              (dict_set (b_set b) (length (l_store st)) (l_new st)) (l_tick st)
  end.

Definition log_event (line : string) (st : log_state) : result log_state :=
  '(tick, msg) ← split_event line;
  let st := new_tick tick st in
  b ← new_block msg;
  Ok (match b with Some b => put_block b st | None => st end).

Definition empty_log : log_state := mkLogState [] [] [] None.

(** The store, and the states in the order of the log. *)
Definition parse_basicCache_logs (keyword log : string) : result (list ways * list cache_state) :=
  st ← for_each log_event (state_lines keyword log) empty_log;
  Ok (l_store st, l_states st ++ [l_new st]).

(** What a reader of a state finds. *)
Definition contents (store : list ways) (s : cache_state) : list (string * ways) :=
  (λ '(cset, place), (cset, default [] (store !! place))) <$> s.

(** ** The specification: nested dictionaries without sharing *)

Definition set_block (d : list (string * ways)) (b : block) : list (string * ways) :=
  dict_alter [] (set_way b) (b_set b) d.
Definition line_block (line : string) : result (option block) :=
  '(_, msg) ← split_event line; new_block msg.
Definition log_blocks (keyword log : string) : result (list block) :=
  bs ← mapM line_block (state_lines keyword log); Ok (omap id bs).

(** How often the tick changes along the lines. *)
Fixpoint tick_changes (current : option string) (lines : list string) : nat :=
  match lines with
  | [] => 0
  | line :: lines =>
      match split_event line with
      | Ok (tick, _) => (if bool_decide (current = Some tick) then 0 else 1) + tick_changes (Some tick) lines
      | Raise _ => 0
      end
  end.

(** ** Facts *)

Record invariant (blocks : list block) (st : log_state) : Prop := {
  inv_places : NoDup (l_new st).*2;
  inv_bound : Forall (λ place, (place < length (l_store st))%nat) (l_new st).*2;
  inv_last : contents (l_store st) (l_new st) = foldl set_block [] blocks;
  inv_prefix : Forall (λ s, s `prefix_of` l_new st) (l_states st)
}.

Lemma invariant_empty : invariant [] empty_log.
Proof. split; cbn; [constructor|constructor|done|constructor]. Qed.

Lemma new_tick_invariant blocks tick st : invariant blocks st → invariant blocks (new_tick tick st).
Proof.
  intros [H1 H2 H3 H4]. unfold new_tick. case_bool_decide; split; cbn; try done.
  apply Forall_app. split; [done|]. by repeat constructor.
Qed.

(** A block of a set the state has is put into the set's ways. *)
Lemma contents_alter store s c place f :
  NoDup s.*2 → Forall (λ p, (p < length store)%nat) s.*2 → dict_get c s = Some place →
  contents (alter f place store) s = dict_alter [] f c (contents store s).
Proof.
  induction s as [|[c' p] s IH]; cbn; [done|]. intros [Hp Hnd]%NoDup_cons [Hb Hbs]%Forall_cons Hget.
  destruct (decide (c' = c)) as [->|Hc].
  - injection Hget as ->. f_equal.
    + f_equal. rewrite list_lookup_alter_eq. destruct (lookup_lt_is_Some_2 store place Hb) as [w ->]. done.
    + apply list_fmap_ext. intros i [c2 p2] Hi. f_equal. rewrite list_lookup_alter_ne; [done|].
      intros ->. apply Hp. apply list_elem_of_fmap. exists (c2, p2). split; [done|]. by apply list_elem_of_lookup_2 in Hi.
  - f_equal; [|by apply IH]. f_equal. rewrite list_lookup_alter_ne; [done|]. intros ->. apply Hp.
    apply dict_get_in in Hget. apply list_elem_of_fmap. by exists (c, p).
Qed.

#[local] Arguments contents : simpl never.

(** A block of another set is added at the end. *)
Lemma contents_snoc store s c w :
  Forall (λ p, (p < length store)%nat) s.*2 → dict_get c s = None →
  contents (store ++ [w]) (dict_set c (length store) s) = contents store s ++ [(c, w)].
Proof.
  intros Hb Hget. unfold dict_set. rewrite dict_alter_new by done. unfold contents. rewrite fmap_app. f_equal.
  - apply list_fmap_ext. intros i [c' p] Hi. f_equal. rewrite lookup_app_l; [done|].
    rewrite Forall_forall in Hb. apply Hb, list_elem_of_fmap. exists (c', p). split; [done|].
    by apply list_elem_of_lookup_2 in Hi.
  - cbn. by rewrite list_lookup_middle.
Qed.

Lemma contents_get store s c : dict_get c (contents store s) = (λ place, default [] (store !! place)) <$> dict_get c s.
Proof. unfold contents. induction s as [|[c' p] s IH]; cbn; [done|]. by destruct (decide (c' = c)). Qed.

Lemma put_block_invariant blocks b st : invariant blocks st → invariant (blocks ++ [b]) (put_block b st).
Proof.
  intros [H1 H2 H3 H4]. unfold put_block. destruct (dict_get (b_set b) (l_new st)) as [place|] eqn:Hget.
  - split; cbn; [done| | |done].
    + by rewrite length_alter.
    + rewrite (contents_alter _ _ (b_set b)), H3, foldl_app by done. done.
  - unfold dict_set. split; cbn.
    + rewrite dict_alter_new, fmap_app by done. apply NoDup_app. split; [done|]. split; [|apply NoDup_singleton].
      intros p Hp ->%list_elem_of_singleton. rewrite Forall_forall in H2. specialize (H2 _ Hp). cbn in H2. lia.
    + rewrite dict_alter_new, fmap_app, length_app by done. cbn. apply Forall_app. split; [|apply Forall_singleton; lia].
      eapply Forall_impl; [done|]. cbn. lia.
    + fold (dict_set (b_set b) (length (l_store st)) (l_new st)).
      rewrite contents_snoc, foldl_app, <- H3 by done. cbn. unfold set_block.
      by rewrite dict_alter_new by (by rewrite contents_get, Hget).
    + rewrite dict_alter_new by done. eapply Forall_impl; [done|]. cbn. intros s Hs. by apply prefix_app_r.
Qed.

(** One line: the tick, then its block. *)
Definition take_line (tick : string) (b : option block) (st : log_state) : log_state :=
  match b with Some b => put_block b (new_tick tick st) | None => new_tick tick st end.

Lemma log_event_run line st st' : log_event line st = Ok st' →
  ∃ tick msg b, split_event line = Ok (tick, msg) ∧ line_block line = Ok b ∧ st' = take_line tick b st.
Proof.
  unfold log_event, line_block. destruct (split_event line) as [[tick msg]|e]; cbn; [|done].
  destruct (new_block msg) as [b|e]; cbn; [|done]. intros [= <-]. by exists tick, msg, b.
Qed.

Lemma take_line_invariant blocks tick b st :
  invariant blocks st → invariant (blocks ++ option_list b) (take_line tick b st).
Proof.
  intros H%(new_tick_invariant _ tick). destruct b as [b|]; cbn; [by apply put_block_invariant|by rewrite app_nil_r].
Qed.
Lemma take_line_tick tick b st : l_tick (take_line tick b st) = Some tick.
Proof.
  assert (Hnew : l_tick (new_tick tick st) = Some tick) by (unfold new_tick; by case_bool_decide).
  destruct b as [b|]; [|done]. cbn. unfold put_block. by destruct (dict_get _ _).
Qed.
Lemma take_line_count tick b st : length (l_states (take_line tick b st)) =
  (length (l_states st) + if bool_decide (l_tick st = Some tick) then 0 else 1)%nat.
Proof.
  assert (Hnew : length (l_states (new_tick tick st)) =
    (length (l_states st) + if bool_decide (l_tick st = Some tick) then 0 else 1)%nat).
  { unfold new_tick. case_bool_decide; cbn; rewrite ?length_app; cbn; lia. }
  destruct b as [b|]; [|done]. cbn. unfold put_block. by destruct (dict_get _ _).
Qed.

Lemma run_invariant lines blocks st st' :
  invariant blocks st → for_each log_event lines st = Ok st' →
  ∃ bs, mapM line_block lines = Ok bs ∧ invariant (blocks ++ omap id bs) st' ∧
        length (l_states st') = (length (l_states st) + tick_changes (l_tick st) lines)%nat.
Proof.
  revert blocks st. induction lines as [|line lines IH]; intros blocks st Hinv; cbn [for_each].
  { intros [= <-]. exists []. rewrite app_nil_r. cbn. by rewrite Nat.add_0_r. }
  intros H. apply bind_Ok in H as (st1 & H1 & H).
  apply log_event_run in H1 as (tick & msg & b & Hs & Hb & ->).
  destruct (IH _ _ (take_line_invariant _ tick b _ Hinv) H) as (bs & Hbs & Hinv' & Hcount).
  exists (b :: bs). rewrite <- (app_assoc blocks) in Hinv'. split; [|split].
  - cbn [mapM]. rewrite Hb. cbn [mbind result_bind]. by rewrite Hbs.
  - by destruct b.
  - rewrite Hcount, take_line_count, take_line_tick. cbn [tick_changes]. rewrite Hs. lia.
Qed.

(** The last state of a parsed log is what the messages amount to, block by block,
    and there is one state more than the tick changes.  An earlier state names the sets
    seen up to its tick, but shows each of them as it is at the end of the log: the
    inner dictionaries are shared. *)
Theorem states_show_the_end keyword log store states :
  parse_basicCache_logs keyword log = Ok (store, states) →
  ∃ blocks, log_blocks keyword log = Ok blocks ∧
    length states = S (tick_changes None (state_lines keyword log)) ∧
    (contents store <$> last states) = Some (foldl set_block [] blocks) ∧
    ∀ s, s ∈ states → contents store s `prefix_of` foldl set_block [] blocks.
Proof.
  unfold parse_basicCache_logs, log_blocks. intros H. apply bind_Ok in H as (st & Hst & [= <- <-]).
  destruct (run_invariant _ [] _ _ invariant_empty Hst) as (bs & Hbs & [_ _ H3 H4] & Hlen).
  rewrite Hbs. eexists. split; [done|]. split; [|split].
  - rewrite length_app, Hlen. cbn. lia.
  - rewrite last_snoc. cbn. by rewrite H3.
  - intros s Hs. cbn in H3. rewrite <- H3. rewrite Forall_forall in H4.
    assert (s `prefix_of` l_new st) as [k ->].
    { apply elem_of_app in Hs as [Hs| ->%list_elem_of_singleton]; [by apply H4|done]. }
    unfold contents. rewrite fmap_app. by apply prefix_app_r.
Qed.

(** A set is filled at one tick and changed at the next: the state of the first tick shows
    the second tag. *)
Definition example_line (tick tag : string) : string :=
  tick +:+ ": system.cpu.dcache: Block addr 0x40 to state: set: 1 way: 0 tag: " +:+ tag +:+
  " writable: 1 readable: 1 dirty: 0 prefetched: 0 secure: 0 valid: 1 |" +:+ String "010" "".

Lemma states_show_the_end_witness :
  let log := example_line "100" "aa" +:+ example_line "200" "bb" in
  ∃ store states, parse_basicCache_logs "dcache" log = Ok (store, states) ∧
    (contents store <$> states) = [[]; [("1", [("0", ("bb", "110001"))])]; [("1", [("0", ("bb", "110001"))])]] ∧
    ∃ blocks, log_blocks "dcache" log = Ok blocks ∧
      (contents store <$> last states) = Some (foldl set_block [] blocks).
Proof.
  intros log. destruct (parse_basicCache_logs "dcache" log) as [[store states]|e] eqn:E; [|vm_compute in E; discriminate].
  exists store, states. split; [reflexivity|]. split; [vm_compute in E; by injection E as <- <-|].
  destruct (states_show_the_end _ _ _ _ E) as (blocks & Hb & _ & Hl & _). exists blocks. exact (conj Hb Hl).
Defined.
