(* ===== verification/Benchmark.v ===== *)
(** * Comparing configurations

    [src/src/benchmark.py]: several instances of the fuzzer run side by side, their
    output arrives in pieces and in any order, and the numbers of the report are read
    off it.  The output of each process is put together into lines whatever the pieces
    were.  Starting and killing processes is not modelled; times are integers; means,
    deviations and the layout of the tables are floating point and formatting. *)

From S2P Require Import Prelude Text Patterns.

Open Scope Z_scope.

(** ** The command lines *)

Record bench_conf := mkBench {
  bc_configs : list string;
  bc_extra_args : list string;
  bc_input_count : Z;
  bc_case_count : option Z;
  bc_process : string;
  bc_output : string;
  bc_stop_after_first : bool;
  bc_parallel : nat
}.

(** The fuzzer reports at the start of a round: one test case more. *)
Definition case_count (bc : bench_conf) : Z := default (10 ^ 9) (bc_case_count bc) + 1.
Definition isa_spec : string := "/code/revizor-docker/src/x86/isa_spec/base.json".
Definition python_call (bc : bench_conf) : string :=
  if str_in "speclfb" (lower (bc_process bc)) then "python3" else "python3.11".
Definition result_dir (bc : bench_conf) (i : nat) : string := bc_output bc +:+ "/config" +:+ str (Z.of_nat i).
Definition extra_args (bc : bench_conf) : list string :=
  bc_extra_args bc ++ if bc_stop_after_first bc then [] else ["--nonstop"].
Definition cmds (bc : bench_conf) : list (list string) :=
  imap (λ i config,
    [python_call bc; "cli.py"; "fuzz"; "-s"; isa_spec; "-i"; str (bc_input_count bc); "-n"; str (case_count bc);
     "-c"; config; "-p"; "bench_" +:+ bc_process bc +:+ "_config" +:+ str (Z.of_nat i) +:+ "_roundROUND";
     "--no-save-stats"; "--result-dir=" +:+ result_dir bc i] ++ extra_args bc) (bc_configs bc).
(** The processes in the order they are started: round by round. *)
Definition commands (bc : bench_conf) : list (list string) :=
  seq 0 (bc_parallel bc) ≫= λ round, map (map (replace "ROUND" (str (Z.of_nat round)))) (cmds bc).

(** ** The output of a process *)

(** A piece of a line is added to the last line unless that is complete. *)
Definition add_line (line : string) (stdout : list string) : result (list string) :=
  l ← from_option IndexError (last stdout);
  if endswith newline l then Ok (stdout ++ [line]) else Ok (removelast stdout ++ [l +:+ line]).

(** The pieces of a chunk, with their newlines. *)
Definition with_newlines (lines : list string) : list string :=
  map (λ l, l +:+ newline) (removelast lines) ++ [List.last lines ""].
Definition read_chunk (new_stdout : string) (stdout : list string) : result (list string) :=
  for_each add_line (List.filter (λ l, negb (l =? "")%string) (with_newlines (split newline new_stdout))) stdout.

Definition viol_pieces : list piece := [PLit "Viol:"; PDec].
Definition progress_pieces : list piece := [PLit "Progress:"; PSpaces; PDec].

(** The last number on the last line that has one. *)
Fixpoint last_count (ps : list piece) (lines : list string) : result (option Z) :=
  match lines with
  | [] => Ok None
  | line :: lines =>
      match last (find_all ps line) with
      | Some groups => n ← py_int (nth 0 groups ""); Ok (Some n)
      | None => last_count ps lines
      end
  end.
Definition get_violation_count (stdout : list string) : result (option Z) := last_count viol_pieces (rev stdout).
Definition get_case_count (stdout : list string) : result (option Z) := last_count progress_pieces (rev stdout).

(** ** The loop *)

Record Result := mkResult { r_stdout : list string; r_first_violation : option Z; r_time : option Z }.
Definition new_Result : Result := mkResult [""] None None.

(** An entry of [results]: the loop that kills processes puts a number there. *)
Inductive entry := Run (r : Result) | Elapsed (t : Z).

(** [processes[i] is not None], the table of results by configuration and round, and
    [index], which the loop over the events leaves behind. *)
Record bench := mkBenchState {
  b_running : list bool;
  b_results : gmap (nat * nat) entry;
  b_index : option nat
}.

Section loop.
(** The number of configurations. *)
Context (k : nat).

Definition slot (index : nat) : nat * nat := (index mod k, index / k)%nat.

(** What [select] reports: the process, what was read, and the time. *)
Record event := mkEvent { ev_index : nat; ev_chunk : string; ev_now : Z }.

Definition stop_process (index : nat) (running : list bool) : result (list bool) :=
  alive ← from_option IndexError (running !! index);
  if alive : bool then Ok (<[index := false]> running) else Raise AttributeError.

Definition handle (e : event) (b : bench) : result bench :=
  cell ← from_option IndexError (b_results b !! slot (ev_index e));
  match cell with
  | Elapsed _ => Raise AttributeError
  | Run r =>
      stdout ← read_chunk (ev_chunk e) (r_stdout r);
      first ← match r_first_violation r with
              | Some t => Ok (Some t)
              | None =>
                  n ← get_violation_count stdout;
                  Ok (match n with Some n => if n =? 0 then None else Some (ev_now e) | None => None end)
              end;
      let finished := (ev_chunk e =? "")%string in
      running ← (if finished then stop_process (ev_index e) (b_running b) else Ok (b_running b));
      Ok (mkBenchState running
            (<[slot (ev_index e) := Run (mkResult stdout first (if finished then Some (ev_now e) else r_time r))]>
               (b_results b))
            (Some (ev_index e)))
  end.

(** One batch of events per turn, until every process has ended or time is up. *)
Fixpoint main_loop (batches : list (list event)) (b : bench) : result bench :=
  match batches with
  | [] => Ok b
  | batch :: batches =>
      b ← for_each handle batch b;
      if existsb id (b_running b) then main_loop batches b else Ok b
  end.

(** The processes still running are killed; the entry overwritten is the one of [index]. *)
Definition kill_one (elapsed : Z) (alive : bool) (b : bench) : result bench :=
  if alive then
    index ← from_option UnboundLocalError (b_index b);
    Ok (mkBenchState (b_running b) (<[slot index := Elapsed elapsed]> (b_results b)) (b_index b))
  else Ok b.
Definition kill_all (elapsed : Z) (b : bench) : result bench :=
  b' ← for_each (kill_one elapsed) (b_running b) b;
  Ok (mkBenchState (map (λ _, false) (b_running b)) (b_results b') (b_index b')).

(** ** The report *)

Record counts := mkCounts { c_violations : option Z; c_cases : option Z; c_time : option Z; c_first : option Z }.

Definition read_result (cell : entry) : result counts :=
  match cell with
  | Elapsed _ => Raise AttributeError
  | Run r =>
      violations ← get_violation_count (r_stdout r);
      cases ← get_case_count (r_stdout r);
      Ok (mkCounts violations cases (r_time r) (r_first_violation r))
  end.

(** [sum] of a list with a [None] raises. *)
Definition py_sum (l : list (option Z)) : result Z :=
  for_each (λ x s, x ← from_option TypeError x; Ok (s + x)) l 0.

Record summary := mkSummary {
  s_programs : Z; s_test_cases : Z; s_violations : Z; s_detected : bool; s_first_violations : list (option Z) }.

Definition summarise (input_count : Z) (rounds : list counts) : result summary :=
  _ ← from_option IndexError (head rounds);
  _ ← mapM (λ c, from_option AttributeError (c_time c)) rounds;
  total_test_programs ← py_sum (c_cases <$> rounds);
  total_violations ← py_sum (c_violations <$> rounds);
  Ok (mkSummary total_test_programs (total_test_programs * input_count * 2) total_violations
        (0 <? total_violations) (c_first <$> rounds)).

Definition start_processes (n : nat) : bench :=
  mkBenchState (replicate n true) (list_to_map ((λ i, (slot i, Run new_Result)) <$> seq 0 n)) None.

(** [main], with [parallel] rounds: one summary per configuration. *)
Definition main (input_count : Z) (parallel : nat) (elapsed : Z) (batches : list (list event))
    : result (list summary) :=
  b ← main_loop batches (start_processes (parallel * k));
  b ← kill_all elapsed b;
  all ← mapM (λ c, mapM (λ r, cell ← from_option IndexError (b_results b !! (c, r)); read_result cell)
                     (seq 0 parallel)) (seq 0 k);
  mapM (summarise input_count) all.
End loop.

(** ** The lines of a text *)

(** A text put together character by character. *)
Definition feed_char (c : ascii) (stdout : list string) : list string :=
  match last stdout with
  | Some l => if endswith newline l then stdout ++ [String c ""] else removelast stdout ++ [l +:+ String c ""]
  | None => [String c ""]
  end.
Fixpoint feed (s : string) (stdout : list string) : list string :=
  match s with String c s => feed s (feed_char c stdout) | EmptyString => stdout end.
Definition stdout_of (s : string) : list string := feed s [""].

Lemma feed_app s t S : feed (s +:+ t) S = feed t (feed s S).
Proof. revert S. induction s as [|c s IH]; intros S; [done|]. rewrite str_app_cons. apply IH. Qed.

Lemma endswith_snoc l c : endswith newline (l +:+ String c "") = Ascii.eqb c "010".
Proof.
  apply eq_true_iff_eq. rewrite endswith_spec, Ascii.eqb_eq. split.
  - intros [t H]. by apply str_app_snoc_inj in H as [_ ->].
  - intros ->. by exists l.
Qed.

Lemma feed_char_snoc c S l :
  feed_char c (S ++ [l]) = if endswith newline l then S ++ [l] ++ [String c ""] else S ++ [l +:+ String c ""].
Proof. unfold feed_char. rewrite last_snoc, removelast_last. destruct (endswith _ _); [by rewrite <- app_assoc|done]. Qed.

(** Characters other than newlines extend an incomplete line. *)
Lemma feed_plain u S l : without "010" u = true → endswith newline l = false → feed u (S ++ [l]) = S ++ [l +:+ u].
Proof.
  revert l. induction u as [|c u IH]; intros l Hu Hl; [by rewrite str_app_nil|].
  apply andb_true_iff in Hu as [Hc%negb_true_iff Hu]. cbn [feed]. rewrite feed_char_snoc, Hl.
  rewrite IH; [by rewrite str_app_assoc|done|by rewrite endswith_snoc].
Qed.

Lemma feed_complete u S l : without "010" u = true → endswith newline l = false →
  feed (u +:+ newline) (S ++ [l]) = S ++ [l +:+ (u +:+ newline)].
Proof.
  revert l. induction u as [|c u IH]; intros l Hu Hl.
  { rewrite str_app_nil_l. unfold newline at 1. cbn [feed]. by rewrite feed_char_snoc, Hl. }
  apply andb_true_iff in Hu as [Hc%negb_true_iff Hu]. rewrite str_app_cons. cbn [feed]. rewrite feed_char_snoc, Hl.
  rewrite IH; [by rewrite str_app_assoc|done|by rewrite endswith_snoc].
Qed.

(** A line is added as it is, or to the incomplete line before it. *)
Definition line_like (line : string) : Prop := ∃ u, without "010" u = true ∧ (line = u ∨ line = u +:+ newline).

Lemma feed_line line S l : line ≠ "" → line_like line →
  feed line (S ++ [l]) = if endswith newline l then (S ++ [l]) ++ [line] else S ++ [l +:+ line].
Proof.
  intros Hne (u & Hu & Hline).
  assert (Hrest : ∀ v S l, without "010" v = true → endswith newline l = false →
    feed v (S ++ [l]) = S ++ [l +:+ v] ∧ feed (v +:+ newline) (S ++ [l]) = S ++ [l +:+ (v +:+ newline)])
    by (split; [by apply feed_plain|by apply feed_complete]).
  destruct (endswith newline l) eqn:El.
  - destruct line as [|c line]; [done|]. cbn [feed]. rewrite feed_char_snoc, El.
    replace (S ++ [l] ++ [String c ""]) with ((S ++ [l]) ++ [String c ""]) by (by rewrite <- app_assoc).
    destruct u as [|d u].
    { destruct Hline as [Hline|Hline]; [done|]. injection Hline as -> ->. done. }
    apply andb_true_iff in Hu as [Hd%negb_true_iff Hu].
    assert (endswith newline (String c "") = false ∧ (line = u ∨ line = u +:+ newline)) as [Hc Hl].
    { destruct Hline as [Hline|Hline]; injection Hline as -> ->; split; auto;
        by rewrite <- (str_app_nil_l (String d "")), endswith_snoc. }
    destruct (Hrest u (S ++ [l]) (String c "") Hu Hc) as [H1 H2]. destruct Hl as [->| ->]; [exact H1|exact H2].
  - destruct (Hrest u S l Hu El) as [H1 H2]. destruct Hline as [->| ->]; done.
Qed.

Lemma add_line_feed line S : S ≠ [] → line ≠ "" → line_like line → add_line line S = Ok (feed line S).
Proof.
  intros HS Hne Hl. destruct (exists_last HS) as (S0 & l & ->). unfold add_line. rewrite last_snoc. cbn.
  rewrite feed_line, removelast_last by done. by destruct (endswith _ _).
Qed.
Lemma feed_nonempty s S : S ≠ [] → feed s S ≠ [].
Proof.
  revert S. induction s as [|c s IH]; intros S HS; [done|]. apply IH. unfold feed_char.
  destruct (last S); [|done]. destruct (endswith _ _); intros H%(f_equal length); rewrite length_app in H; cbn in H; lia.
Qed.

(** Every text is its parts joined by newlines. *)
Fixpoint parts (s : string) : list string :=
  match s with
  | EmptyString => [""]
  | String c s =>
      match parts s with
      | p :: ps => if Ascii.eqb c "010" then "" :: p :: ps else String c p :: ps
      | [] => []
      end
  end.
Lemma parts_spec s : parts s ≠ [] ∧ Forall (λ p, without "010" p = true) (parts s) ∧ str_join newline (parts s) = s.
Proof.
  induction s as [|c s (Hne & Hw & Hj)]; [by repeat constructor|]. cbn [parts].
  destruct (parts s) as [|p ps]; [done|]. split; [by destruct (Ascii.eqb _ _)|].
  apply Forall_cons in Hw as [Hp Hps]. destruct (Ascii.eqb_spec c "010") as [->|Hc].
  - split; [by repeat constructor|]. rewrite <- Hj. reflexivity.
  - split; [constructor; [|done]|].
    + unfold without. cbn. rewrite (proj2 (Ascii.eqb_neq _ _) Hc). exact Hp.
    + rewrite <- Hj. destruct ps; reflexivity.
Qed.

Lemma read_parts ps S : S ≠ [] → ps ≠ [] → Forall (λ p, without "010" p = true) ps →
  for_each add_line (List.filter (λ l, negb (l =? "")%string) (with_newlines ps)) S = Ok (feed (str_join newline ps) S).
Proof.
  intros HS Hne Hw. revert S HS. induction Hw as [|p ps Hp Hw IH]; intros S HS; [done|].
  destruct ps as [|q ps].
  - cbn. destruct (String.eqb_spec p ""); [by subst|]. cbn [negb for_each].
    rewrite add_line_feed; [done|done|done|]. exists p. auto.
  - change (with_newlines (p :: q :: ps)) with ((p +:+ newline) :: with_newlines (q :: ps)).
    change (str_join newline (p :: q :: ps)) with (p +:+ (newline +:+ str_join newline (q :: ps))).
    rewrite <- str_app_assoc, feed_app. cbn [List.filter].
    assert (Hpn : p +:+ newline ≠ "") by (by destruct p).
    rewrite (proj2 (String.eqb_neq _ _) Hpn). cbn [negb for_each].
    rewrite add_line_feed; [|done|done|exists p; auto]. cbn [mbind result_bind].
    apply IH; [done|]. by apply feed_nonempty.
Qed.

(** Reading a chunk is reading its characters one by one: how the output was cut does not
    matter. *)
Lemma read_chunk_feed s S : S ≠ [] → read_chunk s S = Ok (feed s S).
Proof.
  intros HS. destruct (parts_spec s) as (Hne & Hw & Hj). unfold read_chunk.
  rewrite <- Hj at 1. unfold newline at 1. rewrite split_join by done. rewrite read_parts by done. by rewrite Hj.
Qed.

Lemma feed_chunks chunks S : foldl (λ S c, feed c S) S chunks = feed (foldr (λ c s, c +:+ s) "" chunks) S.
Proof. revert S. induction chunks as [|c chunks IH]; intros S; [done|]. cbn. by rewrite IH, feed_app. Qed.

(** ** The counters can always be read *)

Lemma viol_groups s gs rest : match_pieces viol_pieces s = Some (gs, rest) → number_groups gs.
Proof.
  unfold viol_pieces. change (match_pieces [PLit "Viol:"; PDec] s) with
    (s ← match_lit "Viol:" s; match_pieces [PDec] s). destruct (match_lit "Viol:" s); [apply match_dec_groups|done].
Qed.
Lemma progress_groups s gs rest : match_pieces progress_pieces s = Some (gs, rest) → number_groups gs.
Proof.
  unfold progress_pieces. change (match_pieces [PLit "Progress:"; PSpaces; PDec] s) with
    (s ← match_lit "Progress:" s; match_pieces [PDec] (span is_space s).2).
  destruct (match_lit "Progress:" s); [apply match_dec_groups|done].
Qed.

Lemma last_count_ok ps lines :
  (∀ s gs rest, match_pieces ps s = Some (gs, rest) → number_groups gs) → ∃ c, last_count ps lines = Ok c.
Proof.
  intros Hps. induction lines as [|line lines IH]; cbn [last_count]; [by eexists|].
  destruct (last (find_all ps line)) as [gs|] eqn:E; [|done].
  pose proof (find_all_ok number_groups ps line Hps) as Hall. rewrite Forall_forall in Hall.
  destruct (Hall gs) as (g & -> & Hne & Hd); [by apply last_Some_elem_of|].
  destruct (py_int_digits g Hne Hd) as [z Hz]. cbn. rewrite Hz. by eexists.
Qed.
Lemma violations_readable stdout : ∃ c, get_violation_count stdout = Ok c.
Proof. apply last_count_ok, viol_groups. Qed.
Lemma cases_readable stdout : ∃ c, get_case_count stdout = Ok c.
Proof. apply last_count_ok, progress_groups. Qed.

(** ** Mapping over a list *)

Lemma mapM_ext {A B} (f g : A → result B) l : (∀ x, x ∈ l → f x = g x) → mapM f l = mapM g l.
Proof.
  induction l as [|x l IH]; intros H; [done|]. cbn [mapM]. rewrite (H x) by by left.
  rewrite IH; [done|]. intros y Hy. apply H. by right.
Qed.
Lemma mapM_Ok {A B} (f : A → result B) l : (∀ x, x ∈ l → ∃ y, f x = Ok y) → ∃ k, mapM f l = Ok k.
Proof.
  induction l as [|x l IH]; intros H; [by eexists|]. destruct (H x) as [y Hy]; [by left|].
  destruct IH as [k Hk]; [intros z Hz; apply H; by right|]. cbn [mapM]. rewrite Hy, Hk. by eexists.
Qed.
Lemma mapM_fuse {A B C} (f : A → result B) (g : B → result C) l : (∀ x, x ∈ l → ∃ y, f x = Ok y) →
  (mapM f l ≫= mapM g) = mapM (λ x, f x ≫= g) l.
Proof.
  induction l as [|x l IH]; intros H; [done|]. destruct (H x) as [y Hy]; [by left|].
  destruct (mapM_Ok f l) as [k Hk]; [intros z Hz; apply H; by right|].
  assert (E : mapM g k = mapM (λ x, f x ≫= g) l).
  { rewrite <- IH; [by rewrite Hk|]. intros z Hz. apply H. by right. }
  cbn [mapM]. rewrite Hy, Hk, <- E. reflexivity.
Qed.

Lemma mapM_defined {A B} (f : A → result B) l k x : mapM f l = Ok k → x ∈ l → ∃ y, f x = Ok y.
Proof.
  revert k. induction l as [|z l IH]; intros k H Hx; [by apply elem_of_nil in Hx|].
  cbn [mapM] in H. apply bind_Ok in H as (y & Hy & H). apply bind_Ok in H as (ys & Hys & _).
  apply elem_of_cons in Hx as [->|Hx]; [by exists y|by eapply IH].
Qed.

(** ** Any interleaving *)

Section interleaving.
Context (k parallel : nat) (Hk : (0 < k)%nat).
Notation n := (parallel * k)%nat.
(** What each process prints, all in all; the counters on its lines are numbers. *)
Context (outputs : nat → string).

Definition concat_chunks : list string → string := foldr (λ c s, c +:+ s) "".
Definition chunks_of (i : nat) (events : list event) : list string :=
  ev_chunk <$> List.filter (λ e, (ev_index e =? i)%nat) events.

(** Every process prints its output in some pieces and then ends. *)
Definition complete (events : list event) : Prop :=
  Forall (λ e, (ev_index e < n)%nat) events ∧
  ∀ i, (i < n)%nat → ∃ chunks, chunks_of i events = chunks ++ [""] ∧
    Forall (λ c, c ≠ "") chunks ∧ concat_chunks chunks = outputs i.

Lemma slot_inj i j : slot k i = slot k j → i = j.
Proof. unfold slot. intros [= Hm Hd]. rewrite (Nat.div_mod i k), (Nat.div_mod j k) by lia. by rewrite Hm, Hd. Qed.

(** What is known of a process after some events. *)
Definition cell_ok (events : list event) (b : bench) (i : nat) : Prop :=
  ∃ r, b_results b !! slot k i = Some (Run r) ∧
    r_stdout r = feed (concat_chunks (chunks_of i events)) [""] ∧
    b_running b !! i = Some (negb (mem "" (chunks_of i events))) ∧
    (mem "" (chunks_of i events) = true → is_Some (r_time r) ∧
       ∀ v, get_violation_count (r_stdout r) = Ok (Some v) → v ≠ 0 → is_Some (r_first_violation r)).

Lemma start_processes_ok i : (i < n)%nat → cell_ok [] (start_processes k n) i.
Proof.
  intros Hi. exists new_Result. split; [|split; [done|split; [|done]]].
  - apply elem_of_list_to_map_1.
    + rewrite <- list_fmap_compose. apply NoDup_fmap_2; [exact slot_inj|apply NoDup_seq].
    + apply list_elem_of_fmap. exists i. split; [done|]. apply elem_of_seq. lia.
  - cbn. apply lookup_replicate. by split.
Qed.

Lemma chunks_of_snoc i events e :
  chunks_of i (events ++ [e]) = chunks_of i events ++ if (ev_index e =? i)%nat then [ev_chunk e] else [].
Proof.
  unfold chunks_of. rewrite List.filter_app, fmap_app. f_equal. cbn. by destruct (_ =? _)%nat.
Qed.
Lemma concat_chunks_snoc l c : concat_chunks (l ++ [c]) = concat_chunks l +:+ c.
Proof. induction l as [|d l IH]; cbn; [by rewrite str_app_nil|]. by rewrite IH, str_app_assoc. Qed.

Lemma handle_ok events e b :
  (ev_index e < n)%nat → (∀ i, (i < n)%nat → cell_ok events b i) → length (b_running b) = n →
  mem "" (chunks_of (ev_index e) events) = false →
  ∃ b', handle k e b = Ok b' ∧ (∀ i, (i < n)%nat → cell_ok (events ++ [e]) b' i) ∧ length (b_running b') = n.
Proof.
  intros Hi Hall Hlen Hopen. destruct (Hall _ Hi) as (r & Hcell & Hout & Hrun & _). rewrite Hopen in Hrun.
  unfold handle. rewrite Hcell. cbn [from_option mbind result_bind].
  rewrite read_chunk_feed by (rewrite Hout; by apply feed_nonempty). cbn [mbind result_bind].
  set (stdout := feed (ev_chunk e) (r_stdout r)). destruct (violations_readable stdout) as [v Hv].
  set (first := match r_first_violation r with
                | Some t => Some t
                | None => match v with Some n => if n =? 0 then None else Some (ev_now e) | None => None end
                end).
  replace (match r_first_violation r with Some t => Ok (Some t) | None => _ end) with (Ok first)
    by (subst first; destruct (r_first_violation r); [done|by rewrite Hv]).
  assert (Hfirst : ∀ x, get_violation_count stdout = Ok (Some x) → x ≠ 0 → is_Some first).
  { intros x Hx Hx0. rewrite Hv in Hx. injection Hx as ->. subst first.
    destruct (r_first_violation r); [by eexists|]. destruct (Z.eqb_spec x 0); [done|by eexists]. }
  cbn [mbind result_bind]. set (finished := (ev_chunk e =? "")%string).
  set (running := if finished then <[ev_index e := false]> (b_running b) else b_running b).
  replace (if finished then stop_process (ev_index e) (b_running b) else Ok (b_running b)) with (Ok running)
    by (subst running; unfold stop_process; rewrite Hrun; by destruct finished).
  eexists. split; [reflexivity|]. split; [|cbn; subst running; destruct finished; by rewrite ?length_insert].
  intros i Hin. unfold cell_ok. rewrite chunks_of_snoc. cbn [b_results b_running].
  destruct (Nat.eqb_spec (ev_index e) i) as [<-|Hne].
  - eexists. rewrite lookup_insert_eq. split; [reflexivity|]. rewrite concat_chunks_snoc. cbn [r_stdout r_time r_first_violation].
    assert (Hmem : mem "" (chunks_of (ev_index e) events ++ [ev_chunk e]) = finished).
    { subst finished. unfold mem in *. apply bool_decide_eq_false in Hopen. apply eq_true_iff_eq.
      rewrite bool_decide_eq_true, String.eqb_eq. set_solver. }
    split; [subst stdout; by rewrite Hout, feed_app|]. rewrite Hmem. split.
    + subst running. destruct finished; [|done]. apply list_lookup_insert_eq. by eapply lookup_lt_Some.
    + intros ->. split; [by eexists|exact Hfirst].
  - rewrite lookup_insert_ne by (intros H; by apply slot_inj in H). rewrite app_nil_r.
    destruct (Hall i Hin) as (r' & H1 & H2 & H3 & H4). exists r'. split; [done|]. split; [done|]. split; [|done].
    subst running. destruct finished; [by rewrite list_lookup_insert_ne|done].
Qed.

(** Events of processes that have not ended are handled; the rest follows. *)
Lemma handle_all_ok done_ batch b :
  (∀ i, (i < n)%nat → cell_ok done_ b i) → length (b_running b) = n →
  Forall (λ e, (ev_index e < n)%nat) batch →
  (∀ pre e post, batch = pre ++ e :: post → mem "" (chunks_of (ev_index e) (done_ ++ pre)) = false) →
  ∃ b', for_each (handle k) batch b = Ok b' ∧ (∀ i, (i < n)%nat → cell_ok (done_ ++ batch) b' i) ∧
        length (b_running b') = n.
Proof.
  revert done_ b. induction batch as [|e batch IH]; intros d b Hall Hlen Hidx Hopen.
  { exists b. rewrite app_nil_r. done. }
  apply Forall_cons in Hidx as [He Hidx].
  destruct (handle_ok d e b He Hall Hlen) as (b1 & H1 & Hall1 & Hlen1).
  { specialize (Hopen [] e batch eq_refl). by rewrite app_nil_r in Hopen. }
  destruct (IH (d ++ [e]) b1 Hall1 Hlen1 Hidx) as (b2 & H2 & Hall2 & Hlen2).
  { intros pre e' post ->. rewrite <- (app_assoc d). by apply (Hopen (e :: pre) e' post). }
  exists b2. cbn [for_each]. rewrite H1. cbn [mbind result_bind]. by rewrite <- (app_assoc d) in Hall2.
Qed.

Lemma chunks_of_app i l l' : chunks_of i (l ++ l') = chunks_of i l ++ chunks_of i l'.
Proof. unfold chunks_of. by rewrite List.filter_app, fmap_app. Qed.

Lemma chunks_of_nil l : Forall (λ e, (ev_index e < n)%nat) l → (∀ i, (i < n)%nat → chunks_of i l = []) → l = [].
Proof.
  intros Hidx Hnil. destruct l as [|e l]; [done|]. apply Forall_cons in Hidx as [He _].
  specialize (Hnil _ He). unfold chunks_of in Hnil. cbn in Hnil. by rewrite Nat.eqb_refl in Hnil.
Qed.

(** The empty chunk is the last of a process: what comes before it has none, and nothing
    comes after. *)
Lemma complete_open pre e post : complete (pre ++ e :: post) → mem "" (chunks_of (ev_index e) pre) = false.
Proof.
  intros [Hidx Hall]. rewrite Forall_app, Forall_cons in Hidx. destruct Hidx as (_ & He & _).
  destruct (Hall _ He) as (chunks & Hc & Hne & _). rewrite chunks_of_app in Hc.
  assert (Hcons : chunks_of (ev_index e) (e :: post) = ev_chunk e :: chunks_of (ev_index e) post)
    by (unfold chunks_of; cbn; by rewrite Nat.eqb_refl).
  rewrite Hcons in Hc. unfold mem. apply bool_decide_eq_false. intros Hin.
  destruct (chunks_of (ev_index e) post) as [|c B _] using rev_ind.
  - apply app_inj_tail in Hc as [<- _]. rewrite Forall_forall in Hne. by apply (Hne "").
  - change (ev_chunk e :: B ++ [c]) with ((ev_chunk e :: B) ++ [c]) in Hc. rewrite app_assoc in Hc.
    apply app_inj_tail in Hc as [<- _]. rewrite Forall_app, !Forall_forall in Hne. by apply (proj1 Hne "").
Qed.
Lemma complete_closed l l' i : complete (l ++ l') → (i < n)%nat → mem "" (chunks_of i l) = true → chunks_of i l' = [].
Proof.
  intros [_ Hall] Hi Hm%mem_spec. destruct (Hall i Hi) as (chunks & Hc & Hne & _). rewrite chunks_of_app in Hc.
  destruct (chunks_of i l') as [|c B _] using rev_ind; [done|]. rewrite app_assoc in Hc.
  apply app_inj_tail in Hc as [<- _]. rewrite Forall_app, !Forall_forall in Hne. by destruct (proj1 Hne "" Hm).
Qed.

Lemma main_loop_ok d batches b :
  (∀ i, (i < n)%nat → cell_ok d b i) → length (b_running b) = n → complete (d ++ concat batches) →
  ∃ b', main_loop k batches b = Ok b' ∧ (∀ i, (i < n)%nat → cell_ok (d ++ concat batches) b' i) ∧
        length (b_running b') = n.
Proof.
  revert d b. induction batches as [|batch batches IH]; intros d b Hall Hlen Hcomp.
  { exists b. cbn in *. rewrite app_nil_r. done. }
  cbn [concat] in *. pose proof Hcomp as [Hidx _]. rewrite !Forall_app in Hidx. destruct Hidx as (_ & Hb & Hbs).
  destruct (handle_all_ok d batch b Hall Hlen Hb) as (b1 & H1 & Hall1 & Hlen1).
  { intros pre e post ->. apply (complete_open _ _ (post ++ concat batches)).
    by rewrite <- (app_assoc pre), (app_assoc d pre) in Hcomp. }
  cbn [main_loop]. rewrite H1. cbn [mbind result_bind]. rewrite (app_assoc d) in Hcomp |- *.
  destruct (existsb id (b_running b1)) eqn:Ealive; [by apply IH|].
  assert (concat batches = []) as ->.
  { apply chunks_of_nil; [done|]. intros i Hi. apply (complete_closed (d ++ batch)); [done..|].
    destruct (Hall1 i Hi) as (_ & _ & _ & Hrun & _). apply not_false_is_true. intros Hm. rewrite Hm in Hrun.
    apply not_true_iff_false in Ealive. apply Ealive, existsb_exists. exists true. split; [|done].
    apply list_elem_of_In. by eapply list_elem_of_lookup_2. }
  exists b1. rewrite app_nil_r. done.
Qed.

Lemma kill_none l elapsed b : Forall (λ alive, alive = false) l → for_each (kill_one k elapsed) l b = Ok b.
Proof. induction 1 as [|alive l -> _ IH]; [done|exact IH]. Qed.

Lemma slot_of c r : (c < k)%nat → slot k (r * k + c) = (c, r).
Proof.
  intros Hc. unfold slot. rewrite Nat.add_comm. f_equal.
  - rewrite Nat.Div0.mod_add. by apply Nat.mod_small.
  - rewrite Nat.div_add by lia. by rewrite Nat.div_small.
Qed.

(** What the report says of configuration [c], from what its processes printed. *)
Definition expected (input_count : Z) (first : nat → option Z) (c : nat) : result summary :=
  violations ← mapM (λ r, get_violation_count (stdout_of (outputs (r * k + c)))) (seq 0 parallel);
  cases ← mapM (λ r, get_case_count (stdout_of (outputs (r * k + c)))) (seq 0 parallel);
  programs ← py_sum cases;
  total ← py_sum violations;
  Ok (mkSummary programs (programs * input_count * 2) total (0 <? total) ((λ r, first (r * k + c)%nat) <$> seq 0 parallel)).

(** An entry, read at the end. *)
Definition final_counts (first times : nat → option Z) (i : nat) : result counts :=
  violations ← get_violation_count (stdout_of (outputs i));
  cases ← get_case_count (stdout_of (outputs i));
  Ok (mkCounts violations cases (times i) (first i)).

Lemma summarise_final input_count first times c :
  (0 < parallel)%nat → (∀ r, (r < parallel)%nat → is_Some (times (r * k + c)%nat)) →
  (mapM (λ r, final_counts first times (r * k + c)) (seq 0 parallel) ≫= summarise input_count) =
  expected input_count first c.
Proof.
  intros Hpar Htimes. unfold expected.
  assert (Hgen : ∀ l, Forall (λ r, is_Some (times (r * k + c)%nat)) l → ∃ vs cs rounds,
    mapM (λ r, get_violation_count (stdout_of (outputs (r * k + c)))) l = Ok vs ∧
    mapM (λ r, get_case_count (stdout_of (outputs (r * k + c)))) l = Ok cs ∧
    mapM (λ r, final_counts first times (r * k + c)) l = Ok rounds ∧
    c_violations <$> rounds = vs ∧ c_cases <$> rounds = cs ∧ c_first <$> rounds = (λ r, first (r * k + c)%nat) <$> l ∧
    succeeds (mapM (λ c, from_option AttributeError (c_time c)) rounds) = true ∧ length rounds = length l).
  { clear. induction 1 as [|r l [t Ht] _ (vs & cs & rounds & H1 & H2 & H3 & H4 & H5 & H6 & H7 & H8)].
    { by exists [], [], []. }
    destruct (violations_readable (stdout_of (outputs (r * k + c)))) as [v Hv].
    destruct (cases_readable (stdout_of (outputs (r * k + c)))) as [w Hw].
    exists (v :: vs), (w :: cs), (mkCounts v w (Some t) (first (r * k + c)%nat) :: rounds).
    cbn [mapM]. rewrite Hv, Hw, H1, H2, H3. unfold final_counts. rewrite Hv, Hw, Ht. cbn. rewrite H4, H5, H6, H8.
    split_and!; try done. by destruct (mapM _ rounds). }
  destruct (Hgen (seq 0 parallel)) as (vs & cs & rounds & H1 & H2 & H3 & H4 & H5 & H6 & H7 & H8).
  { apply Forall_forall. intros r Hr%elem_of_seq. apply Htimes. lia. }
  rewrite H1, H2, H3. cbn [mbind result_bind]. unfold summarise. rewrite length_seq in H8.
  destruct rounds as [|x rounds]; [cbn in H8; lia|]. cbn [head from_option mbind result_bind].
  destruct (mapM (λ c, from_option AttributeError (c_time c)) (x :: rounds)); [|done].
  cbn [mbind result_bind]. by rewrite H4, H5, H6.
Qed.

Lemma final_counts_ok first times i : ∃ c, final_counts first times i = Ok c.
Proof.
  unfold final_counts. destruct (violations_readable (stdout_of (outputs i))) as [v ->],
    (cases_readable (stdout_of (outputs i))) as [w ->]. by eexists.
Qed.

(** C40: The report of a benchmark that ends on its own does not depend on how the
    outputs of the processes were cut into pieces or interleaved: for every
    configuration its numbers are the ones on the last lines of what its processes
    printed, and a process that reports a violation has a time of its first. *)
Theorem report_independent_of_schedule input_count elapsed batches :
  (0 < parallel)%nat → complete (concat batches) →
  ∃ first, main k input_count parallel elapsed batches = mapM (expected input_count first) (seq 0 k) ∧
    ∀ i v, (i < n)%nat → get_violation_count (stdout_of (outputs i)) = Ok (Some v) → v ≠ 0 → is_Some (first i).
Proof.
  intros Hpar Hcomp.
  destruct (main_loop_ok [] batches (start_processes k n)) as (b & Hb & Hall & Hlen); [apply start_processes_ok|cbn; apply length_replicate|done|].
  cbn [app] in Hall. pose proof Hcomp as [_ Hends].
  assert (Hcell : ∀ i, (i < n)%nat → ∃ r, b_results b !! slot k i = Some (Run r) ∧ r_stdout r = stdout_of (outputs i) ∧
    b_running b !! i = Some false ∧ is_Some (r_time r) ∧
    ∀ v, get_violation_count (r_stdout r) = Ok (Some v) → v ≠ 0 → is_Some (r_first_violation r)).
  { intros i Hi. destruct (Hall i Hi) as (r & H1 & H2 & H3 & H4). destruct (Hends i Hi) as (chunks & Hc & _ & Ho).
    exists r. rewrite Hc in *. assert (Hm : mem "" (chunks ++ [""]) = true) by (apply mem_spec; set_solver).
    rewrite Hm in *. rewrite concat_chunks_snoc, Ho, str_app_nil in H2. destruct (H4 eq_refl) as [H5 H6]. done. }
  set (run i := match b_results b !! slot k i with Some (Run r) => r | _ => new_Result end).
  exists (λ i, r_first_violation (run i)). split.
  - unfold main. rewrite Hb. cbn [mbind result_bind]. unfold kill_all. rewrite kill_none.
    2: { apply Forall_lookup. intros i alive Hi. pose proof (lookup_lt_Some _ _ _ Hi) as Hlt. rewrite Hlen in Hlt.
         destruct (Hcell i Hlt) as (_ & _ & _ & Hrun & _). congruence. }
    cbn [mbind result_bind b_results].
    rewrite (mapM_fuse _ _ _).
    + apply mapM_ext. intros c Hc%elem_of_seq. rewrite <- (summarise_final input_count _ (λ i, r_time (run i)) c Hpar).
      * f_equal. apply mapM_ext. intros r Hr%elem_of_seq.
        destruct (Hcell (r * k + c)%nat ltac:(nia)) as (x & H1 & H2 & _). unfold final_counts, run. rewrite H1.
        rewrite slot_of in H1 by lia. rewrite H1. cbn. by rewrite H2.
      * intros r Hr. destruct (Hcell (r * k + c)%nat ltac:(nia)) as (x & H1 & _ & _ & H4 & _). unfold run. by rewrite H1.
    + intros c Hc%elem_of_seq. apply mapM_Ok. intros r Hr%elem_of_seq.
      destruct (Hcell (r * k + c)%nat ltac:(nia)) as (x & H1 & _). rewrite slot_of in H1 by lia. rewrite H1. cbn.
      destruct (violations_readable (r_stdout x)) as [v ->], (cases_readable (r_stdout x)) as [w ->]. by eexists.
  - intros i v Hi Hv Hv0. destruct (Hcell i Hi) as (r & H1 & H2 & _ & _ & H5). unfold run. rewrite H1.
    apply (H5 v); [by rewrite H2|done].
Qed.
End interleaving.

(** ** When time runs out *)

Section timeout.
Context (k parallel : nat) (Hk : (0 < k)%nat).

(** The table keeps its rows, and [index] names one of them. *)
Definition table_ok (b : bench) : Prop :=
  (∀ key, is_Some (b_results b !! key) → (key.1 < k)%nat ∧ (key.2 < parallel)%nat) ∧
  ∀ i, b_index b = Some i → is_Some (b_results b !! slot k i).

Lemma table_insert b running key cell i :
  table_ok b → is_Some (b_results b !! key) → i = b_index b ∨ (∃ j, i = Some j ∧ slot k j = key) →
  table_ok (mkBenchState running (<[key := cell]> (b_results b)) i).
Proof.
  intros [H1 H2] Hkey Hi. assert (Hsome : ∀ x, is_Some (<[key := cell]> (b_results b) !! x) ↔ is_Some (b_results b !! x)).
  { intros x. destruct (decide (x = key)) as [->|]; [rewrite lookup_insert_eq|by rewrite lookup_insert_ne].
    split; [done|by eexists]. }
  split; cbn; [intros x Hx%Hsome; by apply H1|]. intros j Hj. apply Hsome.
  destruct Hi as [->|(j' & -> & Hs)]; [by apply H2|]. injection Hj as ->. by rewrite Hs.
Qed.

Lemma handle_table e b b' : table_ok b → handle k e b = Ok b' → table_ok b'.
Proof.
  intros Hb H. unfold handle in H. apply bind_Ok in H as (cell & Hc & H).
  destruct (b_results b !! slot k (ev_index e)) as [x|] eqn:E; [|done].
  destruct cell; [|done]. repeat (apply bind_Ok in H as (? & _ & H)). injection H as <-.
  apply table_insert; [done|by rewrite E; eexists|]. right. by eexists.
Qed.
Lemma main_loop_table batches b b' : table_ok b → main_loop k batches b = Ok b' → table_ok b'.
Proof.
  revert b. induction batches as [|batch batches IH]; intros b Hb; cbn [main_loop]; [by intros [= <-]|].
  intros H. apply bind_Ok in H as (b1 & H1 & H).
  assert (table_ok b1) by (eapply (for_each_inv table_ok); [intros e s s' ?; apply handle_table|done|exact H1]).
  destruct (existsb id (b_running b1)); [by eapply IH|by injection H as <-].
Qed.

(** After one process was killed an entry of the table is a number. *)
Lemma kill_keeps elapsed l b b' : for_each (kill_one k elapsed) l b = Ok b' →
  table_ok b → table_ok b' ∧ b_index b' = b_index b ∧
  (existsb id l = true ∨ (∃ key t, b_results b !! key = Some (Elapsed t)) → ∃ key t, b_results b' !! key = Some (Elapsed t)).
Proof.
  revert b. induction l as [|alive l IH]; intros b; cbn [for_each existsb].
  { intros [= <-] Hb. split; [done|]. split; [done|]. by intros [|]. }
  intros H Hb. apply bind_Ok in H as (b1 & H1 & H). destruct alive; cbn [kill_one] in H1.
  - destruct (b_index b) as [i|] eqn:Ei; [|done]. injection H1 as <-.
    destruct (IH _ H) as (H2 & H3 & H4).
    { apply table_insert; [done| |by left]. by apply (proj2 Hb). }
    split; [done|]. split; [by rewrite H3|]. intros _. apply H4. right. exists (slot k i), elapsed. cbn.
    by rewrite lookup_insert_eq.
  - injection H1 as <-. by apply IH.
Qed.

(** If time runs out before every process has ended, there is no report: the loop that
    kills the processes writes a number over an entry of the table, or finds the
    variable it uses unset. *)
Theorem timeout_has_no_report input_count elapsed batches b :
  main_loop k batches (start_processes k (parallel * k)) = Ok b → existsb id (b_running b) = true →
  ∃ e, main k input_count parallel elapsed batches = Raise e.
Proof.
  intros Hb Halive. unfold main. rewrite Hb. cbn [mbind result_bind]. unfold kill_all.
  destruct (for_each (kill_one k elapsed) (b_running b) b) as [b1|e] eqn:E; [|by eexists].
  assert (Hstart : table_ok (start_processes k (parallel * k))).
  { split; [|done]. cbn. intros key [cell Hkey]. apply elem_of_list_to_map_2, list_elem_of_fmap in Hkey as (i & [= -> ->] & Hi).
    apply elem_of_seq in Hi. cbn. split; [apply Nat.mod_upper_bound; lia|]. apply Nat.Div0.div_lt_upper_bound. lia. }
  pose proof (main_loop_table _ _ _ Hstart Hb) as Hok.
  destruct (kill_keeps _ _ _ _ E Hok) as ([Hrange _] & _ & Hel).
  destruct Hel as ([c r] & t & Hcell); [by left|].
  destruct (Hrange (c, r)) as [Hc Hr]; [by eexists|]. cbn [fst snd] in *. cbn [mbind result_bind b_results].
  destruct (mapM _ (seq 0 k)) as [all|e] eqn:Eall; [|by eexists]. exfalso.
  eapply mapM_defined in Eall as [row Hrow]; [|by apply elem_of_seq; split; [lia|exact Hc]].
  eapply mapM_defined in Hrow as [x Hx]; [|by apply elem_of_seq; split; [lia|exact Hr]].
  by rewrite Hcell in Hx.
Qed.
End timeout.

(** ** A run of two processes *)
Module BenchDemo.
Definition outputs (i : nat) : string :=
  if (i =? 0)%nat then "Progress: 3, Viol:1," +:+ newline else "Progress: 12, Viol:0," +:+ newline.
Definition batches : list (list event) :=
  [[mkEvent 0 "Progress: 3, Vi" 1]; [mkEvent 1 ("Progress: 12, Viol:0," +:+ newline) 2; mkEvent 0 ("ol:1," +:+ newline) 3];
   [mkEvent 1 "" 4; mkEvent 0 "" 5]].
End BenchDemo.

Lemma report_independent_of_schedule_witness :
  ∃ first, main 2 70 1 9 BenchDemo.batches =
    Ok [mkSummary 3 420 1 true [first 0%nat]; mkSummary 12 1680 0 false [first 1%nat]] ∧ is_Some (first 0%nat).
Proof.
  unshelve refine (let H := report_independent_of_schedule 2 1 _ BenchDemo.outputs 70 9 BenchDemo.batches _ _ in _).
  - lia.
  - lia.
  - split; [repeat constructor; cbn; lia|]. intros i Hi. destruct i as [|[|i]]; [| |cbn in Hi; lia].
    + exists ["Progress: 3, Vi"; "ol:1," +:+ newline]. split; [reflexivity|]. split; [|reflexivity].
      repeat constructor; discriminate.
    + exists ["Progress: 12, Viol:0," +:+ newline]. split; [reflexivity|]. split; [|reflexivity].
      repeat constructor; discriminate.
  - destruct H as (first & Hmain & Hfirst). exists first. split.
    + rewrite Hmain. vm_compute. reflexivity.
    + apply (Hfirst 0%nat 1); [cbn; lia|vm_compute; reflexivity|discriminate].
Defined.

Lemma timeout_has_no_report_witness :
  ∃ e, main 2 70 1 9 [[mkEvent 0 "Progress: 3, Vi" 1]] = Raise e.
Proof.
  destruct (main_loop 2 [[mkEvent 0 "Progress: 3, Vi" 1]] (start_processes 2 (1 * 2))) as [b|e] eqn:E; [|vm_compute in E; discriminate].
  apply (timeout_has_no_report 2 1 ltac:(lia) 70 9 _ b E).
  vm_compute in E. injection E as <-. reflexivity.
Defined.
