(* ===== verification/Launch.v ===== *)
(** * The benchmark's runs of the fuzzer

    [src/src/benchmark.py] starts many instances of [cli.py fuzz] at once. Their command
    lines are understood by the parser of [src/src/cli.py], and no two of them share the
    directories that [main] empties and fills. *)

From S2P Require Import Prelude Util Text Config ArgParse Cli Benchmark.

Open Scope Z_scope.

(** [sys.argv[1:]] of [python cli.py ...] *)
Definition argv (cmd : list string) : list string := drop 2 cmd.

(** The value of [-p] in the command of a configuration and a round. *)
Definition run_name (bc : bench_conf) (i round : nat) : string :=
  replace "ROUND" (str (Z.of_nat round))
    ("bench_" +:+ bc_process bc +:+ "_config" +:+ str (Z.of_nat i) +:+ "_roundROUND").

(** The name, as the texts around its numbers show. *)
Lemma run_name_eq bc i round :
  run_name bc i round =
  replace "ROUND" (str (Z.of_nat round)) ("bench_" +:+ bc_process bc) +:+ "_config" +:+ str (Z.of_nat i)
    +:+ "_round" +:+ str (Z.of_nat round).
Proof.
  unfold run_name. set (r := str (Z.of_nat round)).
  change ("_config" +:+ str (Z.of_nat i) +:+ "_roundROUND")
    with (String "_" ("config" +:+ str (Z.of_nat i) +:+ String "_" "roundROUND")).
  rewrite <- (str_app_assoc "bench_"), replace_over by done.
  rewrite <- (str_app_assoc "config"), replace_over by done.
  rewrite (replace_none "ROUND" r ("config" +:+ _)); [|done|].
  - assert (replace "ROUND" r "roundROUND" = "round" +:+ r) as ->.
    { change (replace "ROUND" r "roundROUND") with ("round" +:+ r +:+ ""). by rewrite str_app_nil. }
    by rewrite !str_app_assoc.
  - apply str_find_without. rewrite without_app. apply andb_true_iff. split; [done|].
    apply without_digits; [done|]. apply str_digits. lia.
Qed.

(** Names of different runs differ at their ends already. *)
Lemma run_name_suffix bc i round s t i' round' :
  s +:+ run_name bc i round = t +:+ run_name bc i' round' → i = i' ∧ round = round'.
Proof.
  assert (Hd : ∀ n : nat, str_forall is_digit (str (Z.of_nat n)) = true) by (intros; apply str_digits; lia).
  set (a r := replace "ROUND" (str (Z.of_nat r)) ("bench_" +:+ bc_process bc)).
  assert (Hr : ∀ s i r, s +:+ run_name bc i r =
    (s +:+ a r +:+ "_config" +:+ str (Z.of_nat i) +:+ "_roun") +:+ String "d" (str (Z.of_nat r))).
  { intros. by rewrite run_name_eq, !str_app_assoc. }
  assert (Hi : ∀ s i r, s +:+ a r +:+ "_config" +:+ str (Z.of_nat i) +:+ "_roun" =
    ((s +:+ a r +:+ "_confi") +:+ String "g" (str (Z.of_nat i))) +:+ "_roun").
  { intros. by rewrite !str_app_assoc. }
  rewrite !Hr, !Hi. intros (H & _ & Er)%last_digits; [|done..].
  apply str_app_inj_r, last_digits in H as (_ & _ & Ei); [|done..].
  apply (inj str), Nat2Z.inj in Er, Ei. done.
Qed.

(** ** Paths *)

(** One path is the other, or goes on below it. *)
Definition inside (inner outer : string) : bool :=
  (inner =? outer)%string || startswith (outer +:+ "/") inner.

(** A name without a slash adds no directory to a path. *)
Lemma inside_base outer base s :
  without "/" s = true → startswith (outer +:+ "/") (base +:+ s) = true → startswith (outer +:+ "/") base = true.
Proof.
  intros Hs. unfold startswith. revert outer. induction base as [|c base IH]; intros outer H.
  - rewrite str_app_nil_l in H. exfalso. revert outer H. induction s as [|c s IH]; intros outer H.
    + by destruct outer.
    + unfold without in Hs. cbn [str_forall] in Hs. apply andb_true_iff in Hs as [Hc Hs]. destruct outer as [|d outer].
      * rewrite str_app_nil_l, prefix_char in H. apply Ascii.eqb_eq in H. by subst c.
      * rewrite str_app_cons in H. cbn in H. destruct (ascii_dec d c); [|done]. by apply (IH Hs outer).
  - rewrite str_app_cons in H. destruct outer as [|d outer].
    + rewrite str_app_nil_l, prefix_char in *. done.
    + rewrite str_app_cons in *. cbn in H |- *. destruct (ascii_dec d c); [|done]. by apply IH.
Qed.

Lemma without_drop c n s : without c s = true → without c (str_drop n s) = true.
Proof.
  revert s. induction n as [|n IH]; intros [|a s] H; try done. apply andb_true_iff in H as [_ H]. by apply IH.
Qed.
Lemma without_take c n s : without c s = true → without c (str_take n s) = true.
Proof.
  unfold str_take. revert n. induction s as [|a s IH]; intros [|n] H; try done.
  apply andb_true_iff in H as [Ha H]. unfold without. cbn. rewrite Ha. by apply IH.
Qed.
Lemma without_replace c old new s :
  old ≠ "" → without c new = true → without c s = true → without c (replace old new s) = true.
Proof.
  intros Hold Hnew Hs. assert (∃ n, (String.length s ≤ n)%nat) as [n Hn] by eauto.
  revert s Hs Hn. induction n as [|n IH]; intros s Hs Hn.
  { destruct s; [|cbn in Hn; lia]. by rewrite replace_none by (done || by destruct old). }
  rewrite replace_step by done. destruct (str_find old s) as [i|] eqn:E; [|done]. apply str_find_bound in E.
  rewrite !without_app, without_take, Hnew by done. cbn. apply IH; [by apply without_drop|].
  assert (String.length old ≠ 0)%nat by (by destruct old). rewrite str_drop_length. lia.
Qed.

Lemma not_below_itself s t : startswith (s +:+ t +:+ "/") s = false.
Proof.
  unfold startswith. induction s as [|c s IH].
  - by destruct t.
  - rewrite str_app_cons. cbn. by destruct (ascii_dec c c).
Qed.

(** ** The command lines *)

(** The options the script sets itself. *)
Definition own_dests : list string :=
  ["instruction_set"; "num_inputs"; "num_test_cases"; "config"; "process_run"; "no_save_stats"; "result_dir"].

(** What the script expects of its user: the names of the configuration files do not
    start with a dash; the extra options, each in full or abbreviated as far as it is
    unambiguous, with or without a value that does not start with a dash unless it stands
    behind an equals sign, are options of [cli.py fuzz] and none of those the script writes
    itself ([-s], [-i], [-n], [-c], [-p], [--no-save-stats], [--result-dir]): they come after
    its own and would replace them; and the word that is replaced by the round stands in
    no name but the process'. *)
Record bench_ok (bc : bench_conf) (extra : list setting) (es : list (argument * cfg_value)) : Prop := {
  bo_extra : bc_extra_args bc = command_words extra;
  bo_effects : settings_parse fuzz_arguments extra es;
  bo_placeholder : Forall (λ w, str_find "ROUND" w = None) (bc_output bc :: bc_configs bc ++ bc_extra_args bc);
  bo_keeps : Forall (λ e, dest e.1 ∉ own_dests) es;
  bo_configs : Forall (λ f, startswith "-" f = false) (bc_configs bc);
  bo_counts : 0 ≤ bc_input_count bc ∧ 0 ≤ case_count bc
}.

Definition own_settings (bc : bench_conf) (i round : nat) (config : string) : list setting :=
  [Named "-s" isa_spec; Named "-i" (str (bc_input_count bc)); Named "-n" (str (case_count bc));
   Named "-c" config; Named "-p" (run_name bc i round); Switch "--no-save-stats";
   Joined "--result-dir" (result_dir bc i)].
Definition run_settings (bc : bench_conf) (extra : list setting) (i round : nat) (config : string) : list setting :=
  own_settings bc i round config ++ extra ++ if bc_stop_after_first bc then [] else [Switch "--nonstop"].

Lemma command_words_app l k : command_words (l ++ k) = command_words l ++ command_words k.
Proof. apply bind_app. Qed.

Lemma digits_plain n : 0 ≤ n → str_find "ROUND" (str n) = None.
Proof. intros Hn. apply str_find_without, without_digits; [done|by apply str_digits]. Qed.

(** The command of a round and a configuration, as the words of its settings. *)
Lemma command_settings bc extra es i round config cmd :
  bench_ok bc extra es → cmds bc !! i = Some cmd → bc_configs bc !! i = Some config →
  argv (map (replace "ROUND" (str (Z.of_nat round))) cmd)
  = "fuzz" :: command_words (run_settings bc extra i round config).
Proof.
  intros H Hcmd Hconf. set (r := str (Z.of_nat round)). destruct (bo_counts _ _ _ H) as [Hn1 Hn2].
  pose proof (bo_placeholder _ _ _ H) as Hp. apply Forall_cons in Hp as [Hout Hp].
  apply Forall_app in Hp as [Hpc Hpx]. rewrite Forall_lookup in Hpc. specialize (Hpc i config Hconf).
  unfold cmds in Hcmd. rewrite list_lookup_imap, Hconf in Hcmd. injection Hcmd as <-.
  unfold argv. cbn [app map drop].
  unfold run_settings. rewrite !command_words_app.
  unfold extra_args. rewrite map_app, (map_replace_none _ _ (bc_extra_args bc)), (bo_extra _ _ _ H) by done.
  assert (Hres : replace "ROUND" r ("--result-dir=" +:+ result_dir bc i) = "--result-dir=" +:+ result_dir bc i).
  { unfold result_dir.
    change ("--result-dir=" +:+ bc_output bc +:+ "/config" +:+ str (Z.of_nat i))
      with ("--result-dir" +:+ String "=" (bc_output bc +:+ String "/" ("config" +:+ str (Z.of_nat i)))).
    rewrite !replace_over by done. rewrite (replace_none _ _ (bc_output bc)) by done.
    rewrite (replace_none _ _ ("config" +:+ _)); [done|done|].
    apply str_find_without. rewrite without_app. apply andb_true_iff. split; [done|].
    apply without_digits; [done|]. apply str_digits. lia. }
  rewrite Hres, (replace_none _ _ config), (replace_none _ _ (str (bc_input_count bc))),
    (replace_none _ _ (str (case_count bc))) by (done || by apply digits_plain).
  cbn [own_settings command_words mbind list_bind setting_words app].
  change (replace "ROUND" r "fuzz") with "fuzz". change (replace "ROUND" r "-s") with "-s".
  change (replace "ROUND" r "-i") with "-i". change (replace "ROUND" r "-n") with "-n".
  change (replace "ROUND" r "-c") with "-c". change (replace "ROUND" r "-p") with "-p".
  change (replace "ROUND" r "--no-save-stats") with "--no-save-stats".
  change (replace "ROUND" r isa_spec) with isa_spec.
  change ("--result-dir" +:+ "=" +:+ result_dir bc i) with ("--result-dir=" +:+ result_dir bc i).
  do 13 f_equal. by destruct (bc_stop_after_first bc).
Qed.

(** ** How the parser reads them *)

Definition option_named (f : string) : argument := default help_argument (find_flag fuzz_arguments f).
Definition own_effects (bc : bench_conf) (i round : nat) (config : string) : list (argument * cfg_value) :=
  [(option_named "-s", VStr isa_spec); (option_named "-i", VInt (bc_input_count bc));
   (option_named "-n", VInt (case_count bc)); (option_named "-c", VStr config);
   (option_named "-p", VStr (run_name bc i round)); (option_named "--no-save-stats", VBool true);
   (option_named "--result-dir", VStr (result_dir bc i))].
Definition run_effects (bc : bench_conf) (es : list (argument * cfg_value)) (i round : nat) (config : string) :=
  own_effects bc i round config ++ es
  ++ if bc_stop_after_first bc then [] else [(option_named "--nonstop", VBool true)].

Lemma run_name_plain bc i round : startswith "-" (run_name bc i round) = false.
Proof.
  rewrite run_name_eq. change ("bench_" +:+ bc_process bc) with ("bench" +:+ String "_" (bc_process bc)).
  by rewrite replace_over.
Qed.

Lemma result_dir_not_dashes bc i : result_dir bc i ≠ "--".
Proof.
  intros E%(f_equal String.length). unfold result_dir in E. rewrite !str_length_app in E. cbn in E. lia.
Qed.

Lemma run_settings_parse bc extra es i round config :
  bench_ok bc extra es → startswith "-" config = false →
  settings_parse fuzz_arguments (run_settings bc extra i round config) (run_effects bc es i round config).
Proof.
  intros H Hc. destruct (bo_counts _ _ _ H) as [Hn1 Hn2].
  unfold run_settings, run_effects. apply Forall2_app; [|apply Forall2_app; [exact (bo_effects _ _ _ H)|]].
  - assert (Htext : ∀ f v, is_Some (find_flag fuzz_arguments f) → a_action (option_named f) = Store to_str None →
      startswith "-" f = true → f ≠ "--" → startswith "-" v = false →
      setting_effect fuzz_arguments (Named f v) = Some (option_named f, VStr v) ∧ setting_plain (Named f v)).
    { intros f v [x Hx] Hs Hd Hdd Hv. split; [|by split]. unfold option_named in *. rewrite Hx in *.
      apply text_effect; [done..|by apply not_dashes]. }
    assert (Hnumber : ∀ f n, is_Some (find_flag fuzz_arguments f) → a_action (option_named f) = Store to_int None →
      startswith "-" f = true → f ≠ "--" → 0 ≤ n →
      setting_effect fuzz_arguments (Named f (str n)) = Some (option_named f, VInt n) ∧ setting_plain (Named f (str n))).
    { intros f n [x Hx] Hs Hd Hdd Hn. unfold option_named in *. rewrite Hx in *.
      split; [by apply number_effect|]. split; [done|]. by apply digits_not_dash, str_digits. }
    unfold own_settings, own_effects.
    apply List.Forall2_cons; [by apply Htext|].
    apply List.Forall2_cons; [by apply Hnumber|]. apply List.Forall2_cons; [by apply Hnumber|].
    apply List.Forall2_cons; [by apply Htext|].
    apply List.Forall2_cons; [apply Htext; [done..|apply run_name_plain]|].
    apply List.Forall2_cons; [by split; [reflexivity|split]|].
    apply List.Forall2_cons; [|by apply Forall2_nil]. split; [|by split].
    apply joined_effect; [reflexivity..|apply fuzz_joined|reflexivity|apply result_dir_not_dashes].
  - destruct (bc_stop_after_first bc); [by apply Forall2_nil|].
    apply List.Forall2_cons; [|by apply Forall2_nil]. by split; [reflexivity|split].
Qed.

(** The value of an option in the namespace of a run: the script's own options cannot be
    overridden. *)
Lemma run_effects_own bc extra es i round config d v :
  bench_ok bc extra es → (d, v) ∈ map (λ e, (dest e.1, e.2)) (own_effects bc i round config) →
  dict_get d (written (run_effects bc es i round config)) = Some v.
Proof.
  intros H Hd. assert (Hown : d ∈ own_dests).
  { change own_dests with (map fst (map (λ e, (dest e.1, e.2)) (own_effects bc i round config))).
    by apply (list_elem_of_fmap_2 fst _ (d, v)). }
  unfold written, run_effects. rewrite !map_app, !rev_app_distr, !dict_get_app.
  assert (dict_get d (rev (map (λ e, (dest e.1, e.2)) es)) = None) as ->.
  { apply dict_get_none. rewrite map_rev, map_map.
    intros ((a & w) & He & Hin)%list_elem_of_In%in_rev%list_elem_of_In%list_elem_of_fmap.
    pose proof (bo_keeps _ _ _ H) as Hk. rewrite Forall_forall in Hk. specialize (Hk _ Hin).
    by rewrite He in Hown. }
  assert (dict_get d (rev (map (λ e, (dest e.1, e.2))
            (if bc_stop_after_first bc then [] else [(option_named "--nonstop", VBool true)]))) = None) as ->.
  { destruct (bc_stop_after_first bc); [done|]. apply dict_get_none.
    intros Hx. unfold own_dests in Hown. repeat (apply elem_of_cons in Hown as [->|Hown]; [by apply mem_spec in Hx|]).
    by apply elem_of_nil in Hown. }
  apply dict_get_elem.
  - change (rev _).*1 with (rev own_dests).
    apply (bool_decide_eq_true (NoDup (rev own_dests))). vm_compute. reflexivity.
  - by apply list_elem_of_In, in_rev, list_elem_of_In.
Qed.

(** The process started at a position of the list: its configuration and its round. *)
Lemma command_at bc index cmd :
  commands bc !! index = Some cmd →
  ∃ i round c config, (round < bc_parallel bc)%nat ∧ cmds bc !! i = Some c ∧ bc_configs bc !! i = Some config
    ∧ index = (round * length (bc_configs bc) + i)%nat ∧ cmd = map (replace "ROUND" (str (Z.of_nat round))) c.
Proof.
  assert (Hlen : length (cmds bc) = length (bc_configs bc)) by apply length_imap.
  unfold commands. set (f round := map (map (replace "ROUND" (str (Z.of_nat round)))) (cmds bc)).
  assert (∀ n start index cmd, (seq start n ≫= f) !! index = Some cmd →
    ∃ r i, (r < n)%nat ∧ index = (r * length (bc_configs bc) + i)%nat ∧ f (start + r)%nat !! i = Some cmd) as Hat.
  { clear index cmd. induction n as [|n IH]; intros start index cmd H; [done|]. cbn [seq mbind list_bind] in H.
    apply lookup_app_Some in H as [H|[Hge H]].
    - exists O, index. rewrite Nat.add_0_r. split; [lia|]. by split.
    - apply IH in H as (r & i & Hr & Hi & H). exists (S r), i. unfold f in Hge at 1, Hi at 1.
      rewrite length_map, Hlen in Hge, Hi. split; [lia|]. split; [lia|]. by rewrite Nat.add_succ_r. }
  intros (r & i & Hr & Hi & H)%Hat. cbn [Nat.add] in H. unfold f in H.
  apply list_lookup_fmap_Some in H as (c & -> & Hc).
  assert (is_Some (bc_configs bc !! i)) as [config Hconf].
  { apply lookup_lt_is_Some. rewrite <- Hlen. by eapply lookup_lt_Some. }
  by exists i, r, c, config.
Qed.

(** What the user's options leave an argument at: the same in every process. *)
Definition user_option (bc : bench_conf) (es : list (argument * cfg_value)) (d : string) : option cfg_value :=
  let effects := es ++ if bc_stop_after_first bc then [] else [(option_named "--nonstop", VBool true)] in
  match dict_get d (written effects) with Some v => Some v | None => parser_fuzz !! d end.

(** A process of the benchmark and what the parser makes of its words. *)
Lemma run_read bc extra es i round config :
  bench_ok bc extra es → bc_configs bc !! i = Some config →
  ∃ names,
    parse_command_line ("fuzz" :: command_words (run_settings bc extra i round config)) = Ok (Some names)
    ∧ names !! "subparser_name" = Some (VStr "fuzz")
    ∧ (∀ e, e ∈ own_effects bc i round config → names !! dest e.1 = Some e.2)
    ∧ (bc_stop_after_first bc = false → names !! "nonstop" = Some (VBool true))
    ∧ (∀ d, d ∉ own_dests → d ≠ "subparser_name" → names !! d = user_option bc es d).
Proof.
  intros H Hi. pose proof (bo_configs _ _ _ H) as Hc. rewrite Forall_lookup in Hc. specialize (Hc i config Hi).
  destruct (fuzz_words_read _ _ (run_settings_parse bc extra es i round config H Hc)) as (names & Hp & Hs & Hv).
  { unfold run_effects. rewrite map_app. apply elem_of_app. left. by left. }
  exists names. split; [done|]. split; [done|]. split.
  - intros e He. rewrite Hv.
    + by rewrite (run_effects_own bc extra es i round config (dest e.1) e.2 H)
        by (apply (list_elem_of_fmap_2 (λ e, (dest e.1, e.2)) _ e); exact He).
    + intros E. assert (Hd : dest e.1 ∈ own_dests).
      { change own_dests with (map (λ e, dest e.1) (own_effects bc i round config)).
        by apply (list_elem_of_fmap_2 (λ e, dest e.1)). }
      rewrite E in Hd. revert Hd. in_notin.
  - split.
    + intros Hstop. rewrite Hv by done. unfold run_effects, written. rewrite Hstop, !map_app, !rev_app_distr.
      done.
    + intros d Hd Hs'. rewrite (Hv d Hs'). unfold run_effects, user_option, written.
      rewrite map_app, rev_app_distr, dict_get_app. destruct (dict_get d _) as [v|]; [done|].
      assert (dict_get d (rev (map (λ e, (dest e.1, e.2)) (own_effects bc i round config))) = None) as ->; [|done].
      apply dict_get_none. rewrite map_rev, map_map.
      change (map _ (own_effects bc i round config)) with own_dests.
      intros Hx. by apply Hd, list_elem_of_In, in_rev, list_elem_of_In.
Qed.

Lemma own_name bc i round config (names : namespace) :
  (∀ e, e ∈ own_effects bc i round config → names !! dest e.1 = Some e.2) →
  names !! "process_run" = Some (VStr (run_name bc i round)).
Proof.
  intros Hown. apply (Hown (option_named "-p", VStr (run_name bc i round))).
  unfold own_effects. do 4 right. by left.
Qed.

Lemma run_name_nonempty bc i round : run_name bc i round ≠ "".
Proof. intros E%(f_equal String.length). rewrite run_name_eq, !str_length_app in E. cbn in E. lia. Qed.

Lemma run_name_no_slash bc i round :
  without "/" (bc_process bc) = true → without "/" ("-" +:+ run_name bc i round) = true.
Proof.
  intros H. assert (Hd : ∀ n : nat, without "/" (str (Z.of_nat n)) = true).
  { intros n. apply without_digits; [done|]. apply str_digits. lia. }
  rewrite run_name_eq, !without_app, !Hd, without_replace; [done|done|apply Hd|by rewrite without_app, H].
Qed.

(** What [main] leaves behind when it gets through. *)
Lemma launched safe_load isdir words c names l run :
  Cli.main safe_load isdir words c = Ok (Some l) → parse_command_line words = Ok (Some names) →
  names !! "process_run" = Some (VStr run) → run ≠ "" →
  ∃ items, file_items safe_load names = Ok items
    ∧ (∀ option, option ∈ suffixed_options → ∃ base, configured names items c option = Some (VStr base)
         ∧ l_conf l !! option = Some (VStr (base +:+ "-" +:+ run)))
    ∧ ∀ dir, RemoveTree dir ∈ l_dirs l → l_conf l !! "debug_dir" = Some (VStr dir).
Proof.
  unfold Cli.main. intros Hm Hp Hrun Hne. rewrite Hp in Hm. cbn [mbind result_bind] in Hm.
  apply fmap_Ok in Hm as (l1 & Hm & [= ->]).
  destruct (run_main_suffix _ _ _ _ _ _ Hm Hrun Hne) as [Hs Hd].
  destruct (Hs "debug_dir" ltac:(in_list)) as (items & _ & Hi & _). exists items. split; [done|]. split; [|done].
  intros o Ho. destruct (Hs o Ho) as (items' & base & Hi' & Hb & E). rewrite Hi in Hi'. injection Hi' as <-. by exists base.
Qed.

(** C25: Every process the benchmark starts runs: as long as the configuration files'
    names do not start with a dash and the extra options are options of [cli.py fuzz], in
    full or abbreviated, and not the script's own, the words are accepted as those of
    [cli.py fuzz] with its own configuration file, counts, result directory and name.
    Whatever the configuration files set, no debug, output or checkpoint directory of one
    process is one of another: [main] of one, which only empties its debug directory,
    never empties that of another.  As paths are written, and for a process name without
    a slash, a directory of one process lies inside a directory of another only when the
    path it was configured with, before the suffix of the process, already does; when
    two files leave an option at the same path, as those that do not set it, neither of
    the two directories lies inside the other. *)
Theorem benchmark_runs_isolated bc extra es safe_load isdir c :
  bench_ok bc extra es →
  (∀ index cmd, commands bc !! index = Some cmd →
     ∃ i round config names,
       bc_configs bc !! i = Some config ∧ (round < bc_parallel bc)%nat
       ∧ index = (round * length (bc_configs bc) + i)%nat
       ∧ parse_command_line (argv cmd) = Ok (Some names)
       ∧ names !! "config" = Some (VStr config) ∧ names !! "num_inputs" = Some (VInt (bc_input_count bc))
       ∧ names !! "num_test_cases" = Some (VInt (case_count bc))
       ∧ names !! "result_dir" = Some (VStr (result_dir bc i))
       ∧ names !! "process_run" = Some (VStr (run_name bc i round))
       ∧ (bc_stop_after_first bc = false → names !! "nonstop" = Some (VBool true)))
  ∧ (∀ index index' cmd cmd' l l',
       commands bc !! index = Some cmd → commands bc !! index' = Some cmd' → index ≠ index' →
       Cli.main safe_load isdir (argv cmd) c = Ok (Some l) →
       Cli.main safe_load isdir (argv cmd') c = Ok (Some l') →
       (∀ option option', option ∈ suffixed_options → option' ∈ suffixed_options →
          l_conf l !! option ≠ l_conf l' !! option')
       ∧ (∀ dir, RemoveTree dir ∈ l_dirs l → l_conf l !! "debug_dir" = Some (VStr dir))
       ∧ (without "/" (bc_process bc) = true →
          ∃ names names' items items',
            parse_command_line (argv cmd) = Ok (Some names) ∧ file_items safe_load names = Ok items
            ∧ parse_command_line (argv cmd') = Ok (Some names') ∧ file_items safe_load names' = Ok items'
            ∧ ∀ option option' dir dir', option ∈ suffixed_options → option' ∈ suffixed_options →
                l_conf l !! option = Some (VStr dir) → l_conf l' !! option' = Some (VStr dir') →
                inside dir' dir = true →
                (∃ base', configured names' items' c option' = Some (VStr base')
                   ∧ startswith (dir +:+ "/") base' = true)
                ∧ (option = option' → by_file items c option ≠ by_file items' c option))).
Proof.
  intros H.
  assert (Hread : ∀ index cmd, commands bc !! index = Some cmd → ∃ i round config names,
    bc_configs bc !! i = Some config ∧ (round < bc_parallel bc)%nat
    ∧ index = (round * length (bc_configs bc) + i)%nat
    ∧ parse_command_line (argv cmd) = Ok (Some names)
    ∧ (∀ e, e ∈ own_effects bc i round config → names !! dest e.1 = Some e.2)
    ∧ (bc_stop_after_first bc = false → names !! "nonstop" = Some (VBool true))
    ∧ (∀ d, d ∉ own_dests → d ≠ "subparser_name" → names !! d = user_option bc es d)).
  { intros index cmd (i & round & x & config & Hr & Hx & Hi & -> & ->)%command_at.
    rewrite (command_settings bc extra es i round config x H Hx Hi).
    destruct (run_read bc extra es i round config H Hi) as (names & Hp & _ & Hown & Hns & Hu).
    by exists i, round, config, names. }
  split.
  - intros index cmd Hcmd. destruct (Hread index cmd Hcmd) as (i & round & config & names & Hi & Hr & Hx & Hp & Hown & Hns & _).
    exists i, round, config, names. do 4 (split; [done|]).
    split; [exact (Hown (option_named "-c", VStr config) ltac:(unfold own_effects; do 3 right; by left))|].
    split; [exact (Hown (option_named "-i", VInt (bc_input_count bc)) ltac:(unfold own_effects; do 1 right; by left))|].
    split; [exact (Hown (option_named "-n", VInt (case_count bc)) ltac:(unfold own_effects; do 2 right; by left))|].
    split; [exact (Hown (option_named "--result-dir", VStr (result_dir bc i)) ltac:(unfold own_effects; do 6 right; by left))|].
    split; [by eapply own_name|done].
  - intros index index' cmd cmd' l l' Hcmd Hcmd' Hne Hm Hm'.
    destruct (Hread index cmd Hcmd) as (i & round & config & names & _ & _ & Hx & Hp & Hown & _ & Hu).
    destruct (Hread index' cmd' Hcmd') as (i' & round' & config' & names' & _ & _ & Hx' & Hp' & Hown' & _ & Hu').
    destruct (launched _ _ _ _ _ _ _ Hm Hp (own_name _ _ _ _ _ Hown) (run_name_nonempty _ _ _)) as (items & Hit & Hs & Hd).
    destruct (launched _ _ _ _ _ _ _ Hm' Hp' (own_name _ _ _ _ _ Hown') (run_name_nonempty _ _ _)) as (items' & Hit' & Hs' & Hd').
    assert (Hdiff : ∀ o o', o ∈ suffixed_options → o' ∈ suffixed_options → l_conf l !! o ≠ l_conf l' !! o').
    { intros o o' Ho Ho' E. destruct (Hs _ Ho) as (base & _ & Eb), (Hs' _ Ho') as (base' & _ & Eb').
      rewrite Eb, Eb' in E. injection E as E. rewrite <- !str_app_assoc in E.
      apply run_name_suffix in E as [-> ->]. lia. }
    split; [done|]. split; [done|]. intros Hslash. exists names, names', items, items'. do 4 (split; [done|]).
    intros o o' dir dir' Ho Ho' Edir Edir' Hin.
    destruct (Hs _ Ho) as (base & Ec & Eb), (Hs' _ Ho') as (base' & Ec' & Eb').
    rewrite Eb in Edir. rewrite Eb' in Edir'. injection Edir as Edir. injection Edir' as Edir'.
    unfold inside in Hin. apply orb_true_iff in Hin as [Heq%String.eqb_eq|Hin].
    { destruct (Hdiff o o' Ho Ho'). rewrite Eb, Eb'. congruence. }
    rewrite <- Edir' in Hin. apply inside_base in Hin; [|by apply run_name_no_slash].
    split; [by exists base'|]. intros <- Esame.
    assert (Hconf : configured names items c o = configured names' items' c o).
    { unfold configured. rewrite Esame. destruct (dict_get o directory_arguments) as [name|] eqn:En; [|done].
      assert (name ∉ own_dests ∧ name ≠ "subparser_name") as [Hn Hn'].
      { apply dict_get_in in En. unfold directory_arguments in En.
        repeat (apply elem_of_cons in En as [[= -> ->]|En]; [split; [in_notin|done]|]). by apply elem_of_nil in En. }
      by rewrite Hu, Hu'. }
    rewrite Ec, Ec' in Hconf. injection Hconf as <-. rewrite <- Edir, !str_app_assoc in Hin.
    rewrite <- (str_app_assoc "-"), not_below_itself in Hin. done.
Qed.

(** ** Two configurations, two rounds *)

(** The options [benchmark_all.sh] gives for one of the defences, one of them abbreviated. *)
Module LaunchDemo.
Definition bc : bench_conf :=
  mkBench ["configs/a.yaml"; "configs/b.yaml"] (split "," "--ruby,--InvisiSpec,--InvisiSpec_Futuristic")
    70 (Some 200) "InvisiSpec" "out" false 2.
Definition extra : list setting := [Switch "--ruby"; Switch "--InvisiSpec"; Switch "--InvisiSpec_Futuristic"].
Definition es : list (argument * cfg_value) :=
  [(option_named "--ruby", VBool true); (option_named "--InvisiSpec", VBool true);
   (option_named "--InvisiSpec_FuturisticSpec", VBool true)].
(** The files set another option. *)
Definition safe_load (path : string) : result (list (string * cfg_value)) := Ok [("input_gen_seed", VInt 3)].
Definition isdir (path : string) : bool := true.
Definition runs (index : nat) : bool :=
  match commands bc !! index with
  | Some cmd => match Cli.main safe_load isdir (argv cmd) ConfCls with Ok (Some _) => true | _ => false end
  | None => false
  end.
End LaunchDemo.

Lemma launch_demo_ok : bench_ok LaunchDemo.bc LaunchDemo.extra LaunchDemo.es.
Proof.
  split; [done| | | | |split; vm_compute; discriminate].
  - repeat (apply List.Forall2_cons; [split; [vm_compute; reflexivity|by split]|]). by apply Forall2_nil.
  - cbn. by repeat (apply Forall_cons; split; [reflexivity|]).
  - repeat (apply Forall_cons; split; [in_notin|]). by apply Forall_nil.
  - cbn. by repeat (apply Forall_cons; split; [reflexivity|]).
Qed.

Lemma launch_demo_runs index :
  LaunchDemo.runs index = true →
  ∃ cmd l, commands LaunchDemo.bc !! index = Some cmd
         ∧ Cli.main LaunchDemo.safe_load LaunchDemo.isdir (argv cmd) ConfCls = Ok (Some l).
Proof.
  unfold LaunchDemo.runs. destruct (commands LaunchDemo.bc !! index) as [cmd|] eqn:E; [|done].
  destruct (Cli.main _ _ _ _) as [[l|]|] eqn:Em; [|done..]. intros _. by exists cmd, l.
Qed.

Lemma launch_demo_items names items : file_items LaunchDemo.safe_load names = Ok items →
  ∀ option, option ∈ suffixed_options → by_file items ConfCls option = ConfCls !! option.
Proof.
  unfold file_items. intros H option Ho. inv_ok.
  assert (items = [] ∨ items = [("input_gen_seed", VInt 3)]) as [->| ->].
  { destruct (truthy a); [|injection H as <-; by left]. destruct a; try done. injection H as <-. by right. }
  - done.
  - unfold by_file. cbn [rev app dict_get]. destruct (decide _) as [<-|]; [|done]. exfalso. apply (bool_decide_eq_true_2 (_ ∈ _)) in Ho. by vm_compute in Ho.
Qed.

Lemma benchmark_runs_isolated_witness :
  bench_ok LaunchDemo.bc LaunchDemo.extra LaunchDemo.es
  ∧ ∃ cmd cmd' l l', commands LaunchDemo.bc !! 0%nat = Some cmd ∧ commands LaunchDemo.bc !! 3%nat = Some cmd'
    ∧ Cli.main LaunchDemo.safe_load LaunchDemo.isdir (argv cmd) ConfCls = Ok (Some l)
    ∧ Cli.main LaunchDemo.safe_load LaunchDemo.isdir (argv cmd') ConfCls = Ok (Some l')
    ∧ ∀ option dir dir', option ∈ suffixed_options →
        l_conf l !! option = Some (VStr dir) → l_conf l' !! option = Some (VStr dir') → inside dir' dir = false.
Proof.
  split; [exact launch_demo_ok|].
  destruct (launch_demo_runs 0) as (cmd & l & Hcmd & Hl); [vm_compute; reflexivity|].
  destruct (launch_demo_runs 3) as (cmd' & l' & Hcmd' & Hl'); [vm_compute; reflexivity|].
  exists cmd, cmd', l, l'. do 4 (split; [assumption|]).
  destruct (benchmark_runs_isolated _ _ _ LaunchDemo.safe_load LaunchDemo.isdir ConfCls launch_demo_ok) as [_ H].
  destruct (H 0%nat 3%nat cmd cmd' l l' Hcmd Hcmd' ltac:(discriminate) Hl Hl') as (_ & _ & Hin).
  destruct (Hin eq_refl) as (names & names' & items & items' & _ & Hi & _ & Hi' & Hinside).
  intros option dir dir' Ho E E'. destruct (inside dir' dir) eqn:Ei; [|reflexivity].
  destruct (Hinside option option dir dir' Ho Ho E E' Ei) as [_ Hne]. destruct (Hne eq_refl).
  rewrite (launch_demo_items _ _ Hi), (launch_demo_items _ _ Hi') by exact Ho. reflexivity.
Defined.
