(* ===== verification/Autorun.v ===== *)
(** * The experiment driver

    [src/src/autorun.py]: the options of the simulators as enumerations whose members are
    templates, the command line of an experiment, and its run.  The shell, which starts
    [src/src/cli.py], is a parameter; the file system is a set of directories and a map of
    files. *)

From S2P Require Import Prelude Util Text Json Config ArgParse Cli.

Open Scope Z_scope.

(** ** Templates *)

(** The values the templates are filled with: none, a text, or a member of an
    enumeration, which prints as its class and name. *)
Inductive py_value := PNone | PStr (s : string) | PMember (class name : string).

Definition format_value (v : py_value) : string :=
  match v with
  | PNone => "None"
  | PStr s => s
  | PMember class name => class +:+ "." +:+ name
  end.
Definition truthy_value (v : py_value) : bool :=
  match v with PNone => false | PStr s => negb (s =? "")%string | PMember _ _ => true end.

(** [template.format(value)] for the templates below, which have at most one field. *)
Definition format (template : string) (v : py_value) : string := replace "{}" (format_value v) template.

Module Boolean.
Inductive Boolean := FALSE | TRUE.
Definition Boolean_value (b : Boolean) : string := match b with FALSE => "0" | TRUE => "1" end.
Definition Boolean_member (b : Boolean) : py_value := PMember "Boolean" (match b with FALSE => "FALSE" | TRUE => "TRUE" end).
End Boolean.

Module Gem5Options.
Inductive Gem5Options :=
  | CHECKPOINT_AT_END | CHECKPOINT_DIR | L1D_SIZE | L1I_SIZE | L2_CACHE | L1_TRACES | STT | RUBY_CACHE
  | LEGACY_CACHE | CPU_TYPE | RESTORE_WITH_CPU.
Definition Gem5Options_value (o : Gem5Options) : string :=
  match o with
  | CHECKPOINT_AT_END => "checkpoint-at-end" | CHECKPOINT_DIR => "checkpoint-dir={}"
  | L1D_SIZE => "l1d_size={}" | L1I_SIZE => "l1i_size={}" | L2_CACHE => "l2cache"
  | L1_TRACES => "l1traces" | STT => "stt" | RUBY_CACHE => "ruby" | LEGACY_CACHE => "caches"
  | CPU_TYPE => "cpu-type={}" | RESTORE_WITH_CPU => "restore-with-cpu={}"
  end.
(** Without a value the template itself. *)
Definition Gem5Options_string (o : Gem5Options) (v : py_value) : string :=
  if truthy_value v then format (Gem5Options_value o) v else Gem5Options_value o.
End Gem5Options.

Module InvisiSpecOptions.
Inductive InvisiSpecOptions := SCHEME | TSO.
Definition InvisiSpecOptions_value (o : InvisiSpecOptions) : string :=
  match o with SCHEME => "scheme={}" | TSO => "needsTSO={}" end.
Definition InvisiSpecOptions_string (o : InvisiSpecOptions) (v : py_value) : string :=
  format (InvisiSpecOptions_value o) v.
End InvisiSpecOptions.

Module InvisispecScheme.
Inductive InvisispecScheme :=
  | UNSAFE_BASELINE | SPECTRE_SAFEFENCE | FUTURISTIC_SAFEFENCE | SPECTRE_SAFE_INIVISIBLESPEC
  | FUTURISTIC_SAFE_INVISIBLESPEC.
Definition InvisispecScheme_value (o : InvisispecScheme) : string :=
  match o with
  | UNSAFE_BASELINE => "UnsafeBaseline" | SPECTRE_SAFEFENCE => "SpectreSafeFence"
  | FUTURISTIC_SAFEFENCE => "FuturisticSafeFence" | SPECTRE_SAFE_INIVISIBLESPEC => "SpectreSafeInvisibleSpec"
  | FUTURISTIC_SAFE_INVISIBLESPEC => "FuturisticSafeInvisibleSpec"
  end.
End InvisispecScheme.

Module DolmaOptions.
Inductive DolmaOptions := MODE | STT.
Definition DolmaOptions_value (o : DolmaOptions) : string := match o with MODE => "mode={}" | STT => "stt={}" end.
Definition DolmaOptions_string (o : DolmaOptions) (v : py_value) : string := format (DolmaOptions_value o) v.
End DolmaOptions.

Module DolmaMode.
Inductive DolmaMode := BASELINE | MR_DOLMA_DEFAULT | MR_DOLMA_CONSERVATIVE | M_DOLMA_DEFAULT | M_DOLMA_CONSERVATIVE.
Definition DolmaMode_value (o : DolmaMode) : string :=
  match o with
  | BASELINE => "0" | MR_DOLMA_DEFAULT => "1" | MR_DOLMA_CONSERVATIVE => "2" | M_DOLMA_DEFAULT => "3"
  | M_DOLMA_CONSERVATIVE => "4"
  end.
End DolmaMode.

Module STTOptions.
Inductive STTOptions := THREAT_MODEL | NEEDS_TSO | STT | IMPLICIT_CHANNEL.
Definition STTOptions_value (o : STTOptions) : string :=
  match o with
  | THREAT_MODEL => "threat_model={}" | NEEDS_TSO => "needsTSO={}" | STT => "STT={}"
  | IMPLICIT_CHANNEL => "implicit_channel={}"
  end.
Definition STTOptions_string (o : STTOptions) (v : py_value) : string := format (STTOptions_value o) v.
End STTOptions.

Module STTThreatModel.
Inductive STTThreatModel := UNSAFE_BASELINE | SPECTRE_SAFE_FENCE | FUTURISTIC_SAFE_FENCE.
Definition STTThreatModel_value (o : STTThreatModel) : string :=
  match o with
  | UNSAFE_BASELINE => "UnsafeBaseline" | SPECTRE_SAFE_FENCE => "SpectreSafeFence"
  | FUTURISTIC_SAFE_FENCE => "FuturisticSafeFence"
  end.
End STTThreatModel.

Module SPTOptions.
Inductive SPTOptions :=
  | THREAT_SCHEME | APPLY_DDIFT | ENABLE_SHADOW_L1 | BOTTOMLESS_SHADOW_L1 | DISABLE_UNTAINT | FWD_UNTAINT
  | BWD_UNTAINT | IDEAL_UNTAINT | TRACK_INSTS_FILE | NEEDS_TSO.
Definition SPTOptions_value (o : SPTOptions) : string :=
  match o with
  | THREAT_SCHEME => "scheme={}" | APPLY_DDIFT => "applyDDIFT={}" | ENABLE_SHADOW_L1 => "enableShadowL1={}"
  | BOTTOMLESS_SHADOW_L1 => "bottomlessShadowL1={}" | DISABLE_UNTAINT => "disableUntaint={}"
  | FWD_UNTAINT => "fwdUntaint={}" | BWD_UNTAINT => "bwdUntaint={}" | IDEAL_UNTAINT => "idealUntaint={}"
  | TRACK_INSTS_FILE => "trackInstsFile=all" | NEEDS_TSO => "needsTSO=1"
  end.
Definition SPTOptions_string (o : SPTOptions) (v : py_value) : string := format (SPTOptions_value o) v.
End SPTOptions.

Module SPTThreatScheme.
Inductive SPTThreatScheme := UNSAFE_BASELINE | SPECTRE_SAFE_FENCE | FUTURISTIC_SAFE_FENCE.
Definition SPTThreatScheme_value (o : SPTThreatScheme) : string :=
  match o with
  | UNSAFE_BASELINE => "UnsafeBaseline" | SPECTRE_SAFE_FENCE => "SpectreSafeFence"
  | FUTURISTIC_SAFE_FENCE => "FuturisticSafeFence"
  end.
End SPTThreatScheme.

Module SDOOptions.
Inductive SDOOptions := THREAT_SCHEME | MEM_MODEL | THREAT_MODEL | STT | IMP_CHANNEL | TLB_DEFENSE | LOCATION_PREDICTOR.
Definition SDOOptions_value (o : SDOOptions) : string :=
  match o with
  | THREAT_SCHEME => "scheme={}" | MEM_MODEL => "mem_model={}" | THREAT_MODEL => "threat_model={}"
  | STT => "stt={}" | IMP_CHANNEL => "impChannel={}" | TLB_DEFENSE => "TLB_defense={}"
  | LOCATION_PREDICTOR => "pred_type={}"
  end.
Definition SDOOptions_string (o : SDOOptions) (v : py_value) : string := format (SDOOptions_value o) v.
End SDOOptions.

Module SDOThreatScheme.
Inductive SDOThreatScheme := UNSAFE_BASELINE | DELAY_EXECUTE | SDO.
Definition SDOThreatScheme_value (o : SDOThreatScheme) : string :=
  match o with UNSAFE_BASELINE => "UnsafeBaseline" | DELAY_EXECUTE => "DelayExecute" | SDO => "SDO" end.
End SDOThreatScheme.

Module SDOMemModel.
Inductive SDOMemModel := TSO | RC.
Definition SDOMemModel_value (o : SDOMemModel) : string := match o with TSO => "TSO" | RC => "RC" end.
End SDOMemModel.

Module SDOThreatModel.
Inductive SDOThreatModel := SPECTRE | FUTURISTIC.
Definition SDOThreatModel_value (o : SDOThreatModel) : string :=
  match o with SPECTRE => "Spectre" | FUTURISTIC => "Futuristic" end.
End SDOThreatModel.

Module SDOTlbDefense.
Inductive SDOTlbDefense := NO | SDO | UNSAFE_DELAY.
Definition SDOTlbDefense_value (o : SDOTlbDefense) : string :=
  match o with NO => "No" | SDO => "SDO" | UNSAFE_DELAY => "UnsafeDelay" end.
End SDOTlbDefense.

Module PinnedLoadOptions.
Inductive PinnedLoadOptions := THREAT_MODEL | HARDWARE_SCHEME.
Definition PinnedLoadOptions_value (o : PinnedLoadOptions) : string :=
  match o with THREAT_MODEL => "threat-model={}" | HARDWARE_SCHEME => "hw={}" end.
Definition PinnedLoadOptions_string (o : PinnedLoadOptions) (v : py_value) : string :=
  format (PinnedLoadOptions_value o) v.
End PinnedLoadOptions.

Module PinnedLoadThreatModel.
Inductive PinnedLoadThreatModel := UNSAFE | SPECTRE | COMPREHENSIVE.
Definition PinnedLoadThreatModel_value (o : PinnedLoadThreatModel) : string :=
  match o with UNSAFE => "Unsafe" | SPECTRE => "Spectre" | COMPREHENSIVE => "Comprehensive" end.
End PinnedLoadThreatModel.

Module PinnedLoadHardware.
Inductive PinnedLoadHardware := UNSAFE | FENCE | DOM | STT.
Definition PinnedLoadHardware_value (o : PinnedLoadHardware) : string :=
  match o with UNSAFE => "Unsafe" | FENCE => "Fence" | DOM => "DOM" | STT => "STT" end.
End PinnedLoadHardware.

(** [CleanupSpecOptions] has no [string]. *)
Module CleanupSpecOptions.
Inductive CleanupSpecOptions := CACHE_SCHEME | INVISIPEC_SCHEME.
Definition CleanupSpecOptions_value (o : CleanupSpecOptions) : string :=
  match o with CACHE_SCHEME => "scheme_cleanupcache={}" | INVISIPEC_SCHEME => "scheme_invisipec=UnsafeBaseline" end.
End CleanupSpecOptions.

Module CleanupSpecCacheScheme.
Inductive CleanupSpecCacheScheme := UNSAFE_BASELINE | R_L2 | L1R_REPL | L1LRU_REPL | R_L2_L1R_REPL | CLEANUP_L1 | CLEANUP_L1_L2.
Definition CleanupSpecCacheScheme_value (o : CleanupSpecCacheScheme) : string :=
  match o with
  | UNSAFE_BASELINE => "UnsafeBaseline" | R_L2 => "RandL2" | L1R_REPL => "L1RandRepl" | L1LRU_REPL => "L1LRURepl"
  | R_L2_L1R_REPL => "RandL2_L1RandRepl" | CLEANUP_L1 => "Cleanup_FOR_L1" | CLEANUP_L1_L2 => "Cleanup_FOR_L1L2"
  end.
End CleanupSpecCacheScheme.

(** ** Experiments *)

Record Experiment := mkExperiment {
  e_name : string;
  e_gem5_path : string;
  e_gem5_output : string;
  e_gem5_binary : string;
  e_gem5_se : string;
  e_gem5_options : list string;
  e_gem5_restore : Z;
  e_revizor_path : string;
  e_revizor_output : string;
  e_revizor_test_case : option string;
  e_revizor_num_inputs : Z;
  e_revizor_num_test_cases : Z;
  e_revizor_yaml_config : option string;
  e_hsh : Z
}.

(** [__init__]: the paths of gem5 are made absolute; [hsh] is the object's hash. *)
Definition new_Experiment (hash : Z) (name gem5_path gem5_output gem5_binary gem5_se : string)
    (gem5_options : list string) (gem5_restore : Z) (revizor_path revizor_output : string)
    (revizor_test_case : option string) (num_inputs num_test_cases : Z) (yaml_config : option string) : Experiment :=
  mkExperiment name gem5_path (gem5_path +:+ "/" +:+ gem5_output) (gem5_path +:+ "/" +:+ gem5_binary)
    (gem5_path +:+ "/" +:+ gem5_se) gem5_options gem5_restore revizor_path revizor_output revizor_test_case
    num_inputs num_test_cases yaml_config hash.

Definition quotes (s : string) : string := String "034" (s +:+ String "034" "").
(** [if value:] for an optional text. *)
Definition option_piece (flag : string) (o : option string) : list string :=
  match o with Some v => if (v =? "")%string then [] else [flag +:+ " " +:+ v] | None => [] end.

Definition revizor_command (e : Experiment) : list string :=
  [e_revizor_path e +:+ "/src/cli.py fuzz -s x86/isa_spec/base.json";
   "-i " +:+ str (e_revizor_num_inputs e); "-n " +:+ str (e_revizor_num_test_cases e)]
  ++ option_piece "-t" (e_revizor_test_case e) ++ option_piece "-c" (e_revizor_yaml_config e)
  ++ ["--gem5-path " +:+ e_gem5_path e; "--gem5-output " +:+ e_gem5_output e;
      "--gem5-binary " +:+ e_gem5_binary e; "--gem5-se " +:+ e_gem5_se e;
      "--gem5-options " +:+ quotes (str_join "," (e_gem5_options e));
      "--gem5-restore " +:+ str (e_gem5_restore e); "--output-dir " +:+ e_revizor_output e;
      "--name " +:+ e_name e].

(** [self.__dict__], in the order the attributes are set. *)
Definition json_text (o : option string) : json := match o with Some s => JString s | None => JNull end.
Definition experiment_dict (e : Experiment) : json :=
  JObject [("name", JString (e_name e)); ("gem5_path", JString (e_gem5_path e));
    ("gem5_output", JString (e_gem5_output e)); ("gem5_binary", JString (e_gem5_binary e));
    ("gem5_se", JString (e_gem5_se e)); ("gem5_options", JList (map JString (e_gem5_options e)));
    ("revizor_path", JString (e_revizor_path e)); ("revizor_output", JString (e_revizor_output e));
    ("revizor_test_case", json_text (e_revizor_test_case e));
    ("revizor_num_inputs", JInt (e_revizor_num_inputs e));
    ("revizor_num_test_cases", JInt (e_revizor_num_test_cases e));
    ("revizor_yaml_config", json_text (e_revizor_yaml_config e));
    ("gem5_restore", JInt (e_gem5_restore e)); ("hsh", JInt (e_hsh e))].

(** The file system: the directories and the files, by absolute path. *)
Record world := mkWorld { w_cwd : string; w_dirs : gset string; w_files : gmap string string }.

Definition resolve (w : world) (path : string) : string :=
  if startswith "/" path then path else w_cwd w +:+ "/" +:+ path.

(** A path and the directories above it. *)
Fixpoint path_prefixes (above : string) (parts : list string) : list string :=
  match parts with
  | [] => []
  | part :: parts => let here := above +:+ "/" +:+ part in here :: path_prefixes here parts
  end.
Definition with_parents (path : string) : list string :=
  path_prefixes "" (List.filter (λ part, negb (part =? "")%string) (split "/" path)).

Definition chdir (path : string) (w : world) : result world :=
  let path := resolve w path in
  assert_ (bool_decide (path ∈ w_dirs w)) IOError;; Ok (mkWorld path (w_dirs w) (w_files w)).
(** [Path(path).mkdir(parents=True)] *)
Definition mkdir_parents (path : string) (w : world) : result world :=
  let path := resolve w path in
  assert_ (negb (bool_decide (path ∈ w_dirs w)) && bool_decide (w_files w !! path = None)) IOError;;
  Ok (mkWorld (w_cwd w) (w_dirs w ∪ list_to_set (with_parents path)) (w_files w)).
Definition write_config (path text : string) (w : world) : world :=
  mkWorld (w_cwd w) (w_dirs w) (<[resolve w path := text]> (w_files w)).
Definition read_lines (path : string) (w : world) : result (list string) :=
  text ← from_option IOError (w_files w !! resolve w path); Ok (split Text.newline text).

Section run.
(** [subprocess.run(command, shell=True)]: the exit status and the file system after it. *)
Context (shell : string → world → Z * world).

Definition output_path (e : Experiment) (file : string) : string :=
  e_revizor_path e +:+ "/src/" +:+ e_revizor_output e +:+ "/" +:+ e_name e +:+ file.

Definition run (e : Experiment) (w : world) : result (bool * world) :=
  w ← chdir (e_revizor_path e +:+ "/src") w;
  w ← mkdir_parents (output_path e "") w;
  let '(returncode, w) := shell (str_join " " (revizor_command e)) w in
  assert_ (returncode =? 0) CalledProcessError;;
  let w := write_config (output_path e "/config.json") (dumps (experiment_dict e)) w in
  lines ← read_lines (output_path e "/result") w;
  Ok (existsb (str_in "Violations detected") lines, w).

(** The loop over the experiments; [seconds] is the time each took. *)
Definition run_experiments (seconds : Experiment → Z) : list Experiment → world * list string → result (world * list string) :=
  for_each (λ e '(w, printed),
    '(violation_detected, w) ← run e w;
    Ok (w, printed ++ ["Experiment " +:+ e_name e +:+ " took " +:+ str (seconds e) +:+ " seconds";
                       "Violation Detected? " +:+ if (violation_detected : bool) then "True" else "False"])).
End run.

(** The experiment of the file. *)
Definition sdo_options : list string :=
  [Gem5Options.Gem5Options_string Gem5Options.L1_TRACES PNone; Gem5Options.Gem5Options_string Gem5Options.L1D_SIZE (PStr "64kB");
   Gem5Options.Gem5Options_string Gem5Options.L1I_SIZE (PStr "16kB"); Gem5Options.Gem5Options_string Gem5Options.L2_CACHE PNone;
   Gem5Options.Gem5Options_string Gem5Options.RUBY_CACHE PNone; Gem5Options.Gem5Options_string Gem5Options.CPU_TYPE (PStr "DerivO3CPU");
   Gem5Options.Gem5Options_string Gem5Options.RESTORE_WITH_CPU (PStr "DerivO3CPU");
   SDOOptions.SDOOptions_string SDOOptions.THREAT_SCHEME (PStr (SDOThreatScheme.SDOThreatScheme_value SDOThreatScheme.SDO));
   SDOOptions.SDOOptions_string SDOOptions.MEM_MODEL (PStr (SDOMemModel.SDOMemModel_value SDOMemModel.TSO));
   SDOOptions.SDOOptions_string SDOOptions.THREAT_MODEL (PStr (SDOThreatModel.SDOThreatModel_value SDOThreatModel.SPECTRE));
   SDOOptions.SDOOptions_string SDOOptions.IMP_CHANNEL (Boolean.Boolean_member Boolean.TRUE);
   SDOOptions.SDOOptions_string SDOOptions.TLB_DEFENSE (PStr (SDOTlbDefense.SDOTlbDefense_value SDOTlbDefense.SDO));
   SDOOptions.SDOOptions_string SDOOptions.STT (Boolean.Boolean_member Boolean.TRUE)].
Definition experiments (hash : Z) : list Experiment :=
  [new_Experiment hash "sdo" "/home/arpitgogia/Lab/sdo" "m5out" "build/X86_MESI_Three_Level/gem5.debug"
     "configs/example/se.py" sdo_options 0 "/home/arpitgogia/Lab/revizor" "experiments"
     (Some "tests/spectre_v1.asm") 20 10 None].

(** ** The command line is not that of [cli.py] *)

(** The words after the path of [cli.py], as a shell makes them of the command when no
    value has a character that is special to it. *)
Definition early_words (e : Experiment) : list string :=
  ["-s"; "x86/isa_spec/base.json"; "-i"; str (e_revizor_num_inputs e); "-n"; str (e_revizor_num_test_cases e)]
  ++ (match e_revizor_test_case e with Some v => if (v =? "")%string then [] else ["-t"; v] | None => [] end)
  ++ (match e_revizor_yaml_config e with Some v => if (v =? "")%string then [] else ["-c"; v] | None => [] end)
  ++ ["--gem5-path"; e_gem5_path e; "--gem5-output"; e_gem5_output e; "--gem5-binary"; e_gem5_binary e;
      "--gem5-se"; e_gem5_se e].
Definition argv (e : Experiment) : list string :=
  "fuzz" :: early_words e ++ "--gem5-options" :: [str_join "," (e_gem5_options e);
    "--gem5-restore"; str (e_gem5_restore e); "--output-dir"; e_revizor_output e; "--name"; e_name e].

Lemma str_not_dashes n : str n ≠ "--".
Proof. intros E. pose proof (py_int_str n) as H. by rewrite E in H. Qed.

Lemma optional_words flag o :
  flag ≠ "--" → Forall (λ v : string, v ≠ "--") (option_list o) →
  Forall (λ v : string, v ≠ "--") (match o with Some v => if (v =? "")%string then [] else [flag; v] | None => [] end).
Proof.
  intros Hf H. destruct o as [v|]; [|done]. destruct (v =? "")%string; [done|].
  cbn in H. apply Forall_cons in H as [H _]. by repeat constructor.
Qed.

(** [--gem5-options] is commented out of [cli.py]: no experiment starts a fuzzer. *)
Theorem experiment_rejected e names :
  Forall (λ v : string, v ≠ "--") ([e_gem5_path e; e_gem5_output e; e_gem5_binary e; e_gem5_se e]
    ++ option_list (e_revizor_test_case e) ++ option_list (e_revizor_yaml_config e)) →
  parse_command_line (argv e) ≠ Ok (Some names).
Proof.
  intros [H [Ht Hc]%Forall_app]%Forall_app.
  apply (unknown_option_rejected parsers "subparser_name" "fuzz" fuzz_options) with (e := None);
    [reflexivity|reflexivity| |discriminate|vm_compute; reflexivity].
  assert (Hall : Forall (λ v : string, v ≠ "--") (early_words e)).
  { unfold early_words. rewrite !Forall_app. split_and!; [|by apply optional_words..|].
    - repeat constructor; try discriminate; apply str_not_dashes.
    - rewrite !Forall_cons in H. repeat constructor; try discriminate; tauto. }
  rewrite Forall_forall in Hall. intros Hin. by apply (Hall "--").
Qed.

(** ** What a run reports *)

Definition marker : string := "Violations detected".

Lemma str_in_find sub s : str_in sub s = bool_decide (is_Some (str_find sub s)).
Proof.
  induction s as [|c s IH]; cbn [str_in str_find]; destruct (String.prefix sub _); try done.
  rewrite orb_false_l, IH. apply bool_decide_ext. by rewrite fmap_is_Some.
Qed.

Lemma without_newline_marker : without "010" marker = true.
Proof. reflexivity. Qed.

(** A line is in a text exactly when it is in one of the lines of the text. *)
Lemma lines_with text : existsb (str_in marker) (split Text.newline text) = str_in marker text.
Proof.
  unfold split. remember (String.length text) as n eqn:Hn. assert (String.length text ≤ n)%nat as Hle by lia.
  clear Hn. revert text Hle. induction n as [|n IH]; intros text Hle; cbn [split_fuel existsb].
  - by rewrite orb_false_r.
  - destruct (str_find Text.newline text) as [i|] eqn:E; cbn [existsb]; [|by rewrite orb_false_r].
    assert (text = str_take i text +:+ String "010" (str_drop (i + 1) text)) as Htext.
    { clear -E. revert i E. induction text as [|c text IH]; intros i E; [done|].
      cbn [str_find] in E. unfold Text.newline in E. rewrite prefix_char in E.
      destruct (Ascii.eqb_spec c "010") as [->|_].
      - injection E as <-. done.
      - destruct (str_find (String "010" "") text) as [j|] eqn:Ej; [|done]. injection E as <-.
        specialize (IH j Ej). unfold str_take in *. cbn. rewrite str_app_cons. by rewrite <- IH. }
    rewrite IH by (apply str_find_bound in E; rewrite str_drop_length; cbn in *; lia).
    cbn [String.length Text.newline]. rewrite Htext at 3. rewrite !str_in_find, str_find_over by done.
    destruct (str_find marker (str_take i text)) as [k|].
    + by rewrite !(bool_decide_eq_true_2 (is_Some (Some k))).
    + rewrite (bool_decide_eq_false_2 (is_Some None)) by (by intros [? ?]). rewrite orb_false_l.
      apply bool_decide_ext. by rewrite fmap_is_Some.
Qed.

Section outcomes.
Context (shell : string → world → Z * world).

(** A run that returns says whether the report of a violation is in the result file, and
    leaves the experiment's settings beside it. *)
Theorem run_reports e w b w' :
  run shell e w = Ok (b, w') →
  ∃ text, w_files w' !! resolve w' (output_path e "/result") = Some text ∧ b = str_in marker text
    ∧ ∃ config, w_files w' !! resolve w' (output_path e "/config.json") = Some config
              ∧ loads config = Ok (experiment_dict e).
Proof.
  unfold run. intros H. apply bind_Ok in H as (w1 & _ & H). apply bind_Ok in H as (w2 & _ & H).
  destruct (shell _ w2) as [code w3]. apply bind_Ok in H as (? & _ & H).
  cbv zeta in H. apply bind_Ok in H as (lines & Hl & H).
  injection H as <- <-. unfold read_lines in Hl. apply bind_Ok in Hl as (text & Ht & [= <-]).
  apply from_option_Ok in Ht. exists text. split; [exact Ht|]. split; [apply lines_with|].
  exists (dumps (experiment_dict e)). split; [apply lookup_insert_eq|apply loads_dumps].
Qed.

Lemma output_path_inj w e f g :
  resolve w (output_path e f) = resolve w (output_path e g) → f = g.
Proof.
  set (q := e_revizor_path e +:+ "/src/" +:+ e_revizor_output e +:+ "/" +:+ e_name e).
  assert (Hq : ∀ f, output_path e f = q +:+ f) by (intros; unfold output_path, q; by rewrite !str_app_assoc).
  assert (Hs : ∀ f, startswith "/" (q +:+ f) = startswith "/" q).
  { assert (q ≠ "") by (unfold q; by destruct (e_revizor_path e)).
    intros h. unfold startswith. destruct q as [|c q]; [done|]. by rewrite str_app_cons, !prefix_char. }
  unfold resolve. rewrite !Hq, !Hs. destruct (startswith "/" q).
  - apply str_app_inj_l.
  - by intros E%str_app_inj_l%str_app_inj_l%str_app_inj_l.
Qed.

(** Without a violation the fuzzer writes no result file, and the script, which reads it,
    stops there: it never prints that none was detected. *)
Theorem no_result_raises e w w1 w2 w3 :
  chdir (e_revizor_path e +:+ "/src") w = Ok w1 → mkdir_parents (output_path e "") w1 = Ok w2 →
  shell (str_join " " (revizor_command e)) w2 = (0, w3) →
  w_files w3 !! resolve w3 (output_path e "/result") = None → run shell e w = Raise IOError.
Proof.
  intros H1 H2 H3 Hnone. unfold run. rewrite H1. cbn [mbind result_bind]. rewrite H2. cbn [mbind result_bind].
  rewrite H3. cbn [Z.eqb assert_ mbind result_bind]. unfold read_lines, write_config.
  change (resolve (mkWorld _ _ _) ?p) with (resolve w3 p). cbn [w_files].
  rewrite lookup_insert_ne, Hnone; [done|]. by intros E%output_path_inj.
Qed.
End outcomes.

(** The members of [Boolean] are printed by name: the simulator is not given the 0 or 1
    that the comment on the option asks for. *)
Theorem boolean_members_printed :
  SDOOptions.SDOOptions_string SDOOptions.IMP_CHANNEL (Boolean.Boolean_member Boolean.TRUE) = "impChannel=Boolean.TRUE"
  ∧ SDOOptions.SDOOptions_string SDOOptions.IMP_CHANNEL (PStr (Boolean.Boolean_value Boolean.TRUE)) = "impChannel=1".
Proof. split; reflexivity. Qed.

(** The experiment of the file: its command is refused, whatever the machine. *)
Lemma sdo_rejected hash e names : e ∈ experiments hash → parse_command_line (argv e) ≠ Ok (Some names).
Proof.
  intros ->%list_elem_of_singleton. apply experiment_rejected. cbn. repeat (apply Forall_cons; split; [discriminate|]).
  by apply Forall_nil.
Qed.
