(* ===== verification/Understanding.v ===== *)
(** * The exploration script

    [src/src/understanding.py]: the cache traces of the inputs, the table of the addresses
    each of them accesses, and the report on the contract traces that have several
    hardware traces.  Decoding the packet traces, the disassembler and [eval] are
    parameters; the body of the script's first loop is never reached and is not
    modelled. *)

From S2P Require Import Prelude Util Text.

Open Scope Z_scope.

(** ** Traces *)

Record CacheTrace := mkCacheTrace {
  t_id : Z; t_cmd : string; t_addr : Z; t_size : Z; t_flags : Z; t_tick : Z; t_pc : Z
}.
#[export] Instance CacheTrace_eq_dec : EqDecision CacheTrace.
Proof. solve_decision. Defined.

Definition addr_hex (t : CacheTrace) : string := hex (t_addr t).
Definition pc_hex (t : CacheTrace) : string := hex (t_pc t).
(** [__str__] *)
Definition show_trace (t : CacheTrace) : string :=
  str_join "." [str (t_id t); str (t_tick t); t_cmd t; str (t_flags t); str (t_addr t); str (t_size t); str (t_pc t)].

(** One line of a decoded trace. *)
Definition parse_line (line : string) : result CacheTrace :=
  let parts := split "," line in
  let number k := part ← py_index parts k; py_int part in
  id ← number 0; cmd ← py_index parts 1; addr ← number 2; size ← number 3; flags ← number 4;
  tick ← number 5; pc ← number 6;
  Ok (mkCacheTrace id cmd addr size flags tick pc).

(** [sorted(result, key=lambda x: x.tick)], which is stable. *)
Fixpoint insert_trace (t : CacheTrace) (l : list CacheTrace) : list CacheTrace :=
  match l with
  | [] => [t]
  | t' :: l' => if t_tick t <=? t_tick t' then t :: l else t' :: insert_trace t l'
  end.
Definition sort_traces (l : list CacheTrace) : list CacheTrace := foldr insert_trace [] l.

(** The groups of inputs the fuzzer printed: the lines that list inputs. *)
Definition input_groups (eval : string → result (list (Z * Z))) (out : list string) : result (list (list (Z * Z))) :=
  mapM (λ line, text ← py_index (split "Inputs " line) 1; list_text ← py_index (split "]" text) 0;
                eval (list_text +:+ "]"))
       (List.filter (λ line, str_in "Inputs" line && negb (str_in "per" line)) out).

Section script.
(** The lines of the decoded trace of a file. *)
Context (decode_packet_trace : string → result (list string)).
(** The order in which Python lists the elements of a set. *)
Context (set_order : list Z → list Z).

Definition get_trace (fn : string) : result (list CacheTrace) :=
  lines ← decode_packet_trace (drop_last 3 fn +:+ ".txt");
  traces ← mapM parse_line lines; Ok (sort_traces traces).

(** [cache_trace(index, input_seed)]: the data and the instruction trace. *)
Definition cache_trace (index input_seed : Z) : result (list CacheTrace * list CacheTrace) :=
  let suffix := str index +:+ "_" +:+ str input_seed +:+ ".gz" in
  d ← get_trace ("dCacheTrace_" +:+ suffix); i ← get_trace ("iCacheTrace_" +:+ suffix); Ok (d, i).

(** ** The table of accesses *)

(** A frame: the addresses, and a column of marks for every seed. *)
Record table := mkTable { tb_index : list Z; tb_columns : list (Z * list bool) }.

(** [table[seed][i] = True] *)
Definition mark (seed : Z) (i : nat) : list (Z * list bool) → list (Z * list bool) :=
  dict_alter [] (λ row, <[i := true]> row) seed.

(** The marks of one of the two traces: every trace is read again for every address. *)
Definition mark_accesses (pick : list CacheTrace * list CacheTrace → list CacheTrace) (seeds addresses : list Z)
    (d : list (Z * list bool)) : result (list (Z * list bool)) :=
  for_each (λ '(i, addr) d,
    for_each (λ seed d,
      traces ← cache_trace 0 seed;
      Ok (fold_left (λ d t, if addr =? t_addr t then mark seed i d else d) (pick traces) d)) seeds d)
    (imap pair addresses) d.

Definition empty_rows (seeds addresses : list Z) : list (Z * list bool) :=
  fold_left (λ d seed, dict_set seed (replicate (length addresses) false) d) seeds [].

Definition cache_access_table (seeds : list Z) : result (table * table) :=
  all ← mapM (cache_trace 0) seeds;
  let d_addresses := set_order (all ≫= λ traces, map t_addr traces.1) in
  let i_addresses := set_order (all ≫= λ traces, map t_addr traces.2) in
  d ← mark_accesses fst seeds d_addresses (empty_rows seeds d_addresses);
  i ← mark_accesses snd seeds i_addresses (empty_rows seeds i_addresses);
  Ok (mkTable d_addresses d, mkTable i_addresses i).

(** ** The report on the table of measurements *)

Record measurement := mkMeasurement { m_input : Z; m_htrace : Z }.
Notation measurements := (list (string * list measurement)).

Definition ctrace_to_htrace (tbl : measurements) : list (string * list Z) :=
  fold_left (λ d '(ctrace, ms),
    fold_left (λ d m, dict_alter [] (λ x, if mem (m_htrace m) x then x else x ++ [m_htrace m]) ctrace d) ms d) tbl [].

Fixpoint insert_measurement (m : measurement) (l : list measurement) : list measurement :=
  match l with
  | [] => [m]
  | m' :: l' => if m_htrace m <=? m_htrace m' then m :: l else m' :: insert_measurement m l'
  end.
(** [sorted(..., key=lambda x: x['htrace'])] *)
Definition sort_measurements (l : list measurement) : list measurement := foldr insert_measurement [] l.
Definition htrace_to_inputs (l : list measurement) : list (Z * list Z) :=
  fold_left (λ d m, dict_alter [] (λ inputs, inputs ++ [m_input m]) (m_htrace m) d) l [].

(** What is printed. *)
Inductive output :=
  | ViolatingScenario (ctrace : string)
  | CheckingTraces
  | HTraceInputs (htrace : Z) (inputs : list Z)
  | InputTraces (input : Z) (traces : list string)
  | InstructionAt (pc : Z) (instruction : string)
  | IgnoringInput (input : Z) (dtrace : list CacheTrace)
  | BranchPrediction (addr : string) (prediction : ascii).

(** The reads of an input's data trace as texts, each once; no entry without a read. *)
Definition read_texts (trace : list CacheTrace) : list string :=
  fold_left (λ x t, if (t_cmd t =? "r")%string && negb (mem (show_trace t) x) then x ++ [show_trace t] else x) trace [].

Context (get_instruction : Z → Z → string) (log_lines : Z → result (list string)) (branch_addr : string).
(** The order in which Python lists the texts of a set. *)
Context (text_order : list string → list string).

(** The instruction of a read, from the text of its trace. *)
Definition read_instruction (i : Z) (text : string) : result output :=
  pc ← (part ← py_index (split "." text) 6; py_int part);
  _ ← (part ← py_index (split "." text) 4; py_int part);
  Ok (InstructionAt pc (get_instruction i pc)).

Definition predictions (lines : list string) : result (list output) :=
  mapM (λ log,
    rest ← py_index (split "Branch predictor predicted " log) 1;
    match rest with String c _ => Ok (BranchPrediction branch_addr c) | EmptyString => Raise IndexError end)
    (List.filter (λ log, str_in "Branch predictor predicted" log && str_in branch_addr log) lines).

(** One input of a hardware trace. *)
Definition input_report (i : Z) : result (list output) :=
  traces ← cache_trace 0 i;
  out ← match read_texts traces.1 with
        | [] => Ok [IgnoringInput i traces.1]
        | texts => lines ← mapM (read_instruction i) (text_order texts); Ok (InputTraces i (text_order texts) :: lines)
        end;
  lines ← log_lines i; preds ← predictions lines;
  Ok (out ++ preds).

Definition htrace_report (group : Z * list Z) : result (list output) :=
  parts ← mapM input_report group.2; Ok (HTraceInputs group.1 group.2 :: mjoin parts).

Definition ctrace_report (tbl : measurements) (entry : string * list Z) : result (list output) :=
  let '(ctrace, htraces) := entry in
  if (1 <? Z.of_nat (length htraces)) then
    ms ← from_option KeyError (dict_get ctrace tbl);
    parts ← mapM htrace_report (htrace_to_inputs (sort_measurements ms));
    Ok (ViolatingScenario ctrace :: CheckingTraces :: mjoin parts)
  else Ok [].

Definition report (tbl : measurements) : result (list output) :=
  parts ← mapM (ctrace_report tbl) (ctrace_to_htrace tbl); Ok (mjoin parts).

(** ** The table marks exactly the accesses *)

Section marks.
Context (pick : list CacheTrace * list CacheTrace → list CacheTrace) (seeds addresses : list Z).

(** The row of a seed when the first [k] addresses are done. *)
Definition hit (trace : list CacheTrace) (addr : Z) : bool := existsb (λ t, addr =? t_addr t) trace.
Definition row (k : nat) (trace : list CacheTrace) : list bool :=
  imap (λ j addr, bool_decide (j < k)%nat && hit trace addr) addresses.

Lemma row_mark k trace addr :
  addresses !! k = Some addr → hit trace addr = true →
  <[k := true]> (row k trace) = row (S k) trace ∧ <[k := true]> (row (S k) trace) = row (S k) trace.
Proof.
  intros Ha Hh.
  assert (H : ∀ n, (n = k ∨ n = S k) → <[k := true]> (row n trace) = row (S k) trace); [|by auto].
  intros n Hn. apply list_eq. intros j. unfold row. rewrite !list_lookup_imap.
  destruct (decide (j = k)) as [->|Hne].
  - rewrite list_lookup_insert_eq by (rewrite length_imap; by eapply lookup_lt_Some).
    rewrite Ha. cbn. by rewrite bool_decide_eq_true_2, Hh by lia.
  - rewrite list_lookup_insert_ne, list_lookup_imap by done. destruct (addresses !! j); [|done]. cbn. do 2 f_equal.
    apply bool_decide_ext. lia.
Qed.

Lemma row_skip k trace addr :
  addresses !! k = Some addr → hit trace addr = false → row k trace = row (S k) trace.
Proof.
  intros Ha Hh. apply list_eq. intros j. unfold row. rewrite !list_lookup_imap.
  destruct (addresses !! j) as [a|] eqn:Hj; [|done]. cbn. f_equal.
  destruct (decide (j = k)) as [->|Hne].
  - rewrite Ha in Hj. injection Hj as <-. by rewrite Hh, !andb_false_r.
  - f_equal. apply bool_decide_ext. lia.
Qed.

Lemma mark_trace seed i addr trace d s :
  is_Some (dict_get seed d) →
  dict_get s (fold_left (λ d t, if addr =? t_addr t then mark seed i d else d) trace d)
  = if hit trace addr && bool_decide (s = seed) then (λ r, <[i := true]> r) <$> dict_get s d else dict_get s d.
Proof.
  revert d. induction trace as [|t trace IH]; intros d [r Hr]; [done|]. cbn [fold_left hit existsb].
  destruct (addr =? t_addr t); cbn [orb].
  - assert (Hm : ∀ s, dict_get s (mark seed i d) = if decide (seed = s) then Some (<[i := true]> r) else dict_get s d)
      by (intros s'; unfold mark; by rewrite dict_get_alter, Hr).
    rewrite IH by (rewrite Hm, decide_True by done; by eexists). rewrite !Hm.
    destruct (decide (seed = s)) as [<-|Hne].
    + rewrite Hr, bool_decide_eq_true_2 by done. cbn. destruct (hit trace addr); cbn; [|done]. by rewrite list_insert_insert_eq.
    + rewrite bool_decide_eq_false_2 by congruence. by rewrite andb_false_r.
  - apply IH. by eexists.
Qed.

(** The trace of a seed. *)
Definition trace_of (seed : Z) : list CacheTrace :=
  match cache_trace 0 seed with Ok traces => pick traces | Raise _ => [] end.
Definition row_at (k : nat) (d : list (Z * list bool)) (s : Z) : Prop := dict_get s d = Some (row k (trace_of s)).

Lemma mark_seeds i addr l d :
  addresses !! i = Some addr → (∀ s, s ∈ l → succeeds (cache_trace 0 s) = true) →
  (∀ s, s ∈ l → row_at i d s ∨ row_at (S i) d s) →
  ∃ d', for_each (λ seed d,
          traces ← cache_trace 0 seed;
          Ok (fold_left (λ d t, if addr =? t_addr t then mark seed i d else d) (pick traces) d)) l d = Ok d'
    ∧ (∀ s, s ∈ l → row_at (S i) d' s) ∧ (∀ s, s ∉ l → dict_get s d' = dict_get s d)
    ∧ ∀ s, row_at (S i) d s → row_at (S i) d' s.
Proof.
  intros Ha. revert d. induction l as [|seed l IH]; intros d Hok Hd.
  { exists d. split; [done|]. split; [intros s Hs; by apply elem_of_nil in Hs|done]. }
  destruct (succeeds_Ok _ (Hok seed ltac:(by left))) as [traces Ht].
  cbn [for_each]. rewrite Ht. cbn [mbind result_bind].
  set (d1 := fold_left _ (pick traces) d).
  assert (Htr : trace_of seed = pick traces) by (unfold trace_of; by rewrite Ht).
  assert (Hseed : is_Some (dict_get seed d)) by (destruct (Hd seed ltac:(by left)) as [H|H]; by eexists).
  assert (H1 : row_at (S i) d1 seed).
  { unfold row_at, d1. rewrite mark_trace, bool_decide_eq_true_2, andb_true_r by done. rewrite Htr.
    destruct (Hd seed ltac:(by left)) as [H|H]; unfold row_at in H; rewrite H, Htr;
      destruct (hit (pick traces) addr) eqn:Hh; cbn; try done; f_equal.
    - by apply (row_mark i _ addr).
    - by apply (row_skip i _ addr).
    - by apply (row_mark i _ addr). }
  assert (Hother : ∀ s, s ≠ seed → dict_get s d1 = dict_get s d).
  { intros s Hs. unfold d1. by rewrite mark_trace, bool_decide_eq_false_2, andb_false_r by done. }
  assert (Hkeep : ∀ s, row_at (S i) d s → row_at (S i) d1 s).
  { intros s Hs. destruct (decide (s = seed)) as [->|Hne]; [done|]. unfold row_at. by rewrite Hother. }
  destruct (IH d1) as (d' & H & Hl & Hn & Hk).
  { intros; apply Hok; by right. }
  { intros s Hs. destruct (decide (s = seed)) as [->|Hne]; [by right|].
    unfold row_at. rewrite !Hother by done. apply Hd. by right. }
  exists d'. split; [exact H|]. split; [|split].
  - intros s [->|Hs]%elem_of_cons; [by apply Hk|by apply Hl].
  - intros s [Hne Hs]%not_elem_of_cons. by rewrite Hn, Hother.
  - intros s Hs. by apply Hk, Hkeep.
Qed.

Lemma mark_addresses k l d :
  drop k addresses = l → (∀ s, s ∈ seeds → succeeds (cache_trace 0 s) = true) →
  (∀ s, s ∈ seeds → row_at k d s) →
  ∃ d', for_each (λ '(i, addr) d,
    for_each (λ seed d,
      traces ← cache_trace 0 seed;
      Ok (fold_left (λ d t, if addr =? t_addr t then mark seed i d else d) (pick traces) d)) seeds d)
    (imap (λ j addr, (k + j, addr)%nat) l) d = Ok d' ∧ ∀ s, s ∈ seeds → row_at (k + length l) d' s.
Proof.
  revert k d. induction l as [|addr l IH]; intros k d Hl Hok Hd.
  { exists d. split; [done|]. cbn. by rewrite Nat.add_0_r. }
  assert (Ha : addresses !! k = Some addr).
  { replace k with (k + 0)%nat by lia. rewrite <- lookup_drop, Hl. done. }
  cbn [imap for_each]. rewrite Nat.add_0_r.
  destruct (mark_seeds k addr seeds d Ha Hok) as (d1 & H1 & Hr & _); [auto|].
  rewrite H1. cbn [mbind result_bind].
  destruct (IH (S k) d1) as (d' & H' & Hd'); [|done|done|].
  { rewrite (drop_S _ _ _ Ha) in Hl. by injection Hl. }
  exists d'. split; [|intros s Hs; cbn; rewrite Nat.add_succ_r; by apply Hd'].
  rewrite <- H'. f_equal. apply imap_ext. intros; cbn. f_equal. lia.
Qed.

Lemma empty_rows_get s : s ∈ seeds → row_at 0 (empty_rows seeds addresses) s.
Proof.
  assert (Hrow : ∀ tr, row 0 tr = replicate (length addresses) false).
  { intros tr. unfold row. apply list_eq. intros j. rewrite list_lookup_imap.
    destruct (addresses !! j) as [a|] eqn:E; cbn.
    - symmetry. apply lookup_replicate. split; [done|by eapply lookup_lt_Some].
    - symmetry. apply lookup_replicate_None. by apply lookup_ge_None. }
  unfold row_at. rewrite Hrow. unfold empty_rows.
  assert (∀ l d, (s ∈ l ∨ dict_get s d = Some (replicate (length addresses) false)) →
    dict_get s (fold_left (λ d seed, dict_set seed (replicate (length addresses) false) d) l d)
    = Some (replicate (length addresses) false)) as H; [|intros Hs; apply H; by left].
  induction l as [|x l IH]; intros d Hd; cbn; [destruct Hd as [Hd%elem_of_nil|Hd]; done|].
  apply IH. unfold dict_set. rewrite dict_get_alter. destruct (decide (x = s)); [by right|].
  destruct Hd as [[->|Hd]%elem_of_cons|Hd]; [done|by left|by right].
Qed.

Lemma mark_accesses_spec :
  (∀ s, s ∈ seeds → succeeds (cache_trace 0 s) = true) →
  ∃ d, mark_accesses pick seeds addresses (empty_rows seeds addresses) = Ok d
     ∧ ∀ s, s ∈ seeds → row_at (length addresses) d s.
Proof.
  intros Hok. destruct (mark_addresses 0 addresses (empty_rows seeds addresses)) as (d & H & Hd);
    [done|done|apply empty_rows_get|]. by exists d.
Qed.

Lemma row_lookup k addr trace :
  addresses !! k = Some addr → row (length addresses) trace !! k = Some (bool_decide (addr ∈ map t_addr trace)).
Proof.
  intros Ha. unfold row. rewrite list_lookup_imap, Ha. cbn.
  rewrite bool_decide_eq_true_2 by (by eapply lookup_lt_Some). cbn. f_equal. unfold hit.
  clear. induction trace as [|t trace IH]; cbn; [done|]. rewrite IH.
  destruct (Z.eqb_spec addr (t_addr t)) as [->|Hne]; cbn.
  - rewrite bool_decide_eq_true_2; [done|by left].
  - apply bool_decide_ext. rewrite elem_of_cons. tauto.
Qed.
End marks.

Definition table_of (pick : list CacheTrace * list CacheTrace → list CacheTrace) (seeds : list Z) (tbl : table) : Prop :=
  NoDup (tb_index tbl)
  ∧ (∀ addr, addr ∈ tb_index tbl ↔ ∃ s traces, s ∈ seeds ∧ cache_trace 0 s = Ok traces ∧ addr ∈ map t_addr (pick traces))
  ∧ ∀ s traces, s ∈ seeds → cache_trace 0 s = Ok traces →
      ∃ marks, dict_get s (tb_columns tbl) = Some marks ∧ length marks = length (tb_index tbl)
        ∧ ∀ k addr, tb_index tbl !! k = Some addr → marks !! k = Some (bool_decide (addr ∈ map t_addr (pick traces))).

(** The two tables of accesses are exact: their rows are the addresses some input
    accesses, each once, and the mark of an address and an input says whether the
    input's trace accesses the address.  The tables exist whenever the traces can be
    read. *)
Theorem cache_access_table_exact seeds :
  (∀ l, NoDup (set_order l) ∧ ∀ x, x ∈ set_order l ↔ x ∈ l) →
  (∀ s, s ∈ seeds → succeeds (cache_trace 0 s) = true) →
  ∃ data instr, cache_access_table seeds = Ok (data, instr) ∧ table_of fst seeds data ∧ table_of snd seeds instr.
Proof.
  intros Hset Hok.
  assert (∃ all, mapM (cache_trace 0) seeds = Ok all) as [all Hall].
  { clear Hset. induction seeds as [|s l IH]; [by exists []|].
    destruct (succeeds_Ok _ (Hok s ltac:(by left))) as [tr Htr].
    destruct IH as [all Hall]; [intros; apply Hok; by right|]. exists (tr :: all). cbn. by rewrite Htr, Hall. }
  assert (Htable : ∀ pick, ∃ d,
    let addresses := set_order (all ≫= λ traces, map t_addr (pick traces)) in
    mark_accesses pick seeds addresses (empty_rows seeds addresses) = Ok d ∧ table_of pick seeds (mkTable addresses d)).
  { intros pick. set (addresses := set_order _).
    destruct (mark_accesses_spec pick seeds addresses Hok) as (d & Hd & Hrow). exists d. split; [exact Hd|].
    unfold table_of. cbn [tb_index tb_columns]. split; [apply Hset|]. split.
    - intros addr. unfold addresses. rewrite (proj2 (Hset _)), list_elem_of_bind. split.
      + intros (tr & Ha & Hin). destruct (mapM_elem _ _ _ Hall _ Hin) as (s & Hs & Htr). by exists s, tr.
      + intros (s & tr & Hs & Htr & Ha). exists tr. split; [done|]. by eapply mapM_image.
    - intros s tr Hs Htr. exists (row addresses (length addresses) (pick tr)). split; [|split].
      + specialize (Hrow s Hs). unfold row_at, trace_of in Hrow. by rewrite Htr in Hrow.
      + apply length_imap.
      + intros k addr. apply row_lookup. }
  destruct (Htable fst) as (d & Hd & Htd), (Htable snd) as (i & Hi & Hti). cbn zeta in *.
  eexists _, _. split; [|split; [exact Htd|exact Hti]].
  unfold cache_access_table. rewrite Hall. cbn [mbind result_bind]. rewrite Hd. cbn [mbind result_bind]. by rewrite Hi.
Qed.

(** ** The report names the contract traces that are violated *)

Definition add_htrace (x : list Z) (m : measurement) : list Z :=
  if mem (m_htrace m) x then x else x ++ [m_htrace m].
Definition add_entry (d : list (string * list Z)) (entry : string * list measurement) : list (string * list Z) :=
  fold_left (λ d m, dict_alter [] (λ x, if mem (m_htrace m) x then x else x ++ [m_htrace m]) entry.1 d) entry.2 d.

Lemma add_htraces_spec ms x :
  NoDup x → NoDup (fold_left add_htrace ms x)
  ∧ ∀ h, h ∈ fold_left add_htrace ms x ↔ h ∈ x ∨ ∃ m, m ∈ ms ∧ m_htrace m = h.
Proof.
  revert x. induction ms as [|m ms IH]; intros x Hx; cbn [fold_left].
  { split; [done|]. intros h. split; [by left|]. intros [H|(m & H%elem_of_nil & _)]; done. }
  destruct (IH (add_htrace x m)) as [Hn Hm].
  { unfold add_htrace. destruct (mem (m_htrace m) x) eqn:E; [done|]. apply mem_false in E.
    apply NoDup_app. split; [done|]. split; [|apply NoDup_singleton]. by intros h Hh ->%list_elem_of_singleton. }
  split; [exact Hn|]. intros h. rewrite Hm.
  assert (h ∈ add_htrace x m ↔ h ∈ x ∨ m_htrace m = h) as ->.
  { unfold add_htrace. destruct (mem (m_htrace m) x) eqn:E.
    - apply mem_spec in E. split; [by left|]. by intros [H|<-].
    - rewrite elem_of_app, list_elem_of_singleton. naive_solver. }
  setoid_rewrite elem_of_cons. naive_solver.
Qed.

Lemma add_entry_get c entry d :
  dict_get c (add_entry d entry)
  = if decide (c = entry.1 ∧ entry.2 ≠ []) then Some (fold_left add_htrace entry.2 (default [] (dict_get c d)))
    else dict_get c d.
Proof.
  destruct entry as [k ms]. unfold add_entry. cbn [fst snd]. revert d. induction ms as [|m ms IH]; intros d.
  { cbn. by rewrite decide_False by (by intros []). }
  cbn [fold_left]. rewrite IH, dict_get_alter. destruct (decide (k = c)) as [->|Hne].
  - rewrite (decide_True (P := c = c ∧ m :: ms ≠ [])) by done. destruct (decide _) as [_|Hn]; [done|].
    destruct ms; [done|]. destruct Hn; done.
  - rewrite !decide_False by (intros [-> _]; done). done.
Qed.

Lemma ctrace_to_htrace_get tbl c :
  NoDup tbl.*1 →
  dict_get c (ctrace_to_htrace tbl)
  = match dict_get c tbl with
    | Some (m :: ms) => Some (fold_left add_htrace (m :: ms) [])
    | _ => None
    end.
Proof.
  assert (H : ∀ l d, NoDup l.*1 → (∀ k, k ∈ l.*1 → dict_get k d = None) →
    dict_get c (fold_left add_entry l d)
    = match dict_get c l with Some (m :: ms) => Some (fold_left add_htrace (m :: ms) []) | _ => dict_get c d end).
  { induction l as [|[k ms] l IH]; intros d Hn Hd; [done|]. cbn [fold_left dict_get].
    rewrite fmap_cons in Hn. apply NoDup_cons in Hn as [Hk Hn]. cbn in Hk.
    rewrite IH; [|done|].
    - rewrite add_entry_get. cbn [fst snd]. destruct (decide (k = c)) as [->|Hne].
      + apply dict_get_none in Hk. rewrite Hk, (Hd c) by (by left).
        destruct ms as [|m ms]; [by rewrite decide_False by (by intros [])|]. by rewrite decide_True.
      + rewrite decide_False by (by intros [-> _]). done.
    - intros k' Hk'. rewrite add_entry_get, decide_False; [apply Hd; by right|].
      intros [-> _]. done. }
  intros Hn. transitivity (dict_get c (fold_left add_entry tbl [])); [|by rewrite H].
  f_equal. unfold ctrace_to_htrace. generalize (@nil (string * list Z)).
  clear. induction tbl as [|[k ms] tbl IH]; intros d; [done|]. cbn [fold_left]. apply IH.
Qed.

Lemma ctrace_to_htrace_keys tbl : NoDup (ctrace_to_htrace tbl).*1.
Proof.
  unfold ctrace_to_htrace. generalize (NoDup_nil_2 (A := string)). change (@nil string) with ((@nil (string * list Z)).*1).
  generalize (@nil (string * list Z)). induction tbl as [|[k ms] tbl IH]; intros d Hd; [done|]. cbn [fold_left]. apply IH.
  clear IH. revert d Hd. induction ms as [|m ms IH]; intros d Hd; [done|]. cbn [fold_left]. apply IH.
  by apply dict_alter_NoDup.
Qed.

(** What is printed inside the part of a contract trace names no contract trace. *)
Definition quiet (o : output) : Prop := match o with ViolatingScenario _ => False | _ => True end.

Lemma quiet_parts {A} (f : A → result (list output)) l parts :
  (∀ x p, f x = Ok p → Forall quiet p) → mapM f l = Ok parts → Forall quiet (mjoin parts).
Proof.
  intros Hf H. apply Forall_forall. intros o (p & Ho & Hp)%list_elem_of_join.
  destruct (mapM_elem _ _ _ H _ Hp) as (x & _ & Hx). apply Hf in Hx. rewrite Forall_forall in Hx. by apply Hx.
Qed.

Lemma quiet_map {A} (f : A → result output) l out :
  (∀ x o, f x = Ok o → quiet o) → mapM f l = Ok out → Forall quiet out.
Proof.
  intros Hf H. apply Forall_forall. intros o Ho. destruct (mapM_elem _ _ _ H _ Ho) as (x & _ & Hx). by eapply Hf.
Qed.

Lemma input_report_quiet i p : input_report i = Ok p → Forall quiet p.
Proof.
  unfold input_report. intros H. apply bind_Ok in H as (traces & _ & H). apply bind_Ok in H as (out & Ho & H).
  apply bind_Ok in H as (lines & _ & H). apply bind_Ok in H as (preds & Hp & [= <-]). apply Forall_app. split.
  - destruct (read_texts traces.1) as [|t ts].
    + injection Ho as <-. by repeat constructor.
    + apply bind_Ok in Ho as (ls & Hl & [= <-]). constructor; [done|]. eapply quiet_map; [|exact Hl].
      intros x o Hx. unfold read_instruction in Hx. inv_ok. done.
  - eapply quiet_map; [|exact Hp]. intros x o Hx. apply bind_Ok in Hx as (rest & _ & Hx).
    destruct rest; [done|]. by injection Hx as <-.
Qed.

Lemma htrace_report_quiet g p : htrace_report g = Ok p → Forall quiet p.
Proof.
  unfold htrace_report. intros H. apply bind_Ok in H as (parts & Hp & [= <-]). constructor; [done|].
  eapply quiet_parts; [|exact Hp]. intros; by eapply input_report_quiet.
Qed.

Lemma ctrace_report_names tbl e p c :
  ctrace_report tbl e = Ok p → ViolatingScenario c ∈ p ↔ e.1 = c ∧ (1 < length e.2)%nat.
Proof.
  destruct e as [k hs]. unfold ctrace_report. intros H. cbn [fst snd].
  destruct (Z.ltb_spec 1 (Z.of_nat (length hs))) as [Hl|Hl].
  - apply bind_Ok in H as (ms & _ & H). apply bind_Ok in H as (parts & Hp & [= <-]).
    assert (Hq : Forall quiet (CheckingTraces :: mjoin parts)).
    { constructor; [done|]. eapply quiet_parts; [|exact Hp]. intros; by eapply htrace_report_quiet. }
    rewrite elem_of_cons. split.
    + intros [[= ->]|Hin]; [split; [done|lia]|]. rewrite Forall_forall in Hq. by destruct (Hq _ Hin).
    + intros [-> _]. by left.
  - injection H as <-. split; [intros Hin; by apply elem_of_nil in Hin|lia].
Qed.

Lemma several {A} (l : list A) : NoDup l → (1 < length l)%nat ↔ ∃ x y, x ∈ l ∧ y ∈ l ∧ x ≠ y.
Proof.
  intros Hn. split.
  - destruct l as [|x [|y l]]; cbn; intros H; [lia|lia|]. exists x, y. split; [by left|]. split; [by right; left|].
    apply NoDup_cons in Hn as [Hx _]. intros ->. apply Hx. by left.
  - intros (x & y & Hx & Hy & Hne). destruct l as [|a [|b l]]; cbn; [by apply elem_of_nil in Hx| |lia].
    apply list_elem_of_singleton in Hx, Hy. congruence.
Qed.

(** The report names a contract trace exactly when two of its measurements have
    different hardware traces. *)
Theorem report_names_violations tbl out c :
  NoDup tbl.*1 → report tbl = Ok out →
  ViolatingScenario c ∈ out ↔
    ∃ ms m m', dict_get c tbl = Some ms ∧ m ∈ ms ∧ m' ∈ ms ∧ m_htrace m ≠ m_htrace m'.
Proof.
  intros Hn H. unfold report in H. apply bind_Ok in H as (parts & Hparts & [= <-]).
  assert (Hrep : ViolatingScenario c ∈ mjoin parts ↔
    ∃ hs, dict_get c (ctrace_to_htrace tbl) = Some hs ∧ (1 < length hs)%nat).
  { rewrite list_elem_of_join. split.
    - intros (p & Hc & Hp). destruct (mapM_elem _ _ _ Hparts _ Hp) as ([k hs] & Hin & He).
      apply (ctrace_report_names _ _ _ c) in He. apply He in Hc as [<- Hl]. exists hs. split; [|done].
      by apply dict_get_elem; [apply ctrace_to_htrace_keys|].
    - intros (hs & Hget & Hl). apply dict_get_in in Hget as Hin.
      assert (∃ p, ctrace_report tbl (c, hs) = Ok p ∧ p ∈ parts) as (p & Hp & Hpin).
      { clear -Hparts Hin. revert parts Hparts. induction (ctrace_to_htrace tbl) as [|e l IH]; intros parts H.
        - by apply elem_of_nil in Hin.
        - cbn in H. apply bind_Ok in H as (p & Hp & H). apply bind_Ok in H as (ps & Hps & [= <-]).
          apply elem_of_cons in Hin as [<-|Hin]; [exists p; split; [done|by left]|].
          destruct (IH Hin ps Hps) as (q & Hq & Hqin). exists q. split; [done|by right]. }
      exists p. split; [|done]. apply (ctrace_report_names _ _ _ c Hp). by split. }
  rewrite Hrep, ctrace_to_htrace_get by done. split.
  - intros (hs & Hget & Hl). destruct (dict_get c tbl) as [[|m ms]|]; try done. injection Hget as <-.
    destruct (add_htraces_spec (m :: ms) [] (NoDup_nil_2)) as [Hnd Hm].
    apply several in Hl as (x & y & Hx & Hy & Hne); [|done]. apply Hm in Hx, Hy.
    destruct Hx as [Hx%elem_of_nil|(a & Ha & <-)], Hy as [Hy%elem_of_nil|(b & Hb & <-)]; try done.
    by exists (m :: ms), a, b.
  - intros (ms & a & b & -> & Ha & Hb & Hne). destruct ms as [|m ms]; [by apply elem_of_nil in Ha|].
    eexists. split; [done|]. destruct (add_htraces_spec (m :: ms) [] (NoDup_nil_2)) as [Hnd Hm].
    apply several; [done|]. exists (m_htrace a), (m_htrace b). split; [apply Hm; right; by exists a|].
    split; [apply Hm; right; by exists b|done].
Qed.
End script.

(** ** Two inputs *)

Module TraceDemo2.
Definition decode (fn : string) : result (list string) :=
  Ok (if str_in "dCacheTrace_0_7" fn then ["1,r,4096,8,0,30,64"; "2,w,8192,8,0,10,68"]
      else if str_in "dCacheTrace_0_9" fn then ["1,r,8192,8,0,20,64"] else []).
Definition order (l : list Z) : list Z := remove_dups l.
Definition tbl : list (string * list measurement) :=
  [("c1", [mkMeasurement 7 3; mkMeasurement 9 3]); ("c2", [mkMeasurement 7 5; mkMeasurement 9 4])].
End TraceDemo2.

Example accesses_of_two_inputs :
  cache_access_table TraceDemo2.decode TraceDemo2.order [7; 9]
  = Ok (mkTable [4096; 8192] [(7, [true; true]); (9, [false; true])], mkTable [] [(7, []); (9, [])]).
Proof. vm_compute. reflexivity. Qed.

Example report_of_two_inputs :
  report TraceDemo2.decode (λ _ pc, "mov at " +:+ str pc) (λ _, Ok []) "40" id TraceDemo2.tbl
  = Ok [ViolatingScenario "c2"; CheckingTraces;
        HTraceInputs 4 [9]; InputTraces 9 ["1.20.r.0.8192.8.64"]; InstructionAt 64 "mov at 64";
        HTraceInputs 5 [7]; InputTraces 7 ["1.30.r.0.4096.8.64"]; InstructionAt 64 "mov at 64"].
Proof. vm_compute. reflexivity. Qed.

Lemma cache_access_table_exact_witness :
  ∃ data instr, cache_access_table TraceDemo2.decode TraceDemo2.order [7; 9] = Ok (data, instr)
    ∧ table_of TraceDemo2.decode fst [7; 9] data ∧ table_of TraceDemo2.decode snd [7; 9] instr.
Proof.
  apply (cache_access_table_exact TraceDemo2.decode TraceDemo2.order [7; 9]).
  - intros l. split; [apply NoDup_remove_dups|]. intros x. apply elem_of_remove_dups.
  - intros s Hs. repeat (apply elem_of_cons in Hs as [->|Hs]; [vm_compute; reflexivity|]). by apply elem_of_nil in Hs.
Defined.
