(* ===== verification/EventLog.v ===== *)
(** * The report on a violation

    [src/src/analyse_ipc_violation.py]: the logs gem5 wrote for the two inputs of a
    violation become lists of events, the accesses whose cache line is left in one
    cache only are marked, and the two lists are printed side by side.  Running the
    fuzzer and collecting its files is not modelled; the disassembly is a
    parameter. *)

From S2P Require Import Prelude Text Patterns Util CacheTrace.

Open Scope Z_scope.

(** ** Patterns *)

(** [^([0-9]+):.*] and the pieces, on every line. *)
Definition match_line (ps : list piece) (line : string) : option (list string) :=
  '(tick, rest) ← match_pieces [PDec; PLit ":"] line;
  gs ← match_last ps rest;
  Some (tick ++ gs).
Definition find_lines (ps : list piece) (log : string) : list (list string) :=
  omap (match_line ps) (split newline log).

Definition access_pieces (what : string) : list piece :=
  [PLit (what +:+ " - PC "); PAddr; PLit ", SQ: [sn:"; PDec; PLit "], Paddr "; PAddr; PLit ", Vaddr "; PAddr].
Definition load_pieces : list piece := access_pieces "Attempting load request".
Definition store_pieces : list piece := access_pieces "Store request".
Definition squash_pieces : list piece :=
  [PLit "LSQUnit - Squashed "; PKind; PLit ": PC "; PAddr; PLit ", SQ: [sn:"; PDec; PLit "], Paddr "; PAddr;
   PLit ", Vaddr "; PAddr].
Definition data_pieces : list piece :=
  [PLit "analyse_ipc_violation"; PAny; PLit "py: info for sn="; PDec; PLit ": data="; PHex].
Definition dependence_pieces : list piece :=
  [PLit "Detected fault with inst [sn:"; PDec; PLit "] and [sn:"; PDec; PLit "] at address "; PAddr].
Definition mispredicted_pieces : list piece :=
  [PLit "analyse_ipc_violation: Mispredicted branch at PC "; PAddr].
Definition prediction_pieces : list piece :=
  [PLit "analyse_ipc_violation: predicting branch at "; PAddr; PLit " to go to "; PAddr].

(** ** Events *)

Record Access := mkAccess {
  a_store : bool; a_tick : Z; a_pc : Z; a_seq : Z; a_paddr : Z; a_vaddr : Z;
  a_data : string; a_violation : bool; a_squashed : option Z }.

Inductive Event :=
  | EAccess (a : Access)
  | ESquashMemoryDependence (tick pc pc_other addr : Z)
  | ESquashBranch (tick pc : Z)
  | EBranchPrediction (tick pc target : Z).

Definition e_tick (e : Event) : Z :=
  match e with
  | EAccess a => a_tick a
  | ESquashMemoryDependence t _ _ _ | ESquashBranch t _ | EBranchPrediction t _ _ => t
  end.
Definition e_pc (e : Event) : Z :=
  match e with
  | EAccess a => a_pc a
  | ESquashMemoryDependence _ p _ _ | ESquashBranch _ p | EBranchPrediction _ p _ => p
  end.

Definition set_squashed (tick : Z) (a : Access) : Access :=
  mkAccess (a_store a) (a_tick a) (a_pc a) (a_seq a) (a_paddr a) (a_vaddr a) (a_data a) (a_violation a) (Some tick).
Definition set_data (data : string) (a : Access) : Access :=
  mkAccess (a_store a) (a_tick a) (a_pc a) (a_seq a) (a_paddr a) (a_vaddr a) data (a_violation a) (a_squashed a).
Definition set_violation (a : Access) : Access :=
  mkAccess (a_store a) (a_tick a) (a_pc a) (a_seq a) (a_paddr a) (a_vaddr a) (a_data a) true (a_squashed a).

(** [int(x, 0)]: hexadecimal after [0x], else decimal without a leading zero. *)
Definition int0 (s : string) : result Z :=
  if String.prefix "0x" s then Ok (int16 s)
  else n ← py_int s;
       if String.prefix "0" s && negb (n =? 0) then Raise ValueError else Ok n.

(** The groups of a match, by position. *)
Definition group (k : nat) (gs : list string) : string := nth k gs "".

(** [accesses[seq_num] = access]; only the stores read the number with base 0. *)
Definition add_access (is_store : bool) (gs : list string) (accesses : list (Z * Access))
    : result (list (Z * Access)) :=
  tick ← py_int (group 0 gs);
  pc ← int0 (group 1 gs);
  seq_num ← (if is_store then int0 (group 2 gs) else py_int (group 2 gs));
  paddr ← int0 (group 3 gs);
  vaddr ← int0 (group 4 gs);
  Ok (dict_set seq_num (mkAccess is_store tick pc seq_num paddr vaddr "" false None) accesses).

(** A squash of an access that is not in the log is only reported. *)
Definition add_squash (gs : list string) (accesses : list (Z * Access)) : result (list (Z * Access)) :=
  _ ← int0 (group 2 gs);
  seq_num ← int0 (group 3 gs);
  _ ← int0 (group 4 gs);
  _ ← int0 (group 5 gs);
  match dict_get seq_num accesses with
  | None => Ok accesses
  | Some access => tick ← py_int (group 0 gs); Ok (dict_set seq_num (set_squashed tick access) accesses)
  end.

Definition add_data (gs : list string) (accesses : list (Z * Access)) : result (list (Z * Access)) :=
  seq_num ← py_int (group 0 gs);
  Ok (match dict_get seq_num accesses with
      | Some access => dict_set seq_num (set_data (group 1 gs) access) accesses
      | None => accesses
      end).

Definition dependence_event (accesses : list (Z * Access)) (gs : list string) : result (option Event) :=
  tick ← py_int (group 0 gs);
  sn1 ← py_int (group 1 gs);
  sn2 ← py_int (group 2 gs);
  addr ← int0 (group 3 gs);
  Ok (match dict_get sn1 accesses, dict_get sn2 accesses with
      | Some a1, Some a2 => Some (ESquashMemoryDependence tick (a_pc a2) (a_pc a1) addr)
      | _, _ => None
      end).
Definition branch_event (gs : list string) : result Event :=
  tick ← py_int (group 0 gs); pc ← int0 (group 1 gs); Ok (ESquashBranch tick pc).
Definition prediction_event (gs : list string) : result Event :=
  tick ← py_int (group 0 gs); pc ← int0 (group 1 gs); target ← int0 (group 2 gs);
  Ok (EBranchPrediction tick pc target).

(** [sorted(events, key=lambda event: event.tick)]: stable. *)
Fixpoint insert_event (e : Event) (l : list Event) : list Event :=
  match l with
  | [] => [e]
  | e' :: l' => if e_tick e <=? e_tick e' then e :: l else e' :: insert_event e l'
  end.
Definition sort_events : list Event → list Event := foldr insert_event [].

Definition parse_events (branch_predictions : bool) (log : string) : result (list Event) :=
  accesses ← for_each (add_access false) (find_lines load_pieces log) [];
  accesses ← for_each (add_access true) (find_lines store_pieces log) accesses;
  accesses ← for_each add_squash (find_lines squash_pieces log) accesses;
  accesses ← for_each add_data (find_all data_pieces log) accesses;
  dependences ← mapM (dependence_event accesses) (find_lines dependence_pieces log);
  branches ← mapM branch_event (find_lines mispredicted_pieces log);
  predictions ← (if branch_predictions then mapM prediction_event (find_lines prediction_pieces log) else Ok []);
  Ok (sort_events (map EAccess accesses.*2 ++ omap id dependences ++ branches ++ predictions)).

(** ** The tags and the marks *)

(** The line addresses left in the data cache. *)
Definition tags_of (data : toml) : result (list Z) :=
  system ← toml_get data "system";
  if toml_has system ["ruby"] then int_list system ["ruby"; "l1_cntrl0"; "L1Dcache"; "addresses"]
  else int_list system ["cpu"; "dcache"; "addresses"].

Definition code_addr : Z := 0x402000.
Definition code_size : Z := 512.
Definition in_orchestration_code (pc : Z) : bool := negb ((code_addr <=? pc) && (pc <? code_addr + code_size)).

Definition cache_line_size : Z := 64.
Definition line_of (paddr : Z) : Z := Z.land paddr (Z.lnot (cache_line_size - 1)).

(** What is printed for a tag that one run left and the other did not. *)
Inductive report :=
  | TagInOrchestration (tag : Z)
  | NonSpeculative (tag tick : Z)
  | NoAccess (tag : Z).

(** The tick 0 counts as no squash. *)
Definition squashed (a : Access) : bool :=
  match a_squashed a with Some t => negb (t =? 0) | None => false end.

Definition on_tag (tag : Z) (e : Event) : bool :=
  match e with EAccess a => line_of (a_paddr a) =? tag | _ => false end.
Definition mark_event (tag : Z) (e : Event) : Event :=
  match e with
  | EAccess a => if line_of (a_paddr a) =? tag then EAccess (set_violation a) else e
  | _ => e
  end.
Definition report_event (tag : Z) (e : Event) : list report :=
  match e with
  | EAccess a =>
      if line_of (a_paddr a) =? tag then
        if in_orchestration_code (a_pc a) then [TagInOrchestration tag]
        else if squashed a then [] else [NonSpeculative tag (a_tick a)]
      else []
  | _ => []
  end.

(** The loop over the tags of one run, in the order the set lists them. *)
Definition mark_tag (not_found : list Z) (st : list Event * list report) (tag : Z) : list Event * list report :=
  if mem tag not_found then st
  else (map (mark_event tag) st.1,
        st.2 ++ (st.1 ≫= report_event tag) ++ if existsb (on_tag tag) st.1 then [] else [NoAccess tag]).
Definition mark_tags (found not_found : list Z) (events : list Event) : list Event * list report :=
  fold_left (mark_tag not_found) found (events, []).

(** ** The two columns *)

(** What a row shows: the program counter and the event of either run. *)
Definition row : Type := Z * option Event * option Event.

Fixpoint merge_rows (fuel : nat) (refs primers : list Event) : list row :=
  match fuel with
  | O => []
  | S fuel =>
      match refs, primers with
      | [], [] => []
      | [], p :: ps => (e_pc p, None, Some p) :: merge_rows fuel [] ps
      | r :: rs, [] => (e_pc r, Some r, None) :: merge_rows fuel rs []
      | r :: rs, p :: ps =>
          if e_pc r <? e_pc p then (e_pc r, Some r, None) :: merge_rows fuel rs primers
          else if e_pc p <? e_pc r then (e_pc p, None, Some p) :: merge_rows fuel refs ps
          else (e_pc p, Some r, Some p) :: merge_rows fuel rs ps
      end
  end.
Definition event_rows (refs primers : list Event) : list row :=
  let test_case := List.filter (λ e, negb (in_orchestration_code (e_pc e))) in
  merge_rows (length refs + length primers) (test_case refs) (test_case primers).

(** *** Texts *)

Section printing.
(** [--no-color], and what objdump printed. *)
Context (no_color : bool) (disassembly : string).

Definition escape : ascii := "027"%char.
Definition ansi (x : string) : string :=
  if no_color then "" else String escape ("[" +:+ x +:+ "m").
Definition highlight : string := ansi "1" +:+ ansi "93".
Definition VIOLATION_FMT_START : string := ansi "91" +:+ ansi "1".
Definition VIOLATION_FMT_END : string := "*" +:+ ansi "0".

Fixpoint spaces (n : nat) : string := match n with O => "" | S n => String " " (spaces n) end.
(** [{x:n}] of a text and of a number. *)
Definition fmt_left (n : nat) (s : string) : string := s +:+ spaces (n - String.length s).
Definition fmt_right (n : nat) (s : string) : string := spaces (n - String.length s) +:+ s.

(** [Access.description]: the tick is compared with any event, the other fields with an
    access, and asking another kind of event for them raises. *)
Definition access_description (a : Access) (compare_vs : option Event) : result string :=
  let kind := if a_store a then "Store" else "Load " in
  let has_data := negb (a_data a =? "")%string in
  '(addr_start, addr_end) ←
    (if a_violation a then Ok (VIOLATION_FMT_START, VIOLATION_FMT_END)
     else match compare_vs with
          | None => Ok ("", "")
          | Some (EAccess b) => Ok (if a_vaddr a =? a_vaddr b then ("", "") else (highlight, ""))
          | Some _ => Raise AttributeError
          end);
  let tick_start := match compare_vs with
    | Some e => if a_tick a =? e_tick e then "" else highlight
    | None => "" end in
  data ←
    (if has_data then
       data_start ← match compare_vs with
         | None => Ok ""
         | Some (EAccess b) =>
             Ok (if negb (a_data b =? "")%string && negb (a_data a =? a_data b)%string then highlight else "")
         | Some _ => Raise AttributeError
         end;
       Ok (newline +:+ data_start +:+ "data = " +:+ fmt_left 16 (a_data a) +:+ ansi "0")
     else Ok "");
  Ok (fmt_left 6 kind +:+ " @" +:+ tick_start +:+ fmt_right 9 (str (a_tick a)) +:+ ansi "0" +:+ " "
      +:+ addr_start +:+ "addr = " +:+ hex (a_vaddr a) +:+ addr_end +:+ ansi "0" +:+ data
      +:+ match a_squashed a with
          | Some t => (if has_data then "" else newline) +:+ "  " +:+ ansi "96" +:+ "SQUASHED @" +:+ str t +:+ ansi "0"
          | None => "" end).

Definition description (e : Event) (compare_vs : option Event) : result string :=
  match e with
  | EAccess a => access_description a compare_vs
  | ESquashMemoryDependence t p po addr =>
      Ok (ansi "96" +:+ ansi "1" +:+ "SQUASH @" +:+ fmt_right 9 (str t) +:+ ansi "0" +:+ " "
          +:+ "Memory dependence mispredicted" +:+ newline
          +:+ "                   with " +:+ hex po +:+ " at addr " +:+ hex addr)
  | ESquashBranch t p =>
      Ok (ansi "96" +:+ ansi "1" +:+ "SQUASH @" +:+ fmt_right 9 (str t) +:+ ansi "0" +:+ " " +:+ "Branch mispredicted!")
  | EBranchPrediction t p target =>
      '(b, e) ← match compare_vs with
        | None => Ok ("", "")
        | Some (EBranchPrediction _ _ target') => Ok (if target =? target' then ("", "") else (highlight, ansi "0"))
        | Some _ => Raise AttributeError end;
      Ok ("Predicting branch to have target " +:+ b +:+ hex target +:+ e)
  end.

Definition ORCHESTRATION_CODE : string := "<in orchestration code>".
Definition MID_INSTRUCTION : string := "<mid-instruction byte>".

(** The greedy repetition of a class, with backtracking: the length of the match. *)
Fixpoint star (p : ascii → bool) (k : string → option nat) (s : string) : option nat :=
  match s with
  | String c s' =>
      if p c then match star p k s' with Some n => Some (S n) | None => k s end else k s
  | EmptyString => k s
  end.
(** [^\s*\d*\s*{pc:x}:.*$], from the start of a line. *)
Definition match_pc (pc : Z) : string → option nat :=
  let address := str_drop 2 (hex pc) +:+ ":" in
  star is_space (star is_dec (star is_space (λ s,
    rest ← match_lit address s;
    Some (String.length address + String.length (span (λ c, negb (Ascii.eqb c "010")) rest).1)%nat))).
Fixpoint find_pc (fuel : nat) (pc : Z) (line_start : bool) (s : string) : list string :=
  match fuel, s with
  | S fuel, String c s' =>
      match (if line_start then match_pc pc s else None) with
      | Some n => str_take n s :: find_pc fuel pc false (str_drop n s)
      | None => find_pc fuel pc (Ascii.eqb c "010") s'
      end
  | _, _ => []
  end.
Definition pc_matches (pc : Z) : list string := find_pc (String.length disassembly) pc true disassembly.

(** The warning on several matches names a variable that does not exist. *)
Definition pc_to_line (pc : Z) : result string :=
  if in_orchestration_code pc then Ok ORCHESTRATION_CODE
  else match pc_matches pc with
       | [] => Ok MID_INSTRUCTION
       | [line] => Ok line
       | _ => Raise NameError
       end.

(** ** [TwoColumnOutput] *)

(** What was printed, and the lines of one side that wait for the other. *)
Record columns := mkColumns { c_lines : list string; c_right_side : bool; c_printed : list string }.

(** The length without escape sequences; an unfinished one counts. *)
Fixpoint skip_escape (s : string) : option string :=
  match s with
  | String c s => if Ascii.eqb c "m" then Some s else skip_escape s
  | EmptyString => None
  end.
Fixpoint visible_fuel (fuel : nat) (s : string) : nat :=
  match fuel, s with
  | S fuel, String c s =>
      match s with
      | String d s' =>
          if Ascii.eqb c escape && Ascii.eqb d "[" then
            match skip_escape s' with Some rest => visible_fuel fuel rest | None => S (visible_fuel fuel s) end
          else S (visible_fuel fuel s)
      | EmptyString => 1%nat
      end
  | _, _ => 0%nat
  end.
Definition visible_length (s : string) : nat := visible_fuel (String.length s) s.

Definition column_size : nat := 50.
Definition pad (text : string) : string := text +:+ spaces (column_size - visible_length text).

Definition print_line (text : string) (c : columns) : columns :=
  mkColumns (c_lines c) (c_right_side c) (c_printed c ++ [text]).
Definition put_left (c : columns) (text : string) : columns :=
  let text := pad text in
  match c_lines c, c_right_side c with
  | other :: lines, true => print_line (text +:+ "| " +:+ other) (mkColumns lines true (c_printed c))
  | lines, _ => mkColumns (lines ++ [text]) false (c_printed c)
  end.
Definition put_right (c : columns) (text : string) : columns :=
  let text := pad text in
  match c_lines c, c_right_side c with
  | other :: lines, false => print_line (other +:+ "| " +:+ text) (mkColumns lines false (c_printed c))
  | lines, _ => mkColumns (lines ++ [text]) true (c_printed c)
  end.
Definition print_left (text : string) (c : columns) : columns := fold_left put_left (split newline text) c.
Definition print_right (text : string) (c : columns) : columns := fold_left put_right (split newline text) c.
Definition flush (c : columns) : columns :=
  mkColumns [] (c_right_side c)
    (c_printed c ++ map (λ line, if c_right_side c then pad "" +:+ "| " +:+ line else pad line +:+ "|") (c_lines c)).
Definition hline (c : columns) : columns :=
  print_line (str_join "" (replicate (column_size * 2 + 2) "-")) (flush c).

(** One turn of the printing loop. *)
Definition print_row (r : row) (c : columns) : result columns :=
  let '(pc, ref, primer) := r in
  line ← pc_to_line pc;
  let c := print_line line c in
  c ← match ref with Some e => d ← description e primer; Ok (print_left d c) | None => Ok c end;
  c ← match primer with Some e => d ← description e ref; Ok (print_right d c) | None => Ok c end;
  Ok (hline (flush c)).

Definition print_events (refs primers : list Event) : result (list string) :=
  let c := hline (mkColumns [] false []) in
  let c := hline (print_right "Primer" (print_left "Reference" c)) in
  c ← for_each print_row (event_rows refs primers) c;
  Ok (c_printed (print_line (VIOLATION_FMT_START +:+ "address" +:+ VIOLATION_FMT_END
                             +:+ " = tag present in one run but not the other") (print_line "" c))).
End printing.

(** ** The files of the two runs *)

(** [cache_tags] and [logs], by run; [toml.load] is a parameter. *)
Record collected := mkCollected { k_tags : list (string * list Z); k_logs : list (string * string) }.

Section files.
Context (toml_load : string → result toml).

Definition add_tags (prefix contents : string) (c : collected) : result collected :=
  data ← toml_load contents;
  _ ← assert_ (negb (mem prefix (k_tags c).*1)) AssertionError;
  tags ← tags_of data;
  Ok (mkCollected (dict_set prefix tags (k_tags c)) (k_logs c)).
Definition add_log (prefix contents : string) (c : collected) : result collected :=
  _ ← assert_ (negb (mem prefix (k_logs c).*1)) AssertionError;
  Ok (mkCollected (k_tags c) (dict_set prefix contents (k_logs c))).

(** The name up to its last dot. *)
Fixpoint before_last_dot (s : string) : option string :=
  match s with
  | EmptyString => None
  | String c s' =>
      match before_last_dot s' with
      | Some stem => Some (String c stem)
      | None => if Ascii.eqb c "." then Some "" else None
      end
  end.
Definition is_last_input (last_input : Z) (filename : string) : bool :=
  endswith ("_" +:+ str last_input) (default filename (before_last_dot filename)).
Definition tags_file (filename : string) : bool := startswith "cache_tags_" filename && endswith ".toml" filename.
Definition log_file (filename : string) : bool := startswith "log_" filename && endswith ".out" filename.

(** One file of the debug directory: what is collected, and the files written. *)
Definition copy_one_file (find_violation : bool) (last_input : Z) (prefix : string) (f : string * string)
    (st : collected * list (string * string)) : result (collected * list (string * string)) :=
  let '(filename, contents) := f in
  let '(c, written) := st in
  if is_last_input last_input filename then
    c ← (if find_violation && tags_file filename then add_tags prefix contents c else Ok c);
    c ← (if find_violation && log_file filename then add_log prefix contents c else Ok c);
    Ok (c, dict_set (prefix +:+ "_" +:+ filename) contents written)
  else Ok st.
Definition copy_debug_files (find_violation : bool) (last_input : Z) (prefix : string)
    (debug_dir : list (string * string)) : collected * list (string * string) →
    result (collected * list (string * string)) :=
  for_each (copy_one_file find_violation last_input prefix) debug_dir.

Definition upload_file (prefix : string) (f : string * string) (c : collected) : result collected :=
  let '(filename, contents) := f in
  c ← (if startswith (prefix +:+ "_cache_tags_") filename && endswith ".toml" filename
       then add_tags prefix contents c else Ok c);
  if startswith (prefix +:+ "_log_") filename && endswith ".out" filename then add_log prefix contents c else Ok c.
Definition upload_existing_analysis (prefix : string) (analysis_dir : list (string * string)) :
    collected → result collected := for_each (upload_file prefix) analysis_dir.
End files.

(** [main], from what was collected to the printed report: the reports on the tags of each
    run, then the table. *)
Definition analyse (no_color : bool) (disassembly : string) (branch_predictions : bool)
    (set_order : list Z → list Z) (c : collected) : result (list report * list string) :=
  let found {A} (name : string) (d : list (string * A)) : result A := from_option AssertionError (dict_get name d) in
  tags_ref ← found "reference" (k_tags c);
  tags_primer ← found "primer" (k_tags c);
  log_ref ← found "reference" (k_logs c);
  log_primer ← found "primer" (k_logs c);
  events_ref ← parse_events branch_predictions log_ref;
  events_primer ← parse_events branch_predictions log_primer;
  let '(events_ref, reports1) := mark_tags (set_order tags_ref) tags_primer events_ref in
  let '(events_primer, reports2) := mark_tags (set_order tags_primer) tags_ref events_primer in
  table ← print_events no_color disassembly events_ref events_primer;
  Ok (reports1 ++ reports2, table).

(** ** Facts *)

(** *** The lists of events are merged without loss *)

Definition ref_event (r : row) : option Event := r.1.2.
Definition primer_event (r : row) : option Event := r.2.
Definition row_ok (r : row) : Prop :=
  match r with
  | (pc, Some e, None) | (pc, None, Some e) => e_pc e = pc
  | (pc, Some e, Some e') => e_pc e = pc ∧ e_pc e' = pc
  | (_, None, None) => False
  end.

Lemma merge_rows_spec fuel refs primers :
  (length refs + length primers ≤ fuel)%nat →
  omap ref_event (merge_rows fuel refs primers) = refs ∧
  omap primer_event (merge_rows fuel refs primers) = primers ∧
  Forall row_ok (merge_rows fuel refs primers).
Proof.
  revert refs primers. induction fuel as [|fuel IH]; intros [|r rs] [|p ps] Hf; cbn in Hf; try lia; try done.
  - destruct (IH [] ps) as (H1 & H2 & H3); [cbn; lia|]. cbn [merge_rows omap list_omap]. cbn. rewrite H1, H2.
    by split_and!; [..|constructor].
  - destruct (IH rs []) as (H1 & H2 & H3); [cbn; lia|]. cbn. rewrite H1, H2. by split_and!; [..|constructor].
  - cbn [merge_rows]. destruct (Z.ltb_spec (e_pc r) (e_pc p)); [|destruct (Z.ltb_spec (e_pc p) (e_pc r))].
    + destruct (IH rs (p :: ps)) as (H1 & H2 & H3); [cbn; lia|]. cbn. rewrite H1, H2. by split_and!; [..|constructor].
    + destruct (IH (r :: rs) ps) as (H1 & H2 & H3); [cbn; lia|]. cbn. rewrite H1, H2. by split_and!; [..|constructor].
    + destruct (IH rs ps) as (H1 & H2 & H3); [lia|]. cbn. rewrite H1, H2.
      split_and!; [done|done|]. constructor; [|done]. split; [lia|done].
Qed.

(** *** Sorting *)

Lemma insert_event_perm e l : insert_event e l ≡ₚ e :: l.
Proof.
  induction l as [|e' l IH]; cbn; [done|]. destruct (_ <=? _); [done|]. rewrite IH. apply Permutation_swap.
Qed.
Lemma sort_events_perm l : sort_events l ≡ₚ l.
Proof. induction l as [|e l IH]; cbn; [done|]. by rewrite insert_event_perm, IH. Qed.

Definition tick_le (e e' : Event) : Prop := e_tick e ≤ e_tick e'.

Lemma insert_event_sorted e l : Sorted tick_le l → Sorted tick_le (insert_event e l).
Proof.
  induction 1 as [|e' l Hl IH Hhd]; cbn; [by repeat constructor|].
  destruct (Z.leb_spec (e_tick e) (e_tick e')) as [Hle|Hlt].
  - by repeat constructor.
  - constructor; [done|]. destruct l as [|e2 l]; cbn.
    + constructor. unfold tick_le. lia.
    + inversion Hhd; subst. destruct (_ <=? _); constructor; [unfold tick_le; lia|done].
Qed.
Lemma sort_events_sorted l : Sorted tick_le (sort_events l).
Proof. induction l as [|e l IH]; [constructor|]. by apply insert_event_sorted. Qed.

(** *** Marking *)

Lemma on_tag_mark tag tag' e : on_tag tag (mark_event tag' e) = on_tag tag e.
Proof. destruct e as [a| | |]; [|done..]. cbn. by destruct (_ =? tag'). Qed.

(** What the marks amount to. *)
Definition marked (tags : list Z) (e : Event) : Event :=
  match e with
  | EAccess a => if mem (line_of (a_paddr a)) tags then EAccess (set_violation a) else e
  | _ => e
  end.

Lemma marked_cons tag tags e : marked tags (mark_event tag e) = marked (tag :: tags) e.
Proof.
  destruct e as [a| | |]; [|done..]. cbn. destruct (Z.eqb_spec (line_of (a_paddr a)) tag) as [E|E]; cbn.
  - replace (mem (line_of (a_paddr a)) (tag :: tags)) with true by (symmetry; apply mem_spec; rewrite E; by left).
    by destruct (mem _ _).
  - replace (mem (line_of (a_paddr a)) (tag :: tags)) with (mem (line_of (a_paddr a)) tags); [done|].
    unfold mem. apply bool_decide_ext. rewrite elem_of_cons. naive_solver.
Qed.

Lemma mark_tags_events_from found not_found events reps :
  (fold_left (mark_tag not_found) found (events, reps)).1 =
  map (marked (List.filter (λ tag, negb (mem tag not_found)) found)) events.
Proof.
  revert events reps. induction found as [|tag found IH]; intros events reps; cbn [fold_left List.filter].
  - cbn. rewrite <- (map_id events) at 1. apply map_ext. by intros [].
  - unfold mark_tag at 2. cbn [fst snd]. destruct (mem tag not_found); cbn [negb]; rewrite IH; [done|].
    rewrite map_map. apply map_ext. intros e. apply marked_cons.
Qed.

Lemma mark_tags_events found not_found events :
  (mark_tags found not_found events).1 =
  map (marked (List.filter (λ tag, negb (mem tag not_found)) found)) events.
Proof. apply mark_tags_events_from. Qed.

(** A tag is reported as not accessed exactly when it is in this run only and no access
    of the run touches its line. *)
Lemma report_event_access tag tag' e : NoAccess tag ∉ report_event tag' e.
Proof. destruct e as [a| | |]; cbn; repeat case_match; set_solver. Qed.
Lemma existsb_mark tag tag' events : existsb (on_tag tag) (map (mark_event tag') events) = existsb (on_tag tag) events.
Proof. induction events as [|e events IH]; cbn; [done|]. by rewrite on_tag_mark, IH. Qed.

Lemma no_access_from tag found not_found events reps :
  NoAccess tag ∈ (fold_left (mark_tag not_found) found (events, reps)).2 ↔
  NoAccess tag ∈ reps ∨ (tag ∈ found ∧ tag ∉ not_found ∧ existsb (on_tag tag) events = false).
Proof.
  revert events reps. induction found as [|tag' found IH]; intros events reps; cbn [fold_left].
  - cbn. set_solver.
  - unfold mark_tag at 2. cbn [fst snd]. destruct (mem tag' not_found) eqn:Hm.
    + rewrite IH. apply mem_spec in Hm. set_solver.
    + assert (Hm' : tag' ∉ not_found) by (intros H; apply mem_spec in H; congruence).
      rewrite IH, existsb_mark, !elem_of_app, list_elem_of_bind, elem_of_cons.
      assert (Hno : ¬ ∃ y, NoAccess tag ∈ report_event tag' y ∧ y ∈ events)
        by (intros (e & He & _); by apply report_event_access in He).
      assert (Hif : NoAccess tag ∈ (if existsb (on_tag tag') events then [] else [NoAccess tag']) ↔
                    tag = tag' ∧ existsb (on_tag tag') events = false)
        by (destruct (existsb (on_tag tag') events); set_solver).
      rewrite Hif. clear Hif Hm IH. split.
      * intros [[?|[?|[-> ?]]]|(? & ? & ?)]; [by left|done|by right; auto|by right; auto].
      * intros [?|([->|?] & ? & ?)]; auto 6.
Qed.
Lemma no_access_reported tag found not_found events :
  NoAccess tag ∈ (mark_tags found not_found events).2 ↔
  tag ∈ found ∧ tag ∉ not_found ∧ existsb (on_tag tag) events = false.
Proof. unfold mark_tags. rewrite no_access_from. set_solver. Qed.

(** *** The table *)

Definition in_test_case (e : Event) : bool := negb (in_orchestration_code (e_pc e)).

Lemma e_pc_marked tags e : e_pc (marked tags e) = e_pc e.
Proof. destruct e as [a| | |]; cbn; [|done..]. by destruct (mem _ _). Qed.
Lemma e_tick_marked tags e : e_tick (marked tags e) = e_tick e.
Proof. destruct e as [a| | |]; cbn; [|done..]. by destruct (mem _ _). Qed.

Lemma filter_marked tags l :
  List.filter in_test_case (map (marked tags) l) = map (marked tags) (List.filter in_test_case l).
Proof.
  assert (Hin : ∀ e, in_test_case (marked tags e) = in_test_case e)
    by (intros e; unfold in_test_case; by rewrite e_pc_marked).
  induction l as [|e l IH]; cbn; [done|]. rewrite Hin, IH. by destruct (in_test_case e).
Qed.

#[global] Instance tick_le_trans : Transitive tick_le.
Proof. intros e1 e2 e3. unfold tick_le. lia. Qed.

Lemma filter_sorted p l : Sorted tick_le l → Sorted tick_le (List.filter p l).
Proof.
  intros H. apply StronglySorted_Sorted. apply Sorted_StronglySorted in H; [|apply _].
  induction H as [|e l _ IH Hall]; cbn; [constructor|]. destruct (p e); [|done].
  constructor; [done|]. rewrite Forall_forall in *. intros x Hx. apply Hall.
  rewrite list_elem_of_In in *. by apply List.filter_In in Hx as [? _].
Qed.
Lemma map_marked_sorted tags l : Sorted tick_le l → Sorted tick_le (map (marked tags) l).
Proof.
  induction 1 as [|e l _ IH Hhd]; cbn; constructor; [done|].
  destruct Hhd; cbn; constructor. unfold tick_le in *. by rewrite !e_tick_marked.
Qed.

Lemma parse_events_sorted bp log events : parse_events bp log = Ok events → Sorted tick_le events.
Proof.
  unfold parse_events. intros H. repeat (apply bind_Ok in H as (? & _ & H)).
  injection H as <-. apply sort_events_sorted.
Qed.

Lemma event_rows_spec refs primers :
  omap ref_event (event_rows refs primers) = List.filter in_test_case refs ∧
  omap primer_event (event_rows refs primers) = List.filter in_test_case primers ∧
  Forall row_ok (event_rows refs primers).
Proof.
  apply merge_rows_spec. fold in_test_case.
  pose proof (List.filter_length_le in_test_case refs). pose proof (List.filter_length_le in_test_case primers). lia.
Qed.

(** What a column shows of one run: the events in the test case, an access marked when
    its line was left in this run's cache only. *)
Definition column (tags others : list Z) (events : list Event) : list Event :=
  map (marked (List.filter (λ tag, negb (mem tag others)) tags)) (List.filter in_test_case events).

(** *** The table is printed when the events of a row can be compared *)

(** An access asks for the address of the other event unless it is marked, and for its data
    when it has data itself; a prediction asks for the target. *)
Definition comparable (e : Event) (compare_vs : option Event) : bool :=
  match e, compare_vs with
  | _, None | EAccess _, Some (EAccess _) | EBranchPrediction _ _ _, Some (EBranchPrediction _ _ _) => true
  | EAccess a, Some _ => a_violation a && (a_data a =? "")%string
  | EBranchPrediction _ _ _, Some _ => false
  | _, _ => true
  end.

Definition row_comparable (r : row) : bool :=
  let '(_, ref, primer) := r in
  match ref with Some e => comparable e primer | None => true end &&
  match primer with Some e => comparable e ref | None => true end.

Lemma description_result no_color e compare_vs :
  if comparable e compare_vs then ∃ d, description no_color e compare_vs = Ok d
  else description no_color e compare_vs = Raise AttributeError.
Proof.
  destruct e as [a| | |]; try by (destruct compare_vs; eexists).
  - destruct compare_vs as [[b| | |]|]; cbn [comparable]; unfold description, access_description;
      destruct (a_violation a), (a_data a =? "")%string; cbn; repeat case_match; try done; by eexists.
  - destruct compare_vs as [[]|]; cbn; repeat case_match; try done; by eexists.
Qed.

(** What ends the report at a row: a program counter of the test case that starts two lines
    of the disassembly, whose warning has no text, or events that cannot be compared. *)
Definition row_error (disassembly : string) (r : row) : option exn :=
  if negb (in_orchestration_code r.1.1) && (1 <? length (pc_matches disassembly r.1.1))%nat then Some NameError
  else if row_comparable r then None else Some AttributeError.
(** The first row that ends it. *)
Fixpoint first_error (disassembly : string) (rows : list row) : option exn :=
  match rows with
  | [] => None
  | r :: rows => match row_error disassembly r with Some e => Some e | None => first_error disassembly rows end
  end.

(** The line above a row. *)
Definition line_above (disassembly : string) (pc : Z) : string :=
  if in_orchestration_code pc then ORCHESTRATION_CODE else hd MID_INSTRUCTION (pc_matches disassembly pc).

Lemma pc_to_line_result disassembly pc :
  pc_to_line disassembly pc =
  if negb (in_orchestration_code pc) && (1 <? length (pc_matches disassembly pc))%nat then Raise NameError
  else Ok (line_above disassembly pc).
Proof.
  unfold pc_to_line, line_above. destruct (in_orchestration_code pc); [done|].
  by destruct (pc_matches disassembly pc) as [|line [|]].
Qed.

Lemma print_lines_keep texts c l (put : columns → string → columns) :
  (∀ c t l, l ∈ c_printed c → l ∈ c_printed (put c t)) → l ∈ c_printed c → l ∈ c_printed (fold_left put texts c).
Proof. intros Hput. revert c. induction texts as [|t ts IH]; intros c Hl; [done|]. by apply IH, Hput. Qed.
Lemma put_left_keeps c t l : l ∈ c_printed c → l ∈ c_printed (put_left c t).
Proof. intros Hl. unfold put_left. repeat case_match; cbn; rewrite ?elem_of_app; auto. Qed.
Lemma put_right_keeps c t l : l ∈ c_printed c → l ∈ c_printed (put_right c t).
Proof. intros Hl. unfold put_right. repeat case_match; cbn; rewrite ?elem_of_app; auto. Qed.
Lemma hline_keeps c l : l ∈ c_printed c → l ∈ c_printed (hline c).
Proof. intros Hl. cbn. rewrite !elem_of_app. auto. Qed.
Lemma flush_keeps c l : l ∈ c_printed c → l ∈ c_printed (flush c).
Proof. intros Hl. cbn. rewrite !elem_of_app. auto. Qed.

(** A row either ends the report or leaves its line among what is printed. *)
Lemma print_row_result no_color disassembly r c :
  match row_error disassembly r with
  | Some e => print_row no_color disassembly r c = Raise e
  | None => ∃ c', print_row no_color disassembly r c = Ok c' ∧
      line_above disassembly r.1.1 ∈ c_printed c' ∧ ∀ l, l ∈ c_printed c → l ∈ c_printed c'
  end.
Proof.
  destruct r as [[pc ref] primer]. unfold row_error, print_row. rewrite pc_to_line_result. cbn [fst snd].
  destruct (negb (in_orchestration_code pc) && _); [done|]. cbn [mbind result_bind].
  set (line := line_above disassembly pc). set (c0 := print_line line c).
  assert (H0 : ∀ l, l = line ∨ l ∈ c_printed c → l ∈ c_printed c0).
  { intros l Hl. cbn. rewrite elem_of_app, list_elem_of_singleton. tauto. }
  assert (Hleft : ∀ e vs, if comparable e vs then ∃ d, description no_color e vs = Ok d
    else description no_color e vs = Raise AttributeError) by apply description_result.
  assert (Hend : ∀ c1, (∀ l, l ∈ c_printed c0 → l ∈ c_printed c1) →
    ∃ c', Ok (hline (flush c1)) = Ok c' ∧ line ∈ c_printed c' ∧ ∀ l, l ∈ c_printed c → l ∈ c_printed c').
  { intros c1 Hc1. eexists. split; [done|]. split; intros; by apply hline_keeps, flush_keeps, Hc1, H0; auto. }
  assert (Hl : ∀ d c1, (∀ l, l ∈ c_printed c0 → l ∈ c_printed c1) → ∀ l, l ∈ c_printed c0 → l ∈ c_printed (print_left d c1))
    by (intros d c1 Hc l Hin; apply print_lines_keep; [apply put_left_keeps|by apply Hc]).
  assert (Hr : ∀ d c1, (∀ l, l ∈ c_printed c0 → l ∈ c_printed c1) → ∀ l, l ∈ c_printed c0 → l ∈ c_printed (print_right d c1))
    by (intros d c1 Hc l Hin; apply print_lines_keep; [apply put_right_keeps|by apply Hc]).
  destruct ref as [e|], primer as [e'|]; cbn [row_comparable andb]; rewrite ?andb_true_r.
  - pose proof (Hleft e (Some e')) as H. pose proof (Hleft e' (Some e)) as H'.
    destruct (comparable e _); cbn [andb]; [|by rewrite H]. destruct H as [d ->]. cbn [mbind result_bind].
    destruct (comparable e' _); [|by rewrite H']. destruct H' as [d' ->]. apply Hend. auto.
  - pose proof (Hleft e None) as H. destruct (comparable e _); [|by rewrite H]. destruct H as [d ->]. apply Hend. auto.
  - pose proof (Hleft e' None) as H. destruct (comparable e' _); [|by rewrite H]. destruct H as [d ->]. apply Hend. auto.
  - by apply Hend.
Qed.

Lemma print_rows_result no_color disassembly rows c :
  match first_error disassembly rows with
  | Some e => for_each (print_row no_color disassembly) rows c = Raise e
  | None => ∃ c', for_each (print_row no_color disassembly) rows c = Ok c' ∧
      (∀ r, r ∈ rows → line_above disassembly r.1.1 ∈ c_printed c') ∧ ∀ l, l ∈ c_printed c → l ∈ c_printed c'
  end.
Proof.
  revert c. induction rows as [|r rows IH]; intros c; cbn [first_error for_each].
  { exists c. split_and!; [done| |done]. by intros r ?%elem_of_nil. }
  pose proof (print_row_result no_color disassembly r c) as H. destruct (row_error disassembly r) as [e|]; [by rewrite H|].
  destruct H as (c1 & -> & Hline & Hk). specialize (IH c1). cbn [mbind result_bind].
  destruct (first_error disassembly rows) as [e|]; [done|]. destruct IH as (c' & Hc' & Hls & Hk').
  exists c'. split_and!; [done| |auto]. intros r' [->|Hr']%elem_of_cons; auto.
Qed.

Lemma print_events_result no_color disassembly refs primers :
  match first_error disassembly (event_rows refs primers) with
  | Some e => print_events no_color disassembly refs primers = Raise e
  | None => ∃ table, print_events no_color disassembly refs primers = Ok table ∧
      ∀ r, r ∈ event_rows refs primers → line_above disassembly r.1.1 ∈ table
  end.
Proof.
  unfold print_events. cbv zeta.
  match goal with |- context [for_each _ _ ?c0] =>
    pose proof (print_rows_result no_color disassembly (event_rows refs primers) c0) as H end.
  destruct (first_error _ _) as [e|]; [by rewrite H|]. destruct H as (c & -> & Hls & _).
  eexists. split; [done|]. intros r Hr. cbn. rewrite !elem_of_app. left. left. by apply Hls.
Qed.


Definition example_log : string :=
  "500: system.cpu.iew: Attempting load request - PC 0x402010, SQ: [sn:7], Paddr 0x1048, Vaddr 0x8048" +:+ newline
  +:+ "450: system.cpu.iew: Store request - PC 0x402008, SQ: [sn:6], Paddr 0x2000, Vaddr 0x9000" +:+ newline
  +:+ "480: system.cpu: analyse_ipc_violation: Mispredicted branch at PC 0x40200c" +:+ newline
  +:+ "510: system.cpu.lsq: LSQUnit - Squashed Load: PC 0x402010, SQ: [sn:7], Paddr 0x1048, Vaddr 0x8048" +:+ newline.
Definition example_log_primer : string :=
  "450: system.cpu.iew: Store request - PC 0x402008, SQ: [sn:6], Paddr 0x2000, Vaddr 0x9000" +:+ newline.

Example example_events : parse_events false example_log =
  Ok [EAccess (mkAccess true 450 0x402008 6 0x2000 0x9000 "" false None); ESquashBranch 480 0x40200c;
      EAccess (mkAccess false 500 0x402010 7 0x1048 0x8048 "" false (Some 510))].
Proof. vm_compute. reflexivity. Qed.

(** What objdump prints: the address 3 selects two of its lines, no address of the test
    case does. *)
Definition example_dump : string :=
  "Disassembly of section .data:" +:+ newline +:+ newline
  +:+ "0000000000402008 <.data>:" +:+ newline
  +:+ "  402003:" +:+ String "009" "nop" +:+ newline
  +:+ "  402008:" +:+ String "009" "mov    QWORD PTR [r14+rbx*1],rax" +:+ newline
  +:+ "  40200c:" +:+ String "009" "jne    0x402013" +:+ newline
  +:+ "  402010:" +:+ String "009" "mov    rax,QWORD PTR [r14+rcx*1]" +:+ newline
  +:+ "  402013:" +:+ String "009" "ret" +:+ newline.
Example example_dump_short_address : length (pc_matches example_dump 3) = 2%nat.
Proof. vm_compute. reflexivity. Qed.


(** An access that another kind of event shares a row with: the report stops. *)
Example report_stops :
  print_events true "" [ESquashBranch 480 0x402010]
    [EAccess (mkAccess false 500 0x402010 7 0x1048 0x8048 "" false None)] = Raise AttributeError.
Proof. vm_compute. reflexivity. Qed.
