(* ===== verification/AnalyseRun.v ===== *)
(** * Running the fuzzer again on a violation

    [src/src/analyse_ipc_violation.py] up to the report of [EventLog]: the two runs of
    [cli.py fuzz] on the inputs of a violation, the files it takes from their debug
    directory, and reading those of an earlier analysis.  Running the fuzzer, the
    disassembler and loading TOML are parameters. *)

From S2P Require Import Prelude Util Text Config ArgParse Cli CacheTrace EventLog.

Open Scope Z_scope.

(** ** Arguments *)

(** What [parse_args] returns, the options this part reads. *)
Record arguments := mkArguments {
  aa_violation : string;
  aa_analysis_dir : string;
  aa_args : option string;
  aa_debug_flags : string;
  aa_use_yaml_debug_flags : bool;
  aa_only_run : bool;
  aa_only_analyze : bool;
  aa_process_run : option string
}.
Definition default_arguments (violation : string) : arguments :=
  mkArguments violation "None" None "LSQUnit,Squashed,Branch,AnalyseIPC" false false false
    (Some "analyse_ipc_violation").

(** [s.rstrip('/')] *)
Fixpoint rstrip_slash (s : string) : string :=
  match s with
  | String c s =>
      match rstrip_slash s with
      | EmptyString => if Ascii.eqb c "/" then EmptyString else String c EmptyString
      | s' => String c s'
      end
  | EmptyString => EmptyString
  end.

Definition violation (a : arguments) : string := rstrip_slash (aa_violation a).
Definition revizor_arguments (a : arguments) : option (list string) :=
  List.filter (λ arg, negb (arg =? "")%string) ∘ split " " <$> aa_args a.
Definition find_violation (a : arguments) : bool := negb (aa_only_run a).

(** Analysing only excludes the options of a run. *)
Definition check_arguments (a : arguments) : result unit :=
  if aa_only_analyze a then
    let revizor := match revizor_arguments a with Some (_ :: _) => true | _ => false end in
    assert_ (negb (aa_only_run a || revizor || aa_use_yaml_debug_flags a)) AssertionError
  else Ok tt.

Definition asm_file (a : arguments) (exists_ : string → bool) : string :=
  let minimized := violation a +:+ "/test_case_rvzr_input1_minimized.asm" in
  if exists_ minimized then minimized else violation a +:+ "/test_case_rvzr_input1.asm".
Definition obj_file (a : arguments) (exists_ : string → bool) : string := replace ".asm" ".o" (asm_file a exists_).
Definition pickle_reference (a : arguments) : string := violation a +:+ "/inputpickle_reference.pkl".
Definition pickle_primer (a : arguments) : string := violation a +:+ "/inputpickle_primer.pkl".

Definition debug_dir (a : arguments) : string :=
  match aa_process_run a with Some run => "debug-" +:+ run +:+ "/one" | None => "debug/one" end.
Definition process_run_args (a : arguments) : list string :=
  match aa_process_run a with Some run => ["-p"; run] | None => [] end.
Definition analysis_dir (a : arguments) : string :=
  if (aa_analysis_dir a =? "None")%string then violation a +:+ "/analysis" else aa_analysis_dir a.

(** The files of the violation the runs need; the script leaves when one is missing. *)
Definition check_files (a : arguments) (exists_ isfile : string → bool) : result string :=
  let asm := asm_file a exists_ in
  assert_ (isfile asm) SystemExit;;
  assert_ (isfile (pickle_reference a)) SystemExit;;
  assert_ (isfile (pickle_primer a)) SystemExit;;
  Ok asm.
Definition last_input_of (inputs : list Z) : result Z :=
  assert_ (negb (bool_decide (inputs = []))) AssertionError;; Ok (Z.of_nat (length inputs) - 1).

(** [--pc-to-line]: what is printed about an address. *)
Definition pc_report (disassembly : string) (pc : Z) : result (list string) :=
  line ← pc_to_line disassembly pc;
  Ok ((if (line =? MID_INSTRUCTION)%string
       then ["PC " +:+ hex pc +:+ " lies in between two instructions in the test case code."]
       else if (line =? ORCHESTRATION_CODE)%string
       then ["PC " +:+ hex pc +:+ " lies outside of the test case code."]
       else ["PC " +:+ hex pc +:+ " corresponds to this line of the disassembly:"; line])
      ++ ["--- full disassembly ---"; disassembly]).

(** The command after [python cli.py]. *)
Definition fuzz_words (a : arguments) (asm pickle : string) (revizor : list string) : list string :=
  ["fuzz"; "--analysis_run"; "--debug"]
  ++ (if aa_use_yaml_debug_flags a then [] else ["--debug-flags=" +:+ aa_debug_flags a])
  ++ ["-t"; asm; "-ic"; pickle] ++ process_run_args a ++ revizor.

(** ** The two runs *)

Section runs.
Context (toml_load : string → result toml).
(** The files of the debug directory after a run with these words, in the order
    [os.listdir] has them; and the disassembly. *)
Context (fuzz : list string → list (string * string)).
Context (get_disassembly : result string).

(** The files of the analysis directory, and what was read from them. *)
Definition run_both (a : arguments) (asm : string) (last_input : Z)
    : result (collected * list (string * string)) :=
  revizor ← from_option AssertionError (revizor_arguments a);
  assert_ (negb (bool_decide (revizor = []))) AssertionError;;
  st ← copy_debug_files toml_load (find_violation a) last_input "reference"
         (fuzz (fuzz_words a asm (pickle_reference a) revizor)) (mkCollected [] [], []);
  '(c, written) ← copy_debug_files toml_load (find_violation a) last_input "primer"
         (fuzz (fuzz_words a asm (pickle_primer a) revizor)) st;
  if find_violation a then
    disassembly ← get_disassembly; Ok (c, dict_set "test_case_rvzr.dump" disassembly written)
  else Raise SystemExit.

(** [--only-analyze], on the files of the directory as [os.listdir] has them. *)
Definition read_both (listing : list (string * string)) : result collected :=
  assert_ (negb (bool_decide (listing = []))) AssertionError;;
  _ ← get_disassembly;
  c ← upload_existing_analysis toml_load "reference" listing (mkCollected [] []);
  upload_existing_analysis toml_load "primer" listing c.

(** The table is written to [event_log.txt] while it is printed, then the script ends.  (An
    exception in the middle of the table leaves the lines before it in that file.) *)
Context (no_color branch_predictions : bool) (set_order : list Z → list Z).
Definition event_log (table : list string) : string := str_join "" (map (λ line, line +:+ newline) table).
Definition finish (c : collected) (files : list (string * string))
    : result (list report * list string * list (string * string)) :=
  disassembly ← get_disassembly;
  '(reports, table) ← analyse no_color disassembly branch_predictions set_order c;
  Ok (reports, table, dict_set "event_log.txt" (event_log table) files).

(** The whole script, with its runs or on an existing directory: what it reports, and the
    files the analysis directory has at the end. *)
Definition run_analysis (a : arguments) (asm : string) (last_input : Z) :=
  '(c, written) ← run_both a asm last_input; finish c written.
Definition read_analysis (listing : list (string * string)) :=
  c ← read_both listing; finish c listing.

(** ** What is copied is what is read *)

(** Collecting the files two conditions choose. *)
Definition collect_file (pt pl : string * string → bool) (prefix : string) (f : string * string) (c : collected)
    : result collected :=
  c ← (if pt f then add_tags toml_load prefix f.2 c else Ok c);
  if pl f then add_log prefix f.2 c else Ok c.

Definition new_tags (prefix : string) (f : string * string) (d : list (string * list Z)) : result (list (string * list Z)) :=
  data ← toml_load f.2;
  _ ← assert_ (negb (mem prefix d.*1)) AssertionError;
  tags ← tags_of data;
  Ok (dict_set prefix tags d).
Definition new_log (prefix : string) (f : string * string) (d : list (string * string)) : result (list (string * string)) :=
  _ ← assert_ (negb (mem prefix d.*1)) AssertionError;
  Ok (dict_set prefix f.2 d).

Definition when {S} (p : string * string → bool) (f : string * string → S → result S) (x : string * string) (s : S)
    : result S := if p x then f x s else Ok s.

Lemma for_each_filter {S} p (f : string * string → S → result S) l s :
  for_each f (List.filter p l) s = for_each (when p f) l s.
Proof.
  revert s. induction l as [|x l IH]; intros s; [done|]. cbn [List.filter for_each].
  assert (when p f x s = if p x then f x s else Ok s) as -> by done.
  destruct (p x); cbn [for_each mbind result_bind]; [|apply IH]. destruct (f x s); [apply IH|done].
Qed.

Lemma collect_file_parts pt pl prefix f c c' :
  collect_file pt pl prefix f c = Ok c' ↔
    when pt (new_tags prefix) f (k_tags c) = Ok (k_tags c') ∧ when pl (new_log prefix) f (k_logs c) = Ok (k_logs c').
Proof.
  destruct c as [ts ls], c' as [ts' ls']. unfold collect_file, add_tags, add_log, when, new_tags, new_log.
  cbn [k_tags k_logs].
  destruct (pt f), (toml_load f.2) as [data|], (mem prefix ts.*1); cbn; try destruct (tags_of data); cbn;
    destruct (pl f), (mem prefix ls.*1); cbn;
    (split; [intros H; split; congruence|intros [H1 H2]; congruence]).
Qed.

(** The tags and the logs are collected independently, each from its own files. *)
Lemma collect_files pt pl prefix l c c' :
  for_each (collect_file pt pl prefix) l c = Ok c' ↔
    for_each (new_tags prefix) (List.filter pt l) (k_tags c) = Ok (k_tags c')
    ∧ for_each (new_log prefix) (List.filter pl l) (k_logs c) = Ok (k_logs c').
Proof.
  rewrite !for_each_filter. revert c. induction l as [|f l IH]; intros c.
  { cbn. destruct c, c'. split; [by intros [= -> ->]|by intros [[= ->] [= ->]]]. }
  cbn [for_each]. rewrite !bind_Ok. split.
  - intros (c1 & H1 & H2). apply collect_file_parts in H1 as [Ht Hl]. apply IH in H2 as [Ht2 Hl2].
    split; by eexists.
  - intros [(t1 & Ht & Ht2) (l1 & Hl & Hl2)]. exists (mkCollected t1 l1).
    split; [by apply collect_file_parts|by apply IH].
Qed.

(** A second file for the same run is an error. *)
Lemma collected_once {V} (f : string * string → list (string * V) → result (list (string * V))) prefix l d d' :
  (∀ x d d', f x d = Ok d' → prefix ∉ d.*1 ∧ prefix ∈ d'.*1) →
  for_each f l d = Ok d' → (length l ≤ 1)%nat.
Proof.
  intros Hf H. destruct l as [|x [|y l]]; cbn in H; try (cbn; lia).
  apply bind_Ok in H as (d1 & H1 & H). apply bind_Ok in H as (d2 & H2 & _).
  apply Hf in H1 as [_ H1]. by apply Hf in H2 as [H2 _].
Qed.

Lemma for_each_ext {S} (f g : string * string → S → result S) l s :
  (∀ x s, f x s = g x s) → for_each f l s = for_each g l s.
Proof.
  intros H. revert s. induction l as [|x l IH]; intros s; [done|]. cbn. rewrite H. by destruct (g x s); cbn.
Qed.

Lemma for_each_map {S} (h : string * string → string * string) (f : string * string → S → result S) l s :
  (∀ x s, f (h x) s = f x s) → for_each f (map h l) s = for_each f l s.
Proof.
  intros H. revert s. induction l as [|x l IH]; intros s; [done|]. cbn. rewrite H. by destruct (f x s); cbn.
Qed.

Lemma short_permutation {A} (l k : list A) : l ≡ₚ k → (length l ≤ 1)%nat → l = k.
Proof.
  intros H Hl. destruct l as [|x [|y l]]; cbn in Hl; [|by apply Permutation_singleton_l in H|lia].
  by apply Permutation_nil_l in H.
Qed.

(** The files of a run, renamed. *)
Definition renamed (prefix : string) (f : string * string) : string * string := (prefix +:+ "_" +:+ f.1, f.2).
Definition of_last (last_input : Z) (f : string * string) : bool := is_last_input last_input f.1.

Notation wanted := (collect_file (λ f, tags_file f.1) (λ f, log_file f.1)).

Lemma copy_one last_input prefix f c w :
  copy_one_file toml_load true last_input prefix f (c, w)
  = if of_last last_input f
    then c ← wanted prefix f c; Ok (c, dict_set (renamed prefix f).1 f.2 w)
    else Ok (c, w).
Proof.
  destruct f as [name text]. unfold of_last, collect_file. cbn. destruct (is_last_input last_input name); [|done].
  by destruct (if tags_file name then _ else Ok c).
Qed.

Lemma copied_files last_input prefix l c w c' w' :
  NoDup l.*1 → (∀ f, f ∈ l → (renamed prefix f).1 ∉ w.*1) →
  copy_debug_files toml_load true last_input prefix l (c, w) = Ok (c', w') ↔
    for_each (wanted prefix) (List.filter (of_last last_input) l) c = Ok c'
    ∧ w' = w ++ map (renamed prefix) (List.filter (of_last last_input) l).
Proof.
  unfold copy_debug_files. revert c w. induction l as [|f l IH]; intros c w Hnd Hw.
  { cbn. rewrite app_nil_r. split; [by intros [= -> ->]|by intros [[= ->] ->]]. }
  rewrite fmap_cons in Hnd. apply NoDup_cons in Hnd as [Hn Hnd].
  cbn [for_each List.filter]. rewrite copy_one.
  destruct (of_last last_input f); cbn [for_each map mbind result_bind].
  - destruct (wanted prefix f c) as [c1|]; cbn [mbind result_bind]; [|by split; [|intros [? _]]].
    assert ((renamed prefix f).1 ∉ w.*1) as Hnew by (apply Hw; by left).
    unfold dict_set. rewrite dict_alter_new by (by apply dict_get_none).
    rewrite IH, <- app_assoc; [done|done|].
    intros g Hg. rewrite fmap_app. intros [Hin|Hin]%elem_of_app; [by apply (Hw g); [right|]|].
    apply list_elem_of_singleton in Hin. cbn in Hin. apply str_app_inj_l, str_app_inj_l in Hin.
    apply Hn. rewrite <- Hin. by apply list_elem_of_fmap_2.
  - apply IH; [done|]. intros g Hg. apply Hw. by right.
Qed.

(** The conditions of [upload_existing_analysis], on the renamed files. *)
Definition saved_tags (prefix : string) (g : string * string) : bool :=
  startswith (prefix +:+ "_cache_tags_") g.1 && endswith ".toml" g.1.
Definition saved_log (prefix : string) (g : string * string) : bool :=
  startswith (prefix +:+ "_log_") g.1 && endswith ".out" g.1.

Lemma renamed_matches start e prefix f :
  (String.length e ≤ String.length start)%nat →
  startswith (prefix +:+ "_" +:+ start) (renamed prefix f).1 && endswith e (renamed prefix f).1
  = startswith start f.1 && endswith e f.1.
Proof.
  intros Hl. unfold startswith, renamed. cbn [fst]. rewrite !prefix_app.
  destruct (String.prefix start f.1) eqn:Hp; [|done]. apply prefix_length in Hp. cbn [andb].
  rewrite <- str_app_assoc. apply endswith_app_long. lia.
Qed.

Lemma filter_renamed prefix p q own rest listing :
  listing ≡ₚ map (renamed prefix) own ++ rest →
  (∀ g, g ∈ rest → p g = false) → (∀ f, p (renamed prefix f) = q f) →
  List.filter p listing ≡ₚ map (renamed prefix) (List.filter q own).
Proof.
  intros Hperm Hrest Hown.
  assert (Hp : ∀ l k : list (string * string), l ≡ₚ k → List.filter p l ≡ₚ List.filter p k).
  { clear. induction 1 as [|x l k H IH|x y l|l k m _ IH1 _ IH2]; cbn; [done| | |by etransitivity].
    - by destruct (p x); rewrite IH.
    - destruct (p x), (p y); try done. constructor. }
  rewrite (Hp _ _ Hperm), List.filter_app.
  assert (List.filter p rest = []) as ->.
  { clear Hperm. induction rest as [|g rest IH]; [done|]. cbn. rewrite (Hrest g) by (by left).
    apply IH. intros; apply Hrest. by right. }
  rewrite app_nil_r. clear Hperm. induction own as [|f own IH]; [done|]. cbn. rewrite Hown.
  destruct (q f); cbn; by rewrite IH.
Qed.

(** A collection that succeeds does not depend on the order of the listing. *)
Lemma collect_listing {V} (f : string * string → list (string * V) → result (list (string * V)))
    prefix p q own rest listing d d' :
  listing ≡ₚ map (renamed prefix) own ++ rest →
  (∀ g, g ∈ rest → p g = false) → (∀ x, p (renamed prefix x) = q x) →
  (∀ x d d', f x d = Ok d' → prefix ∉ d.*1 ∧ prefix ∈ d'.*1) → (∀ x d, f (renamed prefix x) d = f x d) →
  for_each f (List.filter q own) d = Ok d' → for_each f (List.filter p listing) d = Ok d'.
Proof.
  intros Hperm Hrest Hown Hf Hsame H. pose proof (collected_once f prefix _ _ _ Hf H) as Hlen.
  rewrite <- (short_permutation (map (renamed prefix) (List.filter q own)) (List.filter p listing)).
  - by rewrite for_each_map.
  - symmetry. by eapply filter_renamed.
  - by rewrite length_map.
Qed.

Lemma upload_reads prefix listing own rest c c' :
  listing ≡ₚ map (renamed prefix) own ++ rest →
  (∀ g, g ∈ rest → startswith (prefix +:+ "_cache_tags_") g.1 = false ∧ startswith (prefix +:+ "_log_") g.1 = false) →
  for_each (wanted prefix) own c = Ok c' → upload_existing_analysis toml_load prefix listing c = Ok c'.
Proof.
  intros Hperm Hrest H. unfold upload_existing_analysis.
  rewrite (for_each_ext _ (collect_file (saved_tags prefix) (saved_log prefix) prefix)) by (by intros [name text] s).
  apply collect_files in H as [Ht Hl]. apply collect_files. split.
  - eapply (collect_listing _ prefix); [exact Hperm| | | |done|exact Ht].
    + intros g Hg. unfold saved_tags. by destruct (Hrest g Hg) as [-> _].
    + intros x. apply (renamed_matches "cache_tags_" ".toml"). cbn. lia.
    + intros x d d' Hx. unfold new_tags in Hx. inv_ok. apply negb_true_iff, mem_false in Hx1.
      split; [done|apply dict_set_key].
  - eapply (collect_listing _ prefix); [exact Hperm| | | |done|exact Hl].
    + intros g Hg. unfold saved_log. by destruct (Hrest g Hg) as [_ ->].
    + intros x. apply (renamed_matches "log_" ".out"). cbn. lia.
    + intros x d d' Hx. unfold new_log in Hx. inv_ok. apply negb_true_iff, mem_false in Hx0.
      split; [done|apply dict_set_key].
Qed.

(** A file that is neither the tags nor the log of a run. *)
Definition other_file (f : string * string) : bool :=
  forallb (λ prefix, negb (startswith (prefix +:+ "_cache_tags_") f.1) && negb (startswith (prefix +:+ "_log_") f.1))
    ["reference"; "primer"].

Lemma other_file_spec f prefix : other_file f = true → prefix ∈ ["reference"; "primer"] →
  startswith (prefix +:+ "_cache_tags_") f.1 = false ∧ startswith (prefix +:+ "_log_") f.1 = false.
Proof.
  unfold other_file. rewrite forallb_forall. intros H Hp. apply list_elem_of_In, H in Hp.
  apply andb_true_iff in Hp as [H1%negb_true_iff H2%negb_true_iff]. done.
Qed.

(** What [run_both] writes: the renamed files of the last input of either run and the
    disassembly. *)
Lemma run_both_spec a asm last_input c written :
  (∀ words, NoDup (fuzz words).*1) → find_violation a = true → run_both a asm last_input = Ok (c, written) →
  ∃ own1 own2 text c1, get_disassembly = Ok text
    ∧ written = map (renamed "reference") own1 ++ map (renamed "primer") own2 ++ [("test_case_rvzr.dump", text)]
    ∧ for_each (wanted "reference") own1 (mkCollected [] []) = Ok c1 ∧ for_each (wanted "primer") own2 c1 = Ok c.
Proof.
  intros Hnd Hfind H. unfold run_both in H. rewrite Hfind in H.
  apply bind_Ok in H as (revizor & _ & H). apply bind_Ok in H as (u & _ & H).
  apply bind_Ok in H as ([c1 w1] & H1 & H). apply bind_Ok in H as ([c2 w2] & H2 & H).
  apply bind_Ok in H as (text & Hdis & [= <- <-]).
  set (own1 := List.filter (of_last last_input) (fuzz (fuzz_words a asm (pickle_reference a) revizor))).
  set (own2 := List.filter (of_last last_input) (fuzz (fuzz_words a asm (pickle_primer a) revizor))).
  apply copied_files in H1 as [H1 ->]; [|done|intros f _ Hin%elem_of_nil; done].
  cbn [app] in *. fold own1 in H1, H2.
  assert (Hheads : ∀ prefix (own : list (string * string)) g, g ∈ map (renamed prefix) own → ∃ f, g = renamed prefix f)
    by (intros prefix own g (f & -> & _)%list_elem_of_fmap; by exists f).
  apply copied_files in H2 as [H2 ->]; [|done|].
  2:{ intros f _ (g & Eg & (f' & ->)%Hheads)%list_elem_of_fmap. done. }
  fold own2 in H2. exists own1, own2, text, c1. split_and!; [done| |done..].
  unfold dict_set. rewrite dict_alter_new; [by rewrite app_assoc|].
  apply dict_get_none. intros (g & Eg & Hin)%list_elem_of_fmap.
  apply elem_of_app in Hin as [(f & ->)%Hheads|(f & ->)%Hheads]; done.
Qed.

Lemma renamed_other prefix own prefix' g :
  prefix ∈ ["reference"; "primer"] → prefix' ∈ ["reference"; "primer"] → prefix ≠ prefix' →
  g ∈ map (renamed prefix) own →
  startswith (prefix' +:+ "_cache_tags_") g.1 = false ∧ startswith (prefix' +:+ "_log_") g.1 = false.
Proof.
  intros Hp Hp' Hne (f & -> & _)%list_elem_of_fmap.
  repeat (apply elem_of_cons in Hp as [->|Hp]; [|]); repeat (apply elem_of_cons in Hp' as [->|Hp']; [|]);
    try (by apply elem_of_nil in Hp); try (by apply elem_of_nil in Hp'); done.
Qed.

Lemma run_both_reads_back a asm last_input c written others listing :
  (∀ words, NoDup (fuzz words).*1) → find_violation a = true → Forall (λ f, other_file f = true) others →
  run_both a asm last_input = Ok (c, written) → listing ≡ₚ written ++ others → read_both listing = Ok c.
Proof.
  intros Hnd Hfind Hothers H Hl. rewrite Forall_forall in Hothers.
  destruct (run_both_spec _ _ _ _ _ Hnd Hfind H) as (own1 & own2 & text & c1 & Hdis & -> & H1 & H2).
  set (dump := ("test_case_rvzr.dump", text)) in *.
  unfold read_both. rewrite bool_decide_eq_false_2.
  2:{ intros ->. apply Permutation_nil_l in Hl. symmetry in Hl.
      apply app_eq_nil in Hl as [Hl _]. by destruct (map _ own1), (map _ own2). }
  rewrite Hdis. cbn [negb assert_ mbind result_bind].
  assert (Hrest : ∀ prefix own, prefix ∈ ["reference"; "primer"] →
    (∀ g, g ∈ own → startswith (prefix +:+ "_cache_tags_") g.1 = false ∧ startswith (prefix +:+ "_log_") g.1 = false) →
    ∀ g, g ∈ own ++ dump :: others →
    startswith (prefix +:+ "_cache_tags_") g.1 = false ∧ startswith (prefix +:+ "_log_") g.1 = false).
  { intros prefix own Hp Hown g [Hg|[->|Hg]%elem_of_cons]%elem_of_app; [by apply Hown| |by apply other_file_spec; auto].
    apply other_file_spec; [reflexivity|done]. }
  rewrite (upload_reads "reference" listing own1 (map (renamed "primer") own2 ++ dump :: others) _ c1).
  - cbn [mbind result_bind].
    apply (upload_reads "primer" listing own2 (map (renamed "reference") own1 ++ dump :: others)); [| |exact H2].
    + rewrite Hl, <- !(app_assoc (A := string * string)). cbn [app].
      rewrite !(app_assoc (A := string * string)). by rewrite (Permutation_app_comm (map (renamed "reference") own1)).
    + apply Hrest; [in_list|]. intros g Hg. eapply renamed_other; [..|exact Hg]; [in_list|in_list|done].
  - by rewrite Hl, <- !(app_assoc (A := string * string)).
  - apply Hrest; [in_list|]. intros g Hg. eapply renamed_other; [..|exact Hg]; [in_list|in_list|done].
  - exact H1.
Qed.

Lemma dict_set_same {V} k (v : V) (d : list (string * V)) : dict_get k d = Some v → dict_set k v d = d.
Proof.
  unfold dict_set. induction d as [|[k' v'] d IH]; cbn; [done|]. destruct (decide (k' = k)) as [->|]; [by intros [= ->]|].
  intros H. by rewrite IH.
Qed.

(** C36: An analysis directory holds what its analysis used.  Take the directory of an
    analysis, finished or interrupted after its two runs of the fuzzer, with any other files
    in it that are not named like the tags or the log of a run.  Reading it back with
    [--only-analyze], in whatever order the directory lists its files, gives the cache tags
    and the logs the two runs gave; for a finished analysis it gives the same report and the
    same table again, and leaves the directory, [event_log.txt] included, as it was. *)
Theorem only_analyze_reads_back a asm last_input others listing :
  (∀ words, NoDup (fuzz words).*1) → find_violation a = true →
  Forall (λ f, other_file f = true) others → NoDup listing.*1 →
  (∀ c written, run_both a asm last_input = Ok (c, written) → listing ≡ₚ written ++ others →
     read_both listing = Ok c) ∧
  (∀ reports table files, run_analysis a asm last_input = Ok (reports, table, files) → listing ≡ₚ files ++ others →
     read_analysis listing = Ok (reports, table, listing)).
Proof.
  intros Hnd Hfind Hothers Hkeys. split.
  { intros c written H Hl. by eapply run_both_reads_back. }
  intros reports table files H Hl. unfold run_analysis in H. apply bind_Ok in H as ([c written] & Hrun & H).
  unfold finish in H. apply bind_Ok in H as (text & Hdis & H). apply bind_Ok in H as ([rs t] & Ha & [= -> -> <-]).
  destruct (run_both_spec _ _ _ _ _ Hnd Hfind Hrun) as (own1 & own2 & text' & c1 & Hdis' & Ew & _).
  unfold dict_set in Hl. rewrite dict_alter_new in Hl.
  2:{ apply dict_get_none. rewrite Ew. intros (g & Eg & Hin)%list_elem_of_fmap.
      apply elem_of_app in Hin as [(f & -> & _)%list_elem_of_fmap|Hin]; [done|].
      apply elem_of_app in Hin as [(f & -> & _)%list_elem_of_fmap|Hin]; [done|].
      apply list_elem_of_singleton in Hin as ->. done. }
  unfold read_analysis. rewrite (run_both_reads_back a asm last_input c written (("event_log.txt", event_log table) :: others)); [|done|done| |done|].
  - unfold finish. rewrite Hdis. cbn [mbind result_bind]. rewrite Ha. cbn [mbind result_bind].
    rewrite dict_set_same; [done|]. apply dict_get_elem; [done|]. rewrite Hl, !elem_of_app. left. right. by left.
  - constructor; [reflexivity|done].
  - by rewrite Hl, <- app_assoc.
Qed.
End runs.

(** ** Where the fuzzer puts the files *)

(** The options the script sets itself, and those its directory depends on. *)
Definition reserved : list string :=
  ["analysis_run"; "debug"; "debug_flags"; "testcase"; "inputcase"; "process_run"; "name"; "output_dir"].

Definition script_settings (a : arguments) (asm pickle run : string) : list setting :=
  [Switch "--analysis_run"; Switch "--debug"]
  ++ (if aa_use_yaml_debug_flags a then [] else [Joined "--debug-flags" (aa_debug_flags a)])
  ++ [Named "-t" asm; Named "-ic" pickle; Named "-p" run].
Definition script_effects (a : arguments) (asm pickle run : string) : list (argument * cfg_value) :=
  let named f := default help_argument (find_flag fuzz_arguments f) in
  [(named "--analysis_run", VBool true); (named "--debug", VBool true)]
  ++ (if aa_use_yaml_debug_flags a then [] else [(named "--debug-flags", VStr (aa_debug_flags a))])
  ++ [(named "-t", VStr asm); (named "-ic", VStr pickle); (named "-p", VStr run)].

Lemma script_words a asm pickle run user :
  aa_process_run a = Some run →
  fuzz_words a asm pickle (command_words user) = "fuzz" :: command_words (script_settings a asm pickle run ++ user).
Proof.
  intros Hr. unfold fuzz_words, process_run_args, script_settings. rewrite Hr.
  destruct (aa_use_yaml_debug_flags a); reflexivity.
Qed.

Lemma script_parse a asm pickle run :
  startswith "-" asm = false → startswith "-" pickle = false → startswith "-" run = false →
  aa_debug_flags a ≠ "--" →
  settings_parse fuzz_arguments (script_settings a asm pickle run) (script_effects a asm pickle run).
Proof.
  intros Ha Hp Hr Hf. unfold script_settings, script_effects.
  assert (Htext : ∀ f v, (∃ x, find_flag fuzz_arguments f = Some x ∧ a_action x = Store to_str None) →
    startswith "-" v = false → startswith "-" f = true → f ≠ "--" →
    setting_effect fuzz_arguments (Named f v) = Some (default help_argument (find_flag fuzz_arguments f), VStr v)
    ∧ setting_plain (Named f v)).
  { intros f v (x & Hx & Hs) Hv Hd Hdd. rewrite Hx. split; [|by split].
    apply text_effect; [done..|by apply not_dashes]. }
  apply Forall2_app; [|apply Forall2_app].
  - repeat (apply List.Forall2_cons; [split; [reflexivity|by split]|]). by apply Forall2_nil.
  - destruct (aa_use_yaml_debug_flags a); [by apply Forall2_nil|].
    apply List.Forall2_cons; [|by apply Forall2_nil].
    split; [|by split]. apply joined_effect; [reflexivity..|apply fuzz_joined|reflexivity|done].
  - repeat (apply List.Forall2_cons; [apply Htext; [by eexists|done..]|]). by apply Forall2_nil.
Qed.

(** The script looks for the files of its runs where the fuzzer puts them: the words
    it starts [cli.py fuzz] with are accepted, the test case and the inputs are those of
    the violation, and the directory [main] makes is the one the script lists, as long as
    neither the configuration file nor the arguments move it. *)
Theorem analysis_reads_debug_directory a run asm pickle user es safe_load isdir c l :
  aa_process_run a = Some run → run ≠ "" → startswith "-" run = false →
  startswith "-" asm = false → startswith "-" pickle = false → aa_debug_flags a ≠ "--" →
  settings_parse fuzz_arguments user es → Forall (λ e, dest e.1 ∉ reserved) es →
  "instruction_set" ∈ map (dest ∘ fst) es →
  (∀ path items, safe_load path = Ok items → "debug_dir" ∉ items.*1) →
  c !! "debug_dir" = Some (VStr "debug") →
  Cli.main safe_load isdir (fuzz_words a asm pickle (command_words user)) c = Ok (Some l) →
  MakeDirs (debug_dir a) ∈ l_dirs l
  ∧ ∃ s w n i timeout nonstop, l_job l = StartFuzzer s w (VStr asm) (VStr pickle) n i timeout nonstop.
Proof.
  intros Hr Hne Hrun Hasm Hpickle Hflags Huser Hres His Hfile Hc H.
  rewrite (script_words _ _ _ run) in H by done.
  destruct (fuzz_words_read (script_settings a asm pickle run ++ user) (script_effects a asm pickle run ++ es))
    as (names & Hp & Hs & Hv).
  { apply Forall2_app; [by apply script_parse|done]. }
  { rewrite map_app. apply elem_of_app. by right. }
  unfold Cli.main in H. rewrite Hp in H. cbn [mbind result_bind] in H.
  apply fmap_Ok in H as (l' & H & [= ->]).
  assert (Hown : ∀ d, d ∈ reserved →
    names !! d = match dict_get d (written (script_effects a asm pickle run)) with Some v => Some v | None => parser_fuzz !! d end).
  { intros d Hd. rewrite Hv by (intros ->; revert Hd; in_notin). unfold written. rewrite map_app, rev_app_distr, dict_get_app.
    assert (dict_get d (rev (map (λ e, (dest e.1, e.2)) es)) = None) as ->; [|done].
    apply dict_get_none. rewrite map_rev, map_map.
    intros ((x & v) & He & Hin)%list_elem_of_In%in_rev%list_elem_of_In%list_elem_of_fmap.
    rewrite Forall_forall in Hres. specialize (Hres _ Hin). by rewrite He in Hd. }
  assert (names !! "process_run" = Some (VStr run) ∧ names !! "testcase" = Some (VStr asm)
    ∧ names !! "inputcase" = Some (VStr pickle) ∧ names !! "output_dir" = Some VNone
    ∧ names !! "name" = Some (VStr "one")) as (Erun & Etest & Einput & Eout & Ename).
  { unfold script_effects in Hown. rewrite !Hown by in_list.
    destruct (aa_use_yaml_debug_flags a); split_and!; reflexivity. }
  split.
  - unfold debug_dir. rewrite Hr.
    apply (run_main_debug_dir _ _ _ _ _ run "debug" "one" H); auto.
    intros path items _. apply Hfile.
  - unfold run_main in H. do 3 (apply bind_Ok in H as (? & _ & H)).
    unfold arg in H at 1. rewrite Hs in H. cbn [from_option mbind result_bind] in H.
    rewrite bool_decide_eq_true_2 in H by done. apply bind_Ok in H as (? & _ & H).
    apply bind_Ok in H as (j & Hj & [= <-]). unfold fuzz_job, arg in Hj. rewrite Etest, Einput in Hj.
    repeat (apply bind_Ok in Hj as (? & ? & Hj)). injection Hj as <-. inv_ok. simplify_eq. by eexists _, _, _, _, _, _.
Qed.

(** ** A violation and its two runs *)

Module RunDemo.
Definition a : arguments := mkArguments "results/5hrs/" "None" (Some "-c a.yaml  -s base.json")
  "LSQUnit,Squashed,Branch,AnalyseIPC" false false false (Some "analyse_ipc_violation").
Definition user : list setting := [Named "-c" "a.yaml"; Named "-s" "base.json"].
Definition es : list (argument * cfg_value) :=
  [(default help_argument (find_flag fuzz_arguments "-c"), VStr "a.yaml");
   (default help_argument (find_flag fuzz_arguments "-s"), VStr "base.json")].
Definition safe_load (path : string) : result (list (string * cfg_value)) := Ok [("input_gen_seed", VInt 3)].
Definition toml_load (text : string) : result toml :=
  Ok (TTable [("system", TTable [("cpu", TTable [("dcache", TTable [("addresses", TStr text)])])])]).
Definition log (words : list string) : string :=
  "450: system.cpu.iew: Store request - PC 0x402008, SQ: [sn:6], Paddr 0x2000, Vaddr 0x9000 " +:+ str_join " " words +:+ newline.
Definition fuzz (words : list string) : list (string * string) :=
  [("log_one_0.out", "0"); ("cache_tags_one_1.toml", if str_in "reference" (str_join " " words) then "64 8192" else "64");
   ("log_one_1.out", log words)].
Definition run := run_analysis toml_load fuzz (Ok "0: ret") true false id a "t.asm" 1.
Definition others : list (string * string) := [("notes.txt", "seen before")].
Definition listing : list (string * string) := match run with Ok (_, files) => others ++ rev files | Raise _ => [] end.
Definition finishes : bool := match run with Ok _ => true | Raise _ => false end.
End RunDemo.

Lemma run_demo_finishes : RunDemo.finishes = true →
  ∃ reports table files, RunDemo.run = Ok (reports, table, files) ∧ RunDemo.listing = RunDemo.others ++ rev files.
Proof.
  unfold RunDemo.finishes, RunDemo.listing. destruct RunDemo.run as [[[rs t] fs]|]; [|done]. intros _. by exists rs, t, fs.
Qed.

Lemma only_analyze_reads_back_witness :
  ∃ reports table files, RunDemo.run = Ok (reports, table, files)
    ∧ RunDemo.listing ≡ₚ files ++ RunDemo.others ∧ length RunDemo.listing = 7%nat
    ∧ "event_log.txt" ∈ files.*1
    ∧ read_analysis RunDemo.toml_load (Ok "0: ret") true false id RunDemo.listing = Ok (reports, table, RunDemo.listing).
Proof.
  destruct run_demo_finishes as (rs & t & fs & E & El); [vm_compute; reflexivity|].
  assert (Hl : RunDemo.listing ≡ₚ fs ++ RunDemo.others).
  { rewrite El, <- (Permutation_rev fs). apply Permutation_app_comm. }
  exists rs, t, fs. split; [exact E|]. split; [exact Hl|]. split; [vm_compute; reflexivity|]. split.
  - assert (Hk : "event_log.txt" ∈ RunDemo.listing.*1).
    { apply (bool_decide_eq_true ("event_log.txt" ∈ RunDemo.listing.*1)). vm_compute. reflexivity. }
    rewrite Hl, fmap_app in Hk. apply elem_of_app in Hk as [Hk|Hk]; [exact Hk|].
    apply list_elem_of_singleton in Hk. discriminate Hk.
  - refine (proj2 (only_analyze_reads_back RunDemo.toml_load RunDemo.fuzz (Ok "0: ret") true false id RunDemo.a "t.asm" 1
            RunDemo.others RunDemo.listing _ eq_refl _ _) rs t fs E Hl).
    + intros words. apply (bool_decide_eq_true (NoDup ["log_one_0.out"; "cache_tags_one_1.toml"; "log_one_1.out"])).
      vm_compute. reflexivity.
    + repeat constructor.
    + apply (bool_decide_eq_true (NoDup RunDemo.listing.*1)). vm_compute. reflexivity.
Defined.

Lemma run_demo_words :
  fuzz_words RunDemo.a "t.asm" "p.pkl" (default [] (revizor_arguments RunDemo.a))
  = fuzz_words RunDemo.a "t.asm" "p.pkl" (command_words RunDemo.user).
Proof. vm_compute. reflexivity. Qed.

Definition demo_run : result (option launch) :=
  Cli.main RunDemo.safe_load (λ _, true) (fuzz_words RunDemo.a "t.asm" "p.pkl" (command_words RunDemo.user)) ConfCls.
Definition demo_runs : bool := match demo_run with Ok (Some _) => true | _ => false end.

Lemma demo_launches : demo_runs = true → ∃ l, demo_run = Ok (Some l).
Proof. unfold demo_runs. destruct demo_run as [[l|]|]; [|done..]. intros _. by exists l. Qed.

Lemma analysis_reads_debug_directory_witness :
  ∃ l, Cli.main RunDemo.safe_load (λ _, true)
         (fuzz_words RunDemo.a "t.asm" "p.pkl" (default [] (revizor_arguments RunDemo.a))) ConfCls = Ok (Some l)
    ∧ MakeDirs (debug_dir RunDemo.a) ∈ l_dirs l.
Proof.
  rewrite run_demo_words. destruct demo_launches as [l E]; [vm_compute; reflexivity|].
  exists l. split; [exact E|].
  apply (analysis_reads_debug_directory RunDemo.a "analyse_ipc_violation" "t.asm" "p.pkl" RunDemo.user RunDemo.es
           RunDemo.safe_load (λ _, true) ConfCls l);
    [reflexivity|discriminate|reflexivity|reflexivity|reflexivity|discriminate| | | | |vm_compute; reflexivity|exact E].
  - repeat (apply List.Forall2_cons; [split; [reflexivity|by split; [|split]]|]). by apply Forall2_nil.
  - repeat (apply Forall_cons; split; [in_notin|]). by apply Forall_nil.
  - in_list.
  - intros path items [= <-]. in_notin.
Defined.
