(* ===== verification/Cause.v ===== *)
(** * The cause of a violation

    [src/src/cleanupspec_analysis.py]: the script that classifies a violation of CleanupSpec by the
    lines the two runs left in the caches and their protocol traces; and
    [src/src/non_spec_vio_checker.py].  The hash of a text is a parameter. *)

From S2P Require Import Prelude Text Service.

Open Scope Z_scope.

Definition quote : string := String "034" EmptyString.
Definition split_not_cleaned : string := "Split Requests Not Cleaned".
Definition combination : string :=
  "Combination of " +:+ quote +:+ "Split Requests Not Cleaned" +:+ quote +:+ " and " +:+ quote
  +:+ "Speculative Store Not Cleaned" +:+ quote.
Definition non_speculative : string := "Difference in non-speculative requests?".

(** Violations decided by hand, by the hash of their tags. *)
Definition manual_decisions : gmap string string := list_to_map
  [("06ad825183d60a1f3b6d94a086cf8406f55f7323a3f6672170a194ead0320f15", split_not_cleaned);
   ("77e729a612e2cdd214126ae5ffdf19192f496664245db9c3e06b14cfbbaf3f1f", split_not_cleaned);
   ("328041e7945d653439f67f4e438734b47c40005d540bab010b397ab59553fb2a", split_not_cleaned);
   ("14467da3a922adee06fea40fca66295da5d9a7af6346030bff3267772e5c7d49", split_not_cleaned);
   ("b582f2b079cb3f69a4e163e7271ef44eb42a2b9cbd10f4fdc9ea9b0b3b6f20fd", split_not_cleaned);
   ("b2f681036daeaac5c527b73308e6a1fbdacc9e1f0fafee1bff923bb59ffccb6a", split_not_cleaned);
   ("e8335b1fa2741abf1043a90702ef66e9d71e3420a75e58d2ea0e23d3af49b801", split_not_cleaned);
   ("174ad38a231d8e2563b05f3a0da09bab2c2ae516e4832eee55d855a8ed13f37a", split_not_cleaned);
   ("eec66d92a5fb8aeb452c183f689048fdcd2afc7b7b620af1926e9a85a4d5abba", split_not_cleaned);
   ("352f78c328b3634e211ee89a5ac51cba8dabb80a4c8e7e883772a2e4143cfa5d", split_not_cleaned);
   ("b3072cde55a2b60cbdaaeda1072d7c5b52fa2a96de0bda820a0c5305a80a0f25", combination);
   ("d263b79b872c327d1ce0262ff9e5f5d79e2660cd5fd6da29b2c0680de8931de4", combination);
   ("a1818b85643b77f8366185e23d4b474662f3c1cd5ce650af4dea282ac497bd57", combination);
   ("8435e7781cc3a01b06cc02606fa0e7cf42e5f73737012a3c08d7c74ee229ed7d", combination);
   ("ce91b1f3e804abeb1f2227484451b402f97084d9dbc20121d3171b474da365be", combination);
   ("5bf2cf324d5ebefe612187726608134206b1aef57f5cb7058b345da9c7e96d5f", non_speculative);
   ("4e9eb0bca1987cfcbd37840ab586f21f814ba04a0b0210e435d91fc908792b0f", non_speculative);
   ("1bdf929c68409c189e3f408c0d082ea468d92ef6c2288d4542f9517801357668", non_speculative);
   ("bf4813e51c01900ca262f7e405416326bfb13987eed50e5a7c7ae943820015f0", non_speculative);
   ("ed468cf794d532fa443a41be63065b7a61adcac6f49e362c7543c1d63ac8bd90", non_speculative)].

(** [sub in s] *)
Definition contains (sub s : string) : bool := bool_decide (is_Some (str_find sub s)).

(** ** The tags of a run *)

Definition get_cache (tags : list string) (which : string) : result (gset Z) :=
  i ← from_option ValueError (fst <$> list_find (λ l, l = "[system.ruby.l1_cntrl0.L1" +:+ which +:+ "cache]") tags);
  addresses ← from_option IndexError (tags !! S i);
  assert_ (startswith "addresses=" addresses) AssertionError;;
  value ← from_option IndexError (split "=" addresses !! 1%nat);
  list_to_set <$> mapM py_int (split " " value).

(** What the script reads of a run: the lines of its trace and the two caches. *)
Record run_files := mkRunFiles { rf_trace : list string; rf_icache : gset Z; rf_dcache : gset Z }.

(** ** The tests *)

(** A line of the trace that names the cache line and the event. *)
Definition mentions (tag : Z) (event : string) (trace : list string) : bool :=
  existsb (contains ("line 0x" +:+ lower_hex tag +:+ "] " +:+ event)) trace.

(** The lines of [extra] are stored to in their run and not in the other one. *)
Definition stored_only (extra : gset Z) (own other : list string) : bool :=
  forallb (λ tag, mentions tag "ST" own && negb (mentions tag "ST" other)) (elements extra).

Section cause.
Context (reference primer : run_files).
Definition reference_minus_primer : gset Z := rf_dcache reference ∖ rf_dcache primer.
Definition primer_minus_reference : gset Z := rf_dcache primer ∖ rf_dcache reference.

Definition is_rwm_bug : bool :=
  stored_only primer_minus_reference (rf_trace primer) (rf_trace reference) &&
  stored_only reference_minus_primer (rf_trace reference) (rf_trace primer).

Definition paired (diff : gset Z) : bool :=
  Nat.even (size diff) &&
  forallb (λ tag, bool_decide (tag - 0x40 ∈ diff) || bool_decide (tag + 0x40 ∈ diff)) (elements diff).
Definition is_split_req : bool := paired reference_minus_primer && paired primer_minus_reference.

(** The first trace is not used. *)
Definition is_too_much_cleaning_with (extra_tag : Z) (trace1 trace2 : list string) : bool :=
  mentions extra_tag "LD" trace2 && mentions extra_tag "CLEANUP" trace2.
Definition is_too_much_cleaning : bool :=
  if negb (size reference_minus_primer + size primer_minus_reference =? 1)%nat then false
  else
    match elements reference_minus_primer, elements primer_minus_reference with
    | [tag], _ => is_too_much_cleaning_with tag (rf_trace reference) (rf_trace primer)
    | _, [tag] => is_too_much_cleaning_with tag (rf_trace primer) (rf_trace reference)
    | _, _ => false
    end.

Definition automatic_cause : option string :=
  if is_rwm_bug then Some "Speculative Store Not Cleaned"
  else if is_split_req then Some split_not_cleaned
  else if is_too_much_cleaning then Some "Too Much Cleaning"
  else None.

(** The cause printed, or the remark on the instruction cache. *)
Definition violation_cause (tags_hash : string) : result string :=
  if bool_decide (rf_dcache reference = rf_dcache primer) then
    assert_ (negb (bool_decide (rf_icache reference = rf_icache primer))) AssertionError;;
    Ok "difference in ICache caused violation - UnXpec variant?"
  else if negb (bool_decide (rf_icache reference = rf_icache primer)) then
    Ok "differences in both ICache and DCache - combination of multiple vulnerabilities?"
  else
    match automatic_cause with
    | Some cause => Ok cause
    | None => Ok (default "Other" (manual_decisions !! tags_hash))
    end.
End cause.

(** The script, on the four files. *)
Definition analyse_cause (sha256 : string → string) (reference_trace primer_trace reference_tags primer_tags : string)
    : result string :=
  reference_icache ← get_cache (split newline reference_tags) "I";
  reference_dcache ← get_cache (split newline reference_tags) "D";
  primer_icache ← get_cache (split newline primer_tags) "I";
  primer_dcache ← get_cache (split newline primer_tags) "D";
  violation_cause (mkRunFiles (split newline reference_trace) reference_icache reference_dcache)
    (mkRunFiles (split newline primer_trace) primer_icache primer_dcache) (sha256 reference_tags).

(** ** [check_violation] of the other script: the contents of the analysis of a directory *)
Definition check_violation (basename : string) (analysis : option string) : result bool :=
  if endswith "_bugs" basename then Ok false
  else
    text ← from_option AssertionError analysis;
    assert_ (negb (text =? "")%string) AssertionError;;
    Ok (existsb (contains "Non-speculative violation found!") (split newline text)).

(** ** What the tests say *)

Lemma stored_only_spec extra own other :
  stored_only extra own other = true ↔
  ∀ tag, tag ∈ extra → mentions tag "ST" own = true ∧ mentions tag "ST" other = false.
Proof.
  unfold stored_only. rewrite forallb_forall. setoid_rewrite <- list_elem_of_In.
  setoid_rewrite elem_of_elements. setoid_rewrite andb_true_iff. by setoid_rewrite negb_true_iff.
Qed.

(** A line whose request was split has its other half in the same run only. *)
Lemma paired_spec diff :
  paired diff = true ↔
  Nat.Even (size diff) ∧ ∀ tag, tag ∈ diff → tag - 0x40 ∈ diff ∨ tag + 0x40 ∈ diff.
Proof.
  unfold paired. rewrite andb_true_iff, Nat.even_spec, forallb_forall. setoid_rewrite <- list_elem_of_In.
  setoid_rewrite elem_of_elements. setoid_rewrite orb_true_iff. by setoid_rewrite bool_decide_eq_true.
Qed.

Lemma size_one (X : gset Z) : size X = 1%nat → ∃ x, elements X = [x].
Proof.
  unfold size, set_size. cbn. destruct (elements X) as [|x [|y l]]; cbn; intros [=]. by exists x.
Qed.
Lemma size_none (X : gset Z) : size X = 0%nat → elements X = [].
Proof. unfold size, set_size. cbn. by destruct (elements X). Qed.

Lemma too_much_cleaning_symmetric a b : is_too_much_cleaning a b = is_too_much_cleaning b a.
Proof.
  unfold is_too_much_cleaning, reference_minus_primer, primer_minus_reference.
  rewrite (Nat.add_comm (size (rf_dcache b ∖ rf_dcache a))).
  destruct (Nat.eqb_spec (size (rf_dcache a ∖ rf_dcache b) + size (rf_dcache b ∖ rf_dcache a)) 1) as [E|]; [|done].
  cbn [negb]. destruct (size (rf_dcache a ∖ rf_dcache b)) as [|n] eqn:Ea.
  - destruct (size_one _ E) as [x ->]. by rewrite (size_none _ Ea).
  - assert (size (rf_dcache b ∖ rf_dcache a) = 0%nat) as Eb by lia. assert (n = 0%nat) as -> by lia.
    destruct (size_one _ Ea) as [x ->]. by rewrite (size_none _ Eb).
Qed.

(** Which of the two runs is called the reference makes no difference to the cause that is found
    without the table. *)
Lemma cause_symmetric a b : automatic_cause a b = automatic_cause b a.
Proof.
  unfold automatic_cause, is_rwm_bug, is_split_req, reference_minus_primer, primer_minus_reference.
  rewrite (too_much_cleaning_symmetric a b), (andb_comm (stored_only (rf_dcache b ∖ _) _ _)),
    (andb_comm (paired (rf_dcache a ∖ _))). done.
Qed.

(** The script answers for every pair of runs whose caches differ, and fails for the others. *)
Lemma violation_cause_returns a b h :
  violation_cause a b h = Raise AssertionError ↔ rf_dcache a = rf_dcache b ∧ rf_icache a = rf_icache b.
Proof.
  unfold violation_cause.
  destruct (bool_decide_reflect (rf_dcache a = rf_dcache b)) as [Ed|Ed],
    (bool_decide_reflect (rf_icache a = rf_icache b)) as [Ei|Ei]; cbn; [done| | |].
  - split; [done|]. by intros [_ ?].
  - split; [by destruct (automatic_cause a b)|]. by intros [? _].
  - split; [done|]. by intros [? _].
Qed.

(** A cache without lines is printed as an empty list, and the script fails on it. *)
Lemma empty_cache_fails tags which i :
  fst <$> list_find (λ l, l = "[system.ruby.l1_cntrl0.L1" +:+ which +:+ "cache]") tags = Some i →
  tags !! S i = Some "addresses=" → get_cache tags which = Raise ValueError.
Proof. intros Hi Ha. unfold get_cache. by rewrite Hi; cbn [from_option mbind result_bind]; rewrite Ha. Qed.

(** ** A split load that is cleaned up in neither run *)
Module CauseDemo.
Definition tags (i d : string) : string :=
  str_join newline ["[system.ruby.l1_cntrl0.L1Icache]"; "addresses=" +:+ i; "[system.ruby.l1_cntrl0.L1Dcache]"; "addresses=" +:+ d].
Definition run (rt pt d1 d2 : string) : result string := analyse_cause (λ _, "") rt pt (tags "64 128" d1) (tags "64 128" d2).
End CauseDemo.

Example split_found : CauseDemo.run "" "" "4096 14720 14784" "4096" = Ok "Split Requests Not Cleaned".
Proof. by vm_compute. Qed.
Example store_found : CauseDemo.run "1: [line 0x3980] ST" "" "4096 14720" "4096" = Ok "Speculative Store Not Cleaned".
Proof. by vm_compute. Qed.
Example cleaning_found :
  CauseDemo.run "" ("1: [line 0x3980] LD" +:+ newline +:+ "2: [line 0x3980] CLEANUP") "4096 14720" "4096" = Ok "Too Much Cleaning".
Proof. by vm_compute. Qed.
Example nothing_found : CauseDemo.run "" "" "4096 14720" "4096" = Ok "Other".
Proof. by vm_compute. Qed.
Example empty_cache : CauseDemo.run "" "" "" "4096" = Raise ValueError.
Proof. by vm_compute. Qed.
